(* ===== verification/_CoqProject ===== *)
-Q . S2P
Prelude.v
Locks.v
BTree.v
Address.v
Defines.v
Boot.v
Kst.v
Tracer.v
IdAllocator.v
FrameAllocator.v
PageTable.v
VmArea.v
MemorySpace.v
SpaceOps.v
Fork.v
InitStack.v
UserCheck.v
UserAccess.v
Trap.v
Signal.v
FdTable.v
Process.v
ProcessTree.v
ProcessSteps.v
ProcessSpec.v
Inode.v
MemSyscalls.v
UserLib.v
UserStart.v
Shell.v
Pipe.v
Tty.v
Fat.v
Disk.v
DirEntry.v
FatFile.v
FatDir.v
Vfs.v
VfsSpec.v
ProcFs.v
SysFs.v
SysFsSpec.v
SysFsPaths.v
SysFsDemo.v
Executor.v
ExecutorSpec.v
Machine.v
FatVfs.v
FatVfsDemo.v
MachineSpec.v
MachineDemo.v
UserAbi.v
Drivers.v
