(* ===== verification/Prelude.v ===== *)
(** * asynclear: a verification library for the kernel

    asynclear is a small asynchronous Unix-like kernel for RISC-V (Sv39) in Rust.
    Each user thread is a future: it enters user mode, traps, and handles the
    trap in [user_thread_loop]; an executor polls the ready threads. This library
    models the kernel's own logic as Rocq functions and proves what makes them
    correct. Paths below are relative to [src/crates/], those of the user library to
    [src/].

    ** The parts and the files that model them

    - [Prelude], [BTree], [Kst]: results with panics ([outcome]), checked machine
      arithmetic, bit flags, little-endian bytes, UTF-8; ordered maps as the
      standard library's [BTreeMap] iterates them; a state, error and panic monad
      with its Hoare rules. No source of the kernel, but what the others share.
    - [Address]: [utils/common/src/config.rs], [constant.rs],
      [libkernel/src/memory/address.rs], the linear mapping of [memory/mod.rs].
    - [Defines]: error codes, flags and structures of [utils/defines/src].
    - [IdAllocator]: [utils/idallocator], the allocator of pids and tids.
    - [FrameAllocator]: [memory/frame_allocator.rs] over the third-party buddy
      allocator (class [Buddy]) and the contents of physical memory ([Mem]).
    - [PageTable]: [memory/memory_space/page_table.rs] against the hardware's walk.
    - [VmArea], [MemorySpace], [SpaceOps], [Fork]: [vm_area.rs] and
      [memory_space/mod.rs]: areas, page faults, [mmap], [munmap], [brk], [fork]'s
      copy, recycling; [InitStack]: [init_stack.rs], the stack [exec] builds.
    - [UserCheck], [UserAccess]: [memory/user_check.rs], and the class
      [UserMemory] through which system calls see user memory.
    - [Trap], [Signal]: [libkernel/src/trap], [thread], [signal] and
      [kernel/src/syscall/signal.rs]: contexts, delivery, [rt_sigreturn].
    - [FdTable]: the descriptor table of [fs/file.rs] and its system calls.
    - [Process]: [libkernel/src/process], [thread/mod.rs] and
      [kernel/src/syscall/process.rs]; [ProcessTree] is the abstract process
      tree, [ProcessSteps] the refinement, [ProcessSpec] the system calls.
    - [Inode], [Pipe]: [fs/inode.rs] with [page_cache.rs], and [fs/pipe.rs].
    - [Fat], [DirEntry], [FatFile], [FatDir]: [utils/fat32] and
      [fs/fat32_vfs]: the volume, the allocation table, directory entries, files
      and directories.
    - [Vfs], [VfsSpec]: [fs/dentry.rs] and [fs/mod.rs]: the dentry cache, path walk
      and mounts, over the class [DirBackend] (the trait [DirInodeBackend]); the
      trees of [tmpfs], [devfs], [procfs] and [init_vfs] of [kernel/src/glue.rs].
    - [SysFs], [SysFsSpec], [SysFsPaths], [SysFsDemo]: open files of [fs/file.rs]
      and the calls of [kernel/src/syscall/fs.rs], over the class [World] (user
      memory and what is behind the inodes); a file system in memory.
    - [MemSyscalls]: [kernel/src/syscall/memory.rs].
    - [Tty]: [fs/devfs/src/tty.rs], [rtc.rs] and [drivers/qemu_uart].
    - [Executor], [ExecutorSpec]: [utils/executor], [arch/riscv_time],
      [kernel/src/syscall/time.rs] and [misc.rs]; the executor's states and steps.
    - [Machine], [MachineSpec], [MachineDemo]: the table of system calls
      ([kernel/src/syscall/mod.rs]), [sys_execve], the traps and the poll of a user
      thread ([kernel/src/glue.rs]), on a state that joins those of the
      components; the class [UserWorld] says that the file systems see the address
      space of the process and that the terminal is a part of its own.
    - [Locks]: [utils/klocks/src/kspin.rs] and [arch/riscv_guard]: the guards of
      [sstatus] and the spin locks, over harts and interrupts (class [SpinBase]).
    - [Boot]: [kernel/src/main.rs] and [lang_items.rs]: start-up, panic, shutdown.
    - [Drivers], [Disk]: [drivers/qemu_plic], [drivers/virtio_glue] and
      [kernel/src/drivers.rs] (classes [PlicDevice] and [VirtIOBlk]).
    - [ProcFs]: the text files of [fs/procfs].
    - [FatVfs], [FatVfsDemo]: [fs/fat32_vfs] behind the dentry cache and the file
      system calls, with the page cache in between.
    - [Tracer]: [utils/kernel_tracer], [kernel/src/tracer/mod.rs] and
      [libkernel/src/hart]: spans, log lines, the harts (classes [Slab], [AnsiStyle]).
    - [UserLib], [UserStart], [UserAbi]: [user/src/lib.rs], [console.rs] and
      [syscall.rs]: the library user programs are linked with; [Shell]:
      [user/src/bin/shell.rs], over the class [ShellEnv] (its system calls).

    ** How the code is modelled

    A [usize] is a [Z] in [0, 2^64); arithmetic is checked as under the dev
    profile, so that an overflow, a failed [assert!], an [unwrap] of [None], an
    index out of range or a [todo!] is [Panic] (in the state monad [Crash]). An
    error code is [Err] ([Fail], which keeps the state reached). A [BTreeMap] is a
    [gmap] with sorted iteration; where a [HashMap] is iterated its order is a
    parameter. Locks are held for a whole operation, so an operation is one
    atomic step; an [await] that suspends is the end of a step. An [Arc] is the
    key of an object in a store where sharing matters, and its value otherwise.
    Code of other crates is a class with the laws that crate documents: [Buddy],
    [AsyncChannel], [AsyncTask], [ArrayQueue], [BlockDevice], [EcoStr], [Chrono],
    [SpinBase], [PlicDevice], [VirtIOBlk], [Slab], [AnsiStyle], [UserHeap],
    [ProcessEnv] (the ELF parser, boot data, and whether [debug!] lines are
    logged); each is instantiated by a concrete one in the examples that witness
    the theorems.

    ** What the theorems show

    - Memory: [map] and [unmap] implement insertion and deletion in the
      translation the hardware performs; frames handed out were free; each
      operation of an address space keeps areas, page table and frames in step
      and has exactly its documented effect; [fork] copies areas, touched pages
      and mapped files without touching the parent; the initial stack is byte for
      byte the documented image; a check of a user range maps what it promises,
      or panics on a range that wraps around.
    - Signals and traps: a handler is entered and left without a trace in the
      integer registers and the mask (the floating-point unit keeps its
      values); masks and actions are what the system calls were given.
    - Processes: every handler moves a reachable kernel along the abstract process
      tree; links form a tree; shutdown means every process has ended; no wake-up
      of [wait4] is lost; [fork], [wait4] and [kill] on every branch.
    - Files: reads and writes through the page cache, descriptors, pipes as
      queues (but for the byte a failed read takes), the FAT32 volume from its
      boot sector and root directory to the bytes of its files.
    - The file tree: over every sequence of calls the tree, the mounts and the open
      files stay consistent and [umount] puts back the entry it hid; paths lead
      back to their directories; renames move exactly one entry of the cache and
      never make a cycle; [openat] creates what the file system gives it, [chdir]
      and [getcwd] agree, what is mounted is found and what is unmounted is gone.
    - Time: over every interleaving of interrupts, spawns and polls, a sleeper past
      its deadline is finished within a bounded number of steps and none ends
      before it; no reader of the terminal that asks for bytes is left asleep while
      there is input.
    - The machine: a page fault from the trap to the retry, to the end of the
      process or to the panic on file-backed areas; [clone] returns twice;
      null pointers are [EINVAL]; the floating-point registers survive a switch;
      [mmap], [munmap] and [brk] on every branch, and memory comes back after use.
    - Below the kernel: locks exclude their holders over every interleaving of
      harts and interrupts, and a handler never waits for a lock of the code it
      interrupted; one hart initialises, and the others run after it; external
      interrupts are claimed, served and completed; the block cache asks the
      device once and agrees with it; tracing does not panic unless an interrupt
      comes while its hart has the span stack borrowed, and names the spans a line
      was written in.
    - End to end: a path leads to the bytes of the clusters on the disk; a wrapper
      of the user library has the handler it means run; the arguments of [execve]
      reach [main]; an exit code reaches the parent; the memory a program allocates
      is its own; the shell shows what it will run.

    Lemmas that show code which does not do what it means to carry the
    counterexample as a closed computation (for example
    [Inode.write_at_loses_bytes]).

    ** Bounds and fuel

    Recursion that is not structural takes fuel that the callers set high enough:
    page loops the number of bytes left, cluster walks the number of clusters,
    the chain iteration the size of the table, directory iteration the number of
    entries, the pointers of [execve] the addresses below [2 ^ 64]; the theorems
    include that the result is reached. Running out of fuel is [Panic] or
    [None] and never a success. Page numbers of a file are below [2 ^ 29], the
    width the FAT code keeps of a sector index.

    ** Not modelled

    Assembly; the search of the device tree and the setting up of the kernel heap
    (third-party crates); the profiling feature of the tracer; the registers of the
    serial port but for the byte received; the pages of [tmpfs] files;
    [block_on], which runs a future before the executor exists; the test programs
    and build tools. Operations under a lock are single steps in every model but that
    of the locks, which shows that their critical sections exclude each other.
    Waits inside files and pipes run to their end in the machine; the executor's
    model has tasks that sleep. Dentries and open files are never taken out of
    their stores, as the last [Arc] would: what is dropped can no longer be reached
    from the tree or a descriptor. An exit of a thread is one step. *)
From stdpp Require Export prelude gmap list strings sorting.

#[global] Open Scope Z_scope.
#[global] Set Default Goal Selector "!".

(** ** Outcomes

    A kernel function returns a value, returns an error code, or panics
    ([assert!], [unwrap], [todo!], an index out of range, an arithmetic
    overflow under the dev profile's overflow checks). *)
Inductive outcome (E A : Type) : Type :=
| Ok (val : A)
| Err (err : E)
| Panic.
Arguments Ok {E A} val.
Arguments Err {E A} err.
Arguments Panic {E A}.

#[export] Instance outcome_ret {E} : MRet (outcome E) := λ A x, Ok x.
#[export] Instance outcome_bind {E} : MBind (outcome E) := λ A B f o,
  match o with Ok x => f x | Err e => Err e | Panic => Panic end.
#[export] Instance outcome_fmap {E} : FMap (outcome E) := λ A B f o,
  match o with Ok x => Ok (f x) | Err e => Err e | Panic => Panic end.
#[export] Instance outcome_eq_dec `{EqDecision E, EqDecision A} :
  EqDecision (outcome E A).
Proof. solve_decision. Defined.

(** [Option::ok_or]. *)
Definition ok_or {E A} (o : option A) (e : E) : outcome E A :=
  match o with Some x => Ok x | None => Err e end.

(** [Option::unwrap] and [Option::expect]. *)
Definition unwrap {E A} (o : option A) : outcome E A :=
  match o with Some x => Ok x | None => Panic end.

(** [assert!] and [debug_assert!]. *)
Definition assert {E} (b : bool) : outcome E () :=
  if b then Ok () else Panic.

(** A function that never panics nor fails on a given input. *)
Definition is_ok {E A} (o : outcome E A) : bool :=
  match o with Ok _ => true | _ => false end.

Definition is_panic {E A} (o : outcome E A) : bool :=
  match o with Panic => true | _ => false end.

Declare Scope kernel_scope.
Delimit Scope kernel_scope with K.
Notation "'let?' x ':=' m 'in' k" := (mbind (λ x, k) m)
  (at level 200, x pattern, m at level 100, k at level 200,
   right associativity) : kernel_scope.
Notation "'check' b 'in' k" := (mbind (λ _, k) (assert b))
  (at level 200, b at level 100, k at level 200,
   right associativity) : kernel_scope.
#[global] Open Scope kernel_scope.

Lemma bind_Ok {E A B} (m : outcome E A) (k : A → outcome E B) b :
  m ≫= k = Ok b ↔ ∃ a, m = Ok a ∧ k a = Ok b.
Proof. destruct m; unfold mbind, outcome_bind; naive_solver. Qed.

Lemma assert_Ok {E} b u : assert (E:=E) b = Ok u ↔ b = true.
Proof. destruct b, u; naive_solver. Qed.

Lemma unwrap_Ok {E A} (o : option A) x : unwrap (E:=E) o = Ok x ↔ o = Some x.
Proof. destruct o; naive_solver. Qed.

Lemma ok_or_Ok {E A} (o : option A) (e : E) x : ok_or o e = Ok x ↔ o = Some x.
Proof. destruct o; naive_solver. Qed.

(** [inv_ok] takes a hypothesis [m = Ok _] apart along the binds. *)
Ltac subst_var H := try match type of H with ?x = _ => is_var x; subst x end.
Ltac inv_ok_step :=
  match goal with
  | H : Ok _ = Ok _ |- _ => injection H as H; subst
  | H : Err _ = Ok _ |- _ => discriminate H
  | H : Panic = Ok _ |- _ => discriminate H
  | H : mret _ = Ok _ |- _ => unfold mret, outcome_ret in H
  | H : _ ≫= _ = Ok _ |- _ =>
      apply bind_Ok in H; destruct H as (? & ? & H)
  | H : assert _ = Ok _ |- _ => apply assert_Ok in H
  | H : unwrap _ = Ok _ |- _ => apply unwrap_Ok in H; subst_var H
  | H : ok_or _ _ = Ok _ |- _ => apply ok_or_Ok in H; subst_var H
  | H : (_, _) = (_, _) |- _ => injection H as; subst
  | H : match ?x with pair _ _ => _ end = Ok _ |- _ => destruct x
  end.
Ltac inv_ok := repeat inv_ok_step; simpl in *.

(** ** Machine integers

    A [uN] is a [Z] in [0, 2^N); [usize] is [u64] on riscv64. *)
Definition wrap (w x : Z) : Z := x mod 2 ^ w.
Definition in_uint (w x : Z) : bool := (0 <=? x) && (x <? 2 ^ w).
Definition usize_max : Z := 2 ^ 64 - 1.

(** [+], [-] and [*] of the dev profile: they panic on overflow. *)
Definition checked {E} (w x : Z) : outcome E Z :=
  if in_uint w x then Ok x else Panic.
Definition uadd {E} (w a b : Z) : outcome E Z := checked w (a + b).
Definition usub {E} (w a b : Z) : outcome E Z := checked w (a - b).
Definition umul {E} (w a b : Z) : outcome E Z := checked w (a * b).

(** [usize::div_ceil] and [next_multiple_of] (the latter may overflow). *)
Definition div_ceil (a b : Z) : Z :=
  if a mod b =? 0 then a / b else a / b + 1.

(** [as iN]: reinterpretation of the low [w] bits as a signed number. *)
Definition to_signed (w x : Z) : Z :=
  let y := wrap w x in if y <? 2 ^ (w - 1) then y else y - 2 ^ w.

Lemma in_uint_true w x : in_uint w x = true ↔ 0 ≤ x < 2 ^ w.
Proof. unfold in_uint. rewrite andb_true_iff, Z.leb_le, Z.ltb_lt. done. Qed.

Lemma checked_Ok {E} w x y : checked (E:=E) w x = Ok y ↔ x = y ∧ 0 ≤ x < 2 ^ w.
Proof.
  unfold checked. destruct (in_uint w x) eqn:H.
  - apply in_uint_true in H. naive_solver.
  - split; [done|]. intros [_ H']. apply in_uint_true in H'. congruence.
Qed.

Lemma checked_fits {E} w x : 0 ≤ x < 2 ^ w → checked (E:=E) w x = Ok x.
Proof. intros. by apply checked_Ok. Qed.

Lemma checked_overflow {E} w x : 2 ^ w ≤ x → checked (E:=E) w x = Panic.
Proof.
  intros H. unfold checked, in_uint.
  by rewrite (proj2 (Z.ltb_ge x (2 ^ w))), andb_false_r.
Qed.

Lemma wrap_small w x : 0 ≤ x < 2 ^ w → wrap w x = x.
Proof. apply Z.mod_small. Qed.

Lemma wrap_land w x : 0 ≤ w → wrap w x = Z.land x (Z.ones w).
Proof. intros. unfold wrap. by rewrite Z.land_ones. Qed.

Lemma div_ceil_spec a b : 0 < b → (div_ceil a b - 1) * b < a ≤ div_ceil a b * b.
Proof.
  intros Hb. unfold div_ceil. pose proof (Z.div_mod a b ltac:(lia)).
  pose proof (Z.mod_pos_bound a b Hb). case_match eqn:Hm; [lia|]. nia.
Qed.

Lemma div_ceil_le_iff a b c : 0 < b → div_ceil a b ≤ c ↔ a ≤ c * b.
Proof. intros Hb. pose proof (div_ceil_spec a b Hb). split; nia. Qed.

Lemma div_ceil_mul a b : 0 < b → div_ceil (a * b) b = a.
Proof.
  intros. unfold div_ceil. rewrite Z.mod_mul by lia. simpl.
  by rewrite Z.div_mul by lia.
Qed.

(** [lia] with [/] and [mod] by constants replaced by their equations. *)
Ltac lia_div := Z.div_mod_to_equations; lia.

(** ** Bit flags

    The [bitflags!] types are integers; the operations are the ones the crate
    generates, relative to the mask of all the bits the type declares. *)
Module Flags.
Definition contains (a b : Z) : bool := Z.land a b =? b.
Definition intersects (a b : Z) : bool := negb (Z.land a b =? 0).
Definition from_bits (mask x : Z) : option Z :=
  if Z.land x (Z.lnot mask) =? 0 then Some x else None.
Definition from_bits_truncate (mask x : Z) : Z := Z.land x mask.
Definition difference (a b : Z) : Z := Z.land a (Z.lnot b).
Definition union (a b : Z) : Z := Z.lor a b.
Definition complement (mask a : Z) : Z := Z.land (Z.lnot a) mask.
Definition set (a b : Z) (value : bool) : Z :=
  if value then union a b else difference a b.
End Flags.

(** [bitwise] proves an equation between bit expressions bit by bit. *)
Ltac bit_rewrite :=
  repeat first
    [ rewrite Z.land_spec | rewrite Z.lor_spec | rewrite Z.lxor_spec
    | rewrite Z.shiftl_spec by lia | rewrite Z.shiftr_spec by lia
    | rewrite Z.lnot_spec by lia
    | rewrite Z.testbit_ones_nonneg by lia
    | rewrite Z.testbit_0_l ].
Ltac bitwise n :=
  apply Z.bits_inj'; intros n ?; bit_rewrite.

Lemma contains_pow2 a i : 0 ≤ i → Flags.contains a (2 ^ i) = Z.testbit a i.
Proof.
  intros Hi. unfold Flags.contains. destruct (Z.testbit a i) eqn:Hb.
  - apply Z.eqb_eq. bitwise n. rewrite Z.pow2_bits_eqb by lia.
    destruct (Z.eqb_spec i n); [subst; by rewrite Hb|by rewrite andb_false_r].
  - apply Z.eqb_neq. intros H.
    assert (Z.testbit (Z.land a (2 ^ i)) i = Z.testbit (2 ^ i) i) as H'
      by by rewrite H.
    by rewrite Z.land_spec, Hb, Z.pow2_bits_true in H'.
Qed.

(** The bits of a value below [2^w] vanish from [w] on. *)
Lemma testbit_high x w n : 0 ≤ x < 2 ^ w → w ≤ n → Z.testbit x n = false.
Proof.
  intros [H0 H] Hn. destruct (decide (0 ≤ w)); cycle 1.
  { rewrite Z.pow_neg_r in H by lia. lia. }
  destruct (decide (x = 0)) as [->|]; [apply Z.testbit_0_l|].
  apply Z.bits_above_log2; [done|].
  apply Z.log2_lt_pow2; [lia|].
  eapply Z.lt_le_trans; [exact H|]. apply Z.pow_le_mono_r; lia.
Qed.

(** ... and a number whose bits vanish from [w] on is below [2^w]. *)
Lemma below_pow2 x w :
  0 ≤ w → 0 ≤ x → (∀ n, w ≤ n → Z.testbit x n = false) → 0 ≤ x < 2 ^ w.
Proof.
  intros Hw Hx Hb.
  assert (x mod 2 ^ w = x) as <-; [|apply Z.mod_pos_bound; lia].
  rewrite <- Z.land_ones by done. bitwise n. destruct (Z.ltb_spec n w); [by rewrite andb_true_r|].
  by rewrite Hb.
Qed.

(** ** Little-endian integers, [uN::from_le_bytes] *)
Fixpoint from_le_bytes (bs : list Z) : Z :=
  match bs with
  | [] => 0
  | b :: bs => b + 256 * from_le_bytes bs
  end.
Fixpoint to_le_bytes (n : nat) (x : Z) : list Z :=
  match n with
  | O => []
  | S n => x mod 256 :: to_le_bytes n (x / 256)
  end.
Definition is_byte (b : Z) : Prop := 0 ≤ b < 256.

Lemma length_to_le_bytes n x : length (to_le_bytes n x) = n.
Proof. revert x. induction n; simpl; auto. Qed.

Lemma from_le_bytes_bound bs :
  Forall is_byte bs → 0 ≤ from_le_bytes bs < 2 ^ (8 * Z.of_nat (length bs)).
Proof.
  induction 1 as [|b bs Hb _ IH]; simpl; [done|].
  replace (8 * Z.of_nat (S (length bs))) with (8 + 8 * Z.of_nat (length bs)) by lia.
  rewrite Z.pow_add_r by lia. change (2 ^ 8) with 256.
  unfold is_byte in Hb. nia.
Qed.

Lemma to_from_le_bytes bs :
  Forall is_byte bs → to_le_bytes (length bs) (from_le_bytes bs) = bs.
Proof.
  induction 1 as [|b bs Hb _ IH]; simpl; [done|]. unfold is_byte in Hb.
  rewrite (Z.mul_comm 256), Z.mod_add, Z.mod_small by lia.
  rewrite Z.div_add, Z.div_small, Z.add_0_l by lia. by rewrite IH.
Qed.

Lemma from_to_le_bytes n x :
  0 ≤ x < 2 ^ (8 * Z.of_nat n) → from_le_bytes (to_le_bytes n x) = x.
Proof.
  revert x. induction n as [|n IH]; intros x Hx; simpl.
  { change (2 ^ (8 * Z.of_nat 0)) with 1 in Hx. lia. }
  rewrite IH.
  { pose proof (Z.div_mod x 256). lia. }
  replace (8 * Z.of_nat (S n)) with (8 + 8 * Z.of_nat n) in Hx by lia.
  rewrite Z.pow_add_r in Hx by lia. change (2 ^ 8) with 256 in Hx.
  split; [apply Z.div_pos; lia|]. apply Z.div_lt_upper_bound; lia.
Qed.

(** ** Lists of equal pieces: [array_chunks] and its inverse *)
Section pieces.
Context {A B : Type} (f : A → list B) (k : nat).
Hypothesis Hk : ∀ x, length (f x) = k.

Lemma length_pieces l : length (concat (f <$> l)) = (length l * k)%nat.
Proof. induction l as [|x l IH]; [done|]. csimpl. rewrite length_app, Hk, IH. lia. Qed.
Lemma drop_pieces n l : drop (n * k) (concat (f <$> l)) = concat (f <$> drop n l).
Proof.
  revert l. induction n as [|n IH]; intros l; [done|]. destruct l as [|x l]; csimpl; [by rewrite drop_nil|].
  rewrite drop_app_ge by (rewrite Hk; lia). rewrite Hk, <- IH. f_equal. lia.
Qed.
Lemma take_pieces n l : take (n * k) (concat (f <$> l)) = concat (f <$> take n l).
Proof.
  revert l. induction n as [|n IH]; intros l; [done|]. destruct l as [|x l]; csimpl; [by rewrite take_nil|].
  rewrite take_app_ge by (rewrite Hk; lia). rewrite Hk, <- IH. do 2 f_equal. lia.
Qed.
Lemma drop_piece n o l x :
  l !! n = Some x → (o ≤ k)%nat →
  drop (n * k + o) (concat (f <$> l)) = drop o (f x) ++ drop (S n * k) (concat (f <$> l)).
Proof.
  intros Hx Ho. rewrite <- drop_drop, !drop_pieces, (drop_S _ _ _ Hx). csimpl.
  by rewrite drop_app_le by (rewrite Hk; lia).
Qed.
End pieces.

(** ** Strings *)
(** [core::str::from_utf8]: the well-formed byte sequences of UTF-8. *)
Definition utf8_cont (b : Z) : bool := (0x80 <=? b) && (b <=? 0xBF).
Fixpoint valid_utf8 (bs : list Z) : bool :=
  match bs with
  | [] => true
  | b0 :: r =>
      if b0 <? 0x80 then valid_utf8 r else
      match r with
      | b1 :: r1 =>
          if (0xC2 <=? b0) && (b0 <=? 0xDF) then utf8_cont b1 && valid_utf8 r1 else
          match r1 with
          | b2 :: r2 =>
              if (0xE0 <=? b0) && (b0 <=? 0xEF) then
                utf8_cont b1 && utf8_cont b2 &&
                negb ((b0 =? 0xE0) && (b1 <? 0xA0)) &&
                negb ((b0 =? 0xED) && (0x9F <? b1)) && valid_utf8 r2
              else
              match r2 with
              | b3 :: r3 =>
                  (0xF0 <=? b0) && (b0 <=? 0xF4) &&
                  utf8_cont b1 && utf8_cont b2 && utf8_cont b3 &&
                  negb ((b0 =? 0xF0) && (b1 <? 0x90)) &&
                  negb ((b0 =? 0xF4) && (0x8F <? b1)) && valid_utf8 r3
              | [] => false
              end
          | [] => false
          end
      | [] => false
      end
  end.
