(* ===== verification/Locks.v ===== *)
(** * Spin locks and interrupts

    [utils/klocks/src/kspin.rs] and [arch/riscv_guard]: the guards that switch
    interrupts off or user memory on, the two kinds of spin lock, and every
    interleaving of harts and interrupts that take them. The lock bit itself is
    that of the third-party crate [spin]. *)
From S2P Require Import Prelude.

(** ** Guards

    The two bits of [sstatus]. *)
Record Sstatus : Type := mkSstatus { sie : bool; sum : bool }.
#[export] Instance Sstatus_eq_dec : EqDecision Sstatus.
Proof. solve_decision. Defined.
Definition set_sie (b : bool) (c : Sstatus) : Sstatus := mkSstatus b (sum c).
Definition set_sum (b : bool) (c : Sstatus) : Sstatus := mkSstatus (sie c) b.

Inductive guard : Type := NoIrqGuard (before : bool) | AccessUserGuard (before : bool).
Definition NoIrqGuard_new (c : Sstatus) : guard * Sstatus :=
  let before := sie c in (NoIrqGuard before, if before then set_sie false c else c).
Definition AccessUserGuard_new (c : Sstatus) : guard * Sstatus :=
  let before := sum c in (AccessUserGuard before, if before then c else set_sum true c).
Definition guard_drop (g : guard) (c : Sstatus) : Sstatus :=
  match g with
  | NoIrqGuard before => if before then set_sie true c else c
  | AccessUserGuard before => if before then c else set_sum false c
  end.

(** A block of code: guards live for the blocks they enclose. *)
Inductive block : Type := Skip | Seq (a b : block) | NoIrqBlock (b : block) | UserBlock (b : block).
(** The register at the end of a block, and [ok] at every point inside, under the
    guards alive there. *)
Fixpoint run_block (ok : bool → bool → Sstatus → bool) (irq user : bool) (b : block) (c : Sstatus) : bool * Sstatus :=
  match b with
  | Skip => (ok irq user c, c)
  | Seq a b => let '(r, c) := run_block ok irq user a c in let '(r', c) := run_block ok irq user b c in (r && r', c)
  | NoIrqBlock b =>
      let '(g, c) := NoIrqGuard_new c in let '(r, c) := run_block ok true user b c in (r, guard_drop g c)
  | UserBlock b =>
      let '(g, c) := AccessUserGuard_new c in let '(r, c) := run_block ok irq true b c in (r, guard_drop g c)
  end.
(** No interrupt under a [NoIrqGuard], user memory accessible under the other. *)
Definition as_promised (irq user : bool) (c : Sstatus) : bool := (negb irq || negb (sie c)) && (negb user || sum c).

Lemma guards_nest b : ∀ irq user c,
  as_promised irq user c = true → run_block as_promised irq user b c = (true, c).
Proof.
  induction b as [|a IHa b IHb|b IH|b IH]; intros irq user [i u] Hc; simpl.
  - by rewrite Hc.
  - rewrite IHa, IHb by done. reflexivity.
  - rewrite IH by (destruct i, u, irq, user; done). by destruct i.
  - rewrite IH by (destruct i, u, irq, user; done). by destruct u.
Qed.
(** Dropped in another order they leave interrupts on under a live guard. *)
Lemma guards_crossed :
  let c := mkSstatus true false in
  let '(g1, c) := NoIrqGuard_new c in let '(g2, c) := NoIrqGuard_new c in sie (guard_drop g1 c) = true.
Proof. reflexivity. Qed.

(** ** The lock bit: [spin::mutex::SpinMutex] *)
Class SpinBase (B : Type) := {
  sb_new : B;
  sb_is_locked : B → bool;
  sb_try_lock : B → option B;
  sb_unlock : B → B;
  sb_new_free : sb_is_locked sb_new = false;
  sb_try_lock_free b : sb_is_locked b = false → ∃ b', sb_try_lock b = Some b' ∧ sb_is_locked b' = true;
  sb_try_lock_held b : sb_is_locked b = true → sb_try_lock b = None;
  sb_unlock_free b : sb_is_locked b = true → sb_is_locked (sb_unlock b) = false;
}.

Inductive lock_kind : Type := Plain | NoIrq.
#[export] Instance lock_kind_eq_dec : EqDecision lock_kind.
Proof. solve_decision. Defined.

Section locks.
Context {B : Type} `{SpinBase B}.
(** Locks are numbered; [kind l] says whether it is a [SpinMutex] or a
    [SpinNoIrqMutex]. *)
Variable kind : Z → lock_kind.

(** Where the code of a frame is: outside, in [try_lock] (before the read of [SIE],
    before its clearing, before the exchange of the bit, before the drop of the
    guard when that failed), in the inner loop of [lock], in the drop of a lock's
    guard (before the bit is cleared, before [SIE] is set again); [Dead] is the
    panic of the deadlock detection. *)
Inductive lock_pc : Type :=
| Run
| AtTry (l : Z)
| AtClear (l : Z)
| AtCas (l : Z) (before : bool)
| AtFail (l : Z) (before : bool)
| AtSpin (l : Z)
| AtDrop (l : Z) (before : bool)
| AtRestore (l : Z) (before : bool)
| Dead.

(** A frame: kernel code or an interrupt handler. [f_held] are its guards, the
    latest first, [f_begin] the time [lock] was called, [f_entry] the [SIE] it was
    entered with. *)
Record frame : Type := mkFrame { f_pc : lock_pc; f_held : list (Z * bool); f_begin : Z; f_entry : bool }.
Definition at_pc (x : lock_pc) (f : frame) : frame := mkFrame x (f_held f) (f_begin f) (f_entry f).

Definition base (bs : gmap Z B) (l : Z) : B := default sb_new (bs !! l).
Definition locked (bs : gmap Z B) (l : Z) : bool := sb_is_locked (base bs l).

(** The next instruction inside [lock] or a drop, at time [ms]. *)
Definition frame_next (ms : Z) (bs : gmap Z B) (irq : bool) (f : frame) : option (gmap Z B * bool * frame) :=
  match f_pc f with
  | Run | Dead => None
  | AtTry l =>
      Some (bs, irq, at_pc (match kind l with
                            | Plain => AtCas l false
                            | NoIrq => if irq then AtClear l else AtCas l false
                            end) f)
  | AtClear l => Some (bs, false, at_pc (AtCas l true) f)
  | AtCas l before =>
      Some (match sb_try_lock (base bs l) with
            | Some b => (<[l := b]> bs, irq, mkFrame Run ((l, before) :: f_held f) (f_begin f) (f_entry f))
            | None => (bs, irq, at_pc (AtFail l before) f)
            end)
  | AtFail l before => Some (bs, if before then true else irq, at_pc (AtSpin l) f)
  | AtSpin l =>
      Some (bs, irq, at_pc (if locked bs l then if 2000 <=? ms - f_begin f then Dead else AtSpin l else AtTry l) f)
  | AtDrop l before => Some (<[l := sb_unlock (base bs l)]> bs, irq, at_pc (AtRestore l before) f)
  | AtRestore l before => Some (bs, if before then true else irq, at_pc Run f)
  end.

(** ** Harts and interrupts *)
Record lock_hart : Type := mkHart { h_irq : bool; h_run : frame; h_below : list frame }.
Record locking : Type := mkLocking { lk_ms : Z; lk_bits : gmap Z B; lk_harts : gmap Z lock_hart }.
Definition put_hart (h : Z) (x : lock_hart) (s : locking) : locking :=
  mkLocking (lk_ms s) (lk_bits s) (<[h := x]> (lk_harts s)).

(** Guards are dropped in the reverse order of their creation, as the comment in
    [riscv_guard] demands. *)
Inductive lock_step : locking → locking → Prop :=
| ls_tick s ms : lk_ms s ≤ ms → lock_step s (mkLocking ms (lk_bits s) (lk_harts s))
| ls_next s h irq f below bs irq' f' :
    lk_harts s !! h = Some (mkHart irq f below) →
    frame_next (lk_ms s) (lk_bits s) irq f = Some (bs, irq', f') →
    lock_step s (mkLocking (lk_ms s) bs (<[h := mkHart irq' f' below]> (lk_harts s)))
| ls_lock s h irq f below l :
    lk_harts s !! h = Some (mkHart irq f below) → f_pc f = Run →
    lock_step s (put_hart h (mkHart irq (mkFrame (AtTry l) (f_held f) (lk_ms s) (f_entry f)) below) s)
| ls_drop s h irq f below l b rest :
    lk_harts s !! h = Some (mkHart irq f below) → f_pc f = Run → f_held f = (l, b) :: rest →
    lock_step s (put_hart h (mkHart irq (mkFrame (AtDrop l b) rest (f_begin f) (f_entry f)) below) s)
| ls_irq s h f below :
    lk_harts s !! h = Some (mkHart true f below) →
    lock_step s (put_hart h (mkHart false (mkFrame Run [] (lk_ms s) false) (f :: below)) s)
| ls_iret s h irq f g below :
    lk_harts s !! h = Some (mkHart irq f (g :: below)) → f_pc f = Run → f_held f = [] →
    lock_step s (put_hart h (mkHart true g below) s).

(** No lock taken, every hart in kernel code. *)
Definition locks_init (s : locking) : Prop :=
  lk_bits s = ∅ ∧ ∀ h x, lk_harts s !! h = Some x → ∃ irq, x = mkHart irq (mkFrame Run [] 0 irq) [].

(** ** Who holds what *)
Definition owned (f : frame) : list Z :=
  match f_pc f with AtDrop l _ => [l] | _ => [] end ++ (f_held f).*1.
Definition hart_owned (x : lock_hart) : list Z := owned (h_run x) ++ concat (owned <$> h_below x).
Definition all_owned (s : locking) : list Z := concat (hart_owned <$> (map_to_list (lk_harts s)).*2).

(** The [NoIrqGuard]s of a frame, the latest first. *)
Definition irq_guard (l : Z) (b : bool) : list bool := match kind l with NoIrq => [b] | Plain => [] end.
Definition irq_guards (f : frame) : list bool :=
  match f_pc f with AtCas l b | AtFail l b | AtDrop l b | AtRestore l b => irq_guard l b | _ => [] end ++
  concat ((λ g, irq_guard g.1 g.2) <$> f_held f).

(** ** Mutual exclusion *)
Definition exclusive (bs : gmap Z B) (own : list Z) : Prop := NoDup own ∧ ∀ l, locked bs l = true ↔ l ∈ own.

#[global] Instance exclusive_proper bs : Proper ((≡ₚ) ==> iff) (exclusive bs).
Proof. intros o1 o2 Ho. unfold exclusive. by setoid_rewrite Ho. Qed.

Lemma locked_insert bs l b l' :
  locked (<[l := b]> bs) l' = if decide (l = l') then sb_is_locked b else locked bs l'.
Proof. unfold locked, base. rewrite lookup_insert. by case_decide. Qed.
Lemma exclusive_take bs own l b :
  exclusive bs own → sb_try_lock (base bs l) = Some b → exclusive (<[l := b]> bs) (l :: own).
Proof.
  intros [Hn Hl] Hb. assert (locked bs l = false) as Hf.
  { unfold locked. destruct (sb_is_locked (base bs l)) eqn:E; [|done]. by rewrite sb_try_lock_held in Hb. }
  destruct (sb_try_lock_free _ Hf) as (b' & Hb' & Hlb). assert (b' = b) as -> by congruence.
  split.
  - constructor; [|done]. intros Hin%Hl. congruence.
  - intros l'. rewrite locked_insert, elem_of_cons. case_decide; [naive_solver|]. rewrite Hl. naive_solver.
Qed.
Lemma exclusive_release bs own l :
  exclusive bs (l :: own) → exclusive (<[l := sb_unlock (base bs l)]> bs) own.
Proof.
  intros [Hn Hl]. apply NoDup_cons in Hn as [Hni Hn]. split; [done|]. intros l'. rewrite locked_insert.
  assert (locked bs l = true) as Ht by (apply Hl; left).
  case_decide as Hd; [subst; rewrite sb_unlock_free by done; naive_solver|].
  rewrite Hl, elem_of_cons. naive_solver.
Qed.

Lemma frame_next_exclusive ms bs irq f bs' irq' f' own :
  frame_next ms bs irq f = Some (bs', irq', f') →
  exclusive bs (owned f ++ own) → exclusive bs' (owned f' ++ own).
Proof.
  destruct f as [x held begin entry]. unfold frame_next, owned. simpl.
  destruct x; try done; intros Hf; simplify_eq; simpl; try done.
  - by repeat case_match.
  - destruct (sb_try_lock (base bs l)) as [b|] eqn:Hb; simplify_eq; simpl; [|done]. intros He. by apply exclusive_take.
  - by repeat case_match.
  - intros He. by apply exclusive_release.
Qed.

Definition others (h : Z) (s : locking) : list Z := concat (hart_owned <$> (map_to_list (delete h (lk_harts s))).*2).
Lemma all_owned_hart s h x ms bs :
  all_owned (mkLocking ms bs (<[h := x]> (lk_harts s))) ≡ₚ hart_owned x ++ others h s.
Proof.
  unfold all_owned, others. simpl. rewrite <- insert_delete_eq.
  rewrite (map_to_list_insert (delete h (lk_harts s)) h x) by apply lookup_delete_eq. done.
Qed.
Lemma all_owned_split s h x : lk_harts s !! h = Some x → all_owned s ≡ₚ hart_owned x ++ others h s.
Proof.
  intros Hx. rewrite <- (all_owned_hart s h x (lk_ms s) (lk_bits s)).
  destruct s as [ms bs hs]. simpl in *. by rewrite insert_id.
Qed.

Lemma lock_step_exclusive s s' :
  lock_step s s' → exclusive (lk_bits s) (all_owned s) → exclusive (lk_bits s') (all_owned s').
Proof.
  intros Hs. destruct Hs as [s ms Hms|s h irq f below bs irq' f' Hh Hf|s h irq f below l Hh Hr|s h irq f below l b rest Hh Hr Hl
    |s h f below Hh|s h irq f g below Hh Hr Hl]; [done|..]; unfold put_hart; rewrite all_owned_hart, (all_owned_split s h _ Hh);
    unfold hart_owned; simpl; rewrite <- ?app_assoc.
  - intros He. by eapply frame_next_exclusive.
  - unfold owned. by rewrite Hr.
  - unfold owned. by rewrite Hr, Hl.
  - done.
  - assert (owned f = []) as -> by (unfold owned; by rewrite Hr, Hl). done.
Qed.

(** ** Interrupts *)
(** Guards nest: the outermost remembers how the frame was entered, the others
    that interrupts were off. *)
Fixpoint nested (entry : bool) (gs : list bool) : Prop :=
  match gs with
  | [] => True
  | b :: gs => b = (if gs then entry else false) ∧ nested entry gs
  end.
Definition plain_off (g : Z * bool) : Prop := kind g.1 = Plain → g.2 = false.
Record frame_ok (irq : bool) (f : frame) : Prop := {
  fo_nested : nested (f_entry f) (irq_guards f);
  fo_irq : irq = if irq_guards f then f_entry f else false;
  fo_plain : Forall plain_off (f_held f);
  fo_pc : match f_pc f with
          | AtClear l => kind l = NoIrq ∧ irq = true
          | AtCas l b | AtFail l b | AtDrop l b | AtRestore l b => plain_off (l, b)
          | _ => True
          end;
}.
Definition hart_ok (x : lock_hart) : Prop :=
  frame_ok (h_irq x) (h_run x) ∧
  match h_below x with
  | [] => True
  | [g] => f_entry (h_run x) = false ∧ frame_ok true g
  | _ => False
  end.

Lemma frame_ok_off irq f : f_entry f = false → frame_ok irq f → irq = false.
Proof. intros He [_ -> _ _]. by destruct (irq_guards f). Qed.
(** While interrupts are on a frame has no [SpinNoIrqMutex]. *)
Lemma frame_ok_on f l : frame_ok true f → l ∈ owned f → kind l = Plain.
Proof.
  intros [_ Hi _ _] Hl. destruct (irq_guards f) eqn:Hg; [|done]. clear Hi.
  unfold irq_guards in Hg. apply app_eq_nil in Hg as [Hpc Hh]. unfold owned in Hl. apply elem_of_app in Hl as [Hl|Hl].
  - destruct (f_pc f); try (by apply elem_of_nil in Hl). apply list_elem_of_singleton in Hl as ->.
    unfold irq_guard in Hpc. by destruct (kind _).
  - apply list_elem_of_fmap in Hl as ([l' b] & -> & Hl). simpl. destruct (kind l') eqn:Hk; [done|].
    assert (b ∈ concat ((λ g, irq_guard g.1 g.2) <$> f_held f)) as Hb.
    { apply list_elem_of_In, in_concat. exists [b]. split; [|by left]. apply list_elem_of_In, list_elem_of_fmap. exists (l', b).
      unfold irq_guard. simpl. by rewrite Hk. }
    rewrite Hh in Hb. by apply elem_of_nil in Hb.
Qed.

Lemma irq_guard_plain l b : kind l = Plain → irq_guard l b = [].
Proof. unfold irq_guard. by intros ->. Qed.
Lemma irq_guard_noirq l b : kind l = NoIrq → irq_guard l b = [b].
Proof. unfold irq_guard. by intros ->. Qed.
(** The drop of a guard gives back what it remembers. *)
Lemma drop_guard l b G (entry irq : bool) :
  plain_off (l, b) → nested entry (irq_guard l b ++ G) → irq = (if irq_guard l b ++ G then entry else false) →
  nested entry G ∧ (if b then true else irq) = (if G then entry else false).
Proof.
  unfold plain_off, irq_guard. simpl. destruct (kind l); simpl.
  - intros Hb Hn ->. by rewrite Hb.
  - intros _ [Hb Hn] ->. split; [done|]. rewrite Hb. by destruct G, entry.
Qed.
Lemma frame_next_ok ms bs irq f bs' irq' f' :
  frame_next ms bs irq f = Some (bs', irq', f') → frame_ok irq f → frame_ok irq' f' ∧ f_entry f' = f_entry f.
Proof.
  destruct f as [x held begin entry]. unfold frame_next. simpl. intros Hf [Hn Hi Hp Hc].
  unfold irq_guards in *. simpl in *.
  set (G := concat ((λ g, irq_guard g.1 g.2) <$> held)) in *.
  destruct x as [|l|l|l b|l b|l|l b|l b|]; try done; try (injection Hf as <- <- <-).
  - split; [|done]. destruct (kind l) eqn:Hk; [|destruct irq];
      constructor; unfold irq_guards; simpl; fold G; rewrite ?(irq_guard_plain _ _ Hk), ?(irq_guard_noirq _ _ Hk); done.
  - destruct Hc as [Hk ->]. destruct G eqn:HG; [|done]. simpl in Hi. subst entry. split; [|done].
    constructor; unfold irq_guards; simpl; fold G; rewrite ?HG, ?(irq_guard_noirq _ _ Hk); try done.
    unfold plain_off. simpl. congruence.
  - destruct (sb_try_lock (base bs l)) as [x|]; injection Hf as <- <- <-; (split; [|done]); constructor; try done.
    simpl. by constructor.
  - destruct (drop_guard l b G entry irq) as [H1 H2]; [done..|]. split; [|done]. by constructor.
  - split; [|done]. destruct (locked bs l); [destruct (2000 <=? ms - begin)|]; by constructor.
  - split; [|done]. by constructor.
  - destruct (drop_guard l b G entry irq) as [H1 H2]; [done..|]. split; [|done]. by constructor.
Qed.

Lemma lock_step_hart_ok s s' :
  lock_step s s' → map_Forall (λ _, hart_ok) (lk_harts s) → map_Forall (λ _, hart_ok) (lk_harts s').
Proof.
  intros Hs Hok. destruct Hs as [s ms Hms|s h irq f below bs irq' f' Hh Hf|s h irq f below l Hh Hr|s h irq f below l b rest Hh Hr Hl
    |s h f below Hh|s h irq f g below Hh Hr Hl]; [done|..]; apply map_Forall_insert_2; try done;
    destruct (Hok _ _ Hh) as [H1 H2]; simpl in *.
  - destruct (frame_next_ok _ _ _ _ _ _ _ Hf H1) as [H3 H4]. split; [done|]. simpl. by rewrite H4.
  - split; [|done]. destruct H1 as [Hn Hi Hp Hc]. unfold irq_guards in *. rewrite Hr in *. by constructor.
  - split; [|done]. destruct H1 as [Hn Hi Hp Hc]. unfold irq_guards in *. rewrite Hr, Hl in *. simpl in *.
    apply Forall_cons in Hp as [Hb Hp]. by constructor.
  - split; [by constructor|]. simpl. destruct below as [|g [|]]; [done| |done].
    destruct H2 as [He _]. by apply (frame_ok_off _ _ He) in H1.
  - destruct below; [|done]. destruct H2 as [He Hg]. by split.
Qed.

(** ** The locks are safe *)
Lemma locks_init_ok s : locks_init s → exclusive (lk_bits s) (all_owned s) ∧ map_Forall (λ _, hart_ok) (lk_harts s).
Proof.
  intros [Hb Hh]. assert (all_owned s = []) as ->.
  { unfold all_owned. apply concat_nil_Forall, Forall_fmap, Forall_fmap, Forall_forall. intros [h x] Hx%elem_of_map_to_list.
    simpl. by destruct (Hh h x Hx) as [irq ->]. }
  split.
  - split; [constructor|]. intros l. rewrite elem_of_nil, Hb. unfold locked, base. rewrite lookup_empty. simpl.
    by rewrite sb_new_free.
  - intros h x Hx. destruct (Hh h x Hx) as [irq ->]. by repeat constructor.
Qed.
Lemma locks_reachable s0 s :
  locks_init s0 → rtc lock_step s0 s →
  exclusive (lk_bits s) (all_owned s) ∧ map_Forall (λ _, hart_ok) (lk_harts s).
Proof.
  intros Hi Hr. apply locks_init_ok in Hi. induction Hr as [s|s s1 s2 Hs _ IH]; [done|].
  apply IH. destruct Hi as [He Hok]. split; [by eapply lock_step_exclusive|by eapply lock_step_hart_ok].
Qed.
Lemma noirq_held_running x l :
  hart_ok x → l ∈ hart_owned x → kind l = NoIrq → l ∈ owned (h_run x) ∧ h_irq x = false.
Proof.
  intros [Hf Hb] Hl Hk. unfold hart_owned in Hl. apply elem_of_app in Hl as [Hl|Hl].
  - split; [done|]. destruct (h_irq x) eqn:Hi; [|done]. by rewrite (frame_ok_on _ l Hf Hl) in Hk.
  - destruct (h_below x) as [|g [|]]; [by apply elem_of_nil in Hl| |done]. destruct Hb as [_ Hg].
    simpl in Hl. rewrite app_nil_r in Hl. by rewrite (frame_ok_on _ l Hg Hl) in Hk.
Qed.
Lemma owned_somewhere s l : l ∈ all_owned s → ∃ h x, lk_harts s !! h = Some x ∧ l ∈ hart_owned x.
Proof.
  intros Hl%list_elem_of_In%in_concat. destruct Hl as (o & Ho & Hl). apply list_elem_of_In in Ho, Hl.
  apply list_elem_of_fmap in Ho as (x & -> & Hx). apply list_elem_of_fmap in Hx as ([h y] & -> & Hy%elem_of_map_to_list).
  by exists h, y.
Qed.

(** C24: the locks exclude each other's holders, on all harts and in interrupts.
    However harts, interrupts and the clock interleave: no lock is held twice and
    the bit of a lock is set exactly while it is held; what a hart holds of
    [SpinNoIrqMutex]es is held by the code it runs, not by code an interrupt put
    aside, with interrupts off; without such a lock interrupts are as they were
    when that code was entered. So code that waits for a [SpinNoIrqMutex], in a
    handler or not, waits for another hart, unless it holds that lock itself. *)
Theorem locks_safe s0 s :
  locks_init s0 → rtc lock_step s0 s →
  NoDup (all_owned s) ∧ (∀ l, locked (lk_bits s) l = true ↔ l ∈ all_owned s) ∧
  ∀ h x, lk_harts s !! h = Some x →
    (∀ l, l ∈ hart_owned x → kind l = NoIrq → l ∈ owned (h_run x) ∧ h_irq x = false) ∧
    (irq_guards (h_run x) = [] → h_irq x = f_entry (h_run x)) ∧
    (∀ l, f_pc (h_run x) = AtSpin l → kind l = NoIrq → locked (lk_bits s) l = true → l ∉ owned (h_run x) →
       ∃ h' y, h' ≠ h ∧ lk_harts s !! h' = Some y ∧ l ∈ owned (h_run y) ∧ h_irq y = false).
Proof.
  intros Hi Hr. destruct (locks_reachable s0 s Hi Hr) as [[Hn Hl] Hok]. split; [done|]. split; [done|].
  intros h x Hx. pose proof (Hok h x Hx) as Hhx. split; [|split].
  - intros l. by apply noirq_held_running.
  - intros Hg. destruct Hhx as [[_ Hirq _ _] _]. by rewrite Hg in Hirq.
  - intros l _ Hk Hlk Hno. destruct (owned_somewhere s l (proj1 (Hl l) Hlk)) as (h' & y & Hy & Hin).
    exists h', y. destruct (noirq_held_running y l (Hok h' y Hy) Hin Hk) as [Hrun Hirq].
    split; [|done]. intros ->. assert (x = y) as -> by congruence. done.
Qed.

(** [lock] on a free lock, undisturbed, takes it in at most three steps. *)
Definition after (ms : Z) (n : nat) (st : gmap Z B * bool * frame) : option (gmap Z B * bool * frame) :=
  Nat.iter n (λ o, '(bs, irq, f) ← o; frame_next ms bs irq f) (Some st).
Lemma free_lock_taken ms bs irq f l :
  f_pc f = AtTry l → locked bs l = false →
  ∃ n bs' irq', (n ≤ 3)%nat ∧
    after ms n (bs, irq, f) = Some (bs', irq', mkFrame Run ((l, bool_decide (kind l = NoIrq) && irq) :: f_held f) (f_begin f) (f_entry f)) ∧
    locked bs' l = true ∧ (kind l = NoIrq → irq' = false).
Proof.
  destruct f as [x held begin entry]. simpl. intros -> Hf. destruct (sb_try_lock_free _ Hf) as (b & Hb & Hlb).
  assert (locked (<[l := b]> bs) l = true) as Hl by (rewrite locked_insert; by rewrite decide_True).
  destruct (kind l) eqn:Hk; [|destruct irq].
  - exists 2%nat, (<[l := b]> bs), irq. unfold after, frame_next. simpl. rewrite Hk. simpl. rewrite Hb. split; [lia|]. done.
  - exists 3%nat, (<[l := b]> bs), false. unfold after, frame_next. simpl. rewrite Hk. simpl. rewrite Hb. split; [lia|]. done.
  - exists 2%nat, (<[l := b]> bs), false. unfold after, frame_next. simpl. rewrite Hk. simpl. rewrite Hb. split; [lia|]. done.
Qed.
End locks.
Arguments locking : clear implicits.

(** ** A bit, and two harts *)
#[export] Program Instance BoolBase : SpinBase bool := {|
  sb_new := false; sb_is_locked b := b; sb_try_lock b := if b then None else Some true; sb_unlock _ := false;
|}.
Next Obligation. done. Qed.
Next Obligation. intros [] ?; [done|by exists true]. Qed.
Next Obligation. by intros [] ?. Qed.
Next Obligation. done. Qed.

Module LockDemo.
Definition start : locking bool :=
  mkLocking 0 ∅ (<[0 := mkHart true (mkFrame Run [] 0 true) []]> {[1 := mkHart true (mkFrame Run [] 0 true) []]}).
Lemma start_init : locks_init start.
Proof.
  split; [done|]. intros h x. unfold start. simpl. rewrite lookup_insert, lookup_singleton.
  repeat case_decide; intros; simplify_eq; by exists true.
Qed.
(** Runs, an action at a time *)
Inductive action : Type := Next (h : Z) | Lock (h l : Z) | DropOf (h : Z) | Irq (h : Z) | Iret (h : Z).
Definition exec (kind : Z → lock_kind) (a : action) (s : locking bool) : option (locking bool) :=
  match a with
  | Next h =>
      x ← lk_harts s !! h;
      '(bs, irq, f) ← frame_next kind (lk_ms s) (lk_bits s) (h_irq x) (h_run x);
      Some (mkLocking (lk_ms s) bs (<[h := mkHart irq f (h_below x)]> (lk_harts s)))
  | Lock h l =>
      x ← lk_harts s !! h;
      let f := h_run x in
      match f_pc f with
      | Run => Some (put_hart h (mkHart (h_irq x) (mkFrame (AtTry l) (f_held f) (lk_ms s) (f_entry f)) (h_below x)) s)
      | _ => None
      end
  | DropOf h =>
      x ← lk_harts s !! h;
      let f := h_run x in
      match f_pc f, f_held f with
      | Run, (l, b) :: rest => Some (put_hart h (mkHart (h_irq x) (mkFrame (AtDrop l b) rest (f_begin f) (f_entry f)) (h_below x)) s)
      | _, _ => None
      end
  | Irq h =>
      x ← lk_harts s !! h;
      if h_irq x then Some (put_hart h (mkHart false (mkFrame Run [] (lk_ms s) false) (h_run x :: h_below x)) s) else None
  | Iret h =>
      x ← lk_harts s !! h;
      match f_pc (h_run x), f_held (h_run x), h_below x with
      | Run, [], g :: below => Some (put_hart h (mkHart true g below) s)
      | _, _, _ => None
      end
  end.
Lemma exec_step kind a s s' : exec kind a s = Some s' → lock_step kind s s'.
Proof.
  destruct a as [h|h l|h|h|h]; simpl; destruct (lk_harts s !! h) as [[irq f below]|] eqn:Hh; simpl; try done.
  - destruct (frame_next _ _ _ _ _) as [[[bs irq'] f']|] eqn:Hf; simpl; [|done]. intros [= <-]. by eapply ls_next.
  - destruct (f_pc f) eqn:Hr; try done. intros [= <-]. by apply ls_lock.
  - destruct (f_pc f) eqn:Hr; try done. destruct (f_held f) as [|[l b] rest] eqn:Hl; [done|]. intros [= <-]. by eapply ls_drop.
  - destruct irq; [|done]. intros [= <-]. by apply ls_irq.
  - destruct (f_pc f) eqn:Hr; try done. destruct (f_held f) eqn:Hl; [|done]. destruct below; [done|]. intros [= <-].
    by eapply ls_iret.
Qed.
Definition exec_all (kind : Z → lock_kind) (l : list action) : option (locking bool) :=
  foldl (λ o a, s ← o; exec kind a s) (Some start) l.
Lemma exec_all_steps kind l s : exec_all kind l = Some s → rtc (lock_step kind) start s.
Proof.
  unfold exec_all. revert s. induction l as [|a l IH] using rev_ind; intros s; simpl.
  - intros [= <-]. apply rtc_refl.
  - rewrite foldl_app. simpl. destruct (foldl _ _ l) as [s1|]; simpl; [|done]. intros Ha%exec_step.
    eapply rtc_r; [by apply IH|done].
Qed.
Definition waiting_for (h l : Z) (s : locking bool) : bool :=
  match lk_harts s !! h with
  | Some x => match f_pc (h_run x) with AtSpin l' => bool_decide (l = l') && negb (bool_decide (l ∈ owned (h_run x))) | _ => false end
  | None => false
  end.

(** Hart 0 holds lock 7; hart 1, in an interrupt, waits for it. *)
Definition contended : list action :=
  [Lock 0 7; Next 0; Next 0; Next 0; Irq 1; Lock 1 7; Next 1; Next 1; Next 1].
Lemma locks_safe_witness :
  ∃ s y, rtc (lock_step (λ _, NoIrq)) start s ∧ waiting_for 1 7 s = true ∧
         lk_harts s !! 0 = Some y ∧ 7 ∈ owned (h_run y) ∧ h_irq y = false.
Proof.
  set (k := λ _ : Z, NoIrq).
  assert (match exec_all k contended with
          | Some s => waiting_for 1 7 s && locked (lk_bits s) 7 && bool_decide (dom (lk_harts s) = {[0; 1]})
          | None => false
          end = true) as Hv by (vm_compute; reflexivity).
  destruct (exec_all k contended) as [s|] eqn:E; [|discriminate Hv].
  apply andb_true_iff in Hv as [Hv Hd%bool_decide_eq_true_1]. apply andb_true_iff in Hv as [Hw Hl].
  pose proof (exec_all_steps _ _ _ E) as Hr. pose proof (locks_safe k start s start_init Hr) as (_ & _ & H).
  assert (Hw' := Hw). unfold waiting_for in Hw'. destruct (lk_harts s !! 1) as [x|] eqn:Hx; [|discriminate Hw'].
  destruct (f_pc (h_run x)) as [| | | | |l| | |] eqn:Hpc; try discriminate Hw'.
  apply andb_true_iff in Hw' as [<-%bool_decide_eq_true_1 Hno%negb_true_iff%bool_decide_eq_false_1].
  destruct (H 1 x Hx) as (_ & _ & H3). destruct (H3 7 Hpc eq_refl Hl Hno) as (h' & y & Hne & Hy & Hin & Hirq).
  exists s, y. split; [exact Hr|]. split; [exact Hw|].
  assert (h' ∈ dom (lk_harts s)) as Hdom by (apply elem_of_dom; exists y; exact Hy).
  rewrite Hd in Hdom. apply elem_of_union in Hdom as [Hdom|Hdom]; apply elem_of_singleton in Hdom; subst h'.
  - split; [exact Hy|]. split; [exact Hin|exact Hirq].
  - destruct (Hne eq_refl).
Defined.

(** A [SpinMutex] that a handler takes too: the interrupted code has it, the
    handler waits on the same hart, and two seconds later the kernel panics. *)
Definition interrupted : list action := [Lock 0 7; Next 0; Next 0; Irq 0; Lock 0 7; Next 0; Next 0; Next 0].
Lemma plain_self_deadlock :
  ∃ s x, rtc (lock_step (λ _, Plain)) start s ∧ lk_harts s !! 0 = Some x ∧ owned <$> h_below x = [[7]] ∧
    ∀ ms, frame_next (λ _, Plain) ms (lk_bits s) (h_irq x) (h_run x) =
          Some (lk_bits s, h_irq x, at_pc (if 2000 <=? ms - f_begin (h_run x) then Dead else AtSpin 7) (h_run x)).
Proof.
  set (k := λ _ : Z, Plain).
  assert (match exec_all k interrupted with
          | Some s => match lk_harts s !! 0 with
                      | Some x => waiting_for 0 7 s && locked (lk_bits s) 7 && bool_decide (owned <$> h_below x = [[7]])
                      | None => false
                      end
          | None => false
          end = true) as Hv by (vm_compute; reflexivity).
  destruct (exec_all k interrupted) as [s|] eqn:E; [|discriminate Hv].
  destruct (lk_harts s !! 0) as [x|] eqn:Hx; [|discriminate Hv].
  apply andb_true_iff in Hv as [Hv Hb%bool_decide_eq_true_1]. apply andb_true_iff in Hv as [Hw Hl].
  exists s, x. split; [exact (exec_all_steps _ _ _ E)|]. split; [done|]. split; [done|]. intros ms.
  unfold waiting_for in Hw. rewrite Hx in Hw. unfold frame_next.
  destruct (f_pc (h_run x)); try discriminate Hw. apply andb_true_iff in Hw as [<-%bool_decide_eq_true_1 _].
  by rewrite Hl.
Qed.
End LockDemo.
