(* ===== verification/BTree.v ===== *)
(** * The ordered maps of the standard library

    [BTreeMap<K, V>] is a [gmap K V] whose iteration goes through the bindings
    in increasing key order. This file gives the iterators, ranges and cursors
    the kernel uses ([iter], [range], [range_mut(..=k).next_back()],
    [lower_bound], [split_off]) and the lemmas that relate them to lookups. *)
From S2P Require Import Prelude.

(** The order of the keys ([Ord] of the key type). *)
Class KeyOrder (K : Type) := {
  key_le : relation K;
  key_le_dec :: RelDecision key_le;
  key_le_trans :: Transitive key_le;
  key_le_total :: Total key_le;
  key_le_antisymm :: AntiSymm (=) key_le;
}.

#[export] Instance Z_key_order : KeyOrder Z := {| key_le := Z.le |}.

Definition entry_le `{KeyOrder K} {V} (x y : K * V) : Prop := key_le x.1 y.1.
#[export] Instance entry_le_dec `{KeyOrder K} {V} : RelDecision (entry_le (V:=V)).
Proof. intros x y. unfold entry_le. apply _. Defined.
#[export] Instance entry_le_trans `{KeyOrder K} {V} : Transitive (entry_le (V:=V)).
Proof. intros x y z. unfold entry_le. apply transitivity. Qed.
#[export] Instance entry_le_total `{KeyOrder K} {V} : Total (entry_le (V:=V)).
Proof. intros x y. unfold entry_le. apply total. apply _. Qed.

Section btree.
Context `{Countable K, !KeyOrder K} {V : Type}.
Implicit Types (m : gmap K V) (k : K) (v : V).

(** [BTreeMap::iter]. *)
Definition btree_iter m : list (K * V) := merge_sort entry_le (map_to_list m).

(** [BTreeMap::keys]. *)
Definition btree_keys m : list K := (btree_iter m).*1.

(** [BTreeMap::range(k..)] and [range(..=k)]. *)
Definition btree_from m k : list (K * V) :=
  filter (λ e, key_le k e.1) (btree_iter m).
Definition btree_upto m k : list (K * V) :=
  filter (λ e, key_le e.1 k) (btree_iter m).

(** [BTreeMap::range_mut(..=k).next_back()]. *)
Definition btree_floor m k : option (K * V) := last (btree_upto m k).

(** [BTreeMap::lower_bound(Bound::Excluded(k))]: the entries before and after
    the cursor. *)
Definition btree_after m k : list (K * V) :=
  filter (λ e, ¬ key_le e.1 k) (btree_iter m).

(** [BTreeMap::split_off(k)]: what stays and what is returned. *)
Definition btree_split_off m k : gmap K V * gmap K V :=
  (filter (λ e, ¬ key_le k e.1) m, filter (λ e, key_le k e.1) m).

Lemma btree_iter_perm m : btree_iter m ≡ₚ map_to_list m.
Proof. apply merge_sort_Permutation. Qed.

Lemma elem_of_btree_iter m k v : (k, v) ∈ btree_iter m ↔ m !! k = Some v.
Proof. rewrite btree_iter_perm. apply elem_of_map_to_list. Qed.

Lemma btree_iter_sorted m : StronglySorted entry_le (btree_iter m).
Proof. apply StronglySorted_merge_sort; apply _. Qed.

Lemma btree_keys_nodup m : NoDup (btree_keys m).
Proof. unfold btree_keys. rewrite btree_iter_perm. apply NoDup_fst_map_to_list. Qed.

Lemma elem_of_btree_keys m k : k ∈ btree_keys m ↔ is_Some (m !! k).
Proof.
  unfold btree_keys. rewrite list_elem_of_fmap. split.
  - intros ([k' v] & -> & Hin). apply elem_of_btree_iter in Hin. eauto.
  - intros [v Hv]. exists (k, v). by rewrite elem_of_btree_iter.
Qed.

Lemma btree_iter_empty : btree_iter (∅ : gmap K V) = [].
Proof. unfold btree_iter. by rewrite map_to_list_empty. Qed.

Lemma length_btree_iter m : length (btree_iter m) = size m.
Proof. by rewrite btree_iter_perm, length_map_to_list. Qed.

Lemma elem_of_btree_from m k k' v :
  (k', v) ∈ btree_from m k ↔ m !! k' = Some v ∧ key_le k k'.
Proof. unfold btree_from. rewrite list_elem_of_filter, elem_of_btree_iter. naive_solver. Qed.

Lemma elem_of_btree_upto m k k' v :
  (k', v) ∈ btree_upto m k ↔ m !! k' = Some v ∧ key_le k' k.
Proof. unfold btree_upto. rewrite list_elem_of_filter, elem_of_btree_iter. naive_solver. Qed.

Lemma elem_of_btree_after m k k' v :
  (k', v) ∈ btree_after m k ↔ m !! k' = Some v ∧ ¬ key_le k' k.
Proof. unfold btree_after. rewrite list_elem_of_filter, elem_of_btree_iter. naive_solver. Qed.

Lemma sorted_filter {A} (R : relation A) (P : A → Prop) `{!∀ x, Decision (P x)} l :
  StronglySorted R l → StronglySorted R (filter P l).
Proof.
  induction 1 as [|x l Hl IH Hx]; simpl; [constructor|].
  destruct (decide (P x)).
  - rewrite filter_cons_True by done. constructor; [done|].
    apply Forall_forall. intros y Hy%list_elem_of_filter.
    rewrite Forall_forall in Hx. apply Hx. naive_solver.
  - by rewrite filter_cons_False.
Qed.

(** The last element of a sorted list is its maximum. *)
Lemma sorted_last_max {A} (R : relation A) `{!Reflexive R} l x :
  StronglySorted R l → last l = Some x → ∀ y, y ∈ l → R y x.
Proof.
  induction 1 as [|a l Hl IH Ha]; [done|]. intros Hlast y Hy.
  destruct l as [|b l].
  - apply list_elem_of_singleton in Hy. simpl in Hlast. by simplify_eq.
  - rewrite last_cons_cons in Hlast. apply elem_of_cons in Hy as [->|Hy].
    + rewrite Forall_forall in Ha. apply Ha. by apply last_Some_elem_of.
    + by apply IH.
Qed.

(** A part of a list of bindings has no duplicate keys. *)
Lemma filter_keys_nodup (P : K * V → Prop) `{!∀ x, Decision (P x)} (l : list (K * V)) :
  NoDup l.*1 → NoDup (filter P l).*1.
Proof.
  intros Hnd. induction l as [|e l IH]; [by constructor|].
  simpl in Hnd. apply NoDup_cons in Hnd as [Hn Hnd]. rewrite filter_cons.
  case_decide; [|by apply IH]. simpl. constructor; [|by apply IH].
  intros (x & Hx & Hin)%list_elem_of_fmap. apply list_elem_of_filter in Hin as [_ Hin].
  apply Hn. rewrite Hx. by apply list_elem_of_fmap_2.
Qed.

Lemma btree_from_nodup m k : NoDup (btree_from m k).*1.
Proof. apply filter_keys_nodup, btree_keys_nodup. Qed.

Lemma btree_after_nodup m k : NoDup (btree_after m k).*1.
Proof. apply filter_keys_nodup, btree_keys_nodup. Qed.

(** [btree_floor] is the binding with the greatest key not above [k]. *)
Lemma btree_floor_Some m k k0 v :
  btree_floor m k = Some (k0, v) →
  m !! k0 = Some v ∧ key_le k0 k ∧
  ∀ k', is_Some (m !! k') → key_le k' k → key_le k' k0.
Proof.
  intros Hl. assert (Hin : (k0, v) ∈ btree_upto m k)
    by by apply last_Some_elem_of.
  apply elem_of_btree_upto in Hin as [Hk0 Hle]. split; [done|]. split; [done|].
  intros k' [v' Hv'] Hle'.
  assert (Hr : Reflexive (entry_le (K:=K) (V:=V))).
  { intros x. destruct (total entry_le x x); done. }
  pose proof (sorted_last_max entry_le (btree_upto m k) (k0, v)) as Hmax.
  refine (Hmax _ Hl (k', v') _).
  - apply sorted_filter, btree_iter_sorted.
  - by apply elem_of_btree_upto.
Qed.

Lemma btree_floor_None m k :
  btree_floor m k = None → ∀ k', is_Some (m !! k') → ¬ key_le k' k.
Proof.
  intros Hl%last_None k' [v' Hv'] Hle.
  assert ((k', v') ∈ btree_upto m k) as Hin by by apply elem_of_btree_upto.
  rewrite Hl in Hin. by apply not_elem_of_nil in Hin.
Qed.

Lemma lookup_split_off_1 m k k' :
  (btree_split_off m k).1 !! k' = if decide (key_le k k') then None else m !! k'.
Proof.
  unfold btree_split_off. simpl. rewrite map_lookup_filter.
  destruct (m !! k') eqn:E; simpl; [|by case_decide].
  case_decide; case_guard; naive_solver.
Qed.

Lemma lookup_split_off_2 m k k' :
  (btree_split_off m k).2 !! k' = if decide (key_le k k') then m !! k' else None.
Proof.
  unfold btree_split_off. simpl. rewrite map_lookup_filter.
  destruct (m !! k') eqn:E; simpl; [|by case_decide].
  case_decide; case_guard; naive_solver.
Qed.
End btree.

(** A list of bindings in strictly increasing key order is the sorted iteration
    of a map: the shape inductions over an iteration use. *)
Lemma sorted_entries_cons {V} (e : Z * V) l :
  StronglySorted entry_le (e :: l) → NoDup (e :: l).*1 →
  (∀ e', e' ∈ l → e.1 < e'.1) ∧ StronglySorted entry_le l ∧ NoDup l.*1.
Proof.
  intros Hs Hnd. apply StronglySorted_inv in Hs as [Hs He].
  simpl in Hnd. apply NoDup_cons in Hnd as [Hnin Hnd]. split; [|done].
  intros e' He'. rewrite Forall_forall in He.
  specialize (He e' He'). unfold entry_le in He. simpl in He.
  assert (e.1 ≠ e'.1); [|lia]. intros Heq. apply Hnin. rewrite Heq.
  by apply list_elem_of_fmap_2.
Qed.

Lemma btree_iter_insert_fresh_in {V} (m : gmap Z V) k v e :
  e ∈ btree_iter (<[k:=v]> m) → e = (k, v) ∨ e ∈ btree_iter m.
Proof.
  destruct e as [k' v']. rewrite !elem_of_btree_iter, lookup_insert.
  case_decide; naive_solver.
Qed.

Create HintDb btree.
#[export] Hint Resolve btree_iter_sorted btree_keys_nodup : btree.
#[export] Hint Rewrite @elem_of_btree_iter @elem_of_btree_keys @elem_of_btree_from
  @elem_of_btree_upto @elem_of_btree_after : btree.
