(* ===== verification/Address.v ===== *)
(** * Constants and addresses

    [common::config], [common::constant] and [libkernel::memory::address]: the
    layout constants, the four address newtypes (each a [usize], modelled as a
    [Z]) with their page arithmetic, and the kernel's linear mapping of
    [memory/mod.rs]. *)
From S2P Require Import Prelude.

(** ** Constants *)
Definition MILLI_PER_SEC : Z := 1000.
Definition MICRO_PER_SEC : Z := 1000 * MILLI_PER_SEC.
Definition NANO_PER_SEC : Z := 1000 * MICRO_PER_SEC.
Definition KiB : Z := 1024.
Definition MiB : Z := 1024 * KiB.
Definition PTR_SIZE : Z := 8.
Definition MEMORY_END : Z := 0x88000000.
Definition MEMORY_SIZE : Z := 0x8000000.
Definition PA_TO_VA : Z := 0xFFFFFFFF00000000.
Definition KERNEL_HEAP_SIZE : Z := 32 * MiB.
Definition PAGE_SIZE_BITS : Z := 12.
Definition PAGE_SIZE : Z := Z.shiftl 1 PAGE_SIZE_BITS.
Definition PAGE_OFFSET_MASK : Z := Z.shiftl 1 PAGE_SIZE_BITS - 1.
Definition PTE_PER_PAGE : Z := PAGE_SIZE / PTR_SIZE.
Definition ADDR_END : Z := usize_max.
Definition USER_STACK_SIZE : Z := 8 * MiB.
Definition MMAP_START : Z := 0x2000000000.
Definition LOW_ADDRESS_END : Z := 0x4000000000.
Definition CLOCK_FREQ : Z := 10000000.
Definition TICKS_PER_SEC : Z := 100.
Definition QEMU_UART_ADDR : Z := 0x10000000.
Definition QEMU_PLIC_ADDR : Z := 0xc000000.
Definition QEMU_VIRTIO0 : Z := 0x10001000.
Definition MMIO : list (Z * Z) :=
  [(QEMU_UART_ADDR, 0x1000); (0x02000000, 0x10000); (QEMU_PLIC_ADDR, 0x400000)].
Definition MAX_HART_NUM : Z := 8.
Definition HART_START_ADDR : Z := 0x80200000.
Definition TASK_LIMIT : Z := 256.
Definition MAX_PATHNAME_LEN : Z := 4 * PAGE_SIZE.

(** ** [core::iter::Step] of the page numbers

    [PhysPageNum] and [VirtPageNum] implement it the same way; a [for] loop
    over a [Range] calls [forward_checked] while [start < end]. *)
Module Step.
Definition steps_between (s e : Z) : Z * option Z :=
  let ret := if s <=? e then Some (e - s) else None in
  (default usize_max ret, ret).
Definition forward_checked (s count : Z) : option Z :=
  if s + count <=? usize_max then Some (s + count) else None.
Definition backward_checked (s count : Z) : option Z :=
  if count <=? s then Some (s - count) else None.

(** [for p in s..e]: the pages the loop visits. The fuel is the number of
    steps [steps_between] announces. *)
Fixpoint range_loop (fuel : nat) (s e : Z) : list Z :=
  match fuel with
  | O => []
  | S fuel =>
      if s <? e then
        match forward_checked s 1 with
        | Some s' => s :: range_loop fuel s' e
        | None => []
        end
      else []
  end.
Definition range (s e : Z) : list Z :=
  range_loop (Z.to_nat (default 0 (steps_between s e).2)) s e.
End Step.

(** ** Physical addresses and page numbers *)
Module PhysAddr.
Definition floor (a : Z) : Z := a / PAGE_SIZE.
Definition ceil (a : Z) : Z := div_ceil a PAGE_SIZE.
Definition ppn (a : Z) : Z := floor a.
Definition add {E} (a rhs : Z) : outcome E Z := uadd 64 a rhs.
End PhysAddr.

Module PhysPageNum.
Definition page_start (p : Z) : Z := wrap 64 (Z.shiftl p PAGE_SIZE_BITS).
Definition add {E} (p rhs : Z) : outcome E Z := uadd 64 p rhs.
End PhysPageNum.

(** ** Virtual addresses and page numbers *)
Module VirtAddr.
Definition page_offset (a : Z) : Z := Z.land a PAGE_OFFSET_MASK.
Definition vpn_floor (a : Z) : Z := Z.shiftr a PAGE_SIZE_BITS.
Definition vpn_ceil (a : Z) : Z := div_ceil a PAGE_SIZE.
Definition add {E} (a rhs : Z) : outcome E Z := uadd 64 a rhs.
End VirtAddr.

Module VirtPageNum.
(** The three 9-bit indexes of a virtual page number, root level first: the
    loop fills the array from its last cell, shifting the number down. *)
Definition indexes (vpn : Z) : list Z :=
  let LOW_MASK := PTE_PER_PAGE - 1 in
  (foldl (λ '(vpn, idx) (_ : nat), (Z.shiftr vpn 9, Z.land vpn LOW_MASK :: idx))
     (vpn, []) [2%nat; 1%nat; 0%nat]).2.
Definition page_start (v : Z) : Z := wrap 64 (Z.shiftl v PAGE_SIZE_BITS).
Definition with_offset {E} (v offset : Z) : outcome E Z :=
  uadd 64 (page_start v) offset.
Definition add {E} (v len : Z) : outcome E Z := uadd 64 v len.
Definition sub {E} (v len : Z) : outcome E Z := usub 64 v len.
End VirtPageNum.

(** ** The kernel's linear mapping *)
Definition kernel_va_to_pa {E} (va : Z) : outcome E Z := usub 64 va PA_TO_VA.
Definition kernel_pa_to_va {E} (pa : Z) : outcome E Z := uadd 64 pa PA_TO_VA.
Definition kernel_vpn_to_ppn {E} (vpn : Z) : outcome E Z :=
  usub 64 vpn (PA_TO_VA / PAGE_SIZE).
Definition kernel_ppn_to_vpn {E} (ppn : Z) : outcome E Z :=
  uadd 64 ppn (PA_TO_VA / PAGE_SIZE).

(** The pages below [LOW_ADDRESS_END], the ones user mappings live in. *)
Definition LOW_VPN_END : Z := LOW_ADDRESS_END / PAGE_SIZE.

(** ** Lemmas *)
Lemma PAGE_SIZE_eq : PAGE_SIZE = 4096.
Proof. done. Qed.
Lemma PTE_PER_PAGE_eq : PTE_PER_PAGE = 512.
Proof. done. Qed.
Lemma LOW_VPN_END_eq : LOW_VPN_END = 0x4000000.
Proof. done. Qed.

(** Unfolds the layout constants to numerals so that [lia] decides a goal. *)
Ltac unfold_config :=
  rewrite ?PTE_PER_PAGE_eq, ?LOW_VPN_END_eq, ?PAGE_SIZE_eq in *;
  unfold MMAP_START, LOW_ADDRESS_END, PA_TO_VA, MEMORY_END, usize_max in *.

Lemma vpn_floor_div a : VirtAddr.vpn_floor a = a / PAGE_SIZE.
Proof. unfold VirtAddr.vpn_floor. rewrite Z.shiftr_div_pow2 by done. done. Qed.

Lemma page_offset_mod a : VirtAddr.page_offset a = a mod PAGE_SIZE.
Proof.
  unfold VirtAddr.page_offset.
  change PAGE_OFFSET_MASK with (Z.ones 12). by rewrite Z.land_ones.
Qed.

Lemma page_start_mul v :
  0 ≤ v < 2 ^ 52 → VirtPageNum.page_start v = v * PAGE_SIZE.
Proof.
  intros Hv. unfold VirtPageNum.page_start. rewrite Z.shiftl_mul_pow2 by done.
  rewrite wrap_small; [done|]. change (2 ^ PAGE_SIZE_BITS) with 4096. lia.
Qed.

Lemma phys_page_start_mul p :
  0 ≤ p < 2 ^ 52 → PhysPageNum.page_start p = p * PAGE_SIZE.
Proof. apply page_start_mul. Qed.

Lemma range_seqZ s e : 0 ≤ s → e ≤ usize_max → Step.range s e = seqZ s (e - s).
Proof.
  intros Hs He. unfold Step.range, Step.steps_between. simpl.
  destruct (Z.leb_spec s e) as [Hle|Hlt]; simpl; cycle 1.
  { by rewrite seqZ_nil by lia. }
  remember (Z.to_nat (e - s)) as n eqn:Hn. revert s Hs Hle Hn.
  induction n as [|n IH]; intros s Hs Hle Hn; simpl.
  { by rewrite seqZ_nil by lia. }
  rewrite (proj2 (Z.ltb_lt s e)) by lia. unfold Step.forward_checked.
  rewrite (proj2 (Z.leb_le (s + 1) usize_max)) by lia.
  rewrite IH by lia. rewrite (seqZ_cons s (e - s)) by lia.
  do 2 f_equal; lia.
Qed.

Lemma indexes_eq vpn :
  VirtPageNum.indexes vpn =
    [(vpn / 2 ^ 18) mod 512; (vpn / 2 ^ 9) mod 512; vpn mod 512].
Proof.
  unfold VirtPageNum.indexes. simpl. rewrite PTE_PER_PAGE_eq.
  change (512 - 1) with (Z.ones 9). rewrite !Z.land_ones by lia.
  rewrite !Z.shiftr_div_pow2 by lia. rewrite Z.div_div by lia. done.
Qed.

(** The three indexes of a page number, named. *)
Definition idx0 (vpn : Z) : Z := (vpn / 2 ^ 18) mod 512.
Definition idx1 (vpn : Z) : Z := (vpn / 2 ^ 9) mod 512.
Definition idx2 (vpn : Z) : Z := vpn mod 512.

Lemma idx_bounds vpn : 0 ≤ idx0 vpn < 512 ∧ 0 ≤ idx1 vpn < 512 ∧ 0 ≤ idx2 vpn < 512.
Proof. unfold idx0, idx1, idx2. repeat split; apply Z.mod_pos_bound; lia. Qed.

Lemma idx_decompose vpn :
  vpn mod 2 ^ 27 = idx0 vpn * 2 ^ 18 + idx1 vpn * 2 ^ 9 + idx2 vpn.
Proof.
  unfold idx0, idx1, idx2.
  change (2 ^ 27) with (2 ^ 9 * (2 ^ 9 * 512)).
  rewrite Z.rem_mul_r by lia. rewrite Z.rem_mul_r by lia.
  rewrite Z.div_div by lia. change (2 ^ 9 * 2 ^ 9) with (2 ^ 18).
  change (2 ^ 9) with 512. lia.
Qed.

Lemma idx_inj v w :
  idx0 v = idx0 w → idx1 v = idx1 w → idx2 v = idx2 w → v mod 2 ^ 27 = w mod 2 ^ 27.
Proof. intros H0 H1 H2. rewrite !idx_decompose. by rewrite H0, H1, H2. Qed.

Lemma vpn_floor_ceil a :
  VirtAddr.vpn_floor a * PAGE_SIZE ≤ a ≤ VirtAddr.vpn_ceil a * PAGE_SIZE ∧
  a < (VirtAddr.vpn_floor a + 1) * PAGE_SIZE ∧
  (VirtAddr.vpn_ceil a - 1) * PAGE_SIZE < a.
Proof.
  rewrite vpn_floor_div. unfold VirtAddr.vpn_ceil.
  pose proof (div_ceil_spec a PAGE_SIZE ltac:(done)).
  pose proof (Z.mul_div_le a PAGE_SIZE ltac:(done)).
  pose proof (Z.mul_succ_div_gt a PAGE_SIZE ltac:(done)). lia.
Qed.

(** The page arithmetic of virtual addresses is exact. The page number and
    the page offset recompose the address, [vpn_floor] and [vpn_ceil] bracket it
    by less than one page, and the two agree exactly on page-aligned addresses. *)
Theorem virt_addr_pages a :
  0 ≤ a < 2 ^ 64 →
  VirtPageNum.with_offset (E:=()) (VirtAddr.vpn_floor a) (VirtAddr.page_offset a)
    = Ok a ∧
  VirtPageNum.page_start (VirtAddr.vpn_floor a) ≤ a
    < VirtPageNum.page_start (VirtAddr.vpn_floor a) + PAGE_SIZE ∧
  a ≤ VirtAddr.vpn_ceil a * PAGE_SIZE < a + PAGE_SIZE ∧
  (VirtAddr.page_offset a = 0 ↔ VirtAddr.vpn_ceil a = VirtAddr.vpn_floor a).
Proof.
  intros Ha. pose proof (vpn_floor_ceil a) as (Hfc & Hf & Hc).
  assert (0 ≤ VirtAddr.vpn_floor a < 2 ^ 52) as Hv.
  { rewrite vpn_floor_div. split; [apply Z.div_pos; done || lia|].
    apply Z.div_lt_upper_bound; [done|]. rewrite PAGE_SIZE_eq. lia. }
  unfold VirtPageNum.with_offset. rewrite page_start_mul by done.
  rewrite page_offset_mod, vpn_floor_div in *.
  pose proof (Z.div_mod a PAGE_SIZE ltac:(done)) as Hdm.
  rewrite PAGE_SIZE_eq in *. repeat split; try lia.
  - apply checked_Ok. lia.
Qed.

(** At the address one byte below a page boundary. *)
Lemma virt_addr_pages_witness :
  VirtPageNum.with_offset (E:=()) (VirtAddr.vpn_floor 0x2fff)
    (VirtAddr.page_offset 0x2fff) = Ok 0x2fff.
Proof. apply virt_addr_pages. split; done. Defined.
