(* ===== verification/Defines.v ===== *)
(** * The kernel ABI: [crates/utils/defines]

    Error codes, open flags, [mmap]/[wait]/[clone] flags, [TimeSpec] and the
    signal numbers. A [bitflags!] type is a [Z]; its [mask] is the union of the
    bits it declares. *)
From S2P Require Import Prelude Address.

(** ** Error codes ([error.rs]) *)
Inductive errno : Type :=
| UNSUPPORTED | BREAK
| EPERM | ENOENT | ESRCH | EINTR | EIO | ENXIO | ENOEXEC | EBADF | ECHILD
| EAGAIN | ENOMEM | EACCES | EFAULT | EBUSY | EEXIST | EXDEV | ENODEV | ENOTDIR
| EISDIR | EINVAL | EMFILE | ENOTTY | ENOSPC | ESPIPE | ERANGE | EOVERFLOW
| ENAMETOOLONG | ENOTEMPTY.
#[export] Instance errno_eq_dec : EqDecision errno.
Proof. solve_decision. Defined.

Definition as_isize (e : errno) : Z :=
  match e with
  | UNSUPPORTED => -1024 | BREAK => -1023
  | EPERM => -1 | ENOENT => -2 | ESRCH => -3 | EINTR => -4 | EIO => -5
  | ENXIO => -6 | ENOEXEC => -8 | EBADF => -9 | ECHILD => -10 | EAGAIN => -11
  | ENOMEM => -12 | EACCES => -13 | EFAULT => -14 | EBUSY => -16 | EEXIST => -17
  | EXDEV => -18 | ENODEV => -19 | ENOTDIR => -20 | EISDIR => -21 | EINVAL => -22
  | EMFILE => -24 | ENOTTY => -25 | ENOSPC => -28 | ESPIPE => -29 | ERANGE => -34
  | EOVERFLOW => -75 | ENAMETOOLONG => -78 | ENOTEMPTY => -93
  end.

Abbreviation KResult := (outcome errno).

(** ** File constants and flags ([fs.rs]) *)
Definition MAX_FD_NUM : Z := 1024.
Definition AT_FDCWD : Z := wrap 64 (-100).
Definition SEEK_SET : Z := 0.
Definition SEEK_CUR : Z := 1.
Definition SEEK_END : Z := 2.
Definition NAME_MAX : Z := 255.

Module StatMode.
Definition REGULAR : Z := Z.shiftl 1 15.
Definition SYM_LINK : Z := Z.lor (Z.shiftl 1 15) (Z.shiftl 1 13).
Definition SOCKET : Z := Z.lor (Z.shiftl 1 15) (Z.shiftl 1 14).
Definition BLOCK_DEVICE : Z := Z.lor (Z.shiftl 1 14) (Z.shiftl 1 13).
Definition DIR : Z := Z.shiftl 1 14.
Definition CHAR_DEVICE : Z := Z.shiftl 1 13.
Definition FIFO : Z := Z.shiftl 1 12.
End StatMode.

Module FstatFlags.
Definition AT_SYMLINK_NOFOLLOW : Z := Z.shiftl 1 8.
Definition AT_REMOVEDIR : Z := Z.shiftl 1 9.
Definition AT_SYMLINK_FOLLOW : Z := Z.shiftl 1 10.
Definition AT_NO_AUTOMOUNT : Z := Z.shiftl 1 11.
Definition AT_EMPTY_PATH : Z := Z.shiftl 1 12.
Definition mask : Z := 0x1f00.
End FstatFlags.

Module OpenFlags.
Definition RDONLY : Z := 0.
Definition WRONLY : Z := Z.shiftl 1 0.
Definition RDWR : Z := Z.shiftl 1 1.
Definition CREATE : Z := Z.shiftl 1 6.
Definition EXCL : Z := Z.shiftl 1 7.
Definition NOCTTY : Z := Z.shiftl 1 8.
Definition TRUNCATE : Z := Z.shiftl 1 9.
Definition APPEND : Z := Z.shiftl 1 10.
Definition NONBLOCK : Z := Z.shiftl 1 11.
Definition DSYNC : Z := Z.shiftl 1 12.
Definition ASYNC : Z := Z.shiftl 1 13.
Definition DIRECT : Z := Z.shiftl 1 14.
Definition LARGEFILE : Z := Z.shiftl 1 15.
Definition DIRECTORY : Z := Z.shiftl 1 16.
Definition CLOEXEC : Z := Z.shiftl 1 19.
Definition mask : Z :=
  foldr Z.lor 0 [RDONLY; WRONLY; RDWR; CREATE; EXCL; NOCTTY; TRUNCATE; APPEND;
                 NONBLOCK; DSYNC; ASYNC; DIRECT; LARGEFILE; DIRECTORY; CLOEXEC].
Definition from_bits (x : Z) : option Z := Flags.from_bits mask x.

Definition with_read_only (self : Z) : Z :=
  Flags.difference self (Flags.union WRONLY RDWR).
Definition with_write_only (self : Z) : Z :=
  Flags.union (Flags.difference self RDWR) WRONLY.

(** [read_write]: the access mode of the low two bits; [3] is
    [unreachable!()]. *)
Definition read_write {E} (self : Z) : outcome E (bool * bool) :=
  let bits := Z.land self 3 in
  if bits =? 0 then Ok (true, false)
  else if bits =? 1 then Ok (false, true)
  else if bits =? 2 then Ok (true, true)
  else Panic.
End OpenFlags.

Module Renameat2Flags.
Definition RENAME_NOREPLACE : Z := Z.shiftl 1 0.
Definition RENAME_EXCHANGE : Z := Z.shiftl 1 1.
Definition RENAME_WHITEOUT : Z := Z.shiftl 1 2.
Definition mask : Z := 7.
End Renameat2Flags.

Module FaccessatMode.
Definition F_OK : Z := 0.
Definition X_OK : Z := Z.shiftl 1 0.
Definition W_OK : Z := Z.shiftl 1 1.
Definition R_OK : Z := Z.shiftl 1 2.
Definition mask : Z := 7.
End FaccessatMode.

(** ** Process and memory flags ([misc.rs]) *)
Module WaitFlags.
Definition WNOHANG : Z := Z.shiftl 1 0.
Definition WIMTRACED : Z := Z.shiftl 1 1.
Definition WCONTINUED : Z := Z.shiftl 1 3.
Definition mask : Z := 11.
End WaitFlags.

Module MmapProt.
Definition PROT_NONE : Z := 0.
Definition PROT_READ : Z := Z.shiftl 1 0.
Definition PROT_WRITE : Z := Z.shiftl 1 1.
Definition PROT_EXEC : Z := Z.shiftl 1 2.
Definition mask : Z := 7.
End MmapProt.

Module MmapFlags.
Definition MAP_SHARED : Z := Z.shiftl 1 0.
Definition MAP_PRIVATE : Z := Z.shiftl 1 1.
Definition MAP_FIXED : Z := Z.shiftl 1 4.
Definition MAP_ANONYMOUS : Z := Z.shiftl 1 5.
Definition MAP_DENYWRITE : Z := Z.shiftl 1 11.
Definition MAP_EXECUTABLE : Z := Z.shiftl 1 12.
Definition mask : Z :=
  foldr Z.lor 0 [MAP_SHARED; MAP_PRIVATE; MAP_FIXED; MAP_ANONYMOUS;
                 MAP_DENYWRITE; MAP_EXECUTABLE].
End MmapFlags.

Module CloneFlags.
Definition CLONE_VM : Z := Z.shiftl 1 8.
Definition CLONE_FS : Z := Z.shiftl 1 9.
Definition CLONE_FILES : Z := Z.shiftl 1 10.
Definition CLONE_SIGHAND : Z := Z.shiftl 1 11.
Definition CLONE_THREAD : Z := Z.shiftl 1 16.
Definition CLONE_SYSVSEM : Z := Z.shiftl 1 18.
Definition CLONE_SETTLS : Z := Z.shiftl 1 19.
Definition CLONE_PARENT_SETTID : Z := Z.shiftl 1 20.
Definition CLONE_CHILD_CLEARTID : Z := Z.shiftl 1 21.
Definition CLONE_DETACHED : Z := Z.shiftl 1 22.
Definition mask : Z :=
  foldr Z.lor 0 [CLONE_VM; CLONE_FS; CLONE_FILES; CLONE_SIGHAND; CLONE_THREAD;
                 CLONE_SYSVSEM; CLONE_SETTLS; CLONE_PARENT_SETTID;
                 CLONE_CHILD_CLEARTID; CLONE_DETACHED].
End CloneFlags.

(** ** Time ([misc.rs]) *)
Record TimeSpec : Type := mkTimeSpec { sec : Z; nsec : Z }.
#[export] Instance TimeSpec_eq_dec : EqDecision TimeSpec.
Proof. solve_decision. Defined.
Definition TimeSpec_default : TimeSpec := mkTimeSpec 0 0.

(** [core::time::Duration]: seconds and nanoseconds below one second;
    [Duration::new] carries and panics when the seconds overflow. *)
Record Duration : Type := mkDuration { d_secs : Z; d_nanos : Z }.
Definition Duration_new {E} (secs nanos : Z) : outcome E Duration :=
  if nanos <? NANO_PER_SEC then Ok (mkDuration secs nanos)
  else
    let? secs := uadd 64 secs (nanos / NANO_PER_SEC) in
    Ok (mkDuration secs (nanos mod NANO_PER_SEC)).
Definition as_millis (d : Duration) : Z :=
  d_secs d * MILLI_PER_SEC + d_nanos d / 1000000.

Definition TimeSpec_from_duration (d : Duration) : TimeSpec :=
  mkTimeSpec (to_signed 64 (d_secs d)) (d_nanos d).
Definition Duration_try_from (value : TimeSpec) : KResult Duration :=
  if (sec value <? 0) || (nsec value <? 0) || (NANO_PER_SEC <? nsec value)
  then Err EINVAL
  else Duration_new (wrap 64 (sec value)) (wrap 32 (nsec value)).

Definition UTIME_NOW : Z := 1073741823.
Definition UTIME_OMIT : Z := 1073741822.

(** ** Signals ([signal.rs]) *)
Definition SIGSET_SIZE : Z := 64.
Definition SIGSET_SIZE_BYTES : Z := SIGSET_SIZE / 8.

Module SignalActionFlags.
Definition SA_RESTORER : Z := 0x04000000.
Definition SA_NODEFER : Z := 0x40000000.
End SignalActionFlags.

Record KSignalAction : Type := mkKSignalAction {
  sa_handler : Z; sa_flags : Z; sa_restorer : Z; sa_mask : Z
}.
Definition KSignalAction_new : KSignalAction := mkKSignalAction 0 0 0 0.

(** ** Resource limits ([resource.rs]) *)
Definition RLIM_INFINITY : Z := usize_max.
Record RLimit : Type := mkRLimit { rlim_curr : Z; rlim_max : Z }.

(** ** Lemmas *)

(** Membership of the access bits, computed from the low two bits. *)
Lemma land3_cases x : 0 ≤ Z.land x 3 < 4.
Proof. change 3 with (Z.ones 2). rewrite Z.land_ones by lia. apply Z.mod_pos_bound. lia. Qed.

Lemma with_read_only_low x : Z.land (OpenFlags.with_read_only x) 3 = 0.
Proof.
  unfold OpenFlags.with_read_only, Flags.difference, Flags.union.
  change 3 with (Z.ones 2).
  change (Z.lor OpenFlags.WRONLY OpenFlags.RDWR) with (Z.ones 2).
  bitwise n. destruct (Z.testbit x n); simpl; [|done].
  by rewrite andb_comm, andb_negb_r.
Qed.

Lemma with_write_only_low x : Z.land (OpenFlags.with_write_only x) 3 = 1.
Proof.
  unfold OpenFlags.with_write_only, Flags.difference, Flags.union.
  apply Z.bits_inj'. intros n Hn. bit_rewrite.
  destruct (decide (n = 0)) as [->|]; [by rewrite !orb_true_r|].
  destruct (decide (n = 1)) as [->|]; [by rewrite !andb_false_r|].
  rewrite (testbit_high 3 2 n), (testbit_high 1 1 n) by (done || lia).
  by rewrite !andb_false_r.
Qed.

(** Every error code is negative, lies in [-1024, -1], and identifies its
    error: no two errors share a code. A system call's negative return value
    therefore names one error. *)
Theorem errno_codes e1 e2 :
  -1024 ≤ as_isize e1 < 0 ∧ (as_isize e1 = as_isize e2 ↔ e1 = e2).
Proof. split; [by destruct e1|]. split; [|by intros ->]. by destruct e1, e2. Qed.

(** Converting a user [TimeSpec] to a [Duration] accepts exactly the
    non-negative values with at most one second of nanoseconds, and then keeps
    the total number of nanoseconds (a full second of nanoseconds carries into
    the seconds); everything else is [EINVAL]. It never panics on a value of
    the ABI's [i64] fields. *)
Theorem duration_try_from_spec ts :
  -(2 ^ 63) ≤ sec ts < 2 ^ 63 → -(2 ^ 63) ≤ nsec ts < 2 ^ 63 →
  match Duration_try_from ts with
  | Ok d => 0 ≤ sec ts ∧ 0 ≤ nsec ts ≤ NANO_PER_SEC ∧
            0 ≤ d_nanos d < NANO_PER_SEC ∧
            d_secs d * NANO_PER_SEC + d_nanos d = sec ts * NANO_PER_SEC + nsec ts
  | Err e => e = EINVAL ∧ (sec ts < 0 ∨ nsec ts < 0 ∨ NANO_PER_SEC < nsec ts)
  | Panic => False
  end.
Proof.
  intros Hs Hn. unfold Duration_try_from.
  destruct (Z.ltb_spec (sec ts) 0); [simpl; auto|].
  destruct (Z.ltb_spec (nsec ts) 0); [simpl; auto|].
  destruct (Z.ltb_spec NANO_PER_SEC (nsec ts)); [simpl; auto|]. simpl.
  unfold NANO_PER_SEC, MICRO_PER_SEC, MILLI_PER_SEC in *.
  rewrite !wrap_small by lia. unfold Duration_new, NANO_PER_SEC, MICRO_PER_SEC, MILLI_PER_SEC.
  destruct (Z.ltb_spec (nsec ts) (1000 * (1000 * 1000))); simpl; [lia|].
  assert (nsec ts = 1000 * (1000 * 1000)) as -> by lia.
  rewrite Z.div_same, Z.mod_same by lia. unfold uadd.
  rewrite checked_fits; simpl; lia.
Qed.

(** A full second of nanoseconds is accepted. *)
Lemma duration_try_from_witness :
  Duration_try_from (mkTimeSpec 3 1000000000) = Ok (mkDuration 4 0) ∧
  match Duration_try_from (mkTimeSpec 3 1000000000) with
  | Ok d => d_secs d * NANO_PER_SEC + d_nanos d = 3 * NANO_PER_SEC + 1000000000
  | _ => False
  end.
Proof.
  split; [reflexivity|].
  pose proof (duration_try_from_spec (mkTimeSpec 3 1000000000)
                ltac:(split; done) ltac:(split; done)) as H.
  destruct (Duration_try_from (mkTimeSpec 3 1000000000)) eqn:E;
    [apply H | vm_compute in E; discriminate E | destruct H].
Defined.
