(* ===== verification/Boot.v ===== *)
(** * Start-up and shutdown

    [kernel/src/main.rs], [lang_items.rs] and [libkernel/src/hart/mod.rs]: the
    harts race for the initialisation, the others wait for its end, all run the
    executor until the shutdown, and one of them switches the machine off. A step
    relation over any number of harts, panics included; and the clearing of [.bss]. *)
From S2P Require Import Prelude Address Defines.

(** ** [clear_bss]

    Kernel memory as a function of the address; [fill] is a slice filled with
    zeros. *)
Definition fill (start len : Z) (m : Z → Z) : Z → Z := λ a, if (start <=? a) && (a <? start + len) then 0 else m a.
Definition BATCH_SIZE : Z := 4096.
(** A slice of batches, filled one array after the other. *)
Fixpoint fill_batches (start : Z) (n : nat) (m : Z → Z) : Z → Z :=
  match n with
  | O => m
  | S n => fill_batches (start + BATCH_SIZE) n (fill start BATCH_SIZE m)
  end.
Definition clear_bss (debug_assertions : bool) (sbss ebss : Z) (m : Z → Z) : Z → Z :=
  let len := ebss - sbss in
  if debug_assertions then
    let batch_end := sbss + len / BATCH_SIZE * BATCH_SIZE in
    fill batch_end (ebss - batch_end) (fill_batches sbss (Z.to_nat (len / BATCH_SIZE)) m)
  else fill sbss len m.

Lemma fill_batches_eq n : ∀ start m a,
  fill_batches start n m a = if (start <=? a) && (a <? start + Z.of_nat n * BATCH_SIZE) then 0 else m a.
Proof.
  induction n as [|n IH]; intros start m a; cbn [fill_batches].
  - replace (start + Z.of_nat 0 * BATCH_SIZE) with start by lia.
    by destruct (Z.leb_spec start a), (Z.ltb_spec a start); simpl; try lia.
  - rewrite IH. unfold fill, BATCH_SIZE in *. rewrite Nat2Z.inj_succ.
    destruct (Z.leb_spec (start + 4096) a), (Z.ltb_spec a (start + 4096 + Z.of_nat n * 4096)), (Z.leb_spec start a),
      (Z.ltb_spec a (start + 4096)), (Z.ltb_spec a (start + Z.succ (Z.of_nat n) * 4096)); simpl; try done; lia.
Qed.
(** The debug build clears the same bytes in batches. *)
Lemma clear_bss_equiv sbss ebss m a :
  sbss ≤ ebss → clear_bss true sbss ebss m a = clear_bss false sbss ebss m a.
Proof.
  intros Hl. unfold clear_bss. unfold fill at 1. rewrite fill_batches_eq. unfold fill, BATCH_SIZE.
  pose proof (Z.div_mod (ebss - sbss) 4096 ltac:(lia)). pose proof (Z.mod_pos_bound (ebss - sbss) 4096 ltac:(lia)).
  assert (0 ≤ (ebss - sbss) / 4096) by (apply Z.div_pos; lia). rewrite Z2Nat.id by done.
  set (q := (ebss - sbss) / 4096) in *.
  destruct (Z.leb_spec (sbss + q * 4096) a), (Z.ltb_spec a (sbss + q * 4096 + (ebss - (sbss + q * 4096)))),
    (Z.leb_spec sbss a), (Z.ltb_spec a (sbss + q * 4096)), (Z.ltb_spec a (sbss + (ebss - sbss))); simpl; try done; lia.
Qed.

(** ** Harts at start-up *)
(** The stages of the initialisation, in the order of [__hart_entry] *)
Inductive stage : Type :=
| ClearBss | SetLocalHart | MemoryInit | ActivateSpace | DriversInit | TracerInit | EnableFloat | InitVfs
| ProcessInit | SpawnInit.
#[export] Instance stage_eq_dec : EqDecision stage.
Proof. solve_decision. Defined.
Definition stages : list stage :=
  [ClearBss; SetLocalHart; MemoryInit; ActivateSpace; DriversInit; TracerInit; EnableFloat; InitVfs; ProcessInit; SpawnInit].

(** Where a hart is: not started, at the exchange of [BOOT_HART], in the
    initialisation, before [INIT_FINISHED] is set, starting the others, waiting
    for [INIT_FINISHED], setting itself up, in the kernel loop, in the end of
    [kernel_loop], spinning, or it has switched the machine off. *)
Inductive boot_pc : Type :=
| Off | Entry | Initialising (todo : list stage) | Publish | StartOthers (todo : list Z)
| Waiting | SetUp | Looping | LoopEnded | Spinning | Reset.

#[export] Instance boot_pc_eq_dec : EqDecision boot_pc.
Proof. solve_decision. Defined.

(** [BOOT_HART], [INIT_FINISHED], [SHUTDOWN], what was done of the
    initialisation, the harts *)
Record Boot : Type := mkBoot {
  boot_hart : option Z;
  init_finished : bool;
  shutdown : bool;
  done_stages : list stage;
  pcs : gmap Z boot_pc;
}.
Definition pc_of (s : Boot) (h : Z) : boot_pc := default Off (pcs s !! h).
Definition set_bpc (h : Z) (x : boot_pc) (s : Boot) : Boot :=
  mkBoot (boot_hart s) (init_finished s) (shutdown s) (done_stages s) (<[h := x]> (pcs s)).
Definition boot_init : Boot := mkBoot None false false [] ∅.
Definition is_boot (s : Boot) (h : Z) : bool := bool_decide (boot_hart s = Some h).

(** The next instruction of a hart that is not waiting for anything else *)
Definition boot_next (h : Z) (s : Boot) : option Boot :=
  match pc_of s h with
  | Off | Spinning | Reset => None
  | Entry =>
      match boot_hart s with
      | None => Some (set_bpc h (Initialising stages) (mkBoot (Some h) (init_finished s) (shutdown s) (done_stages s) (pcs s)))
      | Some _ => Some (set_bpc h Waiting s)
      end
  | Initialising (st :: todo) =>
      Some (set_bpc h (Initialising todo)
              (mkBoot (boot_hart s) (init_finished s) (shutdown s) (done_stages s ++ [st]) (pcs s)))
  | Initialising [] => Some (set_bpc h Publish s)
  | Publish =>
      Some (set_bpc h (StartOthers (filter (λ i, i ≠ h) (seqZ 0 MAX_HART_NUM)))
              (mkBoot (boot_hart s) true (shutdown s) (done_stages s) (pcs s)))
  | StartOthers (i :: todo) =>
      let s := match pc_of s i with Off => set_bpc i Entry s | _ => s end in
      Some (set_bpc h (StartOthers todo) s)
  | StartOthers [] => Some (set_bpc h Looping s)
  | Waiting => if init_finished s then Some (set_bpc h SetUp s) else Some s
  | SetUp => Some (set_bpc h Looping s)
  | Looping => if shutdown s then Some (set_bpc h LoopEnded s) else Some s
  | LoopEnded => Some (set_bpc h (if is_boot s h then Reset else Spinning) s)
  end.
Inductive boot_step : Boot → Boot → Prop :=
| bs_power_on s h : pc_of s h = Off → boot_step s (set_bpc h Entry s)
| bs_next s h s' : boot_next h s = Some s' → boot_step s s'
(** the last process exits ([executor::SHUTDOWN] is set) *)
| bs_shutdown s h : pc_of s h = Looping →
    boot_step s (mkBoot (boot_hart s) (init_finished s) true (done_stages s) (pcs s))
(** the panic handler *)
| bs_panic s h : pc_of s h ≠ Off → pc_of s h ≠ Reset →
    boot_step s (set_bpc h (if is_boot s h then Reset else Spinning)
                   (mkBoot (boot_hart s) (init_finished s) true (done_stages s) (pcs s))).

(** ** Invariant *)
(** What hart [h] relies on at [x] *)
Definition pc_ok (s : Boot) (h : Z) (x : boot_pc) : Prop :=
  match x with
  | Off | Entry | Spinning => True
  | Waiting => boot_hart s ≠ None
  | Initialising todo => boot_hart s = Some h ∧ done_stages s ++ todo = stages ∧ init_finished s = false
  | Publish => boot_hart s = Some h ∧ done_stages s = stages ∧ init_finished s = false
  | StartOthers _ => boot_hart s = Some h ∧ init_finished s = true
  | SetUp | Looping => init_finished s = true
  | LoopEnded => init_finished s = true ∧ shutdown s = true
  | Reset => boot_hart s = Some h ∧ shutdown s = true
  end.
Record boot_ok (s : Boot) : Prop := {
  bo_hart h : pc_ok s h (pc_of s h);
  bo_start : boot_hart s = None → done_stages s = [] ∧ init_finished s = false;
  bo_done : init_finished s = true → done_stages s = stages;
}.
Lemma pc_set h x s h' : pc_of (set_bpc h x s) h' = if decide (h = h') then x else pc_of s h'.
Proof. unfold pc_of, set_bpc. simpl. rewrite lookup_insert. by case_decide. Qed.
Lemma boot_ok_init : boot_ok boot_init.
Proof. split; [|done|done]. intros h. unfold pc_of, boot_init. simpl. by rewrite lookup_empty. Qed.

(** A step of [h] that changes shared variables: what the other harts rely on stays
    true. *)
Lemma boot_ok_step s s' h x :
  boot_ok s →
  pcs s' = <[h := x]> (pcs s) →
  (boot_hart s = Some h ∨ boot_hart s = None ∨ done_stages s' = done_stages s ∧ init_finished s' = init_finished s) →
  (boot_hart s' = boot_hart s ∨ boot_hart s = None ∧ boot_hart s' ≠ None) →
  (init_finished s = true → init_finished s' = true) → (shutdown s = true → shutdown s' = true) →
  pc_ok s' h x → (boot_hart s' = None → done_stages s' = [] ∧ init_finished s' = false) →
  (init_finished s' = true → done_stages s' = stages) →
  boot_ok s'.
Proof.
  intros [Ha Hb Hc] Hp Hd Hbh Hf Hs Ha' Hb' Hc'. split; [|done|done].
  intros h'. unfold pc_of. rewrite Hp, lookup_insert. destruct (decide (h = h')) as [<-|Hne]; [exact Ha'|].
  specialize (Ha h'). unfold pc_of in Ha. clear Ha' Hb' Hc' Hp Hb Hc.
  destruct (pcs s !! h') as [[]|]; simpl in *; try done;
    destruct Hd as [?|[?|[??]]], Hbh as [?|[??]]; intuition congruence.
Qed.
(** A step that changes the place of [h] only *)
Lemma boot_ok_move s h x : boot_ok s → pc_ok s h x → boot_ok (set_bpc h x s).
Proof.
  intros Hok Hx. apply (boot_ok_step s _ h x); simpl;
    [done|done|by right; right|by left|done|done|by destruct x|by apply bo_start|by apply bo_done].
Qed.
Lemma boot_next_ok s h s' : boot_ok s → boot_next h s = Some s' → boot_ok s'.
Proof.
  intros Hok Hn. pose proof (bo_hart s Hok h) as Hh. unfold boot_next in Hn.
  destruct (pc_of s h) as [| |[|st todo]| |[|i todo]| | | | | |] eqn:Hpc; simpl in Hh; try done.
  - destruct (boot_hart s) eqn:Hb; injection Hn as <-.
    + apply boot_ok_move; [done|]. simpl. by rewrite Hb.
    + destruct (bo_start s Hok Hb) as [Hd Hf].
      apply (boot_ok_step s _ h (Initialising stages)); simpl; rewrite ?Hd, ?Hf;
        [done|done|by right; left|by right|done|done|done|done|done].
  - injection Hn as <-. apply boot_ok_move; [done|]. simpl. rewrite app_nil_r in Hh. done.
  - injection Hn as <-. destruct Hh as (Hb & Hd & Hf).
    apply (boot_ok_step s _ h (Initialising todo)); simpl; rewrite ?Hf, ?Hb;
      [done|done|by left|by left|done|done|by rewrite <- app_assoc|done|done].
  - injection Hn as <-. destruct Hh as (Hb & Hd & Hf).
    eapply (boot_ok_step s); simpl; [done|reflexivity|by left|by left|done|done|done|by rewrite Hb|done].
  - injection Hn as <-. apply boot_ok_move; [done|]. simpl. tauto.
  - injection Hn as <-. destruct (pc_of s i); apply boot_ok_move; try done. by apply boot_ok_move.
  - destruct (init_finished s) eqn:Hf; injection Hn as <-; [|done]. by apply boot_ok_move.
  - injection Hn as <-. by apply boot_ok_move.
  - destruct (shutdown s) eqn:Hf; injection Hn as <-; [|done]. by apply boot_ok_move.
  - injection Hn as <-. apply boot_ok_move; [done|]. unfold is_boot. case_bool_decide; simpl; tauto.
Qed.
Lemma boot_step_ok s s' : boot_step s s' → boot_ok s → boot_ok s'.
Proof.
  intros Hs Hok. destruct Hs as [s h Hh|s h s' Hn|s h Hh|s h Hh Hh'].
  - by apply boot_ok_move.
  - by eapply boot_next_ok.
  - pose proof (bo_hart s Hok h) as Hl. rewrite Hh in Hl.
    apply (boot_ok_step s _ h Looping); simpl; [done| |by right; right|by left|done|done|done|by apply bo_start|by apply bo_done].
    unfold pc_of in Hh. rewrite insert_id; [done|]. destruct (pcs s !! h); simpl in *; congruence.
  - eapply (boot_ok_step s); simpl; [done|reflexivity|by right; right|by left|done|done| |by apply bo_start|by apply bo_done].
    unfold is_boot. case_bool_decide; done.
Qed.

(** C25: the kernel is initialised once, before anything runs on it. Whichever harts
    arrive at the entry, in whatever order, and even if some panic: at most one
    hart initialises, and it is the one recorded in [BOOT_HART]; a hart that sets
    itself up or runs the executor finds every stage of the initialisation done,
    in order and once; only the boot hart switches the machine off, and only after
    [SHUTDOWN] was set. *)
Theorem boot_once s :
  rtc boot_step boot_init s →
  (∀ h todo, pc_of s h = Initialising todo → boot_hart s = Some h ∧ done_stages s ++ todo = stages) ∧
  (∀ h, pc_of s h = SetUp ∨ pc_of s h = Looping ∨ pc_of s h = LoopEnded →
     init_finished s = true ∧ done_stages s = stages) ∧
  (∀ h, pc_of s h = Reset → boot_hart s = Some h ∧ shutdown s = true).
Proof.
  intros Hr. assert (boot_ok s) as [Ha _ Hc].
  { pose proof boot_ok_init as Hi. revert Hi. induction Hr as [|x y z Hs _ IH]; [done|]. intros Hx. apply IH. by eapply boot_step_ok. }
  split_and!; intros h.
  - intros todo Hpc. specialize (Ha h). rewrite Hpc in Ha. simpl in Ha. tauto.
  - intros Hpc. specialize (Ha h). assert (init_finished s = true) as Hf; [|by auto].
    destruct Hpc as [Hpc|[Hpc|Hpc]]; rewrite Hpc in Ha; simpl in Ha; tauto.
  - intros Hpc. specialize (Ha h). by rewrite Hpc in Ha.
Qed.

(** ** A run with two harts *)
Module BootDemo.
Definition step_of (a : bool * Z) (s : Boot) : option Boot :=
  if a.1 then boot_next a.2 s else match pc_of s a.2 with Off => Some (set_bpc a.2 Entry s) | _ => None end.
Lemma step_of_step a s s' : step_of a s = Some s' → boot_step s s'.
Proof.
  destruct a as [[] h]; unfold step_of; cbn [fst snd]; [by apply bs_next|].
  destruct (pc_of s h) eqn:E; intros Hs; simplify_eq; by apply bs_power_on.
Qed.
Definition run_boot (l : list (bool * Z)) : option Boot := foldl (λ o a, s ← o; step_of a s) (Some boot_init) l.
Lemma run_boot_steps l s : run_boot l = Some s → rtc boot_step boot_init s.
Proof.
  unfold run_boot. revert s. induction l as [|a l IH] using rev_ind; intros s; simpl.
  - intros [= <-]. apply rtc_refl.
  - rewrite foldl_app. simpl. destruct (foldl _ _ l) as [s1|]; simpl; [|done]. intros Ha%step_of_step.
    eapply rtc_r; [by apply IH|done].
Qed.
(** Hart 1 wins, hart 0 waits; then both are in the loop. *)
Definition race : list (bool * Z) :=
  [(false, 0); (false, 1); (true, 1); (true, 0); (true, 0)] ++ replicate 20 (true, 1) ++ replicate 3 (true, 0).
Lemma boot_once_witness :
  ∃ s, rtc boot_step boot_init s ∧ pc_of s 0 = Looping ∧ pc_of s 1 = Looping ∧ boot_hart s = Some 1 ∧ done_stages s = stages.
Proof.
  assert (match run_boot race with
          | Some s => bool_decide (pc_of s 0 = Looping ∧ pc_of s 1 = Looping ∧ boot_hart s = Some 1)
          | None => false
          end = true) as Hv by (vm_compute; reflexivity).
  destruct (run_boot race) as [s|] eqn:E; [|discriminate Hv]. pose proof (run_boot_steps _ _ E) as Hr.
  apply bool_decide_eq_true_1 in Hv as (H0 & H1 & Hb).
  destruct (boot_once s Hr) as (_ & H2 & _). destruct (H2 0 ltac:(right; left; exact H0)) as [_ H3].
  exists s. split; [exact Hr|]. split; [exact H0|]. split; [exact H1|]. split; [exact Hb|exact H3].
Defined.
End BootDemo.
