(* ===== verification/Kst.v ===== *)
(** * State, errors and panics

    A handler of the kernel reads and changes state, returns a value or an error
    code, and may panic. Unlike an [outcome], an error keeps the state: what a
    system call did before it failed stays done. *)
From S2P Require Import Prelude Defines.

Inductive kres (S A : Type) : Type :=
| Done (a : A) (s : S)
| Fail (e : errno) (s : S)
| Crash.
Arguments Done {S A} a s.
Arguments Fail {S A} e s.
Arguments Crash {S A}.

Definition kst (S A : Type) : Type := S → kres S A.

#[export] Instance kst_ret {S} : MRet (kst S) := λ A x s, Done x s.
#[export] Instance kst_bind {S} : MBind (kst S) := λ A B f m s,
  match m s with
  | Done a s => f a s
  | Fail e s => Fail e s
  | Crash => Crash
  end.
#[export] Instance kst_fmap {S} : FMap (kst S) := λ A B f m s,
  match m s with
  | Done a s => Done (f a) s
  | Fail e s => Fail e s
  | Crash => Crash
  end.

Section ops.
Context {S : Type}.

(** [return Err(e)] *)
Definition kfail {A} (e : errno) : kst S A := λ s, Fail e s.
(** [panic!], [todo!], a failed [assert!] *)
Definition kcrash {A} : kst S A := λ _, Crash.
Definition kassert (b : bool) : kst S () := λ s, if b then Done () s else Crash.
Definition kget : kst S S := λ s, Done s s.
Definition kgets {A} (f : S → A) : kst S A := λ s, Done (f s) s.
Definition kput (s : S) : kst S () := λ _, Done () s.
Definition kmodify (f : S → S) : kst S () := λ s, Done () (f s).
(** [Option::ok_or(e)?] and [Option::unwrap] *)
Definition kok_or {A} (o : option A) (e : errno) : kst S A :=
  match o with Some x => mret x | None => kfail e end.
Definition kunwrap {A} (o : option A) : kst S A :=
  match o with Some x => mret x | None => kcrash end.
(** A pure function of the kernel, called with [?]. *)
Definition klift {A} (o : KResult A) : kst S A := λ s,
  match o with Ok a => Done a s | Err e => Fail e s | Panic => Crash end.
(** The result of a call, kept as a value instead of being propagated. *)
Definition ktry {A} (m : kst S A) : kst S (A + errno) := λ s,
  match m s with
  | Done a s => Done (inl a) s
  | Fail e s => Done (inr e) s
  | Crash => Crash
  end.

Lemma kbind_Done {A B} (m : kst S A) (k : A → kst S B) s b s' :
  (m ≫= k) s = Done b s' ↔ ∃ a s1, m s = Done a s1 ∧ k a s1 = Done b s'.
Proof.
  unfold mbind, kst_bind. destruct (m s); [|naive_solver..]. split; [|naive_solver].
  intros. eauto.
Qed.

(** Running the first part of a handler. *)
Lemma kbind_run {A B} (m : kst S A) (k : A → kst S B) s a s1 :
  m s = Done a s1 → (m ≫= k) s = k a s1.
Proof. unfold mbind, kst_bind. by intros ->. Qed.
Lemma kbind_fail {A B} (m : kst S A) (k : A → kst S B) s e s1 :
  m s = Fail e s1 → (m ≫= k) s = Fail e s1.
Proof. unfold mbind, kst_bind. by intros ->. Qed.

Lemma kbind_assoc {A B C} (m : kst S A) (f : A → kst S B) (g : B → kst S C) s :
  ((m ≫= f) ≫= g) s = (m ≫= (λ a, f a ≫= g)) s.
Proof. unfold mbind, kst_bind. by destruct (m s). Qed.
End ops.

(** [kinv] takes [m s = Done a s'] apart along the binds. *)
Ltac kinv_step :=
  match goal with
  | H : Done _ _ = Done _ _ |- _ => injection H as; subst
  | H : Fail _ _ = Done _ _ |- _ => discriminate H
  | H : Crash = Done _ _ |- _ => discriminate H
  | H : (_ ≫= _) _ = Done _ _ |- _ =>
      let s := fresh "s" in
      apply kbind_Done in H; destruct H as (? & s & ? & H)
  end.
Ltac kinv := repeat (kinv_step; cbn beta iota in * ).

(** The result of a run, forgetting the state of a success. *)
Definition kvalue {S A} (r : kres S A) : option A :=
  match r with Done a _ => Some a | _ => None end.
Definition kstate {S A} (r : kres S A) : option S :=
  match r with Done _ s | Fail _ s => Some s | Crash => None end.
Definition kcrashes {S A} (r : kres S A) : bool :=
  match r with Crash => true | _ => false end.

(** ** Specifications

    [hoare P c Q E]: run in a state of [P], [c] ends in [Q] with a value, or in
    [E] with an error, or panics. *)
Section hoare.
Context {S : Type}.
Implicit Types (P : S → Prop) (E : errno → S → Prop).

Definition hoare {A} P (c : kst S A) (Q : A → S → Prop) E : Prop :=
  ∀ s, P s → match c s with Done a s' => Q a s' | Fail e s' => E e s' | Crash => True end.

Lemma h_bind {A B} P (c : kst S A) (f : A → kst S B) Q R E :
  hoare P c R E → (∀ a, hoare (R a) (f a) Q E) → hoare P (c ≫= f) Q E.
Proof.
  intros Hc Hf s Hs. specialize (Hc s Hs). unfold mbind, kst_bind.
  destruct (c s) as [a s'|e s'|]; [|done..]. by apply Hf.
Qed.

Lemma h_assoc {A B C} P (c : kst S A) (f : A → kst S B) (g : B → kst S C) Q E :
  hoare P ((c ≫= f) ≫= g) Q E → hoare P (c ≫= λ a, f a ≫= g) Q E.
Proof. intros Hc s Hs. specialize (Hc s Hs). by rewrite kbind_assoc in Hc. Qed.

Lemma h_conseq {A} P P' (c : kst S A) Q Q' E E' :
  hoare P' c Q' E' → (∀ s, P s → P' s) → (∀ a s, Q' a s → Q a s) →
  (∀ e s, E' e s → E e s) → hoare P c Q E.
Proof.
  intros Hc HP HQ HE s Hs. specialize (Hc s (HP s Hs)).
  destruct (c s); auto.
Qed.

Lemma h_ret {A} P (x : A) (Q : A → S → Prop) E : (∀ s, P s → Q x s) → hoare P (mret x) Q E.
Proof. intros HQ s Hs. by apply HQ. Qed.
Lemma h_fail {A} P e (Q : A → S → Prop) E : (∀ s, P s → E e s) → hoare P (kfail e) Q E.
Proof. intros HE s Hs. by apply HE. Qed.
Lemma h_crash {A} P (Q : A → S → Prop) E : hoare P kcrash Q E.
Proof. done. Qed.
Lemma h_assert P b (Q : () → S → Prop) E :
  (∀ s, P s → b = true → Q () s) → hoare P (kassert b) Q E.
Proof. intros HQ s Hs. unfold kassert. destruct b; [by apply HQ|done]. Qed.
Lemma h_get P (Q : S → S → Prop) E : (∀ s, P s → Q s s) → hoare P kget Q E.
Proof. intros HQ s Hs. by apply HQ. Qed.
Lemma h_modify P f (Q : () → S → Prop) E : (∀ s, P s → Q () (f s)) → hoare P (kmodify f) Q E.
Proof. intros HQ s Hs. by apply HQ. Qed.
Lemma h_unwrap {A} P (o : option A) (Q : A → S → Prop) E :
  (∀ x s, P s → o = Some x → Q x s) → hoare P (kunwrap o) Q E.
Proof. intros HQ s Hs. destruct o; [by apply HQ|done]. Qed.
Lemma h_ok_or {A} P (o : option A) e (Q : A → S → Prop) E :
  (∀ x s, P s → o = Some x → Q x s) → (∀ s, P s → o = None → E e s) → hoare P (kok_or o e) Q E.
Proof. intros HQ HE s Hs. destruct o; [by apply HQ|by apply HE]. Qed.
Lemma h_lift {A} P (o : KResult A) (Q : A → S → Prop) E :
  (∀ x s, P s → o = Ok x → Q x s) → (∀ e s, P s → o = Err e → E e s) → hoare P (klift o) Q E.
Proof. intros HQ HE s Hs. unfold klift. destruct o; [by apply HQ|by apply HE|done]. Qed.
Lemma h_try {A} P (c : kst S A) (Q : A + errno → S → Prop) E :
  hoare P c (λ a s, Q (inl a) s) (λ e s, Q (inr e) s) → hoare P (ktry c) Q E.
Proof. intros Hc s Hs. specialize (Hc s Hs). unfold ktry. by destruct (c s). Qed.
End hoare.

(** Steps through a handler while an assertion on the state that the step does
    not change is kept. *)
Create HintDb hoare.
