(* ===== verification/Tracer.v ===== *)
(** * Spans and logs

    [utils/kernel_tracer], [kernel/src/tracer/mod.rs] and the per-hart state of
    [libkernel/src/hart/mod.rs]: log levels, spans in a slab, the stack of entered
    spans of each hart, the lines written. The slab and the colours are those of
    the third-party crates [slab] and [anstyle]. *)
From stdpp Require Import strings.
From S2P Require Import Prelude Address Defines Kst.

Definition text (s : string) : list Z := (λ a, Z.of_nat (Ascii.nat_of_ascii a)) <$> String.list_ascii_of_string s.
Arguments text s%_string.

(** ** Levels *)
Inductive Level : Type := LError | LWarn | LInfo | LDebug | LTrace.
Inductive LevelFilter : Type := FOff | FError | FWarn | FInfo | FDebug | FTrace.
#[export] Instance Level_eq_dec : EqDecision Level.
Proof. solve_decision. Defined.
#[export] Instance LevelFilter_eq_dec : EqDecision LevelFilter.
Proof. solve_decision. Defined.
Definition Level_u8 (l : Level) : Z := match l with LError => 1 | LWarn => 2 | LInfo => 3 | LDebug => 4 | LTrace => 5 end.
Definition LevelFilter_u8 (f : LevelFilter) : Z :=
  match f with FOff => 0 | FError => 1 | FWarn => 2 | FInfo => 3 | FDebug => 4 | FTrace => 5 end.
(** [PartialOrd<LevelFilter> for Level] *)
Definition level_le (l : Level) (f : LevelFilter) : bool := Level_u8 l <=? LevelFilter_u8 f.

Definition LOG_LEVEL_NAMES : list (list Z) :=
  [text "OFF"; text "ERROR"; text "WARN"; text "INFO"; text "DEBUG"; text "TRACE"].
Definition Level_as_str (l : Level) : list Z := default [] (LOG_LEVEL_NAMES !! Z.to_nat (Level_u8 l)).
Definition LevelFilter_as_str (f : LevelFilter) : list Z := default [] (LOG_LEVEL_NAMES !! Z.to_nat (LevelFilter_u8 f)).

(** [str_eq]: the lengths, then the bytes from the first on *)
Fixpoint str_eq_from (lhs rhs : list Z) : bool :=
  match lhs, rhs with
  | x :: lhs, y :: rhs => if negb (x =? y) then false else str_eq_from lhs rhs
  | _, _ => true
  end.
Definition str_eq (lhs rhs : list Z) : bool :=
  if negb (length lhs =? length rhs)%nat then false else str_eq_from lhs rhs.
Definition decide_log_level (level_str : option (list Z)) : LevelFilter :=
  match level_str with
  | Some s =>
      if str_eq s (text "TRACE") then FTrace
      else if str_eq s (text "DEBUG") then FDebug
      else if str_eq s (text "INFO") then FInfo
      else if str_eq s (text "WARN") then FWarn
      else if str_eq s (text "ERROR") then FError
      else FOff
  | None => FOff
  end.

Lemma str_eq_spec l1 l2 : str_eq l1 l2 = true ↔ l1 = l2.
Proof.
  unfold str_eq. destruct (Nat.eqb_spec (length l1) (length l2)) as [Hl|Hl]; simpl; [|split; [done|congruence]].
  revert l2 Hl. induction l1 as [|x l1 IH]; intros [|y l2] Hl; simpl in *; try done.
  destruct (Z.eqb_spec x y) as [->|]; simpl; [|naive_solver]. rewrite IH by lia. naive_solver.
Qed.
(** The name of a filter in the environment selects it; it lets through the levels up
    to its own; any other text switches logging off. *)
Lemma decide_log_level_spec :
  (∀ f, decide_log_level (Some (LevelFilter_as_str f)) = f) ∧
  (∀ s, (∀ f, f ≠ FOff → s ≠ LevelFilter_as_str f) → decide_log_level (Some s) = FOff) ∧
  (∀ l f, level_le l f = true ↔ Level_u8 l ≤ LevelFilter_u8 f).
Proof.
  split; [by intros []|]. split; [|intros; apply Z.leb_le].
  intros s Hs. unfold decide_log_level.
  assert (Hf : ∀ f, f ≠ FOff → str_eq s (LevelFilter_as_str f) = false).
  { intros f Hf. apply not_true_iff_false. rewrite str_eq_spec. by apply Hs. }
  pose proof (Hf FTrace ltac:(done)) as H1. pose proof (Hf FDebug ltac:(done)) as H2. pose proof (Hf FInfo ltac:(done)) as H3.
  pose proof (Hf FWarn ltac:(done)) as H4. pose proof (Hf FError ltac:(done)) as H5.
  change (LevelFilter_as_str FTrace) with (text "TRACE") in H1. change (LevelFilter_as_str FDebug) with (text "DEBUG") in H2.
  change (LevelFilter_as_str FInfo) with (text "INFO") in H3. change (LevelFilter_as_str FWarn) with (text "WARN") in H4.
  change (LevelFilter_as_str FError) with (text "ERROR") in H5. by rewrite H1, H2, H3, H4, H5.
Qed.

(** ** Spans *)
Record SpanAttr : Type := mkAttr { sa_name : list Z; sa_level : Level; sa_kvs : option (list Z) }.

(** The text of the key-value pairs, from their formatted values: [k0=v0 k1=v1] *)
Definition kvs_text (kvs : list (list Z * list Z)) : option (list Z) :=
  match kvs with
  | [] => None
  | (k, v) :: kvs => Some (k ++ text "=" ++ v ++ concat ((λ '(k, v), text " " ++ k ++ text "=" ++ v) <$> kvs))
  end.
(** [Loggable for [T]], from the formatted elements *)
Definition log_slice (l : list (list Z)) : list Z :=
  text "[" ++ match l with [] => [] | x :: l => x ++ concat ((λ y, text ", " ++ y) <$> l) end ++ text "]".

(** [slab::Slab]: keys of vacant entries are given out again; [remove] of a vacant
    one panics. *)
Class Slab (T : Type) := {
  SL : Type;
  sl_new : SL;
  sl_get : SL → Z → option T;
  sl_insert : T → SL → Z * SL;
  sl_remove : Z → SL → option SL;
  sl_get_new k : sl_get sl_new k = None;
  sl_insert_fresh x s : 0 ≤ (sl_insert x s).1 ∧ sl_get s (sl_insert x s).1 = None;
  sl_get_insert x s k : sl_get (sl_insert x s).2 k = if decide (k = (sl_insert x s).1) then Some x else sl_get s k;
  sl_remove_vacant k s : sl_get s k = None → sl_remove k s = None;
  sl_remove_some k s x : sl_get s k = Some x →
    ∃ s', sl_remove k s = Some s' ∧ ∀ k', sl_get s' k' = if decide (k' = k) then None else sl_get s k';
}.
(** [anstyle]: the escape sequences for a level's colour, the bold one of a span,
    and the reset *)
Class AnsiStyle := { render_fg : Level → list Z; render_bold : Level → list Z; render_reset : list Z }.

Section tracer.
Context {SA : Slab SpanAttr} {AS : AnsiStyle}.

(** [KernelTracerImpl] with the [span_stack]s of the harts, the outermost span
    first. A stack is in a [RefCell]: [borrowed] are the harts that have theirs
    borrowed mutably at the moment. *)
Record Tracer : Type := mkTracer {
  slab : SL (T := SpanAttr);
  span_stacks : gmap Z (list Z);
  borrowed : gset Z;
}.
Definition stack_of (h : Z) (t : Tracer) : list Z := default [] (span_stacks t !! h).

(** A [SpanId] is a non-zero [u32]. *)
Definition span_id_to_slab_index (span_id : Z) : Z := span_id - 1.
Definition new_span (attr : SpanAttr) : kst Tracer Z :=
  t ← kget;
  let '(id, s) := sl_insert attr (slab t) in
  _ ← kput (mkTracer s (span_stacks t) (borrowed t));
  id ← klift (uadd 32 (wrap 32 id) 1);
  kunwrap (if id =? 0 then None else Some id).
(** [RefCell::borrow_mut], which panics when the stack is borrowed, and the end of
    the borrow; [RefCell::borrow] *)
Definition borrow_mut (h : Z) : kst Tracer () :=
  t ← kget;
  _ ← kassert (bool_decide (h ∉ borrowed t));
  kput (mkTracer (slab t) (span_stacks t) ({[h]} ∪ borrowed t)).
Definition release (h : Z) : kst Tracer () :=
  kmodify (λ t, mkTracer (slab t) (span_stacks t) (borrowed t ∖ {[h]})).
Definition borrow (h : Z) : kst Tracer () := t ← kget; kassert (bool_decide (h ∉ borrowed t)).
Definition enter (h span_id : Z) : kst Tracer () :=
  _ ← borrow_mut h;
  _ ← kmodify (λ t, mkTracer (slab t) (<[h := stack_of h t ++ [span_id]]> (span_stacks t)) (borrowed t));
  release h.
Definition exit (h span_id : Z) : kst Tracer () :=
  _ ← borrow_mut h;
  t ← kget;
  _ ← kput (mkTracer (slab t) (<[h := removelast (stack_of h t)]> (span_stacks t)) (borrowed t));
  _ ← release h;
  kassert (bool_decide (last (stack_of h t) = Some span_id)).
Definition drop_span (span_id : Z) : kst Tracer () :=
  t ← kget;
  s ← kunwrap (sl_remove (span_id_to_slab_index span_id) (slab t));
  kput (mkTracer s (span_stacks t) (borrowed t)).

(** [write_log] on hart [h]. The stack is borrowed under the lock of the slab, that
    is with interrupts off. *)
Definition pad5 (s : list Z) : list Z := replicate (5 - length s) 32 ++ s.
Fixpoint write_spans (s : SL (T := SpanAttr)) (stack : list Z) : kst Tracer (list Z) :=
  match stack with
  | [] => mret []
  | id :: stack =>
      attr ← kunwrap (sl_get s (span_id_to_slab_index id));
      rest ← write_spans s stack;
      mret (text "-" ++ render_bold (sa_level attr) ++ sa_name attr ++ render_reset ++
            match sa_kvs attr with Some kvs => text "{" ++ kvs ++ text "}" | None => [] end ++ rest)
  end.
Definition write_log (h : Z) (level : Level) (args : list Z) : kst Tracer (list Z) :=
  t ← kget;
  _ ← borrow h;
  spans ← write_spans (slab t) (stack_of h t);
  mret (render_fg level ++ text "[" ++ pad5 (Level_as_str level) ++ text "]" ++ render_reset ++ spans ++
        (if stack_of h t then text " " else text ": ") ++ args ++ [10]).

(** [log!] with the filters [CLOG] and [FLOG]: the text for the console, if any;
    the file gets nothing. *)
Definition log_enabled (clog flog : LevelFilter) (level : Level) : bool := level_le level clog || level_le level flog.
Definition log (clog flog : LevelFilter) (h : Z) (level : Level) (args : list Z) : kst Tracer (option (list Z)) :=
  if log_enabled clog flog level then
    if level_le level clog then w ← write_log h level args; mret (Some w) else mret None
  else mret None.

(** ** [Span]s and guards *)
Abbreviation Span := (option Z).
(** [span!] with the filter [SLOG] *)
Definition Span_new (slog : LevelFilter) (attr : SpanAttr) : kst Tracer Span :=
  if level_le (sa_level attr) slog then id ← new_span attr; mret (Some id) else mret None.
Definition Span_enter (h : Z) (s : Span) : kst Tracer () := match s with Some id => enter h id | None => mret () end.
Definition guard_exit (h : Z) (s : Span) : kst Tracer () := match s with Some id => exit h id | None => mret () end.
Definition Span_drop (s : Span) : kst Tracer () := match s with Some id => drop_span id | None => mret () end.

(** ** Every use of spans

    A span is owned by a future, which a hart enters for each poll
    ([RefEnterGuard]), or by a guard ([OwnedEnterGuard]); guards do not cross an
    [await] and are dropped in reverse order. There are fewer than [2 ^ 32] spans at a
    time. Ghost state: the spans with their
    attributes, who has entered them, and the guards of each hart. *)
Record tracing : Type := mkTracing {
  tg_tracer : Tracer;
  tg_spans : gmap Z (Span * SpanAttr);   (* live spans, numbered *)
  tg_guards : gmap Z (list (Z * bool));  (* per hart: span, owned? the outermost first *)
  tg_next : Z;
}.
Definition guards_of (h : Z) (s : tracing) : list (Z * bool) := default [] (tg_guards s !! h).
Definition entered (s : tracing) (n : Z) : Prop := ∃ h owned, (n, owned) ∈ guards_of h s.

Inductive trace_step (slog : LevelFilter) : tracing → tracing → Prop :=
| ts_new s attr sp t' :
    (sl_insert attr (slab (tg_tracer s))).1 < 2 ^ 32 → Span_new slog attr (tg_tracer s) = Done sp t' →
    trace_step slog s (mkTracing t' (<[tg_next s := (sp, attr)]> (tg_spans s)) (tg_guards s) (tg_next s + 1))
| ts_enter s h n owned sp attr t' :
    tg_spans s !! n = Some (sp, attr) → ¬ entered s n →
    Span_enter h sp (tg_tracer s) = Done () t' →
    trace_step slog s (mkTracing t' (tg_spans s) (<[h := guards_of h s ++ [(n, owned)]]> (tg_guards s)) (tg_next s))
| ts_exit s h gs n owned sp attr t' :
    guards_of h s = gs ++ [(n, owned)] → tg_spans s !! n = Some (sp, attr) →
    (_ ← guard_exit h sp; if (owned : bool) then Span_drop sp else mret ()) (tg_tracer s) = Done () t' →
    trace_step slog s (mkTracing t' (if owned then delete n (tg_spans s) else tg_spans s) (<[h := gs]> (tg_guards s)) (tg_next s))
| ts_drop s n sp attr t' :
    tg_spans s !! n = Some (sp, attr) → ¬ entered s n → Span_drop sp (tg_tracer s) = Done () t' →
    trace_step slog s (mkTracing t' (delete n (tg_spans s)) (tg_guards s) (tg_next s)).
Definition tracing_init : tracing := mkTracing (mkTracer sl_new ∅ ∅) ∅ ∅ 0.

(** *** Invariant *)
Definition id_of (s : tracing) (g : Z * bool) : option Z := x ← tg_spans s !! g.1; x.1.
Record tracing_ok (s : tracing) : Prop := {
  to_next n x : tg_spans s !! n = Some x → n < tg_next s;
  to_live n id attr : tg_spans s !! n = Some (Some id, attr) →
    sl_get (slab (tg_tracer s)) (span_id_to_slab_index id) = Some attr;
  to_distinct n n' id attr attr' :
    tg_spans s !! n = Some (Some id, attr) → tg_spans s !! n' = Some (Some id, attr') → n = n';
  to_free : borrowed (tg_tracer s) = ∅;
  to_stack h : stack_of h (tg_tracer s) = omap (id_of s) (guards_of h s);
  to_guards h n o : (n, o) ∈ guards_of h s → is_Some (tg_spans s !! n);
  to_once h h' i i' n o o' :
    guards_of h s !! i = Some (n, o) → guards_of h' s !! i' = Some (n, o') → h = h' ∧ i = i';
}.
Lemma tracing_ok_init : tracing_ok tracing_init.
Proof.
  split; unfold guards_of, stack_of; simpl; try done; intros *; rewrite lookup_empty; simpl; try done. by intros ?%elem_of_nil.
Qed.

Lemma guards_insert s t sps h gs n h' :
  guards_of h' (mkTracing t sps (<[h := gs]> (tg_guards s)) n) = if decide (h = h') then gs else guards_of h' s.
Proof. unfold guards_of. simpl. rewrite lookup_insert. by case_decide. Qed.
Lemma stack_insert sl st b h l h' :
  stack_of h' (mkTracer sl (<[h := l]> st) b) = if decide (h = h') then l else stack_of h' (mkTracer sl st b).
Proof. unfold stack_of. simpl. rewrite lookup_insert. by case_decide. Qed.

(** A borrow that meets no other is over when the call returns. *)
Lemma borrow_mut_run h t : borrowed t = ∅ → borrow_mut h t = Done () (mkTracer (slab t) (span_stacks t) {[h]}).
Proof.
  intros Hb. unfold borrow_mut, mbind, kst_bind, kget, kassert. rewrite Hb, bool_decide_eq_true_2 by set_solver.
  unfold kput. by rewrite union_empty_r_L.
Qed.
Lemma enter_run h id t : borrowed t = ∅ →
  enter h id t = Done () (mkTracer (slab t) (<[h := stack_of h t ++ [id]]> (span_stacks t)) ∅).
Proof.
  intros Hb. unfold enter. rewrite (kbind_run _ _ _ _ _ (borrow_mut_run h t Hb)).
  unfold mbind, kst_bind, release, kmodify. cbn [slab span_stacks borrowed]. by rewrite difference_diag_L.
Qed.
Lemma span_exit_run h id st t : borrowed t = ∅ → stack_of h t = st ++ [id] →
  exit h id t = Done () (mkTracer (slab t) (<[h := st]> (span_stacks t)) ∅).
Proof.
  intros Hb Hs. unfold exit. rewrite (kbind_run _ _ _ _ _ (borrow_mut_run h t Hb)).
  unfold mbind, kst_bind, kget, kput, release, kmodify. cbn [slab span_stacks borrowed].
  change (stack_of h (mkTracer (slab t) (span_stacks t) {[h]})) with (stack_of h t). rewrite Hs, last_snoc, removelast_last.
  unfold kassert. by rewrite difference_diag_L, bool_decide_eq_true_2.
Qed.

(** A new span gets an entry of the slab that no live span has. *)
Lemma Span_new_run slog attr t sp t' :
  (sl_insert attr (slab t)).1 < 2 ^ 32 → Span_new slog attr t = Done sp t' →
  span_stacks t' = span_stacks t ∧ borrowed t' = borrowed t ∧
  match sp with
  | Some id => sl_get (slab t) (span_id_to_slab_index id) = None ∧
      ∀ k, sl_get (slab t') k = if decide (k = span_id_to_slab_index id) then Some attr else sl_get (slab t) k
  | None => t' = t
  end.
Proof.
  intros Hb. unfold Span_new. destruct (level_le _ _); [|by intros [= <- <-]].
  unfold new_span. intros Hr. apply kbind_Done in Hr as (id & t1 & Hn & [= <- <-]).
  apply kbind_Done in Hn as (t0 & t2 & [= <- <-] & Hn).
  pose proof (sl_insert_fresh attr (slab t)) as [Hpos Hfr]. pose proof (sl_get_insert attr (slab t)) as Hget.
  destruct (sl_insert attr (slab t)) as [key sl'] eqn:Hi. simpl in *.
  apply kbind_Done in Hn as ([] & t2 & [= <-] & Hn). rewrite wrap_small in Hn by lia.
  apply kbind_Done in Hn as (id' & t3 & Hl & Hn). unfold klift in Hl. destruct (uadd 32 key 1) as [x| |] eqn:Hu; try done.
  injection Hl as -> <-. apply checked_Ok in Hu as [<- _]. rewrite (proj2 (Z.eqb_neq (key + 1) 0)) in Hn by lia.
  injection Hn as <- <-. simpl. split; [done|]. split; [done|]. unfold span_id_to_slab_index. replace (key + 1 - 1) with key by lia. done.
Qed.
Lemma Span_new_ok slog s attr sp t' :
  tracing_ok s → (sl_insert attr (slab (tg_tracer s))).1 < 2 ^ 32 → Span_new slog attr (tg_tracer s) = Done sp t' →
  tracing_ok (mkTracing t' (<[tg_next s := (sp, attr)]> (tg_spans s)) (tg_guards s) (tg_next s + 1)).
Proof.
  intros [H1 H2 H3 Hf H4 H5 H6] Hb Hn. destruct (Span_new_run slog attr _ sp t' Hb Hn) as (Hst & Hbo & Hsp).
  assert (Hnone : tg_spans s !! tg_next s = None).
  { destruct (tg_spans s !! tg_next s) eqn:E; [|done]. apply H1 in E. lia. }
  assert (Hfresh : ∀ n id attr', tg_spans s !! n = Some (Some id, attr') → sp ≠ Some id).
  { intros n id attr' Hn' ->. destruct Hsp as [Hg _]. apply H2 in Hn'. congruence. }
  split; simpl.
  - intros n x. rewrite lookup_insert. case_decide; [lia|]. intros ?%H1. lia.
  - intros n id attr'. rewrite lookup_insert. case_decide.
    + intros [= -> <-]. destruct Hsp as [_ ->]. by rewrite decide_True.
    + intros Hn'. specialize (Hfresh n id attr' Hn'). apply H2 in Hn'. destruct sp as [id0|]; [|by subst t'].
      destruct Hsp as [Hg ->]. case_decide as Hd; [|done]. congruence.
  - intros n n' id a a'. rewrite !lookup_insert. repeat case_decide; simplify_eq; try done.
    + intros [= -> _] Hn'. by destruct (Hfresh _ _ _ Hn').
    + intros Hn' [= -> _]. by destruct (Hfresh _ _ _ Hn').
    + by apply H3.
  - by rewrite Hbo.
  - intros h. unfold stack_of. rewrite Hst. fold (stack_of h (tg_tracer s)). rewrite H4. unfold guards_of. simpl.
    change (default [] (tg_guards s !! h)) with (guards_of h s). apply list_omap_ext, Forall2_same_length_lookup_2; [done|].
    intros i g g' Hg Hg'. assert (g' = g) as -> by congruence. unfold id_of. simpl. rewrite lookup_insert_ne; [done|].
    intros E. destruct g as [n o]. simpl in E. subst n. destruct (H5 h (tg_next s) o) as [x Hx]; [by eapply list_elem_of_lookup_2|congruence].
  - intros h n o Hg. apply H5 in Hg. rewrite lookup_insert. by case_decide.
  - exact H6.
Qed.

(** The spans of the guards are not touched when another one goes. *)
Lemma omap_id_ext (gs : list (Z * bool)) s s' :
  (∀ n o, (n, o) ∈ gs → tg_spans s' !! n = tg_spans s !! n) → omap (id_of s') gs = omap (id_of s) gs.
Proof.
  intros Hg. apply list_omap_ext, Forall2_same_length_lookup_2; [done|]. intros i [n o] g' H1 H2.
  assert (g' = (n, o)) as -> by congruence. unfold id_of. cbn [fst]. f_equal. apply (Hg n o). by eapply list_elem_of_lookup_2.
Qed.
Lemma omap_id_one s n o sp attr : tg_spans s !! n = Some (sp, attr) → omap (id_of s) [(n, o)] = option_list sp.
Proof.
  intros Hn. assert (id_of s (n, o) = sp) as Hi by (unfold id_of; cbn [fst]; by rewrite Hn).
  simpl. rewrite Hi. by destruct sp.
Qed.
Lemma Span_drop_ok s n sp attr :
  tracing_ok s → tg_spans s !! n = Some (sp, attr) → ¬ entered s n →
  ∃ t', Span_drop sp (tg_tracer s) = Done () t' ∧
        tracing_ok (mkTracing t' (delete n (tg_spans s)) (tg_guards s) (tg_next s)).
Proof.
  intros [H1 H2 H3 Hf H4 H5 H6] Hn He.
  assert (∃ t', Span_drop sp (tg_tracer s) = Done () t' ∧ span_stacks t' = span_stacks (tg_tracer s) ∧
    borrowed t' = borrowed (tg_tracer s) ∧
    ∀ n' id' a', n' ≠ n → tg_spans s !! n' = Some (Some id', a') →
      sl_get (slab t') (span_id_to_slab_index id') = sl_get (slab (tg_tracer s)) (span_id_to_slab_index id')) as (t' & Hd & Hst & Hbo & Hg).
  { destruct sp as [id|]; [|by exists (tg_tracer s)].
    destruct (sl_remove_some _ _ _ (H2 _ _ _ Hn)) as (sl' & Hr & Hget). exists (mkTracer sl' (span_stacks (tg_tracer s)) (borrowed (tg_tracer s))).
    split; [|split; [done|split; [done|]]].
    - simpl. unfold drop_span, mbind, kst_bind, kget. by rewrite Hr.
    - intros n' id' a' Hne Hn'. simpl. rewrite Hget, decide_False; [done|]. unfold span_id_to_slab_index. intros E.
      apply Hne. assert (id' = id) as -> by lia. by eapply H3. }
  exists t'. split; [done|]. split; simpl.
  - intros m x [_ Hm]%lookup_delete_Some. by eapply H1.
  - intros m id a [Hne Hm]%lookup_delete_Some. rewrite (Hg m id a) by done. by eapply H2.
  - intros m m' id a a' [_ Hm]%lookup_delete_Some [_ Hm']%lookup_delete_Some. by eapply H3.
  - by rewrite Hbo.
  - intros h. unfold stack_of. rewrite Hst. fold (stack_of h (tg_tracer s)). rewrite H4. symmetry. apply omap_id_ext.
    intros m o Hm. simpl. apply lookup_delete_ne. intros ->. apply He. by exists h, o.
  - intros h m o Hm. destruct (H5 h m o Hm) as [x Hx]. exists x. rewrite lookup_delete_ne; [done|]. intros ->. apply He. by exists h, o.
  - exact H6.
Qed.
Lemma span_enter_ok s h n owned sp attr :
  tracing_ok s → tg_spans s !! n = Some (sp, attr) → ¬ entered s n →
  ∃ t', Span_enter h sp (tg_tracer s) = Done () t' ∧
    tracing_ok (mkTracing t' (tg_spans s) (<[h := guards_of h s ++ [(n, owned)]]> (tg_guards s)) (tg_next s)).
Proof.
  intros [H1 H2 H3 Hf H4 H5 H6] Hn He.
  set (t' := match sp with Some id => mkTracer (slab (tg_tracer s)) (<[h := stack_of h (tg_tracer s) ++ [id]]> (span_stacks (tg_tracer s))) ∅ | None => tg_tracer s end).
  exists t'. split; [destruct sp; [by apply enter_run|done]|].
  assert (Hslab : slab t' = slab (tg_tracer s)) by (by destruct sp).
  split; simpl; rewrite ?Hslab; [done|done|done|by destruct sp| | |].
  - intros h'. rewrite guards_insert. assert (Hs : stack_of h' t' = if decide (h = h') then stack_of h (tg_tracer s) ++ option_list sp else stack_of h' (tg_tracer s)).
    { unfold t'. destruct sp as [id|]; [rewrite stack_insert; case_decide; [done|by destruct (tg_tracer s)]|].
      simpl. rewrite app_nil_r. case_decide; by subst. }
    rewrite Hs. case_decide as Hd; [|rewrite H4; by apply omap_id_ext].
    rewrite omap_app, H4. f_equal. symmetry. by eapply omap_id_one.
  - intros h' m o. rewrite guards_insert. case_decide; [|apply H5]. intros [Hm|Hm]%elem_of_app; [by eapply H5|].
    apply list_elem_of_singleton in Hm as [= -> ->]. by rewrite Hn.
  - assert (Hold : ∀ h' i o, guards_of h' s !! i = Some (n, o) → False).
    { intros h' i o Hi. apply He. exists h', o. by eapply list_elem_of_lookup_2. }
    intros h1 h2 i1 i2 m o o'. rewrite !guards_insert.
    assert (Hsnoc : ∀ i x, (guards_of h s ++ [(n, owned)]) !! i = Some x →
      guards_of h s !! i = Some x ∨ i = length (guards_of h s) ∧ x = (n, owned)).
    { intros i x. rewrite lookup_app_Some. intros [?|[? Hx]]; [by left|right].
      destruct (i - length (guards_of h s))%nat eqn:E; [|done]. simpl in Hx. injection Hx as <-. split; [lia|done]. }
    repeat case_decide; subst; intros A B.
    + apply Hsnoc in A as [A|[-> E1]], B as [B|[-> E2]]; simplify_eq; [by eapply H6|by exfalso; eapply Hold..|done].
    + apply Hsnoc in A as [A|[-> E1]]; simplify_eq; [by eapply H6|by exfalso; eapply Hold].
    + apply Hsnoc in B as [B|[-> E2]]; simplify_eq; [by eapply H6|by exfalso; eapply Hold].
    + by eapply H6.
Qed.

(** Leaving the innermost span of a hart: the assertion on the stack holds. *)
Lemma span_exit_ok s h gs n owned sp attr :
  tracing_ok s → guards_of h s = gs ++ [(n, owned)] → tg_spans s !! n = Some (sp, attr) →
  let s' t' := mkTracing t' (tg_spans s) (<[h := gs]> (tg_guards s)) (tg_next s) in
  ∃ t', guard_exit h sp (tg_tracer s) = Done () t' ∧ tracing_ok (s' t') ∧ ¬ entered (s' t') n.
Proof.
  intros [H1 H2 H3 Hf H4 H5 H6] Hgs Hn s'.
  set (t' := match sp with Some id => mkTracer (slab (tg_tracer s)) (<[h := omap (id_of s) gs]> (span_stacks (tg_tracer s))) ∅ | None => tg_tracer s end).
  assert (Hst : stack_of h (tg_tracer s) = omap (id_of s) gs ++ option_list sp).
  { rewrite H4, Hgs, omap_app. f_equal. by eapply omap_id_one. }
  exists t'. split; [|split].
  - destruct sp as [id|]; [|done]. by apply span_exit_run.
  - assert (Hslab : slab t' = slab (tg_tracer s)) by (by destruct sp).
    assert (Hg : ∀ h', guards_of h' (s' t') = if decide (h = h') then gs else guards_of h' s) by (intros; apply guards_insert).
    assert (Hlk : ∀ i x, gs !! i = Some x → guards_of h s !! i = Some x) by (intros; rewrite Hgs; by apply lookup_app_l_Some).
    split; simpl; rewrite ?Hslab; [done|done|done|by destruct sp| | |].
    + intros h'. rewrite Hg. rewrite (omap_id_ext _ s (s' t')) by done.
      assert (Hs : stack_of h' t' = if decide (h = h') then omap (id_of s) gs else stack_of h' (tg_tracer s)).
      { unfold t'. destruct sp as [id|]; [rewrite stack_insert; case_decide; [done|by destruct (tg_tracer s)]|].
        case_decide; [subst|done]. by rewrite Hst, app_nil_r. }
      rewrite Hs. case_decide; [done|apply H4].
    + intros h' m o. rewrite Hg. case_decide; [|apply H5]. intros Hm. apply (H5 h m o). rewrite Hgs. apply elem_of_app. by left.
    + intros h1 h2 i1 i2 m o o'. rewrite !Hg. repeat case_decide; subst; intros A B;
        repeat match goal with H : gs !! _ = Some _ |- _ => apply Hlk in H end; by eapply H6.
  - intros (h' & o & Hin). apply list_elem_of_lookup in Hin as [i Hi]. unfold s' in Hi. rewrite guards_insert in Hi.
    assert (Hlast : guards_of h s !! length gs = Some (n, owned)) by (rewrite Hgs; by apply list_lookup_middle).
    case_decide as Hd.
    + subst h'. assert (i = length gs) as ->; [|by rewrite lookup_ge_None_2 in Hi].
      eapply (H6 h h i (length gs) n o owned); [rewrite Hgs; by apply lookup_app_l_Some|done].
    + by destruct (H6 h' h i (length gs) n o owned Hi Hlast).
Qed.

Lemma guard_drop_ok s h gs n owned sp attr :
  tracing_ok s → guards_of h s = gs ++ [(n, owned)] → tg_spans s !! n = Some (sp, attr) →
  ∃ t', (_ ← guard_exit h sp; if (owned : bool) then Span_drop sp else mret ()) (tg_tracer s) = Done () t' ∧
    tracing_ok (mkTracing t' (if owned then delete n (tg_spans s) else tg_spans s) (<[h := gs]> (tg_guards s)) (tg_next s)).
Proof.
  intros Hok Hgs Hn. destruct (span_exit_ok s h gs n owned sp attr Hok Hgs Hn) as (t1 & He & Hok1 & Hne).
  rewrite (kbind_run _ _ _ _ _ He). destruct owned; [|by exists t1].
  destruct (Span_drop_ok _ n sp attr Hok1 Hn Hne) as (t2 & Hd & Hok2). by exists t2.
Qed.
Lemma trace_step_ok slog s s' : trace_step slog s s' → tracing_ok s → tracing_ok s'.
Proof.
  intros Hs Hok. destruct Hs as [s attr sp t' Hb Hn|s h n owned sp attr t' Hn He Hr|s h gs n owned sp attr t' Hg Hn Hr|s n sp attr t' Hn He Hr].
  - by eapply Span_new_ok.
  - destruct (span_enter_ok s h n owned sp attr Hok Hn He) as (t1 & Hr1 & Hok1). congruence.
  - destruct (guard_drop_ok s h gs n owned sp attr Hok Hg Hn) as (t1 & Hr1 & Hok1). congruence.
  - destruct (Span_drop_ok s n sp attr Hok Hn He) as (t1 & Hr1 & Hok1). congruence.
Qed.
Lemma tracing_reachable slog s : rtc (trace_step slog) tracing_init s → tracing_ok s.
Proof.
  intros Hr. pose proof tracing_ok_init as Hi. revert Hi. induction Hr as [|x y z Hs _ IH]; [done|].
  intros Hx. apply IH. by eapply trace_step_ok.
Qed.

(** What a line is to say: the level, the spans entered on the hart and enabled,
    the outermost first, the message *)
Definition attr_of (s : tracing) (g : Z * bool) : option SpanAttr :=
  match tg_spans s !! g.1 with Some (Some _, a) => Some a | _ => None end.
Definition span_text (a : SpanAttr) : list Z :=
  text "-" ++ render_bold (sa_level a) ++ sa_name a ++ render_reset ++
  match sa_kvs a with Some kvs => text "{" ++ kvs ++ text "}" | None => [] end.
Definition log_line (level : Level) (spans : list SpanAttr) (args : list Z) : list Z :=
  render_fg level ++ text "[" ++ pad5 (Level_as_str level) ++ text "]" ++ render_reset ++ concat (span_text <$> spans) ++
  (if spans then text " " else text ": ") ++ args ++ [10].

Lemma write_spans_run s gs t :
  tracing_ok s → (∀ n o, (n, o) ∈ gs → is_Some (tg_spans s !! n)) →
  write_spans (slab (tg_tracer s)) (omap (id_of s) gs) t = Done (concat (span_text <$> omap (attr_of s) gs)) t ∧
  length (omap (id_of s) gs) = length (omap (attr_of s) gs).
Proof.
  intros Hok. induction gs as [|[n o] gs IH]; intros Hg; [done|].
  destruct IH as [IH1 IH2]; [intros m b Hm; apply (Hg m b); by right|].
  destruct (Hg n o) as [[sp attr] Hn]; [left|].
  assert (Hid : id_of s (n, o) = sp) by (unfold id_of; cbn [fst]; by rewrite Hn).
  assert (Hat : attr_of s (n, o) = match sp with Some _ => Some attr | None => None end) by (unfold attr_of; cbn [fst]; by rewrite Hn).
  simpl. rewrite Hid, Hat. destruct sp as [id|]; [|done]. split; [|simpl; f_equal; exact IH2].
  cbn [write_spans fmap list_fmap concat]. rewrite (to_live s Hok n id attr Hn). unfold mbind at 1, kst_bind at 1. simpl.
  rewrite (kbind_run _ _ _ _ _ IH1). unfold span_text. unfold mret, kst_ret. by rewrite <- !app_assoc.
Qed.

(** The handler of an interrupt that comes while the stack of its hart is borrowed,
    which [enter] and [exit] do with interrupts on, panics when it enters a span. *)
Lemma reentrant_enter_panics h id t t' : borrow_mut h t = Done () t' → enter h id t' = Crash.
Proof.
  intros Hb. apply kbind_Done in Hb as (t0 & t1 & [= <- <-] & Hb). apply kbind_Done in Hb as ([] & t2 & Ha & [= <-]).
  unfold enter, borrow_mut, mbind, kst_bind, kget, kassert. simpl. by rewrite bool_decide_eq_false_2 by set_solver.
Qed.

(** C26: the uses of spans fit together, and a log line names the spans it was
    written in. Whatever spans are made, entered, left and dropped, in futures, in
    guards and in interrupt handlers that nest, on any number of harts, where each
    access to the stack of a hart is over before the next one of the hart begins:
    writing a line never finds a span gone and says the level, the enabled spans
    entered on its hart with their own names and values, the outermost first, and
    the message; a span can be entered; leaving the innermost span of a hart passes
    the check of the stack; no span is removed twice; and no stack stays borrowed.
    The proviso is needed: an interrupt inside such an access panics
    ([reentrant_enter_panics]). *)
Theorem spans_safe slog s :
  rtc (trace_step slog) tracing_init s →
  (∀ h level args,
     write_log h level args (tg_tracer s) = Done (log_line level (omap (attr_of s) (guards_of h s)) args) (tg_tracer s)) ∧
  (∀ h gs n owned, guards_of h s = gs ++ [(n, owned)] → ∃ sp attr t', tg_spans s !! n = Some (sp, attr) ∧
     (_ ← guard_exit h sp; if (owned : bool) then Span_drop sp else mret ()) (tg_tracer s) = Done () t') ∧
  (∀ n sp attr, tg_spans s !! n = Some (sp, attr) → ¬ entered s n →
     (∀ h, ∃ t', Span_enter h sp (tg_tracer s) = Done () t') ∧ ∃ t', Span_drop sp (tg_tracer s) = Done () t') ∧
  borrowed (tg_tracer s) = ∅.
Proof.
  intros Hr%tracing_reachable. split_and!.
  - intros h level args. unfold write_log. unfold mbind at 1, kst_bind at 1. cbn [kget]. rewrite (to_stack s Hr).
    assert (borrow h (tg_tracer s) = Done () (tg_tracer s)) as Hb.
    { unfold borrow, mbind, kst_bind, kget, kassert. by rewrite (to_free s Hr), bool_decide_eq_true_2 by set_solver. }
    rewrite (kbind_run _ _ _ _ _ Hb).
    destruct (write_spans_run s (guards_of h s) (tg_tracer s) Hr (λ n o, to_guards s Hr h n o)) as [Hw Hl].
    rewrite (kbind_run _ _ _ _ _ Hw). unfold mret, kst_ret, log_line.
    by destruct (omap (id_of s) (guards_of h s)), (omap (attr_of s) (guards_of h s)).
  - intros h gs n owned Hg. destruct (to_guards s Hr h n owned) as [[sp attr] Hn]; [rewrite Hg; apply elem_of_app; right; left|].
    destruct (guard_drop_ok s h gs n owned sp attr Hr Hg Hn) as (t' & He & _). by exists sp, attr, t'.
  - intros n sp attr Hn He. split.
    + intros h. destruct (span_enter_ok s h n false sp attr Hr Hn He) as (t' & Hd & _). by exists t'.
    + destruct (Span_drop_ok s n sp attr Hr Hn He) as (t' & Hd & _). by exists t'.
  - apply (to_free s Hr).
Qed.
End tracer.

(** ** The harts

    [HARTS] and the register [tp] of each hart, which holds the address of its
    [Hart]: its index here. The thread is a pid and a tid; the span stacks are those
    of the tracer. *)
Record Hart : Type := mkHartLocal { hart_id : Z; hart_thread : option (Z * Z); panicked : bool }.
Definition Hart_new : Hart := mkHartLocal 0 None false.
Record Harts : Type := mkHarts { HARTS : list Hart; tp : gmap Z nat }.
Definition harts_init : Harts := mkHarts (replicate (Z.to_nat MAX_HART_NUM) Hart_new) ∅.

(** On the hart [c] *)
Definition local_hart (c : Z) : kst Harts Hart :=
  s ← kget; i ← kunwrap (tp s !! c); kunwrap (HARTS s !! i).
Definition put_hart_local (c : Z) (h : Hart) : kst Harts () :=
  s ← kget; i ← kunwrap (tp s !! c); kput (mkHarts (<[i := h]> (HARTS s)) (tp s)).
Definition set_local_hart (c id : Z) : kst Harts () :=
  s ← kget;
  h ← kunwrap (HARTS s !! Z.to_nat id);
  kput (mkHarts (<[Z.to_nat id := mkHartLocal id (hart_thread h) (panicked h)]> (HARTS s)) (<[c := Z.to_nat id]> (tp s))).
Definition replace_thread (c : Z) (new_thread : option (Z * Z)) : kst Harts (option (Z * Z)) :=
  h ← local_hart c;
  _ ← put_hart_local c (mkHartLocal (hart_id h) new_thread (panicked h));
  mret (hart_thread h).
Definition curr_thread (c : Z) : kst Harts (Z * Z) := h ← local_hart c; kunwrap (hart_thread h).

(** Harts with indices of their own do not see each other: a hart that was set up
    finds its number, and in its place whatever thread it put there last. *)
Lemma local_harts s c d th x s1 hd :
  replace_thread c th s = Done x s1 → tp s !! c ≠ tp s !! d → local_hart d s = Done hd s →
  local_hart d s1 = Done hd s1 ∧ (∀ t, th = Some t → curr_thread c s1 = Done t s1) ∧
  ∃ hc, local_hart c s = Done hc s ∧ hart_thread hc = x ∧
        local_hart c s1 = Done (mkHartLocal (hart_id hc) th (panicked hc)) s1.
Proof.
  unfold replace_thread, curr_thread, local_hart, put_hart_local, mbind, kst_bind, kget, kunwrap, kput, mret, kst_ret.
  destruct (tp s !! c) as [i|] eqn:Hc; [|done]. destruct (HARTS s !! i) as [hc|] eqn:Hi; [|done]. rewrite Hc.
  intros [= <- <-] Hne. destruct (tp s !! d) as [j|] eqn:Hd; [|done]. destruct (HARTS s !! j) as [h'|] eqn:Hj; [|done].
  intros [= <-]. cbn [tp HARTS]. rewrite Hc, Hd. assert (i ≠ j) by congruence.
  rewrite list_lookup_insert_ne, Hj by done. rewrite list_lookup_insert_eq by (by eapply lookup_lt_Some).
  split; [done|]. split; [by intros t ->|]. by exists hc.
Qed.
Lemma set_local_hart_spec s c id :
  0 ≤ id < Z.of_nat (length (HARTS s)) →
  ∃ s', set_local_hart c id s = Done () s' ∧ ∃ h, local_hart c s' = Done h s' ∧ hart_id h = id.
Proof.
  intros Hid. destruct (lookup_lt_is_Some_2 (HARTS s) (Z.to_nat id)) as [h Hh]; [lia|].
  unfold set_local_hart, local_hart, mbind, kst_bind, kget, kunwrap, kput, mret, kst_ret. rewrite Hh.
  eexists. split; [reflexivity|]. cbn [tp HARTS]. rewrite lookup_insert_eq, list_lookup_insert_eq by lia. by eexists.
Qed.

(** ** One span on hart 0 *)
Module TracerDemo.
#[local] Obligation Tactic := idtac.
#[local] Program Instance MapSlab : Slab SpanAttr := {|
  SL := gmap nat SpanAttr; sl_new := ∅;
  sl_get m k := if 0 <=? k then m !! Z.to_nat k else None;
  sl_insert x m := let k := fresh (dom m) in (Z.of_nat k, <[k := x]> m);
  sl_remove k m := if 0 <=? k then match m !! Z.to_nat k with Some _ => Some (delete (Z.to_nat k) m) | None => None end else None;
|}.
Next Obligation. intros k. cbv beta. destruct (0 <=? k); [apply lookup_empty|done]. Qed.
Next Obligation.
  intros x m. simpl. split; [lia|]. rewrite (proj2 (Z.leb_le 0 _)) by lia. rewrite Nat2Z.id.
  apply not_elem_of_dom, is_fresh.
Qed.
Next Obligation.
  intros x m k. simpl. destruct (Z.leb_spec 0 k).
  - rewrite lookup_insert. repeat case_decide; try done; lia.
  - rewrite decide_False; [done|lia].
Qed.
Next Obligation. intros k m. simpl. destruct (0 <=? k); [|done]. by intros ->. Qed.
Next Obligation.
  intros k m x. simpl. destruct (Z.leb_spec 0 k); [|done]. intros ->. eexists. split; [done|]. intros k'.
  destruct (Z.leb_spec 0 k').
  - rewrite lookup_delete. repeat case_decide; try done; lia.
  - case_decide; [lia|done].
Qed.
#[local] Instance NoColour : AnsiStyle := {| render_fg _ := []; render_bold _ := []; render_reset := [] |}.

Definition call : SpanAttr := mkAttr (text "sys_brk") LInfo (kvs_text [(text "pid", text "1")]).
Definition after_new : tracing :=
  mkTracing (mkTracer (sl_insert call sl_new).2 ∅ ∅) {[0 := (Some 1, call)]} ∅ 1.
Definition inside : tracing :=
  mkTracing (mkTracer (sl_insert call sl_new).2 {[0 := [1]]} ∅) {[0 := (Some 1, call)]} {[0 := [(0, true)]]} 1.
Lemma demo_inside : rtc (trace_step FInfo) tracing_init inside.
Proof.
  eapply rtc_l; [|apply rtc_once].
  - apply (ts_new FInfo tracing_init call (Some 1) (mkTracer (sl_insert call sl_new).2 ∅ ∅)); [by vm_compute|reflexivity].
  - apply (ts_enter FInfo after_new 0 0 true (Some 1) call (mkTracer (sl_insert call sl_new).2 {[0 := [1]]} ∅)); [reflexivity| |reflexivity].
    intros (h & o & Hin). unfold guards_of, after_new in Hin. simpl in Hin. rewrite lookup_empty in Hin. by apply elem_of_nil in Hin.
Qed.
Lemma spans_safe_witness :
  write_log 0 LWarn (text "hi") (tg_tracer inside) = Done (text "[ WARN]-sys_brk{pid=1}: hi" ++ [10]) (tg_tracer inside) ∧
  ∃ t', (_ ← guard_exit 0 (Some 1); Span_drop (Some 1)) (tg_tracer inside) = Done () t'.
Proof.
  destruct (spans_safe FInfo inside demo_inside) as (H1 & H2 & _). split; [exact (H1 0 LWarn (text "hi"))|].
  destruct (H2 0 [] 0 true eq_refl) as (sp & attr & t' & Hn & Hr). injection Hn as <- <-. exists t'. exact Hr.
Defined.
(** Guards dropped in the order of their creation fail the check of the stack. *)
Lemma crossed_guards :
  (_ ← Span_enter 0 (Some 1); _ ← Span_enter 0 (Some 2); guard_exit 0 (Some 1)) (mkTracer sl_new ∅ ∅) = Crash.
Proof. by vm_compute. Qed.
End TracerDemo.
