(* ===== verification/IdAllocator.v ===== *)
(** * The recycling id allocator ([crates/utils/idallocator])

    Hands out process and thread ids. [recycled] is a [Vec] used as a stack:
    [push] appends, [pop] takes the last element. *)
From S2P Require Import Prelude Address Defines.

Record RecycleAllocator : Type := mkAllocator {
  current : Z;
  recycled : list Z;
}.

Module Recycle.
Definition new : RecycleAllocator := mkAllocator 0 [].
Definition begin_with (start : Z) : RecycleAllocator := mkAllocator start [].

(** [alloc]: pop a recycled id, or take a fresh one ([current += 1]). *)
Definition alloc (self : RecycleAllocator) : KResult (Z * RecycleAllocator) :=
  match last (recycled self) with
  | Some id => Ok (id, mkAllocator (current self) (removelast (recycled self)))
  | None =>
      let? c := uadd 64 (current self) 1 in
      Ok (c - 1, mkAllocator c (recycled self))
  end.

(** [dealloc] with its two [debug_assert!]s. *)
Definition dealloc (self : RecycleAllocator) (id : Z) : KResult RecycleAllocator :=
  check (id <? current self) in
  check (negb (bool_decide (id ∈ recycled self))) in
  Ok (mkAllocator (current self) (recycled self ++ [id])).

Definition release (self : RecycleAllocator) : RecycleAllocator :=
  mkAllocator (current self) [].
End Recycle.

(** The ids handed out and not given back, for an allocator started at
    [start]. *)
Definition live (start : Z) (a : RecycleAllocator) : gset Z :=
  list_to_set (seqZ start (current a - start)) ∖ list_to_set (recycled a).

(** The recycled ids are distinct ids that were handed out. *)
Definition alloc_inv (start : Z) (a : RecycleAllocator) : Prop :=
  0 ≤ start ≤ current a ∧ NoDup (recycled a) ∧
  ∀ i, i ∈ recycled a → start ≤ i < current a.

(** One call by a client that only returns ids it holds. *)
Inductive alloc_step (start : Z) : RecycleAllocator → RecycleAllocator → Prop :=
| step_alloc a id a' : Recycle.alloc a = Ok (id, a') → alloc_step start a a'
| step_dealloc a id a' :
    id ∈ live start a → Recycle.dealloc a id = Ok a' → alloc_step start a a'.

Lemma elem_of_live start a i :
  i ∈ live start a ↔ start ≤ i < current a ∧ i ∉ recycled a.
Proof.
  unfold live. rewrite elem_of_difference, !elem_of_list_to_set, elem_of_seqZ.
  split; intros [? ?]; (split; [lia|done]).
Qed.

Lemma begin_with_inv start : 0 ≤ start → alloc_inv start (Recycle.begin_with start).
Proof.
  intros. split; [simpl; lia|]. split; [constructor|]. simpl. intros i Hi.
  by apply not_elem_of_nil in Hi.
Qed.

Lemma last_removelast {A} (l : list A) x :
  last l = Some x → l = removelast l ++ [x].
Proof.
  intros H. apply last_Some in H as [l' ->]. by rewrite removelast_last.
Qed.

(** Both ways out of [alloc]: the stack is popped, or [current] grows. *)
Lemma alloc_cases a id a' :
  Recycle.alloc a = Ok (id, a') →
  (recycled a = recycled a' ++ [id] ∧ current a' = current a) ∨
  (recycled a = [] ∧ recycled a' = [] ∧ id = current a ∧ current a' = current a + 1).
Proof.
  unfold Recycle.alloc. destruct (last (recycled a)) as [x|] eqn:Hl; intros H.
  - inv_ok. left. split; [|done]. by apply last_removelast.
  - inv_ok. match goal with Hc : uadd _ _ _ = Ok _ |- _ =>
      unfold uadd in Hc; apply checked_Ok in Hc as [<- Hc] end.
    apply last_None in Hl. right. rewrite Hl. split_and!; [done|done|lia|done].
Qed.

Lemma alloc_preserves start a id a' :
  alloc_inv start a → Recycle.alloc a = Ok (id, a') →
  alloc_inv start a' ∧ id ∉ live start a ∧ live start a' = {[id]} ∪ live start a.
Proof.
  intros (Hs & Hnd & Hr) Ha.
  destruct (alloc_cases a id a' Ha) as [[Hrec Hcur]|(Hr0 & Hr1 & Hid & Hcur)].
  - rewrite Hrec in Hnd, Hr. apply NoDup_app in Hnd as (Hnd & Hdis & _).
    assert (Hid : id ∉ recycled a') by (intros Hin; apply (Hdis id Hin); set_solver).
    split; [split; [lia|]; split; [done|]; intros i Hi; rewrite Hcur; apply Hr; set_solver|].
    split; [rewrite elem_of_live, Hrec; set_solver|].
    assert (start ≤ id < current a) by (apply Hr; set_solver).
    apply set_eq. intros i. rewrite elem_of_union, elem_of_singleton, !elem_of_live.
    rewrite Hrec, Hcur. destruct (decide (i = id)) as [->|]; set_solver.
  - split; [split; [lia|]; split; rewrite Hr1; [constructor|]; intros i Hi; set_solver|].
    split; [rewrite elem_of_live; lia|].
    apply set_eq. intros i. rewrite elem_of_union, elem_of_singleton, !elem_of_live.
    rewrite Hr0, Hr1. subst id. rewrite Hcur.
    destruct (decide (i = current a)) as [->|]; split; set_solver by lia.
Qed.

Lemma dealloc_live start a id :
  alloc_inv start a → id ∈ live start a →
  ∃ a', Recycle.dealloc a id = Ok a' ∧ alloc_inv start a' ∧
        live start a' = live start a ∖ {[id]}.
Proof.
  intros (Hs & Hnd & Hr) Hl. apply elem_of_live in Hl as [Hb Hni].
  unfold Recycle.dealloc. rewrite (proj2 (Z.ltb_lt _ _)) by lia. simpl.
  rewrite bool_decide_eq_false_2 by done. simpl. eexists. split; [done|].
  split.
  - split; [done|]. simpl. split.
    + apply NoDup_app. split_and!; [done|set_solver|apply NoDup_singleton].
    + intros i. rewrite elem_of_app, list_elem_of_singleton. naive_solver.
  - apply set_eq. intros i. rewrite elem_of_difference, elem_of_singleton, !elem_of_live.
    simpl. rewrite elem_of_app, list_elem_of_singleton. naive_solver.
Qed.

Lemma alloc_step_inv start a a' :
  alloc_inv start a → alloc_step start a a' → alloc_inv start a'.
Proof.
  intros Hinv Hstep. destruct Hstep as [b id b' Hb|b id b' Hl Hb]; [by destruct (alloc_preserves start b id b' Hinv Hb)|].
  destruct (dealloc_live start b id Hinv Hl) as (c & Hc & Hci & _). congruence.
Qed.

(** Along any sequence of calls in which clients only give back ids they
    hold, [alloc] never hands out an id that is still in use, and it adds
    exactly that id to the ids in use. *)
Theorem alloc_never_reuses_live start a id a' :
  0 ≤ start →
  rtc (alloc_step start) (Recycle.begin_with start) a →
  Recycle.alloc a = Ok (id, a') →
  start ≤ id ∧ id ∉ live start a ∧ live start a' = {[id]} ∪ live start a.
Proof.
  intros Hs Hrtc Ha.
  assert (Hinv : alloc_inv start a).
  { clear Ha. eapply rtc_ind_r with (P := λ x, alloc_inv start x); [| |exact Hrtc].
    - by apply begin_with_inv.
    - intros x y _ Hstep Hx. by eapply alloc_step_inv. }
  destruct (alloc_preserves start a id a' Hinv Ha) as (Hinv' & Hfresh & Hlive).
  split; [|done]. assert (id ∈ live start a') as Hin by (rewrite Hlive; set_solver).
  apply elem_of_live in Hin. lia.
Qed.

(** After allocating 1 and 2 and giving 1 back, 1 is handed out again. *)
Lemma alloc_never_reuses_live_witness :
  ∃ a a', rtc (alloc_step 1) (Recycle.begin_with 1) a ∧
          Recycle.alloc a = Ok (1, a') ∧ 1 ∉ live 1 a ∧
          live 1 a' = {[1]} ∪ live 1 a.
Proof.
  exists (mkAllocator 3 [1]), (mkAllocator 3 []).
  assert (rtc (alloc_step 1) (Recycle.begin_with 1) (mkAllocator 3 [1])) as Hr.
  { eapply rtc_l; [by apply (step_alloc 1 _ 1 (mkAllocator 2 []))|].
    eapply rtc_l; [by apply (step_alloc 1 _ 2 (mkAllocator 3 []))|].
    eapply rtc_l; [|apply rtc_refl].
    apply (step_dealloc 1 _ 1); [|done].
    apply elem_of_live. simpl. split; [lia|apply not_elem_of_nil]. }
  split; [exact Hr|]. split; [reflexivity|].
  apply (alloc_never_reuses_live 1 _ 1 (mkAllocator 3 [])); [lia|exact Hr|reflexivity].
Defined.

(** Giving back an id that is in use never trips the allocator's
    assertions, and removes exactly that id from the ids in use; giving back an
    id that is not in use (a double free, or an id never handed out) panics. *)
Theorem dealloc_spec start a id :
  alloc_inv start a → start ≤ id →
  (id ∈ live start a →
     ∃ a', Recycle.dealloc a id = Ok a' ∧ alloc_inv start a' ∧
           live start a' = live start a ∖ {[id]}) ∧
  (id ∉ live start a → Recycle.dealloc a id = Panic).
Proof.
  intros Hinv Hid. split; [by apply dealloc_live|].
  rewrite elem_of_live. intros Hn. unfold Recycle.dealloc.
  destruct (Z.ltb_spec id (current a)); simpl; [|done].
  destruct (decide (id ∈ recycled a)); [|exfalso; apply Hn; split; [lia|done]].
  by rewrite bool_decide_eq_true_2.
Qed.

(** A second [dealloc] of the same id panics. *)
Lemma dealloc_spec_witness :
  alloc_inv 1 (mkAllocator 3 [1]) ∧ Recycle.dealloc (mkAllocator 3 [1]) 1 = Panic.
Proof.
  assert (alloc_inv 1 (mkAllocator 3 [1])) as H.
  { split; [simpl; lia|]. split; [apply NoDup_singleton|].
    intros i ->%list_elem_of_singleton. simpl. lia. }
  split; [exact H|]. apply (dealloc_spec 1 (mkAllocator 3 [1]) 1 H); [lia|].
  rewrite elem_of_live. simpl. set_solver.
Defined.
