(* ===== verification/FrameAllocator.v ===== *)
(** * Physical frames ([libkernel::memory::frame_allocator])

    The frame allocator is a thin layer over the third-party crate
    [buddy_system_allocator]: the crate is the class [Buddy], whose laws state
    its documented behaviour. [Mem] is the machine state the memory code works
    on: the allocator and the contents of the frames. The kernel reaches a
    frame through its linear mapping, so a content is indexed by the frame's
    physical page number; a frame holding a page table is accessed as 512
    64-bit entries ([pte_mem]), a data frame as 4096 bytes ([byte_mem]), absent
    cells being zero. No function of the development reads a frame through one
    view after writing it through the other. *)
From S2P Require Import Prelude Address Defines.

(** The next power of two, the granularity of the buddy system. *)
Definition next_power_of_two (n : Z) : Z := 2 ^ Z.log2_up n.

Definition block (first n : Z) : gset Z :=
  list_to_set (seqZ first (next_power_of_two n)).

(** ** The buddy allocator crate *)
Class Buddy := {
  buddy : Type;
  buddy_new : buddy;
  buddy_add_frame : buddy → Z → Z → buddy;
  buddy_alloc : buddy → Z → option (Z * buddy);
  buddy_dealloc : buddy → Z → Z → buddy;
  (** the frame indexes the allocator may still hand out *)
  buddy_free : buddy → gset Z;
  buddy_new_free : buddy_free buddy_new = ∅;
  buddy_add_frame_free b s e :
    buddy_free (buddy_add_frame b s e)
      = buddy_free b ∪ list_to_set (seqZ s (e - s));
  buddy_alloc_free b n first b' :
    1 ≤ n → buddy_alloc b n = Some (first, b') →
    block first n ⊆ buddy_free b ∧ buddy_free b' = buddy_free b ∖ block first n;
  (** a single frame is found as long as one is free *)
  buddy_alloc_one b : buddy_alloc b 1 = None → buddy_free b = ∅;
  buddy_dealloc_free b first n :
    1 ≤ n → buddy_free (buddy_dealloc b first n) = buddy_free b ∪ block first n;
}.

(** The end of the kernel image, a symbol of the linker script: the image lies
    in the linear mapping and ends within physical memory. *)
Class KernelImage := {
  ekernel : Z;
  ekernel_range : PA_TO_VA ≤ ekernel ≤ PA_TO_VA + MEMORY_END;
}.

Record Mem `{Buddy} : Type := mkMem {
  allocator : buddy;
  pte_mem : gmap (Z * Z) Z;
  byte_mem : gmap (Z * Z) Z;
}.

Section frames.
Context `{Buddy, KernelImage}.

Definition set_allocator (m : Mem) (b : buddy) : Mem :=
  mkMem _ b (pte_mem m) (byte_mem m).

(** ** [BuddySystemFrameAllocator] *)
Definition physical_memory_begin_frame : KResult Z :=
  let? pa := kernel_va_to_pa ekernel in Ok (PhysAddr.ceil pa).

Definition falloc_alloc (m : Mem) (num : Z) : KResult (option Z * Mem) :=
  let? begin_frame := physical_memory_begin_frame in
  match buddy_alloc (allocator m) num with
  | Some (first, b) =>
      let? ppn := uadd 64 first begin_frame in
      Ok (Some ppn, set_allocator m b)
  | None => Ok (None, m)
  end.

Definition falloc_dealloc (m : Mem) (s e : Z) : KResult Mem :=
  let? begin_frame := physical_memory_begin_frame in
  let? first := usub 64 s begin_frame in
  let? len := usub 64 e s in
  Ok (set_allocator m (buddy_dealloc (allocator m) first len)).

Definition init_frame_allocator (m : Mem) : KResult Mem :=
  let? begin_frame := physical_memory_begin_frame in
  let? last := usub 64 (PhysAddr.floor MEMORY_END) begin_frame in
  Ok (set_allocator m (buddy_add_frame (allocator m) 0 last)).

Definition frame_dealloc (m : Mem) (s e : Z) : KResult Mem := falloc_dealloc m s e.

(** ** Frame contents *)
Definition pte_at (m : Mem) (ppn idx : Z) : Z := default 0 (pte_mem m !! (ppn, idx)).
Definition byte_at (m : Mem) (ppn off : Z) : Z := default 0 (byte_mem m !! (ppn, off)).

Definition write_pte (m : Mem) (ppn idx bits : Z) : Mem :=
  mkMem _ (allocator m) (<[(ppn, idx) := bits]> (pte_mem m)) (byte_mem m).
Definition write_byte (m : Mem) (ppn off b : Z) : Mem :=
  mkMem _ (allocator m) (pte_mem m) (<[(ppn, off) := b]> (byte_mem m)).

(** [copy_from_slice] into a frame from offset [off] on. *)
Fixpoint write_bytes (m : Mem) (ppn off : Z) (bs : list Z) : Mem :=
  match bs with
  | [] => m
  | b :: bs => write_bytes (write_byte m ppn off b) ppn (off + 1) bs
  end.

(** [as_page_bytes_mut().fill(0)]. *)
Definition fill_zero (m : Mem) (ppn : Z) : Mem :=
  mkMem _ (allocator m)
    (filter (λ e, e.1.1 ≠ ppn) (pte_mem m)) (filter (λ e, e.1.1 ≠ ppn) (byte_mem m)).

(** ** [Frame]

    A [Frame] is its page number; dropping it returns it to the allocator. *)
Definition Frame_alloc (m : Mem) : KResult (option Z * Mem) :=
  let? (o, m) := falloc_alloc m 1 in
  match o with
  | Some ppn => Ok (Some ppn, fill_zero m ppn)
  | None => Ok (None, m)
  end.

Definition Frame_drop (m : Mem) (ppn : Z) : KResult Mem :=
  let? e := PhysPageNum.add ppn 1 in frame_dealloc m ppn e.

(** Dropping a collection of frames, in order. *)
Fixpoint Frames_drop (m : Mem) (l : list Z) : KResult Mem :=
  match l with
  | [] => Ok m
  | ppn :: l => let? m := Frame_drop m ppn in Frames_drop m l
  end.

(** [Frame::copy_from]: the whole page is copied. *)
Definition Frame_copy_from (m : Mem) (dst src : Z) : Mem :=
  write_bytes m dst 0 (byte_at m src <$> seqZ 0 PAGE_SIZE).

(** ** [ContinuousFrames] *)
Record ContinuousFrames : Type := mkContinuousFrames { cf_ppn : Z; cf_num : Z }.

Definition fill_zero_range (m : Mem) (ppn num : Z) : Mem :=
  foldl fill_zero m (seqZ ppn num).

Definition ContinuousFrames_alloc (m : Mem) (num : Z) :
    KResult (option ContinuousFrames * Mem) :=
  check (1 <=? num) in
  let? (o, m) := falloc_alloc m num in
  match o with
  | Some ppn => Ok (Some (mkContinuousFrames ppn num), fill_zero_range m ppn num)
  | None => Ok (None, m)
  end.

Definition ContinuousFrames_drop (m : Mem) (f : ContinuousFrames) : KResult Mem :=
  let? e := PhysPageNum.add (cf_ppn f) (cf_num f) in
  frame_dealloc m (cf_ppn f) e.

(** ** What the allocator owns *)

(** The first page number after the kernel image. *)
Definition begin_ppn : Z := PhysAddr.ceil (ekernel - PA_TO_VA).
Definition end_ppn : Z := MEMORY_END / PAGE_SIZE.

(** The frame [ppn] may still be handed out. *)
Definition is_free (m : Mem) (ppn : Z) : Prop :=
  ppn - begin_ppn ∈ buddy_free (allocator m).

(** Every free frame is a frame of physical memory beyond the kernel image. *)
Definition mem_inv (m : Mem) : Prop :=
  ∀ ppn, is_free m ppn → begin_ppn ≤ ppn < end_ppn.

(** ** Lemmas *)
Lemma begin_frame_Ok : physical_memory_begin_frame = Ok begin_ppn.
Proof.
  unfold physical_memory_begin_frame, kernel_va_to_pa, usub.
  pose proof ekernel_range. rewrite checked_fits; [done|].
  unfold_config. lia.
Qed.

Lemma begin_ppn_bound : 0 ≤ begin_ppn ≤ end_ppn.
Proof.
  pose proof ekernel_range as Hr. unfold begin_ppn, end_ppn, PhysAddr.ceil.
  pose proof (div_ceil_spec (ekernel - PA_TO_VA) PAGE_SIZE ltac:(done)).
  rewrite (div_ceil_le_iff _ PAGE_SIZE) by done.
  unfold_config. change (0x88000000 / 4096 * 4096) with 0x88000000. lia.
Qed.

Lemma end_ppn_eq : end_ppn = 0x88000.
Proof. done. Qed.

Lemma block_1 f i : i ∈ block f 1 ↔ i = f.
Proof.
  unfold block, next_power_of_two. change (2 ^ Z.log2_up 1) with 1.
  rewrite elem_of_list_to_set, elem_of_seqZ. lia.
Qed.

Lemma next_power_of_two_ge n : 1 ≤ n → n ≤ next_power_of_two n.
Proof.
  intros. unfold next_power_of_two. destruct (decide (n = 1)) as [->|]; [done|].
  apply Z.log2_up_spec. lia.
Qed.

Lemma elem_of_block f n i :
  i ∈ block f n ↔ f ≤ i < f + next_power_of_two n.
Proof. unfold block. by rewrite elem_of_list_to_set, elem_of_seqZ. Qed.

Lemma falloc_alloc_spec m num o m' :
  1 ≤ num → falloc_alloc m num = Ok (o, m') →
  match o with
  | None => m' = m
  | Some ppn =>
      (∀ p, ppn ≤ p < ppn + next_power_of_two num → is_free m p) ∧
      (∀ p, is_free m' p ↔ is_free m p ∧ ¬ ppn ≤ p < ppn + next_power_of_two num) ∧
      pte_mem m' = pte_mem m ∧ byte_mem m' = byte_mem m
  end.
Proof.
  intros Hn Ha. unfold falloc_alloc in Ha. rewrite begin_frame_Ok in Ha. simpl in Ha.
  destruct (buddy_alloc (allocator m) num) as [[first b]|] eqn:Hb; inv_ok; [|done].
  match goal with Hc : uadd _ _ _ = Ok ?x |- _ => rename x into ppn;
    unfold uadd in Hc; apply checked_Ok in Hc as [Hppn _] end.
  destruct (buddy_alloc_free _ _ _ _ Hn Hb) as [Hsub Hfree].
  split_and!; [| |done|done]; intros p; unfold is_free; simpl.
  - intros Hp. apply Hsub, elem_of_block. lia.
  - rewrite Hfree, elem_of_difference, elem_of_block.
    split; (intros [? Hx]; split; [done|]; intros ?; apply Hx; lia).
Qed.

Lemma pte_at_fill_zero m ppn p i :
  pte_at (fill_zero m ppn) p i = if decide (p = ppn) then 0 else pte_at m p i.
Proof.
  unfold pte_at, fill_zero. simpl. rewrite map_lookup_filter.
  destruct (pte_mem m !! (p, i)) as [v|] eqn:E; simpl; [|by case_decide].
  case_guard; case_decide; naive_solver.
Qed.

Lemma byte_at_fill_zero m ppn p i :
  byte_at (fill_zero m ppn) p i = if decide (p = ppn) then 0 else byte_at m p i.
Proof.
  unfold byte_at, fill_zero. simpl. rewrite map_lookup_filter.
  destruct (byte_mem m !! (p, i)) as [v|] eqn:E; simpl; [|by case_decide].
  case_guard; case_decide; naive_solver.
Qed.

Lemma pte_at_write m ppn idx bits p i :
  pte_at (write_pte m ppn idx bits) p i =
    if decide (p = ppn ∧ i = idx) then bits else pte_at m p i.
Proof.
  unfold pte_at, write_pte. simpl. rewrite lookup_insert.
  case_decide; case_decide; naive_solver.
Qed.

Lemma byte_at_write_pte m ppn idx bits p i :
  byte_at (write_pte m ppn idx bits) p i = byte_at m p i.
Proof. done. Qed.

Lemma byte_at_write m ppn off b p i :
  byte_at (write_byte m ppn off b) p i =
    if decide (p = ppn ∧ i = off) then b else byte_at m p i.
Proof.
  unfold byte_at, write_byte. simpl. rewrite lookup_insert.
  case_decide; case_decide; naive_solver.
Qed.

Lemma write_bytes_frame m ppn off bs :
  allocator (write_bytes m ppn off bs) = allocator m ∧
  pte_mem (write_bytes m ppn off bs) = pte_mem m.
Proof.
  revert m off. induction bs as [|b bs IH]; intros m off; simpl; [done|].
  destruct (IH (write_byte m ppn off b) (off + 1)) as [-> ->]. done.
Qed.

Lemma byte_at_write_bytes m ppn off bs p i :
  byte_at (write_bytes m ppn off bs) p i =
    if decide (p = ppn ∧ off ≤ i < off + Z.of_nat (length bs))
    then default 0 (bs !! Z.to_nat (i - off)) else byte_at m p i.
Proof.
  revert m off. induction bs as [|b bs IH]; intros m off; simpl.
  { rewrite decide_False by lia. done. }
  rewrite IH, byte_at_write.
  destruct (decide (p = ppn)) as [->|]; cycle 1.
  { rewrite !decide_False by naive_solver. done. }
  destruct (decide (i = off)) as [->|].
  - rewrite decide_False by lia. rewrite decide_True by done.
    rewrite decide_True by lia. by rewrite Z.sub_diag.
  - destruct (decide (off + 1 ≤ i < off + 1 + Z.of_nat (length bs))).
    + rewrite !decide_True by lia.
      replace (Z.to_nat (i - off)) with (S (Z.to_nat (i - (off + 1)))) by lia. done.
    + rewrite (decide_False (P := ppn = ppn ∧ off + 1 ≤ i < _)) by lia.
      rewrite !decide_False by lia. done.
Qed.

(** [Frame::alloc] hands out a frame that was free, marks it used, and clears
    it; every other frame keeps its status and its content. *)
Lemma Frame_alloc_spec m o m' :
  Frame_alloc m = Ok (o, m') →
  match o with
  | None => m' = m
  | Some ppn =>
      is_free m ppn ∧ (∀ p, is_free m' p ↔ is_free m p ∧ p ≠ ppn) ∧
      (∀ p i, pte_at m' p i = if decide (p = ppn) then 0 else pte_at m p i) ∧
      (∀ p i, byte_at m' p i = if decide (p = ppn) then 0 else byte_at m p i)
  end.
Proof.
  unfold Frame_alloc. intros Ha. apply bind_Ok in Ha as ([o1 m1] & Hf & Ha).
  pose proof (falloc_alloc_spec m 1 o1 m1 ltac:(lia) Hf) as Hs.
  destruct o1 as [ppn|]; inv_ok; [|done].
  destruct Hs as (Hfr & Hiff & Hp & Hb). change (next_power_of_two 1) with 1 in *.
  split_and!; [apply Hfr; lia| | |].
  - intros p. change (is_free (fill_zero m1 ppn) p) with (is_free m1 p).
    rewrite Hiff. split; intros [? Hx]; split; [done|lia|done|lia].
  - intros p i. rewrite pte_at_fill_zero. unfold pte_at. by rewrite Hp.
  - intros p i. rewrite byte_at_fill_zero. unfold byte_at. by rewrite Hb.
Qed.

(** The number of frames that may still be handed out. *)
Definition free_count (m : Mem) : nat := size (buddy_free (allocator m)).

(** [Frame::alloc] succeeds as long as a frame is free, and takes just one. *)
Lemma Frame_alloc_total m :
  mem_inv m → (0 < free_count m)%nat →
  ∃ ppn m', Frame_alloc m = Ok (Some ppn, m') ∧ free_count m = S (free_count m').
Proof.
  intros Hm Hc. unfold Frame_alloc, falloc_alloc. rewrite begin_frame_Ok. simpl.
  destruct (buddy_alloc (allocator m) 1) as [[first b]|] eqn:Hb; cycle 1.
  { apply buddy_alloc_one in Hb. unfold free_count in Hc. rewrite Hb in Hc.
    rewrite size_empty in Hc. lia. }
  destruct (buddy_alloc_free _ _ _ _ ltac:(done) Hb) as [Hsub Hfree].
  assert (Hin : first ∈ buddy_free (allocator m)) by (apply Hsub; by apply block_1).
  assert (Hr : begin_ppn ≤ first + begin_ppn < end_ppn).
  { apply Hm. unfold is_free. by replace (_ + _ - _) with first by lia. }
  pose proof begin_ppn_bound. unfold uadd.
  rewrite checked_fits by (rewrite end_ppn_eq in *; lia). simpl.
  eexists _, _. split; [done|]. unfold free_count. simpl. rewrite Hfree.
  assert (block first 1 = {[ first ]}) as ->.
  { apply set_eq. intros i. rewrite block_1. set_solver. }
  rewrite size_difference by set_solver. rewrite size_singleton.
  unfold free_count in Hc. lia.
Qed.

Lemma is_free_write_pte m ppn idx bits p :
  is_free (write_pte m ppn idx bits) p ↔ is_free m p.
Proof. done. Qed.

(** Dropping a frame makes it free again and changes nothing else. *)
Lemma Frame_drop_spec m ppn :
  begin_ppn ≤ ppn < end_ppn →
  ∃ m', Frame_drop m ppn = Ok m' ∧
        (∀ p, is_free m' p ↔ p = ppn ∨ is_free m p) ∧
        pte_mem m' = pte_mem m ∧ byte_mem m' = byte_mem m.
Proof.
  intros Hp. pose proof begin_ppn_bound. rewrite end_ppn_eq in *.
  unfold Frame_drop, PhysPageNum.add, frame_dealloc, falloc_dealloc, uadd, usub.
  rewrite checked_fits by lia. simpl. rewrite begin_frame_Ok. simpl.
  rewrite checked_fits by lia. simpl. rewrite checked_fits by lia. simpl.
  eexists. split; [done|]. split; [|done]. intros p. unfold is_free. simpl.
  replace (ppn + 1 - ppn) with 1 by lia.
  rewrite buddy_dealloc_free by lia. rewrite elem_of_union, block_1.
  split; intros [?|?]; [right; done|left; lia|right; lia|left; done].
Qed.

Lemma Frames_drop_spec l m :
  (∀ p, p ∈ l → begin_ppn ≤ p < end_ppn) →
  ∃ m', Frames_drop m l = Ok m' ∧
        (∀ p, is_free m' p ↔ p ∈ l ∨ is_free m p) ∧
        pte_mem m' = pte_mem m ∧ byte_mem m' = byte_mem m.
Proof.
  revert m. induction l as [|a l IH]; intros m Hl; simpl.
  { exists m. split_and!; [done| |done|done]. intros p. set_solver. }
  destruct (Frame_drop_spec m a) as (m1 & -> & Hf1 & Hp1 & Hb1); [apply Hl; set_solver|].
  simpl. destruct (IH m1) as (m2 & Hm2 & Hf2 & Hp2 & Hb2); [intros p Hp; apply Hl; set_solver|].
  exists m2. split_and!; [done| |congruence|congruence].
  intros p. rewrite Hf2, Hf1. set_solver.
Qed.

Lemma mem_inv_shrink m m' :
  mem_inv m → (∀ p, is_free m' p → is_free m p) → mem_inv m'.
Proof. intros Hm Hs p Hp. by apply Hm, Hs. Qed.

Lemma init_frame_allocator_ok m :
  allocator m = buddy_new →
  ∃ m', init_frame_allocator m = Ok m' ∧ mem_inv m' ∧
        ∀ p, is_free m' p ↔ begin_ppn ≤ p < end_ppn.
Proof.
  intros Hnew. unfold init_frame_allocator, usub. rewrite begin_frame_Ok. simpl.
  pose proof begin_ppn_bound as Hb. change (PhysAddr.floor MEMORY_END) with end_ppn.
  rewrite checked_fits by (rewrite end_ppn_eq in *; lia). simpl.
  eexists. split; [done|].
  assert (Hf : ∀ p, is_free (set_allocator m (buddy_add_frame (allocator m) 0
                 (end_ppn - begin_ppn))) p ↔ begin_ppn ≤ p < end_ppn).
  { intros p. unfold is_free. simpl. rewrite buddy_add_frame_free, Hnew, buddy_new_free.
    rewrite elem_of_union, elem_of_list_to_set, elem_of_seqZ, elem_of_empty.
    split; [intros [[]|?]; lia|intros; right; lia]. }
  split; [|done]. intros p. apply Hf.
Qed.

(** At boot the allocator holds exactly the physical frames between the end
    of the kernel image and the end of memory: initialisation does not panic and
    establishes the memory invariant. *)
Theorem init_frame_allocator_spec m :
  allocator m = buddy_new →
  ∃ m', init_frame_allocator m = Ok m' ∧ mem_inv m' ∧
        ∀ p, is_free m' p ↔ begin_ppn ≤ p < end_ppn.
Proof. apply init_frame_allocator_ok. Qed.

(** Two allocations never alias. A frame handed out by [Frame::alloc] was
    free, lies in physical memory beyond the kernel image, comes back zeroed, and
    is not handed out again before it is dropped; the content of every other frame
    is untouched. *)
Lemma Frame_alloc_fresh m ppn m' :
  mem_inv m → Frame_alloc m = Ok (Some ppn, m') →
  begin_ppn ≤ ppn < end_ppn ∧ mem_inv m' ∧
  (∀ i, pte_at m' ppn i = 0 ∧ byte_at m' ppn i = 0) ∧
  (∀ p i, p ≠ ppn → pte_at m' p i = pte_at m p i ∧ byte_at m' p i = byte_at m p i) ∧
  (∀ ppn2 m2, Frame_alloc m' = Ok (Some ppn2, m2) → ppn2 ≠ ppn).
Proof.
  intros Hm Ha. destruct (Frame_alloc_spec _ _ _ Ha) as (Hf & Hiff & Hp & Hb).
  split_and!; [apply (Hm ppn Hf)|by apply (Hm ppn Hf)| | | |].
  - eapply mem_inv_shrink; [done|]. intros p. by intros [? _]%Hiff.
  - intros i. rewrite Hp, Hb, !decide_True by done. done.
  - intros p i Hne. rewrite Hp, Hb, !decide_False by done. done.
  - intros ppn2 m2 Ha2 ->. destruct (Frame_alloc_spec _ _ _ Ha2) as [Hf2 _].
    by apply Hiff in Hf2 as [_ ?].
Qed.
End frames.

(** ** A concrete allocator

    A set of frame indexes, searched for the least aligned block; it satisfies
    the laws of [Buddy], so that the theorems above are not vacuous. *)
Definition set_alloc (b : gset Z) (n : Z) : option (Z * gset Z) :=
  match filter (λ f, block f n ⊆ b) (elements b) with
  | f :: _ => Some (f, b ∖ block f n)
  | [] => None
  end.

#[export] Program Instance SetBuddy : Buddy := {|
  buddy := gset Z;
  buddy_new := ∅;
  buddy_add_frame b s e := b ∪ list_to_set (seqZ s (e - s));
  buddy_alloc := set_alloc;
  buddy_dealloc b f n := b ∪ block f n;
  buddy_free b := b;
|}.
Next Obligation. done. Qed.
Next Obligation. done. Qed.
Next Obligation.
  intros b n first b' _. unfold set_alloc.
  destruct (filter _ _) as [|f l] eqn:E; [done|]. intros [= <- <-].
  assert (f ∈ filter (λ f, block f n ⊆ b) (elements b)) as Hf by (rewrite E; set_solver).
  apply list_elem_of_filter in Hf as [Hf _]. done.
Qed.
Next Obligation.
  intros b. unfold set_alloc. destruct (filter _ _) as [|f l] eqn:E; [|done].
  intros _. apply set_eq. intros i. split; [|done]. intros Hi.
  assert (i ∈ filter (λ f, block f 1 ⊆ b) (elements b)) as Hin.
  { apply list_elem_of_filter. split; [|by apply elem_of_elements].
    intros j ->%block_1. done. }
  rewrite E in Hin. by apply not_elem_of_nil in Hin.
Qed.
Next Obligation. done. Qed.

(** A kernel image that ends 64 frames before the end of physical memory. *)
#[export] Program Instance SmallImage : KernelImage := {|
  ekernel := PA_TO_VA + MEMORY_END - 64 * PAGE_SIZE
|}.
Next Obligation. unfold_config. lia. Qed.

Definition boot_mem : Mem := mkMem _ buddy_new ∅ ∅.

Lemma init_frame_allocator_witness :
  ∃ m', init_frame_allocator boot_mem = Ok m' ∧ mem_inv m' ∧
        ∀ p, is_free m' p ↔ begin_ppn ≤ p < end_ppn.
Proof. apply (init_frame_allocator_spec boot_mem). reflexivity. Defined.

(** The memory right after boot, and the frame it hands out first. *)
Definition init_mem : Mem :=
  match init_frame_allocator boot_mem with Ok m => m | _ => boot_mem end.
Definition first_frame : option Z :=
  match Frame_alloc init_mem with Ok (o, _) => o | _ => None end.

Lemma init_mem_inv : mem_inv init_mem.
Proof.
  destruct (init_frame_allocator_ok boot_mem eq_refl) as (m' & Hi & Hm & _).
  unfold init_mem. by rewrite Hi.
Qed.

Lemma Frame_alloc_fresh_witness :
  ∃ m', Frame_alloc init_mem = Ok (Some 0x87fff, m') ∧
        begin_ppn ≤ 0x87fff < end_ppn ∧ byte_at m' 0x87fff 7 = 0.
Proof.
  assert (Hf : first_frame = Some 0x87fff) by (vm_compute; reflexivity).
  unfold first_frame in Hf.
  destruct (Frame_alloc init_mem) as [[o m']|e|] eqn:E; [|discriminate Hf..].
  subst o. exists m'. split; [reflexivity|].
  destruct (Frame_alloc_fresh init_mem 0x87fff m' init_mem_inv E) as (Hr & _ & Hz & _).
  split; [exact Hr|]. apply Hz.
Defined.
