(* ===== verification/PageTable.v ===== *)
(** * Page tables ([libkernel::memory::memory_space::page_table])

    Page-table entries, and the three-level Sv39 tables the kernel builds in the
    frames of [Mem]. The code is proved against [walk], the translation the
    hardware performs: [map] and [unmap] update exactly one binding of the
    translation, and the tables of the user half form a tree of frames owned by
    the table. *)
From S2P Require Import Prelude Address Defines FrameAllocator.

(** ** [MapPermission] and [PTEFlags] *)
Module MapPermission.
Definition R : Z := 2.
Definition W : Z := 4.
Definition X : Z := 8.
Definition U : Z := 16.
Definition G : Z := 32.
Definition all : Z := 62.
(** [impl From<MmapProt>]: the shift is done at the width of [MmapProt] and then
    cast to [u8]. *)
Definition from_prot (prot : Z) : Z :=
  Z.lor (Flags.from_bits_truncate all (wrap 8 (wrap 32 (Z.shiftl prot 1)))) U.
End MapPermission.

Module PTEFlags.
Definition V : Z := 1.
Definition R : Z := 2.
Definition W : Z := 4.
Definition X : Z := 8.
Definition U : Z := 16.
Definition G : Z := 32.
Definition A : Z := 64.
Definition D : Z := 128.
Definition COW : Z := 256.
Definition all : Z := 511.
Definition from_perm (mp : Z) : Z := Flags.from_bits_truncate all mp.
End PTEFlags.

(** ** [PageTableEntry], a 64-bit word *)
Module PTE.
Definition new (ppn flags : Z) : Z := Z.lor (wrap 64 (Z.shiftl ppn 10)) flags.
Definition empty : Z := 0.
Definition ppn (bits : Z) : Z := Z.land (Z.shiftr bits 10) (Z.shiftl 1 44 - 1).
Definition flags (bits : Z) : Z :=
  Flags.from_bits_truncate PTEFlags.all (wrap 16 bits).
Definition is_valid (bits : Z) : bool := Flags.contains (flags bits) PTEFlags.V.
End PTE.

(** ** [PageTable]: the root frame and the frames of the lower tables *)
Record PageTable : Type := mkPageTable { root_frame : Z; pt_frames : list Z }.

Section page_table.
Context `{Buddy, KernelImage}.

Definition with_root (m : Mem) : KResult (PageTable * Mem) :=
  let? (o, m) := Frame_alloc m in
  let? frame := unwrap o in
  Ok (mkPageTable frame [], m).

(** [as_page_bytes_mut()[0..PAGE_SIZE / 2].fill(0)], as the entries the bytes
    hold. *)
Definition zero_low_half (m : Mem) (ppn : Z) : Mem :=
  foldl (λ m i, write_pte m ppn i 0) m (seqZ 0 (PTE_PER_PAGE / 2)).

(** [frames.truncate(1)] drops all but the first frame of the vector. *)
Definition clear (m : Mem) (pt : PageTable) : KResult (PageTable * Mem) :=
  let? m := Frames_drop m (drop 1 (pt_frames pt)) in
  Ok (mkPageTable (root_frame pt) (take 1 (pt_frames pt)),
      zero_low_half m (root_frame pt)).

(** [kernel_root] is the root frame of [KERNEL_SPACE]. *)
Definition map_kernel_areas (kernel_root : Z) (m : Mem) (pt : PageTable) : Mem :=
  foldl (λ m line, write_pte m (root_frame pt) line (pte_at m kernel_root line))
    m [508; 510; 511].

(** The loop of [find_pte_create]: at level [i] the table [ppn] is indexed by
    the next index; the result is the place of the leaf entry. *)
Fixpoint find_loop (m : Mem) (frames : list Z) (i : nat) (idxs : list Z) (ppn : Z) :
    KResult (option (Z * Z) * list Z * Mem) :=
  match idxs with
  | [] => Ok (None, frames, m)
  | idx :: idxs =>
      if (i =? 2)%nat then Ok (Some (ppn, idx), frames, m)
      else if PTE.is_valid (pte_at m ppn idx) then
        find_loop m frames (S i) idxs (PTE.ppn (pte_at m ppn idx))
      else
        let? (o, m) := Frame_alloc m in
        let? frame := unwrap o in
        let m := write_pte m ppn idx (PTE.new frame PTEFlags.V) in
        find_loop m (frames ++ [frame]) (S i) idxs (PTE.ppn (pte_at m ppn idx))
  end.

Definition find_pte_create (m : Mem) (pt : PageTable) (vpn : Z) :
    KResult (option (Z * Z) * PageTable * Mem) :=
  let? (ret, frames, m) :=
    find_loop m (pt_frames pt) 0 (VirtPageNum.indexes vpn) (root_frame pt) in
  Ok (ret, mkPageTable (root_frame pt) frames, m).

Definition map (m : Mem) (pt : PageTable) (vpn ppn flags : Z) :
    KResult (PageTable * Mem) :=
  let? (o, pt, m) := find_pte_create m pt vpn in
  let? (f, i) := unwrap o in
  check (negb (PTE.is_valid (pte_at m f i))) in
  Ok (pt, write_pte m f i (PTE.new ppn (Z.lor flags PTEFlags.V))).

Definition unmap (m : Mem) (pt : PageTable) (vpn : Z) : KResult (PageTable * Mem) :=
  let? (o, pt, m) := find_pte_create m pt vpn in
  let? (f, i) := unwrap o in
  check (PTE.is_valid (pte_at m f i)) in
  Ok (pt, write_pte m f i PTE.empty).

(** [satp] in Sv39 mode. *)
Definition token (pt : PageTable) : Z :=
  Z.lor (wrap 64 (Z.shiftl 8 60)) (root_frame pt).

(** [PageTable::activate]: the new [satp] and whether the TLB is flushed. *)
Definition activate (satp : Z) (pt : PageTable) : Z * bool :=
  if token pt =? satp then (satp, false) else (token pt, true).
Definition activate_no_tlb (pt : PageTable) : Z := token pt.

(** ** The translation of the hardware

    A valid entry whose R, W and X bits are all clear points to the next table;
    any other valid entry above the last level is a superpage. [walk] is the
    leaf entry of the 4 KiB translation of a page. *)
Definition is_pointer (bits : Z) : bool :=
  PTE.is_valid bits && negb (Flags.intersects (PTE.flags bits) 14).

Definition walk (m : Mem) (root vpn : Z) : option (Z * Z) :=
  let e0 := pte_at m root (idx0 vpn) in
  if is_pointer e0 then
    let e1 := pte_at m (PTE.ppn e0) (idx1 vpn) in
    if is_pointer e1 then
      let e2 := pte_at m (PTE.ppn e1) (idx2 vpn) in
      if PTE.is_valid e2 then Some (PTE.ppn e2, PTE.flags e2) else None
    else None
  else None.
End page_table.

(** ** Entries *)
Lemma pte_new_add ppn flags :
  0 ≤ ppn < 2 ^ 54 → 0 ≤ flags < 2 ^ 10 → PTE.new ppn flags = ppn * 2 ^ 10 + flags.
Proof.
  intros Hp Hf. unfold PTE.new. rewrite Z.shiftl_mul_pow2 by lia.
  rewrite wrap_small by lia.
  assert (Z.land (ppn * 2 ^ 10) flags = 0) as Hl.
  { bitwise n. destruct (decide (n < 10)).
    - by rewrite Z.mul_pow2_bits_low by lia.
    - rewrite (testbit_high flags 10) by lia. apply andb_false_r. }
  pose proof (Z.add_lor_land (ppn * 2 ^ 10) flags). lia.
Qed.

Lemma pte_ppn_div bits : PTE.ppn bits = (bits / 2 ^ 10) mod 2 ^ 44.
Proof.
  unfold PTE.ppn. change (Z.shiftl 1 44 - 1) with (Z.ones 44).
  rewrite Z.land_ones, Z.shiftr_div_pow2 by lia. done.
Qed.

Lemma pte_flags_mod bits : PTE.flags bits = bits mod 2 ^ 9.
Proof.
  unfold PTE.flags, Flags.from_bits_truncate, wrap.
  change PTEFlags.all with (Z.ones 9). rewrite Z.land_ones by lia.
  change (2 ^ 16) with (2 ^ 9 * 2 ^ 7). rewrite Z.rem_mul_r by lia.
  rewrite (Z.mul_comm (2 ^ 9)), Z.mod_add by lia. by rewrite Z.mod_mod by lia.
Qed.

Lemma pte_new_ppn ppn flags :
  0 ≤ ppn < 2 ^ 44 → 0 ≤ flags < 2 ^ 9 → PTE.ppn (PTE.new ppn flags) = ppn.
Proof.
  intros. rewrite pte_new_add, pte_ppn_div by lia.
  rewrite Z.div_add_l, (Z.div_small flags) by lia.
  rewrite Z.add_0_r. by apply Z.mod_small.
Qed.

Lemma pte_new_flags ppn flags :
  0 ≤ ppn < 2 ^ 44 → 0 ≤ flags < 2 ^ 9 → PTE.flags (PTE.new ppn flags) = flags.
Proof.
  intros. rewrite pte_new_add, pte_flags_mod by lia.
  change (2 ^ 10) with (2 * 2 ^ 9).
  rewrite Z.add_comm, Z.mul_assoc, Z.mod_add by lia. by apply Z.mod_small.
Qed.

Lemma is_valid_testbit bits : PTE.is_valid bits = Z.odd (PTE.flags bits).
Proof.
  unfold PTE.is_valid. change PTEFlags.V with (2 ^ 0).
  by rewrite contains_pow2, Z.bit0_odd.
Qed.

Lemma flags_V_bounds flags :
  0 ≤ flags < 2 ^ 9 → 0 ≤ Z.lor flags PTEFlags.V < 2 ^ 9.
Proof.
  intros Hf. split; [apply Z.lor_nonneg; split; [lia|done]|].
  destruct (decide (Z.lor flags PTEFlags.V < 2 ^ 9)); [done|].
  exfalso. assert (9 ≤ Z.log2 (Z.lor flags PTEFlags.V)) as Hl.
  { apply Z.log2_le_pow2; [|lia]. lia. }
  rewrite Z.log2_lor in Hl by (done || lia).
  change (Z.log2 PTEFlags.V) with 0 in Hl.
  assert (Z.log2 flags < 9) as Hl2; [|lia].
  destruct (decide (flags = 0)) as [->|]; [done|]. apply Z.log2_lt_pow2; lia.
Qed.

Lemma is_valid_new ppn flags :
  0 ≤ ppn < 2 ^ 44 → 0 ≤ flags < 2 ^ 9 →
  PTE.is_valid (PTE.new ppn (Z.lor flags PTEFlags.V)) = true.
Proof.
  intros. rewrite is_valid_testbit, pte_new_flags by (done || by apply flags_V_bounds).
  by rewrite <- Z.bit0_odd, Z.lor_spec, orb_true_r.
Qed.

Lemma is_pointer_new ppn :
  0 ≤ ppn < 2 ^ 44 → is_pointer (PTE.new ppn PTEFlags.V) = true.
Proof.
  intros. unfold is_pointer. change PTEFlags.V with (Z.lor 0 PTEFlags.V).
  rewrite is_valid_new by lia. rewrite pte_new_flags by done. done.
Qed.

Lemma pointer_ppn ppn : 0 ≤ ppn < 2 ^ 44 → PTE.ppn (PTE.new ppn PTEFlags.V) = ppn.
Proof. intros. by apply pte_new_ppn. Qed.

Lemma is_pointer_invalid bits : PTE.is_valid bits = false → is_pointer bits = false.
Proof. unfold is_pointer. by intros ->. Qed.

(** ** The tree of tables

    [tree] names the table frames by the indexes that lead to them, innermost
    index first: [[]] is the root, [[i]] the table its entry [i] points to, and
    [[j; i]] a leaf table. The root entries below [half] belong to this table:
    256 for a user space, whose upper entries are shared with the kernel, and
    512 for the kernel's own. *)
Section tree.
Context `{Buddy, KernelImage}.

Record pt_tree (half : Z) (m : Mem) (pt : PageTable) (tree : gmap (list Z) Z) : Prop := {
  t_root : tree !! [] = Some (root_frame pt);
  t_depth p f : tree !! p = Some f → (length p ≤ 2)%nat;
  t_parent i p f : tree !! (i :: p) = Some f → is_Some (tree !! p);
  t_inj p q f : tree !! p = Some f → tree !! q = Some f → p = q;
  t_child p f i :
    tree !! p = Some f → (length p < 2)%nat → 0 ≤ i < 512 → (p = [] → i < half) →
    match tree !! (i :: p) with
    | Some g => pte_at m f i = PTE.new g PTEFlags.V
    | None => PTE.is_valid (pte_at m f i) = false
    end;
  t_frames p f : p ≠ [] → tree !! p = Some f → f ∈ pt_frames pt;
  t_nodup : NoDup (root_frame pt :: pt_frames pt);
  t_owned f : f ∈ root_frame pt :: pt_frames pt →
    ¬ is_free m f ∧ begin_ppn ≤ f < end_ppn;
}.

#[global] Arguments t_root {half m pt tree}.
#[global] Arguments t_depth {half m pt tree}.
#[global] Arguments t_parent {half m pt tree}.
#[global] Arguments t_inj {half m pt tree}.
#[global] Arguments t_child {half m pt tree}.
#[global] Arguments t_frames {half m pt tree}.
#[global] Arguments t_nodup {half m pt tree}.
#[global] Arguments t_owned {half m pt tree}.

Definition pt_inv (half : Z) (m : Mem) (pt : PageTable) : Prop :=
  ∃ tree, pt_tree half m pt tree.

(** The pages whose root entry belongs to the table. *)
Definition in_half (half vpn : Z) : Prop := idx0 vpn < half.

(** How an operation may change the memory around a table: it takes new table
    frames from the free ones and writes to table frames only. *)
Record pt_extends (m : Mem) (pt : PageTable) (m' : Mem) (pt' : PageTable) : Prop := {
  x_root : root_frame pt' = root_frame pt;
  x_mono f : f ∈ pt_frames pt → f ∈ pt_frames pt';
  x_frames f : f ∈ pt_frames pt' → f ∈ pt_frames pt ∨ is_free m f;
  x_free f : is_free m' f ↔ is_free m f ∧ f ∉ pt_frames pt';
  x_pte f i : f ∉ root_frame pt :: pt_frames pt' → pte_at m' f i = pte_at m f i;
  x_byte f i : ¬ is_free m f → byte_at m' f i = byte_at m f i;
}.
#[global] Arguments x_root {m pt m' pt'}.
#[global] Arguments x_mono {m pt m' pt'}.
#[global] Arguments x_frames {m pt m' pt'}.
#[global] Arguments x_free {m pt m' pt'}.
#[global] Arguments x_pte {m pt m' pt'}.
#[global] Arguments x_byte {m pt m' pt'}.

(** The tables of [tree] stay where they are and the new leaf tables are empty. *)
Record pt_grows (m : Mem) (tree : gmap (list Z) Z) (m' : Mem)
    (tree' : gmap (list Z) Z) : Prop := {
  g_tree : tree ⊆ tree';
  g_leaf p f : length p = 2%nat → tree' !! p = Some f →
    (tree !! p = Some f ∧ ∀ i, pte_at m' f i = pte_at m f i) ∨
    (tree !! p = None ∧ ∀ i, pte_at m' f i = 0);
}.

Lemma table_frame_small half m pt tree p f :
  pt_tree half m pt tree → tree !! p = Some f → 0 ≤ f < 2 ^ 44.
Proof.
  intros Ht Hp. pose proof begin_ppn_bound. rewrite end_ppn_eq in *.
  assert (begin_ppn ≤ f < end_ppn) as Hf; [|rewrite end_ppn_eq in Hf; lia].
  apply (t_owned Ht). destruct p as [|i p].
  - rewrite (t_root Ht) in Hp. simplify_eq. set_solver.
  - apply elem_of_cons. right. by apply (t_frames Ht (i :: p)).
Qed.

(** The hardware's translation, read off the tree. *)
Lemma walk_tree half m pt tree vpn :
  pt_tree half m pt tree → in_half half vpn →
  walk m (root_frame pt) vpn =
    match tree !! [idx1 vpn; idx0 vpn] with
    | Some q => let e := pte_at m q (idx2 vpn) in
                if PTE.is_valid e then Some (PTE.ppn e, PTE.flags e) else None
    | None => None
    end.
Proof.
  intros Ht Hh. pose proof (idx_bounds vpn) as (Hi0 & Hi1 & Hi2). unfold walk.
  pose proof (t_child Ht [] _ (idx0 vpn) (t_root Ht) ltac:(simpl; lia)
    Hi0 (λ _, Hh)) as Hc0.
  destruct (tree !! [idx0 vpn]) as [f|] eqn:Hf; cycle 1.
  { rewrite is_pointer_invalid by done.
    destruct (tree !! [idx1 vpn; idx0 vpn]) eqn:Hq; [|done].
    apply (t_parent Ht) in Hq as [? ?]. congruence. }
  pose proof (table_frame_small _ _ _ _ _ _ Ht Hf).
  rewrite Hc0, is_pointer_new, pointer_ppn by done.
  pose proof (t_child Ht _ _ (idx1 vpn) Hf ltac:(simpl; lia) Hi1 ltac:(done)) as Hc1.
  destruct (tree !! [idx1 vpn; idx0 vpn]) as [q|] eqn:Hq; cycle 1.
  { by rewrite is_pointer_invalid. }
  pose proof (table_frame_small _ _ _ _ _ _ Ht Hq).
  by rewrite Hc1, is_pointer_new, pointer_ppn.
Qed.

Lemma owned_not_free half m pt tree f :
  pt_tree half m pt tree → is_free m f → f ∉ root_frame pt :: pt_frames pt.
Proof. intros Ht Hf Hin. by destruct (t_owned Ht f Hin). Qed.

Lemma tree_owned half m pt tree p f :
  pt_tree half m pt tree → tree !! p = Some f → f ∈ root_frame pt :: pt_frames pt.
Proof.
  intros Ht. destruct p as [|i p]; intros Hp; apply elem_of_cons.
  - rewrite (t_root Ht) in Hp. simplify_eq. by left.
  - right. by apply (t_frames Ht (i :: p)).
Qed.

(** The tables depend on their own frames only. *)
Lemma pt_tree_frame half m m' pt tree :
  pt_tree half m pt tree →
  (∀ f i, f ∈ root_frame pt :: pt_frames pt → pte_at m' f i = pte_at m f i) →
  (∀ f, f ∈ root_frame pt :: pt_frames pt → ¬ is_free m' f) →
  pt_tree half m' pt tree.
Proof.
  intros Ht Hp Hf. split.
  - apply (t_root Ht).
  - apply (t_depth Ht).
  - apply (t_parent Ht).
  - apply (t_inj Ht).
  - intros p f i Hpf. rewrite Hp by by eapply tree_owned. by apply (t_child Ht).
  - apply (t_frames Ht).
  - apply (t_nodup Ht).
  - intros f Hin. split; [by apply Hf|by apply (t_owned Ht)].
Qed.

Lemma walk_frame half m m' pt tree v :
  pt_tree half m pt tree → pt_tree half m' pt tree → in_half half v →
  (∀ f i, f ∈ root_frame pt :: pt_frames pt → pte_at m' f i = pte_at m f i) →
  walk m' (root_frame pt) v = walk m (root_frame pt) v.
Proof.
  intros Ht Ht' Hh Hp. rewrite (walk_tree _ _ _ _ _ Ht' Hh), (walk_tree _ _ _ _ _ Ht Hh).
  destruct (tree !! _) as [q|] eqn:Hq; [|done]. by rewrite Hp by by eapply tree_owned.
Qed.

Lemma pt_extends_refl half m pt : pt_inv half m pt → pt_extends m pt m pt.
Proof.
  intros [tree Ht]. split; eauto. intros f. split; [|naive_solver]. intros Hf.
  pose proof (owned_not_free _ _ _ _ _ Ht Hf). set_solver.
Qed.

Lemma pt_extends_trans m1 p1 m2 p2 m3 p3 :
  pt_extends m1 p1 m2 p2 → pt_extends m2 p2 m3 p3 → pt_extends m1 p1 m3 p3.
Proof.
  intros H1 H2. split.
  - rewrite (x_root H2). apply (x_root H1).
  - intros f Hf. by apply (x_mono H2), (x_mono H1).
  - intros f [Hf|[Hf _]%(x_free H1)]%(x_frames H2); [by apply (x_frames H1)|by right].
  - intros f. rewrite (x_free H2), (x_free H1). pose proof (x_mono H2 f). naive_solver.
  - intros f i Hf. pose proof (x_mono H2 f). pose proof (x_root H1).
    rewrite (x_pte H2) by set_solver. apply (x_pte H1). set_solver.
  - intros f i Hf. rewrite (x_byte H2); [by apply (x_byte H1)|].
    rewrite (x_free H1). naive_solver.
Qed.

Lemma pt_grows_refl m tree : pt_grows m tree m tree.
Proof. split; eauto. Qed.

Lemma pt_grows_trans m1 t1 m2 t2 m3 t3 :
  pt_grows m1 t1 m2 t2 → pt_grows m2 t2 m3 t3 → pt_grows m1 t1 m3 t3.
Proof.
  intros [] []. split; [by etrans|].
  intros p f Hp Hf. destruct (g_leaf1 p f Hp Hf) as [[Hf2 He]|[Hn He]].
  - destruct (g_leaf0 p f Hp Hf2) as [[? He']|[? He']]; [left|right];
      (split; [done|]; intros i; rewrite He; apply He').
  - right. split; [|done]. destruct (t1 !! p) eqn:Hp1; [|done].
    eapply lookup_weaken in Hp1; [|exact g_tree0]. congruence.
Qed.

(** One new table: the entry [idx] of the table at path [p] is filled with a
    pointer to a fresh frame. *)
Lemma alloc_child_tree half m pt tree p f idx g m1 :
  pt_tree half m pt tree → tree !! p = Some f → (length p < 2)%nat →
  tree !! (idx :: p) = None → mem_inv m → Frame_alloc m = Ok (Some g, m1) →
  pt_tree half (write_pte m1 f idx (PTE.new g PTEFlags.V))
    (mkPageTable (root_frame pt) (pt_frames pt ++ [g])) (<[idx :: p := g]> tree).
Proof.
  intros Ht Hp Hlen Hnone Hm Ha.
  destruct (Frame_alloc_spec _ _ _ Ha) as (Hg & Hfree & Hpte & _).
  assert (Hown : ∀ h, h ∈ root_frame pt :: pt_frames pt → h ≠ g)
    by (intros h Hh ->; by destruct (t_owned Ht g Hh)).
  assert (Htree : ∀ q h, tree !! q = Some h → h ≠ g)
    by (intros q h Hq; by eapply Hown, tree_owned).
  split; simpl.
  - rewrite lookup_insert_ne by done. apply (t_root Ht).
  - intros q h. rewrite lookup_insert. case_decide; [subst; simpl; lia|]. apply (t_depth Ht).
  - intros i q h. rewrite !lookup_insert. repeat case_decide; simplify_eq; eauto.
    intros. by apply (t_parent Ht i q h).
  - intros q1 q2 h. rewrite !lookup_insert.
    repeat case_decide; simplify_eq; [done|naive_solver..|].
    apply (t_inj Ht).
  - intros q h i. rewrite lookup_insert. case_decide as Hq.
    { subst q. intros [= ->] Hl Hi _. rewrite lookup_insert_ne by (intros Hx;
        apply (f_equal length) in Hx; simpl in Hx; lia).
      destruct (tree !! (i :: idx :: p)) eqn:E.
      { apply (t_parent Ht) in E as [? ?]. congruence. }
      rewrite pte_at_write. rewrite decide_False by (intros [? _]; by apply (Htree p f)).
      rewrite Hpte. by rewrite decide_True. }
    intros Hqh Hl Hi Hhalf. rewrite pte_at_write, lookup_insert.
    case_decide as Hc1.
    { injection Hc1 as -> ->. rewrite Hp in Hqh. simplify_eq. by rewrite decide_True. }
    rewrite decide_False.
    { rewrite Hpte, decide_False by by eapply Htree. by apply (t_child Ht q h i). }
    intros [-> ->]. rewrite (t_inj Ht p q f Hp Hqh) in Hc1. done.
  - intros q h Hq. rewrite lookup_insert. case_decide; [set_solver|].
    intros Hqh. apply elem_of_app. left. by apply (t_frames Ht q).
  - change (root_frame pt :: pt_frames pt ++ [g])
      with ((root_frame pt :: pt_frames pt) ++ [g]).
    apply NoDup_app. split; [apply (t_nodup Ht)|]. split; [|apply NoDup_singleton].
    intros h Hh. rewrite list_elem_of_singleton. by apply Hown.
  - intros h Hh. rewrite is_free_write_pte, Hfree.
    destruct (decide (h = g)) as [->|Hne].
    { split; [naive_solver|by apply Hm]. }
    destruct (t_owned Ht h) as [? ?]; [set_solver|naive_solver].
Qed.

Lemma alloc_child_extends half m pt tree p f idx g m1 :
  pt_tree half m pt tree → tree !! p = Some f → Frame_alloc m = Ok (Some g, m1) →
  pt_extends m pt (write_pte m1 f idx (PTE.new g PTEFlags.V))
    (mkPageTable (root_frame pt) (pt_frames pt ++ [g])).
Proof.
  intros Ht Hp Ha. pose proof (tree_owned _ _ _ _ _ _ Ht Hp) as Hf.
  destruct (Frame_alloc_spec _ _ _ Ha) as (Hg & Hfree & Hpte & Hbyte).
  split; simpl.
  - done.
  - set_solver.
  - intros h. rewrite elem_of_app, list_elem_of_singleton. naive_solver.
  - intros h. rewrite is_free_write_pte, Hfree, elem_of_app, list_elem_of_singleton.
    split; [|naive_solver]. intros [Hh ?]. split; [done|]. intros [Hin|?]; [|done].
    destruct (t_owned Ht h); [set_solver|done].
  - intros h i Hh. rewrite pte_at_write, decide_False by set_solver.
    rewrite Hpte, decide_False by set_solver. done.
  - intros h i Hh. rewrite byte_at_write_pte, Hbyte.
    rewrite decide_False by congruence. done.
Qed.

Lemma alloc_child_grows half m pt tree p f idx g m1 :
  pt_tree half m pt tree → tree !! p = Some f → (length p < 2)%nat →
  tree !! (idx :: p) = None → Frame_alloc m = Ok (Some g, m1) →
  pt_grows m tree (write_pte m1 f idx (PTE.new g PTEFlags.V)) (<[idx :: p := g]> tree).
Proof.
  intros Ht Hp Hlen Hnone Ha. pose proof (tree_owned _ _ _ _ _ _ Ht Hp) as Hf.
  destruct (Frame_alloc_spec _ _ _ Ha) as (Hg & Hfree & Hpte & Hbyte).
  split; [by apply insert_subseteq|].
  intros q h Hq. rewrite lookup_insert. case_decide as Hc.
  { intros [= <-]. subst q. right. split; [done|]. intros i.
    rewrite pte_at_write, decide_False.
    - rewrite Hpte. by rewrite decide_True.
    - intros [<- _]. by destruct (t_owned Ht g Hf). }
  intros Hqh. left. split; [done|]. intros i. rewrite pte_at_write, decide_False.
  { rewrite Hpte, decide_False; [done|]. intros ->.
    by destruct (t_owned Ht g) as [Hng _]; [by eapply tree_owned|]. }
  intros [-> _]. rewrite (t_inj Ht _ _ _ Hqh Hp) in Hq. lia.
Qed.

(** What the loop of [find_pte_create] achieves from the table at path [p]. *)
Lemma find_loop_spec half idxs m pt tree p ppn o frames' m' :
  pt_tree half m pt tree → mem_inv m → tree !! p = Some ppn →
  (length p + length idxs = 3)%nat →
  Forall (λ i, 0 ≤ i < 512) idxs → (∀ i, p = [] → head idxs = Some i → i < half) →
  find_loop m (pt_frames pt) (length p) idxs ppn = Ok (o, frames', m') →
  ∃ tree' q i, o = Some (q, i) ∧ last idxs = Some i ∧
    tree' !! (tail (rev idxs) ++ p) = Some q ∧
    pt_tree half m' (mkPageTable (root_frame pt) frames') tree' ∧
    pt_grows m tree m' tree' ∧
    pt_extends m pt m' (mkPageTable (root_frame pt) frames').
Proof.
  revert m pt tree p ppn.
  induction idxs as [|idx idxs IH]; intros m pt tree p ppn Ht Hm Hp Hlen Hidx Hhalf Hf.
  { pose proof (t_depth Ht _ _ Hp). simpl in Hlen. lia. }
  simpl in Hf, Hlen. apply Forall_cons in Hidx as [Hi Hidx].
  destruct (Nat.eqb_spec (length p) 2) as [Hl|Hl].
  { destruct idxs; [|simpl in Hlen; lia]. inv_ok. exists tree, ppn, idx.
    destruct pt. split_and!; [done..| |]; [apply pt_grows_refl|].
    eapply pt_extends_refl. by exists tree. }
  assert (Hidxs : ∃ x, last idxs = Some x ∧ last (idx :: idxs) = Some x ∧
            tail (rev (idx :: idxs)) = tail (rev idxs) ++ [idx]).
  { destruct idxs as [|y idxs]; [simpl in Hlen; pose proof (t_depth Ht _ _ Hp); lia|].
    rewrite last_cons_cons. destruct (last (y :: idxs)) as [x|] eqn:E; cycle 1.
    { apply last_None in E. done. }
    exists x. split_and!; [done..|]. simpl.
    destruct (rev idxs ++ [y]) eqn:E2; [by destruct (rev idxs)|done]. }
  destruct Hidxs as (x & Hx1 & Hx2 & Htail).
  rewrite Htail, <- app_assoc, Hx2. simpl.
  pose proof (t_depth Ht _ _ Hp) as Hd. assert (Hlp : (length p < 2)%nat) by lia.
  pose proof (t_child Ht p ppn idx Hp Hlp Hi (λ e, Hhalf idx e eq_refl)) as Hc.
  destruct (tree !! (idx :: p)) as [g|] eqn:Hg.
  - pose proof (table_frame_small _ _ _ _ _ _ Ht Hg) as Hsm.
    assert (PTE.is_valid (pte_at m ppn idx) = true) as Hv.
    { rewrite Hc. by apply (is_valid_new g 0). }
    rewrite Hv, Hc, pointer_ppn in Hf by done.
    destruct (IH m pt tree (idx :: p) g) as (tree' & q & i & ? & Hi2 & ?);
      [done|done|done|simpl; lia|done|done|exact Hf|].
    rewrite Hx1 in Hi2. naive_solver.
  - rewrite Hc in Hf. inv_ok.
    match goal with Ha' : Frame_alloc m = Ok (Some ?y, ?m0) |- _ =>
      rename y into g, m0 into m1, Ha' into Ha end.
    destruct (Frame_alloc_spec _ _ _ Ha) as (Hgf & Hfree & _).
    pose proof (alloc_child_tree _ _ _ _ _ _ idx _ _ Ht Hp Hlp Hg Hm Ha) as Ht2.
    pose proof (alloc_child_grows _ _ _ _ _ _ idx _ _ Ht Hp Hlp Hg Ha) as Hg2.
    pose proof (alloc_child_extends _ _ _ _ _ _ idx _ _ Ht Hp Ha) as Hx2'.
    set (m2 := write_pte m1 ppn idx (PTE.new g PTEFlags.V)) in *.
    set (pt2 := mkPageTable (root_frame pt) (pt_frames pt ++ [g])) in *.
    assert (Hpp : PTE.ppn (pte_at m2 ppn idx) = g).
    { unfold m2. rewrite pte_at_write, decide_True by done. apply pointer_ppn.
      eapply (table_frame_small _ _ _ _ (idx :: p) g Ht2). by rewrite lookup_insert_eq. }
    rewrite Hpp in Hf.
    destruct (IH m2 pt2 (<[idx :: p := g]> tree) (idx :: p) g)
      as (tree' & q & i & ? & Hi2 & ? & ? & Hgr & Hx);
      [done| |by rewrite lookup_insert_eq|simpl; lia|done|done|exact Hf|].
    { eapply mem_inv_shrink; [exact Hm|]. intros h. unfold m2.
      rewrite is_free_write_pte, Hfree. naive_solver. }
    rewrite Hx1 in Hi2. exists tree', q, i. split_and!; [done..| |].
    + by eapply pt_grows_trans.
    + by eapply pt_extends_trans.
Qed.
Lemma find_pte_create_spec half m pt vpn o pt' m' :
  pt_inv half m pt → mem_inv m → in_half half vpn →
  find_pte_create m pt vpn = Ok (o, pt', m') →
  ∃ tree tree' q, o = Some (q, idx2 vpn) ∧ pt_tree half m pt tree ∧
    pt_tree half m' pt' tree' ∧ tree' !! [idx1 vpn; idx0 vpn] = Some q ∧
    pt_grows m tree m' tree' ∧ pt_extends m pt m' pt'.
Proof.
  intros [tree Ht] Hm Hh Hf. unfold find_pte_create in Hf. rewrite indexes_eq in Hf.
  apply bind_Ok in Hf as ([[ret frames] m1] & Hl & Hf). inv_ok.
  pose proof (idx_bounds vpn) as (? & ? & ?).
  destruct (find_loop_spec half [idx0 vpn; idx1 vpn; idx2 vpn] m pt tree []
    (root_frame pt) o frames m') as (tree' & q & i & -> & [= <-] & Hq & Ht' & Hg & Hx);
    [done|done|apply (t_root Ht)|done|by rewrite !Forall_cons, Forall_nil| |done|].
  { by intros i _ [= <-]. }
  by exists tree, tree', q.
Qed.

(** Growing a table does not change the translation. *)
Lemma grows_walk half m pt tree m' pt' tree' v :
  pt_tree half m pt tree → pt_tree half m' pt' tree' →
  root_frame pt' = root_frame pt → pt_grows m tree m' tree' → in_half half v →
  walk m' (root_frame pt) v = walk m (root_frame pt) v.
Proof.
  intros Ht Ht' Hr Hg Hv. rewrite (walk_tree _ _ _ _ _ Ht Hv). rewrite <- Hr.
  rewrite (walk_tree _ _ _ _ _ Ht' Hv).
  destruct (tree' !! [idx1 v; idx0 v]) as [q|] eqn:Hq.
  - destruct (g_leaf _ _ _ _ Hg [idx1 v; idx0 v] q eq_refl Hq) as [[-> He]|[-> He]]; simpl; by rewrite He.
  - destruct (tree !! _) eqn:Hq0; [|done].
    eapply lookup_weaken in Hq0; [|apply (g_tree _ _ _ _ Hg)]. congruence.
Qed.

(** What a leaf entry contributes to the translation. *)
Definition leaf_view (e : Z) : option (Z * Z) :=
  if PTE.is_valid e then Some (PTE.ppn e, PTE.flags e) else None.

(** Writing the leaf entry of a page changes the translation of that page only. *)
Lemma leaf_write half m pt tree vpn q e :
  pt_tree half m pt tree → tree !! [idx1 vpn; idx0 vpn] = Some q →
  pt_tree half (write_pte m q (idx2 vpn) e) pt tree ∧
  ∀ v, in_half half v →
    walk (write_pte m q (idx2 vpn) e) (root_frame pt) v =
      if decide (v mod 2 ^ 27 = vpn mod 2 ^ 27) then leaf_view e
      else walk m (root_frame pt) v.
Proof.
  intros Ht Hq.
  assert (Ht' : pt_tree half (write_pte m q (idx2 vpn) e) pt tree).
  { destruct Ht as []; split; try done. intros p f i Hp Hl Hi Hh.
    rewrite pte_at_write, decide_False; [by apply t_child0|].
    intros [-> _]. specialize (t_inj0 _ _ _ Hp Hq). subst p. simpl in Hl. lia. }
  split; [done|]. intros v Hv. rewrite (walk_tree _ _ _ _ _ Ht' Hv).
  rewrite (walk_tree _ _ _ _ _ Ht Hv).
  case_decide as Hd.
  - assert (idx0 v = idx0 vpn ∧ idx1 v = idx1 vpn ∧ idx2 v = idx2 vpn) as (-> & -> & ->).
    { pose proof (idx_decompose v). pose proof (idx_decompose vpn).
      pose proof (idx_bounds v). pose proof (idx_bounds vpn). lia. }
    rewrite Hq, pte_at_write, decide_True by done. done.
  - destruct (tree !! [idx1 v; idx0 v]) as [q'|] eqn:Hq'; [|done].
    rewrite pte_at_write, decide_False; [done|]. intros [-> Hi2].
    apply Hd. pose proof (t_inj Ht _ _ _ Hq Hq') as [= Hi1 Hi0]. by apply idx_inj.
Qed.

Lemma leaf_write_extends half m pt m' pt' tree' vpn q e :
  pt_tree half m' pt' tree' → tree' !! [idx1 vpn; idx0 vpn] = Some q →
  pt_extends m pt m' pt' → pt_extends m pt (write_pte m' q (idx2 vpn) e) pt'.
Proof.
  intros Ht Hq Hx. pose proof (t_frames Ht [idx1 vpn; idx0 vpn] q ltac:(done) Hq) as Hin.
  destruct Hx. split; try done. intros f i Hf.
  rewrite pte_at_write, decide_False; [by apply x_pte0|]. set_solver.
Qed.

Lemma extends_mem_inv m pt m' pt' : pt_extends m pt m' pt' → mem_inv m → mem_inv m'.
Proof. intros Hx Hm. eapply mem_inv_shrink; [done|]. intros p. rewrite (x_free Hx). naive_solver. Qed.

Lemma map_spec half m pt vpn ppn flags pt' m' :
  pt_inv half m pt → mem_inv m → in_half half vpn →
  0 ≤ ppn < 2 ^ 44 → 0 ≤ flags < 2 ^ 9 →
  map m pt vpn ppn flags = Ok (pt', m') →
  walk m (root_frame pt) vpn = None ∧ pt_inv half m' pt' ∧ pt_extends m pt m' pt' ∧
  ∀ v, in_half half v →
    walk m' (root_frame pt) v =
      if decide (v mod 2 ^ 27 = vpn mod 2 ^ 27) then Some (ppn, Z.lor flags PTEFlags.V)
      else walk m (root_frame pt) v.
Proof.
  intros Hpt Hm Hh Hp Hf Hmap. unfold map in Hmap.
  apply bind_Ok in Hmap as ([[o pt1] m1] & Hfind & Hmap).
  destruct (find_pte_create_spec _ _ _ _ _ _ _ Hpt Hm Hh Hfind)
    as (tree & tree' & q & -> & Ht & Ht' & Hq & Hg & Hx). simpl in Hmap.
  apply bind_Ok in Hmap as ([] & Hv%assert_Ok & [= <- <-]).
  pose proof (x_root Hx) as Hroot.
  set (e := PTE.new ppn (Z.lor flags PTEFlags.V)).
  destruct (leaf_write half m1 pt1 tree' vpn q e Ht' Hq) as [Ht2 Hw].
  split_and!.
  - rewrite <- (grows_walk _ _ _ _ _ _ _ _ Ht Ht' Hroot Hg Hh). rewrite <- Hroot.
    rewrite (walk_tree _ _ _ _ _ Ht' Hh), Hq. simpl. by destruct (PTE.is_valid _) eqn:E.
  - by exists tree'.
  - by eapply leaf_write_extends.
  - intros v Hvh. rewrite <- Hroot, (Hw v Hvh). case_decide.
    + unfold leaf_view, e. rewrite is_valid_new by done.
      rewrite pte_new_ppn, pte_new_flags by (done || by apply flags_V_bounds). done.
    + rewrite Hroot. by eapply grows_walk.
Qed.

Lemma unmap_spec half m pt vpn pt' m' :
  pt_inv half m pt → mem_inv m → in_half half vpn → unmap m pt vpn = Ok (pt', m') →
  is_Some (walk m (root_frame pt) vpn) ∧ pt_inv half m' pt' ∧ pt_extends m pt m' pt' ∧
  ∀ v, in_half half v →
    walk m' (root_frame pt) v =
      if decide (v mod 2 ^ 27 = vpn mod 2 ^ 27) then None
      else walk m (root_frame pt) v.
Proof.
  intros Hpt Hm Hh Hmap. unfold unmap in Hmap.
  apply bind_Ok in Hmap as ([[o pt1] m1] & Hfind & Hmap).
  destruct (find_pte_create_spec _ _ _ _ _ _ _ Hpt Hm Hh Hfind)
    as (tree & tree' & q & -> & Ht & Ht' & Hq & Hg & Hx). simpl in Hmap.
  apply bind_Ok in Hmap as ([] & Hv%assert_Ok & [= <- <-]).
  pose proof (x_root Hx) as Hroot.
  destruct (leaf_write half m1 pt1 tree' vpn q PTE.empty Ht' Hq) as [Ht2 Hw].
  split_and!.
  - rewrite <- (grows_walk _ _ _ _ _ _ _ _ Ht Ht' Hroot Hg Hh). rewrite <- Hroot.
    rewrite (walk_tree _ _ _ _ _ Ht' Hh), Hq. simpl. by destruct (PTE.is_valid _) eqn:E.
  - by exists tree'.
  - by eapply leaf_write_extends.
  - intros v Hvh. rewrite <- Hroot, (Hw v Hvh). case_decide; [done|].
    rewrite Hroot. by eapply grows_walk.
Qed.
(** *** The operations succeed *)
Lemma find_loop_total half idxs m pt tree p ppn :
  pt_tree half m pt tree → mem_inv m → tree !! p = Some ppn →
  (length p + length idxs = 3)%nat →
  Forall (λ i, 0 ≤ i < 512) idxs → (∀ i, p = [] → head idxs = Some i → i < half) →
  (2 - length p ≤ free_count m)%nat →
  ∃ o frames' m', find_loop m (pt_frames pt) (length p) idxs ppn = Ok (o, frames', m') ∧
    (free_count m ≤ free_count m' + (2 - length p))%nat.
Proof.
  revert m pt tree p ppn.
  induction idxs as [|idx idxs IH]; intros m pt tree p ppn Ht Hm Hp Hlen Hidx Hhalf Hc.
  { pose proof (t_depth Ht _ _ Hp). simpl in Hlen. lia. }
  simpl in Hlen |- *. apply Forall_cons in Hidx as [Hi Hidx].
  destruct (Nat.eqb_spec (length p) 2) as [Hl|Hl].
  { eexists _, _, _. split; [done|]. lia. }
  pose proof (t_depth Ht _ _ Hp) as Hd. assert (Hlp : (length p < 2)%nat) by lia.
  pose proof (t_child Ht p ppn idx Hp Hlp Hi (λ e, Hhalf idx e eq_refl)) as Hch.
  destruct (tree !! (idx :: p)) as [g|] eqn:Hg.
  - pose proof (table_frame_small _ _ _ _ _ _ Ht Hg) as Hsm.
    assert (PTE.is_valid (pte_at m ppn idx) = true) as ->.
    { rewrite Hch. by apply (is_valid_new g 0). }
    rewrite Hch, pointer_ppn by done.
    destruct (IH m pt tree (idx :: p) g) as (o & fr & m' & Hl' & Hfc);
      [done|done|done|simpl; lia|done|done|simpl; lia|].
    simpl in Hl', Hfc. eexists _, _, _. split; [exact Hl'|]. lia.
  - rewrite Hch. destruct (Frame_alloc_total m Hm ltac:(lia)) as (g & m1 & Ha & Hcnt).
    rewrite Ha. simpl.
    destruct (Frame_alloc_spec _ _ _ Ha) as (Hgf & Hfree & _).
    pose proof (alloc_child_tree _ _ _ _ _ _ idx _ _ Ht Hp Hlp Hg Hm Ha) as Ht2.
    set (m2 := write_pte m1 ppn idx (PTE.new g PTEFlags.V)) in *.
    set (pt2 := mkPageTable (root_frame pt) (pt_frames pt ++ [g])) in *.
    assert (PTE.ppn (pte_at m2 ppn idx) = g) as ->.
    { unfold m2. rewrite pte_at_write, decide_True by done. apply pointer_ppn.
      eapply (table_frame_small _ _ _ _ (idx :: p) g Ht2). by rewrite lookup_insert_eq. }
    assert (free_count m2 = free_count m1) as Hm2 by done.
    destruct (IH m2 pt2 (<[idx :: p := g]> tree) (idx :: p) g) as (o & fr & m' & Hl' & Hfc);
      [done| |by rewrite lookup_insert_eq|simpl; lia|done|done|simpl; lia|].
    { eapply mem_inv_shrink; [exact Hm|]. intros h. unfold m2.
      rewrite is_free_write_pte, Hfree. naive_solver. }
    simpl in Hl', Hfc. eexists _, _, _. split; [exact Hl'|]. lia.
Qed.

Lemma find_pte_create_total half m pt vpn :
  pt_inv half m pt → mem_inv m → in_half half vpn → (2 ≤ free_count m)%nat →
  ∃ o pt' m', find_pte_create m pt vpn = Ok (o, pt', m') ∧
    (free_count m ≤ free_count m' + 2)%nat.
Proof.
  intros [tree Ht] Hm Hh Hc. unfold find_pte_create. rewrite indexes_eq.
  pose proof (idx_bounds vpn) as (? & ? & ?).
  destruct (find_loop_total half [idx0 vpn; idx1 vpn; idx2 vpn] m pt tree []
    (root_frame pt)) as (o & fr & m' & Hf & Hfc);
    [done|done|apply (t_root Ht)|done|by rewrite !Forall_cons, Forall_nil| |simpl; lia|].
  { by intros i _ [= <-]. }
  simpl length in Hf. unfold idx0, idx1, idx2 in Hf. rewrite Hf. simpl in Hfc |- *.
  eexists _, _, _. split; [done|]. lia.
Qed.

(** A page that is translated has its tables: nothing is allocated for it. *)
Lemma find_pte_create_present half m pt tree vpn q :
  pt_tree half m pt tree → in_half half vpn → tree !! [idx1 vpn; idx0 vpn] = Some q →
  find_pte_create m pt vpn = Ok (Some (q, idx2 vpn), pt, m).
Proof.
  intros Ht Hh Hq. unfold find_pte_create. rewrite indexes_eq.
  pose proof (idx_bounds vpn) as (Hi0 & Hi1 & Hi2).
  fold (idx0 vpn) (idx1 vpn) (idx2 vpn). simpl.
  destruct (t_parent Ht _ _ _ Hq) as [f Hf].
  pose proof (table_frame_small _ _ _ _ _ _ Ht Hf).
  pose proof (table_frame_small _ _ _ _ _ _ Ht Hq).
  pose proof (t_child Ht [] _ (idx0 vpn) (t_root Ht) ltac:(simpl; lia)
    Hi0 (λ _, Hh)) as Hc0.
  pose proof (t_child Ht _ _ (idx1 vpn) Hf ltac:(simpl; lia) Hi1 ltac:(done)) as Hc1.
  rewrite Hf in Hc0. rewrite Hq in Hc1.
  assert (∀ g, 0 ≤ g < 2 ^ 44 → PTE.is_valid (PTE.new g PTEFlags.V) = true) as Hv
    by (intros g ?; by apply (is_valid_new g 0)).
  rewrite Hc0, Hv, pointer_ppn, Hc1, Hv, pointer_ppn by done. by destruct pt.
Qed.

Lemma map_total half m pt vpn ppn flags :
  pt_inv half m pt → mem_inv m → in_half half vpn → (2 ≤ free_count m)%nat →
  walk m (root_frame pt) vpn = None →
  ∃ pt' m', map m pt vpn ppn flags = Ok (pt', m') ∧
    (free_count m ≤ free_count m' + 2)%nat.
Proof.
  intros Hpt Hm Hh Hc Hw. unfold map.
  destruct (find_pte_create_total half m pt vpn) as (o & pt1 & m1 & Hf & Hfc); [done..|].
  destruct (find_pte_create_spec _ _ _ _ _ _ _ Hpt Hm Hh Hf)
    as (tree & tree' & q & -> & Ht & Ht' & Hq & Hg & Hx).
  rewrite <- (grows_walk _ _ _ _ _ _ _ _ Ht Ht' (x_root Hx) Hg Hh) in Hw.
  rewrite <- (x_root Hx), (walk_tree _ _ _ _ _ Ht' Hh), Hq in Hw. simpl in Hw.
  rewrite Hf. simpl. destruct (PTE.is_valid _); [done|]. simpl.
  eexists _, _. split; [done|]. exact Hfc.
Qed.

Lemma unmap_total half m pt vpn :
  pt_inv half m pt → in_half half vpn → is_Some (walk m (root_frame pt) vpn) →
  ∃ m', unmap m pt vpn = Ok (pt, m') ∧ allocator m' = allocator m.
Proof.
  intros [tree Ht] Hh [x Hw]. rewrite (walk_tree _ _ _ _ _ Ht Hh) in Hw.
  destruct (tree !! _) as [q|] eqn:Hq; [|done]. simpl in Hw. unfold unmap.
  rewrite (find_pte_create_present _ _ _ _ _ _ Ht Hh Hq). simpl.
  destruct (PTE.is_valid _); [|done]. simpl. by eexists.
Qed.
(** *** Creation, clearing and the kernel half *)
Lemma with_root_spec half m pt m' :
  mem_inv m → with_root m = Ok (pt, m') →
  pt_inv half m' pt ∧ pt_frames pt = [] ∧ is_free m (root_frame pt) ∧
  (∀ f, is_free m' f ↔ is_free m f ∧ f ≠ root_frame pt) ∧
  (∀ f i, ¬ is_free m f → byte_at m' f i = byte_at m f i) ∧
  (∀ f i, ¬ is_free m f → pte_at m' f i = pte_at m f i) ∧
  (∀ v, in_half half v → walk m' (root_frame pt) v = None).
Proof.
  intros Hm Hw. unfold with_root in Hw. inv_ok.
  match goal with Ha' : Frame_alloc m = Ok (Some ?y, ?m0) |- _ =>
    rename y into g, Ha' into Ha end.
  destruct (Frame_alloc_spec _ _ _ Ha) as (Hg & Hfree & Hpte & Hbyte).
  assert (Ht : pt_tree half m' (mkPageTable g []) {[ [] := g ]}).
  { split; simpl.
    - apply lookup_singleton_eq.
    - intros p f [<- _]%lookup_singleton_Some. simpl. lia.
    - by intros i p f [? _]%lookup_singleton_Some.
    - intros p q f [<- _]%lookup_singleton_Some [<- _]%lookup_singleton_Some. done.
    - intros p f i [<- <-]%lookup_singleton_Some _ _ _.
      rewrite lookup_singleton_ne by done. rewrite Hpte. by rewrite decide_True.
    - intros p f Hp [<- _]%lookup_singleton_Some. done.
    - apply NoDup_singleton.
    - intros f ->%list_elem_of_singleton. split; [rewrite Hfree; naive_solver|by apply Hm]. }
  split_and!; [by eexists|done|done|done| | |]; simpl.
  - intros f i Hf. rewrite Hbyte, decide_False by congruence. done.
  - intros f i Hf. rewrite Hpte, decide_False by congruence. done.
  - intros v Hv. pose proof (walk_tree _ _ _ _ _ Ht Hv) as Hwt.
    by rewrite lookup_singleton_ne in Hwt.
Qed.

Lemma pte_at_zero_range m f l p i :
  pte_at (foldl (λ m i, write_pte m f i 0) m l) p i =
    if decide (p = f ∧ i ∈ l) then 0 else pte_at m p i.
Proof.
  revert m. induction l as [|a l IH]; intros m; simpl.
  { rewrite decide_False by set_solver. done. }
  rewrite IH, pte_at_write. repeat case_decide; set_solver.
Qed.

Lemma zero_range_alloc m f l :
  allocator (foldl (λ m i, write_pte m f i 0) m l) = allocator m ∧
  byte_mem (foldl (λ m i, write_pte m f i 0) m l) = byte_mem m.
Proof. revert m. induction l as [|a l IH]; intros m; simpl; [done|]. by rewrite !(proj1 (IH _)), !(proj2 (IH _)). Qed.

Lemma pte_at_zero_low_half m f p i :
  pte_at (zero_low_half m f) p i =
    if decide (p = f ∧ 0 ≤ i < 256) then 0 else pte_at m p i.
Proof.
  unfold zero_low_half. rewrite pte_at_zero_range.
  change (PTE_PER_PAGE / 2) with 256.
  repeat case_decide; rewrite elem_of_seqZ in *; naive_solver.
Qed.

(** The tables after [clear]: only the root is left of the tree, although the
    vector keeps its first frame. *)
Lemma clear_tree m m1 pt tree :
  pt_tree 256 m pt tree →
  (∀ f, is_free m1 f ↔ f ∈ drop 1 (pt_frames pt) ∨ is_free m f) →
  pt_tree 256 (zero_low_half m1 (root_frame pt))
    (mkPageTable (root_frame pt) (take 1 (pt_frames pt))) {[ [] := root_frame pt ]}.
Proof.
  intros Ht Hf. pose proof (t_nodup Ht) as Hnd.
  assert (Hsub : ∀ f, f ∈ take 1 (pt_frames pt) → f ∈ pt_frames pt)
    by (intros f Hin; rewrite <- (take_drop 1 (pt_frames pt)); set_solver).
  split; simpl.
  - apply lookup_singleton_eq.
  - intros p f [<- _]%lookup_singleton_Some. simpl. lia.
  - by intros i p f [? _]%lookup_singleton_Some.
  - intros p q f [<- _]%lookup_singleton_Some [<- _]%lookup_singleton_Some. done.
  - intros p f i [<- <-]%lookup_singleton_Some _ ? Hh.
    rewrite lookup_singleton_ne by done. rewrite pte_at_zero_low_half.
    rewrite decide_True; [done|]. naive_solver lia.
  - intros p f Hp [<- _]%lookup_singleton_Some. done.
  - apply NoDup_cons in Hnd as [Hr Hnd]. apply NoDup_cons. split; [naive_solver|].
    rewrite <- (take_drop 1 (pt_frames pt)) in Hnd.
    by apply NoDup_app in Hnd as (? & _ & _).
  - intros f Hin. destruct (t_owned Ht f) as [Hnf Hr]; [set_solver|]. split; [|done].
    unfold is_free, zero_low_half. rewrite (proj1 (zero_range_alloc _ _ _)).
    intros [Hd|?]%Hf; [|done].
    apply NoDup_cons in Hnd as [Hroot Hnd]. rewrite <- (take_drop 1 (pt_frames pt)) in Hnd, Hroot.
    apply NoDup_app in Hnd as (_ & Hdis & _). set_solver.
Qed.
Lemma clear_ok m pt :
  pt_inv 256 m pt →
  ∃ m', clear m pt = Ok (mkPageTable (root_frame pt) (take 1 (pt_frames pt)), m') ∧
    pt_inv 256 m' (mkPageTable (root_frame pt) (take 1 (pt_frames pt))) ∧
    (∀ v, in_half 256 v → walk m' (root_frame pt) v = None) ∧
    (∀ f, is_free m' f ↔ f ∈ drop 1 (pt_frames pt) ∨ is_free m f) ∧
    (∀ f i, f ≠ root_frame pt ∨ 256 ≤ i → pte_at m' f i = pte_at m f i) ∧
    byte_mem m' = byte_mem m.
Proof.
  intros [tree Ht]. unfold clear.
  destruct (Frames_drop_spec (drop 1 (pt_frames pt)) m) as (m1 & Hd & Hf & Hp & Hb).
  { intros p Hp. apply (t_owned Ht). apply elem_of_cons. right.
    rewrite <- (take_drop 1 (pt_frames pt)). set_solver. }
  rewrite Hd. simpl. eexists. split; [done|].
  pose proof (clear_tree m m1 pt tree Ht Hf) as Ht'. split_and!.
  - by eexists.
  - intros v Hv. pose proof (walk_tree _ _ _ _ _ Ht' Hv) as Hwt.
    by rewrite lookup_singleton_ne in Hwt.
  - intros f. unfold is_free, zero_low_half. rewrite (proj1 (zero_range_alloc _ _ _)). apply Hf.
  - intros f i Hi. rewrite pte_at_zero_low_half, decide_False by lia. unfold pte_at. by rewrite Hp.
  - unfold zero_low_half. by rewrite (proj2 (zero_range_alloc _ _ _)).
Qed.

Lemma map_kernel_areas_spec kernel_root m pt :
  pt_inv 256 m pt → kernel_root ≠ root_frame pt →
  let m' := map_kernel_areas kernel_root m pt in
  pt_inv 256 m' pt ∧ allocator m' = allocator m ∧ byte_mem m' = byte_mem m ∧
  (∀ f i, f ≠ root_frame pt ∨ 0 ≤ i < 256 → pte_at m' f i = pte_at m f i) ∧
  (∀ v, in_half 256 v → walk m' (root_frame pt) v = walk m (root_frame pt) v) ∧
  (∀ i, i ∈ [508; 510; 511] → pte_at m' (root_frame pt) i = pte_at m kernel_root i).
Proof.
  intros [tree Ht] Hk m'.
  assert (Hpte : ∀ f i, pte_at m' f i =
            if decide (f = root_frame pt ∧ i ∈ [508; 510; 511])
            then pte_at m kernel_root i else pte_at m f i).
  { intros f i. unfold m', map_kernel_areas. simpl. rewrite !pte_at_write.
    repeat case_decide; set_solver. }
  assert (Hlow : ∀ f i, f ≠ root_frame pt ∨ 0 ≤ i < 256 → pte_at m' f i = pte_at m f i).
  { intros f i Hi. rewrite Hpte, decide_False; [done|].
    intros [-> Hin]. rewrite !elem_of_cons, elem_of_nil in Hin.
    destruct Hi; [done|]. lia. }
  assert (Ht' : pt_tree 256 m' pt tree).
  { destruct Ht. split; try done. intros p f i Hp Hl Hi Hh.
    rewrite Hlow; [by apply t_child0|].
    destruct p as [|j p]; [right; naive_solver|left].
    intros ->. pose proof (t_inj0 _ _ _ Hp t_root0). done. }
  split_and!; [by exists tree|done|done|done| |].
  - intros v Hv. rewrite (walk_tree _ _ _ _ _ Ht' Hv), (walk_tree _ _ _ _ _ Ht Hv).
    destruct (tree !! _) as [q|] eqn:Hq; [|done]. rewrite Hlow; [done|]. left.
    intros ->. pose proof (t_inj Ht _ _ _ Hq (t_root Ht)). done.
  - intros i Hi. by rewrite Hpte, decide_True.
Qed.
End tree.

(** ** Theorems *)

(** The page number and the flags put into a page-table entry are read back
    unchanged, for every 44-bit page number and every set of declared flags, and
    the entry is valid exactly when its V flag is set. *)
Theorem pte_roundtrip ppn flags :
  0 ≤ ppn < 2 ^ 44 → 0 ≤ flags ≤ PTEFlags.all →
  PTE.ppn (PTE.new ppn flags) = ppn ∧ PTE.flags (PTE.new ppn flags) = flags ∧
  PTE.is_valid (PTE.new ppn flags) = Z.testbit flags 0.
Proof.
  intros Hp Hf. assert (0 ≤ flags < 2 ^ 9) by (unfold PTEFlags.all in Hf; lia).
  rewrite is_valid_testbit, pte_new_ppn, pte_new_flags by done.
  by rewrite Z.bit0_odd.
Qed.

Lemma pte_roundtrip_witness : PTE.ppn (PTE.new 0x87fff 0x1ff) = 0x87fff.
Proof. apply pte_roundtrip; vm_compute; split; congruence. Defined.

Section refinement.
Context `{Buddy, KernelImage}.

(** C1: [PageTable::map] implements insertion into the translation the
    hardware sees. With two free frames for the intermediate tables it succeeds
    exactly when the page is not mapped (and hits its assertion otherwise); then
    the page translates to the given frame with the given flags, every other page
    of the user half translates as before, the table keeps its invariant, and no
    frame outside the table is written. *)
Theorem map_refines half m pt vpn ppn flags :
  pt_inv half m pt → mem_inv m → in_half half vpn → (2 ≤ free_count m)%nat →
  0 ≤ ppn < 2 ^ 44 → 0 ≤ flags < 2 ^ 9 →
  match walk m (root_frame pt) vpn with
  | Some _ => map m pt vpn ppn flags = Panic
  | None =>
      ∃ pt' m', map m pt vpn ppn flags = Ok (pt', m') ∧
        pt_inv half m' pt' ∧ pt_extends m pt m' pt' ∧
        ∀ v, in_half half v →
          walk m' (root_frame pt') v =
            if decide (v mod 2 ^ 27 = vpn mod 2 ^ 27)
            then Some (ppn, Z.lor flags PTEFlags.V) else walk m (root_frame pt) v
  end.
Proof.
  intros Hpt Hm Hh Hc Hp Hf. destruct (walk m (root_frame pt) vpn) as [x|] eqn:Hw.
  - destruct Hpt as [tree Ht]. rewrite (walk_tree _ _ _ _ _ Ht Hh) in Hw.
    destruct (tree !! _) as [q|] eqn:Hq; [|done]. simpl in Hw. unfold map.
    rewrite (find_pte_create_present _ _ _ _ _ _ Ht Hh Hq). simpl.
    by destruct (PTE.is_valid _).
  - destruct (map_total half m pt vpn ppn flags) as (pt' & m' & Hmap & _); [done..|].
    destruct (map_spec half m pt vpn ppn flags pt' m') as (_ & ? & Hx & ?); [done..|].
    exists pt', m'. by rewrite (x_root Hx).
Qed.

(** C2: [PageTable::unmap] implements deletion: it succeeds exactly on mapped
    pages, removes that page's translation and no other, allocates nothing and
    keeps the table's frames; on an unmapped page it hits its assertion. *)
Theorem unmap_refines half m pt vpn :
  pt_inv half m pt → mem_inv m → in_half half vpn → (2 ≤ free_count m)%nat →
  match walk m (root_frame pt) vpn with
  | None => unmap m pt vpn = Panic
  | Some _ =>
      ∃ m', unmap m pt vpn = Ok (pt, m') ∧ pt_inv half m' pt ∧
        allocator m' = allocator m ∧ pt_extends m pt m' pt ∧
        ∀ v, in_half half v →
          walk m' (root_frame pt) v =
            if decide (v mod 2 ^ 27 = vpn mod 2 ^ 27)
            then None else walk m (root_frame pt) v
  end.
Proof.
  intros Hpt Hm Hh Hc. destruct (walk m (root_frame pt) vpn) as [x|] eqn:Hw.
  - destruct (unmap_total half m pt vpn) as (m' & Hu & Ha); [done..|by eexists|].
    destruct (unmap_spec half m pt vpn pt m') as (_ & ? & ? & ?); [done..|].
    by exists m'.
  - destruct (find_pte_create_total half m pt vpn) as (o & pt1 & m1 & Hf & _); [done..|].
    destruct (find_pte_create_spec _ _ _ _ _ _ _ Hpt Hm Hh Hf)
      as (tree & tree' & q & -> & Ht & Ht' & Hq & Hg & Hx).
    rewrite <- (grows_walk _ _ _ _ _ _ _ _ Ht Ht' (x_root Hx) Hg Hh) in Hw.
    rewrite <- (x_root Hx), (walk_tree _ _ _ _ _ Ht' Hh), Hq in Hw. simpl in Hw.
    unfold unmap. rewrite Hf. simpl. by destruct (PTE.is_valid _).
Qed.

(** [PageTable::clear] removes every translation of the user half, gives
    all the table frames but the first of the vector back to the allocator, and
    leaves the kernel half of the root table alone. *)
Theorem clear_spec m pt :
  pt_inv 256 m pt →
  ∃ pt' m', clear m pt = Ok (pt', m') ∧ pt_inv 256 m' pt' ∧
    root_frame pt' = root_frame pt ∧ (length (pt_frames pt') ≤ 1)%nat ∧
    (∀ v, in_half 256 v → walk m' (root_frame pt') v = None) ∧
    (∀ f, is_free m' f ↔ is_free m f ∨ (f ∈ pt_frames pt ∧ f ∉ pt_frames pt')) ∧
    (∀ i, 256 ≤ i → pte_at m' (root_frame pt) i = pte_at m (root_frame pt) i).
Proof.
  intros Hpt. destruct (clear_ok m pt Hpt) as (m' & Hc & Hinv & Hw & Hf & Hp & _).
  exists (mkPageTable (root_frame pt) (take 1 (pt_frames pt))), m'.
  split_and!; [done..| |done| |]; simpl.
  - rewrite length_take. lia.
  - intros f. rewrite Hf. destruct Hpt as [tree Ht]. pose proof (t_nodup Ht) as Hnd.
    apply NoDup_cons in Hnd as [_ Hnd].
    assert (f ∈ pt_frames pt ↔ f ∈ take 1 (pt_frames pt) ∨ f ∈ drop 1 (pt_frames pt)).
    { rewrite <- elem_of_app. by rewrite take_drop. }
    rewrite <- (take_drop 1 (pt_frames pt)) in Hnd.
    apply NoDup_app in Hnd as (_ & Hdis & _). specialize (Hdis f). naive_solver.
  - intros i Hi. apply Hp. by right.
Qed.
End refinement.

(** A fresh table on the memory right after boot, and the same table with one
    page mapped. *)
Definition boot_pt : PageTable * Mem :=
  match with_root init_mem with Ok r => r | _ => (mkPageTable 0 [], init_mem) end.

Lemma boot_pt_ok : with_root init_mem = Ok boot_pt.
Proof.
  unfold boot_pt. destruct (with_root init_mem) as [r|e|] eqn:E; [done|..].
  - assert (is_ok (with_root init_mem) = true) by (vm_compute; reflexivity).
    by rewrite E in *.
  - assert (is_ok (with_root init_mem) = true) by (vm_compute; reflexivity).
    by rewrite E in *.
Qed.

Lemma boot_pt_inv :
  pt_inv 256 boot_pt.2 boot_pt.1 ∧ mem_inv boot_pt.2 ∧
  (∀ v, in_half 256 v → walk boot_pt.2 (root_frame boot_pt.1) v = None).
Proof.
  pose proof boot_pt_ok as Hw. destruct boot_pt as [pt m]. simpl.
  destruct (with_root_spec 256 init_mem pt m init_mem_inv Hw) as (? & _ & _ & Hf & _ & _ & ?).
  split_and!; [done| |done]. eapply mem_inv_shrink; [exact init_mem_inv|].
  intros p. rewrite Hf. naive_solver.
Qed.

Lemma map_refines_witness :
  ∃ pt' m', map boot_pt.2 boot_pt.1 0x10 0x87f00 22 = Ok (pt', m') ∧
            walk m' (root_frame pt') 0x10 = Some (0x87f00, 23).
Proof.
  destruct boot_pt_inv as (Hpt & Hm & Hw).
  assert (in_half 256 0x10) as Hh by (vm_compute; reflexivity).
  pose proof (map_refines 256 boot_pt.2 boot_pt.1 0x10 0x87f00 22 Hpt Hm Hh
    ltac:(vm_compute; lia) ltac:(lia) ltac:(lia)) as Hr.
  rewrite (Hw _ Hh) in Hr. destruct Hr as (pt' & m' & Hmap & _ & _ & Hall).
  exists pt', m'. split; [exact Hmap|]. rewrite (Hall _ Hh). by rewrite decide_True.
Defined.

Lemma unmap_refines_witness : unmap boot_pt.2 boot_pt.1 0x10 = Panic.
Proof.
  destruct boot_pt_inv as (Hpt & Hm & Hw).
  assert (in_half 256 0x10) as Hh by (vm_compute; reflexivity).
  pose proof (unmap_refines 256 boot_pt.2 boot_pt.1 0x10 Hpt Hm Hh
    ltac:(vm_compute; lia)) as Hr. by rewrite (Hw _ Hh) in Hr.
Defined.

Lemma clear_spec_witness :
  ∃ pt' m', clear boot_pt.2 boot_pt.1 = Ok (pt', m') ∧ walk m' (root_frame pt') 7 = None.
Proof.
  destruct boot_pt_inv as (Hpt & _ & _).
  destruct (clear_spec boot_pt.2 boot_pt.1 Hpt) as (pt' & m' & Hc & _ & _ & _ & Hw & _).
  exists pt', m'. split; [exact Hc|]. apply Hw. vm_compute. reflexivity.
Defined.
