(* ===== verification/VmArea.v ===== *)
(** * Virtual memory areas ([libkernel::memory::memory_space::vm_area])

    A [FramedVmArea] is a range of user pages with the frames that back the
    pages touched so far. The operations take the page table and the memory the
    code reaches through [&mut PageTable] and the global frame allocator. An
    [Arc<Page>] held by an area is the page number of its frame: apart from the
    local clone of [init_stack], an area holds the only reference to its pages,
    so removing a page from an area drops its frame. *)
From S2P Require Import Prelude BTree Address Defines FrameAllocator PageTable.

(** ** Data *)
Inductive AreaType : Type := Lazy | Mmap.
#[export] Instance AreaType_eq_dec : EqDecision AreaType.
Proof. solve_decision. Defined.

(** [BackedInode] is a shared reference to an inode; it is the inode's identity,
    and [page_caches] of the operations below gives the page cache of each inode,
    from page index to frame. *)
Abbreviation BackedInode := Z (only parsing).
Abbreviation PageCaches := (Z → gmap Z Z) (only parsing).

Record FramedVmArea : Type := mkArea {
  va_start : Z;
  va_end : Z;
  a_perm : Z;
  a_type : AreaType;
  unbacked_map : gmap Z Z;
  backed_inode : option BackedInode;
  backed_pages : gset Z;
  backed_inode_page_id : Z;
}.

Definition area_new (s e perm : Z) (ty : AreaType) : FramedVmArea :=
  mkArea s e perm ty ∅ None ∅ 0.

Definition with_unbacked (a : FramedVmArea) (um : gmap Z Z) : FramedVmArea :=
  mkArea (va_start a) (va_end a) (a_perm a) (a_type a) um (backed_inode a)
    (backed_pages a) (backed_inode_page_id a).
Definition with_backed (a : FramedVmArea) (ino : option BackedInode) (pages : gset Z)
    (page_id : Z) : FramedVmArea :=
  mkArea (va_start a) (va_end a) (a_perm a) (a_type a) (unbacked_map a) ino pages page_id.
Definition with_end (a : FramedVmArea) (e : Z) : FramedVmArea :=
  mkArea (va_start a) e (a_perm a) (a_type a) (unbacked_map a) (backed_inode a)
    (backed_pages a) (backed_inode_page_id a).

(** ** Operations *)
Section ops.
Context `{Buddy, KernelImage}.

Definition area_len (a : FramedVmArea) : KResult Z :=
  umul 64 (Z.max 0 (va_end a - va_start a)) PAGE_SIZE.
Definition area_is_empty (a : FramedVmArea) : KResult bool :=
  let? n := area_len a in Ok (n =? 0).

(** The loop of [init_backed_inode] over the cached pages in range. *)
Fixpoint map_cached (m : Mem) (pt : PageTable) (a : FramedVmArea) (page_id0 : Z)
    (l : list (Z * Z)) (pages : gset Z) : KResult (gset Z * PageTable * Mem) :=
  match l with
  | [] => Ok (pages, pt, m)
  | (page_id, ppn) :: l =>
      let? off := usub 64 page_id page_id0 in
      let? vpn := VirtPageNum.add (va_start a) off in
      let? (pt, m) := map m pt vpn ppn (PTEFlags.from_perm (a_perm a)) in
      map_cached m pt a page_id0 l ({[ vpn ]} ∪ pages)
  end.

Definition init_backed_inode (page_caches : PageCaches) (m : Mem) (pt : PageTable)
    (a : FramedVmArea) (inode : BackedInode) (inode_page_id : Z) :
    KResult (FramedVmArea * PageTable * Mem) :=
  let? n_pages := usub 64 (va_end a) (va_start a) in
  let? last := uadd 64 inode_page_id n_pages in
  let cached := filter (λ e, e.1 < last) (btree_from (page_caches inode) inode_page_id) in
  let? (pages, pt, m) := map_cached m pt a inode_page_id cached (backed_pages a) in
  Ok (with_backed a (Some inode) pages inode_page_id, pt, m).

(** The frame of a page of a lazily allocated area, allocated and mapped on the
    first use. *)
Definition ensure_allocated (m : Mem) (pt : PageTable) (a : FramedVmArea) (vpn : Z) :
    KResult (Z * FramedVmArea * PageTable * Mem) :=
  check (bool_decide (a_type a = Lazy)) in
  match unbacked_map a !! vpn with
  | Some ppn => Ok (ppn, a, pt, m)
  | None =>
      let? (o, m) := Frame_alloc m in
      let? ppn := unwrap o in
      let? (pt, m) := map m pt vpn ppn (PTEFlags.from_perm (a_perm a)) in
      Ok (ppn, with_unbacked a (<[vpn := ppn]> (unbacked_map a)), pt, m)
  end.

(** The loop of [map_with_data]: every page of the area gets a frame, and the
    data is copied in page by page; the offset only concerns the first page. A
    page already present is replaced, which drops its frame. *)
Fixpoint map_with_data_loop (m : Mem) (pt : PageTable) (a : FramedVmArea)
    (data : list Z) (page_offset start : Z) (vpns : list Z) :
    KResult (FramedVmArea * PageTable * Mem) :=
  match vpns with
  | [] => Ok (a, pt, m)
  | vpn :: vpns =>
      let? (o, m) := Frame_alloc m in
      let? ppn := unwrap o in
      let? m := Frames_drop m (option_list (unbacked_map a !! vpn)) in
      let a := with_unbacked a (<[vpn := ppn]> (unbacked_map a)) in
      let? (pt, m) := map m pt vpn ppn (PTEFlags.from_perm (a_perm a)) in
      let? rest := usub 64 (Z.of_nat (length data)) start in
      let? room := usub 64 PAGE_SIZE page_offset in
      let len := Z.min rest room in
      let m := write_bytes m ppn page_offset
                 (take (Z.to_nat len) (drop (Z.to_nat start) data)) in
      map_with_data_loop m pt a data 0 (start + len) vpns
  end.

Definition map_with_data (m : Mem) (pt : PageTable) (a : FramedVmArea)
    (data : list Z) (page_offset : Z) : KResult (FramedVmArea * PageTable * Mem) :=
  let? n := uadd 64 (Z.of_nat (length data)) page_offset in
  let? len := area_len a in
  check (n <=? len) in
  map_with_data_loop m pt a data page_offset 0 (Step.range (va_start a) (va_end a)).

Fixpoint unmap_pages (m : Mem) (pt : PageTable) (l : list Z) : KResult (PageTable * Mem) :=
  match l with
  | [] => Ok (pt, m)
  | v :: l => let? (pt, m) := unmap m pt v in unmap_pages m pt l
  end.

(** The frames of a map of pages, in the order their drop goes through. *)
Definition frames_of (um : gmap Z Z) : list Z := (btree_iter um).*2.

(** A [BTreeSet] iterates in increasing order. *)
Definition set_iter (s : gset Z) : list Z := merge_sort Z.le (elements s).

Definition area_unmap (m : Mem) (pt : PageTable) (a : FramedVmArea) :
    KResult (FramedVmArea * PageTable * Mem) :=
  let? (pt, m) := unmap_pages m pt (btree_keys (unbacked_map a) ++ set_iter (backed_pages a)) in
  let? m := Frames_drop m (frames_of (unbacked_map a)) in
  Ok (with_backed (with_unbacked a ∅) None ∅ 0, pt, m).

Definition shrink (m : Mem) (pt : PageTable) (a : FramedVmArea) (new_end : Z) :
    KResult (FramedVmArea * PageTable * Mem) :=
  check (bool_decide (a_type a = Lazy)) in
  let '(keep, split) := btree_split_off (unbacked_map a) new_end in
  let? (pt, m) := unmap_pages m pt (btree_keys split) in
  let? m := Frames_drop m (frames_of split) in
  Ok (with_end (with_unbacked a keep) new_end, pt, m).

Definition expand (a : FramedVmArea) (new_end : Z) : FramedVmArea := with_end a new_end.
End ops.

(** ** The pages of a user space

    [M] lists the pages the hardware translates in the user half, with the frame
    behind each, its flags, and whether the space owns the frame (the frames of a
    file mapping belong to the page cache). *)
Record page_info : Type := mkPage { pi_ppn : Z; pi_flags : Z; pi_owned : bool }.

Section pages.
Context `{Buddy, KernelImage}.

Definition table_frames (pt : PageTable) : list Z := root_frame pt :: pt_frames pt.

Record pages_inv (m : Mem) (pt : PageTable) (M : gmap Z page_info) : Prop := {
  pg_pt : pt_inv 256 m pt;
  pg_mem : mem_inv m;
  pg_low v : is_Some (M !! v) → 0 ≤ v < LOW_VPN_END;
  pg_walk v : 0 ≤ v < LOW_VPN_END →
    walk m (root_frame pt) v = (λ i, (pi_ppn i, pi_flags i)) <$> M !! v;
  pg_frame v i : M !! v = Some i →
    ¬ is_free m (pi_ppn i) ∧ begin_ppn ≤ pi_ppn i < end_ppn ∧ pi_ppn i ∉ table_frames pt;
  pg_inj v1 i1 v2 i2 : M !! v1 = Some i1 → M !! v2 = Some i2 → pi_owned i1 = true →
    pi_ppn i1 = pi_ppn i2 → v1 = v2;
}.
#[global] Arguments pg_pt {m pt M}.
#[global] Arguments pg_mem {m pt M}.
#[global] Arguments pg_low {m pt M}.
#[global] Arguments pg_walk {m pt M}.
#[global] Arguments pg_frame {m pt M}.
#[global] Arguments pg_inj {m pt M}.
Lemma low_in_half v : 0 ≤ v < LOW_VPN_END → in_half 256 v ∧ v mod 2 ^ 27 = v.
Proof.
  rewrite LOW_VPN_END_eq. intros Hv. split; [|apply Z.mod_small; lia].
  unfold in_half, idx0. rewrite Z.mod_small; [apply Z.div_lt_upper_bound; lia|].
  split; [apply Z.div_pos; lia|apply Z.div_lt_upper_bound; lia].
Qed.

Lemma perm_flags perm :
  0 ≤ perm ≤ MapPermission.all →
  PTEFlags.from_perm perm = perm ∧ 0 ≤ PTEFlags.from_perm perm < 2 ^ 9.
Proof.
  intros Hp. unfold MapPermission.all in Hp.
  assert (PTEFlags.from_perm perm = perm) as ->; [|lia].
  unfold PTEFlags.from_perm, Flags.from_bits_truncate.
  change PTEFlags.all with (Z.ones 9). rewrite Z.land_ones by lia. apply Z.mod_small. lia.
Qed.

(** The leaf flags of a page of an area with permission [perm]. *)
Definition leaf_flags (perm : Z) : Z := Z.lor (PTEFlags.from_perm perm) PTEFlags.V.

(** What an extension of the table leaves of the pages. *)
Lemma pages_frame_extends m pt M m' pt' v i :
  pages_inv m pt M → pt_extends m pt m' pt' → M !! v = Some i →
  ¬ is_free m' (pi_ppn i) ∧ begin_ppn ≤ pi_ppn i < end_ppn ∧ pi_ppn i ∉ table_frames pt'.
Proof.
  intros Hg Hx Hv. destruct (pg_frame Hg v i Hv) as (Hf & Hr & Ht).
  split_and!; [rewrite (x_free Hx); naive_solver|lia|lia|].
  unfold table_frames in *. rewrite (x_root Hx).
  rewrite !elem_of_cons in *. intros [?|[?|?]%(x_frames Hx)]; naive_solver.
Qed.

(** Mapping one more page. The frame is either owned, and then fresh, or shared. *)
Lemma pages_map m pt M vpn ppn perm owned pt' m' :
  pages_inv m pt M → 0 ≤ vpn < LOW_VPN_END → 0 ≤ perm ≤ MapPermission.all →
  ¬ is_free m ppn → begin_ppn ≤ ppn < end_ppn → ppn ∉ table_frames pt →
  (∀ v i, M !! v = Some i → pi_ppn i = ppn → owned = false ∧ pi_owned i = false) →
  map m pt vpn ppn (PTEFlags.from_perm perm) = Ok (pt', m') →
  M !! vpn = None ∧
  pages_inv m' pt' (<[vpn := mkPage ppn (leaf_flags perm) owned]> M) ∧
  pt_extends m pt m' pt'.
Proof.
  intros Hg Hv Hperm Hnf Hr Htf Hown Hmap.
  destruct (low_in_half vpn Hv) as [Hh Hmod]. destruct (perm_flags perm Hperm) as [_ Hfl].
  pose proof begin_ppn_bound. assert (0 ≤ ppn < 2 ^ 44) by (rewrite end_ppn_eq in *; lia).
  destruct (map_spec 256 m pt vpn ppn _ pt' m' (pg_pt Hg) (pg_mem Hg) Hh ltac:(done) Hfl Hmap)
    as (Hnone & Hpt' & Hx & Hw).
  rewrite (pg_walk Hg _ Hv) in Hnone. apply fmap_None in Hnone.
  split_and!; [done| |done]. split.
  - done.
  - eapply extends_mem_inv; [done|apply (pg_mem Hg)].
  - intros v. rewrite lookup_insert. case_decide; [naive_solver|]. apply (pg_low Hg).
  - intros v Hlv. destruct (low_in_half v Hlv) as [Hhv Hmv]. rewrite (x_root Hx), (Hw v Hhv).
    rewrite Hmv, Hmod, lookup_insert. repeat case_decide; simplify_eq; [done|].
    by apply (pg_walk Hg).
  - intros v i. rewrite lookup_insert. case_decide; cycle 1.
    { by apply (pages_frame_extends m pt M). }
    intros [= <-]. simpl. split_and!; [rewrite (x_free Hx); naive_solver|lia|lia|].
    unfold table_frames in *. rewrite (x_root Hx).
    rewrite !elem_of_cons in *. intros [?|[?|?]%(x_frames Hx)]; naive_solver.
  - intros v1 i1 v2 i2. rewrite !lookup_insert. repeat case_decide; simplify_eq; [done| | |].
    + intros [= <-] Hm2 Ho Heq. simpl in *. specialize (Hown v2 i2 Hm2). naive_solver.
    + intros Hm1 [= <-] Ho Heq. simpl in *. specialize (Hown v1 i1 Hm1). naive_solver congruence.
    + by apply (pg_inj Hg).
Qed.

(** The pages depend on the table frames, and on their frames being in use. *)
Lemma pages_inv_frame m m' pt M :
  pages_inv m pt M → mem_inv m' →
  (∀ f i, f ∈ table_frames pt → pte_at m' f i = pte_at m f i) →
  (∀ f, f ∈ table_frames pt → ¬ is_free m' f) →
  (∀ v i, M !! v = Some i → ¬ is_free m' (pi_ppn i)) →
  pages_inv m' pt M.
Proof.
  intros Hg Hm Hp Ht Hi. destruct (pg_pt Hg) as [tree Htr].
  pose proof (pt_tree_frame _ _ _ _ _ Htr Hp Ht) as Htr'. split.
  - by exists tree.
  - done.
  - apply (pg_low Hg).
  - intros v Hv. rewrite <- (pg_walk Hg v Hv).
    eapply walk_frame; [exact Htr|exact Htr'|by apply low_in_half|done].
  - intros v i Hv. destruct (pg_frame Hg v i Hv) as (? & ? & ?). split_and!; [by eapply Hi|lia|lia|done].
  - apply (pg_inj Hg).
Qed.

(** Taking a frame from the allocator does not disturb the pages. *)
Lemma pages_alloc m pt M ppn m1 :
  pages_inv m pt M → Frame_alloc m = Ok (Some ppn, m1) → pages_inv m1 pt M.
Proof.
  intros Hg Ha. destruct (Frame_alloc_spec _ _ _ Ha) as (Hfree & Hiff & Hpte & _).
  destruct (pg_pt Hg) as [tree Ht].
  pose proof (owned_not_free _ _ _ _ _ Ht Hfree) as Htf.
  apply (pages_inv_frame m); [done| | | |].
  - eapply mem_inv_shrink; [apply (pg_mem Hg)|]. intros p. rewrite Hiff. naive_solver.
  - intros f i Hf. rewrite Hpte, decide_False; [done|]. intros ->. by apply Htf.
  - intros f Hf [Hff _]%Hiff. by destruct (t_owned Ht f Hf).
  - intros v i Hv [Hff _]%Hiff. by destruct (pg_frame Hg v i Hv).
Qed.

(** A page on a fresh frame, the step of lazy allocation and of ELF loading. *)
Lemma pages_alloc_map m pt M vpn perm ppn m1 pt' m' :
  pages_inv m pt M → 0 ≤ vpn < LOW_VPN_END → 0 ≤ perm ≤ MapPermission.all →
  Frame_alloc m = Ok (Some ppn, m1) →
  map m1 pt vpn ppn (PTEFlags.from_perm perm) = Ok (pt', m') →
  M !! vpn = None ∧ is_free m ppn ∧
  pages_inv m' pt' (<[vpn := mkPage ppn (leaf_flags perm) true]> M) ∧
  (∀ f i, ¬ is_free m f → byte_at m' f i = byte_at m f i) ∧
  (∀ i, byte_at m' ppn i = 0) ∧
  (∀ f, is_free m' f ↔ is_free m f ∧ f ≠ ppn ∧ f ∉ pt_frames pt').
Proof.
  intros Hg Hv Hperm Ha Hmap. pose proof (pages_alloc _ _ _ _ _ Hg Ha) as Hg1.
  destruct (Frame_alloc_spec _ _ _ Ha) as (Hfree & Hiff & Hpte & Hbyte).
  assert (Htf : ppn ∉ table_frames pt).
  { destruct (pg_pt Hg) as [tree Ht]. by eapply owned_not_free. }
  destruct (pages_map m1 pt M vpn ppn perm true pt' m') as (Hnone & Hg' & Hx);
    [done|done|done|rewrite Hiff; naive_solver|by apply (pg_mem Hg)|done| |done|].
  { intros v i Hvi <-. destruct (pg_frame Hg v i Hvi) as (? & _). done. }
  split_and!; [done|done|done| | |].
  - intros f i Hf. rewrite (x_byte Hx) by (rewrite Hiff; naive_solver).
    rewrite Hbyte, decide_False by congruence. done.
  - intros i. rewrite (x_byte Hx) by (rewrite Hiff; naive_solver).
    by rewrite Hbyte, decide_True.
  - intros f. rewrite (x_free Hx), Hiff. naive_solver.
Qed.

(** Unmapping one page; its frame stays allocated. *)
Lemma pages_unmap m pt M vpn pt' m' :
  pages_inv m pt M → 0 ≤ vpn < LOW_VPN_END → unmap m pt vpn = Ok (pt', m') →
  is_Some (M !! vpn) ∧ pages_inv m' pt' (delete vpn M) ∧ pt_extends m pt m' pt'.
Proof.
  intros Hg Hv Hu. destruct (low_in_half vpn Hv) as [Hh Hmod].
  destruct (unmap_spec 256 m pt vpn pt' m' (pg_pt Hg) (pg_mem Hg) Hh Hu)
    as (Hs & Hpt' & Hx & Hw).
  rewrite (pg_walk Hg _ Hv) in Hs. apply fmap_is_Some in Hs.
  split_and!; [done| |done]. split.
  - done.
  - eapply extends_mem_inv; [done|apply (pg_mem Hg)].
  - intros v. rewrite lookup_delete. case_decide; [naive_solver|]. apply (pg_low Hg).
  - intros v Hlv. destruct (low_in_half v Hlv) as [Hhv Hmv]. rewrite (x_root Hx), (Hw v Hhv).
    rewrite Hmv, Hmod, lookup_delete. repeat case_decide; simplify_eq; [done|].
    by apply (pg_walk Hg).
  - intros v i. rewrite lookup_delete. case_decide; [done|]. by apply (pages_frame_extends m pt M).
  - intros v1 i1 v2 i2. rewrite !lookup_delete. repeat case_decide; try done.
    by apply (pg_inj Hg).
Qed.

Lemma pages_unmap_total m pt M vpn :
  pages_inv m pt M → is_Some (M !! vpn) →
  ∃ m', unmap m pt vpn = Ok (pt, m') ∧ allocator m' = allocator m.
Proof.
  intros Hg HM. pose proof (pg_low Hg vpn HM) as Hv. destruct (low_in_half vpn Hv) as [Hh _].
  apply (unmap_total 256); [apply (pg_pt Hg)|done|].
  rewrite (pg_walk Hg _ Hv). by apply fmap_is_Some.
Qed.

(** Unmapping a list of mapped pages succeeds and removes just those. *)
Lemma unmap_pages_ok l m pt M :
  pages_inv m pt M → NoDup l → (∀ v, v ∈ l → is_Some (M !! v)) →
  ∃ m' M', unmap_pages m pt l = Ok (pt, m') ∧ pages_inv m' pt M' ∧
    (∀ v, M' !! v = if decide (v ∈ l) then None else M !! v) ∧
    allocator m' = allocator m ∧
    (∀ f i, ¬ is_free m f → byte_at m' f i = byte_at m f i).
Proof.
  revert m M. induction l as [|v l IH]; intros m M Hg Hnd Hl; simpl.
  { exists m, M. by split_and!. }
  apply NoDup_cons in Hnd as [Hv Hnd].
  destruct (pages_unmap_total m pt M v Hg) as (m1 & Hu & Hal); [set_solver|].
  destruct (pages_unmap m pt M v pt m1 Hg) as (_ & Hg1 & Hx);
    [apply (pg_low Hg), Hl; set_solver|done|].
  destruct (IH m1 (delete v M)) as (m' & M' & Hum & Hg' & HM' & Hal' & Hb'); [done|done| |].
  { intros w Hw. rewrite lookup_delete_ne by set_solver. set_solver. }
  rewrite Hu. simpl. rewrite Hum.
  assert (Hfr : ∀ f, is_free m1 f ↔ is_free m f) by (intros f; unfold is_free; by rewrite Hal).
  exists m', M'. split_and!; [done|done| |congruence|].
  - intros w. rewrite HM', lookup_delete. repeat case_decide; set_solver.
  - intros f i Hf. rewrite Hb' by by rewrite Hfr. by apply (x_byte Hx).
Qed.
(** Giving back frames that no page uses. *)
Lemma pages_drop l m pt M :
  pages_inv m pt M →
  (∀ f, f ∈ l → begin_ppn ≤ f < end_ppn ∧ f ∉ table_frames pt ∧
                ∀ v i, M !! v = Some i → pi_ppn i ≠ f) →
  ∃ m', Frames_drop m l = Ok m' ∧ pages_inv m' pt M ∧
    (∀ f, is_free m' f ↔ f ∈ l ∨ is_free m f) ∧ byte_mem m' = byte_mem m.
Proof.
  intros Hg Hl. destruct (Frames_drop_spec l m) as (m' & Hd & Hf & Hp & Hb).
  { intros f Hin. by apply Hl. }
  exists m'. split_and!; [done| |done|done].
  apply (pages_inv_frame m); [done| | | |].
  - intros f [Hin|Hin]%Hf; [by apply Hl|by apply (pg_mem Hg)].
  - intros f i _. unfold pte_at. by rewrite Hp.
  - intros f Hin [Hx|Hx]%Hf; [by destruct (Hl f Hx) as (_ & ? & _)|].
    destruct (pg_pt Hg) as [tree Ht]. by destruct (t_owned Ht f Hin).
  - intros v i Hv [Hx|Hx]%Hf; [by eapply (Hl _ Hx)|]. by destruct (pg_frame Hg v i Hv).
Qed.

(** ** Areas against the pages *)
Record area_inv (M : gmap Z page_info) (a : FramedVmArea) : Prop := {
  ai_range : 0 ≤ va_start a ≤ va_end a ∧ va_end a ≤ LOW_VPN_END;
  ai_perm : 0 ≤ a_perm a ≤ MapPermission.all;
  ai_unbacked v p : unbacked_map a !! v = Some p →
    va_start a ≤ v < va_end a ∧ M !! v = Some (mkPage p (leaf_flags (a_perm a)) true);
  ai_backed v : v ∈ backed_pages a →
    va_start a ≤ v < va_end a ∧ ∃ p, M !! v = Some (mkPage p (leaf_flags (a_perm a)) false);
  ai_only v i : va_start a ≤ v < va_end a → M !! v = Some i →
    if pi_owned i then unbacked_map a !! v = Some (pi_ppn i) else v ∈ backed_pages a;
  ai_type : match a_type a with
            | Lazy => backed_inode a = None ∧ backed_pages a = ∅
            | Mmap => unbacked_map a = ∅
            end;
}.
#[global] Arguments ai_range {M a}.
#[global] Arguments ai_perm {M a}.
#[global] Arguments ai_unbacked {M a}.
#[global] Arguments ai_backed {M a}.
#[global] Arguments ai_only {M a}.
#[global] Arguments ai_type {M a}.

Definition in_area (a : FramedVmArea) (v : Z) : Prop := va_start a ≤ v < va_end a.

Lemma area_inv_frame M M' a :
  area_inv M a → (∀ v, in_area a v → M' !! v = M !! v) → area_inv M' a.
Proof.
  intros Ha Heq. split.
  - apply (ai_range Ha).
  - apply (ai_perm Ha).
  - intros v p Hv. destruct (ai_unbacked Ha v p Hv) as [Hr HM]. by rewrite Heq.
  - intros v Hv. destruct (ai_backed Ha v Hv) as [Hr HM]. by rewrite Heq.
  - intros v i Hr. rewrite Heq by done. by apply (ai_only Ha).
  - apply (ai_type Ha).
Qed.

(** A new area over pages that are not mapped. *)
Lemma area_new_inv M s e perm ty :
  0 ≤ s ≤ e → e ≤ LOW_VPN_END → 0 ≤ perm ≤ MapPermission.all →
  (∀ v, s ≤ v < e → M !! v = None) → area_inv M (area_new s e perm ty).
Proof.
  intros. split; simpl; [lia|lia|done|done| |by destruct ty].
  intros v i Hv Hi. naive_solver.
Qed.

Lemma ensure_allocated_ok m pt M a v ppn a' pt' m' :
  pages_inv m pt M → area_inv M a → in_area a v →
  ensure_allocated m pt a v = Ok (ppn, a', pt', m') →
  ∃ M', pages_inv m' pt' M' ∧ area_inv M' a' ∧
    a' = with_unbacked a (unbacked_map a') ∧ unbacked_map a' !! v = Some ppn ∧
    (∀ w, w ≠ v → M' !! w = M !! w ∧ unbacked_map a' !! w = unbacked_map a !! w) ∧
    (∀ f, is_free m' f → is_free m f) ∧
    (∀ f i, ¬ is_free m f → byte_at m' f i = byte_at m f i) ∧
    (unbacked_map a !! v = None → is_free m ppn ∧ ∀ i, byte_at m' ppn i = 0).
Proof.
  intros Hg Ha Hv He. unfold ensure_allocated in He.
  apply bind_Ok in He as ([] & Hty%assert_Ok & He). apply bool_decide_eq_true in Hty.
  destruct (unbacked_map a !! v) as [p|] eqn:Hum.
  { inv_ok. exists M. destruct a'; simpl in *. split_and!; done. }
  inv_ok. edestruct (pages_alloc_map m pt M v (a_perm a) ppn)
    as (Hnone & Hfree & Hg' & Hb & Hz & Hf);
    [done|pose proof (ai_range Ha); unfold in_area in Hv; lia|apply (ai_perm Ha)|
     eassumption|eassumption|].
  exists (<[v := mkPage ppn (leaf_flags (a_perm a)) true]> M).
  split_and!; [done| |done|by rewrite lookup_insert_eq| | |done|done].
  - split; simpl.
    + apply (ai_range Ha).
    + apply (ai_perm Ha).
    + intros w p. rewrite !lookup_insert. case_decide; [naive_solver|]. apply (ai_unbacked Ha).
    + intros w Hw. pose proof (ai_type Ha) as Ht. rewrite Hty in Ht. set_solver.
    + intros w i Hw. rewrite !lookup_insert. case_decide; [naive_solver|]. by apply (ai_only Ha).
    + pose proof (ai_type Ha) as Ht. by rewrite Hty in Ht |- *.
  - intros w Hw. by rewrite !lookup_insert_ne.
  - intros f. rewrite Hf. naive_solver.
Qed.
(** What a lazy allocation does outside its page: the new tables come from the
    free frames, and no other frame in use changes its entries. *)
Lemma ensure_allocated_extends m pt M a v ppn a' pt' m' :
  pages_inv m pt M → area_inv M a → in_area a v → unbacked_map a !! v = None →
  ensure_allocated m pt a v = Ok (ppn, a', pt', m') →
  (∀ f, f ∈ table_frames pt' → f ∈ table_frames pt ∨ is_free m f) ∧
  (∀ f i, f ∉ table_frames pt → ¬ is_free m f → pte_at m' f i = pte_at m f i).
Proof.
  intros Hg Ha Hv Hum He. unfold ensure_allocated in He. rewrite Hum in He.
  apply bind_Ok in He as ([] & _ & He). apply bind_Ok in He as ([o m1] & Hal & He).
  apply bind_Ok in He as (p & ->%unwrap_Ok & He).
  apply bind_Ok in He as ([pt1 m2] & Hmap & [= <- <- <- <-]).
  destruct (Frame_alloc_spec _ _ _ Hal) as (Hfree & Hiff & Hpte & _).
  pose proof (pages_alloc _ _ _ _ _ Hg Hal) as Hg1.
  assert (Hlow : 0 ≤ v < LOW_VPN_END) by (pose proof (ai_range Ha); unfold in_area in Hv; lia).
  assert (Hp : 0 ≤ p < 2 ^ 44).
  { pose proof (pg_mem Hg p Hfree). pose proof begin_ppn_bound. rewrite end_ppn_eq in *. lia. }
  destruct (map_spec 256 m1 pt v p _ pt1 m2 (pg_pt Hg1) (pg_mem Hg1)
    (proj1 (low_in_half v Hlow)) Hp (proj2 (perm_flags _ (ai_perm Ha))) Hmap) as (_ & _ & Hx & _).
  unfold table_frames. rewrite (x_root Hx). split.
  - intros f [->|Hf]%elem_of_cons; [left; apply elem_of_cons; by left|].
    apply (x_frames Hx) in Hf as [?|[? _]%Hiff]; [left; apply elem_of_cons; by right|by right].
  - intros f i Hf Hnf. rewrite (x_pte Hx).
    + rewrite Hpte, decide_False by congruence. done.
    + rewrite elem_of_cons in Hf |- *. intros [?|[?|[? _]%Hiff]%(x_frames Hx)]; tauto.
Qed.

Lemma lazy_page M a v i :
  area_inv M a → a_type a = Lazy → in_area a v → M !! v = Some i →
  unbacked_map a !! v = Some (pi_ppn i).
Proof.
  intros Ha Hty Hv Hi. pose proof (ai_only Ha v i Hv Hi) as Hon.
  destruct (pi_owned i); [done|]. pose proof (ai_type Ha) as Ht. rewrite Hty in Ht. set_solver.
Qed.

(** Lazy allocation succeeds when three frames are free: the page itself and at
    most two tables. *)
Lemma ensure_allocated_total m pt M a v :
  pages_inv m pt M → area_inv M a → in_area a v → a_type a = Lazy →
  (3 ≤ free_count m)%nat →
  ∃ ppn a' pt' m', ensure_allocated m pt a v = Ok (ppn, a', pt', m') ∧
    (free_count m ≤ free_count m' + 3)%nat.
Proof.
  intros Hg Ha Hv Hty Hc. unfold ensure_allocated. rewrite bool_decide_eq_true_2 by done. simpl.
  destruct (unbacked_map a !! v) as [p|] eqn:Hum.
  { eexists _, _, _, _. split; [done|]. lia. }
  destruct (Frame_alloc_total m (pg_mem Hg) ltac:(lia)) as (ppn & m1 & Hal & Hcnt).
  rewrite Hal. simpl. pose proof (pages_alloc _ _ _ _ _ Hg Hal) as Hg1.
  assert (Hlow : 0 ≤ v < LOW_VPN_END) by (pose proof (ai_range Ha); unfold in_area in Hv; lia).
  assert (HM : M !! v = None).
  { destruct (M !! v) as [i|] eqn:Hi; [|done].
    rewrite (lazy_page M a v i) in Hum by done. done. }
  destruct (map_total 256 m1 pt v ppn (PTEFlags.from_perm (a_perm a)))
    as (pt' & m' & Hmap & Hc'); [apply (pg_pt Hg1)|apply (pg_mem Hg1)|by apply low_in_half|lia| |].
  { rewrite (pg_walk Hg1 v Hlow). by rewrite HM. }
  rewrite Hmap. simpl. eexists _, _, _, _. split; [done|]. lia.
Qed.

Lemma elem_of_frames_of (um : gmap Z Z) f : f ∈ frames_of um ↔ ∃ v, um !! v = Some f.
Proof.
  unfold frames_of. rewrite list_elem_of_fmap. split.
  - intros ([v g] & -> & Hin). rewrite elem_of_btree_iter in Hin. eauto.
  - intros [v Hv]. exists (v, f). by rewrite elem_of_btree_iter.
Qed.

Lemma elem_of_set_iter s v : v ∈ set_iter s ↔ v ∈ s.
Proof. unfold set_iter. rewrite merge_sort_Permutation. apply elem_of_elements. Qed.

(** Unmapping the pages [l] of an area and dropping the frames of the part [um]
    of its pages that are among [l]. *)
Lemma unmap_drop_ok m pt M a um l :
  pages_inv m pt M → area_inv M a → um ⊆ unbacked_map a → NoDup l →
  (∀ v, v ∈ l → is_Some (M !! v)) → (∀ v, is_Some (um !! v) → v ∈ l) →
  ∃ m1 m' M', unmap_pages m pt l = Ok (pt, m1) ∧ Frames_drop m1 (frames_of um) = Ok m' ∧
    pages_inv m' pt M' ∧ (∀ v, M' !! v = if decide (v ∈ l) then None else M !! v) ∧
    (∀ f, is_free m' f ↔ f ∈ frames_of um ∨ is_free m f) ∧
    (∀ f i, ¬ is_free m f → byte_at m' f i = byte_at m f i).
Proof.
  intros Hg Ha Hsub Hnd Hl Hum.
  destruct (unmap_pages_ok l m pt M Hg Hnd Hl) as (m1 & M' & Hu & Hg1 & HM' & Hal & Hb).
  assert (Hfr : ∀ f, is_free m1 f ↔ is_free m f) by (intros f; unfold is_free; by rewrite Hal).
  destruct (pages_drop (frames_of um) m1 pt M' Hg1) as (m' & Hd & Hg' & Hf & Hby).
  { intros f [v Hv]%elem_of_frames_of.
    pose proof (lookup_weaken _ _ _ _ Hv Hsub) as Hva.
    destruct (ai_unbacked Ha v f Hva) as [_ HM].
    destruct (pg_frame Hg v _ HM) as (_ & Hr & Ht). simpl in *.
    split_and!; [lia|lia|done|]. intros w i Hw Heq.
    rewrite HM' in Hw. case_decide as Hd; [done|].
    pose proof (pg_inj Hg v _ w i HM Hw eq_refl ltac:(by rewrite Heq)) as ->.
    apply Hd, Hum. eauto. }
  exists m1, m', M'. split_and!; [done|done|done|done| |].
  - intros f. by rewrite Hf, Hfr.
  - intros f i Hnf. rewrite <- Hb by done. unfold byte_at. by rewrite Hby.
Qed.

Lemma area_unmap_ok m pt M a :
  pages_inv m pt M → area_inv M a →
  ∃ a' m' M', area_unmap m pt a = Ok (a', pt, m') ∧ pages_inv m' pt M' ∧
    a' = mkArea (va_start a) (va_end a) (a_perm a) (a_type a) ∅ None ∅ 0 ∧
    (∀ v, M' !! v = if decide (in_area a v) then None else M !! v) ∧
    (∀ f, is_free m' f ↔ f ∈ frames_of (unbacked_map a) ∨ is_free m f) ∧
    (∀ f i, ¬ is_free m f → byte_at m' f i = byte_at m f i).
Proof.
  intros Hg Ha. unfold area_unmap.
  assert (Hkeys : ∀ v, v ∈ btree_keys (unbacked_map a) ++ set_iter (backed_pages a) ↔
            in_area a v ∧ is_Some (M !! v)).
  { intros v. rewrite elem_of_app, elem_of_btree_keys, elem_of_set_iter. split.
    - intros [[p Hp]|Hp]; [destruct (ai_unbacked Ha v p Hp) as [? ->]; eauto|].
      destruct (ai_backed Ha v Hp) as [? [p ->]]. eauto.
    - intros [Hin [i Hi]]. pose proof (ai_only Ha v i Hin Hi). destruct (pi_owned i); eauto. }
  destruct (unmap_drop_ok m pt M a (unbacked_map a)
    (btree_keys (unbacked_map a) ++ set_iter (backed_pages a)) Hg Ha)
    as (m1 & m' & M' & Hu & Hd & Hg' & HM' & Hf & Hb); [done| | | |].
  - apply NoDup_app. split_and!; [apply btree_keys_nodup| |].
    + intros v [p Hp]%elem_of_btree_keys Hbk%elem_of_set_iter.
      destruct (ai_unbacked Ha v p Hp) as [_ ?]. destruct (ai_backed Ha v Hbk) as [_ [q ?]].
      congruence.
    + unfold set_iter. rewrite merge_sort_Permutation. apply NoDup_elements.
  - intros v. rewrite Hkeys. tauto.
  - intros v Hv. rewrite elem_of_app, elem_of_btree_keys. by left.
  - rewrite Hu. simpl. rewrite Hd. simpl. eexists _, m', M'.
    split_and!; [done|done|done| |done|done].
    intros v. rewrite HM'. repeat case_decide; rewrite Hkeys in *; try done; [naive_solver|].
    destruct (M !! v) eqn:E; [|done]. naive_solver.
Qed.

Lemma shrink_ok m pt M a new_end :
  pages_inv m pt M → area_inv M a → a_type a = Lazy →
  va_start a ≤ new_end ≤ va_end a →
  ∃ a' m' M', shrink m pt a new_end = Ok (a', pt, m') ∧ pages_inv m' pt M' ∧
    area_inv M' a' ∧ va_start a' = va_start a ∧ va_end a' = new_end ∧
    a_perm a' = a_perm a ∧
    (∀ v, M' !! v = if decide (new_end ≤ v < va_end a) then None else M !! v) ∧
    (∀ f, is_free m' f ↔ is_free m f ∨
       ∃ v, new_end ≤ v ∧ unbacked_map a !! v = Some f) ∧
    (∀ f i, ¬ is_free m f → byte_at m' f i = byte_at m f i).
Proof.
  intros Hg Ha Hty Hr. unfold shrink. rewrite bool_decide_eq_true_2 by done. simpl.
  pose proof (ai_type Ha) as Ht. rewrite Hty in Ht. destruct Ht as [Hbi Hbp].
  pose proof (lookup_split_off_1 (unbacked_map a) new_end) as Hk.
  pose proof (lookup_split_off_2 (unbacked_map a) new_end) as Hs.
  unfold btree_split_off in Hk, Hs. simpl in Hk, Hs.
  set (keep := filter (λ e, ¬ new_end ≤ e.1) (unbacked_map a)) in *.
  set (split := filter (λ e, new_end ≤ e.1) (unbacked_map a)) in *.
  destruct (unmap_drop_ok m pt M a split (btree_keys split) Hg Ha)
    as (m1 & m' & M' & Hu & Hd & Hg' & HM' & Hf & Hb); [apply map_filter_subseteq| | | |].
  - apply btree_keys_nodup.
  - intros v [p Hp]%elem_of_btree_keys. rewrite Hs in Hp. case_decide; [|done].
    destruct (ai_unbacked Ha v p Hp) as [_ ->]. eauto.
  - intros v Hv. by apply elem_of_btree_keys.
  - rewrite Hu. simpl. rewrite Hd. simpl.
    assert (HM2 : ∀ v, M' !! v = if decide (new_end ≤ v < va_end a) then None else M !! v).
    { intros v. rewrite HM'. destruct (decide (new_end ≤ v < va_end a)) as [Hin|Hin].
      - case_decide as Hn; [done|]. destruct (M !! v) as [i|] eqn:Hi; [|done].
        destruct Hn. rewrite elem_of_btree_keys, Hs, decide_True by lia.
        exists (pi_ppn i). eapply lazy_page; [done..| |done]. unfold in_area. lia.
      - rewrite decide_False; [done|]. rewrite elem_of_btree_keys, Hs. intros [p Hp].
        case_decide; [|done]. destruct (ai_unbacked Ha v p Hp). lia. }
    eexists _, m', M'. split_and!; [done|done| |done|done|done|done| |done].
    + pose proof (ai_range Ha). split; simpl; [lia|apply (ai_perm Ha)| | | |].
      * intros v p. rewrite Hk, HM2. case_decide; [done|]. intros Hv.
        destruct (ai_unbacked Ha v p Hv). rewrite decide_False by lia. split; [lia|done].
      * intros v. rewrite Hbp. set_solver.
      * intros v i Hv. rewrite HM2, decide_False, Hk, decide_False by lia.
        apply (ai_only Ha). lia.
      * by rewrite Hty.
    + intros f. rewrite Hf, elem_of_frames_of. setoid_rewrite Hs.
      split; [intros [[v Hv]|?]|intros [?|(v & ? & Hv)]]; [|by left|by right|].
      * case_decide; [|done]. right. eauto.
      * left. exists v. by rewrite decide_True.
Qed.
(** *** Loading data *)

(** Byte [k] of an area that is loaded with [data] from offset [off0] on. *)
Definition image_byte (data : list Z) (off0 k : Z) : Z :=
  if k <? off0 then 0 else default 0 (data !! Z.to_nat (k - off0)).

(** The bytes of the data that go to the page [n] of the area are the ones the
    loop copies there. *)
Lemma image_byte_page data off0 n i start po :
  0 ≤ off0 < PAGE_SIZE → 0 ≤ n → 0 ≤ i < PAGE_SIZE →
  po = (if n =? 0 then off0 else 0) →
  start = Z.min (Z.of_nat (length data)) (Z.max 0 (n * PAGE_SIZE - off0)) →
  image_byte data off0 (n * PAGE_SIZE + i) =
    let chunk := take (Z.to_nat (Z.min (Z.of_nat (length data) - start) (PAGE_SIZE - po)))
                   (drop (Z.to_nat start) data) in
    if decide (po ≤ i < po + Z.of_nat (length chunk))
    then default 0 (chunk !! Z.to_nat (i - po)) else 0.
Proof.
  intros Hoff Hn Hi Hpo Hst. unfold image_byte. rewrite PAGE_SIZE_eq in *.
  cbv zeta. rewrite length_take, length_drop.
  destruct (Z.ltb_spec (n * 4096 + i) off0) as [Hlt|Hge].
  { rewrite decide_False; [done|]. destruct (Z.eqb_spec n 0); lia. }
  destruct (decide (n * 4096 + i - off0 < Z.of_nat (length data))) as [Hin|Hout].
  - rewrite decide_True by (destruct (Z.eqb_spec n 0); lia).
    rewrite lookup_take_lt, lookup_drop by (destruct (Z.eqb_spec n 0); lia).
    do 2 f_equal. destruct (Z.eqb_spec n 0); lia.
  - rewrite lookup_ge_None_2 by lia. rewrite decide_False; [done|].
    destruct (Z.eqb_spec n 0); lia.
Qed.

Lemma write_bytes_pages m pt M p off bs :
  pages_inv m pt M → pages_inv (write_bytes m p off bs) pt M.
Proof.
  intros Hg. destruct (write_bytes_frame m p off bs) as [Hal Hp].
  apply (pages_inv_frame m); [done| | | |].
  - intros f. unfold is_free. rewrite Hal. apply (pg_mem Hg).
  - intros f i _. unfold pte_at. by rewrite Hp.
  - intros f Hf. unfold is_free. rewrite Hal. destruct (pg_pt Hg) as [tree Ht].
    by apply (t_owned Ht f Hf).
  - intros v i Hv. unfold is_free. rewrite Hal. by apply (pg_frame Hg v i Hv).
Qed.

(** One turn of the loop: the page [cur] gets a fresh frame. *)
Lemma load_page m pt M a cur ppn m1 pt1 m2 :
  pages_inv m pt M → area_inv M a → in_area a cur → M !! cur = None → a_type a = Lazy →
  Frame_alloc m = Ok (Some ppn, m1) →
  map m1 pt cur ppn (PTEFlags.from_perm (a_perm a)) = Ok (pt1, m2) →
  let M1 := <[cur := mkPage ppn (leaf_flags (a_perm a)) true]> M in
  let a1 := with_unbacked a (<[cur := ppn]> (unbacked_map a)) in
  pages_inv m2 pt1 M1 ∧ area_inv M1 a1 ∧ is_free m ppn ∧
  (∀ f i, ¬ is_free m f → byte_at m2 f i = byte_at m f i) ∧
  (∀ i, byte_at m2 ppn i = 0) ∧ (∀ f, is_free m2 f ↔ is_free m f ∧ f ≠ ppn ∧ f ∉ pt_frames pt1).
Proof.
  intros Hg Ha Hv HM Hty Hal Hmap M1 a1.
  assert (Hum : unbacked_map a !! cur = None).
  { destruct (unbacked_map a !! cur) as [p|] eqn:E; [|done].
    destruct (ai_unbacked Ha cur p E). congruence. }
  assert (He : ensure_allocated m pt a cur = Ok (ppn, a1, pt1, m2)).
  { unfold ensure_allocated. rewrite bool_decide_eq_true_2 by done. simpl.
    rewrite Hum, Hal. simpl. by rewrite Hmap. }
  edestruct (pages_alloc_map m pt M cur (a_perm a) ppn) as (_ & Hfree & Hg' & Hb & Hz & Hf);
    [done|pose proof (ai_range Ha); unfold in_area in Hv; lia|apply (ai_perm Ha)|exact Hal|exact Hmap|].
  split_and!; [done| |done|done|done|done].
  destruct (ensure_allocated_ok m pt M a cur ppn a1 pt1 m2 Hg Ha Hv He)
    as (M' & Hg2 & Ha2 & _ & Hu2 & Hw & _).
  apply (area_inv_frame M'); [done|]. intros v Hva. unfold M1.
  rewrite lookup_insert. case_decide; [subst v|symmetry; by apply Hw].
  destruct (ai_unbacked Ha2 _ _ Hu2) as [_ ->]. done.
Qed.
Lemma map_with_data_loop_ok n data off0 m pt M a cur start po a' pt' m' :
  pages_inv m pt M → area_inv M a → a_type a = Lazy → 0 ≤ off0 < PAGE_SIZE →
  va_start a ≤ cur → cur + Z.of_nat n = va_end a →
  (∀ v, cur ≤ v < va_end a → M !! v = None) →
  po = (if cur - va_start a =? 0 then off0 else 0) →
  start = Z.min (Z.of_nat (length data)) (Z.max 0 ((cur - va_start a) * PAGE_SIZE - off0)) →
  map_with_data_loop m pt a data po start (seqZ cur (Z.of_nat n)) = Ok (a', pt', m') →
  ∃ M', pages_inv m' pt' M' ∧ area_inv M' a' ∧ a' = with_unbacked a (unbacked_map a') ∧
    (∀ v, v < cur ∨ va_end a ≤ v → M' !! v = M !! v ∧ unbacked_map a' !! v = unbacked_map a !! v) ∧
    (∀ f i, ¬ is_free m f → byte_at m' f i = byte_at m f i) ∧
    (∀ f, is_free m' f → is_free m f) ∧
    (∀ v, cur ≤ v < va_end a → ∃ p, unbacked_map a' !! v = Some p ∧ is_free m p ∧
       ∀ i, 0 ≤ i < PAGE_SIZE →
         byte_at m' p i = image_byte data off0 ((v - va_start a) * PAGE_SIZE + i)).
Proof.
  revert m pt M a cur start po.
  induction n as [|n IH]; intros m pt M a cur start po Hg Ha Hty Hoff Hcur Hend Hnone Hpo Hst Hl.
  { simpl in Hl. inv_ok. exists M. destruct a'. split_and!; try done. intros v Hv; lia. }
  rewrite (seqZ_cons cur) in Hl by lia.
  replace (Z.pred (Z.of_nat (S n))) with (Z.of_nat n) in Hl by lia. simpl in Hl.
  apply bind_Ok in Hl as ([o m1] & Hal & Hl). apply bind_Ok in Hl as (ppn & ->%unwrap_Ok & Hl).
  assert (Hum : unbacked_map a !! cur = None).
  { destruct (unbacked_map a !! cur) as [p|] eqn:E; [|done].
    destruct (ai_unbacked Ha cur p E). rewrite Hnone in *; [done|lia]. }
  rewrite Hum in Hl. simpl in Hl. apply bind_Ok in Hl as ([pt1 m2] & Hmap & Hl).
  apply bind_Ok in Hl as (rest & [<- _]%checked_Ok & Hl).
  apply bind_Ok in Hl as (room & [<- _]%checked_Ok & Hl).
  destruct (load_page m pt M a cur ppn m1 pt1 m2) as (Hg2 & Ha2 & Hfree & Hb2 & Hz2 & Hf2);
    [done|done|unfold in_area; lia|apply Hnone; lia|done|done|done|].
  set (M1 := <[cur := _]> M) in *. set (a1 := with_unbacked a _) in *.
  set (chunk := take _ _) in Hl. set (m3 := write_bytes m2 ppn po chunk) in Hl.
  destruct (write_bytes_frame m2 ppn po chunk) as [Hal3 _].
  assert (Hf3 : ∀ f, is_free m3 f ↔ is_free m2 f) by (intros f; unfold is_free, m3; by rewrite Hal3).
  assert (Hb3 : ∀ f i, f ≠ ppn → byte_at m3 f i = byte_at m2 f i).
  { intros f i Hne. unfold m3. rewrite byte_at_write_bytes, decide_False by naive_solver. done. }
  destruct (IH m3 pt1 M1 a1 (cur + 1) (start + Z.min (Z.of_nat (length data) - start) (PAGE_SIZE - po)) 0)
    as (M' & Hg' & Ha' & Heq & Hout & Hb' & Hf' & Hin); simpl;
    [by apply write_bytes_pages|done|done|done|lia|lia| | | |exact Hl|].
  { intros v Hv. unfold M1. rewrite lookup_insert_ne by lia. apply Hnone. lia. }
  { rewrite (proj2 (Z.eqb_neq _ _)) by lia. done. }
  { rewrite Hst, Hpo. rewrite PAGE_SIZE_eq in *. destruct (Z.eqb_spec (cur - va_start a) 0); lia. }
  exists M'. split_and!; [done|done|by rewrite Heq| | | |].
  - intros v Hv. destruct (Hout v) as [-> ->]; [simpl; lia|]. unfold M1, a1. simpl.
    rewrite !lookup_insert_ne by (simpl in *; lia). done.
  - intros f i Hf. rewrite Hb' by (rewrite Hf3, Hf2; naive_solver).
    rewrite Hb3 by congruence. by apply Hb2.
  - intros f Hf. apply Hf', Hf3, Hf2 in Hf. by destruct Hf.
  - intros v Hv. destruct (decide (v = cur)) as [->|Hne]; cycle 1.
    { destruct (Hin v) as (p & Hp & Hpf & Hpb); [simpl; lia|].
      exists p. apply Hf3, Hf2 in Hpf as [? _]. done. }
    destruct (Hout cur) as [_ Hu]; [simpl; lia|]. unfold a1 in Hu. simpl in Hu.
    rewrite lookup_insert_eq in Hu. exists ppn. split_and!; [done|done|].
    intros i Hi. rewrite Hb' by (rewrite Hf3, Hf2; naive_solver).
    rewrite (image_byte_page data off0 (cur - va_start a) i start po) by (done || lia).
    unfold m3. rewrite byte_at_write_bytes. fold chunk. cbv zeta.
    destruct (decide (po ≤ i < po + Z.of_nat (length chunk))).
    + by rewrite decide_True.
    + rewrite decide_False by naive_solver. apply Hz2.
Qed.

(** [map_with_data] on a fresh area: every page of the area is mapped, and the
    area holds the data from the given offset on, zeroes elsewhere. *)
Lemma map_with_data_ok m pt M a data off0 a' pt' m' :
  pages_inv m pt M → area_inv M a → a_type a = Lazy → 0 ≤ off0 < PAGE_SIZE →
  (∀ v, in_area a v → M !! v = None) →
  map_with_data m pt a data off0 = Ok (a', pt', m') →
  ∃ M', pages_inv m' pt' M' ∧ area_inv M' a' ∧ a' = with_unbacked a (unbacked_map a') ∧
    (∀ v, ¬ in_area a v → M' !! v = M !! v) ∧
    (∀ f i, ¬ is_free m f → byte_at m' f i = byte_at m f i) ∧
    (∀ f, is_free m' f → is_free m f) ∧
    (∀ v, in_area a v → ∃ p, unbacked_map a' !! v = Some p ∧ is_free m p ∧
       ∀ i, 0 ≤ i < PAGE_SIZE →
         byte_at m' p i = image_byte data off0 ((v - va_start a) * PAGE_SIZE + i)).
Proof.
  intros Hg Ha Hty Hoff Hnone Hl. unfold map_with_data in Hl.
  apply bind_Ok in Hl as (n & _ & Hl). apply bind_Ok in Hl as (len & _ & Hl).
  apply bind_Ok in Hl as ([] & _ & Hl). pose proof (ai_range Ha) as Hr.
  rewrite range_seqZ in Hl by (unfold_config; lia).
  replace (va_end a - va_start a) with (Z.of_nat (Z.to_nat (va_end a - va_start a))) in Hl by lia.
  destruct (map_with_data_loop_ok (Z.to_nat (va_end a - va_start a)) data off0 m pt M a
    (va_start a) 0 off0 a' pt' m') as (M' & Hg' & Ha' & Heq & Hout & Hb & Hf & Hin);
    [done|done|done|done|lia|lia|done|by rewrite Z.sub_diag|lia|exact Hl|].
  exists M'. split_and!; [done|done|done| |done|done|done].
  intros v Hv. apply Hout. unfold in_area in Hv. lia.
Qed.
(** *** File mappings *)

(** A frame of the page cache may be mapped: it is in use, and no page of the
    space owns it. *)
Definition cache_frame (m : Mem) (pt : PageTable) (M : gmap Z page_info) (p : Z) : Prop :=
  ¬ is_free m p ∧ begin_ppn ≤ p < end_ppn ∧ p ∉ table_frames pt ∧
  ∀ v i, M !! v = Some i → pi_ppn i = p → pi_owned i = false.

Lemma cache_frame_map m pt M m1 pt1 v0 p fl p' :
  pt_extends m pt m1 pt1 → cache_frame m pt M p' →
  cache_frame m1 pt1 (<[v0 := mkPage p fl false]> M) p'.
Proof.
  intros Hx1 (Hnf' & Hr' & Htf' & Hown'). split_and!; [rewrite (x_free Hx1); naive_solver|lia|lia| |].
  - unfold table_frames in *. rewrite (x_root Hx1). rewrite !elem_of_cons in *.
    intros [?|[?|?]%(x_frames Hx1)]; naive_solver.
  - intros v i. rewrite lookup_insert. case_decide; [naive_solver|]. apply Hown'.
Qed.

Lemma map_cached_ok l m pt M a id0 pages pages' pt' m' :
  pages_inv m pt M → 0 ≤ va_start a → va_end a ≤ LOW_VPN_END →
  0 ≤ a_perm a ≤ MapPermission.all →
  (∀ id p, (id, p) ∈ l → id0 ≤ id < id0 + (va_end a - va_start a) ∧ cache_frame m pt M p) →
  map_cached m pt a id0 l pages = Ok (pages', pt', m') →
  ∃ M', pages_inv m' pt' M' ∧
    (∀ v, v ∈ pages' ↔ v ∈ pages ∨ ∃ e, e ∈ l ∧ v = va_start a + (e.1 - id0)) ∧
    (∀ e, e ∈ l → M' !! (va_start a + (e.1 - id0)) = Some (mkPage e.2 (leaf_flags (a_perm a)) false)) ∧
    (∀ v, (∀ e, e ∈ l → v ≠ va_start a + (e.1 - id0)) → M' !! v = M !! v) ∧
    pt_extends m pt m' pt' ∧ (∀ v i, M !! v = Some i → M' !! v = Some i).
Proof.
  revert m pt M pages. induction l as [|[id p] l IH]; intros m pt M pages Hg Hs He Hperm Hl Hmc.
  { simpl in Hmc. inv_ok. exists M. split_and!; [done| |by intros e ?%not_elem_of_nil|done| |done].
    - intros v. split; [by left|]. by intros [?|(e & ?%not_elem_of_nil & _)].
    - eapply pt_extends_refl, (pg_pt Hg). }
  simpl in Hmc. apply bind_Ok in Hmc as (off & [<- _]%checked_Ok & Hmc).
  apply bind_Ok in Hmc as (vpn & [<- _]%checked_Ok & Hmc).
  apply bind_Ok in Hmc as ([pt1 m1] & Hmap & Hmc).
  destruct (Hl id p) as [Hid (Hnf & Hr & Htf & Hown)]; [set_solver|].
  destruct (pages_map m pt M (va_start a + (id - id0)) p (a_perm a) false pt1 m1 Hg)
    as (Hnone & Hg1 & Hx1); [lia|done|done|done|done| |exact Hmap|].
  { intros v i Hv Hp. split; [done|]. by eapply Hown. }
  set (v0 := va_start a + (id - id0)) in *.
  destruct (IH m1 pt1 (<[v0 := mkPage p (leaf_flags (a_perm a)) false]> M) ({[v0]} ∪ pages))
    as (M' & Hg' & Hpg & Hin & Hout & Hx' & Hkeep); [done|done|done|done| |exact Hmc|].
  { intros id' p' Hin. destruct (Hl id' p') as [? ?]; [set_solver|]. split; [done|]. by eapply cache_frame_map. }
  exists M'. split_and!; [done| | | |by eapply pt_extends_trans|].
  - intros v. rewrite Hpg. set_solver.
  - intros e [->|Hel]%elem_of_cons; [|by apply Hin]. simpl. fold v0.
    apply Hkeep. by rewrite lookup_insert_eq.
  - intros v Hv. rewrite Hout by set_solver. rewrite lookup_insert_ne; [done|].
    intros <-. apply (Hv (id, p)); [set_solver|done].
  - intros v i Hv. apply Hkeep. rewrite lookup_insert_ne; [done|]. congruence.
Qed.

(** Two free frames for each page are enough. *)
Lemma map_cached_total l m pt M a id0 pages :
  pages_inv m pt M → 0 ≤ va_start a → va_end a ≤ LOW_VPN_END →
  0 ≤ a_perm a ≤ MapPermission.all → NoDup l.*1 →
  (∀ id p, (id, p) ∈ l → id0 ≤ id < id0 + (va_end a - va_start a) ∧ cache_frame m pt M p ∧
     M !! (va_start a + (id - id0)) = None) →
  (2 * length l ≤ free_count m)%nat →
  ∃ pages' pt' m', map_cached m pt a id0 l pages = Ok (pages', pt', m') ∧
    (free_count m ≤ free_count m' + 2 * length l)%nat.
Proof.
  revert m pt M pages. induction l as [|[id p] l IH]; intros m pt M pages Hg Hs He Hperm Hnd Hl Hfc.
  { eexists _, _, _. split; [done|]. lia. }
  simpl in Hnd, Hfc. apply NoDup_cons in Hnd as [Hid0 Hnd].
  destruct (Hl id p) as (Hid & (Hnf & Hr & Htf & Hown) & Hnone); [set_solver|].
  set (v0 := va_start a + (id - id0)) in *. rewrite LOW_VPN_END_eq in He.
  assert (Hlow : 0 ≤ v0 < LOW_VPN_END) by (rewrite LOW_VPN_END_eq; lia).
  destruct (map_total 256 m pt v0 p (PTEFlags.from_perm (a_perm a))) as (pt1 & m1 & Hmap & Hc1);
    [apply (pg_pt Hg)|apply (pg_mem Hg)|by apply low_in_half|lia|by rewrite (pg_walk Hg v0 Hlow), Hnone|].
  destruct (pages_map m pt M v0 p (a_perm a) false pt1 m1 Hg) as (_ & Hg1 & Hx1); [done..| |exact Hmap|].
  { intros v i Hv Hp. split; [done|]. by eapply Hown. }
  destruct (IH m1 pt1 (<[v0 := mkPage p (leaf_flags (a_perm a)) false]> M) ({[v0]} ∪ pages))
    as (pages' & pt' & m' & Hmc & Hc'); [done|done|by rewrite LOW_VPN_END_eq|done|done| |lia|].
  { intros id' p' Hin. destruct (Hl id' p') as (? & ? & ?); [set_solver|].
    split; [done|]. split; [by eapply cache_frame_map|]. rewrite lookup_insert_ne; [done|].
    intros Heq. apply Hid0. assert (id' = id) as -> by lia. by apply (list_elem_of_fmap_2 fst l (id, p')). }
  exists pages', pt', m'. split; [|simpl; lia]. cbn [map_cached]. unfold usub, uadd, VirtPageNum.add.
  rewrite checked_fits by lia. cbn [mbind outcome_bind]. unfold uadd. fold v0.
  rewrite checked_fits by lia. cbn [mbind outcome_bind]. rewrite Hmap. exact Hmc.
Qed.

(** The pages of the file that the cache has for an area. *)
Definition cached_in (caches : PageCaches) (inode : BackedInode) (id0 n : Z) : list (Z * Z) :=
  filter (λ e, e.1 < id0 + n) (btree_from (caches inode) id0).
Lemma elem_of_cached_in caches inode id0 n id p :
  (id, p) ∈ cached_in caches inode id0 n ↔ caches inode !! id = Some p ∧ id0 ≤ id < id0 + n.
Proof. unfold cached_in. rewrite list_elem_of_filter, elem_of_btree_from. simpl. intuition lia. Qed.
Lemma init_backed_inode_total caches m pt M s e perm inode id0 :
  pages_inv m pt M → 0 ≤ s ≤ e → e ≤ LOW_VPN_END → 0 ≤ perm ≤ MapPermission.all →
  0 ≤ id0 → id0 + (e - s) < 2 ^ 64 →
  (∀ v, s ≤ v < e → M !! v = None) →
  (∀ id p, caches inode !! id = Some p → cache_frame m pt M p) →
  (2 * length (cached_in caches inode id0 (e - s)) ≤ free_count m)%nat →
  ∃ a' pt' m', init_backed_inode caches m pt (area_new s e perm Mmap) inode id0 = Ok (a', pt', m') ∧
    (free_count m ≤ free_count m' + 2 * length (cached_in caches inode id0 (e - s)))%nat.
Proof.
  intros Hg Hse He Hperm Hid Hid2 Hnone Hc Hfc.
  destruct (map_cached_total (cached_in caches inode id0 (e - s)) m pt M (area_new s e perm Mmap) id0 ∅)
    as (pages' & pt' & m' & Hmc & Hc'); [done|simpl; lia|done|done| | |done|].
  - unfold cached_in. apply filter_keys_nodup, btree_from_nodup.
  - intros id p [Hp Hr]%elem_of_cached_in. simpl. split; [done|]. split; [by eapply Hc|]. apply Hnone. lia.
  - eexists _, _, _. split; [|exact Hc']. unfold init_backed_inode, usub, uadd. cbn [va_start va_end area_new].
    rewrite LOW_VPN_END_eq in He. rewrite checked_fits by lia. cbn [mbind outcome_bind]. rewrite checked_fits by lia.
    cbn [mbind outcome_bind]. fold (cached_in caches inode id0 (e - s)). cbn [backed_pages area_new]. by rewrite Hmc.
Qed.

(** [init_backed_inode] on a fresh file-mapping area: the cached pages of the
    file are mapped at their place in the area, and nothing else changes. *)
Lemma init_backed_inode_ok caches m pt M s e perm inode id0 a' pt' m' :
  pages_inv m pt M → 0 ≤ s ≤ e → e ≤ LOW_VPN_END → 0 ≤ perm ≤ MapPermission.all →
  (∀ v, s ≤ v < e → M !! v = None) →
  (∀ id p, caches inode !! id = Some p → cache_frame m pt M p) →
  init_backed_inode caches m pt (area_new s e perm Mmap) inode id0 = Ok (a', pt', m') →
  ∃ M', pages_inv m' pt' M' ∧ area_inv M' a' ∧ va_start a' = s ∧ va_end a' = e ∧
    (∀ v, ¬ s ≤ v < e → M' !! v = M !! v) ∧
    (∀ v, s ≤ v < e → (λ i, pi_ppn i) <$> M' !! v = caches inode !! (id0 + (v - s))) ∧
    pt_extends m pt m' pt'.
Proof.
  intros Hg Hse He Hperm Hnone Hc Hi. unfold init_backed_inode in Hi. simpl in Hi.
  apply bind_Ok in Hi as (n & [<- _]%checked_Ok & Hi).
  apply bind_Ok in Hi as (last & [<- _]%checked_Ok & Hi).
  apply bind_Ok in Hi as ([[pages pt1] m1] & Hmc & [= <- <- <-]).
  set (l := filter _ _) in Hmc.
  assert (Hl : ∀ id p, (id, p) ∈ l ↔ caches inode !! id = Some p ∧ id0 ≤ id < id0 + (e - s)).
  { intros id p. unfold l. rewrite list_elem_of_filter, elem_of_btree_from. simpl. intuition lia. }
  destruct (map_cached_ok l m pt M (area_new s e perm Mmap) id0 ∅ pages pt1 m1)
    as (M' & Hg' & Hpg & Hin & Hout & Hx & _); [done|simpl; lia|done|done| |done|].
  { intros id p [Hp Hid]%Hl. split; [done|]. by eapply Hc. }
  simpl in *.
  assert (Hcase : ∀ v, s ≤ v < e →
            M' !! v = (λ p, mkPage p (leaf_flags perm) false) <$> caches inode !! (id0 + (v - s))).
  { intros v Hv. destruct (caches inode !! (id0 + (v - s))) as [p|] eqn:Hcp; simpl.
    - specialize (Hin (id0 + (v - s), p)). simpl in Hin.
      replace (s + (id0 + (v - s) - id0)) with v in Hin by lia. apply Hin, Hl. split; [done|lia].
    - rewrite Hout; [by apply Hnone|]. intros [id p] [Hp ?]%Hl ->. simpl in *.
      replace (id0 + (s + (id - id0) - s)) with id in Hcp by lia. congruence. }
  assert (Hpages : ∀ v, v ∈ pages → s ≤ v < e ∧ is_Some (caches inode !! (id0 + (v - s)))).
  { intros v [?|([id p] & [Hp ?]%Hl & ->)]%Hpg; [set_solver|]. simpl. split; [lia|].
    replace (id0 + (s + (id - id0) - s)) with id by lia. eauto. }
  exists M'. split_and!; [done| |done|done| | |done].
  - split; simpl; [lia|done|done| | |done].
    + intros v Hv. destruct (Hpages v Hv) as [Hr [p Hp]]. split; [done|].
      rewrite Hcase, Hp by done. by exists p.
    + intros v i Hv. rewrite Hcase by done. intros (p & Hp & ->)%fmap_Some. simpl.
      apply Hpg. right. exists (id0 + (v - s), p). simpl. split; [|lia]. apply Hl. split; [done|lia].
  - intros v Hv. apply Hout. intros [id p] [_ ?]%Hl ->. simpl in *. lia.
  - intros v Hv. rewrite Hcase by done. by destruct (caches inode !! _).
Qed.
End pages.
