(* ===== verification/MemorySpace.v ===== *)
(** * Address spaces ([libkernel::memory::memory_space])

    A [MemorySpace] is a page table and the ordered map of its user areas. The
    theorems show that every operation keeps the areas disjoint and in step with
    the page table, that a search for a free range returns one, that a page
    fault maps exactly one zeroed page, that unmapping releases what it removes,
    and that [fork]'s copy has the same contents on frames of its own. *)
From S2P Require Import Prelude BTree Address Defines FrameAllocator PageTable VmArea.

Record MemorySpace : Type := mkSpace {
  page_table : PageTable;
  user_areas : gmap Z FramedVmArea;
}.

(** The program headers of an ELF file, as the parser delivers them. *)
Record ProgramHeader : Type := mkPh {
  p_type : Z; p_flags : Z; p_vaddr : Z; p_memsz : Z; p_offset : Z; p_filesz : Z;
}.
Record Elf : Type := mkElf {
  elf_entry : Z;
  e_phentsize : Z; e_phnum : Z; e_phoff : Z;
  interpreter : option (list Z);
  program_headers : list ProgramHeader;
}.
Definition PT_LOAD : Z := 1.
Definition PT_INTERP : Z := 3.
Definition PF_X : Z := 1.
Definition PF_W : Z := 2.
Definition PF_R : Z := 4.

Definition AT_PHDR : Z := 3.
Definition AT_PHENT : Z := 4.
Definition AT_PHNUM : Z := 5.
Definition AT_PAGESZ : Z := 6.
Definition AT_BASE : Z := 7.
Definition AT_ENTRY : Z := 9.

(** The sections of the kernel image, symbols of the linker script. *)
Class KernelSections := {
  stext : Z; etext : Z; srodata : Z; erodata : Z; sdata : Z; edata : Z;
  sstack : Z; estack : Z; sbss : Z; ebss : Z;
}.

Section ops.
Context `{Buddy, KernelImage}.

Definition new_bare (m : Mem) : KResult (MemorySpace * Mem) :=
  let? (pt, m) := with_root m in Ok (mkSpace pt ∅, m).

(** ** The kernel's own space *)
Fixpoint kernel_map_loop (m : Mem) (pt : PageTable) (perm : Z) (vpns : list Z) :
    KResult (PageTable * Mem) :=
  match vpns with
  | [] => Ok (pt, m)
  | vpn :: vpns =>
      let? ppn := kernel_vpn_to_ppn vpn in
      let? (pt, m) := map m pt vpn ppn (PTEFlags.from_perm perm) in
      kernel_map_loop m pt perm vpns
  end.

Definition kernel_map (m : Mem) (sp : MemorySpace) (start_va end_va perm : Z) :
    KResult (MemorySpace * Mem) :=
  let? (pt, m) := kernel_map_loop m (page_table sp) perm
    (Step.range (VirtAddr.vpn_floor start_va) (VirtAddr.vpn_ceil end_va)) in
  Ok (mkSpace pt (user_areas sp), m).

(** The ranges [new_kernel] maps, in order. *)
Fixpoint kernel_map_all (m : Mem) (sp : MemorySpace) (l : list (Z * Z * Z)) :
    KResult (MemorySpace * Mem) :=
  match l with
  | [] => Ok (sp, m)
  | (s, e, perm) :: l => let? (sp, m) := kernel_map m sp s e perm in kernel_map_all m sp l
  end.

Fixpoint mmio_ranges (l : list (Z * Z)) : KResult (list (Z * Z * Z)) :=
  match l with
  | [] => Ok []
  | (start, len) :: l =>
      let? s := kernel_pa_to_va start in
      let? e := kernel_pa_to_va (start + len) in
      let? rest := mmio_ranges l in
      Ok ((s, e, Z.lor (Z.lor MapPermission.R MapPermission.W) MapPermission.G) :: rest)
  end.

Definition new_kernel `{KernelSections} (m : Mem) : KResult (MemorySpace * Mem) :=
  let RX := Z.lor (Z.lor MapPermission.R MapPermission.X) MapPermission.G in
  let RO := Z.lor MapPermission.R MapPermission.G in
  let RW := Z.lor (Z.lor MapPermission.R MapPermission.W) MapPermission.G in
  let? (sp, m) := new_bare m in
  let? mem_end := kernel_pa_to_va MEMORY_END in
  let? mmio := mmio_ranges MMIO in
  kernel_map_all m sp
    ([(stext, etext, RX); (srodata, erodata, RO); (sdata, edata, RW);
      (sstack, estack, RW); (sbss, ebss, RW); (ekernel, mem_end, RW)] ++ mmio).

(** ** User spaces *)
Definition space_map_kernel_areas (kernel_root : Z) (m : Mem) (sp : MemorySpace) : Mem :=
  map_kernel_areas kernel_root m (page_table sp).

Definition empty_user (kernel_root : Z) (m : Mem) : KResult (MemorySpace * Mem) :=
  let? (sp, m) := new_bare m in Ok (sp, space_map_kernel_areas kernel_root m sp).

(** [BTreeMap::insert]: an area that is replaced is dropped, with its frames. *)
Definition insert_area (m : Mem) (areas : gmap Z FramedVmArea) (a : FramedVmArea) :
    KResult (gmap Z FramedVmArea * Mem) :=
  let? m := match areas !! va_start a with
            | Some old => Frames_drop m (frames_of (unbacked_map old))
            | None => Ok m
            end in
  Ok (<[va_start a := a]> areas, m).

Definition user_map (m : Mem) (sp : MemorySpace) (s e perm : Z) : KResult (MemorySpace * Mem) :=
  let? (areas, m) := insert_area m (user_areas sp) (area_new s e perm Lazy) in
  Ok (mkSpace (page_table sp) areas, m).

Definition user_map_with_file (caches : PageCaches) (m : Mem) (sp : MemorySpace)
    (s e perm : Z) (inode : BackedInode) (file_page_id : Z) : KResult (MemorySpace * Mem) :=
  let? (a, pt, m) := init_backed_inode caches m (page_table sp) (area_new s e perm Mmap)
                       inode file_page_id in
  let? (areas, m) := insert_area m (user_areas sp) a in
  Ok (mkSpace pt areas, m).

Definition user_map_with_data (m : Mem) (sp : MemorySpace) (s e perm : Z)
    (data : list Z) (page_offset : Z) : KResult (MemorySpace * Mem) :=
  let? (a, pt, m) := map_with_data m (page_table sp) (area_new s e perm Lazy) data page_offset in
  let? (areas, m) := insert_area m (user_areas sp) a in
  Ok (mkSpace pt areas, m).

(** The search for a range of unmapped pages. *)
Fixpoint find_gap (start len : Z) (l : list (Z * FramedVmArea)) : KResult (Z * Z) :=
  match l with
  | [] =>
      let? end_va := VirtAddr.add (VirtPageNum.page_start start) len in
      if end_va <=? LOW_ADDRESS_END then Ok (start, VirtAddr.vpn_ceil end_va)
      else Err ENOMEM
  | (_, area) :: l =>
      let? end_va := VirtAddr.add (VirtPageNum.page_start start) len in
      if end_va <=? VirtPageNum.page_start (va_start area)
      then Ok (start, VirtAddr.vpn_ceil end_va)
      else find_gap (va_end area) len l
  end.

Definition try_find_mmap_area (sp : MemorySpace) (addr len flags : Z) : KResult (Z * Z) :=
  if Flags.contains flags MmapFlags.MAP_FIXED then
    if negb (Z.land addr PAGE_OFFSET_MASK =? 0) then Err EINVAL else Err UNSUPPORTED
  else
    let start := VirtAddr.vpn_floor (Z.max MMAP_START addr) in
    let start := match btree_floor (user_areas sp) start with
                 | Some (_, area) => Z.max start (va_end area)
                 | None => start
                 end in
    find_gap start len (btree_after (user_areas sp) (VirtAddr.vpn_floor (Z.max MMAP_START addr))).

Definition try_map (m : Mem) (sp : MemorySpace) (addr len perm flags : Z) :
    KResult (Z * MemorySpace * Mem) :=
  let? (s, e) := try_find_mmap_area sp addr len flags in
  let? (sp, m) := user_map m sp s e perm in
  Ok (s, sp, m).

Definition try_map_inode (caches : PageCaches) (m : Mem) (sp : MemorySpace)
    (addr len perm flags : Z) (inode : BackedInode) (inode_page_id : Z) :
    KResult (Z * MemorySpace * Mem) :=
  let? (s, e) := try_find_mmap_area sp addr len flags in
  let? (sp, m) := user_map_with_file caches m sp s e perm inode inode_page_id in
  Ok (s, sp, m).

(** The scan of [unmap] over the areas from the cursor on: the areas inside the
    range are collected, one on its left is skipped, one on its right ends the
    scan, and a partly covered one is not implemented. *)
Fixpoint unmap_scan (s e : Z) (l : list (Z * FramedVmArea)) : KResult (list Z) :=
  match l with
  | [] => Ok []
  | (_, a) :: l =>
      if (s <=? va_start a) && (va_end a <=? e) then
        let? rest := unmap_scan s e l in Ok (va_start a :: rest)
      else if va_end a <=? s then unmap_scan s e l
      else if e <=? va_start a then Ok []
      else Panic
  end.

(** [lower_bound(Included(s))] followed by [prev()]: the areas from the last one
    that starts before [s] on. *)
Definition unmap_cursor (sp : MemorySpace) (s : Z) : list (Z * FramedVmArea) :=
  option_list (last (filter (λ e, e.1 < s) (btree_iter (user_areas sp)))) ++
  btree_from (user_areas sp) s.

Definition remove_area (m : Mem) (sp : MemorySpace) (vpn : Z) (a : FramedVmArea) :
    KResult (MemorySpace * Mem) :=
  let? (_, pt, m) := area_unmap m (page_table sp) a in
  Ok (mkSpace pt (delete vpn (user_areas sp)), m).

Fixpoint remove_areas (m : Mem) (sp : MemorySpace) (l : list Z) : KResult (MemorySpace * Mem) :=
  match l with
  | [] => Ok (sp, m)
  | vpn :: l =>
      let? a := unwrap (user_areas sp !! vpn) in
      let? (sp, m) := remove_area m sp vpn a in
      remove_areas m sp l
  end.

Definition space_unmap (m : Mem) (sp : MemorySpace) (va_start va_end : Z) :
    KResult (MemorySpace * Mem) :=
  let s := VirtAddr.vpn_floor va_start in
  let e := VirtAddr.vpn_ceil va_end in
  let? to_unmap := unmap_scan s e (unmap_cursor sp s) in
  remove_areas m sp to_unmap.

Definition remove_area_with_start_vpn (m : Mem) (sp : MemorySpace) (start_vpn : Z) :
    KResult (MemorySpace * Mem) :=
  match user_areas sp !! start_vpn with
  | Some a => remove_area m sp start_vpn a
  | None => Ok (sp, m)
  end.

Definition space_set_user_brk (m : Mem) (sp : MemorySpace) (heap_start new_end : Z) :
    KResult (MemorySpace * Mem) :=
  match user_areas sp !! heap_start with
  | Some a =>
      if new_end <=? va_end a then
        let? (a, pt, m) := shrink m (page_table sp) a new_end in
        Ok (mkSpace pt (<[heap_start := a]> (user_areas sp)), m)
      else Ok (mkSpace (page_table sp) (<[heap_start := expand a new_end]> (user_areas sp)), m)
  | None =>
      user_map m sp heap_start new_end
        (Z.lor (Z.lor MapPermission.R MapPermission.W) MapPermission.U)
  end.

Definition recycle_user_pages (m : Mem) (sp : MemorySpace) : KResult (MemorySpace * Mem) :=
  let? m := Frames_drop m
    (btree_iter (user_areas sp) ≫= λ e, frames_of (unbacked_map e.2)) in
  let? (pt, m) := clear m (page_table sp) in
  Ok (mkSpace pt ∅, m).

Definition handle_memory_exception (m : Mem) (sp : MemorySpace) (addr : Z) (maybe_cow : bool) :
    KResult (bool * MemorySpace * Mem) :=
  if maybe_cow then Panic
  else
    let vpn := VirtAddr.vpn_floor addr in
    match btree_floor (user_areas sp) vpn with
    | Some (k, a) =>
        if va_end a <=? vpn then Ok (false, sp, m)
        else match a_type a with
             | Lazy =>
                 let? (_, a, pt, m) := ensure_allocated m (page_table sp) a vpn in
                 Ok (true, mkSpace pt (<[k := a]> (user_areas sp)), m)
             | Mmap => Panic
             end
    | None => Ok (false, sp, m)
    end.

(** ** Fork *)
Fixpoint copy_pages (m : Mem) (pt : PageTable) (dst : FramedVmArea) (l : list (Z * Z)) :
    KResult (FramedVmArea * PageTable * Mem) :=
  match l with
  | [] => Ok (dst, pt, m)
  | (vpn, src_frame) :: l =>
      let? (dst_frame, dst, pt, m) := ensure_allocated m pt dst vpn in
      copy_pages (Frame_copy_from m dst_frame src_frame) pt dst l
  end.

Definition copy_area (caches : PageCaches) (m : Mem) (sp : MemorySpace) (src : FramedVmArea) :
    KResult (MemorySpace * Mem) :=
  let? (sp, m) :=
    match backed_inode src with
    | Some inode => user_map_with_file caches m sp (va_start src) (va_end src) (a_perm src)
                      inode (backed_inode_page_id src)
    | None => user_map m sp (va_start src) (va_end src) (a_perm src)
    end in
  let? dst := unwrap (user_areas sp !! va_start src) in
  let? (dst, pt, m) := copy_pages m (page_table sp) dst (btree_iter (unbacked_map src)) in
  Ok (mkSpace pt (<[va_start src := dst]> (user_areas sp)), m).

Fixpoint copy_areas (caches : PageCaches) (m : Mem) (sp : MemorySpace) (l : list (Z * FramedVmArea)) :
    KResult (MemorySpace * Mem) :=
  match l with
  | [] => Ok (sp, m)
  | (_, src) :: l => let? (sp, m) := copy_area caches m sp src in copy_areas caches m sp l
  end.

Definition from_other (kernel_root : Z) (caches : PageCaches) (m : Mem) (user_space : MemorySpace) :
    KResult (MemorySpace * Mem) :=
  let? (sp, m) := new_bare m in
  let? (sp, m) := copy_areas caches m sp (btree_iter (user_areas user_space)) in
  Ok (sp, space_map_kernel_areas kernel_root m sp).

(** Dropping a space drops the table frames and the frames of its areas. *)
Definition MemorySpace_drop (m : Mem) (sp : MemorySpace) : KResult Mem :=
  let? m := Frames_drop m (table_frames (page_table sp)) in
  Frames_drop m (btree_iter (user_areas sp) ≫= λ e, frames_of (unbacked_map e.2)).

(** ** ELF loading *)
Definition ph_perm (p_flags : Z) : Z :=
  let perm := MapPermission.U in
  let perm := if negb (Z.land p_flags PF_R =? 0) then Z.lor perm MapPermission.R else perm in
  let perm := if negb (Z.land p_flags PF_W =? 0) then Z.lor perm MapPermission.W else perm in
  if negb (Z.land p_flags PF_X =? 0) then Z.lor perm MapPermission.X else perm.

(** [&elf_data[ph.file_range()]]: a slice out of range panics. *)
Definition file_slice (elf_data : list Z) (ph : ProgramHeader) : KResult (list Z) :=
  let? e := uadd 64 (p_offset ph) (p_filesz ph) in
  check (e <=? Z.of_nat (length elf_data)) in
  Ok (take (Z.to_nat (p_filesz ph)) (drop (Z.to_nat (p_offset ph)) elf_data)).

Fixpoint load_headers (m : Mem) (sp : MemorySpace) (elf_data : list Z) (elf_end : Z)
    (ph_start_va : option Z) (l : list ProgramHeader) :
    KResult ((Z * option Z + errno) * MemorySpace * Mem) :=
  match l with
  | [] => Ok (inl (elf_end, ph_start_va), sp, m)
  | ph :: l =>
      if p_type ph =? PT_INTERP then Ok (inr UNSUPPORTED, sp, m)
      else if p_type ph =? PT_LOAD then
        let start_va := p_vaddr ph in
        let? end_va := uadd 64 (p_vaddr ph) (p_memsz ph) in
        let? data := file_slice elf_data ph in
        let? (sp, m) := user_map_with_data m sp
          (VirtAddr.vpn_floor start_va) (VirtAddr.vpn_ceil end_va) (ph_perm (p_flags ph))
          data (VirtAddr.page_offset start_va) in
        load_headers m sp elf_data (Z.max elf_end end_va)
          (Some (default start_va ph_start_va)) l
      else load_headers m sp elf_data elf_end ph_start_va l
  end.

(** The end of the image, the auxiliary vector and the entry point; an error
    leaves what was mapped before it. *)
Definition load_elf_sections (m : Mem) (sp : MemorySpace) (elf : Elf) (elf_data : list Z) :
    KResult ((Z * list (Z * Z) * Z + errno) * MemorySpace * Mem) :=
  let auxv := [(AT_PHENT, e_phentsize elf); (AT_PHNUM, e_phnum elf); (AT_PAGESZ, PAGE_SIZE);
               (AT_BASE, 0); (AT_ENTRY, elf_entry elf)] in
  match interpreter elf with
  | Some _ => Ok (inr UNSUPPORTED, sp, m)
  | None =>
      let? (r, sp, m) := load_headers m sp elf_data 0 None (program_headers elf) in
      match r with
      | inr e => Ok (inr e, sp, m)
      | inl (elf_end, None) => Ok (inr ENOEXEC, sp, m)
      | inl (elf_end, Some ph_start) =>
          let? ph_addr := uadd 64 ph_start (e_phoff elf) in
          Ok (inl (elf_end, auxv ++ [(AT_PHDR, ph_addr)], elf_entry elf), sp, m)
      end
  end.

(** ** The heap, [ProcessInner::set_user_brk] *)
Definition set_user_brk (m : Mem) (sp : MemorySpace) (heap_start heap_end new_brk : Z) :
    KResult (Z * Z * MemorySpace * Mem) :=
  if (new_brk <=? heap_start) || (LOW_ADDRESS_END <? new_brk) then Ok (heap_end, heap_end, sp, m)
  else
    let? (sp, m) := space_set_user_brk m sp (VirtAddr.vpn_floor heap_start)
                      (VirtAddr.vpn_ceil new_brk) in
    Ok (new_brk, new_brk, sp, m).

(** ** User stacks, [Thread::alloc_user_stack] *)
Definition user_stack_high_addr (tid : Z) : KResult Z :=
  let? off := umul 64 tid (USER_STACK_SIZE + PAGE_SIZE) in
  let? a := usub 64 LOW_ADDRESS_END off in
  Ok (VirtAddr.vpn_floor a).
Definition user_stack_low_addr (tid : Z) : KResult Z :=
  let? high := user_stack_high_addr tid in
  VirtPageNum.sub high (VirtAddr.vpn_floor USER_STACK_SIZE).
Definition alloc_user_stack (m : Mem) (sp : MemorySpace) (tid : Z) :
    KResult (Z * Z * MemorySpace * Mem) :=
  let? low := user_stack_low_addr tid in
  let? high := user_stack_high_addr tid in
  let? (sp, m) := user_map m sp low high
    (Z.lor (Z.lor MapPermission.R MapPermission.W) MapPermission.U) in
  Ok (low, high, sp, m).
Definition dealloc_user_stack (m : Mem) (sp : MemorySpace) (tid : Z) : KResult (MemorySpace * Mem) :=
  let? low := user_stack_low_addr tid in
  remove_area_with_start_vpn m sp low.
End ops.

(** ** The invariant of a user space *)
Section invariant.
Context `{Buddy, KernelImage}.

Record areas_inv (M : gmap Z page_info) (areas : gmap Z FramedVmArea) : Prop := {
  ar_area s a : areas !! s = Some a → va_start a = s ∧ area_inv M a;
  ar_disj s1 a1 s2 a2 : areas !! s1 = Some a1 → areas !! s2 = Some a2 → s1 < s2 →
    va_end a1 ≤ s2;
  ar_cover v i : M !! v = Some i → ∃ s a, areas !! s = Some a ∧ in_area a v;
}.
#[global] Arguments ar_area {M areas}.
#[global] Arguments ar_disj {M areas}.
#[global] Arguments ar_cover {M areas}.

(** The areas are disjoint, and the pages the hardware translates are exactly
    the pages the areas account for, with their permissions, on frames that are
    in use and that no other page of the space owns. *)
Definition space_inv (m : Mem) (sp : MemorySpace) : Prop :=
  ∃ M, pages_inv m (page_table sp) M ∧ areas_inv M (user_areas sp).

(** No area meets the range [s, e). *)
Definition range_free (areas : gmap Z FramedVmArea) (s e : Z) : Prop :=
  ∀ k a, areas !! k = Some a → va_end a ≤ s ∨ (s < k ∧ e ≤ k).

Lemma area_range M areas s a :
  areas_inv M areas → areas !! s = Some a →
  va_start a = s ∧ 0 ≤ s ≤ va_end a ∧ va_end a ≤ LOW_VPN_END.
Proof.
  intros Hi Hs. destruct (ar_area Hi s a Hs) as [<- Ha]. pose proof (ai_range Ha). lia.
Qed.

Lemma area_unique M areas s1 a1 s2 a2 v :
  areas_inv M areas → areas !! s1 = Some a1 → areas !! s2 = Some a2 →
  in_area a1 v → in_area a2 v → s1 = s2.
Proof.
  intros Hi H1 H2 Hv1 Hv2. unfold in_area in *.
  destruct (area_range _ _ _ _ Hi H1) as [E1 _]. destruct (area_range _ _ _ _ Hi H2) as [E2 _].
  destruct (Z.lt_trichotomy s1 s2) as [Hlt|[?|Hlt]]; [|done|].
  - pose proof (ar_disj Hi _ _ _ _ H1 H2 Hlt). lia.
  - pose proof (ar_disj Hi _ _ _ _ H2 H1 Hlt). lia.
Qed.

Lemma range_free_none M areas s e v :
  areas_inv M areas → range_free areas s e → s ≤ v < e → M !! v = None.
Proof.
  intros Hi Hf Hv. destruct (M !! v) as [i|] eqn:E; [|done].
  destruct (ar_cover Hi v i E) as (k & a & Hk & Hin). unfold in_area in Hin.
  destruct (area_range _ _ _ _ Hi Hk) as [Hs _]. destruct (Hf k a Hk); lia.
Qed.

(** Replacing the area at [s] by one with the same start that is not longer. *)
Lemma areas_update M M' areas s a a' :
  areas_inv M areas → areas !! s = Some a → va_start a' = s → va_end a' ≤ va_end a →
  area_inv M' a' → (∀ v, ¬ in_area a v → M' !! v = M !! v) →
  (∀ v i, in_area a v → M' !! v = Some i → in_area a' v) →
  areas_inv M' (<[s := a']> areas).
Proof.
  intros Hi Hs Hst Hend Ha' Hout Hin. split.
  - intros k b. rewrite lookup_insert. case_decide; [naive_solver|]. intros Hk.
    destruct (ar_area Hi k b Hk) as [? Hb]. split; [done|].
    apply (area_inv_frame M); [done|]. intros v Hv. apply Hout. intros Hv'.
    pose proof (area_unique _ _ _ _ _ _ _ Hi Hs Hk Hv' Hv). done.
  - intros s1 a1 s2 a2. rewrite !lookup_insert. repeat case_decide; simplify_eq; try lia.
    + intros [= <-] H2' Hlt. pose proof (ar_disj Hi _ _ _ _ Hs H2' Hlt). lia.
    + intros H1' [= <-] Hlt. apply (ar_disj Hi _ _ _ _ H1' Hs Hlt).
    + apply (ar_disj Hi).
  - intros v i Hv. destruct (decide (in_area a v)) as [Hav|Hav].
    + exists s, a'. rewrite lookup_insert_eq. split; [done|]. by eapply Hin.
    + rewrite Hout in Hv by done. destruct (ar_cover Hi v i Hv) as (k & b & Hk & Hkv).
      exists k, b. rewrite lookup_insert_ne; [done|]. intros <-. naive_solver.
Qed.

(** A new area over a free range. *)
Lemma areas_insert M M' areas a' :
  areas_inv M areas → range_free areas (va_start a') (va_end a') →
  area_inv M' a' → (∀ v, ¬ in_area a' v → M' !! v = M !! v) →
  areas_inv M' (<[va_start a' := a']> areas).
Proof.
  intros Hi Hf Ha' Hout. split.
  - intros k b. rewrite lookup_insert. case_decide; [naive_solver|]. intros Hk.
    destruct (ar_area Hi k b Hk) as [Hkb Hb]. split; [done|].
    apply (area_inv_frame M); [done|]. intros v Hv. apply Hout. unfold in_area in *.
    destruct (Hf k b Hk); lia.
  - pose proof (ai_range Ha'). intros s1 a1 s2 a2. rewrite !lookup_insert.
    repeat case_decide; simplify_eq; try lia.
    + intros [= <-] H2' Hlt. destruct (area_range _ _ _ _ Hi H2'). destruct (Hf s2 a2 H2'); lia.
    + intros H1' [= <-] Hlt. destruct (Hf s1 a1 H1'); lia.
    + apply (ar_disj Hi).
  - intros v i Hv. destruct (decide (in_area a' v)) as [Hav|Hav].
    { exists (va_start a'), a'. by rewrite lookup_insert_eq. }
    rewrite Hout in Hv by done. destruct (ar_cover Hi v i Hv) as (k & b & Hk & Hkv).
    exists k, b. rewrite lookup_insert_ne; [done|]. intros <-.
    destruct (area_range _ _ _ _ Hi Hk). unfold in_area in *. destruct (Hf _ b Hk); lia.
Qed.

Lemma areas_delete M M' areas s a :
  areas_inv M areas → areas !! s = Some a →
  (∀ v, M' !! v = if decide (in_area a v) then None else M !! v) →
  areas_inv M' (delete s areas).
Proof.
  intros Hi Hs HM. split.
  - intros k b. rewrite lookup_delete. case_decide; [done|]. intros Hk.
    destruct (ar_area Hi k b Hk) as [? Hb]. split; [done|].
    apply (area_inv_frame M); [done|]. intros v Hv. rewrite HM, decide_False; [done|].
    intros Hv'. pose proof (area_unique _ _ _ _ _ _ _ Hi Hs Hk Hv' Hv). done.
  - intros s1 a1 s2 a2. rewrite !lookup_delete. repeat case_decide; try done. apply (ar_disj Hi).
  - intros v i. rewrite HM. case_decide as Hav; [done|]. intros Hv.
    destruct (ar_cover Hi v i Hv) as (k & b & Hk & Hkv).
    exists k, b. rewrite lookup_delete_ne; [done|]. intros <-. naive_solver.
Qed.

Lemma insert_area_ok M m areas a :
  areas_inv M areas → range_free areas (va_start a) (va_end a) →
  insert_area m areas a = Ok (<[va_start a := a]> areas, m).
Proof.
  intros Hi Hf. unfold insert_area. destruct (areas !! va_start a) as [old|] eqn:Hs; [|done].
  assert (unbacked_map old = ∅) as ->; [|done].
  apply map_eq. intros v. rewrite lookup_empty.
  destruct (unbacked_map old !! v) as [p|] eqn:E; [|done].
  destruct (ar_area Hi _ _ Hs) as [? Ha]. destruct (ai_unbacked Ha v p E).
  destruct (Hf _ _ Hs); lia.
Qed.

(** ** Lookups in the ordered map *)
Lemma floor_in_area M areas v k a :
  areas_inv M areas → btree_floor areas v = Some (k, a) →
  areas !! k = Some a ∧ va_start a = k ∧ k ≤ v.
Proof.
  intros Hi Hf. destruct (btree_floor_Some _ _ _ _ Hf) as (Hk & Hle & _).
  destruct (ar_area Hi k a Hk) as [Hs _]. done.
Qed.

(** The area [btree_floor] finds is the only one that may hold [v]. *)
Lemma floor_complete M areas v s a :
  areas_inv M areas → areas !! s = Some a → in_area a v →
  ∃ k b, btree_floor areas v = Some (k, b) ∧ s = k ∧ a = b.
Proof.
  intros Hi Hs Hv. destruct (area_range _ _ _ _ Hi Hs) as [Hst _]. unfold in_area in Hv.
  destruct (btree_floor areas v) as [[k b]|] eqn:E.
  - destruct (btree_floor_Some _ _ _ _ E) as (Hk & Hle & Hmax). simpl in *.
    exists k, b. split; [done|]. assert (s ≤ k) as Hsk by (apply Hmax; [by eexists|lia]).
    destruct (decide (s = k)) as [->|Hne]; [by simplify_eq|].
    pose proof (ar_disj Hi _ _ _ _ Hs Hk ltac:(lia)). lia.
  - exfalso. apply (btree_floor_None _ _ E s); [by eexists|]. simpl. lia.
Qed.
End invariant.

(** ** Searching for a free range *)
Section search.
Context `{Buddy, KernelImage}.

(** The number of pages a length takes. *)
Definition npages (len : Z) : Z := div_ceil len PAGE_SIZE.

(** The entry is out of the way of [n] pages from [s] on. *)
Definition clear_of (s n : Z) (e : Z * FramedVmArea) : Prop :=
  va_end e.2 ≤ s ∨ s + n ≤ e.1.

(** A list of entries in increasing order that does not overlap. *)
Fixpoint entries_ok (lo : Z) (l : list (Z * FramedVmArea)) : Prop :=
  match l with
  | [] => True
  | (k, a) :: l => va_start a = k ∧ lo ≤ k ≤ va_end a ∧ va_end a ≤ LOW_VPN_END ∧
                   entries_ok (va_end a) l
  end.

Lemma entries_ok_in lo l e :
  entries_ok lo l → e ∈ l → lo ≤ e.1 ≤ va_end e.2.
Proof.
  revert lo. induction l as [|[k a] l IH]; intros lo; simpl; [by intros _ ?%not_elem_of_nil|].
  intros (? & ? & ? & Hl) [->|He]%elem_of_cons; simpl; [lia|]. specialize (IH _ Hl He). lia.
Qed.

Lemma gap_end start len :
  0 ≤ start ≤ LOW_VPN_END → 0 < len < 2 ^ 63 →
  ∃ end_va, VirtAddr.add (E:=errno) (VirtPageNum.page_start start) len = Ok end_va ∧
    VirtAddr.vpn_ceil end_va = start + npages len ∧
    (∀ p, 0 ≤ p ≤ LOW_VPN_END → (end_va <=? VirtPageNum.page_start p) = (start + npages len <=? p)).
Proof.
  intros Hs Hl. rewrite LOW_VPN_END_eq in *. unfold VirtAddr.add.
  rewrite page_start_mul by lia. eexists. split; [apply checked_fits; rewrite PAGE_SIZE_eq; lia|].
  unfold VirtAddr.vpn_ceil, npages.
  pose proof (div_ceil_spec len PAGE_SIZE ltac:(done)) as H1.
  pose proof (div_ceil_spec (start * PAGE_SIZE + len) PAGE_SIZE ltac:(done)) as H2.
  rewrite PAGE_SIZE_eq in *. split; [nia|]. intros p Hp. rewrite page_start_mul by lia.
  rewrite PAGE_SIZE_eq. apply Bool.eq_iff_eq_true. rewrite !Z.leb_le. lia.
Qed.

(** The scan finds the first gap that is wide enough, or none is. *)
Lemma find_gap_spec len l start :
  0 ≤ start ≤ LOW_VPN_END → 0 < len < 2 ^ 63 → entries_ok start l →
  (∃ s, find_gap start len l = Ok (s, s + npages len) ∧ start ≤ s ∧
     s + npages len ≤ LOW_VPN_END ∧ (∀ e, e ∈ l → clear_of s (npages len) e) ∧
     (∀ s', start ≤ s' < s → ∃ e, e ∈ l ∧ ¬ clear_of s' (npages len) e)) ∨
  (find_gap start len l = Err ENOMEM ∧
   ∀ s', start ≤ s' → s' + npages len ≤ LOW_VPN_END →
     ∃ e, e ∈ l ∧ ¬ clear_of s' (npages len) e).
Proof.
  intros Hs Hlen. revert start Hs. induction l as [|[k a] l IH]; intros start Hs Hok.
  - simpl. destruct (gap_end start len Hs Hlen) as (ev & -> & Hceil & Hcmp). simpl.
    specialize (Hcmp LOW_VPN_END ltac:(rewrite LOW_VPN_END_eq; lia)).
    change (VirtPageNum.page_start LOW_VPN_END) with LOW_ADDRESS_END in Hcmp. rewrite Hcmp.
    destruct (Z.leb_spec (start + npages len) LOW_VPN_END) as [Hle|Hgt].
    + left. exists start. rewrite Hceil. split_and!; [done|lia|done| |].
      * by intros e ?%not_elem_of_nil.
      * intros s' ?. lia.
    + right. split; [done|]. intros s' ? ?. lia.
  - simpl in Hok. destruct Hok as (Hst & Hk & Hend & Hok). cbn [find_gap].
    destruct (gap_end start len Hs Hlen) as (ev & -> & Hceil & Hcmp). simpl.
    rewrite Hcmp by lia. rewrite Hst.
    destruct (Z.leb_spec (start + npages len) k) as [Hle|Hgt].
    + left. exists start. rewrite Hceil. split_and!; [done|lia|lia| |].
      * intros e [->|He]%elem_of_cons; right; simpl; [lia|].
        pose proof (entries_ok_in _ _ _ Hok He). lia.
      * intros s' ?. lia.
    + assert (Hconf : ∀ s', start ≤ s' < va_end a → ¬ clear_of s' (npages len) (k, a)).
      { intros s' ? [?|?]; simpl in *; lia. }
      destruct (IH (va_end a)) as [(s & Hf & ? & ? & Hcl & Hmin)|[Hf Hno]];
        [rewrite LOW_VPN_END_eq in *; lia|done| |].
      * left. exists s. split_and!; [done|lia|done| |].
        -- intros e [->|He]%elem_of_cons; [left; simpl; lia|by apply Hcl].
        -- intros s' Hs'. destruct (decide (s' < va_end a)).
           ++ exists (k, a). split; [set_solver|apply Hconf; lia].
           ++ destruct (Hmin s') as (e & He & ?); [lia|]. exists e. split; [set_solver|done].
      * right. split; [done|]. intros s' ? ?. destruct (decide (s' < va_end a)).
        -- exists (k, a). split; [set_solver|apply Hconf; lia].
        -- destruct (Hno s') as (e & He & ?); [lia|lia|]. exists e. split; [set_solver|done].
Qed.

(** The entries after the cursor. *)
Lemma entries_ok_sorted M areas lo l :
  areas_inv M areas → StronglySorted entry_le l → NoDup l.*1 →
  (∀ e, e ∈ l → areas !! e.1 = Some e.2 ∧ lo ≤ e.1) → entries_ok lo l.
Proof.
  intros Hi. revert lo. induction l as [|[k a] l IH]; intros lo Hs Hnd Hl; simpl; [done|].
  destruct (Hl (k, a)) as [Hk ?]; [set_solver|]. simpl in *.
  destruct (area_range _ _ _ _ Hi Hk) as (Hst & Hr & Hlow).
  destruct (sorted_entries_cons (k, a) l Hs Hnd) as (Hlt & Hs' & Hnd').
  split_and!; [done|lia|lia|done|]. apply IH; [done|done|].
  intros e He. destruct (Hl e) as [Hke _]; [set_solver|]. split; [done|].
  apply (ar_disj Hi k a e.1 e.2 Hk Hke). by apply (Hlt e He).
Qed.

Lemma entries_after_ok M areas s0 start :
  areas_inv M areas → s0 ≤ start →
  (∀ k a, areas !! k = Some a → k ≤ s0 → va_end a ≤ start) →
  (start = s0 ∨ ∃ k a, areas !! k = Some a ∧ k ≤ s0 ∧ va_end a = start) →
  entries_ok start (btree_after areas s0).
Proof.
  intros Hi Hle Hbefore Hst. eapply entries_ok_sorted; [exact Hi| | |].
  - apply sorted_filter, btree_iter_sorted.
  - apply btree_after_nodup.
  - intros [k a] Hka. rewrite elem_of_btree_after in Hka. destruct Hka as [Hk Hgt]. simpl in *.
    split; [done|]. destruct Hst as [->|(k0 & a0 & Hk0 & Hle0 & <-)]; [lia|].
    apply (ar_disj Hi k0 a0 k a Hk0 Hk). lia.
Qed.
Lemma npages_pos len : 0 < len → 1 ≤ npages len.
Proof.
  intros. unfold npages. pose proof (div_ceil_spec len PAGE_SIZE ltac:(done)).
  rewrite PAGE_SIZE_eq in *. lia.
Qed.

(** Where the search starts, and what lies before it. *)
Lemma search_start M areas s0 :
  areas_inv M areas → 0 ≤ s0 →
  let start := match btree_floor areas s0 with
               | Some (_, area) => Z.max s0 (va_end area)
               | None => s0
               end in
  s0 ≤ start ≤ Z.max s0 LOW_VPN_END ∧
  (∀ k a, areas !! k = Some a → k ≤ s0 → va_end a ≤ start) ∧
  (start = s0 ∨ ∃ k a, areas !! k = Some a ∧ k ≤ s0 ∧ va_end a = start).
Proof.
  intros Hi Hs0. destruct (btree_floor areas s0) as [[k0 a0]|] eqn:E; cbv zeta.
  - destruct (btree_floor_Some _ _ _ _ E) as (Hk0 & Hle & Hmax). simpl in *.
    destruct (area_range _ _ _ _ Hi Hk0) as (_ & Hr0 & Hlow0). split_and!; [lia|lia| |].
    + intros k a Hk Hks. assert (k ≤ k0) by (apply Hmax; [by eexists|done]).
      destruct (decide (k = k0)) as [->|]; [simplify_eq; lia|].
      pose proof (ar_disj Hi _ _ _ _ Hk Hk0 ltac:(lia)). lia.
    + destruct (decide (va_end a0 ≤ s0)); [left; lia|right]. exists k0, a0. split_and!; [done|lia|lia].
  - split_and!; [lia|lia| |by left]. intros k a Hk Hks. exfalso.
    apply (btree_floor_None _ _ E k); [by eexists|done].
Qed.

Lemma try_find_mmap_area_ok M sp addr len flags :
  areas_inv M (user_areas sp) → 0 ≤ addr ≤ LOW_ADDRESS_END → 0 < len < 2 ^ 63 →
  Flags.contains flags MmapFlags.MAP_FIXED = false →
  let lo := VirtAddr.vpn_floor (Z.max MMAP_START addr) in
  (∃ s, try_find_mmap_area sp addr len flags = Ok (s, s + npages len) ∧ lo ≤ s ∧
     s + npages len ≤ LOW_VPN_END ∧ range_free (user_areas sp) s (s + npages len) ∧
     (∀ s', lo ≤ s' < s → ¬ range_free (user_areas sp) s' (s' + npages len))) ∨
  (try_find_mmap_area sp addr len flags = Err ENOMEM ∧
   ∀ s', lo ≤ s' → s' + npages len ≤ LOW_VPN_END →
     ¬ range_free (user_areas sp) s' (s' + npages len)).
Proof.
  intros Hi Haddr Hlen Hfix lo. unfold try_find_mmap_area. rewrite Hfix. fold lo.
  pose proof (npages_pos len ltac:(lia)) as Hnp.
  assert (Hlo : 0 ≤ lo ≤ LOW_VPN_END).
  { unfold lo. rewrite vpn_floor_div. unfold_config.
    split; [apply Z.div_pos; lia|apply Z.div_le_upper_bound; lia]. }
  destruct (search_start M (user_areas sp) lo Hi ltac:(lia)) as (Hst & Hbefore & Hor).
  set (start := match btree_floor _ _ with Some _ => _ | None => _ end) in *.
  pose proof (entries_after_ok M (user_areas sp) lo start Hi ltac:(lia) Hbefore Hor) as Hok.
  assert (Hconf : ∀ s' e, e ∈ btree_after (user_areas sp) lo → ¬ clear_of s' (npages len) e →
            ¬ range_free (user_areas sp) s' (s' + npages len)).
  { intros s' [k a] He Hc Hf. apply elem_of_btree_after in He as [Hk _].
    apply Hc. unfold clear_of. simpl. destruct (Hf k a Hk); [by left|right; lia]. }
  assert (Hskip : ∀ s', lo ≤ s' < start → ¬ range_free (user_areas sp) s' (s' + npages len)).
  { intros s' Hs' Hf. destruct Hor as [?|(k & a & Hk & Hkl & Hend)]; [lia|].
    destruct (Hf k a Hk); lia. }
  destruct (find_gap_spec len (btree_after (user_areas sp) lo) start)
    as [(s & -> & Hss & Hlow & Hcl & Hmin)|[-> Hno]]; [lia|done|done| |].
  - left. exists s. split_and!; [done|lia|done| |].
    + intros k a Hk. destruct (decide (k ≤ lo)); [left; specialize (Hbefore k a Hk); lia|].
      assert ((k, a) ∈ btree_after (user_areas sp) lo) as Hin.
      { apply elem_of_btree_after. simpl. done. }
      destruct (Hcl _ Hin); simpl in *; [by left|right; lia].
    + intros s' Hs'. destruct (decide (s' < start)); [apply Hskip; lia|].
      destruct (Hmin s') as (e & He & Hc); [lia|]. by eapply Hconf.
  - right. split; [done|]. intros s' Hs' Hl'. destruct (decide (s' < start)); [apply Hskip; lia|].
    destruct (Hno s') as (e & He & Hc); [lia|done|]. by eapply Hconf.
Qed.

(** *** Requests that no range can satisfy *)

(** The least page at or behind [lo] with no area behind it. *)
Definition search_top (areas : gmap Z FramedVmArea) (lo top : Z) : Prop :=
  lo ≤ top ∧ (∀ k a, areas !! k = Some a → va_end a ≤ top) ∧ (top = lo ∨ ∃ k a, areas !! k = Some a ∧ va_end a = top).

(** Where the scan ends when no gap is wide enough. *)
Fixpoint last_end (start : Z) (l : list (Z * FramedVmArea)) : Z :=
  match l with [] => start | (_, a) :: l => last_end (va_end a) l end.
Lemma last_end_spec l start :
  entries_ok start l → start ≤ last_end start l ∧ (∀ e, e ∈ l → va_end e.2 ≤ last_end start l) ∧
  (last_end start l = start ∨ ∃ e, e ∈ l ∧ va_end e.2 = last_end start l).
Proof.
  revert start. induction l as [|[k a] l IH]; intros start; simpl.
  { intros _. split_and!; [done|by intros e ?%not_elem_of_nil|by left]. }
  intros (_ & Hk & _ & Hok). destruct (IH _ Hok) as (H1 & H2 & H3). split_and!; [lia| |].
  - intros e [->|He]%elem_of_cons; [done|by apply H2].
  - right. destruct H3 as [->|(e & He & <-)]; [exists (k, a)|exists e]; (split; [set_solver|done]).
Qed.
Lemma find_gap_beyond len l start :
  0 ≤ start → start * PAGE_SIZE < 2 ^ 64 → 0 < len → entries_ok start l →
  2 ^ 63 ≤ len ∨ l = [] ∧ LOW_ADDRESS_END < start * PAGE_SIZE + len →
  find_gap start len l = if 2 ^ 64 <=? last_end start l * PAGE_SIZE + len then Panic else Err ENOMEM.
Proof.
  intros Hs Hlt Hlen. revert start Hs Hlt. induction l as [|[k a] l IH]; intros start Hs Hlt Hok Hbig.
  - simpl. rewrite page_start_mul by (rewrite PAGE_SIZE_eq in *; lia). unfold VirtAddr.add, uadd.
    destruct (Z.leb_spec (2 ^ 64) (start * PAGE_SIZE + len)); [by rewrite checked_overflow by lia|].
    rewrite checked_fits by (rewrite PAGE_SIZE_eq in *; lia). cbn [mbind outcome_bind].
    rewrite (proj2 (Z.leb_gt _ _)); [done|]. rewrite PAGE_SIZE_eq in *. destruct Hbig as [|[_ ?]]; [unfold_config; lia|lia].
  - destruct Hbig as [Hbig|[? _]]; [|done]. pose proof Hok as (Hst & Hk & Hend & Hok').
    destruct (last_end_spec _ _ Hok') as (Htop & _). cbn [find_gap last_end].
    rewrite LOW_VPN_END_eq in Hend. rewrite !page_start_mul by (rewrite PAGE_SIZE_eq in *; lia). unfold VirtAddr.add, uadd.
    destruct (decide (2 ^ 64 ≤ start * PAGE_SIZE + len)) as [Ho|Ho].
    { rewrite checked_overflow by lia. rewrite (proj2 (Z.leb_le _ _)); [done|]. rewrite PAGE_SIZE_eq in *. lia. }
    rewrite checked_fits by (rewrite PAGE_SIZE_eq in *; lia). cbn [mbind outcome_bind].
    rewrite (proj2 (Z.leb_gt _ _)) by (rewrite PAGE_SIZE_eq in *; lia).
    apply IH; [lia|rewrite PAGE_SIZE_eq; lia|done|by left].
Qed.

(** A length of half the address space or more, or a hint behind the user half:
    [ENOMEM], unless the end of the last candidate does not fit 64 bits. *)
Lemma try_find_mmap_area_beyond M sp addr len flags :
  areas_inv M (user_areas sp) → 0 ≤ addr < 2 ^ 64 → 0 < len →
  LOW_ADDRESS_END < addr ∨ 2 ^ 63 ≤ len →
  Flags.contains flags MmapFlags.MAP_FIXED = false →
  let lo := VirtAddr.vpn_floor (Z.max MMAP_START addr) in
  ∃ top, search_top (user_areas sp) lo top ∧
    try_find_mmap_area sp addr len flags = if 2 ^ 64 <=? top * PAGE_SIZE + len then Panic else Err ENOMEM.
Proof.
  intros Hi Haddr Hlen Hbig Hfix lo. unfold try_find_mmap_area. rewrite Hfix. fold lo.
  assert (Hlo : 0 ≤ lo < 2 ^ 52).
  { unfold lo. rewrite vpn_floor_div. unfold_config. split; [apply Z.div_pos; lia|apply Z.div_lt_upper_bound; lia]. }
  destruct (search_start M (user_areas sp) lo Hi ltac:(lia)) as (Hst & Hbefore & Hor).
  set (start := match btree_floor _ _ with Some _ => _ | None => _ end) in *.
  pose proof (entries_after_ok M (user_areas sp) lo start Hi ltac:(lia) Hbefore Hor) as Hok.
  destruct (last_end_spec _ _ Hok) as (H1 & H2 & H3).
  exists (last_end start (btree_after (user_areas sp) lo)). split.
  - split_and!; [lia| |].
    + intros k a Hk. destruct (decide (k ≤ lo)) as [Hkl|Hkl]; [specialize (Hbefore k a Hk Hkl); lia|].
      apply (H2 (k, a)), elem_of_btree_after. simpl. split; [done|lia].
    + destruct H3 as [->|([k a] & Hin & <-)].
      * destruct Hor as [->|(k & a & Hk & _ & <-)]; eauto.
      * apply elem_of_btree_after in Hin as [Hk _]. eauto.
  - apply find_gap_beyond; [lia|rewrite LOW_VPN_END_eq, PAGE_SIZE_eq in *; lia|done|done|].
    destruct Hbig as [Ha|?]; [right|by left].
    assert (Hle : LOW_VPN_END ≤ lo).
    { unfold lo. rewrite vpn_floor_div. unfold_config. apply Z.div_le_lower_bound; lia. }
    split; [|rewrite LOW_VPN_END_eq, PAGE_SIZE_eq in *; unfold_config; lia].
    destruct (btree_after (user_areas sp) lo) as [|[k a] l] eqn:E; [done|exfalso].
    assert ((k, a) ∈ btree_after (user_areas sp) lo) as [Hk Hgt]%elem_of_btree_after by (rewrite E; set_solver).
    destruct (area_range _ _ _ _ Hi Hk) as (_ & Hr & Hlow). simpl in *. lia.
Qed.
End search.

(** ** The operations keep the invariant *)
Section preservation.
Context `{Buddy, KernelImage}.

(** The translation of a user page and the bytes behind it. *)
Definition translate (m : Mem) (sp : MemorySpace) (v : Z) : option (Z * Z) :=
  walk m (root_frame (page_table sp)) v.
Definition user_byte (m : Mem) (sp : MemorySpace) (v off : Z) : option Z :=
  (λ e, byte_at m e.1 off) <$> translate m sp v.

Lemma user_map_ok m sp M s e perm :
  pages_inv m (page_table sp) M → areas_inv M (user_areas sp) →
  range_free (user_areas sp) s e → 0 ≤ s ≤ e → e ≤ LOW_VPN_END →
  0 ≤ perm ≤ MapPermission.all →
  let sp' := mkSpace (page_table sp) (<[s := area_new s e perm Lazy]> (user_areas sp)) in
  user_map m sp s e perm = Ok (sp', m) ∧ areas_inv M (user_areas sp').
Proof.
  intros Hg Hi Hf Hse He Hperm sp'. unfold user_map.
  rewrite (insert_area_ok M) by done. split; [done|].
  apply (areas_insert M M (user_areas sp) (area_new s e perm Lazy)); [done|done| |done].
  apply area_new_inv; [done|done|done|]. intros v Hv. by eapply range_free_none.
Qed.

Lemma user_map_inv m sp s e perm :
  space_inv m sp → range_free (user_areas sp) s e → 0 ≤ s ≤ e → e ≤ LOW_VPN_END →
  0 ≤ perm ≤ MapPermission.all →
  ∃ sp', user_map m sp s e perm = Ok (sp', m) ∧ space_inv m sp' ∧
    page_table sp' = page_table sp ∧
    user_areas sp' = <[s := area_new s e perm Lazy]> (user_areas sp).
Proof.
  intros (M & Hg & Hi) Hf Hse He Hperm.
  destruct (user_map_ok m sp M s e perm Hg Hi Hf Hse He Hperm) as [-> Hi'].
  eexists. split; [done|]. split; [by exists M|done].
Qed.

Lemma user_map_with_file_inv caches m sp s e perm inode id0 sp' m' :
  space_inv m sp → range_free (user_areas sp) s e → 0 ≤ s ≤ e → e ≤ LOW_VPN_END →
  0 ≤ perm ≤ MapPermission.all →
  (∀ M id p, pages_inv m (page_table sp) M → caches inode !! id = Some p →
     cache_frame m (page_table sp) M p) →
  user_map_with_file caches m sp s e perm inode id0 = Ok (sp', m') →
  space_inv m' sp' ∧ (∀ v, s ≤ v < e → fst <$> translate m' sp' v = caches inode !! (id0 + (v - s))).
Proof.
  intros (M & Hg & Hi) Hf Hse He Hperm Hc Hu. unfold user_map_with_file in Hu.
  apply bind_Ok in Hu as ([[a pt] m1] & Hb & Hu).
  edestruct (init_backed_inode_ok caches m (page_table sp) M s e perm inode id0)
    as (M' & Hg' & Ha' & Hs' & He' & Hout & Hin & Hx);
    [done|done|done|done| | |exact Hb|].
  { intros v Hv. by eapply range_free_none. }
  { intros id p. by apply Hc. }
  assert (Hr : range_free (user_areas sp) (va_start a) (va_end a)) by by rewrite Hs', He'.
  rewrite (insert_area_ok M) in Hu by done. simpl in Hu. injection Hu as <- <-. split.
  - exists M'. split; [done|]. apply (areas_insert M); [done|done|done|].
    intros v Hv. apply Hout. unfold in_area in Hv. lia.
  - intros v Hv. unfold translate. simpl. rewrite (pg_walk Hg') by lia.
    rewrite <- (Hin v Hv). by destruct (M' !! v).
Qed.

Lemma user_map_with_data_inv m sp s e perm data off0 sp' m' :
  space_inv m sp → range_free (user_areas sp) s e → 0 ≤ s ≤ e → e ≤ LOW_VPN_END →
  0 ≤ perm ≤ MapPermission.all → 0 ≤ off0 < PAGE_SIZE →
  user_map_with_data m sp s e perm data off0 = Ok (sp', m') →
  space_inv m' sp' ∧
  (∃ um, user_areas sp' = <[s := with_unbacked (area_new s e perm Lazy) um]> (user_areas sp)) ∧
  (∀ v, s ≤ v < e → snd <$> translate m' sp' v = Some (leaf_flags perm) ∧
     ∀ i, 0 ≤ i < PAGE_SIZE →
       user_byte m' sp' v i = Some (image_byte data off0 ((v - s) * PAGE_SIZE + i))) ∧
  (∀ v, 0 ≤ v < LOW_VPN_END → ¬ s ≤ v < e → translate m' sp' v = translate m sp v ∧
     ∀ i, user_byte m' sp' v i = user_byte m sp v i).
Proof.
  intros (M & Hg & Hi) Hf Hse He Hperm Hoff Hu. unfold user_map_with_data in Hu.
  apply bind_Ok in Hu as ([[a pt] m1] & Hb & Hu).
  assert (Hnone : ∀ v, s ≤ v < e → M !! v = None) by (intros v Hv; by eapply range_free_none).
  destruct (map_with_data_ok m (page_table sp) M (area_new s e perm Lazy) data off0 a pt m1)
    as (M' & Hg' & Ha' & Heq & Hout & Hby & Hfr & Hin); [done| |done|done|done|done|].
  { by apply area_new_inv. }
  assert (va_start a = s ∧ va_end a = e ∧ a_perm a = perm) as (Hs' & He' & Hp') by by rewrite Heq.
  assert (Hr : range_free (user_areas sp) (va_start a) (va_end a)) by by rewrite Hs', He'.
  rewrite (insert_area_ok M) in Hu by done. simpl in Hu. injection Hu as <- <-. split_and!.
  - exists M'. split; [done|]. apply (areas_insert M); [done|done|done|].
    intros v Hv. apply Hout. unfold in_area in *. simpl. lia.
  - exists (unbacked_map a). by rewrite <- Heq, <- Hs'.
  - intros v Hv. destruct (Hin v Hv) as (p & Hp & _ & Hbytes).
    destruct (ai_unbacked Ha' v p Hp) as [_ HM'].
    unfold user_byte, translate. simpl. rewrite (pg_walk Hg') by lia. rewrite HM', Hp'. simpl.
    split; [done|]. intros i Hii. f_equal. by apply Hbytes.
  - intros v Hlv Hv. unfold user_byte, translate. simpl.
    rewrite (pg_walk Hg' v Hlv), (pg_walk Hg v Hlv), Hout by (unfold in_area; simpl; lia).
    split; [done|]. intros i. destruct (M !! v) as [pi|] eqn:HM; [|done]. simpl. f_equal.
    apply Hby. by apply (pg_frame Hg v pi HM).
Qed.

(** *** Page faults *)

(** What lies at a user page. *)
Definition area_at (sp : MemorySpace) (v : Z) (a : FramedVmArea) : Prop :=
  ∃ s, user_areas sp !! s = Some a ∧ in_area a v.

(** The fault on a page of a lazy area that has no frame yet. *)
Lemma fault_alloc m sp s a v ppn a' pt' m' :
  space_inv m sp → user_areas sp !! s = Some a → in_area a v →
  unbacked_map a !! v = None →
  ensure_allocated m (page_table sp) a v = Ok (ppn, a', pt', m') →
  let sp' := mkSpace pt' (<[s := a']> (user_areas sp)) in
  space_inv m' sp' ∧
  translate m' sp' v = Some (ppn, leaf_flags (a_perm a)) ∧
  (∀ i, byte_at m' ppn i = 0) ∧ is_free m ppn ∧
  (∀ w, 0 ≤ w < LOW_VPN_END → w ≠ v → translate m' sp' w = translate m sp w ∧
     ∀ i, user_byte m' sp' w i = user_byte m sp w i).
Proof.
  intros (M & Hg & Hi) Hs Hv Hum He sp'. destruct (ar_area Hi s a Hs) as [Hst Ha].
  destruct (ensure_allocated_ok m (page_table sp) M a v ppn a' pt' m' Hg Ha Hv He)
    as (M' & Hg' & Ha' & Heq & Hu & Hw & Hf & Hb & Hz). destruct (Hz Hum) as [Hfree Hzero].
  assert (va_start a' = s ∧ va_end a' = va_end a ∧ a_perm a' = a_perm a) as (Hs' & He' & Hp')
    by by rewrite Heq.
  pose proof (ai_range Ha) as Hr. unfold in_area in Hv.
  destruct (ai_unbacked Ha' v ppn Hu) as [_ HM']. split_and!; [|..|].
  - exists M'. split; [done|]. apply (areas_update M M' (user_areas sp) s a a');
      [done|done|done|lia|done| |].
    + intros w Hnw. apply Hw. intros ->. done.
    + intros w i Hin _. unfold in_area in *. lia.
  - unfold translate, sp'. simpl. rewrite (pg_walk Hg') by lia. by rewrite HM', Hp'.
  - done.
  - done.
  - intros w Hlw Hne. unfold user_byte, translate, sp'. simpl.
    rewrite (pg_walk Hg' w Hlw), (pg_walk Hg w Hlw), (proj1 (Hw w Hne)).
    split; [done|]. intros i. destruct (M !! w) as [pi|] eqn:HM; [|done]. simpl. f_equal.
    apply Hb. by apply (pg_frame Hg w pi HM).
Qed.

Lemma vpn_floor_nonneg addr : 0 ≤ addr → 0 ≤ VirtAddr.vpn_floor addr.
Proof. intros. rewrite vpn_floor_div. apply Z.div_pos; [done|]. by rewrite PAGE_SIZE_eq. Qed.

(** The page-fault handler implements demand paging. Outside the areas it
    refuses the fault and changes nothing; on a page that already has a frame it
    changes nothing and lets the access retry; on a lazily allocated page without
    a frame it maps one, taken from the free frames and zeroed, with the area's
    permissions, and no other page changes its translation or contents. The
    invariant of the space is kept. *)
Theorem handle_memory_exception_spec m sp addr :
  space_inv m sp → 0 ≤ addr → (3 ≤ free_count m)%nat →
  let v := VirtAddr.vpn_floor addr in
  ((∀ a, ¬ area_at sp v a) →
     handle_memory_exception m sp addr false = Ok (false, sp, m)) ∧
  (∀ a, area_at sp v a → a_type a = Lazy → is_Some (unbacked_map a !! v) →
     handle_memory_exception m sp addr false = Ok (true, sp, m)) ∧
  (∀ a, area_at sp v a → a_type a = Lazy → unbacked_map a !! v = None →
     ∃ ppn sp' m', handle_memory_exception m sp addr false = Ok (true, sp', m') ∧
       space_inv m' sp' ∧ is_free m ppn ∧
       translate m' sp' v = Some (ppn, leaf_flags (a_perm a)) ∧
       (∀ i, user_byte m' sp' v i = Some 0) ∧
       (∀ w, 0 ≤ w < LOW_VPN_END → w ≠ v → translate m' sp' w = translate m sp w ∧
          ∀ i, user_byte m' sp' w i = user_byte m sp w i) ∧
       ∃ s a', user_areas sp !! s = Some a ∧ user_areas sp' = <[s := a']> (user_areas sp) ∧
               va_start a' = va_start a ∧ va_end a' = va_end a ∧ a_type a' = a_type a) ∧
  (∀ a, area_at sp v a → a_type a = Mmap →
     handle_memory_exception m sp addr false = Panic).
Proof.
  intros Hsp Haddr Hfc v. pose proof Hsp as (M & Hg & Hi).
  unfold handle_memory_exception. fold v.
  assert (Hfind : ∀ a, area_at sp v a → ∃ s, btree_floor (user_areas sp) v = Some (s, a) ∧
            user_areas sp !! s = Some a ∧ in_area a v).
  { intros a (s & Hs & Hv). destruct (floor_complete _ _ _ _ _ Hi Hs Hv) as (k & b & Hf & -> & ->).
    eauto. }
  split_and!.
  - intros Hno. destruct (btree_floor (user_areas sp) v) as [[k a]|] eqn:E; [|done].
    destruct (floor_in_area _ _ _ _ _ Hi E) as (Hk & Hst & Hle).
    destruct (Z.leb_spec (va_end a) v); [done|]. destruct (Hno a). exists k.
    split; [done|]. unfold in_area. lia.
  - intros a Ha Hty [p Hp]. destruct (Hfind a Ha) as (s & -> & Hs & Hv).
    rewrite (proj2 (Z.leb_gt _ _)) by (unfold in_area in Hv; lia). rewrite Hty.
    unfold ensure_allocated. rewrite bool_decide_eq_true_2 by done. simpl. rewrite Hp. simpl.
    rewrite insert_id by done. by destruct sp.
  - intros a Ha Hty Hum. destruct (Hfind a Ha) as (s & -> & Hs & Hv).
    rewrite (proj2 (Z.leb_gt _ _)) by (unfold in_area in Hv; lia). rewrite Hty.
    destruct (ar_area Hi s a Hs) as [_ Hai].
    destruct (ensure_allocated_total m (page_table sp) M a v Hg Hai Hv Hty Hfc)
      as (ppn & a' & pt' & m' & He & _). rewrite He. simpl.
    destruct (fault_alloc m sp s a v ppn a' pt' m' Hsp Hs Hv Hum He) as (? & Ht & Hz & ? & ?).
    exists ppn. eexists _, m'. split_and!; [done|done|done|done| |done|].
    + intros i. unfold user_byte. rewrite Ht. simpl. by rewrite Hz.
    + exists s, a'. destruct (ensure_allocated_ok m (page_table sp) M a v ppn a' pt' m' Hg Hai Hv He)
        as (_ & _ & _ & -> & _). done.
  - intros a Ha Hty. destruct (Hfind a Ha) as (s & -> & Hs & Hv).
    rewrite (proj2 (Z.leb_gt _ _)) by (unfold in_area in Hv; lia). by rewrite Hty.
Qed.
End preservation.

(** ** mmap *)
Section mmap.
Context `{Buddy, KernelImage}.

(** An anonymous [mmap] gets memory of its own. For a request of [len] bytes
    (no [MAP_FIXED]) the call either fails with [ENOMEM], and then no range of
    that many pages above the hint and the mmap base is free, or it maps the first
    such range: a new lazy area of exactly the needed pages that meets no existing
    area and stays in the user half, the translation of every page as before, and
    the invariant kept. *)
Theorem try_map_spec m sp addr len perm flags :
  space_inv m sp → 0 ≤ addr ≤ LOW_ADDRESS_END → 0 < len < 2 ^ 63 →
  0 ≤ perm ≤ MapPermission.all → Flags.contains flags MmapFlags.MAP_FIXED = false →
  let lo := VirtAddr.vpn_floor (Z.max MMAP_START addr) in
  (∃ s sp', try_map m sp addr len perm flags = Ok (s, sp', m) ∧ space_inv m sp' ∧
     lo ≤ s ∧ s + npages len ≤ LOW_VPN_END ∧
     range_free (user_areas sp) s (s + npages len) ∧
     (∀ s', lo ≤ s' < s → ¬ range_free (user_areas sp) s' (s' + npages len)) ∧
     user_areas sp' = <[s := area_new s (s + npages len) perm Lazy]> (user_areas sp) ∧
     page_table sp' = page_table sp) ∨
  (try_map m sp addr len perm flags = Err ENOMEM ∧
   ∀ s', lo ≤ s' → s' + npages len ≤ LOW_VPN_END →
     ¬ range_free (user_areas sp) s' (s' + npages len)).
Proof.
  intros Hsp Haddr Hlen Hperm Hfix lo. pose proof Hsp as (M & Hg & Hi). unfold try_map.
  destruct (try_find_mmap_area_ok M sp addr len flags Hi Haddr Hlen Hfix)
    as [(s & -> & Hlo & Hlow & Hfree & Hmin)|[-> Hno]]; [left|by right]. simpl.
  pose proof (npages_pos len ltac:(lia)).
  assert (0 ≤ lo) by (apply vpn_floor_nonneg; lia).
  destruct (user_map_inv m sp s (s + npages len) perm Hsp Hfree)
    as (sp' & -> & Hsp' & Hpt & Har); [unfold lo in *; lia|done|done|].
  by exists s, sp'.
Qed.

Lemma try_map_inode_inv caches m sp addr len perm flags inode id0 s sp' m' :
  space_inv m sp → 0 ≤ addr ≤ LOW_ADDRESS_END → 0 < len < 2 ^ 63 →
  0 ≤ perm ≤ MapPermission.all → Flags.contains flags MmapFlags.MAP_FIXED = false →
  (∀ M id p, pages_inv m (page_table sp) M → caches inode !! id = Some p →
     cache_frame m (page_table sp) M p) →
  try_map_inode caches m sp addr len perm flags inode id0 = Ok (s, sp', m') →
  space_inv m' sp' ∧
  (∀ v, s ≤ v < s + npages len → fst <$> translate m' sp' v = caches inode !! (id0 + (v - s))).
Proof.
  intros Hsp Haddr Hlen Hperm Hfix Hc Ht. pose proof Hsp as (M & Hg & Hi).
  unfold try_map_inode in Ht.
  pose proof (npages_pos len ltac:(lia)).
  assert (0 ≤ VirtAddr.vpn_floor (Z.max MMAP_START addr)) by (apply vpn_floor_nonneg; lia).
  destruct (try_find_mmap_area_ok M sp addr len flags Hi Haddr Hlen Hfix)
    as [(s0 & Hf & Hlo & Hlow & Hfree & Hmin)|[Hf _]]; rewrite Hf in Ht; [|done]. simpl in Ht.
  apply bind_Ok in Ht as ([sp1 m1] & Hu & [= <- <- <-]).
  eapply user_map_with_file_inv in Hu; [done|done|done|lia|done|done|done].
Qed.
End mmap.

(** ** A concrete space: a fresh table and two areas *)
Definition demo_space : MemorySpace :=
  mkSpace boot_pt.1
    (<[0x2000000 := area_new 0x2000000 0x2000004 22 Lazy]>
       (<[0x10 := area_new 0x10 0x20 22 Lazy]> ∅)).
Definition demo_mem : Mem := boot_pt.2.

Lemma demo_space_inv : space_inv demo_mem demo_space.
Proof.
  destruct boot_pt_inv as (Hpt & Hm & Hw).
  assert (Hg : pages_inv demo_mem boot_pt.1 ∅).
  { split; [done|done|by intros v [? ?]| |done|done].
    intros v Hv. rewrite lookup_empty. apply Hw. by apply low_in_half. }
  assert (Hsp0 : space_inv demo_mem (mkSpace boot_pt.1 ∅)) by (exists ∅; by split).
  destruct (user_map_inv demo_mem (mkSpace boot_pt.1 ∅) 0x10 0x20 22 Hsp0)
    as (sp1 & _ & Hsp1 & Hp1 & Ha1);
    [done|lia|rewrite LOW_VPN_END_eq; lia|unfold MapPermission.all; lia|].
  destruct (user_map_inv demo_mem sp1 0x2000000 0x2000004 22 Hsp1)
    as (sp2 & _ & Hsp2 & Hp2 & Ha2);
    [|lia|rewrite LOW_VPN_END_eq; lia|unfold MapPermission.all; lia|].
  { intros k a. rewrite Ha1. simpl. rewrite lookup_insert. case_decide; [|done].
    intros [= <-]. left. simpl. lia. }
  assert (sp2 = demo_space) as <-; [|done]. destruct sp2 as [pt2 ar2].
  unfold page_table, user_areas in *. unfold demo_space.
  f_equal; [by rewrite Hp2, Hp1|by rewrite Ha2, Ha1].
Qed.

Lemma demo_area : area_at demo_space 0x12 (area_new 0x10 0x20 22 Lazy).
Proof. exists 0x10. split; [done|]. unfold in_area. simpl. lia. Qed.

Lemma handle_memory_exception_witness :
  ∃ ppn sp' m', handle_memory_exception demo_mem demo_space 0x12345 false = Ok (true, sp', m') ∧
    translate m' sp' 0x12 = Some (ppn, 23) ∧ user_byte m' sp' 0x12 5 = Some 0.
Proof.
  destruct (handle_memory_exception_spec demo_mem demo_space 0x12345 demo_space_inv
    ltac:(lia) ltac:(vm_compute; lia)) as (_ & _ & Hf & _).
  destruct (Hf _ demo_area eq_refl eq_refl) as (ppn & sp' & m' & He & _ & _ & Ht & Hz & _).
  exists ppn, sp', m'. split; [exact He|]. split; [exact Ht|apply Hz].
Defined.

(** The first request goes after the area that occupies the mmap base. *)
Lemma try_map_witness :
  ∃ sp', try_map demo_mem demo_space 0 0x1800 22 34 = Ok (0x2000004, sp', demo_mem) ∧
         space_inv demo_mem sp'.
Proof.
  destruct (try_map_spec demo_mem demo_space 0 0x1800 22 34 demo_space_inv ltac:(unfold_config; lia)
    ltac:(lia) ltac:(unfold MapPermission.all; lia) eq_refl) as [(s & sp' & He & Hi & _)|[He _]].
  - exists sp'. split; [|exact Hi].
    assert (Hs : match try_map demo_mem demo_space 0 0x1800 22 34 with
                 | Ok (s, _, _) => s | _ => 0 end = 0x2000004) by (vm_compute; reflexivity).
    rewrite He in Hs. simpl in Hs. rewrite <- Hs. exact He.
  - exfalso. assert (Hs : is_ok (try_map demo_mem demo_space 0 0x1800 22 34) = true)
      by (vm_compute; reflexivity).
    rewrite He in Hs. discriminate Hs.
Defined.
