(* ===== verification/SpaceOps.v ===== *)
(** * Removing, resizing and copying mappings

    The remaining operations of [MemorySpace]: [unmap], the program break,
    [recycle_user_pages] and the copy made by [fork], with the frames each gives
    back or takes. *)
From S2P Require Import Prelude BTree Address Defines FrameAllocator PageTable VmArea MemorySpace.

Section unmap.
Context `{Buddy, KernelImage}.

Lemma remove_area_inv m sp s a :
  space_inv m sp → user_areas sp !! s = Some a →
  ∃ sp' m', remove_area m sp s a = Ok (sp', m') ∧ space_inv m' sp' ∧
    user_areas sp' = delete s (user_areas sp) ∧
    (∀ f, is_free m' f ↔ f ∈ frames_of (unbacked_map a) ∨ is_free m f) ∧
    (∀ v, 0 ≤ v < LOW_VPN_END →
       translate m' sp' v = if decide (in_area a v) then None else translate m sp v) ∧
    (∀ f i, ¬ is_free m f → byte_at m' f i = byte_at m f i).
Proof.
  intros (M & Hg & Hi) Hs. destruct (ar_area Hi s a Hs) as [Hst Ha]. unfold remove_area.
  destruct (area_unmap_ok m (page_table sp) M a Hg Ha)
    as (a' & m' & M' & -> & Hg' & _ & HM & Hf & Hb). simpl.
  eexists _, m'. split_and!; [done| |done|done| |done].
  - exists M'. split; [done|]. by eapply areas_delete.
  - intros v Hv. unfold translate. simpl. rewrite (pg_walk Hg' v Hv), (pg_walk Hg v Hv), HM.
    by case_decide.
Qed.

(** An area against the range [s, e) to unmap. *)
Definition inside (s e : Z) (a : FramedVmArea) : Prop := s ≤ va_start a ∧ va_end a ≤ e.
Definition partly (s e : Z) (a : FramedVmArea) : Prop :=
  ¬ inside s e a ∧ s < va_end a ∧ va_start a < e.

#[global] Instance inside_dec s e a : Decision (inside s e a).
Proof. unfold inside. apply _. Defined.

Lemma entries_ok_start lo l x :
  entries_ok lo l → x ∈ l → va_start x.2 = x.1 ∧ x.1 ≤ va_end x.2.
Proof.
  revert lo. induction l as [|[k a] l IH]; intros lo; simpl; [by intros _ ?%not_elem_of_nil|].
  intros (? & ? & ? & Hl) [->|He]%elem_of_cons; simpl; [lia|by eapply IH].
Qed.

Lemma list_filter_none {A} (P : A → Prop) `{!∀ x, Decision (P x)} l :
  (∀ x, x ∈ l → ¬ P x) → filter P l = [].
Proof.
  induction l as [|x l IH]; intros Hl; [done|].
  rewrite filter_cons_False by (apply Hl; set_solver). apply IH. set_solver.
Qed.

(** The scan, on the entries in order: it collects the areas inside the range
    unless it meets one that is only partly covered. *)
Lemma unmap_scan_spec lo s e l :
  entries_ok lo l → s < e →
  ((∀ x, x ∈ l → ¬ partly s e x.2) →
     unmap_scan s e l = Ok (filter (λ x, inside s e x.2) l).*1) ∧
  ((∃ x, x ∈ l ∧ partly s e x.2) → unmap_scan s e l = Panic).
Proof.
  intros Hok Hse. revert lo Hok. induction l as [|[k a] l IH]; intros lo Hok.
  { split; [done|]. by intros (x & ?%not_elem_of_nil & _). }
  simpl in Hok. destruct Hok as (Hst & Hk & _ & Hok). destruct (IH _ Hok) as [IH1 IH2].
  simpl unmap_scan. rewrite filter_cons. simpl.
  destruct ((s <=? va_start a) && (va_end a <=? e)) eqn:Hin.
  - apply andb_true_iff in Hin as [H1%Z.leb_le H2%Z.leb_le].
    rewrite decide_True by done. split.
    + intros Hno. rewrite IH1 by set_solver. simpl. by rewrite Hst.
    + intros (x & [->|Hx]%elem_of_cons & Hp).
      { destruct Hp as [Hn _]. by destruct Hn. }
      rewrite IH2 by eauto. done.
  - assert (Hnin : ¬ inside s e a).
    { intros [? ?]. apply andb_false_iff in Hin as [?%Z.leb_gt|?%Z.leb_gt]; lia. }
    rewrite decide_False by done.
    destruct (Z.leb_spec (va_end a) s) as [Hl|Hl].
    { split.
      - intros Hno. apply IH1. set_solver.
      - intros (x & [->|Hx]%elem_of_cons & Hp); [destruct Hp as (_ & ? & _); simpl in *; lia|eauto]. }
    destruct (Z.leb_spec e (va_start a)) as [Hr|Hr].
    + assert (Hnext : ∀ x, x ∈ l → ¬ (inside s e x.2) ∧ ¬ partly s e x.2).
      { intros x Hx. pose proof (entries_ok_in _ _ _ Hok Hx) as Hxb.
        destruct (entries_ok_start _ _ _ Hok Hx). unfold inside, partly in *. lia. }
      split.
      * intros _. rewrite list_filter_none; [done|]. intros x Hx. by apply Hnext.
      * intros (x & [->|Hx]%elem_of_cons & Hp); [destruct Hp as (_ & _ & ?); simpl in *; lia|].
        by destruct (Hnext x Hx).
    + split; [|done]. intros Hno. destruct (Hno (k, a)); [set_solver|]. split_and!; simpl; [done|lia|lia].
Qed.
Lemma remove_areas_inv l m sp :
  space_inv m sp → NoDup l → (∀ k, k ∈ l → is_Some (user_areas sp !! k)) →
  ∃ sp' m', remove_areas m sp l = Ok (sp', m') ∧ space_inv m' sp' ∧
    (∀ k, user_areas sp' !! k = if decide (k ∈ l) then None else user_areas sp !! k) ∧
    (∀ f, is_free m' f ↔ is_free m f ∨
       ∃ k a, k ∈ l ∧ user_areas sp !! k = Some a ∧ f ∈ frames_of (unbacked_map a)) ∧
    (∀ v, 0 ≤ v < LOW_VPN_END →
       ((∃ k a, k ∈ l ∧ user_areas sp !! k = Some a ∧ in_area a v) → translate m' sp' v = None) ∧
       ((∀ k a, k ∈ l → user_areas sp !! k = Some a → ¬ in_area a v) →
          translate m' sp' v = translate m sp v)) ∧
    (∀ f i, ¬ is_free m' f → byte_at m' f i = byte_at m f i).
Proof.
  revert m sp. induction l as [|k l IH]; intros m sp Hsp Hnd Hl.
  { exists sp, m. split_and!; [done|done|done| | |done].
    - intros f. split; [by left|]. by intros [?|(? & ? & ?%not_elem_of_nil & _)].
    - intros v Hv. split; [|done]. by intros (? & ? & ?%not_elem_of_nil & _). }
  apply NoDup_cons in Hnd as [Hk Hnd]. destruct (Hl k) as [a Ha]; [set_solver|].
  simpl. rewrite Ha. simpl.
  destruct (remove_area_inv m sp k a Hsp Ha) as (sp1 & m1 & -> & Hsp1 & Har & Hf1 & Ht1 & Hb1).
  simpl. destruct (IH m1 sp1) as (sp' & m' & -> & Hsp' & Har' & Hf' & Ht' & Hb'); [done|done| |].
  { intros k' Hk'. rewrite Har, lookup_delete_ne by set_solver. set_solver. }
  exists sp', m'. split_and!; [done|done| | | |].
  - intros k'. rewrite Har', Har, lookup_delete. repeat case_decide; set_solver.
  - intros f. rewrite Hf', Hf1. split.
    + intros [[Hf|Hf]|(k' & b & Hin & Hb & Hf)]; [right; exists k, a; set_solver|by left|].
      right. exists k', b. rewrite Har in Hb. apply lookup_delete_Some in Hb. set_solver.
    + intros [Hf|(k' & b & [->|Hin]%elem_of_cons & Hb & Hf)]; [by left; right| |].
      * left. left. by simplify_eq.
      * right. exists k', b. rewrite Har, lookup_delete_ne by set_solver. done.
  - intros v Hv. destruct (Ht' v Hv) as [Ht1' Ht2']. specialize (Ht1 v Hv).
    assert (Hdel : ∀ k' b, k' ∈ l → user_areas sp1 !! k' = Some b ↔ user_areas sp !! k' = Some b).
    { intros k' b Hin. rewrite Har, lookup_delete_ne by set_solver. done. }
    destruct (decide (in_area a v)) as [Hav|Hav].
    + assert (translate m' sp' v = None) as ->.
      { destruct Hsp as (M & _ & Hi). rewrite Ht2'; [done|].
        intros k' b Hin Hb Hbv. apply Hdel in Hb; [|done].
        pose proof (area_unique _ _ _ _ _ _ _ Hi Ha Hb Hav Hbv). set_solver. }
      split; [done|]. intros Hno. destruct (Hno k a); [set_solver|done..].
    + rewrite Ht1 in Ht2'. split.
      * intros (k' & b & [->|Hin]%elem_of_cons & Hb & Hbv); [by simplify_eq|].
        apply Ht1'. exists k', b. by rewrite Hdel.
      * intros Hno. apply Ht2'. intros k' b Hin Hb. apply Hno with k'; [set_solver|by apply Hdel].
  - intros f i Hf. rewrite Hb' by done. apply Hb1. intros Hfm. apply Hf, Hf'. left.
    apply Hf1. by right.
Qed.

(** *** The cursor of [unmap] *)
Lemma unmap_cursor_ok M sp s :
  areas_inv M (user_areas sp) →
  (∃ lo, entries_ok lo (unmap_cursor sp s)) ∧ NoDup (unmap_cursor sp s).*1 ∧
  (∀ x, x ∈ unmap_cursor sp s → user_areas sp !! x.1 = Some x.2) ∧
  (∀ k a, user_areas sp !! k = Some a →
     (k, a) ∈ unmap_cursor sp s ∨ (va_start a < s ∧ va_end a < s)).
Proof.
  intros Hi. unfold unmap_cursor.
  assert (Hfrom : StronglySorted entry_le (btree_from (user_areas sp) s))
    by (apply sorted_filter, btree_iter_sorted).
  assert (Hndf : NoDup (btree_from (user_areas sp) s).*1) by apply btree_from_nodup.
  set (pre := filter _ _).
  assert (Hpre : ∀ x, x ∈ pre ↔ user_areas sp !! x.1 = Some x.2 ∧ x.1 < s).
  { intros [k a]. unfold pre. rewrite list_elem_of_filter, elem_of_btree_iter. naive_solver. }
  assert (Hin : ∀ x, x ∈ option_list (last pre) ++ btree_from (user_areas sp) s →
            user_areas sp !! x.1 = Some x.2).
  { intros [k a]. rewrite elem_of_app, elem_of_btree_from.
    intros [Hx|[? _]]; [|done]. destruct (last pre) as [y|] eqn:E; [|by apply not_elem_of_nil in Hx].
    apply list_elem_of_singleton in Hx as <-. by apply last_Some_elem_of, Hpre in E as [? _]. }
  assert (Hsort : StronglySorted entry_le (option_list (last pre) ++ btree_from (user_areas sp) s) ∧
            NoDup (option_list (last pre) ++ btree_from (user_areas sp) s).*1).
  { destruct (last pre) as [y|] eqn:E; [|done]. apply last_Some_elem_of, Hpre in E as [Hy Hys]. simpl.
    split.
    - constructor; [done|]. apply Forall_forall. intros [k a] Hx. apply elem_of_btree_from in Hx as [_ Hx].
      unfold entry_le. simpl in *. lia.
    - constructor; [|done]. intros ([k a] & Heq & Hx)%list_elem_of_fmap.
      apply elem_of_btree_from in Hx as [_ Hx]. simpl in *. lia. }
  destruct Hsort as [Hsort Hnd]. split_and!; [|done|done|].
  - exists 0. eapply entries_ok_sorted; [exact Hi|done|done|].
    intros x Hx. split; [by apply Hin|]. destruct (area_range _ _ _ _ Hi (Hin x Hx)). lia.
  - intros k a Hk. destruct (decide (s ≤ k)).
    { left. apply elem_of_app. right. by apply elem_of_btree_from. }
    assert ((k, a) ∈ pre) as Hp by (apply Hpre; simpl; split; [done|lia]).
    destruct (last pre) as [[k0 a0]|] eqn:E; [|apply last_None in E; rewrite E in Hp; by apply not_elem_of_nil in Hp].
    assert (Hr : Reflexive (entry_le (K:=Z) (V:=FramedVmArea))) by (intros x; unfold entry_le; simpl; lia).
    pose proof (sorted_last_max entry_le pre (k0, a0) ltac:(apply sorted_filter, btree_iter_sorted) E _ Hp) as Hmax.
    unfold entry_le in Hmax. simpl in Hmax.
    apply last_Some_elem_of, Hpre in E as [Hk0 Hk0s]. simpl in *.
    destruct (decide (k = k0)) as [->|]; [left; simplify_eq; apply elem_of_cons; by left|].
    right. pose proof (ar_disj Hi _ _ _ _ Hk Hk0 ltac:(lia)).
    destruct (area_range _ _ _ _ Hi Hk). lia.
Qed.
(** [MemorySpace::unmap] removes exactly the areas inside the range. If no
    area is only partly covered it succeeds: the areas inside disappear and the
    others stay, the pages of the removed areas lose their translation and every
    other page keeps its translation, the frames of the removed areas, and no
    others, become free, and the contents of all frames in use are unchanged. If
    some area is partly covered the call panics (splitting is not implemented). *)
Theorem unmap_exact m sp va_start va_end :
  space_inv m sp → 0 ≤ va_start < va_end →
  let s := VirtAddr.vpn_floor va_start in
  let e := VirtAddr.vpn_ceil va_end in
  ((∃ k a, user_areas sp !! k = Some a ∧ partly s e a) →
     space_unmap m sp va_start va_end = Panic) ∧
  ((∀ k a, user_areas sp !! k = Some a → ¬ partly s e a) →
     ∃ sp' m', space_unmap m sp va_start va_end = Ok (sp', m') ∧ space_inv m' sp' ∧
       (∀ k a, user_areas sp' !! k = Some a ↔ user_areas sp !! k = Some a ∧ ¬ inside s e a) ∧
       (∀ v a, area_at sp v a → inside s e a → translate m' sp' v = None) ∧
       (∀ v, 0 ≤ v < LOW_VPN_END → (∀ a, area_at sp v a → ¬ inside s e a) →
          translate m' sp' v = translate m sp v) ∧
       (∀ f, is_free m' f ↔ is_free m f ∨ ∃ k a, user_areas sp !! k = Some a ∧
          inside s e a ∧ f ∈ frames_of (unbacked_map a)) ∧
       (∀ f i, ¬ is_free m' f → byte_at m' f i = byte_at m f i)).
Proof.
  intros Hsp Hva s e. pose proof Hsp as (M & Hg & Hi). unfold space_unmap. fold s e.
  assert (Hse : s < e).
  { pose proof (vpn_floor_ceil va_start). pose proof (vpn_floor_ceil va_end).
    unfold s, e. rewrite PAGE_SIZE_eq in *. lia. }
  destruct (unmap_cursor_ok M sp s Hi) as ([lo Hok] & Hnd & Hin & Hcov).
  destruct (unmap_scan_spec lo s e _ Hok Hse) as [Hscan Hpanic]. split.
  - intros (k & a & Hk & Hp). rewrite Hpanic; [done|]. exists (k, a). split; [|done].
    destruct (Hcov k a Hk) as [?|[? ?]]; [done|]. destruct Hp as (_ & ? & _). lia.
  - intros Hno. rewrite Hscan; [|intros x Hx; eapply Hno; by apply Hin]. simpl.
    set (l := (filter _ _).*1).
    assert (Hl : ∀ k, k ∈ l ↔ ∃ a, user_areas sp !! k = Some a ∧ inside s e a).
    { intros k. unfold l. rewrite list_elem_of_fmap. split.
      - intros ([k' a] & -> & [Hins Hx]%list_elem_of_filter). exists a. by apply Hin in Hx.
      - intros (a & Hk & Hins). exists (k, a). split; [done|]. apply list_elem_of_filter.
        split; [done|]. destruct (Hcov k a Hk) as [?|[? ?]]; [done|]. destruct Hins. lia. }
    destruct (remove_areas_inv l m sp Hsp) as (sp' & m' & -> & Hsp' & Har & Hf & Ht & Hb).
    { by apply filter_keys_nodup. }
    { intros k (a & ? & _)%Hl. by exists a. }
    exists sp', m'. split_and!; [done|done| | | | |done].
    + intros k a. rewrite Har. case_decide as Hk; rewrite Hl in Hk.
      * split; [done|]. intros [Ha Hn]. destruct Hk as (a' & Ha' & ?). by simplify_eq.
      * split; [|by intros [? _]]. intros Ha. split; [done|]. intros Hins. apply Hk. by exists a.
    + intros v a (k & Hk & Hv) Hins. destruct (area_range _ _ _ _ Hi Hk). unfold in_area in Hv.
      apply Ht; [lia|]. exists k, a. split; [apply Hl; by exists a|done].
    + intros v Hv Hout. apply Ht; [done|]. intros k a (a' & Hk' & Hins)%Hl Hk Hkv.
      rewrite Hk in Hk'. injection Hk' as <-. apply (Hout a); [by exists k|done].
    + intros f. rewrite Hf. split; (intros [?|(k & a & Hk)]; [by left|right]); exists k, a.
      * destruct Hk as ((a' & Ha' & Hins)%Hl & Ha & Hfr). by simplify_eq.
      * destruct Hk as (Ha & Hins & Hfr). split_and!; [apply Hl; by exists a|done|done].
Qed.
End unmap.

Section brk.
Context `{Buddy, KernelImage}.

(** Nothing but the heap's own area lies between the heap's start [hs] and the
    new end [ne]. *)
Definition heap_room (areas : gmap Z FramedVmArea) (hs ne : Z) : Prop :=
  ∀ k b, areas !! k = Some b → k ≠ hs → va_end b ≤ hs ∨ (hs < k ∧ ne ≤ k).

Lemma areas_expand M areas hs a ne :
  areas_inv M areas → areas !! hs = Some a → heap_room areas hs ne →
  va_end a ≤ ne ≤ LOW_VPN_END → areas_inv M (<[hs := expand a ne]> areas).
Proof.
  intros Hi Hs Hroom Hne. destruct (ar_area Hi hs a Hs) as [Hst Ha].
  pose proof (ai_range Ha) as Hr.
  assert (Hnone : ∀ v, va_end a ≤ v < ne → M !! v = None).
  { intros v Hv. destruct (M !! v) as [i|] eqn:E; [|done].
    destruct (ar_cover Hi v i E) as (k & b & Hk & Hin). unfold in_area in Hin.
    destruct (decide (k = hs)) as [->|Hkn]; [simplify_eq; lia|].
    destruct (area_range _ _ _ _ Hi Hk). destruct (Hroom k b Hk Hkn); lia. }
  split.
  - intros k b. rewrite lookup_insert. case_decide; [|by apply (ar_area Hi)].
    intros [= <-]. subst k. split; [done|]. split; simpl; [lia|apply (ai_perm Ha)| | | |apply (ai_type Ha)].
    + intros v p Hv. destruct (ai_unbacked Ha v p Hv). split; [lia|done].
    + intros v Hv. destruct (ai_backed Ha v Hv). split; [lia|done].
    + intros v i Hv Hi'. destruct (decide (v < va_end a)); [apply (ai_only Ha); [lia|done]|].
      rewrite Hnone in Hi' by lia. done.
  - intros s1 a1 s2 a2. rewrite !lookup_insert. repeat case_decide; simplify_eq; try lia.
    + intros [= <-] H2' Hlt. simpl. destruct (area_range _ _ _ _ Hi H2').
      destruct (Hroom s2 a2 H2'); [done|lia|lia].
    + intros H1' [= <-] Hlt. apply (ar_disj Hi _ _ _ _ H1' Hs Hlt).
    + apply (ar_disj Hi).
  - intros v i Hv. destruct (ar_cover Hi v i Hv) as (k & b & Hk & Hin).
    destruct (decide (k = hs)) as [->|]; cycle 1.
    { exists k, b. by rewrite lookup_insert_ne. }
    rewrite Hs in Hk. injection Hk as <-. exists hs, (expand a ne).
    rewrite lookup_insert_eq. split; [done|]. unfold in_area in *. simpl. lia.
Qed.

(** [set_user_brk] moves the program break. A break at or below the heap's start,
    or beyond the user address space, is refused: the old break is returned and
    nothing changes. Otherwise, if no other area stands in the way, the break
    moves: the heap's area ends at the page of the new break, the pages cut off
    lose their translation, every other page keeps its translation and contents,
    and the invariant of the space is kept. *)
Theorem set_user_brk_spec m sp heap_start heap_end new_brk :
  space_inv m sp → 0 ≤ heap_start →
  let hs := VirtAddr.vpn_floor heap_start in
  let ne := VirtAddr.vpn_ceil new_brk in
  (new_brk ≤ heap_start ∨ LOW_ADDRESS_END < new_brk →
     set_user_brk m sp heap_start heap_end new_brk = Ok (heap_end, heap_end, sp, m)) ∧
  (heap_start < new_brk ≤ LOW_ADDRESS_END → heap_room (user_areas sp) hs ne →
   (∀ a, user_areas sp !! hs = Some a → a_type a = Lazy) →
     ∃ sp' m' a', set_user_brk m sp heap_start heap_end new_brk = Ok (new_brk, new_brk, sp', m') ∧
       space_inv m' sp' ∧ user_areas sp' = <[hs := a']> (user_areas sp) ∧ va_end a' = ne ∧
       (∀ v, 0 ≤ v < LOW_VPN_END →
          ((∃ a, user_areas sp !! hs = Some a ∧ ne ≤ v < va_end a) → translate m' sp' v = None) ∧
          ((∀ a, user_areas sp !! hs = Some a → ¬ ne ≤ v < va_end a) →
             translate m' sp' v = translate m sp v ∧
             ∀ i, user_byte m' sp' v i = user_byte m sp v i))).
Proof.
  intros Hsp Hhs hs ne. pose proof Hsp as (M & Hg & Hi). unfold set_user_brk. split.
  - intros Hbad. assert ((new_brk <=? heap_start) || (LOW_ADDRESS_END <? new_brk) = true) as ->; [|done].
    apply orb_true_iff. rewrite Z.leb_le, Z.ltb_lt. done.
  - intros Hb Hroom Hlazy.
    rewrite (proj2 (Z.leb_gt new_brk heap_start)), (proj2 (Z.ltb_ge _ new_brk)) by lia. simpl.
    fold hs ne. unfold space_set_user_brk.
    pose proof (vpn_floor_ceil heap_start) as Hfc1. pose proof (vpn_floor_ceil new_brk) as Hfc2.
    fold hs in Hfc1. fold ne in Hfc2. rewrite PAGE_SIZE_eq in *.
    assert (Hlow : ne ≤ LOW_VPN_END).
    { rewrite LOW_VPN_END_eq. unfold LOW_ADDRESS_END in Hb. lia. }
    assert (Hhs0 : 0 ≤ hs) by (by apply vpn_floor_nonneg).
    destruct (user_areas sp !! hs) as [a|] eqn:Ha.
    + destruct (ar_area Hi hs a Ha) as [Hst Hai].
      destruct (Z.leb_spec ne (va_end a)) as [Hle|Hgt].
      * destruct (shrink_ok m (page_table sp) M a ne Hg Hai (Hlazy a eq_refl) ltac:(lia))
          as (a' & m' & M' & -> & Hg' & Ha' & Hs' & He' & _ & HM & Hf & Hby). simpl.
        eexists _, m', a'. split_and!; [done| |done|done|].
        { exists M'. split; [done|]. apply (areas_update M M' _ hs a a');
            [done|done|by rewrite Hs'|lia|done| |].
          - intros v Hv. rewrite HM, decide_False; [done|]. unfold in_area in Hv. lia.
          - intros v i Hv. rewrite HM. case_decide; [done|]. unfold in_area in *. lia. }
        intros v Hv. unfold user_byte, translate. simpl.
        rewrite (pg_walk Hg' v Hv), (pg_walk Hg v Hv), HM. split.
        { intros (b & [= <-] & Hvb). by rewrite decide_True. }
        intros Hno. rewrite decide_False by (by apply Hno). split; [done|].
        intros i. destruct (M !! v) as [pi|] eqn:HMv; [|done]. simpl. f_equal.
        apply Hby. by apply (pg_frame Hg v pi HMv).
      * simpl. eexists _, m, (expand a ne). split_and!; [done| |done|done|].
        { exists M. split; [done|]. apply areas_expand; [done|done|done|lia]. }
        intros v Hv. split; [|done]. intros (b & [= <-] & ?). lia.
    + destruct (user_map_inv m sp hs ne
        (Z.lor (Z.lor MapPermission.R MapPermission.W) MapPermission.U) Hsp)
        as (sp' & -> & Hsp' & Hpt & Har); [|lia|done|done|].
      { intros k b Hk. apply Hroom; [done|]. congruence. }
      simpl. eexists sp', m, _. split_and!; [done|done|exact Har|done|].
      intros v Hv. unfold user_byte, translate. rewrite Hpt. split; [|done]. by intros (? & ? & _).
Qed.
End brk.

(** ** Recycling a space *)
Section recycle.
Context `{Buddy, KernelImage}.

(** The frames the areas of a space hold. *)
Definition owned_frames (sp : MemorySpace) : list Z :=
  btree_iter (user_areas sp) ≫= λ e, frames_of (unbacked_map e.2).

Lemma elem_of_owned_frames sp f :
  f ∈ owned_frames sp ↔ ∃ s a v, user_areas sp !! s = Some a ∧ unbacked_map a !! v = Some f.
Proof.
  unfold owned_frames. rewrite list_elem_of_bind. split.
  - intros ([s a] & [v Hv]%elem_of_frames_of & Hin). rewrite elem_of_btree_iter in Hin.
    by exists s, a, v.
  - intros (s & a & v & Hs & Hv). exists (s, a). rewrite elem_of_btree_iter.
    split; [|done]. apply elem_of_frames_of. by exists v.
Qed.

(** An owned frame is in use and holds no table. *)
Lemma owned_frame_ok m sp f :
  space_inv m sp → f ∈ owned_frames sp →
  ¬ is_free m f ∧ begin_ppn ≤ f < end_ppn ∧ f ∉ table_frames (page_table sp).
Proof.
  intros (M & Hg & Hi) (s & a & v & Hs & Hv)%elem_of_owned_frames.
  destruct (ar_area Hi s a Hs) as [_ Ha]. destruct (ai_unbacked Ha v f Hv) as [_ HM].
  by apply (pg_frame Hg v _ HM).
Qed.

(** [recycle_user_pages] leaves an empty user half. No page of the user half
    is translated any more, no area is left, every frame the areas held is free
    again, as are all table frames but the root and at most one other, and the
    invariant holds. *)
Theorem recycle_user_pages_spec m sp :
  space_inv m sp →
  ∃ sp' m', recycle_user_pages m sp = Ok (sp', m') ∧ space_inv m' sp' ∧
    user_areas sp' = ∅ ∧ root_frame (page_table sp') = root_frame (page_table sp) ∧
    (∀ v, 0 ≤ v < LOW_VPN_END → translate m' sp' v = None) ∧
    (∀ f, is_free m' f ↔ is_free m f ∨ f ∈ owned_frames sp ∨
       f ∈ drop 1 (pt_frames (page_table sp))).
Proof.
  intros Hsp. pose proof Hsp as (M & Hg & Hi). unfold recycle_user_pages.
  change (btree_iter (user_areas sp) ≫= _) with (owned_frames sp).
  destruct (Frames_drop_spec (owned_frames sp) m) as (m1 & -> & Hf1 & Hp1 & Hb1).
  { intros f Hf. by apply (owned_frame_ok m sp). }
  destruct (pg_pt Hg) as [tree Ht]. simpl.
  assert (Hpt1 : pt_inv 256 m1 (page_table sp)).
  { exists tree. apply (pt_tree_frame _ m); [done| |].
    - intros f i _. unfold pte_at. by rewrite Hp1.
    - intros f Hf [Ho|?]%Hf1; [|by destruct (t_owned Ht f Hf)].
      by destruct (owned_frame_ok m sp f Hsp Ho) as (_ & _ & ?). }
  destruct (clear_ok m1 (page_table sp) Hpt1) as (m' & -> & Hpt' & Hw & Hf' & _ & _). simpl.
  assert (Hfree : ∀ f, is_free m' f ↔ is_free m f ∨ f ∈ owned_frames sp ∨
            f ∈ drop 1 (pt_frames (page_table sp))).
  { intros f. rewrite Hf', Hf1. tauto. }
  assert (Hm' : mem_inv m').
  { intros f [Hf|[Hf|Hf]]%Hfree; [by apply (pg_mem Hg)|by apply (owned_frame_ok m sp)|].
    apply (t_owned Ht). apply elem_of_cons. right.
    rewrite <- (take_drop 1 (pt_frames (page_table sp))). apply elem_of_app. by right. }
  eexists _, m'. split_and!; [done| |done|done| |done].
  - exists ∅. split; simpl.
    + split; [done|done| | | |].
      * intros v [? ?]. done.
      * intros v Hv. rewrite Hw by by apply low_in_half. done.
      * done.
      * done.
    + split; [done|done|done].
  - intros v Hv. unfold translate. apply Hw. by apply low_in_half.
Qed.
End recycle.

(** ** The concrete space *)
Lemma demo_areas k a :
  user_areas demo_space !! k = Some a →
  (k = 0x10 ∧ a = area_new 0x10 0x20 22 Lazy) ∨
  (k = 0x2000000 ∧ a = area_new 0x2000000 0x2000004 22 Lazy).
Proof.
  unfold demo_space. simpl. rewrite !lookup_insert. repeat case_decide; naive_solver.
Qed.

(** Unmapping the lower area, and half of it. *)
Lemma unmap_exact_witness :
  (∃ sp' m', space_unmap demo_mem demo_space 0x10000 0x20000 = Ok (sp', m') ∧
     user_areas sp' !! 0x10 = None) ∧
  space_unmap demo_mem demo_space 0x10000 0x18000 = Panic.
Proof.
  split.
  - destruct (unmap_exact demo_mem demo_space 0x10000 0x20000 demo_space_inv ltac:(lia)) as [_ Hu].
    destruct Hu as (sp' & m' & He & _ & Har & _).
    { intros k a [[-> ->]|[-> ->]]%demo_areas; unfold partly, inside; simpl.
      - intros (Hn & _). apply Hn. vm_compute. split; congruence.
      - intros (_ & _ & Hx). vm_compute in Hx. congruence. }
    exists sp', m'. split; [exact He|].
    destruct (user_areas sp' !! 0x10) as [a|] eqn:E; [|reflexivity]. exfalso.
    apply Har in E as [[[_ ->]|[? _]]%demo_areas Hn]; [|lia].
    apply Hn. vm_compute. split; congruence.
  - destruct (unmap_exact demo_mem demo_space 0x10000 0x18000 demo_space_inv ltac:(lia)) as [Hp _].
    apply Hp. exists 0x10, (area_new 0x10 0x20 22 Lazy). split; [reflexivity|].
    unfold partly, inside. vm_compute. split; [|split; congruence].
    intros [_ Hx]. apply Hx. reflexivity.
Defined.

(** The lower area as a heap that starts at its first page. *)
Lemma set_user_brk_witness :
  ∃ sp' m', set_user_brk demo_mem demo_space 0x10000 0x20000 0x18001 = Ok (0x18001, 0x18001, sp', m') ∧
    space_inv m' sp'.
Proof.
  destruct (set_user_brk_spec demo_mem demo_space 0x10000 0x20000 0x18001 demo_space_inv ltac:(lia))
    as [_ Hb].
  destruct Hb as (sp' & m' & a' & He & Hi & _).
  - unfold LOW_ADDRESS_END. lia.
  - intros k b [[-> ->]|[-> ->]]%demo_areas Hk; [exfalso; apply Hk; reflexivity|].
    right. vm_compute. split; congruence.
  - intros a Ha. apply demo_areas in Ha as [[_ ->]|[_ ->]]; reflexivity.
  - exists sp', m'. split; [exact He|exact Hi].
Defined.

Lemma recycle_user_pages_witness :
  ∃ sp' m', recycle_user_pages demo_mem demo_space = Ok (sp', m') ∧ space_inv m' sp'.
Proof.
  destruct (recycle_user_pages_spec demo_mem demo_space demo_space_inv) as (sp' & m' & He & Hi & _).
  exists sp', m'. split; [exact He|exact Hi].
Defined.
