(* ===== verification/Fork.v ===== *)
(** * Copying an address space ([MemorySpace::from_other])

    [fork] gives the child a deep copy of the parent's pages. The development
    follows the copy area by area: everything the child's space uses was free
    when the copy began, so the parent's tables and pages are out of its reach. *)
From S2P Require Import Prelude BTree Address Defines FrameAllocator PageTable VmArea MemorySpace SpaceOps.

Section fork.
Context `{Buddy, KernelImage}.

(** The child's space during the copy; [m0] is the memory when it began. *)
Record copy_inv (m0 m : Mem) (pt : PageTable) (M : gmap Z page_info) : Prop := {
  ci_pages : pages_inv m pt M;
  ci_tables f : f ∈ table_frames pt → is_free m0 f;
  ci_owned v i : M !! v = Some i → pi_owned i = true → is_free m0 (pi_ppn i);
  ci_free f : is_free m f → is_free m0 f;
  ci_bytes f i : ¬ is_free m0 f → byte_at m f i = byte_at m0 f i;
  ci_ptes f i : ¬ is_free m0 f → pte_at m f i = pte_at m0 f i;
}.
#[global] Arguments ci_pages {m0 m pt M}.
#[global] Arguments ci_tables {m0 m pt M}.
#[global] Arguments ci_owned {m0 m pt M}.
#[global] Arguments ci_free {m0 m pt M}.
#[global] Arguments ci_bytes {m0 m pt M}.
#[global] Arguments ci_ptes {m0 m pt M}.

(** The content of the page [q] is the one of [p] in the memory [m0]. *)
Definition same_page (m0 m : Mem) (p q : Z) : Prop :=
  ∀ i, 0 ≤ i < PAGE_SIZE → byte_at m q i = byte_at m0 p i.

Lemma byte_at_copy_from m dst src f i :
  byte_at (Frame_copy_from m dst src) f i =
    if decide (f = dst ∧ 0 ≤ i < PAGE_SIZE) then byte_at m src i else byte_at m f i.
Proof.
  unfold Frame_copy_from. rewrite byte_at_write_bytes, length_fmap, length_seqZ.
  rewrite Z2Nat.id, Z.add_0_l by done.
  destruct (decide (f = dst ∧ 0 ≤ i < PAGE_SIZE)) as [[-> Hi]|]; [|done].
  rewrite list_lookup_fmap, lookup_seqZ_lt by lia. simpl. f_equal. lia.
Qed.

Lemma copy_from_frame m dst src :
  allocator (Frame_copy_from m dst src) = allocator m ∧
  pte_mem (Frame_copy_from m dst src) = pte_mem m.
Proof. unfold Frame_copy_from. apply write_bytes_frame. Qed.

Lemma copy_from_pages m pt M dst src :
  pages_inv m pt M → pages_inv (Frame_copy_from m dst src) pt M.
Proof. unfold Frame_copy_from. apply write_bytes_pages. Qed.

#[local] Opaque Frame_copy_from.

(** One page: a fresh frame with the content of the source frame. *)
Lemma copy_page_ok m0 m pt M dst v p q dst' pt' m1 :
  copy_inv m0 m pt M → area_inv M dst → in_area dst v → unbacked_map dst !! v = None →
  ¬ is_free m0 p → ensure_allocated m pt dst v = Ok (q, dst', pt', m1) →
  let m' := Frame_copy_from m1 q p in
  ∃ M', copy_inv m0 m' pt' M' ∧ area_inv M' dst' ∧
    dst' = with_unbacked dst (unbacked_map dst') ∧ unbacked_map dst' !! v = Some q ∧
    (∀ w, w ≠ v → M' !! w = M !! w ∧ unbacked_map dst' !! w = unbacked_map dst !! w) ∧
    is_free m q ∧ same_page m0 m' p q ∧
    (∀ f i, ¬ is_free m f → byte_at m' f i = byte_at m f i) ∧
    (∀ f, is_free m' f → is_free m f) ∧ ¬ is_free m' q.
Proof.
  intros Hc Ha Hv Hum Hp He m'.
  destruct (ensure_allocated_ok m pt M dst v q dst' pt' m1 (ci_pages Hc) Ha Hv He)
    as (M' & Hg' & Ha' & Heq & Hu & Hw & Hf & Hb & Hz). destruct (Hz Hum) as [Hfree Hzero].
  pose proof (copy_from_pages m1 pt' M' q p Hg') as Hg2.
  pose proof (byte_at_copy_from m1 q p) as Hbc.
  destruct (copy_from_frame m1 q p) as [Hal Hpm].
  fold m' in Hal, Hpm, Hbc, Hg2. clearbody m'.
  assert (Hfm' : ∀ f, is_free m' f ↔ is_free m1 f) by (intros f; unfold is_free; by rewrite Hal).
  assert (Hpq : ∀ f, ¬ is_free m f → f ≠ q) by (intros f Hnf ->; done).
  assert (Hnf : ∀ f, ¬ is_free m0 f → ¬ is_free m f) by (intros f Hnf Hff; by apply Hnf, (ci_free Hc)).
  assert (Hbytes : ∀ f i, ¬ is_free m f → byte_at m' f i = byte_at m f i).
  { intros f i Hff. rewrite Hbc, decide_False; [by apply Hb|].
    intros [-> _]. by apply (Hpq q). }
  destruct (ai_unbacked Ha' v q Hu) as [_ HMv].
  pose proof (ensure_allocated_extends _ _ _ _ _ _ _ _ _ (ci_pages Hc) Ha Hv Hum He) as Hxt.
  destruct Hxt as (Htab & Hpte).
  exists M'. split_and!; [|done|done|done|done|done| |done| |].
  - split.
    + done.
    + intros f [Hin|Hin]%Htab; [by apply (ci_tables Hc)|by apply (ci_free Hc)].
    + intros w i HMw Ho. destruct (decide (w = v)) as [->|Hne].
      * rewrite HMv in HMw. injection HMw as <-. by apply (ci_free Hc).
      * rewrite (proj1 (Hw w Hne)) in HMw. by apply (ci_owned Hc w).
    + intros f Hff. by apply (ci_free Hc), Hf, Hfm'.
    + intros f i Hff. rewrite Hbytes by by apply Hnf. by apply (ci_bytes Hc).
    + intros f i Hff. unfold pte_at. rewrite Hpm. fold (pte_at m1 f i).
      rewrite Hpte; [by apply (ci_ptes Hc)| |by apply Hnf]. intros Hin. apply Hff, (ci_tables Hc), Hin.
  - intros i Hi. rewrite Hbc, decide_True by done.
    rewrite Hb by by apply Hnf. by apply (ci_bytes Hc).
  - intros f Hff. by apply Hf, Hfm'.
  - rewrite Hfm'. destruct (pg_frame Hg' v _ HMv) as (? & _). done.
Qed.
Lemma copy_pages_ok l m0 m pt M dst dst' pt' m' :
  copy_inv m0 m pt M → area_inv M dst → NoDup l.*1 →
  (∀ v p, (v, p) ∈ l → in_area dst v ∧ unbacked_map dst !! v = None ∧ ¬ is_free m0 p) →
  copy_pages m pt dst l = Ok (dst', pt', m') →
  ∃ M', copy_inv m0 m' pt' M' ∧ area_inv M' dst' ∧
    dst' = with_unbacked dst (unbacked_map dst') ∧
    (∀ v p, (v, p) ∈ l → ∃ q, unbacked_map dst' !! v = Some q ∧ same_page m0 m' p q) ∧
    (∀ w, w ∉ l.*1 → M' !! w = M !! w ∧ unbacked_map dst' !! w = unbacked_map dst !! w) ∧
    (∀ f i, ¬ is_free m f → byte_at m' f i = byte_at m f i) ∧
    (∀ f, is_free m' f → is_free m f).
Proof.
  revert m pt M dst. induction l as [|[v p] l IH]; intros m pt M dst Hc Ha Hnd Hl Hcp.
  { simpl in Hcp. injection Hcp as <- <- <-. exists M. destruct dst.
    split_and!; [done..|by intros v p ?%not_elem_of_nil|done|done|done]. }
  simpl in Hcp. apply bind_Ok in Hcp as ([[[q dst1] pt1] m1] & He & Hcp).
  simpl in Hnd. apply NoDup_cons in Hnd as [Hvn Hnd].
  destruct (Hl v p) as (Hv & Hum & Hp); [apply elem_of_cons; by left|].
  destruct (copy_page_ok m0 m pt M dst v p q dst1 pt1 m1 Hc Ha Hv Hum Hp He)
    as (M1 & Hc1 & Ha1 & Heq1 & Hu1 & Hw1 & Hfq & Hsame & Hb1 & Hf1 & Hnq).
  assert (Hin1 : ∀ w, in_area dst1 w ↔ in_area dst w) by (intros w; by rewrite Heq1).
  destruct (IH _ pt1 M1 dst1 Hc1 Ha1 Hnd) as (M' & Hc' & Ha' & Heq' & Hpg & Hout & Hb' & Hf');
    [|exact Hcp|].
  { intros w r Hwr. destruct (Hl w r) as (? & ? & ?); [apply elem_of_cons; by right|].
    assert (w ≠ v) as Hne.
    { intros ->. apply Hvn. by apply (list_elem_of_fmap_2 fst l (v, r)). }
    rewrite Hin1, (proj2 (Hw1 w Hne)). done. }
  exists M'. split_and!; [done|done|by rewrite Heq', Heq1| | | |].
  - intros w r [[= -> ->]|Hwr]%elem_of_cons; [|by apply Hpg].
    exists q. destruct (Hout v Hvn) as [_ ->]. split; [done|].
    intros i Hi. rewrite Hb' by done. by apply Hsame.
  - intros w Hw. simpl in Hw. apply not_elem_of_cons in Hw as [Hne Hw].
    destruct (Hout w Hw) as [-> ->]. by apply Hw1.
  - intros f i Hnf. rewrite Hb'; [by apply Hb1|]. intros Hff. by apply Hnf, Hf1.
  - intros f Hff. by apply Hf1, Hf'.
Qed.

Lemma copy_inv_extends m0 m pt M m' pt' M' :
  copy_inv m0 m pt M → pt_extends m pt m' pt' → pages_inv m' pt' M' →
  (∀ v i, M' !! v = Some i → pi_owned i = true → M !! v = Some i) →
  copy_inv m0 m' pt' M'.
Proof.
  intros Hc Hx Hg Ho. split.
  - done.
  - intros f [->|Hf]%elem_of_cons.
    + rewrite (x_root Hx). apply (ci_tables Hc), elem_of_cons. by left.
    + apply (x_frames Hx) in Hf as [Hf|Hf]; [apply (ci_tables Hc), elem_of_cons; by right|].
      by apply (ci_free Hc).
  - intros v i Hv Hi. eapply (ci_owned Hc); [by apply Ho|done].
  - intros f Hf. apply (ci_free Hc), (x_free Hx), Hf.
  - intros f i Hf. rewrite (x_byte Hx) by (intros Hff; by apply Hf, (ci_free Hc)).
    by apply (ci_bytes Hc).
  - intros f i Hf. rewrite (x_pte Hx); [by apply (ci_ptes Hc)|].
    rewrite elem_of_cons. intros [->|[Hin|Hin]%(x_frames Hx)].
    + apply Hf, (ci_tables Hc), elem_of_cons. by left.
    + apply Hf, (ci_tables Hc), elem_of_cons. by right.
    + by apply Hf, (ci_free Hc).
Qed.

(** The page caches hold frames in use. *)
Definition caches_ok (m : Mem) (caches : PageCaches) : Prop :=
  ∀ inode id p, caches inode !! id = Some p → ¬ is_free m p ∧ begin_ppn ≤ p < end_ppn.

Lemma caches_frame m0 m pt M caches inode id p :
  copy_inv m0 m pt M → caches_ok m0 caches → caches inode !! id = Some p →
  cache_frame m pt M p.
Proof.
  intros Hc Hok Hp. destruct (Hok _ _ _ Hp) as [Hnf Hr]. split_and!; [|lia|lia| |].
  - intros Hf. by apply Hnf, (ci_free Hc).
  - intros Hin. by apply Hnf, (ci_tables Hc).
  - intros v i Hv <-. destruct (pi_owned i) eqn:Ho; [|done]. destruct Hnf. by eapply (ci_owned Hc).
Qed.

(** A copy [dst] of the area [src], but for its pages: a file-backed area becomes a
    [Mmap] one, any other a [Lazy] one. *)
Definition area_like (src dst : FramedVmArea) : Prop :=
  va_start dst = va_start src ∧ va_end dst = va_end src ∧ a_perm dst = a_perm src ∧
  backed_inode dst = backed_inode src ∧
  match backed_inode src with
  | Some _ => a_type dst = Mmap ∧ backed_inode_page_id dst = backed_inode_page_id src
  | None => a_type dst = Lazy
  end.
(** The pages of a file-backed area are those the page cache of the file has. *)
Definition file_pages (caches : PageCaches) (src : FramedVmArea) (M : gmap Z page_info) : Prop :=
  ∀ inode v, backed_inode src = Some inode → in_area src v →
    pi_ppn <$> M !! v = caches inode !! (backed_inode_page_id src + (v - va_start src)).

Lemma area_like_unbacked src dst um : area_like src dst → area_like src (with_unbacked dst um).
Proof. done. Qed.
Lemma backed_no_unbacked M a inode : area_inv M a → backed_inode a = Some inode → unbacked_map a = ∅.
Proof.
  intros Ha Hb. pose proof (ai_type Ha) as Ht. destruct (a_type a); [destruct Ht; congruence|done].
Qed.
(** A mapped page of an area has the permissions of the area. *)
Lemma area_page_flags M a v i : area_inv M a → in_area a v → M !! v = Some i → pi_flags i = leaf_flags (a_perm a).
Proof.
  intros Ha Hv Hi. pose proof (ai_only Ha v i Hv Hi) as Ho. destruct (pi_owned i).
  - destruct (ai_unbacked Ha _ _ Ho) as [_ HM]. rewrite Hi in HM. by injection HM as ->.
  - destruct (ai_backed Ha _ Ho) as (_ & p & HM). rewrite Hi in HM. by injection HM as ->.
Qed.

(** The empty copy of an area, before its pages are filled in. *)
Lemma new_area_ok m0 m sp M caches src sp1 m1 :
  copy_inv m0 m (page_table sp) M → areas_inv M (user_areas sp) → caches_ok m0 caches →
  (∃ M0, area_inv M0 src) → range_free (user_areas sp) (va_start src) (va_end src) →
  match backed_inode src with
  | Some inode => user_map_with_file caches m sp (va_start src) (va_end src) (a_perm src)
                    inode (backed_inode_page_id src)
  | None => user_map m sp (va_start src) (va_end src) (a_perm src)
  end = Ok (sp1, m1) →
  ∃ M1 dst, copy_inv m0 m1 (page_table sp1) M1 ∧ areas_inv M1 (user_areas sp1) ∧
    user_areas sp1 = <[va_start src := dst]> (user_areas sp) ∧
    area_like src dst ∧ unbacked_map dst = ∅ ∧
    (∀ v, ¬ in_area src v → M1 !! v = M !! v) ∧ file_pages caches src M1 ∧
    (∀ f i, ¬ is_free m f → byte_at m1 f i = byte_at m f i) ∧
    (∀ f, is_free m1 f → is_free m f).
Proof.
  intros Hc Hi Hok [M0 Hsrc] Hr Hnew. pose proof (ai_range Hsrc) as Hrange.
  assert (Hnone : ∀ v, va_start src ≤ v < va_end src → M !! v = None)
    by (intros v Hv; by eapply range_free_none).
  destruct (backed_inode src) as [inode|] eqn:Hb.
  - unfold user_map_with_file in Hnew. apply bind_Ok in Hnew as ([[a pt] m2] & Hib & Hnew).
    edestruct (init_backed_inode_ok caches m (page_table sp) M)
      as (M' & Hg' & Ha' & Hs' & He' & Hout & Hin & Hx);
      [apply (ci_pages Hc)|..|exact Hib|]; [lia|lia|apply (ai_perm Hsrc)|done| |].
    { intros id p Hp. by eapply caches_frame. }
    assert (Hra : range_free (user_areas sp) (va_start a) (va_end a)) by by rewrite Hs', He'.
    rewrite (insert_area_ok M) in Hnew by done. simpl in Hnew. injection Hnew as <- <-.
    assert (unbacked_map a = ∅ ∧ area_like src a) as [Hty Hpm].
    { unfold init_backed_inode in Hib. apply bind_Ok in Hib as (? & _ & Hib).
      apply bind_Ok in Hib as (? & _ & Hib).
      apply bind_Ok in Hib as ([[? ?] ?] & _ & [= <- _ _]). unfold area_like. by rewrite Hb. }
    exists M', a. simpl. split_and!; [| | |done|done|done| | |].
    + eapply copy_inv_extends; [done|done|done|]. intros v i HMv Ho.
      destruct (decide (va_start src ≤ v < va_end src)) as [Hv|Hv]; [|by rewrite Hout in HMv].
      pose proof (ai_only Ha' v i) as Hon. rewrite Hs', He', Ho, Hty in Hon.
      specialize (Hon Hv HMv). done.
    + apply (areas_insert M); [done|done|done|]. intros v Hv. apply Hout.
      unfold in_area in Hv. by rewrite Hs', He' in Hv.
    + by rewrite Hs'.
    + intros ino v Hino Hv. rewrite Hb in Hino. injection Hino as <-. rewrite <- Hin by done. done.
    + intros f i Hf. by apply (x_byte Hx).
    + intros f Hf. by apply (x_free Hx) in Hf as [? _].
  - destruct (user_map_ok m sp M (va_start src) (va_end src) (a_perm src)) as [Hu Hi'];
      [apply (ci_pages Hc)|done|done|lia|lia|apply (ai_perm Hsrc)|].
    rewrite Hu in Hnew. injection Hnew as <- <-. exists M, (area_new (va_start src) (va_end src) (a_perm src) Lazy).
    split_and!; [done..|unfold area_like; by rewrite Hb|done|done| |done|done].
    intros ino v Hino. congruence.
Qed.
(** The child's copy [dst] of the area [src]. *)
Definition area_copied (m0 m' : Mem) (src dst : FramedVmArea) : Prop :=
  area_like src dst ∧
  (∀ v, is_Some (unbacked_map dst !! v) ↔ is_Some (unbacked_map src !! v)) ∧
  (∀ v p, unbacked_map src !! v = Some p →
     ∃ q, unbacked_map dst !! v = Some q ∧ same_page m0 m' p q).

(** An area of the parent. *)
Definition source_ok (m0 : Mem) (src : FramedVmArea) : Prop :=
  (∃ M0, area_inv M0 src) ∧ ∀ v p, unbacked_map src !! v = Some p → ¬ is_free m0 p.

Lemma copy_area_ok m0 m sp M caches src sp' m' :
  copy_inv m0 m (page_table sp) M → areas_inv M (user_areas sp) → caches_ok m0 caches →
  source_ok m0 src → range_free (user_areas sp) (va_start src) (va_end src) →
  copy_area caches m sp src = Ok (sp', m') →
  ∃ M' dst, copy_inv m0 m' (page_table sp') M' ∧ areas_inv M' (user_areas sp') ∧
    user_areas sp' = <[va_start src := dst]> (user_areas sp) ∧ area_copied m0 m' src dst ∧
    (∀ v, ¬ in_area src v → M' !! v = M !! v) ∧ file_pages caches src M' ∧
    (∀ f i, ¬ is_free m f → byte_at m' f i = byte_at m f i) ∧
    (∀ f, is_free m' f → is_free m f).
Proof.
  intros Hc Hi Hok [Hsrc Hnf] Hr Hcp. unfold copy_area in Hcp.
  apply bind_Ok in Hcp as ([sp1 m1] & Hnew & Hcp).
  destruct (new_area_ok m0 m sp M caches src sp1 m1 Hc Hi Hok Hsrc Hr Hnew)
    as (M1 & dst & Hc1 & Hi1 & Har1 & Hlk & Hu1 & HM1 & Hfp & Hb1 & Hf1).
  pose proof Hlk as (Hs1 & He1 & Hp1 & _).
  rewrite Har1, lookup_insert_eq in Hcp. simpl in Hcp.
  apply bind_Ok in Hcp as ([[dst2 pt2] m2] & Hpages & [= <- <-]).
  assert (Hdst : user_areas sp1 !! va_start src = Some dst) by by rewrite Har1, lookup_insert_eq.
  destruct (ar_area Hi1 _ _ Hdst) as [_ Hadst]. destruct Hsrc as [M0 Hsrc].
  destruct (copy_pages_ok (btree_iter (unbacked_map src)) m0 m1 (page_table sp1) M1 dst dst2 pt2 m2)
    as (M2 & Hc2 & Ha2 & Heq2 & Hpg & Hout & Hb2 & Hf2);
    [done|done|apply btree_keys_nodup| |done|].
  { intros v p Hvp. apply elem_of_btree_iter in Hvp. destruct (ai_unbacked Hsrc v p Hvp) as [Hv _].
    rewrite Hu1. split_and!; [unfold in_area; lia|done|by eapply Hnf]. }
  assert (Hkeys : ∀ w, w ∉ (btree_iter (unbacked_map src)).*1 ↔ unbacked_map src !! w = None).
  { intros w. change (w ∉ btree_keys (unbacked_map src) ↔ unbacked_map src !! w = None).
    rewrite elem_of_btree_keys, <- eq_None_not_Some. done. }
  assert (area_like src dst2) as Hlk2 by (rewrite Heq2; by apply area_like_unbacked).
  pose proof Hlk2 as (Hs2 & He2 & Hp2 & _).
  exists M2, dst2. simpl. split_and!.
  - done.
  - rewrite <- Har1. apply (areas_update M1 M2 (user_areas sp1) (va_start src) dst dst2); [done|done|done|lia|done| |].
    + intros v Hv. apply Hout, Hkeys. destruct (unbacked_map src !! v) as [p|] eqn:E; [|done].
      destruct Hv. destruct (ai_unbacked Hsrc v p E). unfold in_area. lia.
    + intros v i Hv _. unfold in_area in *. lia.
  - apply insert_insert_eq.
  - split_and!; [done| |].
    + intros v. destruct (unbacked_map src !! v) as [p|] eqn:E.
      * destruct (Hpg v p) as (q & -> & _); [by apply elem_of_btree_iter|]. by split; eauto.
      * destruct (Hout v) as [_ ->]; [by apply Hkeys|]. by rewrite Hu1.
    + intros v p Hvp. apply Hpg. by apply elem_of_btree_iter.
  - intros v Hv. destruct (Hout v) as [-> _]; [|by apply HM1]. apply Hkeys.
    destruct (unbacked_map src !! v) as [p|] eqn:E; [|done]. by destruct Hv, (ai_unbacked Hsrc v p E).
  - intros ino v Hino Hv. rewrite <- (Hfp ino v Hino Hv). destruct (Hout v) as [-> _]; [|done]. apply Hkeys.
    by rewrite (backed_no_unbacked M0 src ino).
  - intros f i Hff. rewrite Hb2; [by apply Hb1|]. intros Hx. by apply Hff, Hf1.
  - intros f Hff. by apply Hf1, Hf2.
Qed.

Lemma area_copied_later m0 m1 m' M1 src dst :
  area_copied m0 m1 src dst → area_inv M1 dst → (∃ pt, pages_inv m1 pt M1) →
  (∀ f i, ¬ is_free m1 f → byte_at m' f i = byte_at m1 f i) →
  area_copied m0 m' src dst.
Proof.
  intros (? & ? & Hpg) Ha [pt Hg] Hb. split_and!; [done..|].
  intros v p Hv. destruct (Hpg v p Hv) as (q & Hq & Hsame). exists q. split; [done|].
  intros i Hi. destruct (ai_unbacked Ha v q Hq) as [_ HM].
  destruct (pg_frame Hg v _ HM) as (Hnf & _). rewrite Hb by done. by apply Hsame.
Qed.

Lemma fork_entries_start lo l e : entries_ok lo l → e ∈ l → va_start e.2 = e.1.
Proof.
  revert lo. induction l as [|[k a] l IH]; intros lo; simpl; [by intros _ ?%not_elem_of_nil|].
  intros (? & _ & _ & Hl) [->|He]%elem_of_cons; [done|]. by apply (IH _ Hl).
Qed.

Lemma copy_areas_ok l m0 m sp M caches lo sp' m' :
  copy_inv m0 m (page_table sp) M → areas_inv M (user_areas sp) → caches_ok m0 caches →
  entries_ok lo l → NoDup l.*1 → (∀ e, e ∈ l → source_ok m0 e.2) →
  (∀ k a, user_areas sp !! k = Some a → va_end a ≤ lo) →
  copy_areas caches m sp l = Ok (sp', m') →
  ∃ M', copy_inv m0 m' (page_table sp') M' ∧ areas_inv M' (user_areas sp') ∧
    (∀ e, e ∈ l → ∃ dst, user_areas sp' !! e.1 = Some dst ∧ area_copied m0 m' e.2 dst) ∧
    (∀ k, k ∉ l.*1 → user_areas sp' !! k = user_areas sp !! k) ∧
    (∀ e, e ∈ l → file_pages caches e.2 M') ∧
    (∀ v, (∀ e, e ∈ l → ¬ in_area e.2 v) → M' !! v = M !! v) ∧
    (∀ f i, ¬ is_free m f → byte_at m' f i = byte_at m f i).
Proof.
  revert m sp M lo. induction l as [|[k src] l IH]; intros m sp M lo Hc Hi Hok Hent Hnd Hsrc Hlo Hcp.
  { simpl in Hcp. injection Hcp as <- <-. exists M. split_and!; [done|done| |done| |done|done];
      by intros e ?%not_elem_of_nil. }
  simpl in Hcp. apply bind_Ok in Hcp as ([sp1 m1] & Hca & Hcp).
  simpl in Hent, Hnd. destruct Hent as (Hst & Hk & Hend & Hent). apply NoDup_cons in Hnd as [Hkn Hnd].
  destruct (copy_area_ok m0 m sp M caches src sp1 m1 Hc Hi Hok) as
    (M1 & dst & Hc1 & Hi1 & Har & Hcop & HM1 & Hfp & Hb1 & Hf1);
    [apply (Hsrc (k, src)), elem_of_cons; by left| |done|].
  { intros k' a Hk'. left. specialize (Hlo k' a Hk'). lia. }
  destruct (IH m1 sp1 M1 (va_end src) Hc1 Hi1 Hok Hent Hnd)
    as (M' & Hc' & Hi' & Hin & Hout & Hfp' & HM' & Hb'); [| |exact Hcp|].
  { intros e He. apply Hsrc, elem_of_cons. by right. }
  { intros k' a. rewrite Har, lookup_insert. case_decide; [|intros Ha; specialize (Hlo k' a Ha); lia].
    intros [= <-]. destruct Hcop as ((_ & -> & _) & _). lia. }
  exists M'. split_and!; [done|done| | | | |].
  - intros e [->|He]%elem_of_cons; [|by apply Hin]. simpl.
    assert (Hd1 : user_areas sp1 !! k = Some dst) by by rewrite Har, Hst, lookup_insert_eq.
    exists dst. rewrite Hout by done. split; [done|].
    destruct (ar_area Hi1 _ _ Hd1) as [_ Hadst].
    eapply area_copied_later; [done|done|exists (page_table sp1); apply (ci_pages Hc1)|done].
  - intros k' Hk'. simpl in Hk'. apply not_elem_of_cons in Hk' as [Hne Hk'].
    rewrite Hout, Har, Hst by done. by rewrite lookup_insert_ne.
  - intros e [->|He]%elem_of_cons; [|by apply Hfp']. simpl. intros ino v Hino Hv. rewrite <- (Hfp ino v Hino Hv).
    f_equal. apply HM'. intros e He Hin'. pose proof (entries_ok_in _ _ _ Hent He).
    pose proof (fork_entries_start _ _ _ Hent He). unfold in_area in *. simpl in *. lia.
  - intros v Hv. rewrite HM' by (intros e He; apply Hv, elem_of_cons; by right).
    apply HM1, (Hv (k, src)), elem_of_cons. by left.
  - intros f i Hnf. rewrite Hb'; [by apply Hb1|]. intros Hx. by apply Hnf, Hf1.
Qed.
(** The empty space the copy starts from. *)
Lemma new_bare_copy m sp m1 :
  mem_inv m → new_bare m = Ok (sp, m1) →
  copy_inv m m1 (page_table sp) ∅ ∧ user_areas sp = ∅ ∧ areas_inv ∅ (user_areas sp).
Proof.
  intros Hm Hn. unfold new_bare in Hn. apply bind_Ok in Hn as ([pt m2] & Hw & [= <- <-]). simpl.
  destruct (with_root_spec 256 m pt m2 Hm Hw) as (Hpt & Hfr & Hroot & Hf & Hb & Hp & Hwalk).
  split_and!; [|done|by split].
  assert (Hmono : ∀ f, is_free m2 f → is_free m f) by (intros f; rewrite Hf; tauto).
  split.
  - split; [done|by eapply mem_inv_shrink|by intros v [? ?]| |done|done].
    intros v Hv. rewrite Hwalk by by apply low_in_half. done.
  - intros f. unfold table_frames. rewrite Hfr. by intros ->%list_elem_of_singleton.
  - done.
  - done.
  - intros f i Hnf. by apply Hb.
  - intros f i Hnf. by apply Hp.
Qed.

(** Sharing the kernel half does not disturb the user half. *)
Lemma map_kernel_areas_pages kernel_root m pt M :
  pages_inv m pt M → kernel_root ≠ root_frame pt →
  pages_inv (map_kernel_areas kernel_root m pt) pt M.
Proof.
  intros Hg Hk. destruct (map_kernel_areas_spec kernel_root m pt (pg_pt Hg) Hk)
    as (Hpt & Hal & _ & _ & Hw & _).
  assert (Hf : ∀ f, is_free (map_kernel_areas kernel_root m pt) f ↔ is_free m f)
    by (intros f; unfold is_free; by rewrite Hal).
  split; [done| |apply (pg_low Hg)| | |apply (pg_inj Hg)].
  - intros f Hff. by apply (pg_mem Hg), Hf.
  - intros v Hv. rewrite Hw by by apply low_in_half. by apply (pg_walk Hg).
  - intros v i Hv. destruct (pg_frame Hg v i Hv) as (? & ? & ?). by rewrite Hf.
Qed.

(** A space none of whose frames or tables is touched. *)
Lemma parent_kept m m' sp :
  space_inv m sp → mem_inv m' → (∀ f, ¬ is_free m f → ¬ is_free m' f) →
  (∀ f i, ¬ is_free m f → pte_at m' f i = pte_at m f i ∧ byte_at m' f i = byte_at m f i) →
  space_inv m' sp ∧ ∀ v, 0 ≤ v < LOW_VPN_END →
    translate m' sp v = translate m sp v ∧ ∀ i, user_byte m' sp v i = user_byte m sp v i.
Proof.
  intros (M & Hg & Hi) Hm' Hnf Hsame. destruct (pg_pt Hg) as [tree Ht].
  assert (Hg' : pages_inv m' (page_table sp) M).
  { apply (pages_inv_frame m); [done|done| | |].
    - intros f i Hf. apply Hsame. by apply (t_owned Ht f Hf).
    - intros f Hf. apply Hnf. by apply (t_owned Ht f Hf).
    - intros v i Hv. apply Hnf. by apply (pg_frame Hg v i Hv). }
  split; [by exists M|]. intros v Hv. unfold user_byte, translate.
  rewrite (pg_walk Hg v Hv), (pg_walk Hg' v Hv). split; [done|]. intros i.
  destruct (M !! v) as [pi|] eqn:HM; [|done]. simpl. f_equal. apply Hsame.
  by apply (pg_frame Hg v pi HM).
Qed.

Lemma parent_entries_ok M areas : areas_inv M areas → entries_ok 0 (btree_iter areas).
Proof.
  intros Hi. eapply entries_ok_sorted; [exact Hi|apply btree_iter_sorted|apply btree_keys_nodup|].
  intros [k a] Hka. rewrite elem_of_btree_iter in Hka. simpl. destruct (area_range _ _ _ _ Hi Hka). split; [done|lia].
Qed.

(** What the copy [child] of an area [src] of the parent translates a page to. A
    file-backed page is a frame of the page cache, shared with whoever maps the
    file; a page the parent has touched is a frame of the child's own with the same
    bytes; any other page is not mapped. *)
Definition page_copied (caches : PageCaches) (m : Mem) (parent : MemorySpace) (m' : Mem) (child : MemorySpace)
    (src : FramedVmArea) (v : Z) : Prop :=
  match backed_inode src with
  | Some inode =>
      translate m' child v =
        (λ p, (p, leaf_flags (a_perm src))) <$> caches inode !! (backed_inode_page_id src + (v - va_start src))
  | None =>
      match unbacked_map src !! v with
      | Some p =>
          ∃ q, translate m' child v = Some (q, leaf_flags (a_perm src)) ∧ is_free m q ∧
               ∀ i, 0 ≤ i < PAGE_SIZE → user_byte m' child v i = user_byte m parent v i
      | None => translate m' child v = None
      end
  end.

Lemma page_copied_ok caches m parent m' child M0 M' src dst :
  pages_inv m (page_table parent) M0 → pages_inv m' (page_table child) M' →
  area_inv M0 src → area_inv M' dst → area_like src dst →
  (∀ v p, unbacked_map src !! v = Some p → ∃ q, unbacked_map dst !! v = Some q ∧ is_free m q ∧
     ∀ i, 0 ≤ i < PAGE_SIZE → byte_at m' q i = byte_at m p i) →
  (∀ v, is_Some (unbacked_map dst !! v) ↔ is_Some (unbacked_map src !! v)) → file_pages caches src M' →
  ∀ v, in_area src v → page_copied caches m parent m' child src v.
Proof.
  intros Hg0 Hg' Hasrc Hadst (Hs & He & Hp & Hb & Hty) Hpg Hiff Hfp v Hv. unfold page_copied.
  assert (Hlow : 0 ≤ v < LOW_VPN_END) by (pose proof (ai_range Hasrc); unfold in_area in Hv; lia).
  assert (Hvd : in_area dst v) by (unfold in_area in *; lia).
  destruct (backed_inode src) as [ino|] eqn:Hino.
  - unfold translate. rewrite (pg_walk Hg') by done. rewrite <- (Hfp ino v Hino Hv).
    destruct (M' !! v) as [i|] eqn:HM; [|done]. simpl. by rewrite (area_page_flags M' dst v i), Hp.
  - destruct (unbacked_map src !! v) as [p|] eqn:Hu.
    + destruct (Hpg v p Hu) as (q & Hq & Hf & Hsame). exists q.
      destruct (ai_unbacked Hadst v q Hq) as [_ HM]. destruct (ai_unbacked Hasrc v p Hu) as [_ HM0].
      rewrite Hp in HM. unfold user_byte, translate. rewrite (pg_walk Hg'), (pg_walk Hg0), HM, HM0 by done. simpl.
      split_and!; [done|done|]. intros i Hi. by rewrite Hsame.
    + unfold translate. rewrite (pg_walk Hg') by done. destruct (M' !! v) as [i|] eqn:HM; [|done].
      pose proof (lazy_page M' dst v i Hadst Hty Hvd HM) as Hq.
      destruct (proj1 (Hiff v)) as [? ?]; [by eexists|congruence].
Qed.

(** *** The copy is made when there is memory for it *)

(** Three frames for a touched page (itself and two tables), two for a page of a
    file. *)
Definition area_frames (caches : PageCaches) (src : FramedVmArea) : nat :=
  match backed_inode src with
  | Some inode => 2 * length (cached_in caches inode (backed_inode_page_id src) (va_end src - va_start src))
  | None => 3 * length (btree_iter (unbacked_map src))
  end.
(** The pages of the file an area maps have numbers that fit 64 bits. *)
Definition file_ids_ok (src : FramedVmArea) : Prop :=
  is_Some (backed_inode src) → 0 ≤ backed_inode_page_id src ∧ backed_inode_page_id src + (va_end src - va_start src) < 2 ^ 64.

Lemma copy_pages_total l m0 m pt M dst :
  copy_inv m0 m pt M → area_inv M dst → NoDup l.*1 → (l ≠ [] → a_type dst = Lazy) →
  (∀ v p, (v, p) ∈ l → in_area dst v ∧ unbacked_map dst !! v = None ∧ ¬ is_free m0 p) →
  (3 * length l ≤ free_count m)%nat →
  ∃ dst' pt' m', copy_pages m pt dst l = Ok (dst', pt', m') ∧ (free_count m ≤ free_count m' + 3 * length l)%nat.
Proof.
  revert m pt M dst. induction l as [|[v p] l IH]; intros m pt M dst Hc Ha Hnd Hty Hl Hfc.
  { eexists _, _, _. split; [done|]. lia. }
  simpl in Hnd, Hfc. apply NoDup_cons in Hnd as [Hvn Hnd]. specialize (Hty ltac:(done)).
  destruct (Hl v p) as (Hv & Hum & Hp); [apply elem_of_cons; by left|].
  destruct (ensure_allocated_total m pt M dst v (ci_pages Hc) Ha Hv Hty ltac:(lia)) as (q & dst1 & pt1 & m1 & He & Hc1).
  destruct (copy_page_ok m0 m pt M dst v p q dst1 pt1 m1 Hc Ha Hv Hum Hp He)
    as (M1 & Hi1 & Ha1 & Heq1 & _ & Hw1 & _).
  assert (Hfm : free_count (Frame_copy_from m1 q p) = free_count m1)
    by (unfold free_count; by rewrite (proj1 (copy_from_frame m1 q p))).
  destruct (IH (Frame_copy_from m1 q p) pt1 M1 dst1) as (dst' & pt' & m' & Hcp & Hc'); [done|done|done|by rewrite Heq1| |lia|].
  { intros w r Hwr. destruct (Hl w r) as (? & ? & ?); [apply elem_of_cons; by right|].
    assert (w ≠ v) as Hne by (intros ->; apply Hvn; by apply (list_elem_of_fmap_2 fst l (v, r))).
    rewrite (proj2 (Hw1 w Hne)). by rewrite Heq1. }
  exists dst', pt', m'. split; [simpl; by rewrite He|simpl; lia].
Qed.

Lemma new_area_total m0 m sp M caches src :
  copy_inv m0 m (page_table sp) M → areas_inv M (user_areas sp) → caches_ok m0 caches →
  (∃ M0, area_inv M0 src) → range_free (user_areas sp) (va_start src) (va_end src) → file_ids_ok src →
  (area_frames caches src ≤ free_count m)%nat →
  ∃ sp1 m1, match backed_inode src with
    | Some inode => user_map_with_file caches m sp (va_start src) (va_end src) (a_perm src)
                      inode (backed_inode_page_id src)
    | None => user_map m sp (va_start src) (va_end src) (a_perm src)
    end = Ok (sp1, m1) ∧
    (free_count m + match backed_inode src with Some _ => 0 | None => area_frames caches src end ≤
       free_count m1 + area_frames caches src)%nat.
Proof.
  intros Hc Hi Hok [M0 Hsrc] Hr Hids Hfc. pose proof (ai_range Hsrc) as Hrange. unfold area_frames in *.
  assert (Hnone : ∀ v, va_start src ≤ v < va_end src → M !! v = None) by (intros v Hv; by eapply range_free_none).
  destruct (backed_inode src) as [inode|] eqn:Hb.
  - destruct Hids as [Hid1 Hid2]; [by eexists|].
    destruct (init_backed_inode_total caches m (page_table sp) M (va_start src) (va_end src) (a_perm src) inode
      (backed_inode_page_id src)) as (a & pt & m1 & Hib & Hc1);
      [apply (ci_pages Hc)|lia|lia|apply (ai_perm Hsrc)|done|done|done| |done|].
    { intros id p Hp. by eapply caches_frame. }
    edestruct (init_backed_inode_ok caches m (page_table sp) M) as (M' & _ & _ & Hs' & He' & _);
      [apply (ci_pages Hc)|..|exact Hib|]; [lia|lia|apply (ai_perm Hsrc)|done| |].
    { intros id p Hp. by eapply caches_frame. }
    exists (mkSpace pt (<[va_start a := a]> (user_areas sp))), m1. unfold user_map_with_file. rewrite Hib. simpl.
    rewrite (insert_area_ok M) by (done || by rewrite Hs', He'). simpl. split; [done|lia].
  - destruct (user_map_ok m sp M (va_start src) (va_end src) (a_perm src)) as [Hu _];
      [apply (ci_pages Hc)|done|done|lia|lia|apply (ai_perm Hsrc)|]. rewrite Hu. eexists _, _. split; [done|]. lia.
Qed.

Lemma copy_area_total m0 m sp M caches src :
  copy_inv m0 m (page_table sp) M → areas_inv M (user_areas sp) → caches_ok m0 caches →
  source_ok m0 src → range_free (user_areas sp) (va_start src) (va_end src) → file_ids_ok src →
  (area_frames caches src ≤ free_count m)%nat →
  ∃ sp' m', copy_area caches m sp src = Ok (sp', m') ∧ (free_count m ≤ free_count m' + area_frames caches src)%nat.
Proof.
  intros Hc Hi Hok [Hsrc Hnf] Hr Hids Hfc.
  destruct (new_area_total m0 m sp M caches src Hc Hi Hok Hsrc Hr Hids Hfc) as (sp1 & m1 & Hnew & Hc1).
  destruct (new_area_ok m0 m sp M caches src sp1 m1 Hc Hi Hok Hsrc Hr Hnew)
    as (M1 & dst & Hi1 & Ha1 & Har1 & (Hs1 & He1 & _ & _ & Hty) & Hu1 & _).
  assert (Hdst : user_areas sp1 !! va_start src = Some dst) by by rewrite Har1, lookup_insert_eq.
  destruct (ar_area Ha1 _ _ Hdst) as [_ Hadst]. destruct Hsrc as [M0 Hsrc].
  assert (Hneed : (length (btree_iter (unbacked_map src)) = 0 ∨ backed_inode src = None)%nat).
  { destruct (backed_inode src) as [ino|] eqn:Hb; [left|by right]. by rewrite (backed_no_unbacked M0 src ino). }
  unfold area_frames in *.
  destruct (copy_pages_total (btree_iter (unbacked_map src)) m0 m1 (page_table sp1) M1 dst)
    as (dst2 & pt2 & m2 & Hcp & Hc2); [done|done|apply btree_keys_nodup| | | |].
  - intros Hne. destruct Hneed as [Hz%nil_length_inv|Hb]; [done|]. by rewrite Hb in Hty.
  - intros v p Hvp. apply elem_of_btree_iter in Hvp. destruct (ai_unbacked Hsrc v p Hvp) as [Hv _].
    rewrite Hu1. split_and!; [unfold in_area; lia|done|by eapply Hnf].
  - destruct (backed_inode src); [destruct Hneed; [lia|done]|lia].
  - eexists _, m2. unfold copy_area. rewrite Hnew. cbn [mbind outcome_bind]. rewrite Hdst.
    cbn [unwrap mbind outcome_bind]. rewrite Hcp. split; [done|].
    destruct (backed_inode src); [destruct Hneed; [lia|done]|lia].
Qed.

Lemma copy_areas_total l m0 m sp M caches lo :
  copy_inv m0 m (page_table sp) M → areas_inv M (user_areas sp) → caches_ok m0 caches →
  entries_ok lo l → (∀ e, e ∈ l → source_ok m0 e.2 ∧ file_ids_ok e.2) →
  (∀ k a, user_areas sp !! k = Some a → va_end a ≤ lo) →
  (sum_list_with (λ e, area_frames caches e.2) l ≤ free_count m)%nat →
  is_ok (copy_areas caches m sp l) = true.
Proof.
  revert m sp M lo. induction l as [|[k src] l IH]; intros m sp M lo Hc Hi Hok Hent Hsrc Hlo Hfc; [done|].
  simpl in Hent, Hfc. destruct Hent as (Hst & Hk & Hend & Hent).
  destruct (Hsrc (k, src)) as [Hs Hids]; [apply elem_of_cons; by left|]. simpl in Hs, Hids.
  assert (Hr : range_free (user_areas sp) (va_start src) (va_end src)).
  { intros k' a Hk'. left. specialize (Hlo k' a Hk'). lia. }
  destruct (copy_area_total m0 m sp M caches src Hc Hi Hok Hs Hr Hids ltac:(lia)) as (sp1 & m1 & Hca & Hc1).
  destruct (copy_area_ok m0 m sp M caches src sp1 m1 Hc Hi Hok Hs Hr Hca) as (M1 & dst & Hi1 & Ha1 & Har & Hcop & _).
  cbn [copy_areas]. rewrite Hca. cbn [mbind outcome_bind].
  apply (IH m1 sp1 M1 (va_end src)); [done|done|done|done| | |lia].
  - intros e He. apply Hsrc, elem_of_cons. by right.
  - intros k' a. rewrite Har, lookup_insert. case_decide; [|intros Ha; specialize (Hlo k' a Ha); lia].
    intros [= <-]. destruct Hcop as ((_ & -> & _) & _). lia.
Qed.

(** The frames a copy may need, the root table included. *)
Definition fork_frames (caches : PageCaches) (parent : MemorySpace) : nat :=
  S (sum_list_with (λ e, area_frames caches e.2) (btree_iter (user_areas parent))).
Lemma source_areas m M0 parent k a :
  pages_inv m (page_table parent) M0 → areas_inv M0 (user_areas parent) → user_areas parent !! k = Some a → source_ok m a.
Proof.
  intros Hg Hi Hk. destruct (ar_area Hi k a Hk) as [_ Ha]. split; [by exists M0|].
  intros v p Hv. destruct (ai_unbacked Ha v p Hv) as [_ HM]. by apply (pg_frame Hg v _ HM).
Qed.
Lemma from_other_total kernel_root caches m parent :
  space_inv m parent → caches_ok m caches → map_Forall (λ _, file_ids_ok) (user_areas parent) →
  (fork_frames caches parent ≤ free_count m)%nat → is_ok (from_other kernel_root caches m parent) = true.
Proof.
  intros (M0 & Hg0 & Hi0) Hok Hids Hfc. unfold fork_frames in Hfc.
  destruct (Frame_alloc_total m (pg_mem Hg0) ltac:(lia)) as (ppn & m1 & Hal & Hc1).
  assert (Hnb : new_bare m = Ok (mkSpace (mkPageTable ppn []) ∅, m1)) by (unfold new_bare, with_root; by rewrite Hal).
  destruct (new_bare_copy m _ m1 (pg_mem Hg0) Hnb) as (Hi1 & _ & Ha1).
  assert (Hca : is_ok (copy_areas caches m1 (mkSpace (mkPageTable ppn []) ∅) (btree_iter (user_areas parent))) = true).
  { apply (copy_areas_total _ m m1 _ ∅ caches 0); [done|done|done|by eapply parent_entries_ok| |done|lia].
    intros [k a] Hka. rewrite elem_of_btree_iter in Hka. split; [by eapply source_areas|by eapply Hids]. }
  unfold from_other. rewrite Hnb. cbn [mbind outcome_bind]. by destruct (copy_areas _ _ _ _) as [[]| |].
Qed.

(** The copy [child], and the parent after it. *)
Definition space_copied (caches : PageCaches) (m : Mem) (parent : MemorySpace) (m' : Mem) (child : MemorySpace) : Prop :=
  space_inv m' child ∧ space_inv m' parent ∧
  (∀ k, is_Some (user_areas child !! k) ↔ is_Some (user_areas parent !! k)) ∧
  (∀ k src, user_areas parent !! k = Some src → ∃ dst, user_areas child !! k = Some dst ∧
     area_like src dst ∧ ((a_type src = Mmap → is_Some (backed_inode src)) → a_type dst = a_type src) ∧
     ∀ v, in_area src v → page_copied caches m parent m' child src v) ∧
  (∀ v, 0 ≤ v < LOW_VPN_END → (∀ k src, user_areas parent !! k = Some src → ¬ in_area src v) →
     translate m' child v = None) ∧
  (∀ v, 0 ≤ v < LOW_VPN_END → translate m' parent v = translate m parent v ∧
     ∀ i, user_byte m' parent v i = user_byte m parent v i).

Lemma from_other_copied kernel_root caches m parent child m' :
  space_inv m parent → caches_ok m caches → ¬ is_free m kernel_root →
  from_other kernel_root caches m parent = Ok (child, m') → space_copied caches m parent m' child.
Proof.
  intros Hpar Hok Hkr Hfo. pose proof Hpar as (M0 & Hg0 & Hi0). unfold from_other in Hfo.
  apply bind_Ok in Hfo as ([sp1 m1] & Hnb & Hfo). apply bind_Ok in Hfo as ([sp2 m2] & Hca & [= <- <-]).
  destruct (new_bare_copy m sp1 m1 (pg_mem Hg0) Hnb) as (Hc1 & Har1 & Hi1).
  pose proof (parent_entries_ok _ _ Hi0) as Hent.
  destruct (copy_areas_ok (btree_iter (user_areas parent)) m m1 sp1 ∅ caches 0 sp2 m2)
    as (M2 & Hc2 & Hi2 & Hin & Hout & Hfp & HM2 & _); [done|done|done|done|apply btree_keys_nodup| |by rewrite Har1|done|].
  { intros [k a] Hka. rewrite elem_of_btree_iter in Hka. by eapply source_areas. }
  unfold space_map_kernel_areas. set (m' := map_kernel_areas kernel_root m2 (page_table sp2)).
  assert (Hroot : is_free m (root_frame (page_table sp2)))
    by (apply (ci_tables Hc2), elem_of_cons; by left).
  assert (Hkne : kernel_root ≠ root_frame (page_table sp2)) by congruence.
  pose proof (map_kernel_areas_pages kernel_root m2 _ M2 (ci_pages Hc2) Hkne) as Hg'. fold m' in Hg'.
  destruct (map_kernel_areas_spec kernel_root m2 (page_table sp2) (pg_pt (ci_pages Hc2)) Hkne)
    as (_ & Hal & Hbm & Hpm & _ & _). fold m' in Hal, Hbm, Hpm.
  destruct (parent_kept m m' parent Hpar (pg_mem Hg')) as [Hpar' Hkept].
  { intros f Hnf. unfold is_free. rewrite Hal. intros Hff. by apply Hnf, (ci_free Hc2). }
  { intros f i Hnf. split.
    - rewrite Hpm by (left; congruence). by apply (ci_ptes Hc2).
    - unfold byte_at. rewrite Hbm. by apply (ci_bytes Hc2). }
  assert (Hdom : ∀ k, is_Some (user_areas sp2 !! k) ↔ is_Some (user_areas parent !! k)).
  { intros k. destruct (user_areas parent !! k) as [a|] eqn:E.
    - destruct (Hin (k, a)) as (dst & Hd & _); [by apply elem_of_btree_iter|].
      simpl in Hd. rewrite Hd. by split; eauto.
    - rewrite Hout, Har1; [done|]. intros Hk.
      change (k ∈ btree_keys (user_areas parent)) in Hk. apply elem_of_btree_keys in Hk as [? ?].
      congruence. }
  split_and!; [exists M2; by split|done|done| | |done].
  - intros k src Hk. destruct (Hin (k, src)) as (dst & Hdst & Hlk & Hiff & Hpg); [by apply elem_of_btree_iter|].
    specialize (Hfp (k, src) ltac:(by apply elem_of_btree_iter)). simpl in Hdst, Hlk, Hiff, Hpg, Hfp.
    destruct (ar_area Hi2 k dst Hdst) as [_ Hadst]. destruct (ar_area Hi0 k src Hk) as [_ Hasrc].
    exists dst. split_and!; [done|done| |].
    { intros Hm. pose proof (ai_type Hasrc) as Ht. destruct Hlk as (_ & _ & _ & _ & Hty).
      destruct (a_type src); [destruct Ht as [Ht _]; by rewrite Ht in Hty|].
      destruct (Hm eq_refl) as [ino Hino]. rewrite Hino in Hty. by destruct Hty. }
    apply (page_copied_ok caches m parent m' (mkSpace (page_table sp2) (user_areas sp2)) M0 M2 src dst); [done..| |done|done].
    intros v p Hv. destruct (Hpg v p Hv) as (q & Hq & Hsame). exists q. split_and!; [done| |].
    + destruct (ai_unbacked Hadst v q Hq) as [_ HM]. by apply (ci_owned Hc2 v _ HM).
    + intros i Hi. unfold byte_at. rewrite Hbm. by apply Hsame.
  - intros v Hv Hno. unfold translate. rewrite (pg_walk Hg') by done. rewrite HM2; [done|].
    intros [k a] Hka. rewrite elem_of_btree_iter in Hka. by eapply Hno.
Qed.

(** C3: [fork] gives the child a copy of its own. With three free frames for each page
    the parent has touched and two for each cached page of the files it maps (and
    one), the copy is made, and does not panic. When it is made, the child's space
    satisfies the invariant and has exactly the parent's areas, with the same
    ranges, permissions, type and backing file, at the same page of the file
    (an area of type [Mmap] without a file, which nothing makes, would become
    [Lazy]). Every page the parent had touched is mapped in the child, with the
    area's permissions, to a frame that was free before, and holds the same bytes;
    the pages of a file-backed area are mapped to the frames the page cache holds
    for them; and no other page is mapped. The parent's space is valid, translates
    every page as before and reads the same bytes. *)
Theorem from_other_copies kernel_root caches m parent :
  space_inv m parent → caches_ok m caches → ¬ is_free m kernel_root →
  (map_Forall (λ _, file_ids_ok) (user_areas parent) → (fork_frames caches parent ≤ free_count m)%nat →
   is_ok (from_other kernel_root caches m parent) = true) ∧
  ∀ child m', from_other kernel_root caches m parent = Ok (child, m') → space_copied caches m parent m' child.
Proof.
  intros Hpar Hok Hkr. split; [by apply from_other_total|]. intros child m' Hfo. by eapply from_other_copied.
Qed.

(** A frame just allocated for a page cache is no frame of the space. *)
Lemma fresh_cache_frame m pt M p m1 M1 :
  pages_inv m pt M → Frame_alloc m = Ok (Some p, m1) → pages_inv m1 pt M1 → cache_frame m1 pt M1 p.
Proof.
  intros Hg Hal Hg1. pose proof (pages_alloc _ _ _ _ _ Hg Hal) as Hg2.
  destruct (Frame_alloc_spec _ _ _ Hal) as (Hfree & Hiff & _ & _). pose proof (pg_mem Hg _ Hfree) as Hr.
  destruct (pg_pt Hg) as [tree Ht]. pose proof (owned_not_free _ _ _ _ _ Ht Hfree) as Htf.
  split_and!; [rewrite Hiff; tauto|apply Hr|apply Hr|done|].
  intros v i Hv <-. exfalso. pose proof (pg_low Hg1 v ltac:(by eexists)) as Hlow.
  pose proof (pg_walk Hg1 v Hlow) as Hw. rewrite (pg_walk Hg2 v Hlow), Hv in Hw.
  destruct (M !! v) as [j|] eqn:Hj; [|done]. simpl in Hw. injection Hw as He _.
  destruct (pg_frame Hg v j Hj) as (Hnf & _). apply Hnf. by rewrite He.
Qed.
End fork.

(** ** A space with a page that was written and a mapped file

    Page 0x12 of the concrete space holds a 7; the file 5 has its page 1 cached and
    is mapped from page 1 on at 0x30. Frame 0 stands for the kernel's root
    table. *)
Module ForkDemo.
Definition value {A} (d : A) (o : KResult A) : A := match o with Ok x => x | _ => d end.
Definition touched : bool * MemorySpace * Mem :=
  value (false, demo_space, demo_mem) (handle_memory_exception demo_mem demo_space 0x12345 false).
Definition frame : Z := default 0 (fst <$> translate touched.2 touched.1.2 0x12).
Definition written : Mem := write_bytes touched.2 frame 3 [7].
Definition cached : option Z * Mem := value (None, written) (Frame_alloc written).
Definition caches : PageCaches := λ inode, if inode =? 5 then {[1 := default 0 cached.1]} else ∅.
Definition mapped : MemorySpace * Mem :=
  value (touched.1.2, cached.2) (user_map_with_file caches cached.2 touched.1.2 0x30 0x32 22 5 1).
Definition parent : MemorySpace := mapped.1.
Definition mem : Mem := mapped.2.

Lemma value_ok {A} (d : A) o : is_ok o = true → o = Ok (value d o).
Proof. by destruct o. Qed.
Lemma cached_eq : Frame_alloc written = Ok (Some (default 0 cached.1), cached.2).
Proof.
  assert (Frame_alloc written = Ok cached) as -> by (apply value_ok; vm_compute; reflexivity).
  assert (is_Some cached.1) as [x Hx] by (vm_compute; by eexists).
  destruct cached as [c1 c2]. simpl in *. by rewrite Hx.
Qed.
Lemma written_inv : space_inv written touched.1.2.
Proof.
  assert (is_ok (handle_memory_exception demo_mem demo_space 0x12345 false) = true) as Hok by (vm_compute; reflexivity).
  destruct (handle_memory_exception_spec demo_mem demo_space 0x12345 demo_space_inv) as (_ & _ & Hn & _);
    [lia|vm_compute; lia|].
  destruct (Hn _ demo_area eq_refl eq_refl) as (ppn & sp' & m' & He & (M & Hg & Hi) & _).
  assert (touched = (true, sp', m')) as Ht by (unfold touched; by rewrite He).
  unfold written. rewrite Ht. exists M. split; [by apply write_bytes_pages|done].
Qed.
Lemma parent_inv : space_inv mem parent ∧ caches_ok mem caches.
Proof.
  destruct written_inv as (M & Hg & Hi).
  assert (Hsp : space_inv cached.2 touched.1.2) by (exists M; split; [by eapply pages_alloc, cached_eq|done]).
  assert (Hmap : user_map_with_file caches cached.2 touched.1.2 0x30 0x32 22 5 1 = Ok (parent, mem)).
  { replace (parent, mem) with mapped by (by unfold parent, mem; destruct mapped). apply value_ok. vm_compute. reflexivity. }
  split.
  - apply (user_map_with_file_inv caches cached.2 touched.1.2 0x30 0x32 22 5 1 parent mem); [done| |lia|vm_compute; congruence| |
      |exact Hmap].
    + intros k a Hk. assert (Hm : map_Forall (λ k a, va_end a ≤ 0x30 ∨ 0x32 ≤ k) (user_areas touched.1.2))
        by (apply (bool_decide_unpack _); vm_compute; reflexivity). specialize (Hm k a Hk). simpl in Hm. lia.
    + split; vm_compute; congruence.
    + intros M1 id p Hg1 Hp. unfold caches in Hp. simpl in Hp. apply lookup_singleton_Some in Hp as [_ <-].
      by apply (fresh_cache_frame written _ M _ _ _ Hg cached_eq).
  - intros inode id p. unfold caches. destruct (inode =? 5); [|done]. intros [_ <-]%lookup_singleton_Some.
    split; [|vm_compute; split; congruence]. unfold is_free. vm_compute. congruence.
Qed.

Lemma parent_ids : map_Forall (λ _, file_ids_ok) (user_areas parent).
Proof.
  assert (H : map_Forall (λ _ a, 0 ≤ backed_inode_page_id a ∧ backed_inode_page_id a + (va_end a - va_start a) < 2 ^ 64) (user_areas parent))
    by (apply (bool_decide_unpack _); vm_compute; reflexivity).
  intros k a Hk _. exact (H k a Hk).
Qed.
Lemma from_other_witness :
  ∃ child m', from_other 0 caches mem parent = Ok (child, m') ∧ space_inv m' child ∧
    user_byte m' child 0x12 3 = Some 7 ∧ user_byte mem parent 0x12 3 = Some 7 ∧
    fst <$> translate m' child 0x12 ≠ fst <$> translate mem parent 0x12 ∧
    translate m' child 0x30 = translate mem parent 0x30 ∧ is_Some (translate m' child 0x30).
Proof.
  destruct parent_inv as [Hp Hca].
  destruct (from_other_copies 0 caches mem parent Hp Hca) as [Htot Hcop].
  - unfold is_free. vm_compute. intuition congruence.
  - assert (Hcopy : is_ok (from_other 0 caches mem parent) = true).
    { apply Htot; [apply parent_ids|]. apply (bool_decide_unpack _). vm_compute. reflexivity. }
    destruct (from_other 0 caches mem parent) as [[child m']| |]; [|discriminate Hcopy..]. clear Hcopy Htot.
    destruct (Hcop child m' eq_refl) as (Hinv & _ & _ & Har & _ & _). clear Hcop. exists child, m'.
    assert (Hb : user_byte mem parent 0x12 3 = Some 7) by (vm_compute; reflexivity).
    assert (Hfile : translate mem parent 0x30 = Some (default 0 cached.1, leaf_flags 22)) by (vm_compute; reflexivity).
    destruct (user_areas parent !! 0x10) as [src|] eqn:Hs; [|vm_compute in Hs; discriminate Hs].
    destruct (Har 0x10 src Hs) as (dst & _ & _ & _ & Hpg).
    destruct (user_areas parent !! 0x30) as [fsrc|] eqn:Hf; [|vm_compute in Hf; discriminate Hf].
    destruct (Har 0x30 fsrc Hf) as (fdst & _ & _ & _ & Hfpg).
    assert (Hv : in_area src 0x12) by (vm_compute in Hs; injection Hs as <-; vm_compute; split; congruence).
    assert (Hfv : in_area fsrc 0x30) by (vm_compute in Hf; injection Hf as <-; vm_compute; split; congruence).
    specialize (Hpg 0x12 Hv). specialize (Hfpg 0x30 Hfv). unfold page_copied in Hpg, Hfpg.
    assert (Hsrc : backed_inode src = None ∧ unbacked_map src !! 0x12 = Some frame)
      by (vm_compute in Hs; injection Hs as <-; split; vm_compute; reflexivity).
    assert (Hfsrc : backed_inode fsrc = Some 5 ∧ backed_inode_page_id fsrc = 1 ∧ va_start fsrc = 0x30 ∧ a_perm fsrc = 22)
      by (vm_compute in Hf; injection Hf as <-; by split_and!).
    destruct Hsrc as [Hn Hu]. rewrite Hn, Hu in Hpg. destruct Hpg as (q & Hq & Hfree & Hbytes).
    destruct Hfsrc as (Hi & Hid & Hst & Hpm). rewrite Hi, Hid, Hst, Hpm in Hfpg.
    split_and!; [reflexivity|exact Hinv|rewrite Hbytes; [exact Hb|vm_compute; split; congruence]|exact Hb| | |].
    + rewrite Hq. intros E. destruct Hp as (M & Hg & _).
      assert (Ht : translate mem parent 0x12 = (λ i, (pi_ppn i, pi_flags i)) <$> M !! 0x12)
        by (apply (pg_walk Hg); vm_compute; split; congruence).
      rewrite Ht in E. destruct (M !! 0x12) as [i|] eqn:Hi2; [|discriminate E]. simpl in E. injection E as ->.
      exact (proj1 (pg_frame Hg _ _ Hi2) Hfree).
    + rewrite Hfpg, Hfile. reflexivity.
    + rewrite Hfpg. by eexists.
Defined.
End ForkDemo.
