(* ===== verification/InitStack.v ===== *)
(** * The initial user stack ([memory_space::init_stack])

    [exec] fills the new stack from the top down: two words of randomness, the
    environment and argument strings, the auxiliary vector and the pointer
    arrays. The model writes through the frame of the current page exactly as the
    code does, so that a word pushed at an unaligned address close to the lower
    end of a page runs past the frame. The theorem gives the whole image of the
    stack as a byte list. *)
From S2P Require Import Prelude BTree Address Defines FrameAllocator PageTable VmArea MemorySpace.

Definition AT_RANDOM : Z := 25.

(** [StackInitCtx] and what it borrows: the area, the page table, the memory. *)
Record StackInitCtx `{Buddy} : Type := mkCtx {
  user_sp : Z;
  cur_page : option Z;
  st_area : FramedVmArea;
  st_pt : PageTable;
  st_mem : Mem;
}.
Arguments mkCtx {_}.

Section ops.
Context `{Buddy, KernelImage}.

(** A write through the linear mapping: past the end of the frame it reaches the
    next frame in physical memory. *)
Fixpoint write_phys (m : Mem) (ppn off : Z) (bs : list Z) : Mem :=
  match bs with
  | [] => m
  | b :: bs => write_phys (write_byte m (ppn + off / PAGE_SIZE) (off mod PAGE_SIZE) b)
                 ppn (off + 1) bs
  end.

Definition sp_down (st : StackInitCtx) (len : Z) : KResult StackInitCtx :=
  let? sp := usub 64 (user_sp st) len in
  if (sp + len) mod PAGE_SIZE =? 0 then
    let? (ppn, a, pt, m) := ensure_allocated (st_mem st) (st_pt st) (st_area st)
                              (VirtAddr.vpn_floor sp) in
    Ok (mkCtx sp (Some ppn) a pt m)
  else Ok (mkCtx sp (cur_page st) (st_area st) (st_pt st) (st_mem st)).

(** [push_byte] and [push_usize] differ in the width of the store. *)
Definition push (st : StackInitCtx) (bs : list Z) : KResult StackInitCtx :=
  let? st := sp_down st (Z.of_nat (length bs)) in
  let? ppn := unwrap (cur_page st) in
  Ok (mkCtx (user_sp st) (cur_page st) (st_area st) (st_pt st)
        (write_phys (st_mem st) ppn (VirtAddr.page_offset (user_sp st)) bs)).

Definition push_byte (st : StackInitCtx) (b : Z) : KResult StackInitCtx := push st [b].
Definition push_usize (st : StackInitCtx) (num : Z) : KResult StackInitCtx :=
  push st (to_le_bytes 8 num).

Fixpoint push_bytes (st : StackInitCtx) (bs : list Z) : KResult StackInitCtx :=
  match bs with
  | [] => Ok st
  | b :: bs => let? st := push_byte st b in push_bytes st bs
  end.
Fixpoint push_usizes (st : StackInitCtx) (ns : list Z) : KResult StackInitCtx :=
  match ns with
  | [] => Ok st
  | n :: ns => let? st := push_usize st n in push_usizes st ns
  end.

Definition push_str (st : StackInitCtx) (s : list Z) : KResult (Z * StackInitCtx) :=
  let? st := push_byte st 0 in
  let? st := push_bytes st (rev s) in
  Ok (user_sp st, st).

Fixpoint push_strs (st : StackInitCtx) (l : list (list Z)) : KResult (list Z * StackInitCtx) :=
  match l with
  | [] => Ok ([], st)
  | s :: l =>
      let? (p, st) := push_str st s in
      let? (ps, st) := push_strs st l in
      Ok (p :: ps, st)
  end.

Definition push_ptrs (st : StackInitCtx) (ptrs : list Z) : KResult StackInitCtx :=
  push_usizes st (rev ptrs).

Definition align_sp (st : StackInitCtx) : StackInitCtx :=
  mkCtx (Z.land (user_sp st) (Z.lnot 7)) (cur_page st) (st_area st) (st_pt st) (st_mem st).

Fixpoint push_auxv (st : StackInitCtx) (auxv : list (Z * Z)) : KResult StackInitCtx :=
  match auxv with
  | [] => Ok st
  | (type_, value) :: auxv =>
      let? st := push_usize st value in
      let? st := push_usize st type_ in
      push_auxv st auxv
  end.

(** [t1] and [t2] are the two readings of the clock. *)
Definition init_stack_impl (t1 t2 : Z) (st : StackInitCtx) (args envs : list (list Z))
    (auxv : list (Z * Z)) : KResult (Z * Z * StackInitCtx) :=
  let argc := Z.of_nat (length args) in
  let? st := push_usize st 0 in
  let? st := push_usize st t1 in
  let? st := push_usize st t2 in
  let random_pos := user_sp st in
  let? (envp, st) := push_strs st envs in
  let? st := push_usize st 0 in
  let? (argv, st) := push_strs st args in
  let st := align_sp st in
  let? st := push_usize st 0 in
  let? st := push_usize st 0 in
  let? st := push_usize st AT_RANDOM in
  let? st := push_usize st random_pos in
  let? st := push_auxv st auxv in
  let? st := push_usize st 0 in
  let? st := push_ptrs st envp in
  let? st := push_usize st 0 in
  let? st := push_ptrs st argv in
  let argv_base := user_sp st in
  let? st := push_usize st argc in
  Ok (user_sp st, argv_base, st).

(** [MemorySpace::init_stack]. *)
Definition init_stack (t1 t2 : Z) (m : Mem) (sp : MemorySpace) (tid : Z)
    (args envs : list (list Z)) (auxv : list (Z * Z)) : KResult (Z * Z * MemorySpace * Mem) :=
  let? (low, high, sp, m) := alloc_user_stack m sp tid in
  let? area := unwrap (user_areas sp !! low) in
  let ctx := mkCtx (VirtPageNum.page_start high) None area (page_table sp) m in
  let? (user_sp, argv_base, st) := init_stack_impl t1 t2 ctx args envs auxv in
  Ok (user_sp, argv_base,
      mkSpace (st_pt st) (<[low := st_area st]> (user_areas sp)), st_mem st).
End ops.

(** ** The stack as a byte list *)
Section rep.
Context `{Buddy, KernelImage}.

(** The bytes [bs] lie from the stack pointer up to the end of the area. The page
    of the stack pointer is the current page and is zero below it; the pages
    further down have no frame yet. *)
Record stack_rep (st : StackInitCtx) (bs : list Z) : Prop := {
  sr_inv : ∃ M, pages_inv (st_mem st) (st_pt st) M ∧ area_inv M (st_area st);
  sr_lazy : a_type (st_area st) = Lazy;
  sr_sp : user_sp st + Z.of_nat (length bs) = va_end (st_area st) * PAGE_SIZE;
  sr_low : va_start (st_area st) * PAGE_SIZE ≤ user_sp st;
  sr_bytes a : user_sp st ≤ a < va_end (st_area st) * PAGE_SIZE →
    ∃ p, unbacked_map (st_area st) !! (a / PAGE_SIZE) = Some p ∧
         bs !! Z.to_nat (a - user_sp st) = Some (byte_at (st_mem st) p (a mod PAGE_SIZE));
  sr_cur : user_sp st mod PAGE_SIZE ≠ 0 →
    ∃ p, cur_page st = Some p ∧ unbacked_map (st_area st) !! (user_sp st / PAGE_SIZE) = Some p ∧
         ∀ i, 0 ≤ i < user_sp st mod PAGE_SIZE → byte_at (st_mem st) p i = 0;
  sr_below v : (v + 1) * PAGE_SIZE ≤ user_sp st → unbacked_map (st_area st) !! v = None;
}.
#[global] Arguments sr_inv {st bs}.
#[global] Arguments sr_lazy {st bs}.
#[global] Arguments sr_sp {st bs}.
#[global] Arguments sr_low {st bs}.
#[global] Arguments sr_bytes {st bs}.
#[global] Arguments sr_cur {st bs}.
#[global] Arguments sr_below {st bs}.

(** Inside a frame the two ways of writing agree. *)
Lemma write_phys_inside m ppn off bs :
  0 ≤ off → off + Z.of_nat (length bs) ≤ PAGE_SIZE →
  write_phys m ppn off bs = write_bytes m ppn off bs.
Proof.
  revert m off. induction bs as [|b bs IH]; intros m off Hoff Hlen; simpl; [done|].
  simpl in Hlen. rewrite Z.div_small, Z.mod_small, Z.add_0_r by lia. apply IH; lia.
Qed.

(** A store of [n] bytes stays within one page. *)
Definition fits (sp n : Z) : Prop := sp mod PAGE_SIZE = 0 ∨ n ≤ sp mod PAGE_SIZE.

(** After [sp_down] the current page holds the [n] bytes below the old stack
    pointer, all zero, and the bytes above are where they were. *)
Record sp_moved (st : StackInitCtx) (bs : list Z) (n : Z) (st' : StackInitCtx) (p : Z) : Prop := {
  sm_sp : user_sp st' = user_sp st - n;
  sm_page : cur_page st' = Some p;
  sm_inv : ∃ M, pages_inv (st_mem st') (st_pt st') M ∧ area_inv M (st_area st');
  sm_area : a_type (st_area st') = Lazy ∧ va_start (st_area st') = va_start (st_area st) ∧
            va_end (st_area st') = va_end (st_area st);
  sm_cur : unbacked_map (st_area st') !! (user_sp st' / PAGE_SIZE) = Some p;
  sm_other w : w ≠ user_sp st' / PAGE_SIZE →
    unbacked_map (st_area st') !! w = unbacked_map (st_area st) !! w;
  sm_bytes a : user_sp st ≤ a < va_end (st_area st) * PAGE_SIZE → ∃ q,
    unbacked_map (st_area st') !! (a / PAGE_SIZE) = Some q ∧
    bs !! Z.to_nat (a - user_sp st) = Some (byte_at (st_mem st') q (a mod PAGE_SIZE));
  sm_zero i : 0 ≤ i < user_sp st' mod PAGE_SIZE + n → byte_at (st_mem st') p i = 0;
}.

(** The first store of a page: the page below is allocated. *)
Lemma sp_down_new st bs n st' :
  stack_rep st bs → 0 < n ≤ PAGE_SIZE → user_sp st mod PAGE_SIZE = 0 →
  va_start (st_area st) * PAGE_SIZE ≤ user_sp st - n →
  sp_down st n = Ok st' → ∃ p, sp_moved st bs n st' p.
Proof.
  intros Hr Hn Hal Hlow Hd. destruct (sr_inv Hr) as (M & Hg & Ha).
  pose proof (sr_sp Hr) as Hsp. pose proof (sr_lazy Hr) as Hlz.
  unfold sp_down in Hd. apply bind_Ok in Hd as (sp & [<- _]%checked_Ok & Hd).
  rewrite Z.sub_add, Hal in Hd. simpl in Hd. rewrite vpn_floor_div in Hd.
  apply bind_Ok in Hd as ([[[p a'] pt'] m'] & He & [= <-]). simpl.
  set (v := (user_sp st - n) / PAGE_SIZE) in *.
  assert (Hv : user_sp st = (v + 1) * PAGE_SIZE) by (unfold v; rewrite PAGE_SIZE_eq in *; lia_div).
  assert (Hin : in_area (st_area st) v) by (unfold in_area, v; rewrite PAGE_SIZE_eq in *; lia_div).
  destruct (ensure_allocated_ok _ _ M _ v p a' pt' m' Hg Ha Hin He)
    as (M' & Hg' & Ha' & Heq & Hu & Hw & _ & Hb & Hz).
  destruct (Hz (sr_below Hr v ltac:(lia))) as [Hfree Hzero].
  exists p. split; simpl; [done|done|by exists M'|by rewrite Heq|done| | |].
  - intros w Hne. by apply Hw.
  - intros a Har. destruct (sr_bytes Hr a Har) as (q & Hq & Hbs). exists q.
    assert (a / PAGE_SIZE ≠ v) as Hne by (rewrite PAGE_SIZE_eq in *; lia_div).
    rewrite (proj2 (Hw _ Hne)). split; [done|]. rewrite Hb; [done|].
    destruct (ai_unbacked Ha _ _ Hq) as [_ HM]. by apply (pg_frame Hg _ _ HM).
  - intros i _. apply Hzero.
Qed.

(** A store within the current page. *)
Lemma sp_down_same st bs n st' :
  stack_rep st bs → 0 < n ≤ user_sp st mod PAGE_SIZE →
  sp_down st n = Ok st' → ∃ p, sp_moved st bs n st' p.
Proof.
  intros Hr Hn Hd. destruct (sr_inv Hr) as (M & Hg & Ha).
  unfold sp_down in Hd. apply bind_Ok in Hd as (sp & [<- _]%checked_Ok & Hd).
  rewrite Z.sub_add in Hd. rewrite (proj2 (Z.eqb_neq _ 0)) in Hd by lia. injection Hd as <-.
  destruct (sr_cur Hr ltac:(lia)) as (p & Hp & Hu & Hz).
  assert ((user_sp st - n) / PAGE_SIZE = user_sp st / PAGE_SIZE ∧
          (user_sp st - n) mod PAGE_SIZE + n = user_sp st mod PAGE_SIZE) as [Hdiv Hmod]
    by (rewrite PAGE_SIZE_eq in *; lia_div).
  exists p. split; simpl; [done|done|by exists M|split_and!; [apply (sr_lazy Hr)|done|done]| | | |].
  - by rewrite Hdiv.
  - done.
  - apply (sr_bytes Hr).
  - rewrite Hmod. done.
Qed.

Lemma sp_down_ok st bs n st' :
  stack_rep st bs → 0 < n ≤ PAGE_SIZE → fits (user_sp st) n →
  va_start (st_area st) * PAGE_SIZE ≤ user_sp st - n →
  sp_down st n = Ok st' → ∃ p, sp_moved st bs n st' p.
Proof.
  intros Hr Hn [Hal|Hal] Hlow Hd; [by eapply sp_down_new|].
  eapply sp_down_same; [done|lia|done].
Qed.

(** Two pages of an area never share a frame. *)
Lemma area_frames_inj m pt M a v w p :
  pages_inv m pt M → area_inv M a → unbacked_map a !! v = Some p →
  unbacked_map a !! w = Some p → v = w.
Proof.
  intros Hg Ha Hv Hw. destruct (ai_unbacked Ha v p Hv) as [_ H1].
  destruct (ai_unbacked Ha w p Hw) as [_ H2]. by apply (pg_inj Hg v _ w _ H1 H2).
Qed.

(** Pushing the bytes [new] puts them in front of the byte list. *)
Lemma push_ok st bs new st' :
  stack_rep st bs → 0 < Z.of_nat (length new) ≤ PAGE_SIZE →
  fits (user_sp st) (Z.of_nat (length new)) →
  va_start (st_area st) * PAGE_SIZE ≤ user_sp st - Z.of_nat (length new) →
  push st new = Ok st' →
  stack_rep st' (new ++ bs) ∧ user_sp st' = user_sp st - Z.of_nat (length new) ∧
  va_start (st_area st') = va_start (st_area st).
Proof.
  intros Hr Hn Hfits Hlow Hp. unfold push in Hp.
  apply bind_Ok in Hp as (st1 & Hd & Hp). apply bind_Ok in Hp as (ppn & Hcur%unwrap_Ok & [= <-]).
  destruct (sp_down_ok st bs _ st1 Hr Hn Hfits Hlow Hd) as (p & []).
  rewrite sm_page0 in Hcur. injection Hcur as <-. rewrite page_offset_mod.
  destruct sm_area0 as (Hlz & Hs & He). destruct sm_inv0 as (M & Hg & Ha).
  assert (Hroom : user_sp st1 mod PAGE_SIZE + Z.of_nat (length new) ≤ PAGE_SIZE).
  { rewrite sm_sp0. unfold fits in Hfits. rewrite PAGE_SIZE_eq in *. lia_div. }
  assert (Hpos : 0 ≤ user_sp st1 mod PAGE_SIZE < PAGE_SIZE) by (rewrite PAGE_SIZE_eq; lia_div).
  rewrite write_phys_inside by lia. split_and!; [|by simpl|by simpl].
  set (n := Z.of_nat (length new)) in *. set (off := user_sp st1 mod PAGE_SIZE) in *.
  split; simpl; [|done| | | | |].
  - exists M. split; [by apply write_bytes_pages|done].
  - rewrite length_app, He. pose proof (sr_sp Hr). lia.
  - lia.
  - intros a Har. destruct (decide (user_sp st ≤ a)) as [Ha1|Ha1].
    + destruct (sm_bytes0 a) as (q & Hq & Hbs); [lia|]. exists q. split; [done|].
      rewrite lookup_app_r by lia.
      replace (Z.to_nat (a - user_sp st1) - length new)%nat with (Z.to_nat (a - user_sp st)) by lia.
      rewrite Hbs. f_equal. rewrite byte_at_write_bytes, decide_False; [done|].
      intros [-> Hoff]. pose proof (area_frames_inj _ _ _ _ _ _ _ Hg Ha Hq sm_cur0).
      unfold off in *. rewrite PAGE_SIZE_eq in *. lia_div.
    + exists p. assert (a / PAGE_SIZE = user_sp st1 / PAGE_SIZE ∧
                        a mod PAGE_SIZE = off + (a - user_sp st1)) as [-> ->].
      { unfold off in *. rewrite PAGE_SIZE_eq in *. lia_div. }
      split; [done|]. rewrite lookup_app_l by lia.
      rewrite byte_at_write_bytes, decide_True by lia.
      replace (off + (a - user_sp st1) - off) with (a - user_sp st1) by lia.
      destruct (new !! Z.to_nat (a - user_sp st1)) eqn:E; [done|]. apply lookup_ge_None in E. lia.
  - intros _. exists p. split_and!; [done|done|]. intros i Hi.
    rewrite byte_at_write_bytes, decide_False by lia. apply sm_zero0. lia.
  - intros v Hv. rewrite sm_other0; [apply (sr_below Hr); lia|].
    intros ->. rewrite PAGE_SIZE_eq in *. lia_div.
Qed.
End rep.

(** ** The image of the stack *)
Definition le8 (n : Z) : list Z := to_le_bytes 8 n.
Definition words (ns : list Z) : list Z := ns ≫= le8.

Lemma length_le8 n : length (le8 n) = 8%nat.
Proof. apply length_to_le_bytes. Qed.

Lemma words_app l k : words (l ++ k) = words l ++ words k.
Proof. apply bind_app. Qed.
Lemma words_single n : words [n] = le8 n.
Proof. apply app_nil_r. Qed.
Lemma length_words l : length (words l) = (8 * length l)%nat.
Proof.
  induction l as [|n l IH]; [done|]. change (n :: l) with ([n] ++ l).
  rewrite words_app, words_single, !length_app, length_le8, IH. simpl. lia.
Qed.

(** C strings, the last one lowest, and the addresses they get below [top]. *)
Fixpoint strs_image (l : list (list Z)) : list Z :=
  match l with [] => [] | s :: l => strs_image l ++ s ++ [0] end.
Fixpoint strs_layout (top : Z) (l : list (list Z)) : list Z :=
  match l with
  | [] => []
  | s :: l => let p := top - Z.of_nat (length s + 1) in p :: strs_layout p l
  end.

(** The auxiliary vector, the last entry lowest, each type below its value. *)
Fixpoint aux_image (auxv : list (Z * Z)) : list Z :=
  match auxv with [] => [] | (t, v) :: auxv => aux_image auxv ++ le8 t ++ le8 v end.

#[local] Opaque le8.

Section image.
Context `{Buddy, KernelImage}.

(** The stack area is [s, e) and holds [bs]. *)
Definition stk (s e : Z) (st : StackInitCtx) (bs : list Z) : Prop :=
  stack_rep st bs ∧ va_start (st_area st) = s ∧ va_end (st_area st) = e.

Lemma stk_sp s e st bs : stk s e st bs → user_sp st = e * PAGE_SIZE - Z.of_nat (length bs).
Proof. intros (Hr & _ & <-). pose proof (sr_sp Hr). lia. Qed.

Lemma push_stk s e st bs new st' :
  stk s e st bs → 0 < Z.of_nat (length new) ≤ PAGE_SIZE →
  fits (user_sp st) (Z.of_nat (length new)) →
  Z.of_nat (length new + length bs) ≤ (e - s) * PAGE_SIZE →
  push st new = Ok st' → stk s e st' (new ++ bs).
Proof.
  intros Hs Hn Hf Hroom Hp. pose proof (stk_sp _ _ _ _ Hs). destruct Hs as (Hr & Hst & He).
  destruct (push_ok st bs new st') as (Hr' & Hsp' & Hs'); [done|done|done|lia|done|].
  split_and!; [done|lia|]. pose proof (sr_sp Hr') as Hx. rewrite length_app in Hx.
  pose proof (sr_sp Hr). rewrite PAGE_SIZE_eq in *. lia.
Qed.

Lemma push_byte_stk s e st bs b st' :
  stk s e st bs → Z.of_nat (1 + length bs) ≤ (e - s) * PAGE_SIZE →
  push_byte st b = Ok st' → stk s e st' (b :: bs).
Proof.
  intros Hs Hroom Hp. eapply (push_stk s e st bs [b]); [done|rewrite PAGE_SIZE_eq; simpl; lia| |done|done].
  unfold fits. simpl. rewrite PAGE_SIZE_eq. lia_div.
Qed.

Lemma push_usize_stk s e st bs n st' :
  stk s e st bs → fits (user_sp st) 8 → Z.of_nat (8 + length bs) ≤ (e - s) * PAGE_SIZE →
  push_usize st n = Ok st' → stk s e st' (le8 n ++ bs).
Proof.
  intros Hs Hf Hroom Hp. apply (push_stk s e st bs (to_le_bytes 8 n)); [done|..|exact Hp];
    rewrite length_to_le_bytes; [rewrite PAGE_SIZE_eq; lia|done|done].
Qed.

(** An aligned word is within its page. *)
Lemma fits_aligned sp : sp mod 8 = 0 → fits sp 8.
Proof. unfold fits. rewrite PAGE_SIZE_eq. lia_div. Qed.

Lemma push_bytes_stk l s e st bs st' :
  stk s e st bs → Z.of_nat (length l + length bs) ≤ (e - s) * PAGE_SIZE →
  push_bytes st l = Ok st' → stk s e st' (rev l ++ bs).
Proof.
  revert st bs. induction l as [|b l IH]; intros st bs Hs Hroom Hp; simpl in *; [by injection Hp as <-|].
  apply bind_Ok in Hp as (st1 & Hb & Hp).
  pose proof (push_byte_stk _ _ _ _ _ _ Hs ltac:(lia) Hb) as Hs1.
  rewrite <- app_assoc. simpl. apply (IH st1); [done|simpl; lia|done].
Qed.

Lemma push_str_stk str s e st bs p st' :
  stk s e st bs → Z.of_nat (length str + 1 + length bs) ≤ (e - s) * PAGE_SIZE →
  push_str st str = Ok (p, st') → stk s e st' (str ++ [0] ++ bs) ∧ p = user_sp st'.
Proof.
  intros Hs Hroom Hp. unfold push_str in Hp. apply bind_Ok in Hp as (st1 & Hb & Hp).
  apply bind_Ok in Hp as (st2 & Hbs & [= <- <-]). split; [|done].
  pose proof (push_byte_stk _ _ _ _ _ _ Hs ltac:(lia) Hb) as Hs1.
  pose proof (push_bytes_stk (rev str) _ _ _ _ _ Hs1 ltac:(rewrite length_rev; simpl; lia) Hbs) as Hs2.
  by rewrite rev_involutive in Hs2.
Qed.

Lemma push_strs_stk l s e st bs ps st' :
  stk s e st bs → Z.of_nat (length (strs_image l) + length bs) ≤ (e - s) * PAGE_SIZE →
  push_strs st l = Ok (ps, st') →
  stk s e st' (strs_image l ++ bs) ∧ ps = strs_layout (user_sp st) l.
Proof.
  revert st bs ps. induction l as [|str l IH]; intros st bs ps Hs Hroom Hp; simpl in *.
  { by injection Hp as <- <-. }
  rewrite !length_app in Hroom. simpl in Hroom.
  apply bind_Ok in Hp as ([p st1] & Hstr & Hp). apply bind_Ok in Hp as ([ps1 st2] & Hl & [= <- <-]).
  destruct (push_str_stk str s e st bs p st1 Hs ltac:(lia) Hstr) as [Hs1 ->].
  destruct (IH st1 (str ++ [0] ++ bs) ps1 Hs1) as [Hs2 ->];
    [rewrite !length_app; simpl; lia|done|].
  split; [by rewrite <- !app_assoc|]. pose proof (stk_sp _ _ _ _ Hs1) as H1.
  pose proof (stk_sp _ _ _ _ Hs) as H2. rewrite !length_app in H1. simpl in H1.
  assert (user_sp st1 = user_sp st - Z.of_nat (length str + 1)) as -> by lia. done.
Qed.

Lemma push_usizes_stk ns s e st bs st' :
  stk s e st bs → user_sp st mod 8 = 0 →
  Z.of_nat (8 * length ns + length bs) ≤ (e - s) * PAGE_SIZE →
  push_usizes st ns = Ok st' →
  stk s e st' (words (rev ns) ++ bs) ∧ user_sp st' mod 8 = 0.
Proof.
  revert st bs. induction ns as [|n ns IH]; intros st bs Hs Hal Hroom Hp; simpl in *.
  { by injection Hp as <-. }
  apply bind_Ok in Hp as (st1 & Hn & Hp).
  pose proof (push_usize_stk _ _ _ _ _ _ Hs (fits_aligned _ Hal) ltac:(lia) Hn) as Hs1.
  destruct (IH st1 (le8 n ++ bs) Hs1) as [Hs2 Hal2]; [| |done|].
  { pose proof (stk_sp _ _ _ _ Hs1) as H1. rewrite length_app, length_le8 in H1.
    pose proof (stk_sp _ _ _ _ Hs). lia_div. }
  { rewrite length_app, length_le8. lia. }
  split; [|done]. by rewrite words_app, words_single, <- app_assoc.
Qed.

Lemma push_usize_aligned s e st bs n st' :
  stk s e st bs → user_sp st mod 8 = 0 → Z.of_nat (8 + length bs) ≤ (e - s) * PAGE_SIZE →
  push_usize st n = Ok st' → stk s e st' (le8 n ++ bs) ∧ user_sp st' mod 8 = 0.
Proof.
  intros Hs Hal Hroom Hp. destruct (push_usizes_stk [n] s e st bs st' Hs Hal) as [Hs' ?];
    [simpl; lia|simpl; by rewrite Hp|]. change (rev [n]) with [n] in Hs'.
  by rewrite words_single in Hs'.
Qed.

(** Everything below the alignment is a sequence of words. *)
Lemma push_usizes_cons_ok st n l st1 st' :
  push_usize st n = Ok st1 → push_usizes st1 l = Ok st' → push_usizes st (n :: l) = Ok st'.
Proof. simpl. by intros ->. Qed.

Lemma push_usizes_app_ok st l k st1 st' :
  push_usizes st l = Ok st1 → push_usizes st1 k = Ok st' → push_usizes st (l ++ k) = Ok st'.
Proof.
  revert st. induction l as [|n l IH]; intros st; simpl; [by intros [= ->]|].
  intros Hl Hk. apply bind_Ok in Hl as (st2 & -> & Hl). simpl. by apply IH.
Qed.

Definition aux_words (auxv : list (Z * Z)) : list Z := auxv ≫= λ e, [e.2; e.1].

Lemma push_auxv_words st auxv : push_auxv st auxv = push_usizes st (aux_words auxv).
Proof.
  revert st. induction auxv as [|[t v] auxv IH]; intros st; [done|]. simpl.
  destruct (push_usize st v) as [st1| |]; simpl; [|done|done].
  destruct (push_usize st1 t) as [st2| |]; simpl; [apply IH|done|done].
Qed.

Lemma aux_image_words auxv : aux_image auxv = words (rev (aux_words auxv)).
Proof.
  induction auxv as [|[t v] auxv IH]; [done|]. unfold aux_words in *. simpl.
  rewrite IH, !words_app, !words_single. by rewrite <- app_assoc.
Qed.

(** Clearing the low three bits leaves a gap of zero bytes. *)
Lemma align_sp_stk s e st bs :
  stk s e st bs → 0 ≤ s → Z.of_nat (length bs) ≤ (e - s) * PAGE_SIZE - 8 →
  stk s e (align_sp st) (replicate (Z.to_nat (user_sp st mod 8)) 0 ++ bs) ∧
  user_sp (align_sp st) mod 8 = 0.
Proof.
  intros Hs Hs0 Hroom. pose proof (stk_sp _ _ _ _ Hs) as Hsp. destruct Hs as (Hr & Hst & He).
  assert (Hal : user_sp (align_sp st) = user_sp st - user_sp st mod 8).
  { simpl. change 7 with (Z.ones 3). rewrite <- Z.ldiff_land, Z.ldiff_ones_r by lia.
    rewrite Z.shiftr_div_pow2, Z.shiftl_mul_pow2 by lia. lia_div. }
  split; [|rewrite Hal; lia_div]. split_and!; [|done|done].
  assert (Hin : user_sp st mod 8 ≠ 0 → user_sp st mod PAGE_SIZE ≠ 0) by (rewrite PAGE_SIZE_eq; lia_div).
  destruct (sr_inv Hr) as (M & Hg & Ha). split.
  - by exists M.
  - apply (sr_lazy Hr).
  - rewrite Hal, length_app, length_replicate. pose proof (sr_sp Hr). simpl. lia_div.
  - rewrite Hal. simpl. rewrite Hst in *. rewrite PAGE_SIZE_eq in *. lia_div.
  - intros a. rewrite Hal. simpl. intros Hra.
    destruct (decide (user_sp st ≤ a)).
    + destruct (sr_bytes Hr a) as (q & Hq & Hb); [lia|]. exists q. split; [done|].
      rewrite lookup_app_r by (rewrite length_replicate; lia_div).
      rewrite length_replicate. rewrite <- Hb. f_equal. lia_div.
    + destruct (sr_cur Hr) as (p & _ & Hq & Hz); [apply Hin; lia|]. exists p.
      assert (a / PAGE_SIZE = user_sp st / PAGE_SIZE ∧ 0 ≤ a mod PAGE_SIZE < user_sp st mod PAGE_SIZE)
        as [-> Hb] by (rewrite PAGE_SIZE_eq in *; lia_div).
      split; [done|]. rewrite lookup_app_l by (rewrite length_replicate; lia_div).
      rewrite Hz by done. apply lookup_replicate. split; [done|]. lia_div.
  - rewrite Hal. intros Hne. simpl.
    assert (user_sp st mod PAGE_SIZE ≠ 0) as Hne' by (rewrite PAGE_SIZE_eq in *; lia_div).
    destruct (sr_cur Hr Hne') as (p & Hp & Hq & Hz). exists p.
    assert ((user_sp st - user_sp st mod 8) / PAGE_SIZE = user_sp st / PAGE_SIZE) as ->
      by (rewrite PAGE_SIZE_eq in *; lia_div).
    split_and!; [done|done|]. intros i Hi. apply Hz. rewrite PAGE_SIZE_eq in *. lia_div.
  - intros v. rewrite Hal. simpl. intros Hv. apply (sr_below Hr). lia_div.
Qed.
(** The strings and the words above them. *)
Definition strings_image (t1 t2 : Z) (args envs : list (list Z)) : list Z :=
  strs_image args ++ le8 0 ++ strs_image envs ++ le8 t2 ++ le8 t1 ++ le8 0.

(** The whole stack of a program with [top] as the end of its area. *)
Definition stack_image (t1 t2 top : Z) (args envs : list (list Z)) (auxv : list (Z * Z)) : list Z :=
  let random_pos := top - 24 in
  let envp := strs_layout random_pos envs in
  let argv := strs_layout (random_pos - Z.of_nat (length (strs_image envs)) - 8) args in
  let strings := strings_image t1 t2 args envs in
  le8 (Z.of_nat (length args)) ++ words argv ++ le8 0 ++ words envp ++ le8 0 ++
  aux_image auxv ++ le8 random_pos ++ le8 AT_RANDOM ++ le8 0 ++ le8 0 ++
  replicate (Z.to_nat ((top - Z.of_nat (length strings)) mod 8)) 0 ++ strings.

(** The first part of [init_stack_impl], down to the alignment. *)
Lemma init_strings s e t1 t2 st args envs st1 st2 st3 st4 st5 st6 envp argv :
  stk s e st [] → 0 ≤ s →
  fits (e * PAGE_SIZE - 24 - Z.of_nat (length (strs_image envs))) 8 →
  Z.of_nat (length (strings_image t1 t2 args envs)) + 8 ≤ (e - s) * PAGE_SIZE →
  push_usize st 0 = Ok st1 → push_usize st1 t1 = Ok st2 → push_usize st2 t2 = Ok st3 →
  push_strs st3 envs = Ok (envp, st4) → push_usize st4 0 = Ok st5 →
  push_strs st5 args = Ok (argv, st6) →
  let top := e * PAGE_SIZE in
  stk s e st6 (strings_image t1 t2 args envs) ∧ user_sp st3 = top - 24 ∧
  envp = strs_layout (top - 24) envs ∧
  argv = strs_layout (top - 24 - Z.of_nat (length (strs_image envs)) - 8) args.
Proof.
  intros Hs Hs0 Hfit Hroom H1 H2 H3 H4 H5 H6 top. unfold strings_image in Hroom.
  rewrite !length_app, !length_le8 in Hroom.
  assert (Htop : user_sp st mod 8 = 0).
  { rewrite (stk_sp _ _ _ _ Hs), PAGE_SIZE_eq. simpl. lia_div. }
  destruct (push_usize_aligned s e st [] 0 st1 Hs Htop ltac:(simpl; lia) H1) as [Hs1 Ha1].
  rewrite app_nil_r in Hs1.
  destruct (push_usize_aligned s e st1 _ t1 st2 Hs1 Ha1 ltac:(rewrite length_le8; lia) H2) as [Hs2 Ha2].
  destruct (push_usize_aligned s e st2 _ t2 st3 Hs2 Ha2
    ltac:(rewrite length_app, !length_le8; lia) H3) as [Hs3 _].
  pose proof (stk_sp _ _ _ _ Hs3) as Hsp3. rewrite !length_app, !length_le8 in Hsp3.
  destruct (push_strs_stk envs s e st3 _ envp st4 Hs3
    ltac:(rewrite !length_app, !length_le8; lia) H4) as [Hs4 ->].
  pose proof (stk_sp _ _ _ _ Hs4) as Hsp4. rewrite !length_app, !length_le8 in Hsp4.
  assert (Hs5 : stk s e st5 (le8 0 ++ strs_image envs ++ le8 t2 ++ le8 t1 ++ le8 0)).
  { eapply push_usize_stk; [exact Hs4| | |exact H5].
    - rewrite Hsp4. by replace (e * PAGE_SIZE - Z.of_nat (length (strs_image envs) + (8 + (8 + 8))))
        with (e * PAGE_SIZE - 24 - Z.of_nat (length (strs_image envs))) by lia.
    - rewrite !length_app, !length_le8. lia. }
  pose proof (stk_sp _ _ _ _ Hs5) as Hsp5. rewrite !length_app, !length_le8 in Hsp5.
  destruct (push_strs_stk args s e st5 _ argv st6 Hs5
    ltac:(rewrite !length_app, !length_le8; lia) H6) as [Hs6 ->].
  split_and!; [done|unfold top; lia|f_equal; unfold top; lia|f_equal; unfold top; lia].
Qed.

(** The words from the alignment down, in the order they are pushed. *)
Definition tail_words (random_pos argc : Z) (envp argv : list Z) (auxv : list (Z * Z)) : list Z :=
  [0; 0; AT_RANDOM; random_pos] ++ aux_words auxv ++ [0] ++ rev envp ++ [0] ++ rev argv ++ [argc].

Lemma stack_image_words t1 t2 top args envs auxv :
  let random_pos := top - 24 in
  let envp := strs_layout random_pos envs in
  let argv := strs_layout (random_pos - Z.of_nat (length (strs_image envs)) - 8) args in
  let strings := strings_image t1 t2 args envs in
  stack_image t1 t2 top args envs auxv =
    words (rev (tail_words random_pos (Z.of_nat (length args)) envp argv auxv)) ++
    replicate (Z.to_nat ((top - Z.of_nat (length strings)) mod 8)) 0 ++ strings.
Proof.
  cbv zeta. unfold stack_image, tail_words. rewrite aux_image_words.
  rewrite !rev_app_distr, !rev_involutive. simpl rev.
  rewrite !words_app, !words_single, <- !app_assoc. done.
Qed.

Lemma push_usize_sp st n st' : push_usize st n = Ok st' → user_sp st = user_sp st' + 8.
Proof.
  unfold push_usize, push, sp_down. rewrite length_to_le_bytes. intros Hp.
  apply bind_Ok in Hp as (st1 & Hd & Hp). apply bind_Ok in Hd as (sp & [<- _]%checked_Ok & Hd).
  apply bind_Ok in Hp as (p & _ & [= <-]). simpl. case_match; [|injection Hd as <-; simpl; lia].
  apply bind_Ok in Hd as ([[[? ?] ?] ?] & _ & [= <-]). simpl. lia.
Qed.

(** The second part of [init_stack_impl] pushes just those words. *)
Lemma tail_pushes st random_pos argc envp argv auxv sp argv_base st' :
  (let? st := push_usize st 0 in
   let? st := push_usize st 0 in
   let? st := push_usize st AT_RANDOM in
   let? st := push_usize st random_pos in
   let? st := push_auxv st auxv in
   let? st := push_usize st 0 in
   let? st := push_ptrs st envp in
   let? st := push_usize st 0 in
   let? st := push_ptrs st argv in
   let? st1 := push_usize st argc in
   Ok (user_sp st1, user_sp st, st1)) = Ok (sp, argv_base, st') →
  push_usizes st (tail_words random_pos argc envp argv auxv) = Ok st' ∧
  sp = user_sp st' ∧ argv_base = sp + 8.
Proof.
  intros Hi. unfold tail_words.
  apply bind_Ok in Hi as (s1 & H1 & Hi). apply bind_Ok in Hi as (s2 & H2 & Hi).
  apply bind_Ok in Hi as (s3 & H3 & Hi). apply bind_Ok in Hi as (s4 & H4 & Hi).
  apply bind_Ok in Hi as (s5 & H5 & Hi). apply bind_Ok in Hi as (s6 & H6 & Hi).
  apply bind_Ok in Hi as (s7 & H7 & Hi). apply bind_Ok in Hi as (s8 & H8 & Hi).
  apply bind_Ok in Hi as (s9 & H9 & Hi). apply bind_Ok in Hi as (s10 & H10 & [= <- <- <-]).
  rewrite push_auxv_words in H5. split_and!; [|done|by eapply push_usize_sp].
  do 4 (eapply push_usizes_cons_ok; [eassumption|]).
  eapply push_usizes_app_ok; [eassumption|]. eapply push_usizes_cons_ok; [eassumption|].
  eapply push_usizes_app_ok; [exact H7|]. eapply push_usizes_cons_ok; [eassumption|].
  eapply push_usizes_app_ok; [exact H9|]. by eapply push_usizes_cons_ok; [eassumption|].
Qed.

(** The initial stack of a program is the documented image. Provided the
    image fits into the stack area and the word after the environment strings
    does not straddle a page, [init_stack] leaves exactly these bytes below the
    top of the area: [argc], the argument pointers and a null, the environment
    pointers and a null, the auxiliary vector, padding, and the strings the
    pointers point to; the stack pointer addresses [argc] and [argv_base] the first
    argument pointer. The image also shows the pair of [AT_RANDOM], which is stored
    with its value below its type, the other way round than every other entry. *)
Lemma init_stack_image s e t1 t2 st args envs auxv sp argv_base st' :
  stk s e st [] → 0 ≤ s →
  fits (e * PAGE_SIZE - 24 - Z.of_nat (length (strs_image envs))) 8 →
  Z.of_nat (length (stack_image t1 t2 (e * PAGE_SIZE) args envs auxv)) ≤ (e - s) * PAGE_SIZE →
  init_stack_impl t1 t2 st args envs auxv = Ok (sp, argv_base, st') →
  stk s e st' (stack_image t1 t2 (e * PAGE_SIZE) args envs auxv) ∧
  sp = user_sp st' ∧ argv_base = sp + 8 ∧ sp mod 8 = 0.
Proof.
  intros Hs Hs0 Hfit Hroom Hi. unfold init_stack_impl in Hi.
  apply bind_Ok in Hi as (st1 & H1 & Hi). apply bind_Ok in Hi as (st2 & H2 & Hi).
  apply bind_Ok in Hi as (st3 & H3 & Hi). apply bind_Ok in Hi as ([envp st4] & H4 & Hi).
  apply bind_Ok in Hi as (st5 & H5 & Hi). apply bind_Ok in Hi as ([argv st6] & H6 & Hi).
  rewrite stack_image_words in Hroom |- *. cbv zeta in Hroom |- *.
  rewrite !length_app, length_words, length_rev, length_replicate in Hroom.
  destruct (init_strings s e t1 t2 st args envs st1 st2 st3 st4 st5 st6 envp argv)
    as (Hs6 & Hrnd & -> & ->); [done..| |done|done|done|done|done|done|].
  { unfold tail_words in Hroom. rewrite !length_app in Hroom. simpl in Hroom. lia. }
  pose proof (stk_sp _ _ _ _ Hs6) as Hsp6.
  destruct (align_sp_stk s e st6 _ Hs6 Hs0) as [Hs7 Ha7].
  { unfold tail_words in Hroom. rewrite !length_app in Hroom. simpl in Hroom. lia. }
  rewrite Hsp6 in Hs7. rewrite Hrnd in Hi.
  destruct (tail_pushes _ _ _ _ _ _ _ _ _ Hi) as (Hp7 & -> & ->).
  edestruct push_usizes_stk as [Hs8 Ha8]; [exact Hs7|exact Ha7| |exact Hp7|].
  { rewrite length_app, length_replicate. lia. }
  by split_and!.
Qed.
End image.

(** ** A concrete stack of two pages *)
Definition demo_stack : StackInitCtx :=
  mkCtx (0x12 * PAGE_SIZE) None (area_new 0x10 0x12 22 Lazy) boot_pt.1 boot_pt.2.

Lemma demo_stack_rep : stk 0x10 0x12 demo_stack [].
Proof.
  destruct boot_pt_inv as (Hpt & Hm & Hw).
  assert (Hg : pages_inv boot_pt.2 boot_pt.1 ∅).
  { split; [done|done|by intros v [? ?]| |done|done].
    intros v Hv. rewrite lookup_empty. apply Hw. by apply low_in_half. }
  split_and!; [|done|done].
  split; cbn [demo_stack user_sp cur_page st_area st_pt st_mem area_new va_start va_end
              a_type unbacked_map length].
  - exists ∅. split; [exact Hg|].
    apply area_new_inv; [lia|rewrite LOW_VPN_END_eq; lia|unfold MapPermission.all; lia|done].
  - done.
  - rewrite PAGE_SIZE_eq. lia.
  - rewrite PAGE_SIZE_eq. lia.
  - rewrite PAGE_SIZE_eq. lia.
  - rewrite PAGE_SIZE_eq. intros Hx. by destruct Hx.
  - intros v _. apply lookup_empty.
Qed.

(** One argument, one environment string and one auxiliary entry. *)
Lemma init_stack_image_witness :
  ∃ sp argv_base st',
    init_stack_impl 7 9 demo_stack [[97]] [[98; 61; 99]] [(AT_PAGESZ, 4096)] = Ok (sp, argv_base, st') ∧
    stk 0x10 0x12 st' (stack_image 7 9 (0x12 * PAGE_SIZE) [[97]] [[98; 61; 99]] [(AT_PAGESZ, 4096)]).
Proof.
  assert (Hok : is_ok (init_stack_impl 7 9 demo_stack [[97]] [[98; 61; 99]] [(AT_PAGESZ, 4096)]) = true)
    by (vm_compute; reflexivity).
  destruct (init_stack_impl 7 9 demo_stack [[97]] [[98; 61; 99]] [(AT_PAGESZ, 4096)])
    as [[[sp argv_base] st']| |] eqn:E; [|discriminate Hok..].
  destruct (init_stack_image 0x10 0x12 7 9 demo_stack [[97]] [[98; 61; 99]] [(AT_PAGESZ, 4096)]
    sp argv_base st' demo_stack_rep) as [Hs _].
  - lia.
  - right. vm_compute. congruence.
  - vm_compute. congruence.
  - exact E.
  - exists sp, argv_base, st'. split; [reflexivity|exact Hs].
Defined.

(** With 4067 bytes of environment the word after the strings straddles a page:
    the stack pointer ends up in a page that was never given a frame, because
    the page is only allocated when a store starts at a page boundary. *)
Lemma init_stack_straddles :
  match init_stack_impl 7 9 demo_stack [[97]] [replicate 4067 98] [] with
  | Ok (sp, _, st') => sp / PAGE_SIZE = 0x10 ∧ unbacked_map (st_area st') !! 0x10 = None
  | _ => False
  end.
Proof. vm_compute. split; reflexivity. Qed.
