(* ===== verification/UserCheck.v ===== *)
(** * Access to user memory ([memory/user_check.rs])

    A system call reaches user memory through [UserCheck]: the check touches the
    pages of the range with the trap entry redirected, lets the demand pager
    bring missing pages in, and hands out a [UserRead] or [UserWrite] whose
    accesses are ordinary loads and stores of the kernel; a fault of one of
    those is a trap from the kernel, and [kernel_trap_handler] panics on it.

    The [UserMemory] class is what the system calls use of this; the
    instance at the end discharges its laws for a [MemorySpace]. *)
From S2P Require Import Prelude BTree Address Defines FrameAllocator PageTable VmArea MemorySpace.

(** ** What a system call sees of user memory

    Checks and accesses take a state and return the new one: a check may bring
    pages in. [um_ok u a n] says that the [n] bytes from [a] are resident,
    readable and writable, and not mapped twice. *)
Class UserMemory (U : Type) := {
  um_check_read : U → Z → Z → KResult ((() + errno) * U);
  um_check_write : U → Z → Z → KResult ((() + errno) * U);
  um_load : U → Z → nat → KResult (list Z);
  um_store : U → Z → list Z → KResult U;
  um_ok : U → Z → nat → Prop;
  um_ok_read u a n : um_ok u a n → um_check_read u a (Z.of_nat n) = Ok (inl (), u);
  um_ok_write u a n : um_ok u a n →
    ∃ u', um_check_write u a (Z.of_nat n) = Ok (inl (), u') ∧ um_ok u' a n ∧
          ∀ b k, um_load u' b k = um_load u b k;
  um_ok_store u a bs : um_ok u a (length bs) →
    ∃ u', um_store u a bs = Ok u' ∧ um_ok u' a (length bs) ∧
          um_load u' a (length bs) = Ok bs;
  um_ok_prefix u a n k : (k ≤ n)%nat → um_ok u a n → um_ok u a k;
}.

(** ** The MMU

    A load of supervisor code with [sstatus.SUM] set ([AccessUserGuard])
    succeeds on a page whose entry has [R]; a store needs [W], and an entry
    with [W] but without [R] is reserved and faults. *)
Section mmu.
Context `{Buddy, KernelImage}.

Definition mmu_load (m : Mem) (sp : MemorySpace) (addr : Z) : option Z :=
  match translate m sp (VirtAddr.vpn_floor addr) with
  | Some (ppn, fl) =>
      if Flags.contains fl PTEFlags.R
      then Some (byte_at m ppn (VirtAddr.page_offset addr)) else None
  | None => None
  end.

Definition mmu_store (m : Mem) (sp : MemorySpace) (addr b : Z) : option Mem :=
  match translate m sp (VirtAddr.vpn_floor addr) with
  | Some (ppn, fl) =>
      if Flags.contains fl (Flags.union PTEFlags.R PTEFlags.W)
      then Some (write_byte m ppn (VirtAddr.page_offset addr) b) else None
  | None => None
  end.

(** [UserRead::read], [Deref for UserRead<[u8]>]: the bytes of the range. *)
Fixpoint user_load (m : Mem) (sp : MemorySpace) (addr : Z) (n : nat) : KResult (list Z) :=
  match n with
  | O => Ok []
  | S n =>
      let? b := unwrap (mmu_load m sp addr) in
      let? bs := user_load m sp (addr + 1) n in
      Ok (b :: bs)
  end.

(** [UserWrite::write], [as_bytes_mut]: the bytes of the range are replaced. *)
Fixpoint user_store (m : Mem) (sp : MemorySpace) (addr : Z) (bs : list Z) : KResult Mem :=
  match bs with
  | [] => Ok m
  | b :: bs =>
      let? m := unwrap (mmu_store m sp addr b) in
      user_store m sp (addr + 1) bs
  end.

(** ** Probing one byte *)
Inductive Exception : Type :=
| InstructionMisaligned | InstructionFault | IllegalInstruction | Breakpoint
| LoadMisaligned | LoadFault | StoreMisaligned | StoreFault
| UserEnvCall | SupervisorEnvCall
| InstructionPageFault | LoadPageFault | StorePageFault.

Definition Exception_from_number (code : Z) : option Exception :=
  match code with
  | 0 => Some InstructionMisaligned | 1 => Some InstructionFault
  | 2 => Some IllegalInstruction | 3 => Some Breakpoint
  | 4 => Some LoadMisaligned | 5 => Some LoadFault
  | 6 => Some StoreMisaligned | 7 => Some StoreFault
  | 8 => Some UserEnvCall | 9 => Some SupervisorEnvCall
  | 12 => Some InstructionPageFault | 13 => Some LoadPageFault
  | 15 => Some StorePageFault
  | _ => None
  end.

Record TryOpRet : Type := mkTry { scause : Z; is_err : bool }.

(** [lb a0, 0(a0)]; a fault returns through [trap_from_access_user] with the
    cause. *)
Definition try_read_user_byte_impl (m : Mem) (sp : MemorySpace) (addr : Z) : TryOpRet :=
  match mmu_load m sp addr with
  | Some b => mkTry (wrap 64 (to_signed 8 b)) false
  | None => mkTry 13 true
  end.

(** [lb a2, 0(a0)] then [sb a2, 0(a0)], which stores the byte it loaded. *)
Definition try_write_user_byte_impl (m : Mem) (sp : MemorySpace) (addr : Z) : TryOpRet * Mem :=
  match mmu_load m sp addr with
  | Some b =>
      match mmu_store m sp addr b with
      | Some m => (mkTry addr false, m)
      | None => (mkTry 15 true, m)
      end
  | None => (mkTry 13 true, m)
  end.

(** The file's own [handle_memory_exception]: only page faults go to the pager,
    which is told of a possible copy-on-write for [StoreFault] only. *)
Definition uc_handle_memory_exception (m : Mem) (sp : MemorySpace) (addr : Z) (e : Exception) :
    KResult ((() + errno) * MemorySpace * Mem) :=
  match e with
  | StoreFault | StorePageFault | InstructionPageFault | LoadPageFault =>
      let? (ok, sp, m) := handle_memory_exception m sp addr
        (match e with StoreFault => true | _ => false end) in
      Ok (if (ok : bool) then inl () else inr EFAULT, sp, m)
  | _ => Ok (inr EFAULT, sp, m)
  end.

(** The common tail of [try_read_user_byte] and [try_write_user_byte]. *)
Definition handle_try_ret (m : Mem) (sp : MemorySpace) (addr : Z) (ret : TryOpRet) :
    KResult ((() + errno) * MemorySpace * Mem) :=
  if is_err ret then
    check (Z.land (scause ret) (Z.shiftl 1 63) =? 0) in
    match Exception_from_number (Z.land (scause ret) (Z.lnot (Z.shiftl 1 63))) with
    | None => Ok (inr EFAULT, sp, m)
    | Some e => uc_handle_memory_exception m sp addr e
    end
  else Ok (inl (), sp, m).

Definition try_read_user_byte (m : Mem) (sp : MemorySpace) (addr : Z) :
    KResult ((() + errno) * MemorySpace * Mem) :=
  handle_try_ret m sp addr (try_read_user_byte_impl m sp addr).

Definition try_write_user_byte (m : Mem) (sp : MemorySpace) (addr : Z) :
    KResult ((() + errno) * MemorySpace * Mem) :=
  let '(ret, m) := try_write_user_byte_impl m sp addr in handle_try_ret m sp addr ret.

(** ** Checking a range *)

(** The values of [va] in [while va < end { ...; va += PAGE_SIZE }]. *)
Definition probe_addrs (s e : Z) : list Z :=
  (λ k, s + k * PAGE_SIZE) <$> seqZ 0 (div_ceil (e - s) PAGE_SIZE).

Fixpoint probe_loop (probe : Mem → MemorySpace → Z → KResult ((() + errno) * MemorySpace * Mem))
    (m : Mem) (sp : MemorySpace) (l : list Z) : KResult ((() + errno) * MemorySpace * Mem) :=
  match l with
  | [] => Ok (inl (), sp, m)
  | va :: l =>
      let? (r, sp, m) := probe m sp va in
      match r with
      | inl _ => probe_loop probe m sp l
      | inr e => Ok (inr e, sp, m)
      end
  end.

(** [check_read_impl] and [check_write_impl]; [bytes] is [len * size_of::<T>()]. *)
Definition check_read_impl (m : Mem) (sp : MemorySpace) (user_ptr bytes : Z) :
    KResult ((() + errno) * MemorySpace * Mem) :=
  let? user_addr_end := uadd 64 user_ptr bytes in
  if LOW_ADDRESS_END <? user_addr_end then Ok (inr EFAULT, sp, m)
  else probe_loop try_read_user_byte m sp (probe_addrs user_ptr user_addr_end).

Definition check_write_impl (m : Mem) (sp : MemorySpace) (user_ptr bytes : Z) :
    KResult ((() + errno) * MemorySpace * Mem) :=
  let? user_addr_end := uadd 64 user_ptr bytes in
  if LOW_ADDRESS_END <? user_addr_end then Ok (inr EFAULT, sp, m)
  else probe_loop try_write_user_byte m sp (probe_addrs user_ptr user_addr_end).

(** [UserCheck::check_ptr]: an earlier bound check, then one element. *)
Definition check_ptr (m : Mem) (sp : MemorySpace) (ptr size_of : Z) :
    KResult ((() + errno) * MemorySpace * Mem) :=
  let? e := uadd 64 ptr size_of in
  if LOW_ADDRESS_END <? e then Ok (inr EFAULT, sp, m)
  else check_read_impl m sp ptr size_of.

Definition check_ptr_mut (m : Mem) (sp : MemorySpace) (ptr size_of : Z) :
    KResult ((() + errno) * MemorySpace * Mem) := check_write_impl m sp ptr size_of.

(** [UserCheck<[T]>] is a pointer and a length. *)
Definition check_slice (m : Mem) (sp : MemorySpace) (ptr len size_of : Z) :
    KResult ((() + errno) * MemorySpace * Mem) :=
  let? bytes := umul 64 len size_of in check_read_impl m sp ptr bytes.
Definition check_slice_mut (m : Mem) (sp : MemorySpace) (ptr len size_of : Z) :
    KResult ((() + errno) * MemorySpace * Mem) :=
  let? bytes := umul 64 len size_of in check_write_impl m sp ptr bytes.

(** ** C strings *)

(** [check_cstr_end]: the address of the first zero byte from [va], or the end
    of the page; [n] bytes are left in the page. *)
Fixpoint check_cstr_end_loop (m : Mem) (sp : MemorySpace) (va : Z) (n : nat) : KResult Z :=
  match n with
  | O => Ok va
  | S n =>
      let? b := unwrap (mmu_load m sp va) in
      if b =? 0 then Ok va else check_cstr_end_loop m sp (va + 1) n
  end.
Definition check_cstr_end (m : Mem) (sp : MemorySpace) (start : Z) : KResult Z :=
  let next_page := Z.shiftl (Z.shiftr start PAGE_SIZE_BITS) PAGE_SIZE_BITS + PAGE_SIZE in
  check_cstr_end_loop m sp start (Z.to_nat (next_page - start)).

(** The [loop] of [check_cstr]; an iteration that does not leave the loop moves
    [va] to the next page, and the length test ends it after [MAX_PATHNAME_LEN]
    bytes, so [cstr_fuel] iterations are enough. *)
Definition cstr_fuel : nat := Z.to_nat (MAX_PATHNAME_LEN / PAGE_SIZE + 2).
Fixpoint check_cstr_loop (fuel : nat) (m : Mem) (sp : MemorySpace) (start va : Z) :
    KResult ((Z + errno) * MemorySpace * Mem) :=
  match fuel with
  | O => Panic
  | S fuel =>
      let? (r, sp, m) := try_read_user_byte m sp va in
      match r with
      | inr e => Ok (inr e, sp, m)
      | inl _ =>
          let? end_ := check_cstr_end m sp va in
          if (va <? end_) && (end_ mod PAGE_SIZE =? 0) then
            let va := end_ in
            if LOW_ADDRESS_END <=? va then Ok (inr EFAULT, sp, m)
            else if MAX_PATHNAME_LEN <? end_ - start then Ok (inr ENAMETOOLONG, sp, m)
            else check_cstr_loop fuel m sp start va
          else Ok (inl end_, sp, m)
      end
  end.

Definition check_cstr (m : Mem) (sp : MemorySpace) (ptr : Z) :
    KResult ((list Z + errno) * MemorySpace * Mem) :=
  if LOW_ADDRESS_END <=? ptr then Ok (inr EFAULT, sp, m)
  else
    let? (r, sp, m) := check_cstr_loop cstr_fuel m sp ptr ptr in
    match r with
    | inr e => Ok (inr e, sp, m)
    | inl end_ =>
        let? bytes := user_load m sp ptr (Z.to_nat (end_ - ptr)) in
        Ok (if valid_utf8 bytes then inl bytes else inr EINVAL, sp, m)
    end.
End mmu.

(** [UserCheck::new]: a null pointer is refused. *)
Definition UserCheck_new (ptr : Z) : option Z := if ptr =? 0 then None else Some ptr.

(** [UserCheck::add]. *)
Definition UserCheck_add {E} (ptr size_of count : Z) : outcome E (option Z) :=
  let? offset := umul 64 size_of count in
  Ok (if ptr + offset <=? usize_max then Some (ptr + offset) else None).

(** [UserCheck<[T]>::slice], also behind [WriteBuffer::slice]. *)
Definition UserCheck_slice {E} (ptr len size_of s e : Z) : outcome E (option (Z * Z)) :=
  if (len <? e) || (e <? s) then Ok None
  else
    let? first := UserCheck_add (E:=E) ptr size_of s in
    Ok (option_map (λ p, (p, e - s)) first).

(** ** Lemmas *)
Section lemmas.
Context `{Buddy, KernelImage}.

(** Resident pages keep their frames and their bytes, and the areas their kind
    and permission. *)
Definition area_kind (a : FramedVmArea) : AreaType * Z := (a_type a, a_perm a).
Definition keeps (m : Mem) (sp : MemorySpace) (m' : Mem) (sp' : MemorySpace) : Prop :=
  (∀ w, 0 ≤ w < LOW_VPN_END → is_Some (translate m sp w) →
     translate m' sp' w = translate m sp w ∧ ∀ i, user_byte m' sp' w i = user_byte m sp w i) ∧
  ∀ k, area_kind <$> user_areas sp' !! k = area_kind <$> user_areas sp !! k.

(** Every area is demand-paged, as the ones [brk], the stacks and [fork] make. *)
Definition all_lazy (sp : MemorySpace) : Prop :=
  ∀ k a, user_areas sp !! k = Some a → a_type a = Lazy.

Lemma keeps_refl m sp : keeps m sp m sp.
Proof. done. Qed.
Lemma keeps_trans m sp m1 sp1 m2 sp2 :
  keeps m sp m1 sp1 → keeps m1 sp1 m2 sp2 → keeps m sp m2 sp2.
Proof.
  intros [Ha Hka] [Hb Hkb]. split; [|intros k; by rewrite Hkb].
  intros w Hw Hs. destruct (Ha w Hw Hs) as [Ht Hu].
  destruct (Hb w Hw) as [Ht' Hu']; [by rewrite Ht|]. split; [congruence|].
  intros i. by rewrite Hu', Hu.
Qed.

Lemma translate_write_byte m sp p off b v :
  translate (write_byte m p off b) sp v = translate m sp v.
Proof. done. Qed.

Lemma space_inv_write_byte m sp p off b :
  space_inv m sp → space_inv (write_byte m p off b) sp.
Proof.
  intros (M & Hg & Hi). exists M. split; [|done]. by apply (write_bytes_pages m _ _ p off [b]).
Qed.

Lemma user_byte_rewrite m sp p off v i :
  user_byte (write_byte m p off (byte_at m p off)) sp v i = user_byte m sp v i.
Proof.
  unfold user_byte. rewrite translate_write_byte. destruct (translate m sp v) as [[q fl]|]; [|done].
  simpl. rewrite byte_at_write. case_decide; [|done]. destruct_and?. by subst.
Qed.

Lemma vpn_floor_low addr : 0 ≤ addr < LOW_ADDRESS_END → 0 ≤ VirtAddr.vpn_floor addr < LOW_VPN_END.
Proof.
  intros Ha. rewrite vpn_floor_div, LOW_VPN_END_eq, PAGE_SIZE_eq. unfold LOW_ADDRESS_END in Ha.
  lia_div.
Qed.

(** The pager, whatever it answers. *)
Lemma fault_ok m sp addr ok sp' m' :
  space_inv m sp → 0 ≤ addr < LOW_ADDRESS_END →
  handle_memory_exception m sp addr false = Ok (ok, sp', m') →
  space_inv m' sp' ∧ keeps m sp m' sp' ∧
  (if ok then is_Some (translate m' sp' (VirtAddr.vpn_floor addr))
   else sp' = sp ∧ m' = m ∧ ∀ a, ¬ area_at sp (VirtAddr.vpn_floor addr) a).
Proof.
  intros Hsp Haddr. pose proof Hsp as (M & Hg & Hi).
  pose proof (vpn_floor_low addr Haddr) as Hv. unfold handle_memory_exception.
  set (v := VirtAddr.vpn_floor addr) in *.
  destruct (btree_floor (user_areas sp) v) as [[k a]|] eqn:E.
  2:{ intros [= <- <- <-]. split_and!; try done. intros a (s & Hs & Ha).
      destruct (floor_complete _ _ _ _ _ Hi Hs Ha) as (? & ? & E' & _). congruence. }
  destruct (floor_in_area _ _ _ _ _ Hi E) as (Hk & Hst & Hle).
  destruct (Z.leb_spec (va_end a) v).
  { intros [= <- <- <-]. split_and!; try done. intros b (s & Hs & Hb).
    destruct (floor_complete _ _ _ _ _ Hi Hs Hb) as (? & ? & E' & -> & ->).
    rewrite E in E'. injection E' as -> ->. unfold in_area in Hb. lia. }
  assert (Hin : in_area a v) by (unfold in_area; lia).
  destruct (a_type a) eqn:Hty; [|done]. intros He.
  apply bind_Ok in He as ([[[p a'] pt'] m1] & Hal & He). injection He as <- <- <-.
  destruct (ar_area Hi k a Hk) as [_ Ha].
  destruct (unbacked_map a !! v) as [q|] eqn:Hum.
  - unfold ensure_allocated in Hal.
    rewrite bool_decide_eq_true_2, Hum in Hal by done. injection Hal as <- <- <- <-.
    rewrite insert_id by done. destruct sp as [pt ar]. split_and!; [done|done|].
    unfold translate. rewrite (pg_walk Hg) by done.
    by rewrite (proj2 (ai_unbacked Ha v _ Hum)).
  - destruct (ensure_allocated_ok m (page_table sp) M a v p a' pt' m1)
      as (_ & _ & _ & Heq & _); [done|done|done|done|].
    eapply fault_alloc in Hal; [|done..]. destruct Hal as (? & Ht & _ & _ & Hw).
    split_and!; [done| |by rewrite Ht]. split; cycle 1.
    { intros k'. simpl. rewrite lookup_insert. case_decide as Hd; [|done].
      rewrite <- Hd, Hk. simpl. by rewrite Heq. }
    intros w Hw' Hs. apply Hw; [done|]. intros ->.
    unfold translate in Hs. rewrite (pg_walk Hg) in Hs by done.
    apply fmap_is_Some in Hs as [i HM]. pose proof (ai_only Ha v i Hin HM) as Ho.
    pose proof (ai_type Ha) as Ht'. rewrite Hty in Ht'. destruct Ht' as [_ Hb].
    destruct (pi_owned i); [congruence|]. rewrite Hb in Ho. set_solver.
Qed.

(** ... and that it answers. *)
Lemma fault_total m sp addr :
  space_inv m sp → all_lazy sp → 0 ≤ addr < LOW_ADDRESS_END → (3 ≤ free_count m)%nat →
  ∃ ok sp' m', handle_memory_exception m sp addr false = Ok (ok, sp', m') ∧
    all_lazy sp' ∧ (free_count m ≤ free_count m' + 3)%nat.
Proof.
  intros (M & Hg & Hi) Hl Haddr Hfc. unfold handle_memory_exception.
  set (v := VirtAddr.vpn_floor addr) in *.
  destruct (btree_floor (user_areas sp) v) as [[k a]|] eqn:E.
  2:{ eexists _, _, _. split_and!; [done|done|lia]. }
  destruct (floor_in_area _ _ _ _ _ Hi E) as (Hk & Hst & Hle).
  destruct (Z.leb_spec (va_end a) v).
  { eexists _, _, _. split_and!; [done|done|lia]. }
  rewrite (Hl k a Hk). destruct (ar_area Hi k a Hk) as [_ Ha].
  assert (in_area a v) by (unfold in_area; lia).
  destruct (ensure_allocated_total m (page_table sp) M a v) as (p & a' & pt' & m' & He & Hc);
    [done|done|done|by apply (Hl k a Hk)|done|].
  destruct (ensure_allocated_ok m (page_table sp) M a v p a' pt' m')
    as (_ & _ & _ & Heq & _); [done|done|done|done|].
  rewrite He. simpl. eexists _, _, _. split_and!; [done| |done].
  intros k' b. simpl. rewrite lookup_insert. case_decide; [|apply Hl].
  intros [= <-]. rewrite Heq. by apply (Hl k a Hk).
Qed.

(** What a probe of one byte guarantees. *)
Definition probe_spec
    (probe : Mem → MemorySpace → Z → KResult ((() + errno) * MemorySpace * Mem)) : Prop :=
  ∀ m sp addr, space_inv m sp → 0 ≤ addr < LOW_ADDRESS_END →
    (∀ r sp' m', probe m sp addr = Ok (r, sp', m') →
       space_inv m' sp' ∧ keeps m sp m' sp' ∧
       match r with
       | inl _ => is_Some (translate m' sp' (VirtAddr.vpn_floor addr))
       | inr e => e = EFAULT ∧ ∀ a, ¬ area_at sp (VirtAddr.vpn_floor addr) a
       end) ∧
    (all_lazy sp → (3 ≤ free_count m)%nat →
       ∃ r sp' m', probe m sp addr = Ok (r, sp', m') ∧ all_lazy sp' ∧
         (free_count m ≤ free_count m' + 3)%nat).

(** Both page faults of a probe go to the pager. *)
Lemma handle_try_fault m sp addr c :
  c = 13 ∨ c = 15 →
  handle_try_ret m sp addr (mkTry c true) =
    (let? (ok, sp, m) := handle_memory_exception m sp addr false in
     Ok (if (ok : bool) then inl () else inr EFAULT, sp, m)).
Proof. by intros [->| ->]. Qed.

Lemma try_fault_spec m sp addr c :
  c = 13 ∨ c = 15 → space_inv m sp → 0 ≤ addr < LOW_ADDRESS_END →
  (∀ r sp' m', handle_try_ret m sp addr (mkTry c true) = Ok (r, sp', m') →
     space_inv m' sp' ∧ keeps m sp m' sp' ∧
     match r with
     | inl _ => is_Some (translate m' sp' (VirtAddr.vpn_floor addr))
     | inr e => e = EFAULT ∧ ∀ a, ¬ area_at sp (VirtAddr.vpn_floor addr) a
     end) ∧
  (all_lazy sp → (3 ≤ free_count m)%nat →
     ∃ r sp' m', handle_try_ret m sp addr (mkTry c true) = Ok (r, sp', m') ∧ all_lazy sp' ∧
       (free_count m ≤ free_count m' + 3)%nat).
Proof.
  intros Hc Hsp Haddr. rewrite handle_try_fault by done. split.
  - intros r sp' m' Hr. apply bind_Ok in Hr as ([[ok sp1] m1] & Hh & [= <- <- <-]).
    destruct (fault_ok _ _ _ _ _ _ Hsp Haddr Hh) as (? & ? & Hok).
    split_and!; [done|done|]. destruct ok; [done|]. by destruct Hok as (_ & _ & ?).
  - intros Hl Hf. destruct (fault_total m sp addr Hsp Hl Haddr Hf) as (ok & sp' & m' & -> & ? & ?).
    simpl. eexists _, _, _. split_and!; done.
Qed.

Lemma try_read_spec : probe_spec try_read_user_byte.
Proof.
  intros m sp addr Hsp Haddr. unfold try_read_user_byte, try_read_user_byte_impl.
  destruct (mmu_load m sp addr) as [b|] eqn:E; [|by apply try_fault_spec; auto].
  unfold handle_try_ret. simpl. split; [|intros; eexists _, _, _; split_and!; [done|done|lia]].
  intros r sp' m' [= <- <- <-]. split_and!; [done|done|].
  unfold mmu_load in E. by destruct (translate _ _ _) as [[]|].
Qed.

Lemma try_write_spec : probe_spec try_write_user_byte.
Proof.
  intros m sp addr Hsp Haddr. unfold try_write_user_byte, try_write_user_byte_impl.
  destruct (mmu_load m sp addr) as [b|] eqn:E; [|by apply try_fault_spec; auto].
  destruct (mmu_store m sp addr b) as [m1|] eqn:Est; [|by apply try_fault_spec; auto].
  unfold mmu_load in E. unfold mmu_store in Est.
  destruct (translate m sp (VirtAddr.vpn_floor addr)) as [[p fl]|] eqn:Ht; [|done].
  destruct (Flags.contains fl PTEFlags.R); [|done]. injection E as <-.
  destruct (Flags.contains _ _); [|done]. injection Est as <-.
  unfold handle_try_ret. simpl. split; [|intros; eexists _, _, _; split_and!; [done|done|]; unfold free_count, write_byte; simpl; lia].
  intros r sp' m' [= <- <- <-]. split_and!; [by apply space_inv_write_byte| |].
  - split; [|done]. intros w _ _. split; [done|]. intros i. apply user_byte_rewrite.
  - by rewrite translate_write_byte, Ht.
Qed.

Lemma probe_loop_spec probe : probe_spec probe → ∀ l m sp,
  space_inv m sp → Forall (λ va, 0 ≤ va < LOW_ADDRESS_END) l →
  (∀ r sp' m', probe_loop probe m sp l = Ok (r, sp', m') →
     space_inv m' sp' ∧ keeps m sp m' sp' ∧
     match r with
     | inl _ => ∀ va, va ∈ l → is_Some (translate m' sp' (VirtAddr.vpn_floor va))
     | inr e => e = EFAULT
     end) ∧
  (all_lazy sp → (3 * length l ≤ free_count m)%nat →
     is_ok (probe_loop probe m sp l) = true).
Proof.
  intros Hp. induction l as [|va l IH]; intros m sp Hsp Hl; simpl.
  { split; [|done]. intros r sp' m' [= <- <- <-]. split_and!; [done|done|]. intros va Hva.
    by apply not_elem_of_nil in Hva. }
  apply Forall_cons in Hl as [Hva Hl]. destruct (Hp m sp va Hsp Hva) as [Hok Htot]. split.
  - intros r sp' m' Hr. apply bind_Ok in Hr as ([[r1 sp1] m1] & Hpr & Hr).
    destruct (Hok _ _ _ Hpr) as (Hsp1 & Hk1 & Hr1). destruct r1 as [[]|e].
    + destruct (proj1 (IH m1 sp1 Hsp1 Hl) r sp' m' Hr) as (Hsp' & Hk' & Hr').
      split_and!; [done|by eapply keeps_trans|]. destruct r as [[]|]; [|done].
      intros va' [->|Hin]%elem_of_cons; [|by apply Hr'].
      rewrite (proj1 (proj1 Hk' _ (vpn_floor_low _ Hva) Hr1)). done.
    + injection Hr as <- <- <-. split_and!; [done|done|]. by destruct Hr1.
  - intros Hlz Hfc. destruct Htot as (r1 & sp1 & m1 & Hpr & Hlz1 & Hfc1); [done|lia|].
    rewrite Hpr. simpl. destruct (Hok _ _ _ Hpr) as (Hsp1 & _ & _).
    destruct r1; [|done]. apply IH; [done..|lia].
Qed.
End lemmas.

(** ** Resident ranges *)
Section resident.
Context `{Buddy, KernelImage}.

Lemma elem_of_probe_addrs s e va :
  va ∈ probe_addrs s e ↔ ∃ k, 0 ≤ k ∧ va = s + k * PAGE_SIZE ∧ va < e.
Proof.
  assert (HP : 0 < PAGE_SIZE) by by rewrite PAGE_SIZE_eq.
  unfold probe_addrs. rewrite list_elem_of_fmap. setoid_rewrite elem_of_seqZ.
  split; intros (k & Hk); exists k; pose proof (div_ceil_le_iff (e - s) PAGE_SIZE k HP);
    destruct_and?; split_and?; lia.
Qed.

Lemma vpn_floor_probe s k v :
  v = VirtAddr.vpn_floor s + k → VirtAddr.vpn_floor (s + k * PAGE_SIZE) = v.
Proof. intros ->. rewrite !vpn_floor_div. by rewrite Z.div_add by done. Qed.

Lemma probe_addrs_low s e :
  0 ≤ s → e ≤ LOW_ADDRESS_END → Forall (λ va, 0 ≤ va < LOW_ADDRESS_END) (probe_addrs s e).
Proof.
  intros Hs He. apply Forall_forall. intros va (k & Hk & -> & Hlt)%elem_of_probe_addrs.
  rewrite PAGE_SIZE_eq in *. lia.
Qed.

Lemma length_probe_addrs s e : 
  length (probe_addrs s e) = Z.to_nat (div_ceil (e - s) PAGE_SIZE).
Proof. unfold probe_addrs. by rewrite length_fmap, length_seqZ. Qed.

(** The bytes of [a, a+n) are resident, readable and writable, and no two of
    their pages share a frame. *)
Definition user_ok (m : Mem) (sp : MemorySpace) (a : Z) (n : nat) : Prop :=
  space_inv m sp ∧ 0 ≤ a ∧ a + Z.of_nat n ≤ LOW_ADDRESS_END ∧
  (∀ i, a ≤ i < a + Z.of_nat n → ∃ p fl, translate m sp (VirtAddr.vpn_floor i) = Some (p, fl) ∧
     Flags.contains fl (Flags.union PTEFlags.R PTEFlags.W) = true) ∧
  (∀ i j p fl fl', a ≤ i < a + Z.of_nat n → a ≤ j < a + Z.of_nat n →
     translate m sp (VirtAddr.vpn_floor i) = Some (p, fl) →
     translate m sp (VirtAddr.vpn_floor j) = Some (p, fl') →
     VirtAddr.vpn_floor i = VirtAddr.vpn_floor j).

Lemma contains_RW fl :
  Flags.contains fl (Flags.union PTEFlags.R PTEFlags.W) = true → Flags.contains fl PTEFlags.R = true.
Proof.
  unfold Flags.contains. rewrite !Z.eqb_eq. intros Hf.
  change PTEFlags.R with (Z.land (Flags.union PTEFlags.R PTEFlags.W) PTEFlags.R) at 1.
  rewrite Z.land_assoc, Hf. done.
Qed.

Lemma user_load_Ok m sp n a bs :
  user_load m sp a n = Ok bs ↔
  length bs = n ∧ ∀ k, 0 ≤ k < Z.of_nat n → mmu_load m sp (a + k) = bs !! Z.to_nat k.
Proof.
  revert a bs. induction n as [|n IH]; intros a bs; simpl.
  { split; [intros [= <-]; split; [done|lia]|]. intros [->%nil_length_inv _]. done. }
  split.
  - intros Hl. apply bind_Ok in Hl as (b & Hb%unwrap_Ok & Hl).
    apply bind_Ok in Hl as (bs' & Hbs%IH & [= <-]). destruct Hbs as [<- Hbs].
    split; [done|]. intros k Hk. destruct (decide (k = 0)) as [->|].
    + by rewrite Z.add_0_r, Hb.
    + replace (Z.to_nat k) with (S (Z.to_nat (k - 1))) by lia. simpl.
      rewrite <- Hbs by lia. f_equal. lia.
  - intros [Hlen Hk]. destruct bs as [|b bs]; [done|]. injection Hlen as Hlen.
    pose proof (Hk 0 ltac:(lia)) as H0'. rewrite Z.add_0_r in H0'. simpl in H0'.
    rewrite H0'. simpl. rewrite (proj2 (IH (a + 1) bs)); [done|].
    split; [done|]. intros k Hk'. replace (a + 1 + k) with (a + (k + 1)) by lia.
    rewrite Hk by lia. by replace (Z.to_nat (k + 1)) with (S (Z.to_nat k)) by lia.
Qed.

(** Same tables and allocator, same bytes. *)
Record mem_same (m m' : Mem) : Prop := {
  ms_alloc : allocator m' = allocator m;
  ms_pte : pte_mem m' = pte_mem m;
  ms_byte p i : byte_at m' p i = byte_at m p i;
}.

Lemma translate_pte m m' sp v : pte_mem m' = pte_mem m → translate m' sp v = translate m sp v.
Proof. intros Hp. unfold translate, walk, pte_at. by rewrite Hp. Qed.

Lemma mem_same_load m m' sp a : mem_same m m' → mmu_load m' sp a = mmu_load m sp a.
Proof.
  intros Hm. unfold mmu_load. rewrite (translate_pte m m') by apply Hm.
  destruct (translate _ _ _) as [[]|]; [|done]. by rewrite (ms_byte _ _ Hm).
Qed.

Lemma mem_same_user_load m m' sp n a : mem_same m m' → user_load m' sp a n = user_load m sp a n.
Proof.
  intros Hm. revert a. induction n as [|n IH]; intros a; simpl; [done|].
  rewrite (mem_same_load m m') by done. by rewrite IH.
Qed.

Lemma space_inv_same_tables m m' sp :
  allocator m' = allocator m → pte_mem m' = pte_mem m → space_inv m sp → space_inv m' sp.
Proof.
  intros Hal Hp (M & Hg & Hi). exists M. split; [|done].
  apply (pages_inv_frame m); [done| | | |].
  - intros f. unfold is_free. rewrite Hal. apply (pg_mem Hg).
  - intros f i _. unfold pte_at. by rewrite Hp.
  - intros f Hf. unfold is_free. rewrite Hal. destruct (pg_pt Hg) as [tree Ht].
    by apply (t_owned Ht f Hf).
  - intros v i Hv. unfold is_free. rewrite Hal. by apply (pg_frame Hg v i Hv).
Qed.

Lemma user_ok_same m m' sp a n :
  allocator m' = allocator m → pte_mem m' = pte_mem m → user_ok m sp a n → user_ok m' sp a n.
Proof.
  intros Hal Hp (Hsp & Ha & Hn & Hr & Hinj). split_and!; [|done|done| |].
  - by apply (space_inv_same_tables m).
  - intros i Hi. rewrite (translate_pte m m') by done. by apply Hr.
  - intros i j p fl fl' Hi Hj. rewrite !(translate_pte m m') by done. by apply Hinj.
Qed.

Lemma probe_read_resident l m sp :
  (∀ va, va ∈ l → is_Some (mmu_load m sp va)) →
  probe_loop try_read_user_byte m sp l = Ok (inl (), sp, m).
Proof.
  induction l as [|va l IH]; intros Hl; simpl; [done|].
  destruct (Hl va ltac:(apply elem_of_cons; by left)) as [b Hb].
  assert (try_read_user_byte m sp va = Ok (inl (), sp, m)) as ->.
  { unfold try_read_user_byte, try_read_user_byte_impl. by rewrite Hb. }
  apply IH. intros va' Hin. apply Hl. apply elem_of_cons. by right.
Qed.

Definition resident_rw (m : Mem) (sp : MemorySpace) (va : Z) : Prop :=
  ∃ p fl, translate m sp (VirtAddr.vpn_floor va) = Some (p, fl) ∧
    Flags.contains fl (Flags.union PTEFlags.R PTEFlags.W) = true.

Lemma resident_load m sp va : resident_rw m sp va →
  ∃ p fl, translate m sp (VirtAddr.vpn_floor va) = Some (p, fl) ∧
    mmu_load m sp va = Some (byte_at m p (VirtAddr.page_offset va)) ∧
    ∀ b, mmu_store m sp va b = Some (write_byte m p (VirtAddr.page_offset va) b).
Proof.
  intros (p & fl & Ht & Hf). exists p, fl. unfold mmu_load, mmu_store.
  rewrite Ht, Hf, (contains_RW _ Hf). done.
Qed.

Lemma probe_write_resident l m sp :
  (∀ va, va ∈ l → resident_rw m sp va) →
  ∃ m', probe_loop try_write_user_byte m sp l = Ok (inl (), sp, m') ∧ mem_same m m'.
Proof.
  revert m. induction l as [|va l IH]; intros m Hl; simpl; [by exists m|].
  destruct (resident_load m sp va (Hl va ltac:(apply elem_of_cons; by left)))
    as (p & fl & Ht & Hld & Hst).
  assert (try_write_user_byte m sp va = Ok (inl (), sp,
    write_byte m p (VirtAddr.page_offset va) (byte_at m p (VirtAddr.page_offset va)))) as ->.
  { unfold try_write_user_byte, try_write_user_byte_impl. by rewrite Hld, Hst. }
  simpl.
  destruct (IH (write_byte m p (VirtAddr.page_offset va) (byte_at m p (VirtAddr.page_offset va))))
    as (m' & -> & [Ha Hp Hb]).
  { intros va' Hin. unfold resident_rw. rewrite translate_write_byte.
    apply Hl. apply elem_of_cons. by right. }
  exists m'. split; [done|]. split; [done|done|]. intros q i. rewrite Hb, byte_at_write.
  case_decide; [|done]. destruct_and?. by subst.
Qed.

Lemma same_page_offset i j :
  VirtAddr.vpn_floor i = VirtAddr.vpn_floor j →
  VirtAddr.page_offset i = VirtAddr.page_offset j → i = j.
Proof.
  rewrite !vpn_floor_div, !page_offset_mod. intros Hv Ho.
  rewrite (Z.div_mod i PAGE_SIZE), (Z.div_mod j PAGE_SIZE), Hv, Ho by done. done.
Qed.

(** Storing bytes to a resident range and reading them back. *)
Lemma user_store_ok bs : ∀ m sp a, user_ok m sp a (length bs) →
  ∃ m', user_store m sp a bs = Ok m' ∧ allocator m' = allocator m ∧ pte_mem m' = pte_mem m ∧
    (∀ k, 0 ≤ k < Z.of_nat (length bs) → mmu_load m' sp (a + k) = bs !! Z.to_nat k) ∧
    (∀ p o, (∀ j fl, a ≤ j < a + Z.of_nat (length bs) →
       translate m sp (VirtAddr.vpn_floor j) = Some (p, fl) → VirtAddr.page_offset j ≠ o) →
       byte_at m' p o = byte_at m p o).
Proof.
  induction bs as [|b bs IH]; intros m sp a Hok; simpl in *.
  { exists m. split_and!; try done. lia. }
  pose proof Hok as (Hsp & Ha & Hn & Hr & Hinj).
  destruct (resident_load m sp a (Hr a ltac:(lia))) as (p & fl & Ht & Hld & ->). simpl.
  destruct (IH (write_byte m p (VirtAddr.page_offset a) b) sp (a + 1))
    as (m' & -> & Hal & Hpt & Hload & Hoth).
  { split_and!; [by apply space_inv_write_byte|lia|lia| |].
    - intros i Hi. apply Hr. lia.
    - intros i j q f1 f2 Hi Hj. rewrite !translate_write_byte. apply Hinj; lia. }
  assert (Hdis : ∀ j fl', a + 1 ≤ j < a + 1 + Z.of_nat (length bs) →
            translate m sp (VirtAddr.vpn_floor j) = Some (p, fl') →
            VirtAddr.page_offset j ≠ VirtAddr.page_offset a).
  { intros j fl' Hj Htj He. assert (a = j); [|lia].
    apply same_page_offset; [|done]. apply (Hinj a j p fl fl'); [lia|lia|done|done]. }
  exists m'. split_and!; [done|done|done| |].
  - intros k Hk. destruct (decide (k = 0)) as [->|].
    + rewrite Z.add_0_r. unfold mmu_load in *. rewrite (translate_pte m), Ht by done.
      rewrite Ht in Hld. destruct (Flags.contains fl PTEFlags.R); [|done]. simpl.
      rewrite Hoth by exact Hdis. rewrite byte_at_write, decide_True by done. done.
    + replace (a + k) with (a + 1 + (k - 1)) by lia. rewrite Hload by lia.
      by replace (Z.to_nat k) with (S (Z.to_nat (k - 1))) by lia.
  - intros q o Hq. rewrite Hoth.
    + rewrite byte_at_write. case_decide as Hc; [|done]. destruct Hc as [-> ->].
      exfalso. by apply (Hq a fl ltac:(lia) Ht).
    + intros j fl' Hj. rewrite translate_write_byte. apply Hq. lia.
Qed.
End resident.

(** ** C strings *)
Section cstr.
Context `{Buddy, KernelImage}.

Definition nonzero_on (m : Mem) (sp : MemorySpace) (s e : Z) : Prop :=
  ∀ k, s ≤ k < e → ∃ b, mmu_load m sp k = Some b ∧ b ≠ 0.
Definition all_readable (sp : MemorySpace) : Prop :=
  ∀ k a, user_areas sp !! k = Some a → Flags.contains (a_perm a) PTEFlags.R = true.

Lemma keeps_load m sp m' sp' a b :
  keeps m sp m' sp' → 0 ≤ a < LOW_ADDRESS_END →
  mmu_load m sp a = Some b → mmu_load m' sp' a = Some b.
Proof.
  intros [Hk _] Ha. unfold mmu_load. destruct (translate m sp _) as [[p fl]|] eqn:Ht; [|done].
  destruct (Hk _ (vpn_floor_low a Ha)) as [Ht' Hb]; [by rewrite Ht|].
  specialize (Hb (VirtAddr.page_offset a)). unfold user_byte in Hb. rewrite Ht', Ht in *.
  simpl in Hb. injection Hb as ->. done.
Qed.

Lemma keeps_nonzero m sp m' sp' s e :
  keeps m sp m' sp' → 0 ≤ s → e ≤ LOW_ADDRESS_END →
  nonzero_on m sp s e → nonzero_on m' sp' s e.
Proof.
  intros Hk Hs He Hnz k Hk'. destruct (Hnz k Hk') as (b & Hb & Hb0). exists b.
  split; [|done]. apply (keeps_load m sp); [done|lia|done].
Qed.

Lemma keeps_readable m sp m' sp' : keeps m sp m' sp' → all_readable sp → all_readable sp'.
Proof.
  intros [_ Hk] Hr k a Hka. specialize (Hk k). rewrite Hka in Hk.
  destruct (user_areas sp !! k) as [b|] eqn:Hb; [|done]. injection Hk as _ Hp.
  rewrite Hp. by apply (Hr k b).
Qed.

(** A resident page of a readable space can be read. *)
Lemma readable_page m sp v p fl :
  space_inv m sp → all_readable sp → 0 ≤ v < LOW_VPN_END →
  translate m sp v = Some (p, fl) → Flags.contains fl PTEFlags.R = true.
Proof.
  intros (M & Hg & Hi) Hr Hv Ht. unfold translate in Ht. rewrite (pg_walk Hg) in Ht by done.
  apply fmap_Some in Ht as (i & HM & [= -> ->]). destruct (ar_cover Hi v i HM) as (s & a & Hs & Ha).
  destruct (ar_area Hi s a Hs) as [_ Hai]. pose proof (ai_only Hai v i Ha HM) as Ho.
  assert (pi_flags i = leaf_flags (a_perm a)) as ->.
  { destruct (pi_owned i).
    - destruct (ai_unbacked Hai v _ Ho) as [_ HM']. rewrite HM in HM'. by injection HM' as ->.
    - destruct (ai_backed Hai v Ho) as [_ [q HM']]. rewrite HM in HM'. by injection HM' as ->. }
  pose proof (Hr s a Hs) as Hc. unfold leaf_flags.
  rewrite (proj1 (perm_flags _ (ai_perm Hai))).
  change PTEFlags.R with (2 ^ 1) in *. rewrite contains_pow2 in * by lia.
  by rewrite Z.lor_spec, Hc.
Qed.

Lemma cstr_end_loop_spec n : ∀ m sp va e,
  check_cstr_end_loop m sp va n = Ok e →
  va ≤ e ≤ va + Z.of_nat n ∧ nonzero_on m sp va e ∧
  (e < va + Z.of_nat n → mmu_load m sp e = Some 0).
Proof.
  induction n as [|n IH]; intros m sp va e He; cbn [check_cstr_end_loop] in He.
  { injection He as <-. split_and!; [lia|lia| |lia]. intros k. lia. }
  apply bind_Ok in He as (b & Hb%unwrap_Ok & He). destruct (Z.eqb_spec b 0) as [->|Hb0].
  { injection He as <-. split_and!; [lia|lia|intros k; lia|done]. }
  apply IH in He as (Hr & Hnz & Hz). split_and!; [lia|lia| |intros; apply Hz; lia].
  intros k Hk. destruct (decide (k = va)) as [->|]; [by exists b|]. apply Hnz. lia.
Qed.

Lemma cstr_end_loop_total n : ∀ m sp va,
  (∀ k, va ≤ k < va + Z.of_nat n → is_Some (mmu_load m sp k)) →
  ∃ e, check_cstr_end_loop m sp va n = Ok e.
Proof.
  induction n as [|n IH]; intros m sp va Hl; simpl; [eauto|].
  destruct (Hl va ltac:(lia)) as [b ->]. simpl. destruct (b =? 0); [eauto|].
  apply IH. intros k Hk. apply Hl. lia.
Qed.

Lemma next_page_eq va :
  Z.shiftl (Z.shiftr va PAGE_SIZE_BITS) PAGE_SIZE_BITS + PAGE_SIZE
    = (VirtAddr.vpn_floor va + 1) * PAGE_SIZE.
Proof.
  rewrite Z.shiftl_mul_pow2 by done. unfold VirtAddr.vpn_floor.
  change (2 ^ PAGE_SIZE_BITS) with PAGE_SIZE. lia.
Qed.

Lemma check_cstr_end_spec m sp va e :
  0 ≤ va → check_cstr_end m sp va = Ok e →
  va ≤ e ≤ (va / PAGE_SIZE + 1) * PAGE_SIZE ∧ nonzero_on m sp va e ∧
  (e < (va / PAGE_SIZE + 1) * PAGE_SIZE → mmu_load m sp e = Some 0).
Proof.
  unfold check_cstr_end. rewrite next_page_eq, vpn_floor_div.
  intros Hva He. apply cstr_end_loop_spec in He as (Hr & Hnz & Hz). rewrite PAGE_SIZE_eq in *.
  assert (va < (va / 4096 + 1) * 4096) by lia_div.
  split_and!; [lia|lia|done|]. intros. apply Hz. lia.
Qed.

(** The end of a page is not the end of a string found in it. *)
Lemma cstr_end_aligned va e :
  va ≤ e ≤ (va / PAGE_SIZE + 1) * PAGE_SIZE → va < e → e mod PAGE_SIZE = 0 →
  e = (va / PAGE_SIZE + 1) * PAGE_SIZE.
Proof. rewrite PAGE_SIZE_eq. intros. lia_div. Qed.

Lemma cstr_loop_spec fuel : ∀ m sp start va r sp' m',
  space_inv m sp → 0 ≤ start ≤ va → va < LOW_ADDRESS_END → va - start ≤ MAX_PATHNAME_LEN →
  nonzero_on m sp start va →
  check_cstr_loop fuel m sp start va = Ok (r, sp', m') →
  space_inv m' sp' ∧ keeps m sp m' sp' ∧
  match r with
  | inl e => start ≤ e ∧ e - start ≤ MAX_PATHNAME_LEN + PAGE_SIZE ∧
             nonzero_on m' sp' start e ∧ mmu_load m' sp' e = Some 0
  | inr err => err = EFAULT ∨ err = ENAMETOOLONG
  end.
Proof.
  induction fuel as [|fuel IH]; intros m sp start va r sp' m' Hsp Hst Hva Hlen Hnz; [done|].
  cbn [check_cstr_loop]. intros He. apply bind_Ok in He as ([[r1 sp1] m1] & Hr1 & He).
  destruct (proj1 (try_read_spec m sp va Hsp ltac:(lia)) _ _ _ Hr1) as (Hsp1 & Hk1 & Hres).
  destruct r1 as [[]|err]; cycle 1.
  { injection He as <- <- <-. split_and!; [done|done|]. left. apply Hres. }
  apply bind_Ok in He as (e & Hend & He). cbn in He.
  apply check_cstr_end_spec in Hend as (Hbe & Hnz1 & Hz1); [|lia].
  assert (Hnze : nonzero_on m1 sp1 start e).
  { intros k Hk. destruct (decide (k < va)); [|apply Hnz1; lia].
    apply (keeps_nonzero m sp m1 sp1 start va); [done|lia|lia|done|lia]. }
  assert (Hpg : (va / PAGE_SIZE + 1) * PAGE_SIZE ≤ va + PAGE_SIZE)
    by (rewrite PAGE_SIZE_eq; lia_div).
  destruct (Z.ltb_spec va e) as [Hlt|Hge]; destruct (Z.eqb_spec (e mod PAGE_SIZE) 0) as [Hm|Hm];
    cbn [andb] in He.
  - destruct (Z.leb_spec LOW_ADDRESS_END e).
    { injection He as <- <- <-. split_and!; [done|done|by left]. }
    destruct (Z.ltb_spec MAX_PATHNAME_LEN (e - start)).
    { injection He as <- <- <-. split_and!; [done|done|by right]. }
    apply IH in He as (? & Hk2 & Hr); [|done|lia|lia|lia|done].
    split_and!; [done|by eapply keeps_trans|done].
  - injection He as <- <- <-. split_and!; [done|done|lia|lia|done|]. apply Hz1.
    destruct (decide (e = (va / PAGE_SIZE + 1) * PAGE_SIZE)) as [->|]; [|lia].
    by rewrite Z.mod_mul in Hm by done.
  - injection He as <- <- <-. split_and!; [done|done|lia|lia|done|]. apply Hz1.
    rewrite PAGE_SIZE_eq. lia_div.
  - injection He as <- <- <-. split_and!; [done|done|lia|lia|done|]. apply Hz1.
    rewrite PAGE_SIZE_eq. lia_div.
Qed.

Lemma nonzero_load m sp s e :
  s ≤ e → nonzero_on m sp s e →
  ∃ bs, user_load m sp s (Z.to_nat (e - s)) = Ok bs ∧ length bs = Z.to_nat (e - s) ∧ 0 ∉ bs.
Proof.
  remember (Z.to_nat (e - s)) as n eqn:Hn. revert s Hn.
  induction n as [|n IH]; intros s Hn Hle Hnz; simpl.
  { exists []. split_and!; [done|done|apply not_elem_of_nil]. }
  destruct (Hnz s ltac:(lia)) as (b & -> & Hb). simpl.
  destruct (IH (s + 1)) as (bs & -> & Hlen & Hbs); [lia|lia|intros k Hk; apply Hnz; lia|].
  simpl. exists (b :: bs). split_and!; [done|simpl; lia|]. rewrite elem_of_cons.
  intros [?|?]; [congruence|done].
Qed.

(** Enough frames for the pages of the string: the loop answers. *)
Lemma cstr_loop_total fuel : ∀ m sp start va,
  space_inv m sp → all_lazy sp → all_readable sp → 0 ≤ start ≤ va → va < LOW_ADDRESS_END →
  va - start ≤ MAX_PATHNAME_LEN →
  (va mod PAGE_SIZE = 0 ∧ MAX_PATHNAME_LEN + start - va < (Z.of_nat fuel - 1) * PAGE_SIZE ∨
   va = start ∧ MAX_PATHNAME_LEN ≤ (Z.of_nat fuel - 2) * PAGE_SIZE) →
  (3 * fuel ≤ free_count m)%nat →
  is_ok (check_cstr_loop fuel m sp start va) = true.
Proof.
  induction fuel as [|fuel IH]; intros m sp start va Hsp Hlz Hrd Hst Hva Hlen Hf Hfc.
  { rewrite PAGE_SIZE_eq in *. unfold MAX_PATHNAME_LEN in *. lia. }
  cbn [check_cstr_loop].
  destruct (try_read_spec m sp va Hsp ltac:(lia)) as [Hok Htot].
  destruct Htot as (r1 & sp1 & m1 & Hr1 & Hlz1 & Hfc1); [done|lia|]. rewrite Hr1. simpl.
  destruct (Hok _ _ _ Hr1) as (Hsp1 & Hk1 & Hres). destruct r1 as [[]|err]; [|done].
  pose proof (keeps_readable _ _ _ _ Hk1 Hrd) as Hrd1.
  destruct (cstr_end_loop_total (Z.to_nat ((VirtAddr.vpn_floor va + 1) * PAGE_SIZE - va)) m1 sp1 va)
    as [e He].
  { intros k Hk. assert (VirtAddr.vpn_floor k = VirtAddr.vpn_floor va) as Hkv.
    { rewrite !vpn_floor_div in *. rewrite PAGE_SIZE_eq in *. lia_div. }
    destruct Hres as [[p fl] Ht]. unfold mmu_load. rewrite Hkv, Ht.
    rewrite (readable_page m1 sp1 _ p fl Hsp1 Hrd1 (vpn_floor_low va ltac:(lia)) Ht). done. }
  unfold check_cstr_end. rewrite next_page_eq, He. simpl.
  pose proof He as Hend. assert (check_cstr_end m1 sp1 va = Ok e) as Hce
    by by (unfold check_cstr_end; rewrite next_page_eq).
  apply check_cstr_end_spec in Hce as (Hbe & _ & _); [|lia].
  destruct (Z.ltb_spec va e); [|done]. destruct (Z.eqb_spec (e mod PAGE_SIZE) 0) as [Hm|]; [|done].
  simpl. destruct (Z.leb_spec LOW_ADDRESS_END e); [done|].
  destruct (Z.ltb_spec MAX_PATHNAME_LEN (e - start)); [done|].
  pose proof (cstr_end_aligned va e Hbe ltac:(done) Hm) as ->.
  apply IH; [done|done|done| | | | |]; rewrite PAGE_SIZE_eq in *; unfold MAX_PATHNAME_LEN in *;
    [lia|lia|lia| |lia].
  left. split; [done|]. destruct Hf as [[Hm0 Hf]|[-> Hf]]; lia_div.
Qed.
End cstr.

(** ** The interface, discharged for an address space *)
Section instance.
Context `{Buddy, KernelImage}.

(** [check_ptr]'s own bound test is the one of [check_read_impl]. *)
Lemma check_ptr_eq m sp ptr size_of : check_ptr m sp ptr size_of = check_read_impl m sp ptr size_of.
Proof.
  unfold check_ptr, check_read_impl. destruct (uadd 64 ptr size_of) as [e|e|] eqn:E; try done.
  simpl. by destruct (LOW_ADDRESS_END <? e).
Qed.

Lemma check_in_range (m : Mem) (sp : MemorySpace) a n :
  0 ≤ a → 0 ≤ n → a + n ≤ LOW_ADDRESS_END →
  check_read_impl m sp a n = probe_loop try_read_user_byte m sp (probe_addrs a (a + n)) ∧
  check_write_impl m sp a n = probe_loop try_write_user_byte m sp (probe_addrs a (a + n)).
Proof.
  intros Ha Hn Hb. unfold check_read_impl, check_write_impl, uadd.
  rewrite checked_fits by (unfold LOW_ADDRESS_END in *; lia). simpl.
  by rewrite (proj2 (Z.ltb_ge _ _)) by lia.
Qed.

Definition us_check_read (u : MemorySpace * Mem) (a n : Z) :
    KResult ((() + errno) * (MemorySpace * Mem)) :=
  let? (r, sp, m) := check_read_impl u.2 u.1 a n in Ok (r, (sp, m)).
Definition us_check_write (u : MemorySpace * Mem) (a n : Z) :
    KResult ((() + errno) * (MemorySpace * Mem)) :=
  let? (r, sp, m) := check_write_impl u.2 u.1 a n in Ok (r, (sp, m)).
Definition us_store (u : MemorySpace * Mem) (a : Z) (bs : list Z) : KResult (MemorySpace * Mem) :=
  let? m := user_store u.2 u.1 a bs in Ok (u.1, m).

Lemma user_ok_probes m sp a n va :
  user_ok m sp a n → va ∈ probe_addrs a (a + Z.of_nat n) → resident_rw m sp va.
Proof.
  intros (_ & Ha & _ & Hr & _) (k & Hk & -> & Hlt)%elem_of_probe_addrs.
  apply Hr. rewrite PAGE_SIZE_eq in *. lia.
Qed.

#[export] Program Instance SpaceUserMemory : UserMemory (MemorySpace * Mem) := {|
  um_check_read := us_check_read;
  um_check_write := us_check_write;
  um_load u a n := user_load u.2 u.1 a n;
  um_store := us_store;
  um_ok u a n := user_ok u.2 u.1 a n;
|}.
Next Obligation.
  intros [sp m] a n Hok. unfold us_check_read. simpl in *. pose proof Hok as (_ & Ha & Hn & _).
  rewrite (proj1 (check_in_range m sp a (Z.of_nat n) Ha ltac:(lia) Hn)).
  rewrite probe_read_resident; [done|]. intros va Hva.
  destruct (resident_load m sp va (user_ok_probes _ _ _ _ _ Hok Hva)) as (p & fl & _ & -> & _). done.
Qed.
Next Obligation.
  intros [sp m] a n Hok. unfold us_check_write. simpl in *. pose proof Hok as (_ & Ha & Hn & _).
  rewrite (proj2 (check_in_range m sp a (Z.of_nat n) Ha ltac:(lia) Hn)).
  destruct (probe_write_resident (probe_addrs a (a + Z.of_nat n)) m sp) as (m' & -> & Hm).
  { intros va Hva. by apply (user_ok_probes _ _ _ _ _ Hok Hva). }
  exists (sp, m'). split_and!; [done| |].
  - apply (user_ok_same m); [apply Hm|apply Hm|done].
  - intros b k. by apply mem_same_user_load.
Qed.
Next Obligation.
  intros [sp m] a bs Hok. simpl in *. unfold us_store. simpl.
  destruct (user_store_ok bs m sp a Hok) as (m' & -> & Hal & Hp & Hl & _). simpl.
  exists (sp, m'). split_and!; [done|by apply (user_ok_same m)|].
  apply user_load_Ok. by split.
Qed.
Next Obligation.
  intros [sp m] a n k Hk (Hi & Ha & He & Hr & Hd). simpl in *.
  split_and!; [done|done|lia|intros i ?; apply Hr; lia|]. intros i j p fl fl' ? ?. apply Hd; lia.
Qed.
End instance.

(** ** The properties *)
Section properties.
Context `{Buddy, KernelImage}.

(** The check of a system call argument, for reading or for writing. *)
Definition check_impl (write : bool) :=
  if write then check_write_impl else check_read_impl.

(** A range whose end does not fit a [usize] panics instead of failing. *)
Lemma check_range_overflow (m : Mem) (sp : MemorySpace) ptr bytes :
  2 ^ 64 ≤ ptr + bytes → check_impl true m sp ptr bytes = Panic ∧ check_impl false m sp ptr bytes = Panic.
Proof.
  intros Ho. unfold check_impl, check_write_impl, check_read_impl, uadd.
  by rewrite checked_overflow.
Qed.

(** C30: checking a user range touches one byte per page from its start. A range
    whose end does not fit 64 bits panics the kernel. Any other range that leaves
    the lower half is [EFAULT], as is one with a touched page that belongs to no
    area, and when the check succeeds the pages it touched are mapped. The
    invariant of the space is kept and resident pages keep frame and contents.
    When the end fits, every area is demand-paged and three frames per touched
    page are free, the check answers. *)
Theorem user_check_sound write m sp ptr bytes :
  space_inv m sp → 0 ≤ ptr → 0 ≤ bytes →
  (2 ^ 64 ≤ ptr + bytes → check_impl write m sp ptr bytes = Panic) ∧
  (LOW_ADDRESS_END < ptr + bytes < 2 ^ 64 → check_impl write m sp ptr bytes = Ok (inr EFAULT, sp, m)) ∧
  (∀ r sp' m', check_impl write m sp ptr bytes = Ok (r, sp', m') →
     space_inv m' sp' ∧ keeps m sp m' sp' ∧
     match r with
     | inl _ => ∀ v, VirtAddr.vpn_floor ptr ≤ v →
                  (v - VirtAddr.vpn_floor ptr) * PAGE_SIZE < bytes → is_Some (translate m' sp' v)
     | inr e => e = EFAULT
     end) ∧
  (ptr + bytes < 2 ^ 64 → all_lazy sp → (3 * Z.to_nat (div_ceil bytes PAGE_SIZE) ≤ free_count m)%nat →
     is_ok (check_impl write m sp ptr bytes) = true).
Proof.
  intros Hsp Hp Hb. destruct (decide (2 ^ 64 ≤ ptr + bytes)) as [Hov|Hov].
  { assert (check_impl write m sp ptr bytes = Panic) as ->
      by (destruct (check_range_overflow m sp ptr bytes Hov); by destruct write).
    split_and!; [done|lia|done|lia]. }
  destruct (decide (LOW_ADDRESS_END < ptr + bytes)) as [Hhi|Hlo].
  { assert (check_impl write m sp ptr bytes = Ok (inr EFAULT, sp, m)) as ->.
    { unfold check_impl, check_read_impl, check_write_impl, uadd.
      destruct write; rewrite checked_fits by lia; simpl; by rewrite (proj2 (Z.ltb_lt _ _)). }
    split_and!; [lia|done| |done]. by intros r sp' m' [= <- <- <-]. }
  set (probe := if write then try_write_user_byte else try_read_user_byte).
  assert (check_impl write m sp ptr bytes
          = probe_loop probe m sp (probe_addrs ptr (ptr + bytes))) as ->.
  { unfold check_impl, probe. destruct write; by apply check_in_range; lia. }
  assert (Hprobe : probe_spec probe)
    by (destruct write; [apply try_write_spec|apply try_read_spec]).
  destruct (probe_loop_spec probe Hprobe (probe_addrs ptr (ptr + bytes)) m sp Hsp
              (probe_addrs_low ptr (ptr + bytes) Hp ltac:(lia))) as [Hok Htot].
  split_and!; [lia|lia| |].
  - intros r sp' m' Hr. destruct (Hok r sp' m' Hr) as (? & ? & Hres). split_and!; [done|done|].
    destruct r as [[]|]; [|done]. intros v Hv Hlt.
    rewrite <- (vpn_floor_probe ptr (v - VirtAddr.vpn_floor ptr) v) by lia.
    apply Hres. apply elem_of_probe_addrs. eexists. split_and!; [|done|]; lia.
  - intros _ Hl Hf. apply Htot; [done|]. rewrite length_probe_addrs.
    by replace (ptr + bytes - ptr) with bytes by lia.
Qed.

(** Reading a C string from user space. It answers whenever the areas are
    demand-paged and readable and eighteen frames are free. The bytes it returns are what
    the memory holds from [ptr] on: no zero among them, a zero right after them,
    well-formed UTF-8, and at most one page more than [MAX_PATHNAME_LEN];
    the other answers are [EFAULT], [ENAMETOOLONG] and [EINVAL]. Resident pages
    keep their contents. *)
Lemma check_cstr_sound m sp ptr :
  space_inv m sp → 0 ≤ ptr →
  (∀ r sp' m', check_cstr m sp ptr = Ok (r, sp', m') →
     space_inv m' sp' ∧ keeps m sp m' sp' ∧
     match r with
     | inl bs => user_load m' sp' ptr (length bs) = Ok bs ∧ 0 ∉ bs ∧
                 mmu_load m' sp' (ptr + Z.of_nat (length bs)) = Some 0 ∧
                 valid_utf8 bs = true ∧ Z.of_nat (length bs) ≤ MAX_PATHNAME_LEN + PAGE_SIZE
     | inr e => e = EFAULT ∨ e = ENAMETOOLONG ∨ e = EINVAL
     end) ∧
  (all_lazy sp → all_readable sp → (18 ≤ free_count m)%nat → is_ok (check_cstr m sp ptr) = true).
Proof.
  intros Hsp Hp. unfold check_cstr. destruct (Z.leb_spec LOW_ADDRESS_END ptr) as [Hhi|Hlo].
  { split; [|done]. intros r sp' m' [= <- <- <-]. split_and!; [done|done|by left]. }
  assert (Hloop : ∀ r sp' m', check_cstr_loop cstr_fuel m sp ptr ptr = Ok (r, sp', m') → _)
    by (intros r sp' m'; apply (cstr_loop_spec cstr_fuel m sp ptr ptr r sp' m' Hsp);
        [lia|lia|unfold MAX_PATHNAME_LEN; rewrite PAGE_SIZE_eq; lia|intros k; lia]).
  assert (Hload : ∀ m' sp' e, ptr ≤ e → nonzero_on m' sp' ptr e →
            ∃ bs, user_load m' sp' ptr (Z.to_nat (e - ptr)) = Ok bs ∧
              length bs = Z.to_nat (e - ptr) ∧ 0 ∉ bs).
  { intros m' sp' e He Hnz. by apply nonzero_load. }
  split.
  - intros r sp' m' Hr. apply bind_Ok in Hr as ([[r1 sp1] m1] & Hl & Hr).
    destruct (Hloop _ _ _ Hl) as (Hsp1 & Hk1 & Hr1). destruct r1 as [e|err]; cycle 1.
    { injection Hr as <- <- <-. split_and!; [done|done|]. tauto. }
    destruct Hr1 as (Hle & Hlen & Hnz & Hz).
    destruct (Hload m1 sp1 e Hle Hnz) as (bs & Hbs & Hn & Hbz). rewrite Hbs in Hr.
    injection Hr as <- <- <-. split_and!; [done|done|].
    destruct (valid_utf8 bs) eqn:Hu; [|tauto]. rewrite <- Hn in Hbs.
    replace (ptr + Z.of_nat (length bs)) with e by lia. split_and!; [done|done|done|done|lia].
  - intros Hlz Hrd Hf.
    pose proof (cstr_loop_total cstr_fuel m sp ptr ptr Hsp Hlz Hrd ltac:(lia) ltac:(lia)
      ltac:(unfold MAX_PATHNAME_LEN; rewrite PAGE_SIZE_eq; lia) ltac:(right; done) Hf) as Ht.
    destruct (check_cstr_loop cstr_fuel m sp ptr ptr) as [[[r1 sp1] m1]|e|]; [|done..]. simpl.
    destruct (Hloop _ _ _ eq_refl) as (_ & _ & Hr1). destruct r1 as [e|err]; [|done].
    destruct Hr1 as (Hle & _ & Hnz & _). destruct (Hload m1 sp1 e Hle Hnz) as (bs & -> & _). done.
Qed.
End properties.

(** ** Examples *)
Lemma demo_lazy : all_lazy demo_space ∧ all_readable demo_space.
Proof.
  split; intros k a; unfold demo_space, user_areas; rewrite !lookup_insert;
    repeat case_decide; intros Ha; try done; by injection Ha as <-.
Qed.

(** Two pages of a fresh area are brought in for a write. *)
Lemma user_check_sound_witness :
  ∃ sp' m', check_impl true demo_mem demo_space 0x12000 0x2000 = Ok (inl (), sp', m') ∧
    space_inv m' sp' ∧ is_Some (translate m' sp' 0x12) ∧ is_Some (translate m' sp' 0x13).
Proof.
  destruct (user_check_sound true demo_mem demo_space 0x12000 0x2000 demo_space_inv
    ltac:(lia) ltac:(lia)) as (_ & _ & Hok & Htot).
  assert (Hr : match check_impl true demo_mem demo_space 0x12000 0x2000 with
               | Ok (inl _, _, _) => true | _ => false end = true) by (vm_compute; reflexivity).
  destruct (check_impl true demo_mem demo_space 0x12000 0x2000) as [[[[[]|e] sp'] m']|e|] eqn:E;
    try discriminate Hr.
  destruct (Hok _ _ _ eq_refl) as (Hi & _ & Hp).
  exists sp', m'. split; [reflexivity|]. split; [exact Hi|].
  split; apply Hp; vm_compute; congruence.
Defined.

Lemma check_cstr_sound_witness :
  ∃ sp' m', check_cstr demo_mem demo_space 0x12345 = Ok (inl [], sp', m') ∧
    mmu_load m' sp' 0x12345 = Some 0.
Proof.
  destruct (check_cstr_sound demo_mem demo_space 0x12345 demo_space_inv ltac:(lia)) as (Hok & Htot).
  assert (Hr : match check_cstr demo_mem demo_space 0x12345 with
               | Ok (inl [], _, _) => true | _ => false end = true) by (vm_compute; reflexivity).
  destruct (check_cstr demo_mem demo_space 0x12345) as [[[[[|]|e] sp'] m']|e|] eqn:E;
    try discriminate Hr.
  destruct (Hok _ _ _ eq_refl) as (_ & _ & _ & _ & Hz & _).
  exists sp', m'. split; [reflexivity|exact Hz].
Defined.

(** ** Where the check is not enough *)

(** What follows a successful check: the kernel's own access to the range. *)
Definition checked_read (m : Mem) (sp : MemorySpace) (ptr bytes : Z) : KResult (option (list Z)) :=
  let? (r, sp, m) := check_read_impl m sp ptr bytes in
  match r with
  | inl _ => let? bs := user_load m sp ptr (Z.to_nat bytes) in Ok (Some bs)
  | inr _ => Ok None
  end.
Definition checked_write (m : Mem) (sp : MemorySpace) (ptr : Z) (bs : list Z) : KResult (option Mem) :=
  let? (r, sp, m) := check_write_impl m sp ptr (Z.of_nat (length bs)) in
  match r with
  | inl _ => let? m := user_store m sp ptr bs in Ok (Some m)
  | inr _ => Ok None
  end.

(** A range that starts inside a page and ends in the next one is checked on its
    first page only: the next one is not brought in, and the kernel's access
    faults. *)
Lemma check_misses_last_page :
  is_ok (check_read_impl demo_mem demo_space 0x12ff8 16) = true ∧
  is_panic (checked_read demo_mem demo_space 0x12ff8 16) = true.
Proof. split; vm_compute; reflexivity. Qed.

(** A read-only page passes the write check, since the pager accepts any fault
    on a page that has a frame; the store of the kernel faults. *)
Definition ro_space : MemorySpace :=
  mkSpace boot_pt.1 {[ 0x10 := area_new 0x10 0x20 18 Lazy ]}.
Lemma check_write_accepts_read_only :
  is_ok (check_write_impl demo_mem ro_space 0x12000 8) = true ∧
  is_panic (checked_write demo_mem ro_space 0x12000 [1; 2; 3; 4; 5; 6; 7; 8]) = true.
Proof. split; vm_compute; reflexivity. Qed.

