(* ===== verification/UserAccess.v ===== *)
(** * Typed access to user memory

    [UserRead<T>::read] and [UserWrite<T>::write] move a whole value of a
    [repr(C)] type. A [Codec] is the byte representation of such a type; the
    handlers below are [check_ptr()?.read()] and [check_ptr_mut()?.write(v)]. *)
From S2P Require Import Prelude Defines Kst UserCheck.

#[local] Obligation Tactic := idtac.

(** ** Representations *)
Record Codec (T : Type) : Type := mkCodec {
  size_of : nat;
  encode : T → list Z;
  decode : list Z → T;
  in_range : T → Prop;
  length_encode x : length (encode x) = size_of;
  decode_encode x : in_range x → decode (encode x) = x;
}.
Arguments size_of {T}.
Arguments encode {T}.
Arguments decode {T}.
Arguments in_range {T}.
Arguments length_encode {T}.
Arguments decode_encode {T}.

Program Definition uint_codec (n : nat) : Codec Z := {|
  size_of := n;
  encode x := to_le_bytes n x;
  decode bs := from_le_bytes (take n bs);
  in_range x := 0 ≤ x < 2 ^ (8 * Z.of_nat n);
|}.
Next Obligation. intros n x. apply length_to_le_bytes. Qed.
Next Obligation.
  intros n x Hx. cbv beta. rewrite take_ge by (by rewrite length_to_le_bytes).
  by apply from_to_le_bytes.
Qed.

Definition u64_codec : Codec Z := uint_codec 8.

(** [i32] in two's complement. *)
Lemma to_signed_wrap w x : 0 < w → -(2 ^ (w - 1)) ≤ x < 2 ^ (w - 1) → to_signed w (wrap w x) = x.
Proof.
  intros Hw Hx. unfold to_signed, wrap. rewrite Z.mod_mod by lia.
  assert (2 ^ w = 2 * 2 ^ (w - 1)) as Hp by (rewrite <- Z.pow_succ_r by lia; f_equal; lia).
  destruct (decide (0 ≤ x)).
  - rewrite Z.mod_small by lia. rewrite (proj2 (Z.ltb_lt _ _)) by lia. done.
  - rewrite <- (Z.mod_add x 1) by lia. rewrite Z.mod_small by lia.
    rewrite (proj2 (Z.ltb_ge _ _)) by lia. lia.
Qed.

Program Definition i32_codec : Codec Z := {|
  size_of := 4;
  encode x := to_le_bytes 4 (wrap 32 x);
  decode bs := to_signed 32 (from_le_bytes (take 4 bs));
  in_range x := -(2 ^ 31) ≤ x < 2 ^ 31;
|}.
Next Obligation. intros x. apply length_to_le_bytes. Qed.
Next Obligation.
  intros x Hx. cbv beta. rewrite take_ge by (by rewrite length_to_le_bytes).
  rewrite from_to_le_bytes; [by apply to_signed_wrap|]. apply Z.mod_pos_bound. lia.
Qed.

(** A sequence of 64-bit words, [[usize; n]]. *)
Definition enc_words (l : list Z) : list Z := concat (to_le_bytes 8 <$> l).
Fixpoint dec_words (n : nat) (bs : list Z) : list Z :=
  match n with
  | O => []
  | S n => from_le_bytes (take 8 bs) :: dec_words n (drop 8 bs)
  end.
Definition is_word (x : Z) : Prop := 0 ≤ x < 2 ^ 64.
#[export] Instance is_word_dec x : Decision (is_word x).
Proof. unfold is_word. apply _. Defined.

Lemma length_enc_words l : length (enc_words l) = (8 * length l)%nat.
Proof.
  unfold enc_words. induction l as [|x l IH]; [done|].
  rewrite fmap_cons. cbn [concat]. rewrite length_app, IH, length_to_le_bytes. simpl. lia.
Qed.

Lemma dec_enc_words l rest : Forall is_word l → dec_words (length l) (enc_words l ++ rest) = l.
Proof.
  unfold enc_words. induction 1 as [|x l Hx _ IH]; [done|].
  rewrite fmap_cons. cbn [concat length dec_words]. rewrite <- app_assoc.
  rewrite take_app_length', drop_app_length' by (by rewrite length_to_le_bytes).
  by rewrite from_to_le_bytes, IH.
Qed.

(** [KSignalAction] ([repr(C)]): [handler], [flags] and four bytes of padding,
    [restorer], [mask]. *)
Definition enc_action (a : KSignalAction) : list Z :=
  enc_words [sa_handler a; wrap 32 (sa_flags a); sa_restorer a; sa_mask a].
Definition dec_action (bs : list Z) : KSignalAction :=
  match dec_words 4 bs with
  | [h; f; r; m] => mkKSignalAction h (wrap 32 f) r m
  | _ => KSignalAction_new
  end.
Program Definition KSignalAction_codec : Codec KSignalAction := {|
  size_of := 32;
  encode := enc_action;
  decode := dec_action;
  in_range a := is_word (sa_handler a) ∧ 0 ≤ sa_flags a < 2 ^ 32 ∧
                is_word (sa_restorer a) ∧ is_word (sa_mask a);
|}.
Next Obligation. intros a. unfold enc_action. by rewrite length_enc_words. Qed.
Next Obligation.
  intros [h f r m] (Hh & Hf & Hr & Hm). unfold dec_action, enc_action.
  cbn [sa_handler sa_flags sa_restorer sa_mask] in *. rewrite wrap_small by done.
  rewrite <- (app_nil_r (enc_words _)). pose proof (dec_enc_words [h; f; r; m] []) as Hd.
  cbn [length] in Hd. rewrite Hd; [by rewrite wrap_small|].
  repeat (apply Forall_cons; split; [unfold is_word in *; lia|]). done.
Qed.

(** ** Reading and writing a value *)
Section access.
Context {U : Type} `{UserMemory U}.

(** A check is propagated with [?]. *)
Definition kcheck (r : KResult ((() + errno) * U)) : kst U () := λ _,
  match r with
  | Ok (inl _, u) => Done () u
  | Ok (inr e, u) => Fail e u
  | Err _ | Panic => Crash
  end.

Definition check_read (addr len : Z) : kst U () := λ u, kcheck (um_check_read u addr len) u.
Definition check_write (addr len : Z) : kst U () := λ u, kcheck (um_check_write u addr len) u.

Definition load_user (addr : Z) (n : nat) : kst U (list Z) := λ u,
  match um_load u addr n with
  | Ok bs => Done bs u
  | Err _ | Panic => Crash
  end.
Definition store_user (addr : Z) (bs : list Z) : kst U () := λ u,
  match um_store u addr bs with
  | Ok u => Done () u
  | Err _ | Panic => Crash
  end.

(** [ptr.check_ptr()?.read()] *)
Definition read_user {T} (c : Codec T) (addr : Z) : kst U T :=
  _ ← check_read addr (Z.of_nat (size_of c));
  bs ← load_user addr (size_of c);
  mret (decode c bs).

(** [ptr.check_ptr_mut()?.write(x)] *)
Definition write_user {T} (c : Codec T) (addr : Z) (x : T) : kst U () :=
  _ ← check_write addr (Z.of_nat (size_of c));
  store_user addr (encode c x).

Lemma write_user_ok {T} (c : Codec T) u addr x :
  um_ok u addr (size_of c) →
  ∃ u', write_user c addr x u = Done () u' ∧ um_ok u' addr (size_of c) ∧
        um_load u' addr (size_of c) = Ok (encode c x).
Proof.
  intros Hok. destruct (um_ok_write u addr _ Hok) as (u1 & Hc & Hok1 & _).
  rewrite <- (length_encode c x) in Hok1.
  destruct (um_ok_store u1 addr (encode c x) Hok1) as (u2 & Hs & Hok2 & Hl).
  exists u2. rewrite (length_encode c x) in *. split_and!; [|done|done].
  unfold write_user, check_write, store_user, mbind, kst_bind. rewrite Hc. simpl. by rewrite Hs.
Qed.

Lemma read_user_ok {T} (c : Codec T) u addr x :
  um_ok u addr (size_of c) → in_range c x →
  um_load u addr (size_of c) = Ok (encode c x) → read_user c addr u = Done x u.
Proof.
  intros Hok Hx Hl. unfold read_user, check_read, load_user, mbind, kst_bind.
  rewrite (um_ok_read u addr _ Hok). simpl. rewrite Hl. simpl.
  unfold mret, kst_ret. by rewrite decode_encode.
Qed.
End access.

(** ** A flat user memory

    A window of [n] bytes at [base], resident and writable: the smallest
    implementation of the interface, used in examples. *)
Module Flat.
Record t : Type := mk { base : Z; cells : list Z }.

Definition inside (u : t) (a n : Z) : bool :=
  (base u <=? a) && (0 <=? n) && (a + n <=? base u + Z.of_nat (length (cells u))).
Definition probe (u : t) (a n : Z) : KResult ((() + errno) * t) :=
  Ok (if inside u a n then inl () else inr EFAULT, u).
Definition off (u : t) (a : Z) : nat := Z.to_nat (a - base u).
Definition load (u : t) (a : Z) (n : nat) : KResult (list Z) :=
  if inside u a (Z.of_nat n) then Ok (take n (drop (off u a) (cells u))) else Panic.
Definition store (u : t) (a : Z) (bs : list Z) : KResult t :=
  if inside u a (Z.of_nat (length bs))
  then Ok (mk (base u) (take (off u a) (cells u) ++ bs ++ drop (off u a + length bs) (cells u)))
  else Panic.

Lemma inside_true u a n :
  inside u a n = true ↔ base u ≤ a ∧ 0 ≤ n ∧ a + n ≤ base u + Z.of_nat (length (cells u)).
Proof. unfold inside. rewrite !andb_true_iff, !Z.leb_le. tauto. Qed.

#[global] Program Instance FlatMemory : UserMemory t := {|
  um_check_read := probe; um_check_write := probe; um_load := load; um_store := store;
  um_ok u a n := inside u a (Z.of_nat n) = true;
|}.
Next Obligation. intros u a n Hi. unfold probe. simpl in *. by rewrite Hi. Qed.
Next Obligation. intros u a n Hi. unfold probe. simpl in *. rewrite Hi. by exists u. Qed.
Next Obligation.
  intros u a bs Hi. unfold store, load. simpl in *. rewrite Hi. eexists. split; [done|].
  pose proof Hi as (Hb & _ & Hl)%inside_true. assert (Hoff : (off u a + length bs ≤ length (cells u))%nat)
    by (unfold off; lia).
  set (u' := mk _ _).
  assert (length (cells u') = length (cells u)) as Hlen.
  { unfold u'. simpl. rewrite !length_app, length_take, length_drop. lia. }
  assert (inside u' a (Z.of_nat (length bs)) = true) as Hi'.
  { apply inside_true. rewrite Hlen. by apply inside_true in Hi. }
  split; [done|]. rewrite Hi'. unfold u', off. simpl. fold (off u a).
  rewrite drop_app_length' by (rewrite length_take; lia).
  by rewrite take_app_length.
Qed.
Next Obligation. intros u a n k Hk Hi. simpl in *. apply inside_true in Hi. apply inside_true. lia. Qed.
End Flat.
