(* ===== verification/Trap.v ===== *)
(** * Trap contexts and threads

    [trap/context.rs]: the user registers saved on a trap, the floating-point
    state and [sstatus]; [thread/inner.rs] and the data of [thread/mod.rs];
    the status word of a process ([process/mod.rs]). *)
From S2P Require Import Prelude Defines Kst.

(** ** [sstatus.FS] *)
Inductive FS : Type := Off | Initial | Clean | Dirty.
#[export] Instance FS_eq_dec : EqDecision FS.
Proof. solve_decision. Defined.
Definition FS_to_Z (f : FS) : Z :=
  match f with Off => 0 | Initial => 1 | Clean => 2 | Dirty => 3 end.

(** ** The floating-point unit: [f0]..[f31] and [fcsr] *)
Record Fpu : Type := mkFpu { fpu_f : list Z; fpu_fcsr : Z }.

Record UserFloatContext : Type := mkFloat { user_fx : list Z; fcsr : Z; valid : bool }.
Definition UserFloatContext_new : UserFloatContext := mkFloat (replicate 32 0) 0 false.
(** [save]: [fsd] of every register and [fcsr]; the flag is not touched. *)
Definition float_save (self : UserFloatContext) (fpu : Fpu) : UserFloatContext :=
  mkFloat (fpu_f fpu) (wrap 32 (fpu_fcsr fpu)) (valid self).
(** [restore]: [fld] of every register and [fcsr]. *)
Definition float_restore (self : UserFloatContext) : Fpu := mkFpu (user_fx self) (fcsr self).
Definition set_valid (b : bool) (self : UserFloatContext) : UserFloatContext :=
  mkFloat (user_fx self) (fcsr self) b.

(** ** [TrapContext] *)
Record TrapContext : Type := mkTrap {
  user_regs : list Z;   (* x1 .. x31 *)
  sstatus : Z;
  sepc : Z;
  kernel_sp : Z;
  kernel_ra : Z;
  kernel_tp : Z;
  kernel_s : list Z;    (* s0 .. s11 *)
  user_float_ctx : UserFloatContext;
}.

Module Ctx.
Definition with_regs (c : TrapContext) (r : list Z) : TrapContext :=
  mkTrap r (sstatus c) (sepc c) (kernel_sp c) (kernel_ra c) (kernel_tp c) (kernel_s c)
    (user_float_ctx c).
Definition with_sstatus (c : TrapContext) (x : Z) : TrapContext :=
  mkTrap (user_regs c) x (sepc c) (kernel_sp c) (kernel_ra c) (kernel_tp c) (kernel_s c)
    (user_float_ctx c).
Definition with_sepc (c : TrapContext) (x : Z) : TrapContext :=
  mkTrap (user_regs c) (sstatus c) x (kernel_sp c) (kernel_ra c) (kernel_tp c) (kernel_s c)
    (user_float_ctx c).
Definition with_float (c : TrapContext) (f : UserFloatContext) : TrapContext :=
  mkTrap (user_regs c) (sstatus c) (sepc c) (kernel_sp c) (kernel_ra c) (kernel_tp c) (kernel_s c) f.

(** The array always has 31 entries, so the constant indexes are in range. *)
Definition reg (c : TrapContext) (i : nat) : Z := default 0 (user_regs c !! i).
Definition set_reg (c : TrapContext) (i : nat) (x : Z) : TrapContext :=
  with_regs c (<[i := x]> (user_regs c)).

Definition sp (c : TrapContext) : Z := reg c 1.
Definition a0 (c : TrapContext) : Z := reg c 9.
Definition set_sp (c : TrapContext) (x : Z) : TrapContext := set_reg c 1 x.
Definition set_a0 (c : TrapContext) (x : Z) : TrapContext := set_reg c 9 x.
Definition set_a1 (c : TrapContext) (x : Z) : TrapContext := set_reg c 10 x.
Definition set_ra (c : TrapContext) (x : Z) : TrapContext := set_reg c 0 x.

Definition fs (c : TrapContext) : FS :=
  match Z.land (Z.shiftr (sstatus c) 13) 3 with
  | 0 => Off | 1 => Initial | 2 => Clean | _ => Dirty
  end.
End Ctx.

(** [!x] on a [usize]. *)
Definition not64 (x : Z) : Z := usize_max - x.

Definition set_fs_bits (sstatus : Z) (f : FS) : Z :=
  Z.lor (Z.land sstatus (not64 (Z.shiftl 3 13))) (Z.shiftl (FS_to_Z f) 13).
Definition set_fs (c : TrapContext) (f : FS) : TrapContext :=
  Ctx.with_sstatus c (set_fs_bits (sstatus c) f).

(** [app_init_sstatus], from the value of the CSR. *)
Definition app_init_sstatus (csr : Z) : Z :=
  let x := set_fs_bits csr Clean in
  let x := Z.land x (not64 (Z.shiftl 1 1)) in
  let x := Z.lor x (Z.shiftl 1 5) in
  Z.land x (not64 (Z.shiftl 1 8)).

(** [app_init_context], on a hart whose [tp] and [sstatus] are given. *)
Definition app_init_context (tp csr entry sp : Z) : TrapContext :=
  Ctx.set_sp
    (mkTrap (replicate 31 0) (app_init_sstatus csr) entry 0 0 tp (replicate 12 0)
       UserFloatContext_new) sp.

(** ** Threads *)
Inductive ThreadStatus : Type := Ready | Running | Blocking | Terminated.
#[export] Instance ThreadStatus_eq_dec : EqDecision ThreadStatus.
Proof. solve_decision. Defined.

(** [Thread] with [ThreadInner] and [ThreadOwned]; the owning process is the one
    whose table holds the thread. *)
Record Thread : Type := mkThread {
  t_tid : Z;
  t_status : ThreadStatus;
  t_exit_code : Z;
  signal_mask : Z;
  pending_signal : Z;
  trap_context : TrapContext;
  clear_child_tid : Z;
}.

Module Th.
Definition new (tid : Z) (ctx : TrapContext) (mask : Z) : Thread :=
  mkThread tid Ready 0 mask 0 ctx 0.
Definition with_status (t : Thread) (s : ThreadStatus) : Thread :=
  mkThread (t_tid t) s (t_exit_code t) (signal_mask t) (pending_signal t) (trap_context t)
    (clear_child_tid t).
Definition with_exit_code (t : Thread) (c : Z) : Thread :=
  mkThread (t_tid t) (t_status t) c (signal_mask t) (pending_signal t) (trap_context t)
    (clear_child_tid t).
Definition with_mask (t : Thread) (m : Z) : Thread :=
  mkThread (t_tid t) (t_status t) (t_exit_code t) m (pending_signal t) (trap_context t)
    (clear_child_tid t).
Definition with_pending (t : Thread) (p : Z) : Thread :=
  mkThread (t_tid t) (t_status t) (t_exit_code t) (signal_mask t) p (trap_context t)
    (clear_child_tid t).
Definition with_ctx (t : Thread) (c : TrapContext) : Thread :=
  mkThread (t_tid t) (t_status t) (t_exit_code t) (signal_mask t) (pending_signal t) c
    (clear_child_tid t).
Definition with_clear_child_tid (t : Thread) (p : Z) : Thread :=
  mkThread (t_tid t) (t_status t) (t_exit_code t) (signal_mask t) (pending_signal t)
    (trap_context t) p.
End Th.

(** ** [ProcessStatus]: a [u16], the exit code in the low byte *)
Module ProcessStatus.
Definition normal : Z := 0.
Definition exited (exit_code : Z) : Z := Z.lor (Z.shiftl 1 8) (wrap 8 exit_code).
Definition zombie (exit_code : Z) : Z := Z.lor (Z.shiftl 2 8) (wrap 8 exit_code).
Definition is_exited (s : Z) : bool := Z.land s (Z.shiftl 255 8) =? Z.shiftl 1 8.
Definition is_zombie (s : Z) : bool := Z.land s (Z.shiftl 255 8) =? Z.shiftl 2 8.
Definition exit_code (s : Z) : option Z :=
  if s =? normal then None else Some (to_signed 8 (Z.land s 255)).
End ProcessStatus.

(** [exit_process]: the status becomes "exited"; a process that is not in the
    normal state when it is told to exit is a failed assertion. *)
Definition exit_process (status exit_code : Z) : KResult Z :=
  check (status =? ProcessStatus.normal) in Ok (ProcessStatus.exited exit_code).

(** ** Lemmas *)
Lemma not64_land s b n :
  0 ≤ s < 2 ^ 64 → 0 ≤ b < 2 ^ 64 → 0 ≤ n →
  Z.testbit (Z.land s (not64 b)) n = Z.testbit s n && negb (Z.testbit b n).
Proof.
  intros Hs Hb Hn. rewrite Z.land_spec. destruct (decide (n < 64)).
  - f_equal. unfold not64, usize_max. change (2 ^ 64 - 1) with (Z.ones 64).
    replace (Z.ones 64 - b) with (Z.ldiff (Z.ones 64) b).
    + rewrite Z.ldiff_spec, Z.testbit_ones_nonneg by lia.
      by rewrite (proj2 (Z.ltb_lt n 64)) by lia.
    + rewrite Z.sub_nocarry_ldiff; [done|]. bitwise k. rewrite Z.ldiff_spec.
      rewrite Z.testbit_ones_nonneg by lia. destruct (Z.ltb_spec k 64); simpl.
      * by rewrite andb_false_r.
      * by rewrite (testbit_high b 64) by lia.
  - rewrite (testbit_high s 64) by lia. done.
Qed.

Lemma land_range x y : 0 ≤ x < 2 ^ 64 → 0 ≤ y → 0 ≤ Z.land x y < 2 ^ 64.
Proof.
  intros Hx Hy. rewrite <- (Z.mod_small x (2 ^ 64)) by lia.
  rewrite <- Z.land_ones by lia. rewrite <- Z.land_assoc, (Z.land_comm _ y), Z.land_assoc.
  rewrite Z.land_ones by lia. apply Z.mod_pos_bound. lia.
Qed.

Lemma lor_range x y : 0 ≤ x < 2 ^ 64 → 0 ≤ y < 2 ^ 64 → 0 ≤ Z.lor x y < 2 ^ 64.
Proof.
  intros Hx Hy. split; [apply Z.lor_nonneg; lia|].
  destruct (Z.eq_dec (Z.lor x y) 0) as [->|]; [lia|].
  assert (0 ≤ Z.lor x y) by (apply Z.lor_nonneg; lia).
  apply Z.log2_lt_pow2; [lia|]. rewrite Z.log2_lor by lia.
  apply Z.max_lub_lt; [destruct (Z.eq_dec x 0) as [->|]|destruct (Z.eq_dec y 0) as [->|]];
    try done; apply Z.log2_lt_pow2; lia.
Qed.

Lemma not64_nonneg b : 0 ≤ b < 2 ^ 64 → 0 ≤ not64 b.
Proof. unfold not64, usize_max. lia. Qed.

(** The bits of [set_fs_bits]. *)
Lemma set_fs_bits_range s f : 0 ≤ s < 2 ^ 64 → 0 ≤ set_fs_bits s f < 2 ^ 64.
Proof.
  intros Hs. unfold set_fs_bits. apply lor_range.
  - apply land_range; [done|]. apply not64_nonneg. done.
  - destruct f; done.
Qed.

Lemma set_fs_bits_testbit s f n :
  0 ≤ s < 2 ^ 64 → 0 ≤ n →
  Z.testbit (set_fs_bits s f) n =
    if decide (13 ≤ n < 15) then Z.testbit (FS_to_Z f) (n - 13) else Z.testbit s n.
Proof.
  intros Hs Hn. unfold set_fs_bits. rewrite Z.lor_spec, not64_land by done.
  rewrite !Z.shiftl_spec by lia. case_decide as Hd.
  - assert (n = 13 ∨ n = 14) as [->| ->] by lia; destruct (Z.testbit s _); done.
  - destruct (decide (n < 13)).
    + rewrite !(Z.testbit_neg_r _ (n - 13)) by lia. by rewrite orb_false_r, andb_true_r.
    + rewrite (testbit_high 3 2) by lia.
      rewrite (testbit_high (FS_to_Z f) 2) by (destruct f; simpl; lia).
      by rewrite orb_false_r, andb_true_r.
Qed.

(** The two [FS] bits, read back. *)
Lemma fs_set_fs c f : 0 ≤ sstatus c < 2 ^ 64 → Ctx.fs (set_fs c f) = f.
Proof.
  intros Hs. unfold Ctx.fs, set_fs. cbn [sstatus Ctx.with_sstatus].
  assert (Z.land (Z.shiftr (set_fs_bits (sstatus c) f) 13) 3 = FS_to_Z f) as ->.
  { change 3 with (Z.ones 2). bitwise n. rewrite set_fs_bits_testbit by lia.
    destruct (Z.ltb_spec n 2).
    - rewrite decide_True, andb_true_r by lia. f_equal. lia.
    - rewrite andb_false_r. by rewrite (testbit_high (FS_to_Z f) 2) by (destruct f; simpl; lia). }
  by destruct f.
Qed.

Lemma app_init_sstatus_testbit s n :
  0 ≤ s < 2 ^ 64 → 0 ≤ n →
  Z.testbit (app_init_sstatus s) n =
    if decide (n = 1 ∨ n = 8) then false
    else if decide (n = 5) then true
    else if decide (13 ≤ n < 15) then bool_decide (n = 14)
    else Z.testbit s n.
Proof.
  intros Hs Hn. unfold app_init_sstatus.
  pose proof (set_fs_bits_range s Clean Hs) as Hr.
  assert (H1 : 0 ≤ Z.land (set_fs_bits s Clean) (not64 (Z.shiftl 1 1)) < 2 ^ 64)
    by (apply land_range; [done|by apply not64_nonneg]).
  rewrite not64_land; [|by apply lor_range; [|split]|by split|done].
  rewrite Z.lor_spec, not64_land, set_fs_bits_testbit by done.
  rewrite !Z.shiftl_mul_pow2, !Z.mul_1_l by lia.
  rewrite (Z.pow2_bits_eqb 1 n), (Z.pow2_bits_eqb 5 n), (Z.pow2_bits_eqb 8 n) by lia.
  destruct (decide (n = 1)) as [->|]; [by destruct (Z.testbit s 1)|]. destruct (decide (n = 8)) as [->|].
  { by rewrite andb_false_r. }
  destruct (decide (n = 1 ∨ n = 8)); [lia|]. rewrite (proj2 (Z.eqb_neq 1 n)), (proj2 (Z.eqb_neq 8 n)) by lia.
  rewrite !andb_true_r. destruct (decide (n = 5)) as [->|]; [by rewrite orb_true_r|].
  rewrite (proj2 (Z.eqb_neq 5 n)), orb_false_r by lia. case_decide; [|done].
  assert (n = 13 ∨ n = 14) as [->| ->] by lia; done.
Qed.

(** The context a new program starts from returns to user mode: whatever
    the kernel's [sstatus] was, the context's has [SPP] clear (user mode),
    interrupts disabled now ([SIE]) and enabled after [sret] ([SPIE]), the
    floating-point unit in the [Clean] state, and every other bit as it was. It
    starts at [entry] on the given stack with all other registers zero. *)
Theorem app_init_context_spec tp csr entry stack :
  0 ≤ csr < 2 ^ 64 →
  let c := app_init_context tp csr entry stack in
  Z.testbit (sstatus c) 8 = false ∧ Z.testbit (sstatus c) 1 = false ∧
  Z.testbit (sstatus c) 5 = true ∧ Ctx.fs c = Clean ∧
  (∀ n, 0 ≤ n → n ∉ [1; 5; 8; 13; 14] → Z.testbit (sstatus c) n = Z.testbit csr n) ∧
  sepc c = entry ∧ Ctx.sp c = stack ∧
  (∀ i, i ≠ 1%nat → Ctx.reg c i = 0) ∧ valid (user_float_ctx c) = false.
Proof.
  intros Hc c.
  assert (Hb : ∀ n, 0 ≤ n → Z.testbit (sstatus c) n = Z.testbit (app_init_sstatus csr) n) by done.
  split_and!; try done.
  - by rewrite Hb, app_init_sstatus_testbit.
  - by rewrite Hb, app_init_sstatus_testbit.
  - by rewrite Hb, app_init_sstatus_testbit.
  - unfold Ctx.fs. assert (Z.land (Z.shiftr (sstatus c) 13) 3 = 2) as ->; [|done].
    change 3 with (Z.ones 2). bitwise n. rewrite Hb, app_init_sstatus_testbit by lia.
    rewrite !decide_False by lia. destruct (Z.ltb_spec n 2).
    + rewrite decide_True, andb_true_r by lia.
      assert (n = 0 ∨ n = 1) as [->| ->] by lia; done.
    + rewrite andb_false_r. by rewrite (testbit_high 2 2) by lia.
  - intros n Hn Hin. rewrite Hb, app_init_sstatus_testbit by done.
    rewrite !elem_of_cons in Hin. rewrite !decide_False; [done|lia..].
  - intros i Hi. unfold Ctx.reg, c, app_init_context, Ctx.set_sp, Ctx.set_reg.
    cbn [user_regs Ctx.with_regs]. rewrite list_lookup_insert_ne by congruence.
    destruct (replicate 31 0 !! i) eqn:E; [|done]. apply lookup_replicate in E as [-> _]. done.
Qed.

Lemma app_init_context_witness :
  Ctx.fs (app_init_context 7 0x8000000200006122 0x10000 0x3ffff0) = Clean ∧
  Z.testbit (sstatus (app_init_context 7 0x8000000200006122 0x10000 0x3ffff0)) 8 = false.
Proof.
  destruct (app_init_context_spec 7 0x8000000200006122 0x10000 0x3ffff0 ltac:(lia))
    as (Hspp & _ & _ & Hfs & _).
  split; [exact Hfs|exact Hspp].
Defined.

(** ** Process status words *)
Definition status_ok (c : Z) : bool :=
  let e := ProcessStatus.exited c in
  let z := ProcessStatus.zombie c in
  bool_decide (ProcessStatus.exit_code e = Some c) &&
  bool_decide (ProcessStatus.exit_code z = Some c) &&
  ProcessStatus.is_exited e && negb (ProcessStatus.is_zombie e) &&
  ProcessStatus.is_zombie z && negb (ProcessStatus.is_exited z) &&
  negb (e =? ProcessStatus.normal) && negb (z =? ProcessStatus.normal).

(** An [i8] has 256 values. *)
Lemma i8_forall (f : Z → bool) :
  forallb f (seqZ (-128) 256) = true → ∀ c, -128 ≤ c < 128 → f c = true.
Proof.
  intros Hf c Hc. rewrite forallb_forall in Hf. apply Hf.
  apply list_elem_of_In, elem_of_seqZ. lia.
Qed.

(** The status word encodes the life of a process without ambiguity: for
    every exit code of type [i8], the "exited" and the "zombie" word give the
    code back, are told apart by [is_exited] and [is_zombie], and differ from
    the normal word, which has no exit code. [exit_process] moves from the
    normal state to "exited" and panics in every other state. *)
Theorem process_status_roundtrip c :
  -128 ≤ c < 128 →
  (∀ k s, (k, s) ∈ [(1, ProcessStatus.exited c); (2, ProcessStatus.zombie c)] →
     ProcessStatus.exit_code s = Some c ∧ s ≠ ProcessStatus.normal ∧
     ProcessStatus.is_exited s = (k =? 1) ∧ ProcessStatus.is_zombie s = (k =? 2) ∧
     ∀ c', exit_process s c' = Panic) ∧
  ProcessStatus.exit_code ProcessStatus.normal = None ∧
  exit_process ProcessStatus.normal c = Ok (ProcessStatus.exited c).
Proof.
  intros Hc. assert (Hok : status_ok c = true) by (apply (i8_forall status_ok); done).
  unfold status_ok in Hok. rewrite !andb_true_iff, !negb_true_iff, !bool_decide_eq_true in Hok.
  destruct Hok as [[[[[[[He Hz] H1] H2] H3] H4] H5] H6]. split_and!; [|done|done].
  intros k s [[= -> ->]|[[= -> ->]|[]%elem_of_nil]%elem_of_cons]%elem_of_cons;
    (split_and!; [done|by apply Z.eqb_neq|done|done|]); intros c'; unfold exit_process;
    [by rewrite H5|by rewrite H6].
Qed.

Lemma process_status_roundtrip_witness :
  ProcessStatus.exit_code (ProcessStatus.exited (-2)) = Some (-2) ∧
  exit_process (ProcessStatus.exited (-2)) 0 = Panic.
Proof.
  destruct (process_status_roundtrip (-2) ltac:(lia)) as (Hs & _ & _).
  destruct (Hs 1 (ProcessStatus.exited (-2)) ltac:(apply elem_of_cons; left; reflexivity))
    as (Hc & _ & _ & _ & Hp).
  split; [exact Hc|apply Hp].
Defined.
