(* ===== verification/Signal.v ===== *)
(** * Signals

    [signal/mod.rs], [signal/handlers.rs], [ProcessInner::receive_signal],
    [trap::check_signal] and the signal system calls of
    [kernel/src/syscall/signal.rs] that act on the calling thread. A signal set
    is a [u64] whose bit [n - 1] stands for signal number [n]. *)
From S2P Require Import Prelude Defines Kst Trap UserCheck UserAccess.

(** ** Signals *)
Inductive Signal : Type :=
| SIGHUP | SIGINT | SIGQUIT | SIGILL | SIGTRAP | SIGABRT
| SIGBUS | SIGFPE | SIGKILL | SIGUSR1 | SIGSEGV | SIGUSR2
| SIGPIPE | SIGALRM | SIGTERM | SIGSTKFLT | SIGCHLD | SIGCONT
| SIGSTOP | SIGTSTP | SIGTTIN | SIGTTOU | SIGURG | SIGXCPU
| SIGXFSZ | SIGVTALRM | SIGPROF | SIGWINCH | SIGIO | SIGPWR
| SIGSYS.
#[export] Instance Signal_eq_dec : EqDecision Signal.
Proof. solve_decision. Defined.

(** The signal numbers of [defines::signal]. *)
Definition signum_of (s : Signal) : Z :=
  match s with
  | SIGHUP => 1 | SIGINT => 2 | SIGQUIT => 3 | SIGILL => 4
  | SIGTRAP => 5 | SIGABRT => 6 | SIGBUS => 7 | SIGFPE => 8
  | SIGKILL => 9 | SIGUSR1 => 10 | SIGSEGV => 11 | SIGUSR2 => 12
  | SIGPIPE => 13 | SIGALRM => 14 | SIGTERM => 15 | SIGSTKFLT => 16
  | SIGCHLD => 17 | SIGCONT => 18 | SIGSTOP => 19 | SIGTSTP => 20
  | SIGTTIN => 21 | SIGTTOU => 22 | SIGURG => 23 | SIGXCPU => 24
  | SIGXFSZ => 25 | SIGVTALRM => 26 | SIGPROF => 27 | SIGWINCH => 28
  | SIGIO => 29 | SIGPWR => 30 | SIGSYS => 31
  end.
(** [signal as u8]: the discriminants start from zero. *)
Definition signal_num (s : Signal) : Z := signum_of s - 1.

Module Sig.
Definition from_user (signum : Z) : option Signal :=
  match signum with
  | 1 => Some SIGHUP | 2 => Some SIGINT | 3 => Some SIGQUIT
  | 4 => Some SIGILL | 5 => Some SIGTRAP | 6 => Some SIGABRT
  | 7 => Some SIGBUS | 8 => Some SIGFPE | 9 => Some SIGKILL
  | 10 => Some SIGUSR1 | 11 => Some SIGSEGV | 12 => Some SIGUSR2
  | 13 => Some SIGPIPE | 14 => Some SIGALRM | 15 => Some SIGTERM
  | 16 => Some SIGSTKFLT | 17 => Some SIGCHLD | 18 => Some SIGCONT
  | 19 => Some SIGSTOP | 20 => Some SIGTSTP | 21 => Some SIGTTIN
  | 22 => Some SIGTTOU | 23 => Some SIGURG | 24 => Some SIGXCPU
  | 25 => Some SIGXFSZ | 26 => Some SIGVTALRM | 27 => Some SIGPROF
  | 28 => Some SIGWINCH | 29 => Some SIGIO | 30 => Some SIGPWR
  | 31 => Some SIGSYS
  | _ => None
  end.
Definition to_user (s : Signal) : Z := signal_num s + 1.
End Sig.

(** ** Signal sets *)

(** [u64::trailing_zeros]; [n] bits are left to look at. *)
Fixpoint trailing_zeros_loop (n : nat) (x : Z) : Z :=
  match n with
  | O => 0
  | S n => if Z.odd x then 0 else 1 + trailing_zeros_loop n (Z.div2 x)
  end.
Definition trailing_zeros (x : Z) : Z := trailing_zeros_loop 64 x.

Module KSignalSet.
(** The union of the 31 bits the type declares. *)
Definition mask : Z := 2 ^ 31 - 1.
Definition from_user (bits : Z) : Z := Flags.from_bits_truncate mask (Z.shiftr bits 1).
Definition to_user (self : Z) : Z := wrap 64 (Z.shiftl self 1).
Definition first_pending (self : Z) : option Signal :=
  Sig.from_user (wrap 8 (trailing_zeros self) + 1).
Definition from (s : Signal) : Z := Flags.from_bits_truncate mask (Z.shiftl 1 (signal_num s)).
Definition complement (self : Z) : Z := Flags.complement mask self.
End KSignalSet.

Inductive SigProcMaskHow : Type := Block | Unblock | SetMask.
Definition how_from_user (how : Z) : option SigProcMaskHow :=
  match how with
  | 0 => Some Block
  | 1 => Some Unblock
  | 2 => Some SetMask
  | _ => None
  end.

(** ** Handlers *)
Definition SIG_ERR : Z := usize_max.
Definition SIG_DFL : Z := 0.
Definition SIG_IGN : Z := 1.

Inductive DefaultHandler : Type := Terminate | Ignore | CoreDump | Stop | Continue.
Definition DefaultHandler_new (s : Signal) : DefaultHandler :=
  match s with
  | SIGABRT | SIGBUS | SIGILL | SIGQUIT | SIGSEGV | SIGSYS | SIGTRAP | SIGXCPU | SIGXFSZ => CoreDump
  | SIGCHLD | SIGURG | SIGWINCH => Ignore
  | SIGSTOP | SIGTSTP | SIGTTIN | SIGTTOU => Stop
  | SIGCONT => Continue
  | _ => Terminate
  end.

(** [SignalHandlers]: an array of [SIGSET_SIZE] actions. *)
Abbreviation SignalHandlers := (list KSignalAction).
Module Handlers.
Definition new : SignalHandlers := replicate (Z.to_nat SIGSET_SIZE) KSignalAction_new.
Definition action (h : SignalHandlers) (s : Signal) : KSignalAction :=
  default KSignalAction_new (h !! Z.to_nat (signal_num s)).
Definition set_action (h : SignalHandlers) (s : Signal) (a : KSignalAction) : SignalHandlers :=
  <[Z.to_nat (signal_num s) := a]> h.
End Handlers.
Definition kmask (a : KSignalAction) : Z := KSignalSet.from_user (sa_mask a).

(** [ProcessInner::receive_signal]: the first thread, in the order of the hash
    map, that neither blocks the signal nor has it pending. *)
Fixpoint receive_loop (threads : gmap Z Thread) (signal : Z) (order : list Z) : gmap Z Thread :=
  match order with
  | [] => threads
  | tid :: order =>
      match threads !! tid with
      | Some t =>
          if negb (Flags.contains (signal_mask t) signal) &&
             negb (Flags.contains (pending_signal t) signal)
          then <[tid := Th.with_pending t (Flags.union (pending_signal t) signal)]> threads
          else receive_loop threads signal order
      | None => receive_loop threads signal order
      end
  end.
Definition receive_signal (threads : gmap Z Thread) (order : list Z) (s : Signal) : gmap Z Thread :=
  receive_loop threads (KSignalSet.from s) order.

(** ** The frame on the user stack *)
Record SignalContext : Type := mkSignalContext {
  old_mask : Z;
  old_trap_context : TrapContext;
}.

(** 82 words: the mask, then the [repr(C)] trap context, whose last word holds
    [fcsr], [valid] and padding. *)
Definition frame_words (c : SignalContext) : list Z :=
  let t := old_trap_context c in
  let f := user_float_ctx t in
  old_mask c :: resize 31 0 (user_regs t) ++
  [sstatus t; sepc t; kernel_sp t; kernel_ra t; kernel_tp t] ++
  resize 12 0 (kernel_s t) ++ resize 32 0 (user_fx f) ++
  [wrap 32 (fcsr f) + 2 ^ 32 * (if valid f then 1 else 0)].
Definition frame_of_words (l : list Z) : SignalContext :=
  let w i := default 0 (l !! i) in
  mkSignalContext (w 0%nat)
    (mkTrap (take 31 (drop 1 l)) (w 32%nat) (w 33%nat) (w 34%nat) (w 35%nat) (w 36%nat)
       (take 12 (drop 37 l))
       (mkFloat (take 32 (drop 49 l)) (wrap 32 (w 81%nat))
          (negb (wrap 8 (Z.shiftr (w 81%nat) 32) =? 0)))).

(** A context the hardware can hold. *)
Definition ctx_in_range (t : TrapContext) : Prop :=
  length (user_regs t) = 31%nat ∧ length (kernel_s t) = 12%nat ∧
  length (user_fx (user_float_ctx t)) = 32%nat ∧
  Forall is_word (user_regs t) ∧ Forall is_word (kernel_s t) ∧
  Forall is_word (user_fx (user_float_ctx t)) ∧ 0 ≤ fcsr (user_float_ctx t) < 2 ^ 32 ∧
  Forall is_word [sstatus t; sepc t; kernel_sp t; kernel_ra t; kernel_tp t].
Definition frame_in_range (c : SignalContext) : Prop :=
  is_word (old_mask c) ∧ ctx_in_range (old_trap_context c).

Lemma length_frame_words c : length (frame_words c) = 82%nat.
Proof. unfold frame_words. cbn [length]. rewrite !length_app, !length_resize. done. Qed.

Lemma frame_words_range c : frame_in_range c → Forall is_word (frame_words c).
Proof.
  destruct c as [m [regs ss pc ksp kra ktp ks [fx fc v]]].
  intros (Hm & Hr & Hk & Hf & Hrw & Hkw & Hfw & Hfc & Hw). unfold frame_words.
  cbn [old_mask old_trap_context user_regs sstatus sepc kernel_sp kernel_ra kernel_tp kernel_s
       user_float_ctx user_fx fcsr valid] in *.
  assert (is_word 0) by (unfold is_word; lia).
  apply Forall_cons; split; [done|]. repeat (apply Forall_app; split); [by apply Forall_resize|done|by apply Forall_resize..|].
  apply Forall_singleton. rewrite wrap_small by lia. unfold is_word. destruct v; lia.
Qed.

Lemma frame_words_roundtrip c : frame_in_range c → frame_of_words (frame_words c) = c.
Proof.
  destruct c as [m [regs ss pc ksp kra ktp ks [fx fc v]]].
  intros (Hm & Hr & Hk & Hf & Hrw & Hkw & Hfw & Hfc & Hw). simpl in *.
  unfold frame_words, frame_of_words.
  cbn [old_mask old_trap_context user_regs sstatus sepc kernel_sp kernel_ra kernel_tp kernel_s
       user_float_ctx user_fx fcsr valid].
  assert (Hres : ∀ n (l : list Z), length l = n → resize n 0 l = l)
    by (intros n l <-; apply resize_all). rewrite !Hres by done.
  set (last := wrap 32 fc + 2 ^ 32 * (if v then 1 else 0)).
  assert (Hmid : ∀ i, (i < 5)%nat →
    (m :: regs ++ [ss; pc; ksp; kra; ktp] ++ ks ++ fx ++ [last]) !! (32 + i)%nat
      = [ss; pc; ksp; kra; ktp] !! i).
  { intros i Hi. trans ((regs ++ [ss; pc; ksp; kra; ktp] ++ ks ++ fx ++ [last]) !! (31 + i)%nat); [done|].
    rewrite lookup_app_r by lia. rewrite Hr. replace (31 + i - 31)%nat with i by lia.
    by rewrite lookup_app_l by (simpl; lia). }
  rewrite (Hmid 0%nat ltac:(lia) : (m :: regs ++ [ss; pc; ksp; kra; ktp] ++ ks ++ fx ++ [last]) !! 32%nat = Some ss), (Hmid 1%nat ltac:(lia) : (m :: regs ++ [ss; pc; ksp; kra; ktp] ++ ks ++ fx ++ [last]) !! 33%nat = Some pc),
    (Hmid 2%nat ltac:(lia) : (m :: regs ++ [ss; pc; ksp; kra; ktp] ++ ks ++ fx ++ [last]) !! 34%nat = Some ksp), (Hmid 3%nat ltac:(lia) : (m :: regs ++ [ss; pc; ksp; kra; ktp] ++ ks ++ fx ++ [last]) !! 35%nat = Some kra),
    (Hmid 4%nat ltac:(lia) : (m :: regs ++ [ss; pc; ksp; kra; ktp] ++ ks ++ fx ++ [last]) !! 36%nat = Some ktp).
  assert (Hks : drop 37 (m :: regs ++ [ss; pc; ksp; kra; ktp] ++ ks ++ fx ++ [last])
                = ks ++ fx ++ [last]).
  { trans (drop 5 (drop 31 (regs ++ [ss; pc; ksp; kra; ktp] ++ ks ++ fx ++ [last])));
      [by rewrite drop_drop|]. by rewrite drop_app_length' by done. }
  assert (Hfx : drop 49 (m :: regs ++ [ss; pc; ksp; kra; ktp] ++ ks ++ fx ++ [last]) = fx ++ [last]).
  { rewrite <- (drop_drop _ 12 37), Hks. by rewrite drop_app_length' by done. }
  assert (Hlast : (m :: regs ++ [ss; pc; ksp; kra; ktp] ++ ks ++ fx ++ [last]) !! 81%nat = Some last).
  { rewrite <- (lookup_drop _ 49 32), Hfx. by rewrite lookup_app_r, Hf by lia. }
  rewrite Hks, Hfx, Hlast. cbn [drop default from_option].
  unfold id. rewrite drop_0, !take_app_length' by done.
  assert (wrap 32 last = fc) as ->.
  { unfold last, wrap. rewrite Z.add_mod_idemp_l by lia. rewrite (Z.mul_comm (2 ^ 32)).
    rewrite Z.mod_add by lia. by apply Z.mod_small. }
  assert (negb (wrap 8 (Z.shiftr last 32) =? 0) = v) as ->; [|done].
  unfold last. rewrite Z.shiftr_div_pow2, (wrap_small 32 fc), (Z.mul_comm (2 ^ 32)) by lia.
  rewrite Z.div_add, Z.div_small by lia. by destruct v.
Qed.

#[local] Obligation Tactic := idtac.
Definition enc_frame (c : SignalContext) : list Z := enc_words (frame_words c).
Definition dec_frame (bs : list Z) : SignalContext := frame_of_words (dec_words 82 bs).
Program Definition SignalContext_codec : Codec SignalContext := {|
  size_of := 656;
  encode := enc_frame;
  decode := dec_frame;
  in_range := frame_in_range;
|}.
Next Obligation. intros c. unfold enc_frame. by rewrite length_enc_words, length_frame_words. Qed.
Next Obligation.
  intros c Hc. unfold dec_frame, enc_frame.
  rewrite <- (app_nil_r (enc_words _)), <- (length_frame_words c).
  rewrite dec_enc_words; [by apply frame_words_roundtrip|]. by apply frame_words_range.
Qed.

(** ** Delivery and the system calls *)
Section delivery.
Context {U : Type} `{UserMemory U}.

(** What delivery touches: the thread, the actions and the status of its
    process, the floating-point unit of the hart, and user memory. *)
Record SigState : Type := mkSig {
  ss_thread : Thread;
  ss_handlers : SignalHandlers;
  ss_status : Z;
  ss_fpu : Fpu;
  ss_user : U;
}.
Definition set_thread (t : Thread) (s : SigState) : SigState :=
  mkSig t (ss_handlers s) (ss_status s) (ss_fpu s) (ss_user s).
Definition set_handlers (h : SignalHandlers) (s : SigState) : SigState :=
  mkSig (ss_thread s) h (ss_status s) (ss_fpu s) (ss_user s).
Definition set_status (x : Z) (s : SigState) : SigState :=
  mkSig (ss_thread s) (ss_handlers s) x (ss_fpu s) (ss_user s).
Definition set_user (u : U) (s : SigState) : SigState :=
  mkSig (ss_thread s) (ss_handlers s) (ss_status s) (ss_fpu s) u.

Definition on_user {A} (m : kst U A) : kst SigState A := λ s,
  match m (ss_user s) with
  | Done a u => Done a (set_user u s)
  | Fail e u => Fail e (set_user u s)
  | Crash => Crash
  end.

(** [exit_process(&thread.process, code)] *)
Definition sig_exit_process (code : Z) : kst SigState () :=
  s ← kget;
  st ← klift (exit_process (ss_status s) code);
  kmodify (set_status st).

(** [(signal as i8).wrapping_add_unsigned(128)] *)
Definition signal_exit_code (sg : Signal) : Z := to_signed 8 (signal_num sg + 128).

Definition SIGNAL_CONTEXT_SIZE : Z := 656.

(** The second half of [check_signal]: the handler is set up. *)
Definition deliver (sg : Signal) (action : KSignalAction) : kst SigState bool :=
  s ← kget;
  let t := ss_thread s in
  let old := signal_mask t in
  let mask := Flags.union old (kmask action) in
  let mask :=
    if negb (Flags.contains (sa_flags action) SignalActionFlags.SA_NODEFER)
    then Flags.set mask (KSignalSet.from sg) true else mask in
  let c := trap_context t in
  let c1 := Ctx.with_float c (set_valid false (user_float_ctx c)) in
  let '(old_c, c1) :=
    match Ctx.fs c1 with
    | Dirty =>
        (Ctx.with_float c (set_valid true (float_save (user_float_ctx c) (ss_fpu s))),
         set_fs c1 Clean)
    | _ => (c, c1)
    end in
  let c1 := Ctx.with_sepc c1 (sa_handler action) in
  new_sp ← klift (usub 64 (Ctx.sp c1) SIGNAL_CONTEXT_SIZE);
  let c1 := Ctx.set_sp c1 new_sp in
  let c1 := Ctx.set_ra c1 (sa_restorer action) in
  let c1 := Ctx.set_a0 c1 (Sig.to_user sg) in
  _ ← kmodify (set_thread (Th.with_ctx (Th.with_mask t mask) c1));
  sp ← klift (usub 64 (Ctx.sp old_c) SIGNAL_CONTEXT_SIZE);
  user_ptr ← ktry (p ← kok_or (UserCheck_new sp) EINVAL;
                   _ ← on_user (check_write p SIGNAL_CONTEXT_SIZE); mret p);
  match user_ptr with
  | inl p =>
      _ ← on_user (store_user p (encode SignalContext_codec (mkSignalContext old old_c)));
      mret false
  | inr _ => _ ← sig_exit_process (signal_exit_code sg); mret true
  end.

(** [check_signal]: whether the process was terminated. *)
Definition check_signal : kst SigState bool :=
  s ← kget;
  let t := ss_thread s in
  let pendings := Z.land (pending_signal t) (KSignalSet.complement (signal_mask t)) in
  match KSignalSet.first_pending pendings with
  | None => mret false
  | Some sg =>
      _ ← kmodify (set_thread
            (Th.with_pending t (Flags.difference (pending_signal t) (KSignalSet.from sg))));
      let action := Handlers.action (ss_handlers s) sg in
      if sa_handler action =? SIG_ERR then kcrash
      else if sa_handler action =? SIG_DFL then
        match DefaultHandler_new sg with
        | Terminate | CoreDump => _ ← sig_exit_process (signal_exit_code sg); mret true
        | Ignore => mret false
        | Stop | Continue => kcrash
        end
      else if sa_handler action =? SIG_IGN then mret false
      else deliver sg action
  end.

Definition sys_rt_sigaction (signum : Z) (new_act old_act : option Z) : kst SigState Z :=
  sg ← kok_or (Sig.from_user (wrap 8 signum)) EINVAL;
  if bool_decide (sg = SIGKILL) || bool_decide (sg = SIGSTOP) then kfail EINVAL
  else
    _ ← match old_act with
        | Some p =>
            s ← kget;
            on_user (write_user KSignalAction_codec p (Handlers.action (ss_handlers s) sg))
        | None => mret ()
        end;
    _ ← match new_act with
        | Some p =>
            act ← on_user (read_user KSignalAction_codec p);
            _ ← kassert (Flags.contains (sa_flags act) SignalActionFlags.SA_RESTORER);
            s ← kget;
            kmodify (set_handlers (Handlers.set_action (ss_handlers s) sg act))
        | None => mret ()
        end;
    mret 0.

Definition sys_rt_sigprocmask (how : Z) (new_set old_set : option Z) (set_size : Z) :
    kst SigState Z :=
  if SIGSET_SIZE_BYTES <? set_size then kfail EINVAL
  else
    _ ← match old_set with
        | Some p =>
            s ← kget;
            on_user (write_user u64_codec p (KSignalSet.to_user (signal_mask (ss_thread s))))
        | None => mret ()
        end;
    how ← kok_or (how_from_user how) EINVAL;
    _ ← match new_set with
        | Some p =>
            bits ← on_user (read_user u64_codec p);
            let new_set := KSignalSet.from_user bits in
            s ← kget;
            let t := ss_thread s in
            kmodify (set_thread (Th.with_mask t
              match how with
              | Block => Flags.union (signal_mask t) new_set
              | Unblock => Flags.difference (signal_mask t) new_set
              | SetMask => new_set
              end))
        | None => mret ()
        end;
    mret 0.

Definition sys_rt_sigreturn : kst SigState Z :=
  s ← kget;
  let t := ss_thread s in
  p ← kok_or (UserCheck_new (Ctx.sp (trap_context t))) EINVAL;
  r ← ktry (on_user (check_read p SIGNAL_CONTEXT_SIZE));
  match r with
  | inr _ => _ ← sig_exit_process (-10); kfail BREAK
  | inl _ =>
      bs ← on_user (load_user p (size_of SignalContext_codec));
      let old_ctx := decode SignalContext_codec bs in
      _ ← kmodify (set_thread
            (Th.with_ctx (Th.with_mask t (old_mask old_ctx)) (old_trap_context old_ctx)));
      mret (Ctx.a0 (old_trap_context old_ctx))
  end.
End delivery.
Arguments SigState : clear implicits.

(** ** Lemmas *)
Lemma signum_range s : 1 ≤ signum_of s ≤ 31.
Proof. by destruct s. Qed.

Lemma from_user_Some n s : Sig.from_user n = Some s ↔ signum_of s = n.
Proof.
  split; [|intros <-; by destruct s].
  unfold Sig.from_user. destruct n as [|p|p]; [done| |done].
  do 5 (destruct p as [p|p|]; try done; try (by intros [= <-])).
Qed.

Lemma from_user_None n : Sig.from_user n = None ↔ ¬ 1 ≤ n ≤ 31.
Proof.
  split.
  - intros Hn Hr. assert (Forall (λ n, Sig.from_user n ≠ None) (seqZ 1 31)) as Hall
      by (vm_compute; repeat (apply Forall_cons; split; [done|]); done).
    rewrite Forall_forall in Hall. apply (Hall n); [apply elem_of_seqZ; lia|done].
  - destruct (Sig.from_user n) as [s|] eqn:E; [|done]. apply from_user_Some in E.
    pose proof (signum_range s). lia.
Qed.

Lemma signal_num_inj s1 s2 : signal_num s1 = signal_num s2 → s1 = s2.
Proof.
  unfold signal_num. intros Hn. assert (signum_of s1 = signum_of s2) as He by lia.
  apply from_user_Some in He. pose proof (proj2 (from_user_Some (signum_of s2) s2) eq_refl).
  congruence.
Qed.

Lemma trailing_zeros_loop_spec n : ∀ x,
  let k := trailing_zeros_loop n x in
  0 ≤ k ≤ Z.of_nat n ∧ (∀ j, 0 ≤ j < k → Z.testbit x j = false) ∧
  (k < Z.of_nat n → Z.testbit x k = true).
Proof.
  induction n as [|n IH]; intros x; cbn [trailing_zeros_loop].
  { split_and!; [lia|lia|lia|lia]. }
  destruct (Z.odd x) eqn:Ho.
  { split_and!; [lia|lia|lia|]. intros _. by rewrite Z.bit0_odd. }
  destruct (IH (Z.div2 x)) as (Hk & Hz & Ho'). rewrite Z.div2_div in *. set (k := trailing_zeros_loop n (x / 2)) in *.
  split_and!; [lia|lia| |].
  - intros j Hj. destruct (decide (j = 0)) as [->|]; [by rewrite Z.bit0_odd|].
    replace j with (Z.succ (j - 1)) by lia. rewrite <- Z.div2_bits by lia. apply Hz. lia.
  - intros Hlt. rewrite Z.add_1_l, <- Z.div2_bits by lia. apply Ho'. lia.
Qed.

Lemma first_pending_Some x s :
  KSignalSet.first_pending x = Some s →
  Z.testbit x (signal_num s) = true ∧ ∀ j, 0 ≤ j < signal_num s → Z.testbit x j = false.
Proof.
  unfold KSignalSet.first_pending. intros Hf%from_user_Some.
  destruct (trailing_zeros_loop_spec 64 x) as (Hk & Hz & Ho). fold (trailing_zeros x) in *.
  rewrite wrap_small in Hf by lia. pose proof (signum_range s).
  assert (signal_num s = trailing_zeros x) as -> by (unfold signal_num; lia).
  split; [apply Ho; lia|done].
Qed.

Lemma first_pending_None x :
  KSignalSet.first_pending x = None → ∀ s, Z.testbit x (signal_num s) = false.
Proof.
  unfold KSignalSet.first_pending. intros Hf%from_user_None s.
  destruct (trailing_zeros_loop_spec 64 x) as (Hk & Hz & Ho). fold (trailing_zeros x) in *.
  rewrite wrap_small in Hf by lia. apply Hz. pose proof (signum_range s). unfold signal_num. lia.
Qed.

(** The singleton set of a signal. *)
Lemma from_signal s : KSignalSet.from s = 2 ^ signal_num s.
Proof. by destruct s. Qed.

Lemma from_signal_testbit s n : 0 ≤ n → Z.testbit (KSignalSet.from s) n = (signal_num s =? n).
Proof.
  intros Hn. rewrite from_signal, Z.pow2_bits_eqb by (pose proof (signum_range s); unfold signal_num; lia).
  done.
Qed.

Lemma complement_testbit m n :
  0 ≤ n → Z.testbit (KSignalSet.complement m) n = negb (Z.testbit m n) && (n <? 31).
Proof.
  intros Hn. unfold KSignalSet.complement, Flags.complement.
  change KSignalSet.mask with (Z.ones 31). by bit_rewrite.
Qed.

Lemma difference_testbit a b n :
  0 ≤ n → Z.testbit (Flags.difference a b) n = Z.testbit a n && negb (Z.testbit b n).
Proof. intros. unfold Flags.difference. by bit_rewrite. Qed.

Lemma from_user_testbit bits n :
  0 ≤ n → Z.testbit (KSignalSet.from_user bits) n = Z.testbit bits (n + 1) && (n <? 31).
Proof.
  intros Hn. unfold KSignalSet.from_user, Flags.from_bits_truncate.
  change KSignalSet.mask with (Z.ones 31). by bit_rewrite.
Qed.

Lemma num_lt_31 s : (signal_num s <? 31) = true ∧ 0 ≤ signal_num s.
Proof. pose proof (signum_range s). unfold signal_num. rewrite Z.ltb_lt. lia. Qed.

(** The pending signal chosen for delivery is the lowest-numbered one: it is
    in the set and no lower-numbered signal is; none is chosen exactly when no
    signal is in the set. Signal numbers and signals correspond one to one. *)
Theorem first_pending_spec x :
  match KSignalSet.first_pending x with
  | Some s => Z.testbit x (signal_num s) = true ∧
              ∀ s', Z.testbit x (signal_num s') = true → signal_num s ≤ signal_num s'
  | None => ∀ s, Z.testbit x (signal_num s) = false
  end ∧
  (∀ n s, Sig.from_user n = Some s ↔ Sig.to_user s = n) ∧
  (∀ n, Sig.from_user n = None ↔ ¬ 1 ≤ n ≤ 31).
Proof.
  split_and!.
  - destruct (KSignalSet.first_pending x) as [s|] eqn:E; [|by apply first_pending_None].
    apply first_pending_Some in E as [Hb Hz]. split; [done|]. intros s' Hs'.
    destruct (decide (signal_num s' < signal_num s)); [|lia].
    rewrite Hz in Hs'; [done|]. pose proof (num_lt_31 s'). lia.
  - intros n s. rewrite from_user_Some. unfold Sig.to_user, signal_num.
    split; lia.
  - apply from_user_None.
Qed.

Section delivery_lemmas.
Context {U : Type} `{UserMemory U}.

(** The context a handler interrupts, with the live floating-point registers. *)
Definition saved_context (c : TrapContext) (fpu : Fpu) : TrapContext :=
  match Ctx.fs c with
  | Dirty => Ctx.with_float c (set_valid true (float_save (user_float_ctx c) fpu))
  | _ => c
  end.
(** The context the handler starts in. *)
Definition handler_context (c : TrapContext) (sg : Signal) (action : KSignalAction) : TrapContext :=
  let c1 := Ctx.with_float c (set_valid false (user_float_ctx c)) in
  let c1 := match Ctx.fs c with Dirty => set_fs c1 Clean | _ => c1 end in
  let c1 := Ctx.with_sepc c1 (sa_handler action) in
  Ctx.set_a0 (Ctx.set_ra (Ctx.set_sp c1 (Ctx.sp c - SIGNAL_CONTEXT_SIZE)) (sa_restorer action))
    (Sig.to_user sg).
Definition handler_mask (mask : Z) (sg : Signal) (action : KSignalAction) : Z :=
  let m := Flags.union mask (kmask action) in
  if Flags.contains (sa_flags action) SignalActionFlags.SA_NODEFER then m
  else Flags.union m (KSignalSet.from sg).
Definition fpu_in_range (f : Fpu) : Prop :=
  length (fpu_f f) = 32%nat ∧ Forall is_word (fpu_f f).

Lemma saved_context_range c f : ctx_in_range c → fpu_in_range f → ctx_in_range (saved_context c f).
Proof.
  intros Hc [Hl Hw]. unfold saved_context. destruct (Ctx.fs c); try done.
  destruct Hc as (? & ? & _ & ? & ? & _ & _ & ?).
  unfold ctx_in_range, float_save, set_valid, Ctx.with_float. cbn.
  split_and!; try done; apply Z.mod_pos_bound; lia.
Qed.

Lemma saved_context_sp c f : Ctx.sp (saved_context c f) = Ctx.sp c.
Proof. unfold saved_context. by destruct (Ctx.fs c). Qed.

Lemma reg_range c i : ctx_in_range c → is_word (Ctx.reg c i).
Proof.
  intros (_ & _ & _ & Hr & _). unfold Ctx.reg. destruct (user_regs c !! i) as [x|] eqn:E; simpl.
  - eapply Forall_lookup_1 in Hr; done.
  - unfold is_word. lia.
Qed.

Lemma handler_context_regs c sg action :
  length (user_regs c) = 31%nat →
  let h := handler_context c sg action in
  sepc h = sa_handler action ∧ Ctx.sp h = Ctx.sp c - SIGNAL_CONTEXT_SIZE ∧
  Ctx.reg h 0 = sa_restorer action ∧ Ctx.a0 h = Sig.to_user sg ∧
  valid (user_float_ctx h) = false ∧
  ∀ i, i ∉ [0; 1; 9]%nat → Ctx.reg h i = Ctx.reg c i.
Proof.
  intros Hl h.
  assert (user_regs h = <[9%nat := Sig.to_user sg]> (<[0%nat := sa_restorer action]>
            (<[1%nat := Ctx.sp c - SIGNAL_CONTEXT_SIZE]> (user_regs c)))) as Hr
    by (unfold h, handler_context; by destruct (Ctx.fs c)).
  split_and!; try (unfold h, handler_context; by destruct (Ctx.fs c)).
  - change (Ctx.sp h) with (default 0 (user_regs h !! 1%nat)). rewrite Hr.
    rewrite list_lookup_insert_ne, list_lookup_insert_ne by done.
    by rewrite list_lookup_insert_eq by lia.
  - unfold Ctx.reg. rewrite Hr, list_lookup_insert_ne by done.
    rewrite list_lookup_insert_eq; [done|]. rewrite length_insert. lia.
  - change (Ctx.a0 h) with (default 0 (user_regs h !! 9%nat)). rewrite Hr.
    rewrite list_lookup_insert_eq; [done|]. rewrite !length_insert. lia.
  - intros i Hi. rewrite !elem_of_cons in Hi. unfold Ctx.reg. rewrite Hr.
    rewrite !list_lookup_insert_ne by (intros <-; tauto). done.
Qed.

(** The handler is set up and the interrupted state saved on the user stack. *)
Lemma deliver_ok (s : SigState U) sg action :
  let t := ss_thread s in
  let c := trap_context t in
  let fp := Ctx.sp c - SIGNAL_CONTEXT_SIZE in
  ctx_in_range c → SIGNAL_CONTEXT_SIZE < Ctx.sp c → um_ok (ss_user s) fp 656 →
  ∃ u, deliver sg action s =
      Done false (set_user u (set_thread (Th.with_ctx
        (Th.with_mask t (handler_mask (signal_mask t) sg action)) (handler_context c sg action)) s)) ∧
    um_ok u fp 656 ∧
    um_load u fp 656 =
      Ok (encode SignalContext_codec (mkSignalContext (signal_mask t) (saved_context c (ss_fpu s)))).
Proof.
  intros t c fp Hc Hsp Hok.
  assert (Hw : is_word (Ctx.sp c)) by by apply reg_range.
  destruct (um_ok_write (ss_user s) fp 656 Hok) as (u1 & Hcw & Hok1 & _).
  change (Z.of_nat 656) with SIGNAL_CONTEXT_SIZE in Hcw.
  set (frame := mkSignalContext (signal_mask t) (saved_context c (ss_fpu s))).
  destruct (um_ok_store u1 fp (encode SignalContext_codec frame)) as (u2 & Hst & Hok2 & Hld).
  { by rewrite length_encode. }
  rewrite length_encode in Hok2, Hld. exists u2. split_and!; [|done|done].
  assert (Hsub : ∀ c1, Ctx.sp c1 = Ctx.sp c →
            usub (E:=errno) 64 (Ctx.sp c1) SIGNAL_CONTEXT_SIZE = Ok fp).
  { intros c1 ->. unfold usub, fp, SIGNAL_CONTEXT_SIZE in *. apply checked_fits.
    unfold is_word in Hw. lia. }
  assert (Hnew : UserCheck_new fp = Some fp).
  { unfold UserCheck_new. rewrite (proj2 (Z.eqb_neq fp 0)); [done|]. unfold fp. lia. }
  unfold deliver, mbind, kst_bind, kget. fold t c.
  assert (Hfs : Ctx.fs (Ctx.with_float c (set_valid false (user_float_ctx c))) = Ctx.fs c) by done.
  rewrite Hfs.
  assert (Hmask : (if negb (Flags.contains (sa_flags action) SignalActionFlags.SA_NODEFER)
     then Flags.set (Flags.union (signal_mask t) (kmask action)) (KSignalSet.from sg) true
     else Flags.union (signal_mask t) (kmask action)) = handler_mask (signal_mask t) sg action).
  { unfold handler_mask. by destruct (Flags.contains _ _). }
  rewrite Hmask. unfold frame, saved_context, handler_context, klift, kmodify, ktry, kok_or,
    on_user, check_write, kcheck, store_user in *.
  destruct (Ctx.fs c); rewrite !Hsub by done; rewrite Hnew; unfold mret, kst_ret;
    cbn [ss_user set_user set_thread]; rewrite Hcw; cbn [ss_user set_user set_thread];
    rewrite Hst; done.
Qed.
End delivery_lemmas.

Section signal_properties.
Context {U : Type} `{UserMemory U}.

Definition deliverable (t : Thread) : Z :=
  Z.land (pending_signal t) (KSignalSet.complement (signal_mask t)).
Definition custom_handler (a : KSignalAction) : Prop :=
  sa_handler a ≠ SIG_ERR ∧ sa_handler a ≠ SIG_DFL ∧ sa_handler a ≠ SIG_IGN.

Lemma deliverable_testbit t sg :
  Z.testbit (deliverable t) (signal_num sg) =
    Z.testbit (pending_signal t) (signal_num sg) && negb (Z.testbit (signal_mask t) (signal_num sg)).
Proof.
  destruct (num_lt_31 sg) as [Hlt Hn]. unfold deliverable.
  by rewrite Z.land_spec, complement_testbit, Hlt, andb_true_r by done.
Qed.

(** [sys_rt_sigreturn] on an intact frame. *)
Lemma sigreturn_ok (s : SigState U) fp m c :
  Ctx.sp (trap_context (ss_thread s)) = fp → fp ≠ 0 → um_ok (ss_user s) fp 656 →
  is_word m → ctx_in_range c →
  um_load (ss_user s) fp 656 = Ok (encode SignalContext_codec (mkSignalContext m c)) →
  sys_rt_sigreturn s =
    Done (Ctx.a0 c) (set_thread (Th.with_ctx (Th.with_mask (ss_thread s) m) c) s).
Proof.
  intros Hsp Hfp Hok Hm Hc Hl. unfold sys_rt_sigreturn, mbind, kst_bind, kget. rewrite Hsp.
  unfold UserCheck_new. rewrite (proj2 (Z.eqb_neq fp 0) Hfp). cbn [kok_or mret kst_ret].
  unfold ktry, on_user, check_read, kcheck, load_user.
  pose proof (um_ok_read _ _ _ Hok) as Hr. change (Z.of_nat 656) with SIGNAL_CONTEXT_SIZE in Hr.
  unfold mret, kst_ret. cbn [size_of SignalContext_codec]. rewrite Hr. cbn [ss_user set_user].
  rewrite Hl. rewrite (decode_encode SignalContext_codec (mkSignalContext m c)); [|by split].
  cbn [old_mask old_trap_context]. unfold kmodify, set_thread, set_user. by destruct s.
Qed.

(** C23: entering and leaving a signal handler. Delivery starts
    the handler of the lowest deliverable signal with the signal number in [a0],
    the restorer as return address and a frame below the stack pointer, blocks
    the signals the action asks for (and the signal itself unless
    [SA_NODEFER]), and takes the signal off the pending set. When the handler
    returns through [rt_sigreturn] with its stack pointer at the intact frame,
    the signal mask and every integer register, the program counter and the
    status word of the interrupted program are as before. Of the floating-point
    registers only the context in memory is restored, to what the unit held at
    delivery if the program had changed it; the unit itself keeps what the handler
    left there ([sigreturn_keeps_fpu]). *)
Theorem signal_deliver_return (s : SigState U) sg :
  let t := ss_thread s in
  let c := trap_context t in
  let action := Handlers.action (ss_handlers s) sg in
  let fp := Ctx.sp c - SIGNAL_CONTEXT_SIZE in
  KSignalSet.first_pending (deliverable t) = Some sg → custom_handler action →
  ctx_in_range c → fpu_in_range (ss_fpu s) → is_word (signal_mask t) →
  SIGNAL_CONTEXT_SIZE < Ctx.sp c → um_ok (ss_user s) fp 656 →
  ∃ s1, check_signal s = Done false s1 ∧
    let t1 := ss_thread s1 in
    let c1 := trap_context t1 in
    sepc c1 = sa_handler action ∧ Ctx.sp c1 = fp ∧ Ctx.reg c1 0 = sa_restorer action ∧
    Ctx.a0 c1 = Sig.to_user sg ∧ (∀ i, i ∉ [0; 1; 9]%nat → Ctx.reg c1 i = Ctx.reg c i) ∧
    signal_mask t1 = handler_mask (signal_mask t) sg action ∧
    pending_signal t1 = Flags.difference (pending_signal t) (KSignalSet.from sg) ∧
    ∀ s2, Ctx.sp (trap_context (ss_thread s2)) = fp → um_ok (ss_user s2) fp 656 →
      um_load (ss_user s2) fp 656 = um_load (ss_user s1) fp 656 →
      ∃ s3, sys_rt_sigreturn s2 = Done (Ctx.a0 c) s3 ∧
        signal_mask (ss_thread s3) = signal_mask t ∧
        trap_context (ss_thread s3) = saved_context c (ss_fpu s) ∧
        (Ctx.fs c ≠ Dirty → trap_context (ss_thread s3) = c) ∧
        (∀ i, Ctx.reg (trap_context (ss_thread s3)) i = Ctx.reg c i) ∧
        sepc (trap_context (ss_thread s3)) = sepc c ∧ sstatus (trap_context (ss_thread s3)) = sstatus c ∧
        (Ctx.fs c = Dirty → user_fx (user_float_ctx (trap_context (ss_thread s3))) = fpu_f (ss_fpu s)) ∧
        ss_fpu s3 = ss_fpu s2.
Proof.
  intros t c action fp Hfp (He & Hd & Hi) Hc Hf Hm Hsp Hok.
  set (s0 := set_thread (Th.with_pending t
               (Flags.difference (pending_signal t) (KSignalSet.from sg))) s).
  destruct (deliver_ok s0 sg action Hc Hsp Hok) as (u & Hdel & Hok1 & Hl).
  assert (Hchk : check_signal s = deliver sg action s0).
  { unfold check_signal, mbind, kst_bind, kget. fold t. unfold deliverable in Hfp. rewrite Hfp.
    unfold kmodify. fold s0 action.
    rewrite (proj2 (Z.eqb_neq _ _) He), (proj2 (Z.eqb_neq _ _) Hd), (proj2 (Z.eqb_neq _ _) Hi). done. }
  rewrite Hchk, Hdel. eexists. split; [done|].
  destruct (handler_context_regs c sg action (proj1 Hc)) as (Hpc & Hs & Hra & Ha0 & _ & Hoth).
  split_and!; [done|done|done|done|done|done|done|].
  intros s2 Hsp2 Hok2 Hl2. pose proof (eq_trans Hl2 Hl) as Hl3.
  rewrite (sigreturn_ok s2 fp _ _ Hsp2 ltac:(unfold fp; lia) Hok2 Hm
             (saved_context_range c (ss_fpu s) Hc Hf) Hl3).
  assert (Ctx.a0 (saved_context c (ss_fpu s)) = Ctx.a0 c) as ->
    by (unfold saved_context; by destruct (Ctx.fs c)).
  eexists. split; [done|]. cbn [ss_thread ss_fpu set_thread Th.with_ctx trap_context].
  unfold saved_context. by destruct (Ctx.fs c) eqn:Efs.
Qed.

Lemma sig_exit_thread code (s s' : SigState U) u :
  sig_exit_process code s = Done u s' → ss_thread s' = ss_thread s.
Proof.
  unfold sig_exit_process, mbind, kst_bind, kget, klift, kmodify, exit_process.
  destruct (ss_status s =? ProcessStatus.normal); [|done]. simpl. by intros [= _ <-].
Qed.

Lemma deliver_pending sg action (s s' : SigState U) b :
  deliver sg action s = Done b s' → pending_signal (ss_thread s') = pending_signal (ss_thread s).
Proof.
  unfold deliver. intros Hd. apply kbind_Done in Hd as (s0 & s1 & [= <- <-] & Hd).
  destruct (match Ctx.fs _ with Dirty => _ | _ => _ end) as [old_c c1].
  apply kbind_Done in Hd as (nsp & s2 & Hn & Hd).
  assert (s2 = s) as -> by (unfold klift in Hn; destruct (usub _ _ _); by inversion Hn).
  apply kbind_Done in Hd as ([] & s3 & [= <-] & Hd).
  apply kbind_Done in Hd as (sp & s4 & Hn2 & Hd).
  apply kbind_Done in Hd as (r & s5 & Hr & Hd).
  assert (ss_thread s4 = ss_thread s5) as Ht5.
  { unfold ktry, kok_or, mbind, kst_bind, on_user in Hr. destruct (UserCheck_new sp); simpl in Hr.
    - destruct (check_write _ _ _); by inversion Hr.
    - by inversion Hr. }
  assert (pending_signal (ss_thread s5) = pending_signal (ss_thread s)) as <-.
  { rewrite <- Ht5. unfold klift in Hn2. destruct (usub _ _ _); by inversion Hn2. }
  destruct r as [p|e].
  - apply kbind_Done in Hd as ([] & s6 & Hst & [= <- <-]). unfold on_user in Hst.
    destruct (store_user _ _ _); by inversion Hst.
  - apply kbind_Done in Hd as ([] & s6 & He & [= <- <-]). by rewrite (sig_exit_thread _ _ _ _ He).
Qed.

(** Blocked signals stay pending. Checking for signals takes at most one
    signal off the pending set, and only one that is pending and not blocked;
    when every pending signal is blocked nothing happens at all. *)
Theorem check_signal_masked (s : SigState U) :
  let t := ss_thread s in
  ((∀ sg, Z.testbit (pending_signal t) (signal_num sg) = true →
          Z.testbit (signal_mask t) (signal_num sg) = true) →
     check_signal s = Done false s) ∧
  (∀ b s', check_signal s = Done b s' →
     pending_signal (ss_thread s') = pending_signal t ∨
     ∃ sg, Z.testbit (pending_signal t) (signal_num sg) = true ∧
           Z.testbit (signal_mask t) (signal_num sg) = false ∧
           ∀ n, 0 ≤ n → Z.testbit (pending_signal (ss_thread s')) n =
                  Z.testbit (pending_signal t) n && negb (signal_num sg =? n)).
Proof.
  intros t.
  assert (Hunf : check_signal s =
    match KSignalSet.first_pending (deliverable t) with
    | None => Done false s
    | Some sg =>
        let s0 := set_thread (Th.with_pending t
                    (Flags.difference (pending_signal t) (KSignalSet.from sg))) s in
        let action := Handlers.action (ss_handlers s) sg in
        (if sa_handler action =? SIG_ERR then kcrash
         else if sa_handler action =? SIG_DFL then
           match DefaultHandler_new sg with
           | Terminate | CoreDump => _ ← sig_exit_process (signal_exit_code sg); mret true
           | Ignore => mret false
           | Stop | Continue => kcrash
           end
         else if sa_handler action =? SIG_IGN then mret false
         else deliver sg action) s0
    end).
  { unfold check_signal, mbind, kst_bind, kget. fold t. unfold deliverable.
    by destruct (KSignalSet.first_pending _). }
  rewrite Hunf. clear Hunf. pose proof (first_pending_Some (deliverable t)) as Hsome.
  destruct (KSignalSet.first_pending (deliverable t)) as [sg|]; cycle 1.
  { split; [done|]. intros b s' [= _ <-]. by left. }
  destruct (Hsome sg eq_refl) as [Hb _]. rewrite deliverable_testbit in Hb.
  apply andb_true_iff in Hb as [Hp Hm%negb_true_iff]. split.
  { intros Hall. rewrite Hall in Hm by done. done. }
  intros b s' Hd. right. exists sg. split_and!; [done|done|].
  set (s0 := set_thread _ s) in *.
  assert (pending_signal (ss_thread s') = pending_signal (ss_thread s0)) as ->.
  { cbv zeta in Hd. destruct (_ =? SIG_ERR); [done|]. destruct (_ =? SIG_DFL).
    - destruct (DefaultHandler_new sg);
        try (by inversion Hd);
        apply kbind_Done in Hd as ([] & s2 & He & [= <- <-]);
        by rewrite (sig_exit_thread _ _ _ _ He).
    - destruct (_ =? SIG_IGN); [by inversion Hd|]. by eapply deliver_pending. }
  intros n Hn. change (pending_signal (ss_thread s0))
    with (Flags.difference (pending_signal t) (KSignalSet.from sg)).
  by rewrite difference_testbit, from_signal_testbit.
Qed.
End signal_properties.

Section syscalls.
Context {U : Type} `{UserMemory U}.

Definition new_mask (how : SigProcMaskHow) (old bits : Z) : Z :=
  match how with
  | Block => Flags.union old (KSignalSet.from_user bits)
  | Unblock => Flags.difference old (KSignalSet.from_user bits)
  | SetMask => KSignalSet.from_user bits
  end.

Lemma sigprocmask_unfold how new_set old_set set_size (s : SigState U) :
  set_size ≤ 8 →
  sys_rt_sigprocmask how new_set old_set set_size s =
    (_ ← match old_set with
         | Some p => on_user (write_user u64_codec p (KSignalSet.to_user (signal_mask (ss_thread s))))
         | None => mret ()
         end;
     how ← kok_or (how_from_user how) EINVAL;
     match new_set with
     | Some p =>
         bits ← on_user (read_user u64_codec p);
         s ← kget;
         _ ← kmodify (set_thread (Th.with_mask (ss_thread s)
                        (new_mask how (signal_mask (ss_thread s)) bits)));
         mret 0
     | None => mret 0
     end) s.
Proof.
  intros Hsz. unfold sys_rt_sigprocmask.
  change SIGSET_SIZE_BYTES with 8. rewrite (proj2 (Z.ltb_ge 8 set_size)) by lia.
  assert (Hnew : ∀ (h : SigProcMaskHow) s0,
    ((match new_set with
      | Some p =>
          bits ← on_user (read_user u64_codec p);
          s ← kget;
          kmodify (set_thread (Th.with_mask (ss_thread s)
            match h with
            | Block => Flags.union (signal_mask (ss_thread s)) (KSignalSet.from_user bits)
            | Unblock => Flags.difference (signal_mask (ss_thread s)) (KSignalSet.from_user bits)
            | SetMask => KSignalSet.from_user bits
            end))
      | None => mret ()
      end) ≫= λ _ : (), mret 0) s0 =
    match new_set with
     | Some p =>
         bits ← on_user (read_user u64_codec p);
         s ← kget;
         _ ← kmodify (set_thread (Th.with_mask (ss_thread s)
                        (new_mask h (signal_mask (ss_thread s)) bits)));
         mret 0
     | None => mret 0
     end s0).
  { intros h s0. destruct new_set as [p|]; [|done]. unfold mbind, kst_bind.
    by destruct (on_user _ s0). }
  destruct old_set as [p|]; unfold mbind, kst_bind; cbn [kget].
  - destruct (on_user _ s) as [[] s1|e s1|]; [|done..]. unfold kok_or.
    destruct (how_from_user how); [|done]. apply Hnew.
  - unfold kok_or. destruct (how_from_user how); [|done]. apply Hnew.
Qed.

(** [rt_sigprocmask]. A set larger than the kernel's is refused. Otherwise
    the old mask goes to the user first, in the user's numbering; a bad [how] is
    reported only after that. Then each signal's bit of the new mask is what
    [how] says of the old bit and of the bit the user gave: added, removed or
    taken over. Signals the kernel does not have never enter the mask. *)
Theorem sigprocmask_spec how new_set old_set set_size (s : SigState U) u bits :
  let t := ss_thread s in
  (set_size > 8 → sys_rt_sigprocmask how new_set old_set set_size s = Fail EINVAL s) ∧
  (set_size ≤ 8 →
   match old_set with
   | Some p => write_user u64_codec p (KSignalSet.to_user (signal_mask t)) (ss_user s) = Done () u
   | None => u = ss_user s
   end →
   match new_set with Some p => read_user u64_codec p u = Done bits u | None => True end →
   match how_from_user how with
   | None => sys_rt_sigprocmask how new_set old_set set_size s = Fail EINVAL (set_user u s)
   | Some h => ∃ m',
       sys_rt_sigprocmask how new_set old_set set_size s
         = Done 0 (set_thread (Th.with_mask t m') (set_user u s)) ∧
       match new_set with
       | None => m' = signal_mask t
       | Some _ =>
           (∀ sg, let old := Z.testbit (signal_mask t) (signal_num sg) in
                  let given := Z.testbit bits (Sig.to_user sg) in
                  Z.testbit m' (signal_num sg) =
                    match h with Block => old || given | Unblock => old && negb given
                               | SetMask => given end) ∧
           (0 ≤ signal_mask t ≤ KSignalSet.mask → 0 ≤ m' ≤ KSignalSet.mask)
       end
   end).
Proof.
  intros t. split.
  { intros Hsz. unfold sys_rt_sigprocmask.
    change SIGSET_SIZE_BYTES with 8. rewrite (proj2 (Z.ltb_lt 8 set_size)); [done|lia]. }
  intros Hsz Hold Hnew. rewrite sigprocmask_unfold by done. fold t.
  assert (Hpre : match old_set with
     | Some p => on_user (write_user u64_codec p (KSignalSet.to_user (signal_mask t)))
     | None => mret ()
     end s = Done () (set_user u s)).
  { destruct old_set as [p|]; [unfold on_user; by rewrite Hold|].
    rewrite Hold. by destruct s. }
  unfold mbind, kst_bind. rewrite Hpre. unfold kok_or.
  destruct (how_from_user how) as [h|]; [|done].
  destruct new_set as [p|]; [|exists (signal_mask t); split; [unfold t; by destruct s as [[] ? ? ? ?]|done]].
  cbn [mret kst_ret]. unfold on_user. change (ss_user (set_user u s)) with u. rewrite Hnew.
  exists (new_mask h (signal_mask t) bits). split; [done|]. split.
  - intros sg. destruct (num_lt_31 sg) as [Hlt Hn].
    destruct h; unfold new_mask, Flags.union;
      rewrite ?Z.lor_spec, ?difference_testbit, from_user_testbit, Hlt, andb_true_r by done; done.
  - intros Hr. assert (Hfu : 0 ≤ KSignalSet.from_user bits < 2 ^ 31).
    { unfold KSignalSet.from_user, Flags.from_bits_truncate. change KSignalSet.mask with (Z.ones 31).
      rewrite Z.land_ones by lia. apply Z.mod_pos_bound. lia. }
    assert (Hm : 0 ≤ new_mask h (signal_mask t) bits < 2 ^ 31); [|unfold KSignalSet.mask; lia].
    unfold KSignalSet.mask in Hr. apply below_pow2; [lia| |].
    + destruct h; unfold new_mask, Flags.union, Flags.difference;
        [apply Z.lor_nonneg|apply Z.land_nonneg; left|]; lia.
    + intros n Hn. destruct h; unfold new_mask, Flags.union, Flags.difference;
        rewrite ?Z.lor_spec, ?Z.land_spec, ?(testbit_high (KSignalSet.from_user bits) 31),
          ?(testbit_high (signal_mask t) 31) by lia; done.
Qed.

(** [rt_sigaction] installs the action it reads and reports the one that was
    there; the actions of other signals are untouched. [SIGKILL], [SIGSTOP] and
    numbers that are no signal are refused with nothing changed. *)
Theorem sigaction_spec signum new_act old_act (s : SigState U) :
  let sys := sys_rt_sigaction signum new_act old_act s in
  length (ss_handlers s) = 64%nat →
  match Sig.from_user (wrap 8 signum) with
  | None => sys = Fail EINVAL s
  | Some sg =>
      if bool_decide (sg = SIGKILL ∨ sg = SIGSTOP) then sys = Fail EINVAL s
      else ∀ u act,
        match old_act with
        | Some p => write_user KSignalAction_codec p (Handlers.action (ss_handlers s) sg) (ss_user s)
                      = Done () u
        | None => u = ss_user s
        end →
        match new_act with
        | Some p => read_user KSignalAction_codec p u = Done act u ∧
                    Flags.contains (sa_flags act) SignalActionFlags.SA_RESTORER = true
        | None => act = Handlers.action (ss_handlers s) sg
        end →
        ∃ h, sys = Done 0 (set_handlers h (set_user u s)) ∧ length h = 64%nat ∧
          Handlers.action h sg = act ∧
          ∀ sg', sg' ≠ sg → Handlers.action h sg' = Handlers.action (ss_handlers s) sg'
  end.
Proof.
  intros sys Hlen. unfold sys, sys_rt_sigaction.
  destruct (Sig.from_user (wrap 8 signum)) as [sg|]; [|done]. cbn [kok_or].
  rewrite (kbind_run _ _ s sg s) by done. rewrite bool_decide_or.
  destruct (bool_decide (sg = SIGKILL) || bool_decide (sg = SIGSTOP)); [done|].
  intros u act Hold Hnew. rewrite (kbind_run _ _ s () (set_user u s)); cycle 1.
  { destruct old_act as [p|]; [|rewrite Hold; by destruct s].
    rewrite (kbind_run _ _ s s s) by done. unfold on_user. by rewrite Hold. }
  destruct new_act as [p|].
  - destruct Hnew as [Hr Hf].
    exists (Handlers.set_action (ss_handlers s) sg act). split_and!.
    + unfold mbind, kst_bind, on_user, kassert. change (ss_user (set_user u s)) with u.
      by rewrite Hr, Hf.
    + unfold Handlers.set_action. by rewrite length_insert.
    + unfold Handlers.action, Handlers.set_action. rewrite list_lookup_insert_eq; [done|].
      destruct (num_lt_31 sg) as [?%Z.ltb_lt ?]. lia.
    + intros sg' Hne. unfold Handlers.action, Handlers.set_action.
      rewrite list_lookup_insert_ne; [done|]. intros He. apply Hne, signal_num_inj.
      pose proof (num_lt_31 sg). pose proof (num_lt_31 sg'). lia.
  - exists (ss_handlers s). split_and!; [by destruct s|done|done|done].
Qed.
End syscalls.

(** ** Examples *)
Definition demo_action : KSignalAction := mkKSignalAction 0x4000 0x04000000 0x5000 0.
Definition demo_ctx : TrapContext :=
  Ctx.set_a0 (app_init_context 7 0x8000000200006000 0x10000 0x2000) 42.
Definition demo_sig : SigState Flat.t :=
  mkSig (Th.with_pending (Th.new 0 demo_ctx 0) 0x12)
    (Handlers.set_action Handlers.new SIGINT demo_action) 0 (mkFpu (replicate 32 0) 0)
    (Flat.mk 0x1000 (replicate 4096 0)).

Lemma demo_ctx_range : ctx_in_range demo_ctx.
Proof.
  unfold ctx_in_range. split_and!; [done|done|done| | | |done|done|];
    apply (bool_decide_unpack _); vm_compute; reflexivity.
Qed.

Lemma demo_fpu_range : fpu_in_range (mkFpu (replicate 32 0) 0).
Proof. split; [done|]. apply (bool_decide_unpack _). vm_compute. reflexivity. Qed.

(** [SIGINT] and [SIGTRAP] are pending; the handler of [SIGINT] runs first. *)
Lemma signal_deliver_return_witness :
  ∃ s1, check_signal demo_sig = Done false s1 ∧ sepc (trap_context (ss_thread s1)) = 0x4000 ∧
    Ctx.a0 (trap_context (ss_thread s1)) = 2 ∧
    ∃ s3, sys_rt_sigreturn s1 = Done 42 s3 ∧ trap_context (ss_thread s3) = demo_ctx.
Proof.
  assert (Hok : um_ok (ss_user demo_sig)
                  (Ctx.sp (trap_context (ss_thread demo_sig)) - SIGNAL_CONTEXT_SIZE) 656)
    by (vm_compute; reflexivity).
  destruct (signal_deliver_return demo_sig SIGINT) as (s1 & Hc & Hpc & Hsp & _ & Ha0 & _ & _ & _ & Hret).
  - vm_compute. reflexivity.
  - vm_compute. repeat split; congruence.
  - exact demo_ctx_range.
  - exact demo_fpu_range.
  - vm_compute. split; congruence.
  - vm_compute. reflexivity.
  - exact Hok.
  - exists s1. split; [exact Hc|]. split; [exact Hpc|]. split; [exact Ha0|].
    destruct (Hret s1 Hsp) as (s3 & Hr & _ & _ & Hctx & _).
    + assert (Hs : match check_signal demo_sig with
                   | Done _ s => Flat.inside (ss_user s) (0x2000 - 656) 656 | _ => false end = true)
        by (vm_compute; reflexivity).
      rewrite Hc in Hs. exact Hs.
    + reflexivity.
    + exists s3. split; [exact Hr|]. apply Hctx. vm_compute. congruence.
Defined.

(** A program whose floating-point registers are dirty is interrupted by a handler
    that writes 9 to them: after [rt_sigreturn] the unit still holds the handler's
    values, and since the status word says dirty again, the next switch saves
    them over the program's. *)
Definition float_sig : SigState Flat.t :=
  mkSig (Th.with_pending (Th.new 0 (set_fs demo_ctx Dirty) 0) 2)
    (Handlers.set_action Handlers.new SIGINT demo_action) 0 (mkFpu (replicate 32 7) 0)
    (Flat.mk 0x1000 (replicate 4096 0)).
Definition handler_floats (s : SigState Flat.t) : SigState Flat.t :=
  mkSig (ss_thread s) (ss_handlers s) (ss_status s) (mkFpu (replicate 32 9) 0) (ss_user s).
Lemma sigreturn_keeps_fpu :
  match check_signal float_sig with
  | Done _ s1 =>
      match sys_rt_sigreturn (handler_floats s1) with
      | Done _ s3 => bool_decide (fpu_f (ss_fpu s3) = replicate 32 9) &&
                     bool_decide (Ctx.fs (trap_context (ss_thread s3)) = Dirty)
      | _ => false
      end
  | _ => false
  end = true.
Proof. by vm_compute. Qed.

Definition demo_mask_state : SigState Flat.t :=
  mkSig (Th.new 0 demo_ctx 6) Handlers.new 0 (mkFpu (replicate 32 0) 0)
    (Flat.mk 0x1000 (to_le_bytes 8 0x14)).

(** The user set [0x14] names signals 2 and 4; signal 2 leaves the mask. *)
Lemma sigprocmask_witness :
  ∃ m', sys_rt_sigprocmask 1 (Some 0x1000) None 8 demo_mask_state
          = Done 0 (set_thread (Th.with_mask (Th.new 0 demo_ctx 6) m')
                      (set_user (ss_user demo_mask_state) demo_mask_state)) ∧
        Z.testbit m' (signal_num SIGINT) = false ∧ Z.testbit m' (signal_num SIGQUIT) = true.
Proof.
  destruct (sigprocmask_spec 1 (Some 0x1000) None 8 demo_mask_state (ss_user demo_mask_state) 0x14)
    as [_ Hs].
  destruct Hs as (m' & Hr & Hb & _); [lia|reflexivity|vm_compute; reflexivity|].
  exists m'. split; [exact Hr|]. split; [apply (Hb SIGINT)|apply (Hb SIGQUIT)].
Defined.

Definition demo_act_state : SigState Flat.t :=
  mkSig (Th.new 0 demo_ctx 0) Handlers.new 0 (mkFpu (replicate 32 0) 0)
    (Flat.mk 0x1000 (enc_action demo_action)).

Lemma sigaction_witness :
  ∃ h, sys_rt_sigaction 15 (Some 0x1000) None demo_act_state
         = Done 0 (set_handlers h (set_user (ss_user demo_act_state) demo_act_state)) ∧
       Handlers.action h SIGTERM = demo_action ∧
       Handlers.action h SIGINT = KSignalAction_new.
Proof.
  pose proof (sigaction_spec 15 (Some 0x1000) None demo_act_state ltac:(vm_compute; reflexivity)) as Hs.
  cbv beta zeta in Hs. change (Sig.from_user (wrap 8 15)) with (Some SIGTERM) in Hs.
  cbv beta iota in Hs. rewrite bool_decide_eq_false_2 in Hs by (intros [?|?]; discriminate).
  destruct (Hs (ss_user demo_act_state) demo_action) as (h & Hr & _ & Ha & Ho);
    [reflexivity|split; vm_compute; reflexivity|].
  exists h. split; [exact Hr|]. split; [exact Ha|]. rewrite Ho by discriminate. reflexivity.
Defined.

(** ** Observations *)

(** A set with [SIGINT] in the layout of the C library, bit [n - 1] for signal
    [n], is read as [SIGHUP]. *)
Lemma user_set_shifted :
  KSignalSet.from_user (2 ^ (signum_of SIGINT - 1)) = KSignalSet.from SIGHUP.
Proof. done. Qed.

(** Every signal, [SIGKILL] included, can be blocked. *)
Lemma sigkill_can_be_blocked :
  match sys_rt_sigprocmask 2 (Some 0x1000) None 8
          (set_user (Flat.mk 0x1000 (to_le_bytes 8 0x200)) demo_mask_state) with
  | Done 0 s => Flags.contains (signal_mask (ss_thread s)) (KSignalSet.from SIGKILL)
  | _ => false
  end = true.
Proof. vm_compute. reflexivity. Qed.

(** The signal number is truncated to a byte: [258] names [SIGINT]. *)
Lemma sigaction_truncates :
  match sys_rt_sigaction 258 (Some 0x1000) None demo_act_state with
  | Done 0 s => sa_handler (Handlers.action (ss_handlers s) SIGINT)
  | _ => 0
  end = 0x4000.
Proof. vm_compute. reflexivity. Qed.

(** The exit status of a process killed by signal [n] is [127 + n]. *)
Lemma killed_exit_code sg : wrap 8 (signal_exit_code sg) = 127 + signum_of sg.
Proof. by destruct sg. Qed.

(** A stack pointer below the size of the frame: the subtraction overflows. *)
Lemma small_stack_crashes :
  kcrashes (check_signal
    (set_thread (Th.with_pending (Th.new 0 (Ctx.set_sp demo_ctx 0x100) 0) 2) demo_sig)) = true.
Proof. vm_compute. reflexivity. Qed.

(** [rt_sigreturn] takes the whole trap context from the user's stack: a program
    can return with [sstatus.SPP] set, i.e. to supervisor mode. *)
Lemma sigreturn_sets_spp :
  let forged := Ctx.with_sstatus demo_ctx 0x100 in
  let u := Flat.mk 0x2000 (enc_frame (mkSignalContext 0 forged)) in
  Z.testbit (sstatus demo_ctx) 8 = false ∧
  match sys_rt_sigreturn (set_user u demo_mask_state) with
  | Done _ s => Z.testbit (sstatus (trap_context (ss_thread s))) 8
  | _ => false
  end = true.
Proof. split; vm_compute; reflexivity. Qed.
