(* ===== verification/FdTable.v ===== *)
(** * File descriptors

    [FdTable] and [FileDescriptor] of [fs/file.rs], and the system calls of
    [kernel/src/syscall/fs.rs] that act on the table alone: [close], [dup],
    [dup3], [fcntl], and [prepare_io], which every read and write goes through.
    The table does not look into the files it holds, so the file is a
    parameter. *)
From S2P Require Import Prelude BTree Address Defines Kst.

Record FileDescriptor (F : Type) : Type := mkFd { fd_file : F; fd_flags : Z }.
Arguments mkFd {F}.
Arguments fd_file {F}.
Arguments fd_flags {F}.

Record FdTable (F : Type) : Type := mkTable {
  files : gmap Z (FileDescriptor F);
  rlimit : RLimit;
}.
Arguments mkTable {F}.
Arguments files {F}.
Arguments rlimit {F}.

Section fd.
Context {F : Type}.
Implicit Types (t : FdTable F) (desc : FileDescriptor F).

(** ** [FileDescriptor] *)
Definition readable {E} desc : outcome E bool :=
  let? (r, _) := OpenFlags.read_write (fd_flags desc) in Ok r.
Definition writable {E} desc : outcome E bool :=
  let? (_, w) := OpenFlags.read_write (fd_flags desc) in Ok w.
Definition set_close_on_exec desc (b : bool) : FileDescriptor F :=
  mkFd (fd_file desc) (Flags.set (fd_flags desc) OpenFlags.CLOEXEC b).

(** ** [FdTable] *)
Definition with_files t (m : gmap Z (FileDescriptor F)) : FdTable F := mkTable m (rlimit t).
Definition limit t : Z := rlim_curr (rlimit t).
Definition fd_get t (fd : Z) : option (FileDescriptor F) := files t !! fd.
Definition fd_insert t (fd : Z) desc : FdTable F := with_files t (<[fd := desc]> (files t)).
Definition fd_remove t (fd : Z) : option (FileDescriptor F) * FdTable F :=
  (files t !! fd, with_files t (delete fd (files t))).

(** [with_stdio], for the file of [/dev/tty]. *)
Definition with_stdio (tty : F) : FdTable F :=
  mkTable (<[0 := mkFd tty OpenFlags.RDONLY]>
             (<[1 := mkFd tty OpenFlags.WRONLY]> (<[2 := mkFd tty OpenFlags.WRONLY]> ∅)))
    (mkRLimit MAX_FD_NUM RLIM_INFINITY).

(** The [for] loop of [add_from]. *)
Fixpoint free_from_loop {E} (new_fd : Z) (l : list (Z * FileDescriptor F)) : outcome E Z :=
  match l with
  | [] => Ok new_fd
  | (existed_fd, _) :: l =>
      if new_fd =? existed_fd then let? n := uadd 64 new_fd 1 in free_from_loop n l
      else Ok new_fd
  end.

Definition add_from {E} t desc (from : Z) : outcome E (option (Z * FdTable F)) :=
  if limit t <=? Z.of_nat (size (files t)) then Ok None
  else
    let? new_fd := free_from_loop from (btree_from (files t) from) in
    Ok (Some (new_fd, fd_insert t new_fd desc)).
Definition fd_add {E} t desc : outcome E (option (Z * FdTable F)) := add_from t desc 0.

(** [add_many]: the loop over the keys, then the [while] loop; [n] is the number
    of descriptors still to place. *)
Fixpoint add_many_keys (new_fd : Z) (n : nat) (keys : list Z) : list Z * nat * Z :=
  match keys with
  | [] => ([], n, new_fd)
  | existed_fd :: keys =>
      if negb (new_fd =? existed_fd) then
        match n with
        | O => ([], O, new_fd)
        | S n =>
            let '(ret, n, next) := add_many_keys (new_fd + 1) n keys in
            (new_fd :: ret, n, next)
        end
      else add_many_keys (new_fd + 1) n keys
  end.
Definition add_many t (descs : list (FileDescriptor F)) : option (list Z * FdTable F) :=
  if limit t <? Z.of_nat (size (files t) + length descs) then None
  else
    let '(ret, n, next) := add_many_keys 0 (length descs) (btree_keys (files t)) in
    let ret := ret ++ ((λ i, next + Z.of_nat i) <$> seq 0 n) in
    Some (ret, foldl (λ t '(fd, desc), fd_insert t fd desc) t (zip ret descs)).

(** [retain] of the descriptors without [CLOEXEC]. *)
Definition close_on_exec t : FdTable F :=
  with_files t (filter (λ e, Flags.contains (fd_flags e.2) OpenFlags.CLOEXEC = false) (files t)).

(** ** System calls *)
Definition sys_close (fd : Z) : kst (FdTable F) Z :=
  t ← kget;
  let '(o, t) := fd_remove t fd in
  _ ← kput t;
  match o with None => kfail EBADF | Some _ => mret 0 end.

Definition add_or (e : errno) (r : KResult (option (Z * FdTable F))) : kst (FdTable F) Z :=
  o ← klift r;
  '(new_fd, t) ← kok_or o e;
  _ ← kput t;
  mret new_fd.

Definition sys_dup (old_fd : Z) : kst (FdTable F) Z :=
  t ← kget;
  match fd_get t old_fd with
  | None => kfail EBADF
  | Some new_desc => add_or EMFILE (fd_add t new_desc)
  end.

Definition sys_dup3 (old_fd new_fd flags : Z) : kst (FdTable F) Z :=
  flags ← kunwrap (OpenFlags.from_bits flags);
  t ← kget;
  match fd_get t old_fd with
  | None => kfail EBADF
  | Some desc =>
      if old_fd =? new_fd then kfail EINVAL
      else
        let new_desc := set_close_on_exec desc (Flags.contains flags OpenFlags.CLOEXEC) in
        _ ← kput (fd_insert t new_fd new_desc);
        mret new_fd
  end.

Definition F_DUPFD : Z := 0.
Definition F_GETFD : Z := 1.
Definition F_SETFD : Z := 2.
Definition F_GETFL : Z := 3.
Definition F_DUPFD_CLOEXEC : Z := 1030.

Definition sys_fcntl64 (fd cmd arg : Z) : kst (FdTable F) Z :=
  t ← kget;
  if (cmd =? F_DUPFD) || (cmd =? F_DUPFD_CLOEXEC) then
    desc ← kok_or (fd_get t fd) EBADF;
    let desc := if cmd =? F_DUPFD_CLOEXEC then set_close_on_exec desc true else desc in
    add_or EMFILE (add_from t desc arg)
  else if cmd =? F_GETFD then
    desc ← kok_or (fd_get t fd) EBADF;
    mret (if Flags.contains (fd_flags desc) OpenFlags.CLOEXEC then 1 else 0)
  else if cmd =? F_SETFD then
    desc ← kok_or (fd_get t fd) EBADF;
    _ ← kput (fd_insert t fd (set_close_on_exec desc (negb (Z.land arg 1 =? 0))));
    mret 0
  else if cmd =? F_GETFL then
    desc ← kok_or (fd_get t fd) EBADF;
    mret (fd_flags desc)
  else kfail EINVAL.

(** [prepare_io::<READ>] *)
Definition prepare_io (read : bool) (fd : Z) : kst (FdTable F) (FileDescriptor F) :=
  t ← kget;
  file ← kok_or (fd_get t fd) EBADF;
  ok ← klift (if read then readable file else writable file);
  if (ok : bool) then mret file else kfail EBADF.
End fd.

(** ** Lemmas *)
Section lemmas.
Context {F : Type}.
Implicit Types (t : FdTable F) (desc : FileDescriptor F).

(** Descriptors are [usize] keys. *)
Definition table_inv t : Prop := ∀ fd, is_Some (files t !! fd) → 0 ≤ fd < 2 ^ 64.
(** The lowest unused descriptor at or above [from]. *)
Definition lowest_free t (from fd : Z) : Prop :=
  from ≤ fd ∧ files t !! fd = None ∧ ∀ k, from ≤ k < fd → is_Some (files t !! k).

Lemma free_from_loop_spec (l : list (Z * FileDescriptor F)) : ∀ n,
  StronglySorted entry_le l → NoDup l.*1 → (∀ e, e ∈ l → n ≤ e.1) →
  n + Z.of_nat (length l) < 2 ^ 64 → 0 ≤ n →
  ∃ r, free_from_loop (E:=errno) n l = Ok r ∧ n ≤ r ≤ n + Z.of_nat (length l) ∧ r ∉ l.*1 ∧
       ∀ k, n ≤ k < r → k ∈ l.*1.
Proof.
  induction l as [|[k0 d] l IH]; intros n Hs Hnd Hge Hb Hn; simpl.
  { exists n. split_and!; [done|lia|lia|apply not_elem_of_nil|lia]. }
  destruct (sorted_entries_cons _ _ Hs Hnd) as (Hlt & Hs' & Hnd'). simpl in *.
  destruct (Z.eqb_spec n k0) as [->|Hne].
  - unfold uadd. rewrite checked_fits by lia. simpl.
    destruct (IH (k0 + 1)) as (r & -> & Hr & Hnin & Hall); [done|done| |lia|lia|].
    { intros e He. specialize (Hlt e He). lia. }
    exists r. split_and!; [done|lia|lia| |].
    + rewrite elem_of_cons. intros [->|?]; [lia|done].
    + intros k Hk. rewrite elem_of_cons. destruct (decide (k = k0)); [by left|right].
      apply Hall. lia.
  - exists n. split_and!; [done|lia|lia| |lia]. rewrite elem_of_cons. intros [->|Hin]; [done|].
    apply list_elem_of_fmap in Hin as ([k d'] & Hnk & Hin). specialize (Hlt _ Hin).
    assert (n ≤ k0); [|simpl in *; lia]. apply (Hge (k0, d)). apply elem_of_cons. by left.
Qed.

Lemma length_btree_from (m : gmap Z (FileDescriptor F)) k : (length (btree_from m k) ≤ size m)%nat.
Proof.
  unfold btree_from. rewrite <- length_btree_iter. apply length_filter.
Qed.

(** [add_from] in terms of lookups. *)
Lemma add_from_ok t desc from :
  0 ≤ from → from + Z.of_nat (size (files t)) < 2 ^ 64 →
  if decide (limit t ≤ Z.of_nat (size (files t)))
  then add_from (E:=errno) t desc from = Ok None
  else ∃ fd, add_from (E:=errno) t desc from = Ok (Some (fd, fd_insert t fd desc)) ∧
             lowest_free t from fd.
Proof.
  intros Hf Hb. unfold add_from. case_decide as Hl.
  { by rewrite (proj2 (Z.leb_le _ _)). }
  rewrite (proj2 (Z.leb_gt _ _)) by lia.
  pose proof (length_btree_from (files t) from).
  destruct (free_from_loop_spec (btree_from (files t) from) from) as (r & -> & Hr & Hnin & Hall).
  - apply sorted_filter, btree_iter_sorted.
  - apply btree_from_nodup.
  - intros [k d] (_ & Hk)%elem_of_btree_from. done.
  - lia.
  - done.
  - simpl. exists r. split; [done|]. split_and!; [lia| |].
    + destruct (files t !! r) as [d|] eqn:E; [|done]. destruct Hnin.
      apply list_elem_of_fmap. exists (r, d). split; [done|]. apply elem_of_btree_from.
      split; [done|]. unfold key_le. simpl. lia.
    + intros k Hk. pose proof (Hall k ltac:(lia)) as Hin.
      apply list_elem_of_fmap in Hin as ([k' d] & -> & Hin).
      apply elem_of_btree_from in Hin as [Hk' _]. by eexists.
Qed.
End lemmas.

(** ** Properties *)
Section properties.
Context {F : Type}.
Implicit Types (t : FdTable F) (desc : FileDescriptor F).

(** What a successful duplication does: the lowest descriptor that is free from
    [from] on gets the description, everything else stays. *)
Definition duplicated t from desc (r : kres (FdTable F) Z) : Prop :=
  ∃ fd t', r = Done fd t' ∧ lowest_free t from fd ∧ rlimit t' = rlimit t ∧
    fd_get t' fd = Some desc ∧ ∀ k, k ≠ fd → fd_get t' k = fd_get t k.

Lemma add_or_ok t desc from :
  0 ≤ from → from + Z.of_nat (size (files t)) < 2 ^ 64 →
  (limit t ≤ Z.of_nat (size (files t)) → add_or EMFILE (add_from t desc from) t = Fail EMFILE t) ∧
  (Z.of_nat (size (files t)) < limit t → duplicated t from desc (add_or EMFILE (add_from t desc from) t)).
Proof.
  intros Hf Hb. pose proof (add_from_ok t desc from Hf Hb) as Ha. split; intros Hl.
  - rewrite decide_True in Ha by done. unfold add_or, mbind, kst_bind, klift. by rewrite Ha.
  - rewrite decide_False in Ha by lia. destruct Ha as (fd & Ha & Hlow).
    unfold add_or, mbind, kst_bind, klift. rewrite Ha. exists fd, (fd_insert t fd desc).
    split_and!; [done|done|done| |].
    + unfold fd_get, fd_insert. simpl. apply lookup_insert_eq.
    + intros k Hk. unfold fd_get, fd_insert. simpl. by rewrite lookup_insert_ne.
Qed.

(** Duplicating a descriptor. [dup] and [fcntl(F_DUPFD)] refuse a descriptor
    that is not open ([EBADF]) and a full table ([EMFILE]) without changing the
    table; otherwise they return the lowest free descriptor (at or above the
    argument for [fcntl]), which then refers to the same file with the same
    flags, and no other descriptor changes. [dup3] makes its target refer to the
    file, with [CLOEXEC] as asked, whatever it referred to before. *)
Theorem dup_spec t old_fd from new_fd :
  0 ≤ from → from + Z.of_nat (size (files t)) < 2 ^ 64 →
  (fd_get t old_fd = None →
     sys_dup old_fd t = Fail EBADF t ∧ sys_fcntl64 old_fd F_DUPFD from t = Fail EBADF t ∧
     sys_dup3 old_fd new_fd 0 t = Fail EBADF t) ∧
  ∀ desc, fd_get t old_fd = Some desc →
    (limit t ≤ Z.of_nat (size (files t)) →
       sys_dup old_fd t = Fail EMFILE t ∧ sys_fcntl64 old_fd F_DUPFD from t = Fail EMFILE t) ∧
    (Z.of_nat (size (files t)) < limit t →
       duplicated t 0 desc (sys_dup old_fd t) ∧
       duplicated t from desc (sys_fcntl64 old_fd F_DUPFD from t)) ∧
    (old_fd = new_fd → sys_dup3 old_fd new_fd 0 t = Fail EINVAL t) ∧
    (old_fd ≠ new_fd → ∀ cloexec : bool, ∃ t',
       sys_dup3 old_fd new_fd (if cloexec then OpenFlags.CLOEXEC else 0) t = Done new_fd t' ∧
       fd_get t' new_fd = Some (set_close_on_exec desc cloexec) ∧
       ∀ k, k ≠ new_fd → fd_get t' k = fd_get t k).
Proof.
  intros Hf Hb.
  assert (Hdup : ∀ d, fd_get t old_fd = Some d →
            sys_dup old_fd t = add_or EMFILE (add_from t d 0) t).
  { intros d Hd. unfold sys_dup, mbind, kst_bind, kget. by rewrite Hd. }
  assert (Hfc : ∀ d, fd_get t old_fd = Some d →
            sys_fcntl64 old_fd F_DUPFD from t = add_or EMFILE (add_from t d from) t).
  { intros d Hd. unfold sys_fcntl64, mbind, kst_bind, kget. cbn. by rewrite Hd. }
  assert (Hd3 : ∀ cloexec : bool,
    sys_dup3 old_fd new_fd (if cloexec then OpenFlags.CLOEXEC else 0) t =
      match fd_get t old_fd with
      | None => Fail EBADF t
      | Some desc =>
          if old_fd =? new_fd then Fail EINVAL t
          else Done new_fd (fd_insert t new_fd (set_close_on_exec desc cloexec))
      end).
  { intros cloexec. unfold sys_dup3, mbind, kst_bind, kget, kunwrap.
    assert (OpenFlags.from_bits (if cloexec then OpenFlags.CLOEXEC else 0)
            = Some (if cloexec then OpenFlags.CLOEXEC else 0)) as -> by by destruct cloexec.
    unfold mret, kst_ret. destruct (fd_get t old_fd); [|done].
    destruct (old_fd =? new_fd); [done|]. by destruct cloexec. }
  split.
  { intros Hn. rewrite (Hd3 false), Hn. split_and!; [| |done];
      [unfold sys_dup|unfold sys_fcntl64]; unfold mbind, kst_bind, kget; cbn; by rewrite Hn. }
  intros desc Hd. rewrite (Hdup desc Hd), (Hfc desc Hd).
  destruct (add_or_ok t desc 0) as [H1 H2]; [lia|lia|].
  destruct (add_or_ok t desc from) as [H3 H4]; [lia|lia|]. split_and!; [auto|auto| |].
  - intros ->. rewrite (Hd3 false), Hd. by rewrite Z.eqb_refl.
  - intros Hne cloexec. exists (fd_insert t new_fd (set_close_on_exec desc cloexec)). split_and!.
    + by rewrite Hd3, Hd, (proj2 (Z.eqb_neq _ _) Hne).
    + unfold fd_get, fd_insert. simpl. apply lookup_insert_eq.
    + intros k Hk. unfold fd_get, fd_insert. simpl. by rewrite lookup_insert_ne.
Qed.

Lemma set_cloexec_testbit (fl : Z) (b : bool) n :
  0 ≤ n → Z.testbit (Flags.set fl OpenFlags.CLOEXEC b) n = if n =? 19 then b else Z.testbit fl n.
Proof.
  intros Hn. unfold Flags.set, Flags.union, Flags.difference.
  change OpenFlags.CLOEXEC with (2 ^ 19).
  destruct b; bit_rewrite; rewrite Z.pow2_bits_eqb, (Z.eqb_sym 19) by lia;
    destruct (n =? 19); simpl; by rewrite ?orb_true_r, ?orb_false_r, ?andb_false_r, ?andb_true_r.
Qed.

(** The close-on-exec flag. [F_SETFD] sets it from the low bit of its
    argument, [F_GETFD] reads it back, and the other flags of the descriptor and
    the other descriptors do not change; [exec] then closes exactly the
    descriptors that have the flag. *)
Theorem cloexec_spec t fd arg desc :
  fd_get t fd = Some desc → 
  ∃ t', sys_fcntl64 fd F_SETFD arg t = Done 0 t' ∧
    sys_fcntl64 fd F_GETFD 0 t' = Done (arg mod 2) t' ∧
    (∀ n, 0 ≤ n → n ≠ 19 →
       (λ d, Z.testbit (fd_flags d) n) <$> fd_get t' fd = Some (Z.testbit (fd_flags desc) n)) ∧
    (∀ k, k ≠ fd → fd_get t' k = fd_get t k) ∧
    ∀ k d, fd_get (close_on_exec t') k = Some d ↔
           fd_get t' k = Some d ∧ sys_fcntl64 k F_GETFD 0 t' = Done 0 t'.
Proof.
  intros Hd. set (b := negb (Z.land arg 1 =? 0)).
  set (t' := fd_insert t fd (set_close_on_exec desc b)). exists t'.
  assert (Hget : ∀ k d, fd_get t' k = Some d →
    sys_fcntl64 k F_GETFD 0 t' =
      Done (if Flags.contains (fd_flags d) OpenFlags.CLOEXEC then 1 else 0) t').
  { intros k d Hk. unfold sys_fcntl64, mbind, kst_bind, kget. cbn. by rewrite Hk. }
  assert (Hfd : fd_get t' fd = Some (set_close_on_exec desc b)).
  { unfold fd_get, t', fd_insert. simpl. apply lookup_insert_eq. }
  assert (Hbit : ∀ x, Flags.contains x OpenFlags.CLOEXEC = Z.testbit x 19).
  { intros x. change OpenFlags.CLOEXEC with (2 ^ 19). by apply contains_pow2. }
  split_and!.
  - unfold sys_fcntl64, mbind, kst_bind, kget. cbn. by rewrite Hd.
  - rewrite (Hget fd _ Hfd), Hbit. unfold set_close_on_exec. simpl fd_flags.
    rewrite set_cloexec_testbit by done. simpl. f_equal. unfold b.
    rewrite (Z.land_ones arg 1 ltac:(lia) : Z.land arg 1 = arg mod 2).
    pose proof (Z.mod_pos_bound arg 2). destruct (Z.eqb_spec (arg mod 2) 0); simpl; lia.
  - intros n Hn Hne. rewrite Hfd. simpl. rewrite set_cloexec_testbit by done.
    by rewrite (proj2 (Z.eqb_neq n 19) Hne).
  - intros k Hk. unfold fd_get, t', fd_insert. simpl. by rewrite lookup_insert_ne.
  - intros k d. unfold fd_get at 1, close_on_exec. simpl. rewrite map_lookup_filter_Some. simpl.
    split; intros [Hk Hc]; (split; [done|]).
    + rewrite (Hget k d Hk). by rewrite Hc.
    + rewrite (Hget k d Hk) in Hc. by destruct (Flags.contains _ _).
Qed.

(** [prepare_io] hands out a descriptor only for the access it was opened
    for: reading needs [RDONLY] or [RDWR], writing [WRONLY] or [RDWR]; a closed
    descriptor or the wrong mode is [EBADF]. An open mode of [3] panics. *)
Theorem prepare_io_spec t (read : bool) fd :
  match fd_get t fd with
  | None => prepare_io read fd t = Fail EBADF t
  | Some d =>
      match Z.land (fd_flags d) 3 with
      | 0 => prepare_io read fd t = if read then Done d t else Fail EBADF t
      | 1 => prepare_io read fd t = if read then Fail EBADF t else Done d t
      | 2 => prepare_io read fd t = Done d t
      | _ => prepare_io read fd t = Crash
      end
  end.
Proof.
  unfold prepare_io, mbind, kst_bind, kget. destruct (fd_get t fd) as [d|]; [|done]. cbn.
  pose proof (land3_cases (fd_flags d)) as Hc.
  unfold readable, writable, OpenFlags.read_write, klift.
  assert (Z.land (fd_flags d) 3 = 0 ∨ Z.land (fd_flags d) 3 = 1 ∨ Z.land (fd_flags d) 3 = 2 ∨
          Z.land (fd_flags d) 3 = 3) as [->|[->|[->| ->]]] by lia; by destruct read.
Qed.

(** ** [add_many] on a table without gaps *)
Lemma add_many_keys_prefix n (m : nat) : ∀ (k : nat) s,
  n = (s + k)%nat → add_many_keys (Z.of_nat s) m (Z.of_nat <$> seq s k) = ([], m, Z.of_nat n).
Proof.
  induction k as [|k IH]; intros s ->; simpl.
  { by rewrite Nat.add_0_r. }
  rewrite Z.eqb_refl. simpl. replace (Z.of_nat s + 1) with (Z.of_nat (S s)) by lia.
  apply IH. lia.
Qed.

(** Without a gap below them, the new descriptors follow the open ones. *)
Lemma add_many_no_gap t descs n :
  btree_keys (files t) = Z.of_nat <$> seq 0 n →
  Z.of_nat (size (files t) + length descs) ≤ limit t →
  option_map fst (add_many t descs) = Some ((λ i, Z.of_nat n + Z.of_nat i) <$> seq 0 (length descs)).
Proof.
  intros Hk Hl. unfold add_many. rewrite (proj2 (Z.ltb_ge _ _)) by lia. rewrite Hk.
  change 0 with (Z.of_nat 0) at 1. by rewrite (add_many_keys_prefix n (length descs) n 0).
Qed.
End properties.

(** ** Examples *)
Lemma dup_spec_witness :
  duplicated (with_stdio 7) 0 (mkFd 7 1) (sys_dup 1 (with_stdio 7)) ∧
  sys_dup 1 (with_stdio 7) = Done 3 (fd_insert (with_stdio 7) 3 (mkFd 7 1)).
Proof.
  destruct (dup_spec (with_stdio 7) 1 10 5) as [_ Hs]; [lia|vm_compute; reflexivity|].
  destruct (Hs (mkFd 7 1) eq_refl) as (_ & Hd & _).
  split; [apply Hd; vm_compute; reflexivity|]. vm_compute. reflexivity.
Defined.

Lemma cloexec_spec_witness :
  ∃ t', sys_fcntl64 1 F_SETFD 3 (with_stdio 7) = Done 0 t' ∧
        sys_fcntl64 1 F_GETFD 0 t' = Done 1 t' ∧ fd_get (close_on_exec t') 1 = None.
Proof.
  destruct (cloexec_spec (with_stdio 7) 1 3 (mkFd 7 1) eq_refl) as (t' & Hs & Hg & _ & _ & Hc).
  exists t'. split; [exact Hs|]. split; [exact Hg|].
  destruct (fd_get (close_on_exec t') 1) as [d|] eqn:E; [|reflexivity].
  apply Hc in E as [_ E]. rewrite Hg in E. vm_compute in E. discriminate E.
Defined.

(** ** Observations *)

(** With descriptors 1 and 2 open, [add_many] gives out 0 and 1: the descriptor 1
    that was open is replaced. *)
Lemma add_many_reuses_open :
  let t := (fd_remove (with_stdio 7) 0).2 in
  option_map fst (add_many t [mkFd 8 0; mkFd 9 1]) = Some [0; 1] ∧
  fd_get t 1 = Some (mkFd 7 1).
Proof. vm_compute. by split. Qed.

(** [dup] keeps [CLOEXEC]. *)
Lemma dup_keeps_cloexec :
  match sys_dup 0 (mkTable {[ 0 := mkFd 7 OpenFlags.CLOEXEC ]} (mkRLimit 1024 0)) with
  | Done fd t => (λ d, Flags.contains (fd_flags d) OpenFlags.CLOEXEC) <$> fd_get t fd
  | _ => None
  end = Some true.
Proof. vm_compute. reflexivity. Qed.

(** The limit counts descriptors but does not bound them: [F_DUPFD] with an
    argument far above the soft limit succeeds. *)
Lemma dupfd_above_limit :
  match sys_fcntl64 1 F_DUPFD 5000 (with_stdio 7) with Done fd _ => fd | _ => 0 end = 5000.
Proof. vm_compute. reflexivity. Qed.
