(* ===== verification/Process.v ===== *)
(** * Processes

    [libkernel/src/process], [thread/mod.rs] and the system calls of
    [kernel/src/syscall/process.rs], [signal.rs] ([kill]) and [thread.rs]: the
    table of processes, [fork], [exec], exit, reparenting and [wait4].

    An [Arc<Process>] is the pid of a live process: a pid is given back only
    when the last reference goes ([Drop for Process]), so it names one object.
    Locks are held for a whole operation here, so an operation is one step;
    a [HashMap] iterates in the order [thread_order] says. *)
From S2P Require Import Prelude BTree Address Defines Kst IdAllocator FrameAllocator PageTable VmArea MemorySpace InitStack UserCheck UserAccess Trap Signal FdTable.

(** What the model takes from outside: the ELF parser ([goblin]), the order of
    [HashMap::values], the random words and the registers a context starts
    from, the kernel's page table and the page caches; and whether the kernel was
    built to log [debug!] lines, whose arguments are computed only then. *)
Class ProcessEnv := {
  Elf_parse : list Z → option Elf;
  thread_order : gmap Z Thread → list Z;
  stack_random : Z * Z;
  hart_tp : Z;
  hart_sstatus : Z;
  kernel_root : Z;
  page_caches : PageCaches;
  root_dir : Z;
  debug_log : bool;
}.

(** [Process] with its [ProcessInner]; [p_events] counts the notifications of
    [wait4_event]; files and directories are references. *)
Record Process (F : Type) : Type := mkProcess {
  p_name : list Z;
  p_events : nat;
  p_status : Z;
  p_exit_signal : option Signal;
  p_space : MemorySpace;
  p_heap : Z * Z;
  p_parent : option Z;
  p_children : list Z;
  p_cwd : Z;
  p_fds : FdTable F;
  p_handlers : SignalHandlers;
  p_tids : RecycleAllocator;
  p_threads : gmap Z Thread;
}.

Arguments mkProcess {F}.
Arguments p_name {F}.
Arguments p_events {F}.
Arguments p_status {F}.
Arguments p_exit_signal {F}.
Arguments p_space {F}.
Arguments p_heap {F}.
Arguments p_parent {F}.
Arguments p_children {F}.
Arguments p_cwd {F}.
Arguments p_fds {F}.
Arguments p_handlers {F}.
Arguments p_tids {F}.
Arguments p_threads {F}.

Module P.
Section P.
Context {F : Type}.
Definition with_status (p : Process F) (x : Z) : Process F :=
  mkProcess (p_name p) (p_events p) x (p_exit_signal p) (p_space p) (p_heap p) (p_parent p)
    (p_children p) (p_cwd p) (p_fds p) (p_handlers p) (p_tids p) (p_threads p).
Definition with_name (p : Process F) (x : list Z) : Process F :=
  mkProcess x (p_events p) (p_status p) (p_exit_signal p) (p_space p) (p_heap p) (p_parent p)
    (p_children p) (p_cwd p) (p_fds p) (p_handlers p) (p_tids p) (p_threads p).
Definition with_space (p : Process F) (x : MemorySpace) : Process F :=
  mkProcess (p_name p) (p_events p) (p_status p) (p_exit_signal p) x (p_heap p) (p_parent p)
    (p_children p) (p_cwd p) (p_fds p) (p_handlers p) (p_tids p) (p_threads p).
Definition with_heap (p : Process F) (x : Z * Z) : Process F :=
  mkProcess (p_name p) (p_events p) (p_status p) (p_exit_signal p) (p_space p) x (p_parent p)
    (p_children p) (p_cwd p) (p_fds p) (p_handlers p) (p_tids p) (p_threads p).
Definition with_parent (p : Process F) (x : option Z) : Process F :=
  mkProcess (p_name p) (p_events p) (p_status p) (p_exit_signal p) (p_space p) (p_heap p) x
    (p_children p) (p_cwd p) (p_fds p) (p_handlers p) (p_tids p) (p_threads p).
Definition with_children (p : Process F) (x : list Z) : Process F :=
  mkProcess (p_name p) (p_events p) (p_status p) (p_exit_signal p) (p_space p) (p_heap p)
    (p_parent p) x (p_cwd p) (p_fds p) (p_handlers p) (p_tids p) (p_threads p).
Definition with_cwd (p : Process F) (x : Z) : Process F :=
  mkProcess (p_name p) (p_events p) (p_status p) (p_exit_signal p) (p_space p) (p_heap p)
    (p_parent p) (p_children p) x (p_fds p) (p_handlers p) (p_tids p) (p_threads p).
Definition with_fds (p : Process F) (x : FdTable F) : Process F :=
  mkProcess (p_name p) (p_events p) (p_status p) (p_exit_signal p) (p_space p) (p_heap p)
    (p_parent p) (p_children p) (p_cwd p) x (p_handlers p) (p_tids p) (p_threads p).
Definition with_handlers (p : Process F) (x : SignalHandlers) : Process F :=
  mkProcess (p_name p) (p_events p) (p_status p) (p_exit_signal p) (p_space p) (p_heap p)
    (p_parent p) (p_children p) (p_cwd p) (p_fds p) x (p_tids p) (p_threads p).
Definition with_tids (p : Process F) (x : RecycleAllocator) : Process F :=
  mkProcess (p_name p) (p_events p) (p_status p) (p_exit_signal p) (p_space p) (p_heap p)
    (p_parent p) (p_children p) (p_cwd p) (p_fds p) (p_handlers p) x (p_threads p).
Definition with_threads (p : Process F) (x : gmap Z Thread) : Process F :=
  mkProcess (p_name p) (p_events p) (p_status p) (p_exit_signal p) (p_space p) (p_heap p)
    (p_parent p) (p_children p) (p_cwd p) (p_fds p) (p_handlers p) (p_tids p) x.
(** [wait4_event.notify(1)] *)
Definition notify (p : Process F) : Process F :=
  mkProcess (p_name p) (S (p_events p)) (p_status p) (p_exit_signal p) (p_space p) (p_heap p)
    (p_parent p) (p_children p) (p_cwd p) (p_fds p) (p_handlers p) (p_tids p) (p_threads p).
End P.
End P.

Section process.
Context `{Buddy, KernelImage, ProcessEnv} {F : Type}.


(** The kernel: memory, the live processes, [PROCESS_MANAGER] (the pids it
    lists), [PID_ALLOCATOR] and [executor::SHUTDOWN]. *)
Record Kernel : Type := mkKernel {
  k_mem : Mem;
  k_procs : gmap Z (Process F);
  k_manager : gset Z;
  k_pids : RecycleAllocator;
  k_shutdown : bool;
}.
Definition set_mem (m : Mem) (k : Kernel) : Kernel :=
  mkKernel m (k_procs k) (k_manager k) (k_pids k) (k_shutdown k).
Definition set_procs (ps : gmap Z (Process F)) (k : Kernel) : Kernel :=
  mkKernel (k_mem k) ps (k_manager k) (k_pids k) (k_shutdown k).
Definition set_manager (s : gset Z) (k : Kernel) : Kernel :=
  mkKernel (k_mem k) (k_procs k) s (k_pids k) (k_shutdown k).
Definition set_pids (a : RecycleAllocator) (k : Kernel) : Kernel :=
  mkKernel (k_mem k) (k_procs k) (k_manager k) a (k_shutdown k).
Definition set_shutdown (b : bool) (k : Kernel) : Kernel :=
  mkKernel (k_mem k) (k_procs k) (k_manager k) (k_pids k) b.

Definition INITPROC_PID : Z := 1.

(** Following a reference; the process it names is live. *)
Definition proc (pid : Z) : kst Kernel (Process F) := k ← kget; kunwrap (k_procs k !! pid).
Definition put_proc (pid : Z) (p : Process F) : kst Kernel () :=
  kmodify (λ k, set_procs (<[pid := p]> (k_procs k)) k).

(** ** [ProcessManager] *)
Definition manager_add (pid : Z) : kst Kernel () :=
  kmodify (λ k, set_manager ({[pid]} ∪ k_manager k) k).
Definition manager_remove (pid : Z) : kst Kernel () :=
  kmodify (λ k, set_manager (k_manager k ∖ {[pid]}) k).
Definition manager_get (pid : Z) : kst Kernel (option Z) :=
  kgets (λ k, if bool_decide (pid ∈ k_manager k) then Some pid else None).
Definition manager_init_proc : kst Kernel Z :=
  o ← manager_get INITPROC_PID; kunwrap o.

(** ** Creation *)
Definition process_name_from_args (path_fallback : option (list Z)) (args : list (list Z)) :
    option (list Z) :=
  match args with
  | arg0 :: rest =>
      Some (match rest with arg1 :: _ => arg0 ++ [32] ++ arg1 | [] => arg0 end)
  | [] => path_fallback
  end.

Definition alloc_pid : kst Kernel Z :=
  k ← kget;
  '(pid, a) ← klift (Recycle.alloc (k_pids k));
  _ ← kmodify (set_pids a);
  mret pid.

(** The registers a program starts with. *)
Definition start_context (entry user_sp argc argv_base : Z) : TrapContext :=
  Ctx.set_a1 (Ctx.set_a0 (app_init_context hart_tp hart_sstatus entry user_sp) argc) argv_base.

(** [from_path], from the bytes of the program on; [tty] is the file
    [FdTable::with_stdio] opens. *)
Definition from_path (path elf_data : list Z) (args : list (list Z)) (tty : F) : kst Kernel Z :=
  elf ← kok_or (Elf_parse elf_data) ENOEXEC;
  k ← kget;
  '(sp, m) ← klift (empty_user kernel_root (k_mem k));
  '(r, sp, m) ← klift (load_elf_sections m sp elf elf_data);
  _ ← kmodify (set_mem m);
  match r with
  | inr e =>
      m ← klift (MemorySpace_drop m sp);
      _ ← kmodify (set_mem m);
      kfail e
  | inl (elf_end, auxv, elf_entry) =>
      name ← kunwrap (process_name_from_args (Some path) args);
      '(user_sp, argv_base, sp, m) ← klift (init_stack stack_random.1 stack_random.2 m sp 0 args [] auxv);
      _ ← kmodify (set_mem m);
      let brk := VirtPageNum.page_start (VirtAddr.vpn_ceil elf_end) in
      '(tid, tids) ← klift (Recycle.alloc Recycle.new);
      _ ← kassert (tid =? 0);
      let ctx := start_context elf_entry user_sp (Z.of_nat (length args)) argv_base in
      pid ← alloc_pid;
      _ ← put_proc pid (mkProcess name 0 ProcessStatus.normal None sp (brk, brk) None [] root_dir
            (with_stdio tty) Handlers.new tids {[ tid := Th.new tid ctx 0 ]});
      mret pid
  end.

(** [process::init] *)
Definition process_init (path elf_data : list Z) (tty : F) : kst Kernel () :=
  r ← ktry (from_path path elf_data [path] tty);
  match r with
  | inl _ => manager_add INITPROC_PID
  | inr _ => kcrash
  end.

(** [ProcessInner::main_thread] *)
Definition main_thread (p : Process F) : kst Kernel Thread := kunwrap (p_threads p !! 0).

Definition fork (pid : Z) (stack : option Z) (exit_signal : option Signal) : kst Kernel Z :=
  p ← proc pid;
  _ ← kassert (size (p_threads p) =? 1)%nat;
  t ← main_thread p;
  let ctx := trap_context t in
  let ctx := match stack with Some s => Ctx.set_sp ctx s | None => ctx end in
  let ctx := Ctx.set_a0 ctx 0 in
  child ← alloc_pid;
  k ← kget;
  '(sp, m) ← klift (from_other kernel_root page_caches (k_mem k) (p_space p));
  _ ← kmodify (set_mem m);
  _ ← put_proc child (mkProcess (p_name p) 0 (p_status p) exit_signal sp (p_heap p) (Some pid) []
        (p_cwd p) (p_fds p) (p_handlers p) (p_tids p)
        {[ t_tid t := Th.new (t_tid t) ctx (signal_mask t) ]});
  _ ← manager_add child;
  _ ← put_proc pid (P.with_children p (p_children p ++ [child]));
  mret child.

(** [exit_process] *)
Definition k_exit_process (pid code : Z) : kst Kernel () :=
  p ← proc pid;
  st ← klift (exit_process (p_status p) code);
  put_proc pid (P.with_status p st).

(** The closure of [exec]; its error is handled by the caller. *)
Definition exec_inner (pid : Z) (elf : Elf) (elf_data : list Z) (args envs : list (list Z)) :
    kst Kernel () :=
  p ← proc pid;
  _ ← kassert (size (p_threads p) =? 1)%nat;
  _ ← kassert (length (p_children p) =? 0)%nat;
  k ← kget;
  '(sp, m) ← klift (recycle_user_pages (k_mem k) (p_space p));
  '(r, sp, m) ← klift (load_elf_sections m sp elf elf_data);
  _ ← kmodify (set_mem m);
  let p := P.with_space p sp in
  _ ← put_proc pid p;
  match r with
  | inr e => kfail e
  | inl (elf_end, auxv, elf_entry) =>
      let brk := VirtPageNum.page_start (VirtAddr.vpn_ceil elf_end) in
      let p := P.with_heap p (brk, brk) in
      let p := P.with_fds p (close_on_exec (p_fds p)) in
      let p := P.with_handlers p Handlers.new in
      '(user_sp, argv_base, sp, m) ← klift (init_stack stack_random.1 stack_random.2 m sp 0 args envs auxv);
      _ ← kmodify (set_mem m);
      t ← main_thread p;
      let ctx := start_context elf_entry user_sp (Z.of_nat (length args)) argv_base in
      put_proc pid (P.with_threads (P.with_space p sp) (<[0 := Th.with_ctx t ctx]> (p_threads p)))
  end.

Definition exec (pid : Z) (elf_data : list Z) (args envs : list (list Z)) : kst Kernel () :=
  elf ← kok_or (Elf_parse elf_data) ENOEXEC;
  let process_name := process_name_from_args None args in
  ret ← ktry (exec_inner pid elf elf_data args envs);
  match ret with
  | inr err => _ ← k_exit_process pid (-10); kfail err
  | inl _ =>
      match process_name with
      | Some name => p ← proc pid; put_proc pid (P.with_name p name)
      | None => mret ()
      end
  end.

(** ** Exit *)

(** [ProcessInner::receive_signal] *)
Definition receive (p : Process F) (s : Signal) : Process F :=
  P.with_threads p (receive_signal (p_threads p) (thread_order (p_threads p)) s).

(** The children of an exiting process go to [INITPROC], one by one. *)
Fixpoint reparent (init : Z) (children : list Z) : kst Kernel () :=
  match children with
  | [] => mret ()
  | c :: children =>
      cp ← proc c;
      _ ← put_proc c (P.with_parent cp (Some init));
      ip ← proc init;
      _ ← put_proc init (P.with_children ip (p_children ip ++ [c]));
      reparent init children
  end.

(** [Thread::exit_thread]: the thread goes; with the last one the process
    becomes a zombie, hands its children to [INITPROC] and tells its parent. *)
Definition exit_thread (pid tid : Z) : kst Kernel () :=
  p ← proc pid;
  t ← kunwrap (p_threads p !! tid);
  let p := P.with_threads p (delete tid (p_threads p)) in
  tids ← klift (Recycle.dealloc (p_tids p) tid);
  let p := P.with_tids p tids in
  k ← kget;
  '(sp, m) ← klift (dealloc_user_stack (k_mem k) (p_space p) tid);
  _ ← kmodify (set_mem m);
  let p := P.with_space p sp in
  if bool_decide (p_threads p = ∅) then
    let p := P.with_cwd p root_dir in
    '(sp, m) ← klift (recycle_user_pages m sp);
    _ ← kmodify (set_mem m);
    let p := P.with_space p sp in
    let p := P.with_tids p (Recycle.release (p_tids p)) in
    let children := p_children p in
    let parent := p_parent p in
    let p := P.with_parent (P.with_children p []) None in
    let code := match ProcessStatus.exit_code (p_status p) with
                | Some override_exit_code => override_exit_code
                | None => t_exit_code t
                end in
    _ ← put_proc pid (P.with_status p (ProcessStatus.zombie code));
    _ ← (if pid =? INITPROC_PID then
           _ ← kassert (length children =? 0)%nat; kmodify (set_shutdown true)
         else init ← manager_init_proc; reparent init children);
    match parent with
    | Some parent =>
        _ ← match p_exit_signal p with
            | Some s => pp ← proc parent; put_proc parent (receive pp s)
            | None => mret ()
            end;
        pp ← proc parent; put_proc parent (P.notify pp)
    | None => mret ()
    end
  else put_proc pid p.

(** [Drop for Process], with the drop of its fields: what happens when the last
    reference to the process goes. *)
Definition drop_process (pid : Z) : kst Kernel () :=
  p ← proc pid;
  k ← kget;
  a ← klift (Recycle.dealloc (k_pids k) pid);
  m ← klift (MemorySpace_drop (k_mem k) (p_space p));
  kmodify (λ k, set_procs (delete pid (k_procs k)) (set_pids a (set_mem m k))).

(** ** System calls *)
Definition update_thread (pid tid : Z) (f : Thread → Thread) : kst Kernel () :=
  p ← proc pid;
  t ← kunwrap (p_threads p !! tid);
  put_proc pid (P.with_threads p (<[tid := f t]> (p_threads p))).

Definition sys_exit (pid tid exit_code : Z) : kst Kernel Z :=
  _ ← update_thread pid tid (λ t, Th.with_exit_code t (to_signed 8 (Z.land exit_code 255)));
  kfail BREAK.
Definition sys_exit_group (pid exit_code : Z) : kst Kernel Z :=
  _ ← k_exit_process pid (to_signed 8 (Z.land exit_code 255));
  kfail BREAK.
Definition sys_getpid (pid : Z) : kst Kernel Z := mret pid.
Definition sys_getppid (pid : Z) : kst Kernel Z :=
  p ← proc pid; mret (default 0 (p_parent p)).
Definition sys_gettid (tid : Z) : kst Kernel Z := mret tid.
Definition sys_set_tid_address (pid tid tid_ptr : Z) : kst Kernel Z :=
  _ ← update_thread pid tid (λ t, Th.with_clear_child_tid t tid_ptr);
  mret tid.
Definition sys_setpgid : kst Kernel Z := mret INITPROC_PID.
Definition sys_getpgid : kst Kernel Z := mret INITPROC_PID.
Definition sys_setpriority : kst Kernel Z := kcrash.

Definition thread_flags : Z :=
  foldr Z.lor 0 [CloneFlags.CLONE_VM; CloneFlags.CLONE_FS; CloneFlags.CLONE_FILES;
    CloneFlags.CLONE_SIGHAND; CloneFlags.CLONE_THREAD; CloneFlags.CLONE_SYSVSEM;
    CloneFlags.CLONE_SETTLS; CloneFlags.CLONE_PARENT_SETTID; CloneFlags.CLONE_CHILD_CLEARTID].

(** [sys_clone]; the new main thread is spawned by the executor. *)
Definition sys_clone (pid flags user_stack : Z) : kst Kernel Z :=
  if negb (in_uint 32 flags) then kfail UNSUPPORTED
  else
    match Flags.from_bits CloneFlags.mask (Z.land flags (Z.lxor (2 ^ 32 - 1) 255)) with
    | None => kfail UNSUPPORTED
    | Some clone_flags =>
        if Flags.contains clone_flags CloneFlags.CLONE_THREAD then
          _ ← kassert (Flags.contains clone_flags thread_flags);
          if negb (wrap 8 flags =? 0) then kfail EINVAL else kcrash
        else
          _ ← kassert (negb (Flags.intersects clone_flags thread_flags));
          exit_signal ←
            (if negb (wrap 8 flags =? 0) then
               match Sig.from_user (wrap 8 flags) with
               | None => kfail UNSUPPORTED
               | Some s => _ ← kassert (bool_decide (s = SIGCHLD)); mret (Some s)
               end
             else mret None);
          fork pid (if user_stack =? 0 then None else Some user_stack) exit_signal
    end.

(** User memory of a process. *)
Definition on_space {A} (pid : Z) (c : kst (MemorySpace * Mem) A) : kst Kernel A := λ k,
  match k_procs k !! pid with
  | None => Crash
  | Some p =>
      let upd u := set_procs (<[pid := P.with_space p u.1]> (k_procs k)) (set_mem u.2 k) in
      match c (p_space p, k_mem k) with
      | Done a u => Done a (upd u)
      | Fail e u => Fail e (upd u)
      | Crash => Crash
      end
  end.

(** The [for] loop of [sys_wait4]: whether a child matches, and the last zombie
    among those that do. *)
Definition wait4_scan (k : Kernel) (pid : Z) (children : list Z) : bool * option nat :=
  foldl (λ '(has, found) '(index, child),
      if (pid =? -1) || (child =? wrap 64 pid) then
        (true, if ProcessStatus.is_zombie (default 0 (p_status <$> k_procs k !! child))
               then Some index else found)
      else (has, found))
    (false, None) (zip (seq 0 (length children)) children).

(** One round of the loop of [sys_wait4]: a result, or [None] when the task
    goes to sleep on its listener. *)
Definition wait4_poll (self pid : Z) (wstatus : option Z) (options : Z) : kst Kernel (option Z) :=
  p ← proc self;
  k ← kget;
  let '(has_proper_child, child_index) := wait4_scan k pid (p_children p) in
  if negb has_proper_child then kfail ECHILD
  else
    match child_index with
    | Some index =>
        child ← kunwrap (p_children p !! index);
        _ ← put_proc self (P.with_children p (delete index (p_children p)));
        _ ← manager_remove child;
        cp ← proc child;
        exit_code ← kunwrap (ProcessStatus.exit_code (p_status cp));
        _ ← match wstatus with
            | Some w => on_space self (write_user i32_codec w (Z.shiftl (wrap 8 exit_code) 8))
            | None => mret ()
            end;
        mret (Some child)
    | None =>
        if Flags.contains options WaitFlags.WNOHANG then mret (Some 0) else mret None
    end.

(** [sys_wait4] up to its first suspension point. *)
Definition sys_wait4 (self pid : Z) (wstatus : option Z) (options rusage : Z) :
    kst Kernel (option Z) :=
  _ ← kassert ((pid =? -1) || (0 <? pid));
  _ ← kassert (rusage =? 0);
  options ← kok_or (Flags.from_bits WaitFlags.mask (wrap 32 options)) EINVAL;
  wait4_poll self pid wstatus options.

(** The loop of [sys_kill] over all the processes. *)
Fixpoint kill_all (s : Signal) (pids : list Z) : kst Kernel () :=
  match pids with
  | [] => mret ()
  | pid :: pids =>
      _ ← (if pid =? 1 then mret () else p ← proc pid; put_proc pid (receive p s));
      kill_all s pids
  end.

Definition sys_kill (pid signum : Z) : kst Kernel Z :=
  signal ←
    (if negb (signum =? 0) then
       if in_uint 8 signum then
         s ← kok_or (Sig.from_user signum) EINVAL; mret (Some s)
       else kfail EINVAL
     else mret None);
  if 0 <? pid then
    o ← manager_get pid;
    match o with
    | None => kfail ESRCH
    | Some process =>
        match signal with
        | Some s => p ← proc process; _ ← put_proc process (receive p s); mret 0
        | None => mret 0
        end
    end
  else if pid =? 0 then kcrash
  else if pid =? -1 then
    match signal with
    | None => mret 0
    | Some s => k ← kget; _ ← kill_all s (merge_sort Z.le (elements (k_manager k))); mret 0
    end
  else kcrash.
End process.
Arguments Kernel {_} F.
