(* ===== verification/ProcessTree.v ===== *)
(** * The process tree

    An abstract account of what [fork], exit, [wait4] and the reference counts
    do to the parent and child links ([libkernel/src/process],
    [Thread::exit_thread], [sys_wait4]): a finite map of nodes, four
    transitions, and the invariant they keep. [ProcessSteps.v] shows that the
    kernel's handlers implement these transitions. *)
From S2P Require Import Prelude.

(** [n_status] is the exit byte of a zombie; [n_events] counts the
    notifications of [wait4_event]. *)
Record node : Type := mkNode {
  n_parent : option Z;
  n_children : list Z;
  n_status : option Z;
  n_events : nat;
}.
(** The nodes, and the pids [PROCESS_MANAGER] lists. *)
Record tree : Type := mkTree { t_nodes : gmap Z node; t_listed : gset Z }.

(** The pid of the first process. *)
Abbreviation root := 1.

Definition set_parent (x : option Z) (n : node) : node :=
  mkNode x (n_children n) (n_status n) (n_events n).
Definition set_children (x : list Z) (n : node) : node :=
  mkNode (n_parent n) x (n_status n) (n_events n).
Definition add_child (c : Z) (n : node) : node := set_children (n_children n ++ [c]) n.
Definition bump (n : node) : node :=
  mkNode (n_parent n) (n_children n) (n_status n) (S (n_events n)).
Definition dead (code : Z) (n : node) : node := mkNode None [] (Some code) (n_events n).

(** ** Transitions *)
Definition t_fork (p c : Z) (T : tree) : tree :=
  mkTree (alter (add_child c) p (<[c := mkNode (Some p) [] None 0]> (t_nodes T)))
    ({[c]} ∪ t_listed T).

(** One child handed to the root. *)
Definition t_move (N : gmap Z node) (c : Z) : gmap Z node :=
  alter (add_child c) root (alter (set_parent (Some root)) c N).

Definition t_notify (parent : option Z) (N : gmap Z node) : gmap Z node :=
  match parent with Some q => alter bump q N | None => N end.

Definition t_exit (p code : Z) (n : node) (T : tree) : tree :=
  mkTree (t_notify (n_parent n) (foldl t_move (alter (dead code) p (t_nodes T)) (n_children n)))
    (t_listed T).

Definition t_reap (p c : Z) (T : tree) : tree :=
  mkTree (alter (λ n, set_children (filter (λ x, x ≠ c) (n_children n)) n) p (t_nodes T))
    (t_listed T ∖ {[c]}).

Definition t_drop (c : Z) (T : tree) : tree := mkTree (delete c (t_nodes T)) (t_listed T).

(** A process that has not become a zombie. *)
Definition alive (T : tree) (p : Z) : Prop :=
  ∃ n, t_nodes T !! p = Some n ∧ n_status n = None.

(** Nothing refers to the process any more. *)
Definition unreferenced (T : tree) (c : Z) : Prop :=
  c ∉ t_listed T ∧
  ∀ q n, t_nodes T !! q = Some n → n_parent n ≠ Some c ∧ c ∉ n_children n.

Inductive tree_step : tree → tree → Prop :=
| ts_fork T p c :
    alive T p → t_nodes T !! c = None → tree_step T (t_fork p c T)
| ts_exit T p code n :
    t_nodes T !! p = Some n → n_status n = None → (p = root → n_children n = []) →
    tree_step T (t_exit p code n T)
| ts_reap T p n c nc :
    t_nodes T !! p = Some n → c ∈ n_children n →
    t_nodes T !! c = Some nc → is_Some (n_status nc) →
    tree_step T (t_reap p c T)
| ts_drop T c : unreferenced T c → tree_step T (t_drop c T).

(** ** The invariant *)

(** A parent link leads to a node, and is matched by a child link unless the
    child is a zombie. *)
Definition parent_ok (N : gmap Z node) (c : Z) (n : node) : Prop :=
  ∀ p, n_parent n = Some p →
    ∃ np, N !! p = Some np ∧ (n_status n = None → c ∈ n_children np).
(** A child link is matched by a parent link unless the child has cut it when
    it died; children are listed. *)
Definition child_ok (T : tree) (p c : Z) : Prop :=
  c ≠ root ∧ c ∈ t_listed T ∧
  ∃ n, t_nodes T !! c = Some n ∧
       (n_parent n = Some p ∨ n_parent n = None ∧ is_Some (n_status n)).

(** [d] is the distance of a process from the root. *)
Definition ranked (d : Z → nat) (N : gmap Z node) : Prop :=
  d root = 0%nat ∧ (∀ c, c ≠ root → 0 < d c)%nat ∧
  ∀ c n p, N !! c = Some n → n_parent n = Some p → (d p < d c)%nat.

Record tree_ok (T : tree) : Prop := {
  ok_parent c n : t_nodes T !! c = Some n → parent_ok (t_nodes T) c n;
  ok_child p n c : t_nodes T !! p = Some n → c ∈ n_children n → child_ok T p c;
  ok_nodup p n : t_nodes T !! p = Some n → NoDup (n_children n);
  ok_unique p q n m c :
    t_nodes T !! p = Some n → t_nodes T !! q = Some m →
    c ∈ n_children n → c ∈ n_children m → p = q;
  ok_zombie p n : t_nodes T !! p = Some n → is_Some (n_status n) → n_children n = [];
  ok_listed p : p ∈ t_listed T → is_Some (t_nodes T !! p);
  ok_alive p n : t_nodes T !! p = Some n → n_status n = None →
    p ∈ t_listed T ∧ (p ≠ root → is_Some (n_parent n));
  ok_root : root ∈ t_listed T ∧ ∀ n, t_nodes T !! root = Some n → n_parent n = None;
  ok_rank : ∃ d, ranked d (t_nodes T);
}.

(** ** Lookups after a transition *)
Section lookups.
Implicit Types (T : tree) (N : gmap Z node) (n m : node).

Definition fork_node (p c q : Z) m : node := if decide (q = p) then add_child c m else m.

Lemma lookup_fork T p c q m :
  t_nodes T !! c = None → p ≠ c →
  t_nodes (t_fork p c T) !! q = Some m ↔
  (q = c ∧ m = mkNode (Some p) [] None 0) ∨
  (q ≠ c ∧ ∃ m0, t_nodes T !! q = Some m0 ∧ m = fork_node p c q m0).
Proof.
  intros Hc Hpc. simpl. unfold fork_node. destruct (decide (q = p)) as [->|Hqp].
  - rewrite lookup_alter_eq, lookup_insert_ne, fmap_Some by done. naive_solver.
  - rewrite lookup_alter_ne by done. destruct (decide (q = c)) as [->|Hqc].
    + rewrite lookup_insert_eq. naive_solver.
    + rewrite lookup_insert_ne by done. naive_solver.
Qed.

(** What [t_exit] does to each node. *)
Definition moved_node (cs : list Z) (q : Z) m : node :=
  if decide (q = root) then set_children (n_children m ++ cs) m
  else if decide (q ∈ cs) then set_parent (Some root) m else m.
Definition notified (parent : option Z) (q : Z) m : node :=
  if decide (parent = Some q) then bump m else m.
Definition exit_node (p code : Z) n (q : Z) m : node :=
  notified (n_parent n) q (if decide (q = p) then dead code m else moved_node (n_children n) q m).

Lemma set_children_same m : set_children (n_children m) m = m.
Proof. by destruct m. Qed.

Lemma lookup_move N c q :
  c ≠ root → t_move N c !! q = moved_node [c] q <$> N !! q.
Proof.
  intros Hc. unfold t_move, moved_node. destruct (decide (q = root)) as [->|Hq].
  - rewrite lookup_alter_eq, lookup_alter_ne by done. done.
  - rewrite lookup_alter_ne by done. destruct (decide (q = c)) as [->|Hqc].
    + rewrite lookup_alter_eq. destruct (N !! c); simpl; [|done].
      by rewrite decide_True by set_solver.
    + rewrite lookup_alter_ne by done. destruct (N !! q); simpl; [|done].
      by rewrite decide_False by set_solver.
Qed.

Lemma moved_node_app c cs q m :
  moved_node cs q (moved_node [c] q m) = moved_node (c :: cs) q m.
Proof.
  unfold moved_node. destruct (decide (q = root)); simpl.
  - unfold set_children. simpl. by rewrite <- app_assoc.
  - destruct (decide (q ∈ [c])), (decide (q ∈ cs)), (decide (q ∈ c :: cs)); set_solver.
Qed.

Lemma lookup_moves cs : ∀ N q,
  root ∉ cs → foldl t_move N cs !! q = moved_node cs q <$> N !! q.
Proof.
  induction cs as [|c cs IH]; intros N q Hr; simpl.
  - destruct (N !! q) as [m|]; simpl; [|done]. f_equal. unfold moved_node.
    rewrite app_nil_r, set_children_same, (decide_False (P := q ∈ [])) by set_solver.
    by destruct (decide _).
  - rewrite IH, lookup_move by set_solver. destruct (N !! q); simpl; [|done].
    by rewrite moved_node_app.
Qed.

Lemma lookup_notify parent N q : t_notify parent N !! q = notified parent q <$> N !! q.
Proof.
  unfold t_notify, notified. destruct parent as [r|].
  - destruct (decide (q = r)) as [->|Hq].
    + rewrite lookup_alter_eq. by destruct (decide _).
    + rewrite lookup_alter_ne by done. destruct (N !! q); simpl; [|done].
      by rewrite decide_False by congruence.
  - by destruct (N !! q).
Qed.

Lemma lookup_exit T p code n q :
  root ∉ n_children n → p ∉ n_children n → (p = root → n_children n = []) →
  t_nodes (t_exit p code n T) !! q = exit_node p code n q <$> t_nodes T !! q.
Proof.
  intros Hr Hp Hroot. simpl. rewrite lookup_notify, lookup_moves by done. unfold exit_node.
  destruct (decide (q = p)) as [->|Hq].
  - rewrite lookup_alter_eq. destruct (t_nodes T !! p); simpl; [|done]. do 2 f_equal.
    unfold moved_node. destruct (decide (p = root)) as [E|E]; [by rewrite (Hroot E)|].
    by rewrite decide_False.
  - rewrite lookup_alter_ne by done. by destruct (t_nodes T !! q).
Qed.

Lemma exit_node_parent p code n q m :
  root ∉ n_children n → n_parent (exit_node p code n q m) =
  if decide (q = p) then None
  else if decide (q ∈ n_children n) then Some root else n_parent m.
Proof.
  intros Hr. unfold exit_node, notified, moved_node.
  repeat destruct (decide _); subst; done.
Qed.
Lemma exit_node_status p code n q m :
  n_status (exit_node p code n q m) = if decide (q = p) then Some code else n_status m.
Proof. unfold exit_node, notified, moved_node. repeat destruct (decide _); done. Qed.
Lemma exit_node_children p code n q m :
  n_children (exit_node p code n q m) =
  if decide (q = p) then []
  else if decide (q = root) then n_children m ++ n_children n else n_children m.
Proof. unfold exit_node, notified, moved_node. repeat destruct (decide _); done. Qed.
End lookups.

(** ** The invariant is kept *)
Section invariant.
Context (T : tree).
Hypothesis HT : tree_ok T.

(** Every live process hangs, through live processes, below the root. *)
Lemma alive_root p : alive T p → alive T root.
Proof.
  destruct (ok_rank T HT) as (d & _ & _ & Hd).
  remember (d p) as k eqn:Hk. revert p Hk.
  induction (lt_wf k) as [k _ IH]. intros p -> (n & Hn & Hs).
  destruct (decide (p = root)) as [->|Hp]; [by exists n|].
  destruct (ok_alive T HT p n Hn Hs) as [_ [q Hq]]; [done|].
  destruct (ok_parent T HT p n Hn q Hq) as (nq & Hnq & Hin).
  eapply (IH (d q)); [by eapply Hd|done|]. exists nq. split; [done|].
  destruct (n_status nq) eqn:E; [|done]. exfalso.
  specialize (Hin Hs). rewrite (ok_zombie T HT q nq Hnq) in Hin by eauto. set_solver.
Qed.

Lemma child_not_self p n : t_nodes T !! p = Some n → n_status n = None → p ∉ n_children n.
Proof.
  intros Hn Hs Hin. destruct (ok_child T HT p n p Hn Hin) as (_ & _ & m & Hm & Hc).
  assert (m = n) as -> by congruence. destruct Hc as [Hp|[_ Hz]].
  - destruct (ok_rank T HT) as (d & _ & _ & Hd). specialize (Hd p n p Hn Hp). lia.
  - rewrite Hs in Hz. by destruct Hz.
Qed.
Lemma child_not_root p n : t_nodes T !! p = Some n → root ∉ n_children n.
Proof. intros Hn Hin. by destruct (ok_child T HT p n root Hn Hin) as [? _]. Qed.
End invariant.

Section fork_ok.
Context (T : tree) (p c : Z).
Hypothesis HT : tree_ok T.
Hypothesis Hp : alive T p.
Hypothesis Hc : t_nodes T !! c = None.

#[local] Lemma fork_pc : p ≠ c.
Proof. intros ->. destruct Hp as (? & ? & _). congruence. Qed.
#[local] Lemma fork_croot : c ≠ root.
Proof. intros ->. destruct (ok_listed T HT root) as [? ?]; [apply (ok_root T HT)|congruence]. Qed.
#[local] Lemma fork_not_child q m : t_nodes T !! q = Some m → c ∉ n_children m.
Proof.
  intros Hm Hin. destruct (ok_child T HT q m c Hm Hin) as (_ & _ & n & Hn & _). congruence.
Qed.
#[local] Lemma fork_children q m :
  n_children (fork_node p c q m) = if decide (q = p) then n_children m ++ [c] else n_children m.
Proof. unfold fork_node. by destruct (decide _). Qed.
#[local] Lemma fork_parent q m : n_parent (fork_node p c q m) = n_parent m.
Proof. unfold fork_node. by destruct (decide _). Qed.
#[local] Lemma fork_status q m : n_status (fork_node p c q m) = n_status m.
Proof. unfold fork_node. by destruct (decide _). Qed.
#[local] Lemma fork_elem q m x :
  x ∈ n_children (fork_node p c q m) ↔ x ∈ n_children m ∨ (q = p ∧ x = c).
Proof. rewrite fork_children. destruct (decide _); set_solver. Qed.
#[local] Lemma fork_old q m :
  t_nodes T !! q = Some m → t_nodes (t_fork p c T) !! q = Some (fork_node p c q m).
Proof.
  intros Hm. apply lookup_fork; [done|apply fork_pc|]. right. split; [congruence|eauto].
Qed.
#[local] Lemma fork_new : t_nodes (t_fork p c T) !! c = Some (mkNode (Some p) [] None 0).
Proof. apply lookup_fork; [done|apply fork_pc|]. by left. Qed.
(** A node of the new tree is the child or an old node. *)
#[local] Lemma fork_inv q m :
  t_nodes (t_fork p c T) !! q = Some m →
  (q = c ∧ m = mkNode (Some p) [] None 0) ∨
  (q ≠ c ∧ ∃ m0, t_nodes T !! q = Some m0 ∧ m = fork_node p c q m0).
Proof. apply lookup_fork; [done|apply fork_pc]. Qed.

Ltac fork_cases H :=
  let E := fresh "E" in
  apply fork_inv in H as [[-> ->]|(E & ? & H & ->)];
  rewrite ?fork_parent, ?fork_status in *; cbn [n_parent n_children n_status] in *.

#[local] Lemma fork_parents q m :
  t_nodes (t_fork p c T) !! q = Some m → parent_ok (t_nodes (t_fork p c T)) q m.
Proof.
  destruct Hp as (np & Hnp & Hs). intros Hm r Hr. fork_cases Hm.
  - injection Hr as <-. exists (fork_node p c p np). split; [by apply fork_old|].
    intros _. apply fork_elem. by right.
  - destruct (ok_parent T HT q _ Hm r Hr) as (nr & Hnr & Hin).
    exists (fork_node p c r nr). split; [by apply fork_old|]. intros Hq.
    apply fork_elem. left. by apply Hin.
Qed.

#[local] Lemma fork_childs q m x :
  t_nodes (t_fork p c T) !! q = Some m → x ∈ n_children m → child_ok (t_fork p c T) q x.
Proof.
  intros Hm Hx. fork_cases Hm; [set_solver|]. apply fork_elem in Hx as [Hx|[-> ->]].
  - destruct (ok_child T HT q _ x Hm Hx) as (H1 & H2 & n & Hn & H3).
    split; [done|]. split; [simpl; set_solver|]. exists (fork_node p c x n).
    rewrite fork_parent, fork_status. split; [by apply fork_old|done].
  - split; [apply fork_croot|]. split; [simpl; set_solver|]. eexists.
    split; [apply fork_new|]. by left.
Qed.

#[local] Lemma fork_uniq q r m n x :
  t_nodes (t_fork p c T) !! q = Some m → t_nodes (t_fork p c T) !! r = Some n →
  x ∈ n_children m → x ∈ n_children n → q = r.
Proof.
  intros Hm Hn Hx Hy. fork_cases Hm; [set_solver|]. fork_cases Hn; [set_solver|].
  apply fork_elem in Hx as [Hx|[Hq Hx]]; apply fork_elem in Hy as [Hy|[Hr Hy]].
  - by eapply (ok_unique T HT).
  - apply fork_not_child in Hm. congruence.
  - apply fork_not_child in Hn. congruence.
  - congruence.
Qed.

Lemma fork_rank d : ranked d (t_nodes T) →
  ranked (λ q, if decide (q = c) then S (d p) else d q) (t_nodes (t_fork p c T)).
Proof.
  intros (H0 & H1 & H2). pose proof fork_croot. pose proof fork_pc. split; [by rewrite decide_False|].
  split; [intros q Hq; case_decide; [lia|by apply H1]|].
  intros q m r Hm Hr. fork_cases Hm.
  - injection Hr as <-. rewrite (decide_False (P := p = c)), decide_True by done. lia.
  - rewrite (decide_False (P := q = c)) by done. specialize (H2 q _ r Hm Hr).
    destruct (decide (r = c)) as [->|]; [|done].
    destruct (ok_parent T HT q _ Hm c Hr) as (? & ? & _). congruence.
Qed.

Lemma fork_ok : tree_ok (t_fork p c T).
Proof.
  constructor.
  - apply fork_parents.
  - apply fork_childs.
  - intros q m Hm. fork_cases Hm; [constructor|]. rewrite fork_children.
    pose proof (fork_not_child q _ Hm). pose proof (ok_nodup T HT q _ Hm).
    destruct (decide _); [|done]. apply NoDup_app. split_and!; [done|set_solver|apply NoDup_singleton].
  - apply fork_uniq.
  - intros q m Hm Hz. fork_cases Hm; [by destruct Hz|].
    rewrite fork_children, (ok_zombie T HT q _ Hm) by done.
    destruct (decide (q = p)) as [->|]; [|done]. exfalso.
    destruct Hp as (np & Hnp & Hs), Hz as [? ?]. congruence.
  - intros q [->%elem_of_singleton|Hq]%elem_of_union; [rewrite fork_new; eauto|].
    destruct (ok_listed T HT q Hq) as [m Hm]. apply fork_old in Hm. eauto.
  - intros q m Hm Hs. fork_cases Hm; [split; [simpl; set_solver|eauto]|].
    destruct (ok_alive T HT q _ Hm Hs) as [? ?]. split; [simpl; set_solver|done].
  - destruct (ok_root T HT) as [Hr Hn]. split; [simpl; set_solver|]. intros m Hm.
    apply fork_inv in Hm as [[E _]|(_ & m0 & Hm & ->)]; [by destruct fork_croot|].
    rewrite fork_parent. by apply Hn.
  - destruct (ok_rank T HT) as [d Hd]. eexists. by apply fork_rank.
Qed.
End fork_ok.

Section exit_ok.
Context (T : tree) (p code : Z) (n : node).
Hypothesis HT : tree_ok T.
Hypothesis Hn : t_nodes T !! p = Some n.
Hypothesis Hs : n_status n = None.
Hypothesis Hroot : p = root → n_children n = [].
#[local] Abbreviation cs := (n_children n).
#[local] Abbreviation T' := (t_exit p code n T).

Lemma lookup_exit_node q : t_nodes T' !! q = exit_node p code n q <$> t_nodes T !! q.
Proof.
  apply lookup_exit; [by eapply child_not_root|by apply (child_not_self T HT p n)|done].
Qed.
#[local] Lemma exit_parent q m : n_parent (exit_node p code n q m) =
  if decide (q = p) then None else if decide (q ∈ cs) then Some root else n_parent m.
Proof. apply exit_node_parent. by eapply child_not_root. Qed.
#[local] Lemma exit_elem q m x :
  x ∈ n_children (exit_node p code n q m) ↔
  q ≠ p ∧ (x ∈ n_children m ∨ (q = root ∧ x ∈ cs)).
Proof.
  rewrite exit_node_children. destruct (decide (q = p)) as [->|]; [set_solver|].
  destruct (decide (q = root)); set_solver.
Qed.
#[local] Lemma exit_inv q m :
  t_nodes T' !! q = Some m → ∃ m0, t_nodes T !! q = Some m0 ∧ m = exit_node p code n q m0.
Proof. rewrite lookup_exit_node, fmap_Some. naive_solver. Qed.
#[local] Lemma exit_old q m :
  t_nodes T !! q = Some m → t_nodes T' !! q = Some (exit_node p code n q m).
Proof. rewrite lookup_exit_node. by intros ->. Qed.
#[local] Lemma exit_child_p q m : t_nodes T !! q = Some m → ∀ x, x ∈ n_children m → x ∈ cs → q = p.
Proof. intros Hm x Hx Hc. by eapply (ok_unique T HT). Qed.

#[local] Lemma exit_parents q m :
  t_nodes T' !! q = Some m → parent_ok (t_nodes T') q m.
Proof.
  intros (m0 & Hm & ->)%exit_inv r Hr. rewrite exit_parent in Hr. rewrite exit_node_status.
  destruct (decide (q = p)) as [->|Hqp]; [done|]. destruct (decide (q ∈ cs)) as [Hin|Hin].
  - injection Hr as <-. destruct (ok_listed T HT root) as [m1 H1]; [apply (ok_root T HT)|].
    eexists. split; [by apply exit_old|]. intros _. apply exit_elem. split; [|by right].
    intros <-. rewrite Hroot in Hin by done. set_solver.
  - destruct (ok_parent T HT q m0 Hm r Hr) as (nr & Hnr & Hc).
    eexists. split; [by apply exit_old|]. intros Hq. apply exit_elem.
    specialize (Hc Hq). split; [|by left]. intros ->.
    assert (nr = n) as -> by congruence. done.
Qed.

#[local] Lemma exit_childs q m x :
  t_nodes T' !! q = Some m → x ∈ n_children m → child_ok T' q x.
Proof.
  intros (m0 & Hm & ->)%exit_inv [Hqp Hx]%exit_elem.
  assert (∃ r, child_ok T r x ∧ (r = q ∧ x ∉ cs ∨ q = root ∧ x ∈ cs)) as (r & Hok & Hr).
  { destruct Hx as [Hx|[-> Hx]]; [exists q|exists p; split; [by eapply ok_child|by right]].
    split; [by eapply ok_child|]. left. split; [done|]. intros Hc. by apply Hqp, (exit_child_p q m0 Hm x). }
  destruct Hok as (H1 & H2 & mx & Hmx & H3). split; [done|]. split; [done|].
  eexists. split; [by apply exit_old|]. rewrite exit_parent, exit_node_status.
  destruct (decide (x = p)) as [->|]; [right; eauto|].
  destruct (decide (x ∈ cs)) as [Hc|Hc]; [left; naive_solver|].
  destruct Hr as [[-> _]|[_ ?]]; [|done]. done.
Qed.

#[local] Lemma exit_nodup q m : t_nodes T' !! q = Some m → NoDup (n_children m).
Proof.
  intros (m0 & Hm & ->)%exit_inv. rewrite exit_node_children.
  destruct (decide (q = p)) as [->|Hqp]; [constructor|].
  pose proof (ok_nodup T HT q m0 Hm). destruct (decide (q = root)); [|done].
  apply NoDup_app. split_and!; [done| |by eapply ok_nodup].
  intros x Hx Hc. by apply Hqp, (exit_child_p q m0 Hm x).
Qed.

#[local] Lemma exit_uniq q r m m' x :
  t_nodes T' !! q = Some m → t_nodes T' !! r = Some m' →
  x ∈ n_children m → x ∈ n_children m' → q = r.
Proof.
  intros (m0 & Hm & ->)%exit_inv (m1 & Hm1 & ->)%exit_inv [Hq Hx]%exit_elem [Hr Hy]%exit_elem.
  destruct Hx as [Hx|[-> Hx]], Hy as [Hy|[-> Hy]].
  - by eapply (ok_unique T HT).
  - by destruct (Hq (exit_child_p q m0 Hm x Hx Hy)).
  - by destruct (Hr (exit_child_p r m1 Hm1 x Hy Hx)).
  - done.
Qed.

#[local] Lemma exit_zombies q m :
  t_nodes T' !! q = Some m → is_Some (n_status m) → n_children m = [].
Proof.
  intros (m0 & Hm & ->)%exit_inv. rewrite exit_node_status, exit_node_children.
  destruct (decide (q = p)) as [->|Hqp]; [done|]. intros Hz.
  rewrite (ok_zombie T HT q m0 Hm Hz). destruct (decide (q = root)) as [->|]; [|done].
  destruct (alive_root T HT p) as (m1 & Hm1 & Hz1); [by exists n|].
  destruct Hz. congruence.
Qed.

Lemma exit_ok : tree_ok T'.
Proof.
  constructor.
  - apply exit_parents.
  - apply exit_childs.
  - apply exit_nodup.
  - apply exit_uniq.
  - apply exit_zombies.
  - intros q Hq. destruct (ok_listed T HT q Hq) as [m Hm]. apply exit_old in Hm. eauto.
  - intros q m (m0 & Hm & ->)%exit_inv. rewrite exit_node_status, exit_parent.
    destruct (decide (q = p)); [done|]. intros Hz.
    destruct (ok_alive T HT q m0 Hm Hz) as [? Hq]. split; [done|]. intros Hqr.
    destruct (decide _); [eauto|by apply Hq].
  - destruct (ok_root T HT) as [Hr Hn1]. split; [done|]. intros m (m0 & Hm & ->)%exit_inv.
    rewrite exit_parent. destruct (decide (root = p)); [done|].
    rewrite decide_False by (by eapply child_not_root). by apply Hn1.
  - destruct (ok_rank T HT) as (d & H0 & H1 & H2). exists d. split; [done|]. split; [done|].
    intros q m r (m0 & Hm & ->)%exit_inv. rewrite exit_parent.
    destruct (decide (q = p)); [done|]. destruct (decide (q ∈ cs)) as [Hin|].
    + intros [= <-]. rewrite H0. apply H1. intros ->. by apply (child_not_root T HT p n Hn).
    + by apply H2.
Qed.
End exit_ok.

Section reap_ok.
Context (T : tree) (p c : Z) (n nc : node).
Hypothesis HT : tree_ok T.
Hypothesis Hn : t_nodes T !! p = Some n.
Hypothesis Hin : c ∈ n_children n.
Hypothesis Hnc : t_nodes T !! c = Some nc.
Hypothesis Hz : is_Some (n_status nc).
#[local] Abbreviation T' := (t_reap p c T).

Definition reap_node (q : Z) (m : node) : node :=
  if decide (q = p) then set_children (filter (λ x, x ≠ c) (n_children m)) m else m.

Lemma lookup_reap q : t_nodes T' !! q = reap_node q <$> t_nodes T !! q.
Proof.
  unfold reap_node. simpl. destruct (decide (q = p)) as [->|Hq].
  - by rewrite lookup_alter_eq.
  - rewrite lookup_alter_ne by done. by destruct (t_nodes T !! q).
Qed.
#[local] Lemma reap_inv q m :
  t_nodes T' !! q = Some m → ∃ m0, t_nodes T !! q = Some m0 ∧ m = reap_node q m0.
Proof. rewrite lookup_reap, fmap_Some. naive_solver. Qed.
#[local] Lemma reap_old q m : t_nodes T !! q = Some m → t_nodes T' !! q = Some (reap_node q m).
Proof. rewrite lookup_reap. by intros ->. Qed.
#[local] Lemma reap_parent q m : n_parent (reap_node q m) = n_parent m.
Proof. unfold reap_node. by destruct (decide _). Qed.
#[local] Lemma reap_status q m : n_status (reap_node q m) = n_status m.
Proof. unfold reap_node. by destruct (decide _). Qed.
#[local] Lemma reap_elem q m x :
  t_nodes T !! q = Some m → x ∈ n_children (reap_node q m) ↔ x ∈ n_children m ∧ x ≠ c.
Proof.
  intros Hm. unfold reap_node. destruct (decide (q = p)) as [->|Hq]; simpl.
  - rewrite list_elem_of_filter. tauto.
  - split; [|tauto]. intros Hx. split; [done|]. intros ->. by apply Hq, (ok_unique T HT q p m n c).
Qed.

Lemma reap_ok : tree_ok T'.
Proof.
  constructor.
  - intros q m (m0 & Hm & ->)%reap_inv r. rewrite reap_parent, reap_status. intros Hr.
    destruct (ok_parent T HT q m0 Hm r Hr) as (nr & Hnr & Hc).
    eexists. split; [by apply reap_old|]. intros Hs. rewrite reap_elem by done.
    split; [by apply Hc|]. intros ->. destruct Hz. congruence.
  - intros q m x (m0 & Hm & ->)%reap_inv. rewrite reap_elem by done. intros [Hx Hxc].
    destruct (ok_child T HT q m0 x Hm Hx) as (H1 & H2 & mx & Hmx & H3).
    split; [done|]. split; [simpl; set_solver|]. eexists. split; [by apply reap_old|].
    by rewrite reap_parent, reap_status.
  - intros q m (m0 & Hm & ->)%reap_inv. pose proof (ok_nodup T HT q m0 Hm). unfold reap_node.
    destruct (decide _); [|done]. simpl. by apply NoDup_filter.
  - intros q r m m' x (m0 & Hm & ->)%reap_inv (m1 & Hm1 & ->)%reap_inv.
    rewrite !reap_elem by done. intros [? _] [? _]. by eapply (ok_unique T HT).
  - intros q m (m0 & Hm & ->)%reap_inv. rewrite reap_status. intros Hs.
    pose proof (ok_zombie T HT q m0 Hm Hs) as E. unfold reap_node.
    destruct (decide _); simpl; by rewrite E.
  - intros q [Hq _]%elem_of_difference. destruct (ok_listed T HT q Hq) as [m Hm].
    apply reap_old in Hm. eauto.
  - intros q m (m0 & Hm & ->)%reap_inv. rewrite reap_parent, reap_status. intros Hs.
    destruct (ok_alive T HT q m0 Hm Hs) as [? ?]. split; [|done].
    apply elem_of_difference. split; [done|]. intros ->%elem_of_singleton.
    destruct Hz. congruence.
  - destruct (ok_root T HT) as [Hr Hn1]. split.
    + apply elem_of_difference. split; [done|]. intros <-%elem_of_singleton.
      by apply (child_not_root T HT p n Hn).
    + intros m (m0 & Hm & ->)%reap_inv. rewrite reap_parent. by apply Hn1.
  - destruct (ok_rank T HT) as (d & H0 & H1 & H2). exists d. split; [done|]. split; [done|].
    intros q m r (m0 & Hm & ->)%reap_inv. rewrite reap_parent. by apply H2.
Qed.
End reap_ok.

Lemma drop_ok T c : tree_ok T → unreferenced T c → tree_ok (t_drop c T).
Proof.
  intros HT [Hl Hu].
  assert (Hi : ∀ q m, t_nodes (t_drop c T) !! q = Some m → q ≠ c ∧ t_nodes T !! q = Some m).
  { intros q m. simpl. rewrite lookup_delete_Some. naive_solver. }
  assert (Ho : ∀ q m, q ≠ c → t_nodes T !! q = Some m → t_nodes (t_drop c T) !! q = Some m).
  { intros q m Hq. simpl. by rewrite lookup_delete_ne. }
  constructor.
  - intros q m [Hq Hm]%Hi r Hr. destruct (ok_parent T HT q m Hm r Hr) as (nr & Hnr & Hc).
    exists nr. split; [|done]. apply Ho; [|done]. intros ->. by destruct (Hu q m Hm).
  - intros q m x [Hq Hm]%Hi Hx. destruct (ok_child T HT q m x Hm Hx) as (H1 & H2 & mx & Hmx & H3).
    split; [done|]. split; [done|]. exists mx. split; [|done]. apply Ho; [|done].
    intros ->. by destruct (Hu q m Hm).
  - intros q m [_ Hm]%Hi. by eapply ok_nodup.
  - intros q r m m' x [_ Hm]%Hi [_ Hm']%Hi. by eapply (ok_unique T HT).
  - intros q m [_ Hm]%Hi. by eapply ok_zombie.
  - intros q Hq. destruct (ok_listed T HT q Hq) as [m Hm]. exists m. apply Ho; [|done].
    by intros ->.
  - intros q m [_ Hm]%Hi. by eapply (ok_alive T HT).
  - destruct (ok_root T HT) as [Hr Hn]. split; [done|]. intros m [_ Hm]%Hi. by apply Hn.
  - destruct (ok_rank T HT) as (d & H0 & H1 & H2). exists d. split; [done|]. split; [done|].
    intros q m r [_ Hm]%Hi. by apply H2.
Qed.

(** Every transition keeps the invariant. *)
Lemma tree_step_ok T T' : tree_step T T' → tree_ok T → tree_ok T'.
Proof.
  intros [T0 p c ? ?|T0 p code n ? ? ?|T0 p n c nc ? ? ? ?|T0 c ?] HT.
  - by apply fork_ok.
  - by apply exit_ok.
  - by eapply reap_ok.
  - by apply drop_ok.
Qed.

(** The tree with the first process alone. *)
Definition t_init : tree := mkTree {[ root := mkNode None [] None 0 ]} {[ root ]}.

Lemma t_init_ok : tree_ok t_init.
Proof.
  assert (Hi : ∀ q m, t_nodes t_init !! q = Some m → q = root ∧ m = mkNode None [] None 0).
  { intros q m. simpl. rewrite lookup_singleton_Some. naive_solver. }
  constructor.
  - intros q m [-> ->]%Hi r. done.
  - intros q m x [-> ->]%Hi Hx. by apply elem_of_nil in Hx.
  - intros q m [-> ->]%Hi. constructor.
  - intros q r m m' x [-> ->]%Hi [-> ->]%Hi. done.
  - intros q m [-> ->]%Hi. done.
  - simpl. intros q ->%elem_of_singleton. rewrite lookup_singleton_eq. eauto.
  - intros q m [-> ->]%Hi _. simpl. split; [set_solver|done].
  - split; [simpl; set_solver|]. intros m [_ ->]%Hi. done.
  - exists (λ q, if decide (q = root) then 0 else 1)%nat. split; [done|].
    split; [intros c ?; rewrite decide_False by done; lia|]. intros q m r [-> ->]%Hi. done.
Qed.

(** ** Waiting

    A waiter takes its listener, looks for a zombie child, and sleeps until the
    count of notifications has grown. *)
Definition zombie_child (T : tree) (p c : Z) : Prop :=
  ∃ n nc, t_nodes T !! p = Some n ∧ c ∈ n_children n ∧
          t_nodes T !! c = Some nc ∧ is_Some (n_status nc).
(** What holds while [p] sleeps on a listener taken at count [k], waiting for
    the children of [W]: a zombie among them has notified it since. *)
Definition waiting (W : Z → Prop) (p : Z) (k : nat) (T : tree) : Prop :=
  ∃ n, t_nodes T !! p = Some n ∧ n_status n = None ∧ (k ≤ n_events n)%nat ∧
       ∀ c, W c → zombie_child T p c → (k < n_events n)%nat.

Lemma waiting_start (W : Z → Prop) p n T :
  t_nodes T !! p = Some n → n_status n = None → (∀ c, W c → ¬ zombie_child T p c) →
  waiting W p (n_events n) T.
Proof.
  intros Hn Hs Hz. exists n. split_and!; [done|done|lia|]. intros c Hw Hc. by destruct (Hz c Hw).
Qed.

Lemma exit_node_events p code n q m :
  n_events (exit_node p code n q m) =
  if decide (n_parent n = Some q) then S (n_events m) else n_events m.
Proof. unfold exit_node, notified, moved_node. repeat destruct (decide _); done. Qed.

Section waiting_step.
Context (T : tree) (W : Z → Prop) (p : Z) (k : nat).
Hypothesis HT : tree_ok T.
Hypothesis Hp : p ≠ root.
Hypothesis Hw : waiting W p k T.

Lemma waiting_fork q c : alive T q → t_nodes T !! c = None → waiting W p k (t_fork q c T).
Proof.
  intros Hq Hc. assert (q ≠ c) by (intros ->; destruct Hq as (? & ? & _); congruence).
  destruct Hw as (n & Hn & Hs & Hk & Hz).
  assert (Hn' : t_nodes (t_fork q c T) !! p = Some (fork_node q c p n)).
  { apply lookup_fork; [done|done|]. right. split; [congruence|eauto]. }
  assert (n_events (fork_node q c p n) = n_events n) as Ee by (unfold fork_node; by destruct (decide _)).
  exists (fork_node q c p n). rewrite fork_status, Ee. split_and!; [done|done|done|].
  intros x Hwx (n1 & nx & H1 & H2 & H3 & H4). assert (n1 = fork_node q c p n) as -> by congruence.
  apply lookup_fork in H3 as [[_ ->]|(Hxc & m & Hm & ->)]; [by destruct H4| |done|done].
  apply (fork_elem T q c HT Hq Hc) in H2 as [H2|[_ ?]]; [|done]. rewrite fork_status in H4.
  apply (Hz x Hwx). by exists n, m.
Qed.

Lemma waiting_exit q code nq :
  t_nodes T !! q = Some nq → n_status nq = None → (q = root → n_children nq = []) →
  alive (t_exit q code nq T) p → waiting W p k (t_exit q code nq T).
Proof.
  intros Hq Hqs Hqr (n' & Hn' & Hs'). destruct Hw as (n & Hn & Hs & Hk & Hz).
  pose proof (lookup_exit_node T q code nq HT Hq Hqs Hqr) as Hl.
  assert (n' = exit_node q code nq p n) as -> by (rewrite Hl, Hn in Hn'; by injection Hn').
  exists (exit_node q code nq p n). rewrite exit_node_events. split_and!; [done|done| |].
  { destruct (decide _); lia. }
  rewrite exit_node_status in Hs'. destruct (decide (p = q)); [done|].
  intros x Hwx (n1 & nx & H1 & H2 & H3 & H4). assert (n1 = exit_node q code nq p n) as -> by congruence.
  rewrite exit_node_children, !decide_False in H2 by done.
  rewrite Hl in H3. apply fmap_Some in H3 as (mx & Hmx & ->). rewrite exit_node_status in H4.
  destruct (decide (x = q)) as [->|Hxq].
  - destruct (ok_child T HT p n q Hn H2) as (_ & _ & m & Hm & Hc).
    assert (m = nq) as -> by congruence. destruct Hc as [Hc|[_ Hc]].
    + rewrite decide_True by done. lia.
    + rewrite Hqs in Hc. by destruct Hc.
  - assert (k < n_events n)%nat by (apply (Hz x Hwx); by exists n, mx). destruct (decide _); lia.
Qed.

Lemma waiting_reap q c n nc :
  t_nodes T !! q = Some n → c ∈ n_children n → t_nodes T !! c = Some nc →
  is_Some (n_status nc) → waiting W p k (t_reap q c T).
Proof.
  intros Hq Hin Hc Hnc. destruct Hw as (m & Hm & Hs & Hk & Hz).
  assert (Hm' : t_nodes (t_reap q c T) !! p = Some (reap_node q c p m)) by by rewrite lookup_reap, Hm.
  assert (n_events (reap_node q c p m) = n_events m) as Ee by (unfold reap_node; by destruct (decide _)).
  exists (reap_node q c p m). rewrite reap_status, Ee. split_and!; [done|done|done|].
  intros x Hwx (n1 & nx & H1 & H2 & H3 & H4). assert (n1 = reap_node q c p m) as -> by congruence.
  rewrite lookup_reap in H3. apply fmap_Some in H3 as (mx & Hmx & ->). rewrite reap_status in H4.
  rewrite (reap_elem T q c n HT Hq Hin) in H2 by done.
  apply (Hz x Hwx). exists m, mx. tauto.
Qed.

Lemma waiting_drop c : alive (t_drop c T) p → waiting W p k (t_drop c T).
Proof.
  intros (n' & Hn' & _). destruct Hw as (n & Hn & Hs & Hk & Hz).
  simpl in Hn'. apply lookup_delete_Some in Hn' as [Hpc Hn'].
  exists n. split_and!; [simpl; by rewrite lookup_delete_ne|done|done|].
  intros x Hwx (n1 & nx & H1 & H2 & H3 & H4). simpl in H1, H3.
  apply lookup_delete_Some in H1 as [_ H1], H3 as [_ H3]. apply (Hz x Hwx). by exists n1, nx.
Qed.
End waiting_step.

Lemma waiting_step W p k T T' :
  p ≠ root → tree_ok T → waiting W p k T → tree_step T T' → alive T' p → waiting W p k T'.
Proof.
  intros Hp HT Hw Hs Ha. destruct Hs as [T0 q c ? ?|T0 q code n ? ? ?|T0 q n c nc ? ? ? ?|T0 c ?].
  - by apply waiting_fork.
  - by apply waiting_exit.
  - by eapply waiting_reap.
  - by apply waiting_drop.
Qed.

(** A child of a process that is not the root's own child becomes a zombie
    child of the root without the root being notified. *)
Lemma reparent_does_not_notify :
  ∃ T T' c n, rtc tree_step t_init T ∧ tree_step T T' ∧ t_nodes T !! root = Some n ∧
    (∀ c, ¬ zombie_child T root c) ∧ zombie_child T' root c ∧
    ∃ n', t_nodes T' !! root = Some n' ∧ n_events n' = n_events n.
Proof.
  set (T1 := t_fork 1 2 t_init). set (T2 := t_fork 2 3 T1). set (T3 := t_fork 3 4 T2).
  set (T4 := t_exit 4 0 (mkNode (Some 3) [] None 0) T3).
  set (T5 := t_exit 3 0 (mkNode (Some 2) [4] None 1) T4).
  exists T4, T5, 4, (mkNode None [2] None 0). split_and!.
  - eapply rtc_l; [apply (ts_fork _ 1 2); [by eexists|done]|].
    eapply rtc_l; [apply (ts_fork _ 2 3); [by eexists|done]|].
    eapply rtc_l; [apply (ts_fork _ 3 4); [by eexists|done]|].
    apply rtc_once. by apply (ts_exit _ 4).
  - by apply (ts_exit _ 3).
  - done.
  - intros c (n & nc & Hn & Hc & Hnc & Hz). vm_compute in Hn. injection Hn as <-.
    apply list_elem_of_singleton in Hc as ->. vm_compute in Hnc. injection Hnc as <-. by destruct Hz.
  - eexists _, _. split_and!; [reflexivity|vm_compute; set_solver|reflexivity|]. by eexists.
  - by eexists.
Qed.
