(* ===== verification/ProcessSteps.v ===== *)
(** * The kernel's processes implement the process tree

    Every handler of [Process.v] is related to a transition of
    [ProcessTree.v], or to none; the invariant of the tree follows for every
    state the kernel reaches from boot. *)
From S2P Require Import Prelude BTree Defines Kst IdAllocator FrameAllocator PageTable VmArea MemorySpace Trap Signal UserCheck FdTable Process ProcessTree.

Section steps.
Context {BD : Buddy} {KI : KernelImage} {PE : ProcessEnv} {F : Type}.
Implicit Types (p : Process F) (k : Kernel F) (T : tree) (b : bool).

(** ** The tree of a kernel state *)
Definition node_of p : node :=
  mkNode (p_parent p) (p_children p)
    (if ProcessStatus.is_zombie (p_status p) then Some (Z.land (p_status p) 255) else None)
    (p_events p).
Definition abs k : tree := mkTree (node_of <$> k_procs k) (k_manager k).

(** Zombies have no thread; the pids of live processes are in use. *)
Definition zombie_idle p : Prop := ProcessStatus.is_zombie (p_status p) = true → p_threads p = ∅.
Record kernel_ok k : Prop := {
  ko_idle pid p : k_procs k !! pid = Some p → zombie_idle p;
  ko_pids : alloc_inv 1 (k_pids k);
  ko_live pid : is_Some (k_procs k !! pid) → pid ∈ live 1 (k_pids k);
}.

(** The states with a given tree and shutdown flag. *)
Definition Inv T b k : Prop := abs k = T ∧ k_shutdown k = b ∧ kernel_ok k.

(** A handler that leaves the tree alone. *)
Definition keeps {A} (c : kst (Kernel F) A) : Prop :=
  ∀ T b, hoare (Inv T b) c (λ _, Inv T b) (λ _, Inv T b).

Lemma hoare_kstate {S A} (P R : S → Prop) (c : kst S A) s s' :
  hoare P c (λ _, R) (λ _, R) → P s → kstate (c s) = Some s' → R s'.
Proof. intros Hc Hs Hr. specialize (Hc s Hs). destruct (c s); simplify_eq/=; done. Qed.

Lemma h_weaken {S A} (P : S → Prop) (E E' : errno → S → Prop) (c : kst S A) Q :
  hoare P c Q E → (∀ e s, E e s → E' e s) → hoare P c Q E'.
Proof. intros Hc HE. by eapply h_conseq. Qed.

(** ** Rules for the primitive operations *)
Lemma h_bindp {S A B} (P : S → Prop) (φ : A → Prop) (c : kst S A) (f : A → kst S B) Q E :
  hoare P c (λ a s, P s ∧ φ a) E → (∀ a, φ a → hoare P (f a) Q E) → hoare P (c ≫= f) Q E.
Proof.
  intros Hc Hf. eapply h_bind; [exact Hc|]. intros a s [Hs Ha]. by apply (Hf a Ha s Hs).
Qed.
Lemma hp_ret {S A} (P : S → Prop) (x : A) E : hoare P (mret x) (λ a s, P s ∧ a = x) E.
Proof. apply h_ret. eauto. Qed.
Lemma hp_get {S} (P : S → Prop) E : hoare P kget (λ a s, P s ∧ P a) E.
Proof. apply h_get. auto. Qed.
Lemma hp_assert {S} (P : S → Prop) x E : hoare P (kassert x) (λ _ s, P s ∧ x = true) E.
Proof. apply h_assert. auto. Qed.
Lemma hp_unwrap {S A} (P : S → Prop) (o : option A) E :
  hoare P (kunwrap o) (λ a s, P s ∧ o = Some a) E.
Proof. apply h_unwrap. auto. Qed.
Lemma hp_ok_or {S A} (P : S → Prop) (o : option A) e :
  hoare P (kok_or o e) (λ a s, P s ∧ o = Some a) (λ _, P).
Proof. apply h_ok_or; auto. Qed.
Lemma hp_lift {S A} (P : S → Prop) (o : KResult A) :
  hoare P (klift o) (λ a s, P s ∧ o = Ok a) (λ _, P).
Proof. apply h_lift; auto. Qed.
Lemma hp_triv {S A} (P : S → Prop) (c : kst S A) E :
  hoare P c (λ _, P) E → hoare P c (λ _ s, P s ∧ True) E.
Proof. intros Hc. eapply h_conseq; [exact Hc|..]; auto. Qed.

Lemma hp_proc T b pid E :
  hoare (Inv T b) (proc pid)
    (λ p k, Inv T b k ∧ t_nodes T !! pid = Some (node_of p) ∧ zombie_idle p) E.
Proof.
  intros k (Ha & Hb & Hk). unfold proc, mbind, kst_bind, kget. simpl.
  destruct (k_procs k !! pid) as [p|] eqn:Hp; [|done]. simpl. split; [done|].
  rewrite <- Ha. simpl. rewrite lookup_fmap, Hp. split; [done|]. by eapply ko_idle.
Qed.
Lemma hp_set_mem T b m E : hoare (Inv T b) (kmodify (set_mem m)) (λ _, Inv T b) E.
Proof. apply h_modify. intros k (Ha & Hb & [H1 H2 H3]). split_and!; [done..|]. by constructor. Qed.

(** Storing a process back. *)
Lemma hp_put_alter T b pid p p' f E :
  t_nodes T !! pid = Some (node_of p) → node_of p' = f (node_of p) → zombie_idle p' →
  hoare (Inv T b) (put_proc pid p')
    (λ _, Inv (mkTree (alter f pid (t_nodes T)) (t_listed T)) b) E.
Proof.
  intros Hp Hn Hi. apply h_modify. intros k (Ha & Hb & [H1 H2 H3]). split_and!; [|done|].
  - rewrite <- Ha. unfold abs. simpl. f_equal. apply map_eq. intros q. rewrite lookup_fmap.
    rewrite <- Ha in Hp. simpl in Hp. destruct (decide (q = pid)) as [->|Hq].
    + by rewrite lookup_insert_eq, lookup_alter_eq, Hp; simpl; rewrite Hn.
    + by rewrite lookup_insert_ne, lookup_alter_ne, lookup_fmap.
  - constructor; [|done|]; simpl.
    + intros q q'. rewrite lookup_insert_Some. intros [[_ <-]|[_ ?]]; [done|by eapply H1].
    + intros q. rewrite lookup_insert_is_Some'. intros [<-|?]; [|by apply H3].
      apply H3. rewrite <- Ha in Hp. simpl in Hp. rewrite lookup_fmap in Hp.
      apply fmap_Some in Hp as (? & ? & _). eauto.
Qed.
Lemma hp_put T b pid p' E :
  t_nodes T !! pid = Some (node_of p') → zombie_idle p' →
  hoare (Inv T b) (put_proc pid p') (λ _, Inv T b) E.
Proof.
  intros Hp Hi. eapply h_conseq; [by apply (hp_put_alter T b pid p' p' id)|done| |done].
  intros a k. simpl. replace (alter id pid (t_nodes T)) with (t_nodes T); [by destruct T|].
  symmetry. apply map_eq. intros q. destruct (decide (q = pid)) as [->|].
  - rewrite lookup_alter_eq. by destruct (t_nodes T !! pid).
  - by rewrite lookup_alter_ne.
Qed.

(** A process with a thread is not a zombie. *)
Lemma running p : zombie_idle p → p_threads p ≠ ∅ → ProcessStatus.is_zombie (p_status p) = false.
Proof. unfold zombie_idle. destruct (ProcessStatus.is_zombie _); [naive_solver|done]. Qed.
Lemma running_idle p : ProcessStatus.is_zombie (p_status p) = false → zombie_idle p.
Proof. intros E. unfold zombie_idle. by rewrite E. Qed.
Lemma single_thread p : (size (p_threads p) =? 1)%nat = true → p_threads p ≠ ∅.
Proof. intros Hs%Nat.eqb_eq E. rewrite E, map_size_empty in Hs. done. Qed.
End steps.

(** One step through a handler that keeps the tree. *)
Ltac keep1 :=
  lazymatch goal with
  | |- hoare _ (mbind _ _) _ _ => eapply h_bindp;
      [ lazymatch goal with
        | |- hoare _ (proc _) _ _ => apply hp_proc
        | |- hoare _ kget _ _ => apply hp_get
        | |- hoare _ (kassert _) _ _ => apply hp_assert
        | |- hoare _ (kunwrap _) _ _ => apply hp_unwrap
        | |- hoare _ (main_thread _) _ _ => apply hp_unwrap
        | |- hoare _ (kok_or _ _) _ _ => apply hp_ok_or
        | |- hoare _ (klift _) _ _ => apply hp_lift
        | |- hoare _ (mret _) _ _ => apply hp_ret
        | |- hoare _ (kmodify (set_mem _)) _ _ => apply hp_triv, hp_set_mem
        | |- hoare _ _ _ _ => apply hp_triv
        end | ]
  | |- hoare _ (kmodify (set_mem _)) _ _ => apply hp_set_mem
  | |- hoare _ kcrash _ _ => apply h_crash
  | |- hoare _ (kfail _) _ _ => apply h_fail; auto
  | |- hoare _ (mret _) _ _ => apply h_ret; auto
  | |- hoare _ (match ?x with _ => _ end) _ _ => destruct x eqn:?
  end.

Section handlers.
Context {BD : Buddy} {KI : KernelImage} {PE : ProcessEnv} {F : Type}.
Implicit Types (p : Process F) (k : Kernel F) (T : tree) (b : bool).

(** ** Handlers that leave the tree alone *)
Lemma exited_not_zombie code : ProcessStatus.is_zombie (ProcessStatus.exited code) = false.
Proof.
  assert (forallb (λ c, negb (ProcessStatus.is_zombie (Z.lor (Z.shiftl 1 8) c))) (seqZ 0 256) = true)
    as Hf by (by vm_compute).
  rewrite forallb_forall in Hf. unfold ProcessStatus.exited.
  apply negb_true_iff, Hf, list_elem_of_In, elem_of_seqZ. unfold wrap. pose proof (Z.mod_pos_bound code (2 ^ 8)). lia.
Qed.

Lemma exit_process_keeps pid code : keeps (k_exit_process (F:=F) pid code).
Proof.
  intros T b. unfold k_exit_process, exit_process. keep1. intros p [Hp Hi]. keep1.
  intros st Hst. destruct (p_status p =? ProcessStatus.normal) eqn:En; [|done].
  injection Hst as <-. apply Z.eqb_eq in En. apply hp_put.
  - rewrite Hp. unfold node_of. simpl. by rewrite En, exited_not_zombie.
  - apply running_idle, exited_not_zombie.
Qed.

Lemma receive_loop_empty s order : receive_loop ∅ s order = ∅.
Proof. induction order as [|tid order IH]; [done|]. simpl. by rewrite lookup_empty. Qed.
Lemma receive_idle p s : zombie_idle p → zombie_idle (receive p s).
Proof.
  unfold zombie_idle. intros Hi Hz. simpl. unfold receive_signal. rewrite Hi by done.
  apply receive_loop_empty.
Qed.

Lemma exec_inner_keeps pid elf elf_data args envs :
  keeps (exec_inner (F:=F) pid elf elf_data args envs).
Proof.
  intros T b. unfold exec_inner. keep1. intros p [Hp Hi]. keep1. intros ? Ht. keep1.
  intros ? _. keep1. intros k _. keep1. intros [sp m] _. keep1. intros [[r sp'] m'] _.
  keep1. intros ? _. keep1; [by apply hp_put|]. intros ? _.
  assert (Hz : ProcessStatus.is_zombie (p_status p) = false) by by apply running, single_thread.
  keep1; [|by keep1]. destruct p0 as [[elf_end auxv] entry]. keep1. intros [[[usp av] sp''] m''] _.
  keep1. intros ? _. keep1. intros t _. apply hp_put; [done|by apply running_idle].
Qed.

Lemma exec_keeps pid elf_data args envs : keeps (exec (F:=F) pid elf_data args envs).
Proof.
  intros T b. unfold exec. keep1. intros elf _. keep1; [apply h_try, exec_inner_keeps|].
  intros [[]|err] _.
  - destruct (process_name_from_args None args); keep1. intros p [Hp Hi]. by apply hp_put.
  - keep1; [apply exit_process_keeps|]. intros ? _. by keep1.
Qed.

Lemma update_thread_keeps pid tid f : keeps (update_thread (F:=F) pid tid f).
Proof.
  intros T b. unfold update_thread. keep1. intros p [Hp Hi]. keep1. intros t Ht.
  assert (Hz : ProcessStatus.is_zombie (p_status p) = false).
  { apply running; [done|]. intros E. by rewrite E, lookup_empty in Ht. }
  apply hp_put; [done|by apply running_idle].
Qed.

Lemma on_space_keeps {A} pid (c : kst (MemorySpace * Mem) A) : keeps (on_space (F:=F) pid c).
Proof.
  intros T b k (Ha & Hb & [H1 H2 H3]). unfold on_space.
  destruct (k_procs k !! pid) as [p|] eqn:Hp; [|done].
  assert (Hu : ∀ u, Inv T b (set_procs (<[pid := P.with_space p u.1]> (k_procs k)) (set_mem u.2 k))).
  { intros u. split_and!; [|done|].
    - rewrite <- Ha. unfold abs. simpl. f_equal. rewrite fmap_insert. apply insert_id.
      by rewrite lookup_fmap, Hp.
    - constructor; simpl; [|done|].
      + intros q q'. rewrite lookup_insert_Some. intros [[_ <-]|[_ ?]]; [by eapply (H1 pid p)|by eapply H1].
      + intros q. rewrite lookup_insert_is_Some'. intros [<-|?]; [|by apply H3]. apply H3. eauto. }
  destruct (c _); [apply Hu|apply Hu|done].
Qed.

Lemma kill_all_keeps s pids : keeps (kill_all (F:=F) s pids).
Proof.
  induction pids as [|pid pids IH]; intros T b; simpl; [by keep1|].
  keep1; [|intros ? _; apply IH]. destruct (pid =? 1); keep1. intros p [Hp Hi].
  apply hp_put; [done|by apply receive_idle].
Qed.

Lemma sys_kill_keeps pid signum : keeps (sys_kill (F:=F) pid signum).
Proof.
  intros T b. unfold sys_kill. keep1.
  { destruct (negb (signum =? 0)); [|by keep1]. destruct (in_uint 8 signum); [|by keep1].
    keep1. intros s _. by keep1. }
  intros sig _. destruct (0 <? pid).
  - keep1; [by intros ? ?|]. intros o _. destruct o as [q|]; [|by keep1].
    destruct sig; [|by keep1]. keep1. intros p [Hp Hi].
    keep1; [apply hp_put; [done|by apply receive_idle]|]. intros ? _. by keep1.
  - destruct (pid =? 0); [keep1|]. destruct (pid =? -1); [|keep1].
    destruct sig; [|by keep1]. keep1. intros k _. keep1; [apply kill_all_keeps|].
    intros ? _. by keep1.
Qed.

(** ** Fork *)
Lemma hp_alloc_pid T b E' :
  (∀ e k, Inv T b k → E' e k) →
  hoare (Inv T b) alloc_pid
    (λ c k, Inv T b k ∧ c ∈ live 1 (k_pids k) ∧ t_nodes T !! c = None) E'.
Proof.
  intros HE k (Ha & Hb & [H1 H2 H3]). unfold alloc_pid, mbind, kst_bind, kget, klift.
  destruct (Recycle.alloc (k_pids k)) as [[c a]|e|] eqn:Hal; [|by apply HE|done].
  destruct (alloc_preserves 1 _ c a H2 Hal) as (Hi & Hf & Hl). simpl. split_and!.
  - split_and!; [done|done|]. constructor; simpl; [done|done|]. intros q Hq.
    rewrite Hl. apply elem_of_union_r. by apply H3.
  - rewrite Hl. set_solver.
  - rewrite <- Ha. simpl. rewrite lookup_fmap. destruct (k_procs k !! c) eqn:E; [|done].
    exfalso. apply Hf, H3. eauto.
Qed.

(** The states of [fork] after the child's pid is taken. *)
Definition PidInv T b c k : Prop := Inv T b k ∧ c ∈ live 1 (k_pids k) ∧ t_nodes T !! c = None.

Lemma hp_set_mem_pid T b c m E' :
  hoare (PidInv T b c) (kmodify (set_mem m)) (λ _, PidInv T b c) E'.
Proof. apply h_modify. intros k ((Ha & Hb & [H1 H2 H3]) & Hc & Hn). split; [|done]. by split_and!. Qed.

Lemma hp_new_child T b pid c p np (es : Z) E' :
  t_nodes T !! pid = Some (node_of p) →
  node_of np = mkNode (Some pid) [] None 0 → zombie_idle p → zombie_idle np →
  hoare (PidInv T b c)
    (_ ← put_proc c np; _ ← manager_add c;
     _ ← put_proc pid (P.with_children p (p_children p ++ [c])); mret es)
    (λ r k, r = es ∧ Inv (t_fork pid c T) b k) E'.
Proof.
  intros Hp Hnp Hi Hin k ((Ha & Hb & [H1 H2 H3]) & Hc & Hn). simpl. split; [done|].
  assert (Hpc : pid ≠ c) by congruence. split_and!; [|done|].
  - unfold abs, t_fork. simpl. rewrite <- Ha. f_equal. simpl.
    rewrite !fmap_insert, Hnp. rewrite <- Ha in Hp. simpl in Hp.
    apply map_eq. intros q. destruct (decide (q = pid)) as [->|Hq].
    + by rewrite lookup_insert_eq, lookup_alter_eq, lookup_insert_ne, Hp.
    + by rewrite lookup_insert_ne, lookup_alter_ne.
  - constructor; simpl; [|done|].
    + intros q q'. rewrite !lookup_insert_Some.
      intros [[_ <-]|[_ [[_ <-]|[_ ?]]]]; [exact Hi|done|by eapply H1].
    + intros q. rewrite !lookup_insert_is_Some'. intros [<-|[<-|?]]; [|done|by apply H3].
      apply H3. rewrite <- Ha in Hp. simpl in Hp. rewrite lookup_fmap in Hp.
      apply fmap_Some in Hp as (? & ? & _). eauto.
Qed.

Lemma fork_tree pid st es T b :
  hoare (Inv T b) (fork (F:=F) pid st es)
    (λ c k, alive T pid ∧ t_nodes T !! c = None ∧ Inv (t_fork pid c T) b k)
    (λ _, Inv T b).
Proof.
  unfold fork. keep1. intros p [Hp Hi]. keep1. intros ? Ht. keep1. intros t _.
  assert (Hz : ProcessStatus.is_zombie (p_status p) = false) by by apply running, single_thread.
  assert (Hn : node_of p = mkNode (p_parent p) (p_children p) None (p_events p))
    by (unfold node_of; by rewrite Hz).
  eapply h_bind; [by apply hp_alloc_pid|]. intros c.
  match goal with |- hoare _ ?f ?Q ?E => change (hoare (PidInv T b c) f Q E) end.
  eapply h_bindp; [apply hp_get|]. intros k Hk.
  eapply h_bindp with (φ := λ _, True).
  { eapply h_lift; [auto|]. by intros ? ? [? _] _. }
  intros [sp m] _. eapply h_bindp with (φ := λ _, True).
  { eapply h_conseq; [apply (hp_set_mem_pid T b c m (λ _ _, False))|done|auto|done]. }
  intros ? _. eapply h_conseq.
  - eapply (hp_new_child T b pid c p _ c (λ _ _, False)); [done|unfold node_of; simpl; by rewrite Hz|done|].
    by apply running_idle.
  - done.
  - intros r k' [-> Hk']. destruct Hk as (_ & _ & Hc). split_and!; [|done|done].
    exists (node_of p). split; [done|]. by rewrite Hn.
  - done.
Qed.

(** ** Exit *)
Lemma reparent_tree cs : ∀ T b E',
  hoare (Inv T b) (reparent (F:=F) root cs)
    (λ _, Inv (mkTree (foldl t_move (t_nodes T) cs) (t_listed T)) b) E'.
Proof.
  induction cs as [|c cs IH]; intros T b E'; simpl; [apply h_ret; by destruct T|].
  keep1. intros cp [Hcp Hci].
  eapply h_bind; [by apply (hp_put_alter T b c cp _ (set_parent (Some root)))|]. intros ?.
  keep1. intros ip [Hip Hii]. cbn [t_nodes t_listed] in Hip |- *.
  eapply h_bind; [by eapply (hp_put_alter _ b root ip _ (add_child c))|]. intros ?.
  cbn [t_nodes t_listed]. exact (IH (mkTree _ _) b E').
Qed.

Lemma zombie_word code :
  ProcessStatus.is_zombie (ProcessStatus.zombie code) = true ∧
  Z.land (ProcessStatus.zombie code) 255 = wrap 8 code.
Proof.
  assert (forallb (λ c, ProcessStatus.is_zombie (Z.lor (Z.shiftl 2 8) c) &&
                        (Z.land (Z.lor (Z.shiftl 2 8) c) 255 =? c)) (seqZ 0 256) = true)
    as Hf by (by vm_compute).
  rewrite forallb_forall in Hf. unfold ProcessStatus.zombie.
  specialize (Hf (wrap 8 code)). rewrite andb_true_iff, Z.eqb_eq in Hf. apply Hf.
  apply list_elem_of_In, elem_of_seqZ. unfold wrap. pose proof (Z.mod_pos_bound code (2 ^ 8)). lia.
Qed.

(** Telling the parent. *)
Lemma notify_tree T b pid (es : option Signal) E' :
  hoare (Inv T b)
    (match pid with
     | Some parent =>
         _ ← match es with
             | Some s => pp ← proc (F:=F) parent; put_proc parent (receive pp s)
             | None => mret ()
             end;
         pp ← proc parent; put_proc parent (P.notify pp)
     | None => mret ()
     end)
    (λ _, Inv (mkTree (t_notify pid (t_nodes T)) (t_listed T)) b) E'.
Proof.
  destruct pid as [q|]; simpl; [|apply h_ret; by destruct T]. keep1.
  { destruct es; keep1. intros pp [Hp Hi]. apply hp_put; [done|by apply receive_idle]. }
  intros ? _. keep1. intros pp [Hp Hi]. by apply (hp_put_alter T b q pp _ bump).
Qed.

(** A thread that exits leaves the tree alone, or was the last one. *)
Definition after_exit T b pid k : Prop :=
  Inv T b k ∨
  ∃ n code, t_nodes T !! pid = Some n ∧ n_status n = None ∧ (pid = root → n_children n = []) ∧
    Inv (t_exit pid code n T) (b || (pid =? INITPROC_PID)) k.

Lemma hp_init_proc (P : Kernel F → Prop) E' :
  hoare P manager_init_proc (λ a k, P k ∧ a = root) E'.
Proof.
  intros k Hk. unfold manager_init_proc, manager_get, kgets, mbind, kst_bind.
  by destruct (bool_decide (INITPROC_PID ∈ k_manager k)).
Qed.

(** The children go to the first process, or the kernel shuts down. *)
Lemma hand_over_tree T b pid cs E' :
  hoare (Inv T b)
    (if pid =? INITPROC_PID then
       _ ← kassert (length cs =? 0)%nat; kmodify (set_shutdown true)
     else init ← manager_init_proc (F:=F); reparent init cs)
    (λ _ k, (pid = root → cs = []) ∧
       Inv (mkTree (foldl t_move (t_nodes T) cs) (t_listed T)) (b || (pid =? INITPROC_PID)) k) E'.
Proof.
  destruct (Z.eqb_spec pid INITPROC_PID) as [->|Hp].
  - keep1. intros ? Hl. apply Nat.eqb_eq, nil_length_inv in Hl as ->. apply h_modify.
    intros k (Ha & Hb & [H1 H2 H3]). split; [done|]. rewrite orb_true_r.
    split_and!; [by subst|done|by constructor].
  - rewrite orb_false_r. eapply h_bindp; [apply hp_init_proc|]. intros i ->.
    eapply h_conseq; [apply (reparent_tree cs T b E')|done|by intros; split|done].
Qed.

Lemma exit_thread_tree pid tid T b :
  hoare (Inv T b) (exit_thread (F:=F) pid tid) (λ _, after_exit T b pid) (λ _, Inv T b).
Proof.
  unfold exit_thread. keep1. intros p [Hp Hi]. keep1. intros t Ht. keep1. intros tids ?.
  keep1. intros k ?. keep1. intros [sp m] ?. keep1. intros ? ?.
  assert (Hz : ProcessStatus.is_zombie (p_status p) = false).
  { apply running; [done|]. intros E. by rewrite E, lookup_empty in Ht. }
  assert (Hn : node_of p = mkNode (p_parent p) (p_children p) None (p_events p))
    by (unfold node_of; by rewrite Hz).
  destruct (bool_decide _) eqn:Hth.
  - apply bool_decide_eq_true in Hth. keep1. intros [sp' m'] ?. keep1. intros ? ?.
    set (code := match ProcessStatus.exit_code _ with Some _ => _ | None => _ end).
    destruct (zombie_word code) as [Hw Hc].
    eapply h_bind.
    { eapply (hp_put_alter T b pid p _ (dead (wrap 8 code))); [done| |intros ?; exact Hth].
      unfold node_of. simpl. by rewrite Hw, Hc. }
    intros ?. eapply h_bind; [apply hand_over_tree|]. intros ?. cbn [t_nodes t_listed].
    intros k' [Hr Hk']. simpl in Hr, Hk' |- *.
    eapply h_conseq; [apply notify_tree with (E' := λ _ _, False)|intros s Hs; exact Hs| |intros ? ? []|exact Hk'].
    intros ? k2 Hk2. right. exists (node_of p), (wrap 8 code). rewrite Hn. split_and!; [congruence|done|done|exact Hk2].
  - eapply h_conseq; [apply (hp_put T b pid _ (λ _ _, False)); [done|by apply running_idle]|done| |done].
    intros ? ? ?. by left.
Qed.

(** ** Wait *)
Lemma wait4_scan_snoc k pid cs c :
  wait4_scan k pid (cs ++ [c]) =
  let '(has, found) := wait4_scan k pid cs in
  if (pid =? -1) || (c =? wrap 64 pid) then
    (true, if ProcessStatus.is_zombie (default 0 (p_status <$> k_procs k !! c))
           then Some (length cs) else found)
  else (has, found).
Proof.
  unfold wait4_scan. rewrite length_app. simpl. rewrite seq_app, zip_with_app, foldl_app
    by (by rewrite length_seq). simpl. by destruct (foldl _ _ _).
Qed.

(** A child [wait4] looks for, and one it can reap. *)
Definition waited (pid c : Z) : Prop := pid = -1 ∨ c = wrap 64 pid.
Definition is_zombie_pid k (c : Z) : Prop :=
  ∃ p, k_procs k !! c = Some p ∧ ProcessStatus.is_zombie (p_status p) = true.

Lemma is_zombie_pid_spec k c :
  ProcessStatus.is_zombie (default 0 (p_status <$> k_procs k !! c)) = true ↔ is_zombie_pid k c.
Proof.
  unfold is_zombie_pid. destruct (k_procs k !! c) as [p|]; simpl; [naive_solver|].
  split; [done|naive_solver].
Qed.

(** The scan finds the last zombie among the children waited for. *)
Lemma wait4_scan_spec k pid cs has found :
  wait4_scan k pid cs = (has, found) →
  (has = true ↔ ∃ c, c ∈ cs ∧ waited pid c) ∧
  match found with
  | Some i => ∃ c, cs !! i = Some c ∧ waited pid c ∧ is_zombie_pid k c
  | None => ∀ c, c ∈ cs → waited pid c → ¬ is_zombie_pid k c
  end.
Proof.
  revert has found. induction cs as [|c cs IH] using rev_ind; intros has found.
  { intros [= <- <-]. split; [|set_solver]. split; [done|]. intros (? & ? & _). set_solver. }
  rewrite wait4_scan_snoc. destruct (wait4_scan k pid cs) as [h f]. destruct (IH h f eq_refl) as [Hh Hf].
  assert (Hw : (pid =? -1) || (c =? wrap 64 pid) = true ↔ waited pid c)
    by (unfold waited; by rewrite orb_true_iff, !Z.eqb_eq).
  destruct ((pid =? -1) || (c =? wrap 64 pid)).
  - intros [= <- <-]. assert (waited pid c) by by apply Hw. split; [split; [intros _; exists c; set_solver|done]|].
    destruct (ProcessStatus.is_zombie _) eqn:Ez.
    + exists c. rewrite list_lookup_middle by done. split_and!; [done|done|by apply is_zombie_pid_spec].
    + destruct f as [i|].
      * destruct Hf as (c' & Hc' & ?). exists c'. split; [|done]. by apply lookup_app_l_Some.
      * intros x [Hx| ->%list_elem_of_singleton]%elem_of_app Hwx; [by apply Hf|].
        rewrite <- is_zombie_pid_spec, Ez. done.
  - assert (¬ waited pid c) by (intros ?%Hw; done). intros [= <- <-]. split.
    + rewrite Hh. set_solver.
    + destruct f as [i|].
      * destruct Hf as (c' & Hc' & ?). exists c'. split; [|done]. by apply lookup_app_l_Some.
      * intros x [Hx| ->%list_elem_of_singleton]%elem_of_app Hwx; [by apply Hf|done].
Qed.

(** A round of [wait4] leaves the tree alone or reaps a zombie child; an error
    writing the status does not undo that. *)
Definition after_wait T b self k : Prop :=
  Inv T b k ∨
  ∃ n c nc, t_nodes T !! self = Some n ∧ c ∈ n_children n ∧ t_nodes T !! c = Some nc ∧
    is_Some (n_status nc) ∧ Inv (t_reap self c T) b k.

Lemma filter_all (P : Z → Prop) `{∀ x, Decision (P x)} (l : list Z) : (∀ x, x ∈ l → P x) → filter P l = l.
Proof.
  induction l as [|x l IH]; intros Hl; [done|]. rewrite filter_cons_True by (apply Hl; set_solver).
  f_equal. apply IH. intros y Hy. apply Hl. set_solver.
Qed.
Lemma delete_filter (l : list Z) i c :
  NoDup l → l !! i = Some c → delete i l = filter (λ x, x ≠ c) l.
Proof.
  intros Hnd Hi. rewrite delete_take_drop. rewrite <- (take_drop_middle l i c Hi) in Hnd |- * at 3.
  apply NoDup_app in Hnd as (_ & Ht & Hd). apply NoDup_cons in Hd as [Hd _].
  rewrite filter_app, filter_cons_False by naive_solver.
  f_equal; [|symmetry; by apply filter_all; intros x Hx ->].
  symmetry. apply filter_all. intros x Hx ->. apply (Ht c); set_solver.
Qed.

Lemma hp_reap T b self p index c E' :
  tree_ok T → t_nodes T !! self = Some (node_of p) → zombie_idle p →
  p_children p !! index = Some c →
  hoare (Inv T b)
    (_ ← put_proc self (P.with_children p (delete index (p_children p))); manager_remove c)
    (λ _, Inv (t_reap self c T) b) E'.
Proof.
  intros HT Hp Hi Hc. eapply h_bind.
  { eapply (hp_put_alter T b self p _ (λ n, set_children (filter (λ x, x ≠ c) (n_children n)) n));
      [done| |done].
    unfold node_of, set_children. simpl. f_equal. apply delete_filter; [|done].
    exact (ok_nodup T HT self _ Hp). }
  intros ?. apply h_modify. intros k (Ha & Hb & [H1 H2 H3]). split_and!; [|done|by constructor].
  unfold abs, t_reap in *. simpl. injection Ha as Hn Hl. f_equal; [exact Hn|by rewrite Hl].
Qed.

Lemma wait4_poll_tree self pid wstatus options T b :
  tree_ok T →
  hoare (Inv T b) (wait4_poll (F:=F) self pid wstatus options)
    (λ _, after_wait T b self) (λ _, after_wait T b self).
Proof.
  intros HT. assert (HI : ∀ k, Inv T b k → after_wait T b self k) by (intros k ?; by left).
  unfold wait4_poll. keep1. intros p [Hp Hi]. keep1. intros k Hk.
  destruct (wait4_scan k pid (p_children p)) as [has found] eqn:Es.
  destruct (wait4_scan_spec k pid _ has found Es) as [_ Hf].
  destruct has; simpl; [|by apply h_fail].
  destruct found as [i|]; [|destruct (Flags.contains _ _); by apply h_ret].
  destruct Hf as (c & Hc & _ & cp & Hcp & Hz). rewrite Hc. simpl.
  assert (Hnc : t_nodes T !! c = Some (node_of cp) ∧ is_Some (n_status (node_of cp))).
  { destruct Hk as (Ha & _ & _). rewrite <- Ha. simpl. rewrite lookup_fmap, Hcp.
    split; [done|]. unfold node_of. simpl. rewrite Hz. eauto. }
  assert (HR : ∀ k, Inv (t_reap self c T) b k → after_wait T b self k).
  { intros k' ?. right. exists (node_of p), c, (node_of cp). destruct Hnc.
    split_and!; [done|by eapply list_elem_of_lookup_2|done..]. }
  keep1. intros c' Ec. simpl in Ec. assert (c' = c) as -> by congruence. apply h_assoc.
  eapply h_bind; [by apply (hp_reap T b self p i c)|]. intros ?. keep1. intros cp' ?.
  keep1. intros code ?. keep1; [|intros ? ?; by apply h_ret].
  apply (h_weaken _ (λ _, Inv (t_reap self c T) b)); [|intros ?; exact HR].
  destruct wstatus; [apply on_space_keeps|by keep1].
Qed.

Lemma sys_wait4_tree self pid wstatus options rusage T b :
  tree_ok T →
  hoare (Inv T b) (sys_wait4 (F:=F) self pid wstatus options rusage)
    (λ _, after_wait T b self) (λ _, after_wait T b self).
Proof.
  intros HT. assert (HI : ∀ k, Inv T b k → after_wait T b self k) by (intros k ?; by left).
  unfold sys_wait4. keep1. intros ? ?. keep1. intros ? ?.
  eapply h_bindp; [eapply h_weaken; [apply hp_ok_or|intros ?; exact HI]|].
  intros o ?. by apply wait4_poll_tree.
Qed.

(** ** Clone *)
Definition after_clone T b pid k : Prop :=
  Inv T b k ∨ ∃ c, alive T pid ∧ t_nodes T !! c = None ∧ Inv (t_fork pid c T) b k.

Lemma sys_clone_tree pid flags stack T b :
  hoare (Inv T b) (sys_clone (F:=F) pid flags stack)
    (λ _, after_clone T b pid) (λ _, after_clone T b pid).
Proof.
  assert (HI : ∀ k, Inv T b k → after_clone T b pid k) by (intros k ?; by left).
  assert (HE : ∀ (e : errno) k, Inv T b k → after_clone T b pid k) by (intros _; exact HI).
  unfold sys_clone. destruct (negb _); [by apply h_fail|].
  destruct (Flags.from_bits _ _) as [fl|]; [|by apply h_fail]. destruct (Flags.contains fl _).
  - keep1. intros ? ?. destruct (negb _); [by apply h_fail|by apply h_crash].
  - keep1. intros ? ?. keep1.
    + destruct (negb (wrap 8 flags =? 0)); [|by keep1].
      destruct (Sig.from_user _); [|by apply h_fail].
      keep1. intros ? ?. by keep1.
    + intros es ?. eapply h_conseq; [apply fork_tree|done| |exact HE].
      intros c k ?. right. by exists c.
Qed.

(** ** The last reference goes *)
Lemma drop_tree pid T b :
  hoare (Inv T b) (drop_process (F:=F) pid) (λ _, Inv (t_drop pid T) b) (λ _, Inv T b).
Proof.
  intros k HI. pose proof HI as (Ha & Hb & [H1 H2 H3]).
  unfold drop_process, proc, mbind, kst_bind, kget, klift, kmodify. simpl.
  destruct (k_procs k !! pid) as [p|] eqn:Hp; [|done]. simpl.
  destruct (dealloc_live 1 (k_pids k) pid H2) as (a & -> & Hai & Hl); [apply H3; eauto|].
  destruct (MemorySpace_drop (k_mem k) (p_space p)); [|done..]. split_and!; [|done|].
  - unfold abs, t_drop. simpl. rewrite <- Ha. simpl. by rewrite fmap_delete.
  - constructor; simpl; [|done|].
    + intros q q'. rewrite lookup_delete_Some. intros [_ ?]. by eapply H1.
    + intros q. rewrite lookup_delete_is_Some. intros [Hq ?]. rewrite Hl.
      apply elem_of_difference. split; [by apply H3|]. by apply not_elem_of_singleton_2.
Qed.

(** ** Steps of the kernel

    What threads, system calls and the reference counts do, one handler at a
    time; an error keeps what the handler did before it. *)
Inductive kernel_step : Kernel F → Kernel F → Prop :=
| ks_clone k pid flags stack k' :
    kstate (sys_clone pid flags stack k) = Some k' → kernel_step k k'
| ks_exec k pid elf_data args envs k' :
    kstate (exec pid elf_data args envs k) = Some k' → kernel_step k k'
| ks_exit k pid tid code k' :
    kstate (sys_exit pid tid code k) = Some k' → kernel_step k k'
| ks_exit_group k pid code k' :
    kstate (sys_exit_group pid code k) = Some k' → kernel_step k k'
| ks_exit_thread k pid tid k' :
    kstate (exit_thread pid tid k) = Some k' → kernel_step k k'
| ks_wait4 k self pid wstatus options rusage k' :
    kstate (sys_wait4 self pid wstatus options rusage k) = Some k' → kernel_step k k'
| ks_kill k pid signum k' :
    kstate (sys_kill pid signum k) = Some k' → kernel_step k k'
| ks_set_tid_address k pid tid ptr k' :
    kstate (sys_set_tid_address pid tid ptr k) = Some k' → kernel_step k k'
| ks_memory {A} k pid (c : kst (MemorySpace * Mem) A) k' :
    kstate (on_space pid c k) = Some k' → kernel_step k k'
| ks_drop k pid k' :
    unreferenced (abs k) pid → kstate (drop_process pid k) = Some k' → kernel_step k k'.

(** The flag is raised when the first process exits. *)
Definition shutdown_ok k : Prop := k_shutdown k = true → ¬ alive (abs k) root.

(** A step of the kernel is a transition of the tree or leaves it alone. *)
Definition refines k k' : Prop :=
  kernel_ok k' ∧ (k_shutdown k' = k_shutdown k ∨ ¬ alive (abs k') root) ∧
  (abs k' = abs k ∨ tree_step (abs k) (abs k')).

Lemma keeps_refines {A} (c : kst (Kernel F) A) k k' :
  keeps c → kernel_ok k → kstate (c k) = Some k' → refines k k'.
Proof.
  intros Hc Hk Hr.
  assert (Inv (abs k) (k_shutdown k) k') as (Ha & Hb & Hk')
    by (eapply hoare_kstate; [apply (Hc (abs k) (k_shutdown k))|done|exact Hr]).
  split; [done|]. split; [by left|by left].
Qed.

Lemma exit_code_keeps pid tid code : keeps (sys_exit (F:=F) pid tid code).
Proof. intros T b. unfold sys_exit. keep1; [apply update_thread_keeps|]. intros ? ?. by keep1. Qed.
Lemma exit_group_keeps pid code : keeps (sys_exit_group (F:=F) pid code).
Proof. intros T b. unfold sys_exit_group. keep1; [apply exit_process_keeps|]. intros ? ?. by keep1. Qed.
Lemma set_tid_keeps pid tid ptr : keeps (sys_set_tid_address (F:=F) pid tid ptr).
Proof. intros T b. unfold sys_set_tid_address. keep1; [apply update_thread_keeps|]. intros ? ?. by keep1. Qed.

Lemma clone_refines k k' pid flags stack :
  kernel_ok k → kstate (sys_clone pid flags stack k) = Some k' → refines k k'.
Proof.
  intros Hk Hr.
  assert (after_clone (abs k) (k_shutdown k) pid k') as [(Ha & Hb & Hk')|(c & Hal & Hc & Ha & Hb & Hk')]
    by (eapply hoare_kstate; [apply (sys_clone_tree pid flags stack (abs k) (k_shutdown k))|done|exact Hr]).
  - split; [done|]. split; by left.
  - split; [done|]. split; [by left|]. right. rewrite Ha. by apply ts_fork.
Qed.

Lemma exit_thread_refines k k' pid tid :
  tree_ok (abs k) → kernel_ok k → kstate (exit_thread pid tid k) = Some k' → refines k k'.
Proof.
  intros HT Hk Hr.
  assert (after_exit (abs k) (k_shutdown k) pid k') as Hc.
  { eapply (hoare_kstate (Inv (abs k) (k_shutdown k))); [|done|exact Hr].
    eapply h_weaken; [apply exit_thread_tree|by left]. }
  destruct Hc as [(Ha & Hb & Hk')|(n & code & Hn & Hs & Hroot & Ha & Hb & Hk')].
  { split; [done|]. split; by left. }
  split; [done|]. split; [|right; rewrite Ha; by apply ts_exit].
  destruct (Z.eqb_spec pid INITPROC_PID) as [->|]; [|left; by rewrite orb_false_r in Hb].
  right. intros (m & Hm & Hms). rewrite Ha, lookup_exit_node in Hm by done.
  apply fmap_Some in Hm as (m0 & _ & ->). by rewrite exit_node_status, decide_True in Hms.
Qed.

Lemma wait4_refines k k' self pid wstatus options rusage :
  tree_ok (abs k) → kernel_ok k →
  kstate (sys_wait4 self pid wstatus options rusage k) = Some k' → refines k k'.
Proof.
  intros HT Hk Hr.
  assert (after_wait (abs k) (k_shutdown k) self k')
    as [(Ha & Hb & Hk')|(n & c & nc & Hn & Hc & Hnc & Hz & Ha & Hb & Hk')]
    by (eapply hoare_kstate; [by apply (sys_wait4_tree self pid wstatus options rusage (abs k) (k_shutdown k))|done|exact Hr]).
  - split; [done|]. split; by left.
  - split; [done|]. split; [by left|]. right. rewrite Ha. by eapply ts_reap.
Qed.

Lemma step_refines k k' :
  kernel_step k k' → tree_ok (abs k) → kernel_ok k → refines k k'.
Proof.
  intros Hs HT Hk. destruct Hs as [k0 pid flags st k' Hr|k0 pid d a e k' Hr|k0 pid tid code k' Hr|
    k0 pid code k' Hr|k0 pid tid k' Hr|k0 self pid w o r k' Hr|k0 pid sn k' Hr|k0 pid tid ptr k' Hr|
    A k0 pid c k' Hr|k0 pid k' Hu Hr].
  - by eapply clone_refines.
  - eapply keeps_refines; [apply exec_keeps|done|exact Hr].
  - eapply keeps_refines; [apply exit_code_keeps|done|exact Hr].
  - eapply keeps_refines; [apply exit_group_keeps|done|exact Hr].
  - by eapply exit_thread_refines.
  - by eapply wait4_refines.
  - eapply keeps_refines; [apply sys_kill_keeps|done|exact Hr].
  - eapply keeps_refines; [apply set_tid_keeps|done|exact Hr].
  - eapply keeps_refines; [apply on_space_keeps|done|exact Hr].
  - pose proof (drop_tree pid (abs k0) (k_shutdown k0) k0) as Hd.
    specialize (Hd ltac:(done)). destruct (drop_process pid k0); [|..|done]; injection Hr as ->.
    + destruct Hd as (Ha & Hb & Hk'). split; [done|]. split; [by left|]. right. rewrite Ha. by apply ts_drop.
    + destruct Hd as (Ha & Hb & Hk'). split; [done|]. split; by left.
Qed.
End handlers.

(** ** From boot on *)
Section reachable.
Context {BD : Buddy} {KI : KernelImage} {PE : ProcessEnv} {F : Type}.
Implicit Types (p : Process F) (k : Kernel F).

(** Only the first process, and it is listed. *)
Definition booted k : Prop := abs k = t_init ∧ kernel_ok k ∧ k_shutdown k = false.

(** The kernel before the first process, and [process_init]. *)
Definition blank m : Kernel F := mkKernel m ∅ ∅ (Recycle.begin_with 1) false.
Definition BlankInv k : Prop := ∃ m, k = blank m.

Lemma hp_blank_mem m E : hoare BlankInv (kmodify (set_mem m)) (λ _, BlankInv) E.
Proof. apply h_modify. intros k [m' ->]. by exists m. Qed.

Lemma from_path_booted path elf_data args tty :
  hoare BlankInv (from_path path elf_data args tty)
    (λ _ k, booted (set_manager ({[INITPROC_PID]} ∪ k_manager k) k)) (λ _ _, True).
Proof.
  unfold from_path. eapply h_bindp; [eapply h_weaken; [apply hp_ok_or|done]|]. intros elf ?.
  keep1. intros k ?.
  assert (HL : ∀ A (o : KResult A), hoare BlankInv (klift o) (λ a s, BlankInv s ∧ True) (λ _ _, True))
    by (intros A o; apply h_lift; auto).
  eapply h_bindp; [apply HL|]. intros [sp m] ?. eapply h_bindp; [apply HL|]. intros [[r sp'] m'] ?.
  eapply h_bindp; [apply hp_triv, hp_blank_mem|]. intros ? ?. destruct r as [[[elf_end auxv] entry]|e].
  2:{ eapply h_bindp; [apply HL|]. intros m2 ?. eapply h_bindp; [apply hp_triv, hp_blank_mem|]. intros ? ?. by apply h_fail. }
  keep1. intros name ?. eapply h_bindp; [apply HL|]. intros [[[usp av] sp2] m2] ?.
  eapply h_bindp; [apply hp_triv, hp_blank_mem|]. intros ? ?. eapply h_bindp; [apply HL|]. intros [tid tids] ?.
  keep1. intros ? ?. intros k' [m3 ->]. simpl. split_and!; [|constructor|done].
  - unfold abs, t_init. simpl. by rewrite insert_empty, map_fmap_singleton, union_empty_r_L.
  - simpl. intros pid p. rewrite insert_empty, lookup_singleton_Some. intros [_ <-]. by intros ?.
  - simpl. split; [simpl; lia|]. split; [constructor|]. simpl. set_solver.
  - simpl. intros pid. rewrite insert_empty. intros [p [<- _]%lookup_singleton_Some].
    apply elem_of_live. simpl. split; [lia|set_solver].
Qed.

Lemma process_init_booted path elf_data tty m k :
  process_init path elf_data tty (blank m) = Done () k → booted k.
Proof.
  unfold process_init, ktry, mbind, kst_bind.
  pose proof (from_path_booted path elf_data [path] tty (blank m) ltac:(by exists m)) as Hb.
  destruct (from_path _ _ _ _ _) as [pid k1| |]; [|done..]. intros [= <-].
  exact Hb.
Qed.

Definition reachable k : Prop := ∃ k0, booted k0 ∧ rtc kernel_step k0 k.

Lemma step_inv k k' :
  kernel_step k k' → tree_ok (abs k) ∧ kernel_ok k ∧ shutdown_ok k →
  tree_ok (abs k') ∧ kernel_ok k' ∧ shutdown_ok k'.
Proof.
  intros Hs (HT & Hk & Hsh). destruct (step_refines k k' Hs HT Hk) as (Hk' & Hb & Ha).
  assert (HT' : tree_ok (abs k')) by (destruct Ha as [->|Ha]; [done|by eapply tree_step_ok]).
  split_and!; [done|done|]. intros Hf. destruct Hb as [Hb|]; [|done].
  rewrite Hb in Hf. specialize (Hsh Hf). destruct Ha as [->|Ha]; [done|]. intros Hal. apply Hsh.
  destruct Ha as [T p c Hp|T p code n Hn Hs'|T p n c nc Hn Hc Hnc|T c].
  - by eapply alive_root.
  - apply (alive_root _ HT p). by exists n.
  - destruct Hal as (m & Hm & Hms). rewrite lookup_reap in Hm.
    apply fmap_Some in Hm as (m0 & Hm0 & ->). exists m0. unfold reap_node in Hms. by destruct (decide _).
  - destruct Hal as (m & Hm & Hms). simpl in Hm. apply lookup_delete_Some in Hm as [_ Hm]. by exists m.
Qed.

Lemma reachable_inv k : reachable k → tree_ok (abs k) ∧ kernel_ok k ∧ shutdown_ok k.
Proof.
  intros (k0 & (Ha & Hk & Hs) & Hr). revert Hk Hs Ha.
  intros Hk Hs Ha. assert (tree_ok (abs k0) ∧ kernel_ok k0 ∧ shutdown_ok k0) as HI.
  { split_and!; [rewrite Ha; apply t_init_ok|done|]. intros Hf. congruence. }
  clear Hk Hs Ha. induction Hr as [k|k k1 k2 Hs _ IH]; [done|]. apply IH. by eapply step_inv.
Qed.

(** C4: a state the kernel reaches from boot moves, under any handler and
    whether the handler succeeds or fails, along a transition of the abstract
    process tree (fork, exit with reparenting and notification, reaping,
    dropping) or keeps the tree as it is. *)
Theorem kernel_refines_tree k k' :
  reachable k → kernel_step k k' → abs k' = abs k ∨ tree_step (abs k) (abs k').
Proof.
  intros Hr Hs. destruct (reachable_inv k Hr) as (HT & Hk & _). by apply (step_refines k k' Hs).
Qed.

(** C8: in every state reached from boot the parent and child links form a tree
    of live processes under the first one: links agree in both directions, no
    process has two parents or is listed twice, zombies have no children and no
    threads, every live process can be found by its pid, and the pid of every
    process is taken. *)
Theorem process_tree_invariant k :
  reachable k →
  tree_ok (abs k) ∧
  ∀ pid p, k_procs k !! pid = Some p →
    pid ∈ live 1 (k_pids k) ∧
    (ProcessStatus.is_zombie (p_status p) = true → p_children p = [] ∧ p_threads p = ∅) ∧
    (ProcessStatus.is_zombie (p_status p) = false → pid ∈ k_manager k ∧
       (pid ≠ INITPROC_PID → ∃ q pq, p_parent p = Some q ∧ k_procs k !! q = Some pq ∧
          ProcessStatus.is_zombie (p_status pq) = false ∧ pid ∈ p_children pq)).
Proof.
  intros Hr. destruct (reachable_inv k Hr) as (HT & [Hi Hp Hl] & _). split; [done|].
  intros pid p Hk. assert (Hn : t_nodes (abs k) !! pid = Some (node_of p))
    by (simpl; by rewrite lookup_fmap, Hk).
  split; [by apply Hl|]. split.
  - intros Hz. split; [|by eapply Hi]. apply (ok_zombie _ HT pid _ Hn). simpl. rewrite Hz. eauto.
  - intros Hz. assert (Hs : n_status (node_of p) = None) by (simpl; by rewrite Hz).
    destruct (ok_alive _ HT pid _ Hn Hs) as [Hin Hpa]. split; [done|]. intros Hp1.
    destruct (Hpa Hp1) as [q Hq]. destruct (ok_parent _ HT pid _ Hn q Hq) as (nq & Hnq & Hc).
    specialize (Hc Hs). simpl in Hnq. rewrite lookup_fmap in Hnq.
    apply fmap_Some in Hnq as (pq & Hpq & ->). exists q, pq. split_and!; [done|done| |done].
    destruct (ProcessStatus.is_zombie (p_status pq)) eqn:E; [|done]. exfalso.
    assert (Hz' : n_children (node_of pq) = []).
    { apply (ok_zombie _ HT q); [simpl; by rewrite lookup_fmap, Hpq|]. simpl. rewrite E. eauto. }
    rewrite Hz' in Hc. set_solver.
Qed.

Lemma alive_abs k pid p :
  k_procs k !! pid = Some p → ProcessStatus.is_zombie (p_status p) = false → alive (abs k) pid.
Proof.
  intros Hp Hz. exists (node_of p). split; [simpl; by rewrite lookup_fmap, Hp|]. simpl. by rewrite Hz.
Qed.

(** The kernel shuts down only when every process has ended: once
    [SHUTDOWN] is set, no live process is left anywhere in the tree. *)
Theorem shutdown_means_all_ended k :
  reachable k → k_shutdown k = true →
  ∀ pid p, k_procs k !! pid = Some p → ProcessStatus.is_zombie (p_status p) = true.
Proof.
  intros Hr Hs pid p Hp. destruct (reachable_inv k Hr) as (HT & _ & Hsh).
  destruct (ProcessStatus.is_zombie (p_status p)) eqn:E; [done|]. exfalso.
  apply (Hsh Hs), (alive_root _ HT pid). by apply (alive_abs k pid p).
Qed.

Lemma zombie_child_of k pid p c :
  k_procs k !! pid = Some p → c ∈ p_children p → is_zombie_pid k c ↔ zombie_child (abs k) pid c.
Proof.
  intros Hp Hc. split.
  - intros (cp & Hcp & Hz). exists (node_of p), (node_of cp). simpl. rewrite !lookup_fmap, Hp, Hcp.
    split_and!; [done|done|done|]. rewrite Hz. eauto.
  - intros (n & nc & _ & _ & Hnc & Hz). simpl in Hnc. rewrite lookup_fmap in Hnc.
    apply fmap_Some in Hnc as (cp & Hcp & ->). exists cp. split; [done|]. simpl in Hz.
    destruct (ProcessStatus.is_zombie (p_status cp)); [done|by destruct Hz].
Qed.

(** Steps during which a process stays alive. *)
Definition step_while (pid : Z) k k' : Prop := kernel_step k k' ∧ alive (abs k') pid.

Lemma waiting_steps W pid n k k' :
  pid ≠ root → reachable k → waiting W pid n (abs k) → rtc (step_while pid) k k' →
  waiting W pid n (abs k').
Proof.
  intros Hp Hr Hw Hs. induction Hs as [k|k k1 k2 [Hs Ha] _ IH]; [done|].
  destruct (reachable_inv k Hr) as (HT & Hk & _). apply IH.
  - destruct Hr as (k0 & Hb & Hr). exists k0. split; [done|]. by eapply rtc_r.
  - destruct (step_refines k k1 Hs HT Hk) as (_ & _ & [->|Ht]); [done|].
    by eapply waiting_step.
Qed.

(** C9: no wake-up is lost. If [wait4] finds no zombie among the children it
    waits for and goes to sleep, then whenever, after any interleaving of other
    handlers, one of these children is a zombie, the sleeper has been notified
    since it looked. (For the first process this fails, as
    [reparent_does_not_notify] shows.) *)
Theorem wait4_no_lost_wakeup k k' self pid p p' c :
  reachable k → self ≠ INITPROC_PID →
  k_procs k !! self = Some p → ProcessStatus.is_zombie (p_status p) = false →
  wait4_scan k pid (p_children p) = (true, None) →
  rtc (step_while self) k k' →
  k_procs k' !! self = Some p' → c ∈ p_children p' → waited pid c → is_zombie_pid k' c →
  (p_events p < p_events p')%nat.
Proof.
  intros Hr Hself Hp Hz Hscan Hsteps Hp' Hc Hw Hzc.
  destruct (wait4_scan_spec k pid _ _ _ Hscan) as [_ Hno].
  assert (Hn : t_nodes (abs k) !! self = Some (node_of p)) by (simpl; by rewrite lookup_fmap, Hp).
  assert (waiting (waited pid) self (n_events (node_of p)) (abs k)) as Hwait.
  { apply waiting_start; [done|simpl; by rewrite Hz|]. intros x Hx Hxc.
    destruct Hxc as (m & mx & Hm & Hin & Hmx) eqn:E. assert (m = node_of p) as -> by congruence.
    apply (Hno x Hin Hx). apply (zombie_child_of k self p x Hp Hin). exact Hxc. }
  destruct (waiting_steps _ _ _ k k' Hself Hr Hwait Hsteps) as (m & Hm & _ & _ & Hlt).
  simpl in Hm. rewrite lookup_fmap, Hp' in Hm. injection Hm as <-.
  apply (Hlt c Hw). by apply (zombie_child_of k' self p' c).
Qed.
End reachable.

(** ** A small kernel

    One process with one thread on an empty address space. *)
#[export] Instance DemoEnv : ProcessEnv := {|
  Elf_parse _ := None;
  thread_order m := (map_to_list m).*1;
  stack_random := (0, 0);
  hart_tp := 0;
  hart_sstatus := 0;
  kernel_root := 0;
  page_caches _ := ∅;
  root_dir := 0;
  debug_log := true;
|}.

Definition demo_init : Process () :=
  mkProcess [] 0 ProcessStatus.normal None (mkSpace boot_pt.1 ∅) (0, 0) None [] root_dir
    (with_stdio ()) Handlers.new (mkAllocator 1 [])
    {[ 0 := Th.new 0 (start_context 0 0 0 0) 0 ]}.
Definition demo_kernel : Kernel () :=
  mkKernel demo_mem {[ 1 := demo_init ]} {[ 1 ]} (mkAllocator 2 []) false.

Lemma demo_booted : booted demo_kernel.
Proof.
  split_and!; [|constructor|reflexivity].
  - unfold abs, t_init. simpl. by rewrite map_fmap_singleton.
  - simpl. intros pid p [_ <-]%lookup_singleton_Some. by intros ?.
  - simpl. split; [simpl; lia|]. split; [constructor|]. simpl. set_solver.
  - simpl. intros pid [p [<- _]%lookup_singleton_Some].
    apply elem_of_live. simpl. split; [lia|set_solver].
Qed.

(** What a run of the kernel leaves. *)
Definition run_of {A} (c : kst (Kernel ()) A) (k : Kernel ()) : Kernel () :=
  default k (kstate (c k)).
Definition is_run {A} (c : kst (Kernel ()) A) (k : Kernel ()) : bool :=
  match kstate (c k) with Some _ => true | None => false end.
Lemma run_step {A} (c : kst (Kernel ()) A) k :
  is_run c k = true → kstate (c k) = Some (run_of c k).
Proof. unfold is_run, run_of. by destruct (kstate (c k)). Qed.

Definition demo1 : Kernel () := run_of (sys_clone 1 17 0) demo_kernel.
Definition demo2 : Kernel () := run_of (sys_clone 2 17 0) demo1.
Definition demo3 : Kernel () := run_of (exit_thread 3 0) demo2.

Lemma demo_runs :
  is_run (sys_clone 1 17 0) demo_kernel && is_run (sys_clone 2 17 0) demo1 &&
  is_run (exit_thread 3 0) demo2 && is_run (exit_thread 1 0) demo_kernel = true.
Proof. by vm_compute. Qed.

Lemma run_clone pid flags stack (k : Kernel ()) :
  is_run (sys_clone pid flags stack) k = true → kernel_step k (run_of (sys_clone pid flags stack) k).
Proof. intros Hr. by eapply ks_clone, run_step. Qed.
Lemma run_exit pid tid (k : Kernel ()) :
  is_run (exit_thread pid tid) k = true → kernel_step k (run_of (exit_thread pid tid) k).
Proof. intros Hr. by eapply ks_exit_thread, run_step. Qed.

Lemma demo_step1 : kernel_step demo_kernel demo1.
Proof. unfold demo1. apply run_clone. by vm_compute. Qed.
Lemma demo_step2 : kernel_step demo1 demo2.
Proof. unfold demo2. apply run_clone. by vm_compute. Qed.
Lemma demo_step3 : kernel_step demo2 demo3.
Proof. unfold demo3. apply run_exit. by vm_compute. Qed.
Lemma demo2_reachable : reachable demo2.
Proof.
  exists demo_kernel. split; [apply demo_booted|].
  eapply rtc_l; [apply demo_step1|]. apply rtc_once, demo_step2.
Qed.

(** The exit of process 3 is the transition [t_exit]. *)
Lemma kernel_refines_tree_witness :
  reachable demo2 ∧ kernel_step demo2 demo3 ∧
  (abs demo3 = abs demo2 ∨ tree_step (abs demo2) (abs demo3)).
Proof.
  split; [apply demo2_reachable|]. split; [apply demo_step3|].
  apply (kernel_refines_tree demo2 demo3 demo2_reachable demo_step3).
Defined.

Lemma process_tree_invariant_witness :
  reachable demo2 ∧ tree_ok (abs demo2) ∧ p_children <$> k_procs demo2 !! 2 = Some [3].
Proof.
  split; [apply demo2_reachable|]. split; [|by vm_compute].
  apply (process_tree_invariant demo2 demo2_reachable).
Defined.

(** The first process alone exits. *)
Definition demo_end : Kernel () := run_of (exit_thread 1 0) demo_kernel.
Definition zombie_at (k : Kernel ()) (pid : Z) : bool :=
  match k_procs k !! pid with Some p => ProcessStatus.is_zombie (p_status p) | None => false end.

Lemma shutdown_means_all_ended_witness :
  reachable demo_end ∧ k_shutdown demo_end = true ∧
  ∀ pid p, k_procs demo_end !! pid = Some p → ProcessStatus.is_zombie (p_status p) = true.
Proof.
  assert (reachable demo_end) as Hr.
  { exists demo_kernel. split; [apply demo_booted|]. apply rtc_once.
    unfold demo_end. apply run_exit. by vm_compute. }
  assert (k_shutdown demo_end = true) as Hs by (by vm_compute).
  split; [exact Hr|]. split; [exact Hs|]. exact (shutdown_means_all_ended demo_end Hr Hs).
Defined.

(** Process 2 looks for its child 3 while 3 runs; 3 exits. *)
Lemma wait4_no_lost_wakeup_witness :
  ∃ p p', k_procs demo2 !! 2 = Some p ∧ k_procs demo3 !! 2 = Some p' ∧
    (p_events p < p_events p')%nat.
Proof.
  assert (H2 : match k_procs demo2 !! 2 with
               | Some p => negb (ProcessStatus.is_zombie (p_status p)) &&
                           bool_decide (wait4_scan demo2 3 (p_children p) = (true, None))
               | None => false end = true) by (by vm_compute).
  assert (H3 : match k_procs demo3 !! 2 with
               | Some p => bool_decide (p_children p = [3]) && negb (zombie_at demo3 2) &&
                           zombie_at demo3 3
               | None => false end = true) by (by vm_compute).
  destruct (k_procs demo2 !! 2) as [p|] eqn:Hp; [|discriminate H2].
  destruct (k_procs demo3 !! 2) as [p'|] eqn:Hp'; [|discriminate H3].
  apply andb_true_iff in H2 as [Hz%negb_true_iff Hs%bool_decide_eq_true].
  apply andb_true_iff in H3 as [[Hc%bool_decide_eq_true Hl%negb_true_iff]%andb_true_iff Hz3].
  exists p, p'. split; [reflexivity|]. split; [reflexivity|].
  apply (wait4_no_lost_wakeup demo2 demo3 2 3 p p' 3 demo2_reachable);
    [discriminate|exact Hp|exact Hz|exact Hs| |exact Hp'| | |].
  - apply rtc_once. split; [apply demo_step3|]. apply (alive_abs demo3 2 p' Hp').
    unfold zombie_at in Hl. rewrite Hp' in Hl. exact Hl.
  - rewrite Hc. apply elem_of_cons. left. reflexivity.
  - right. vm_compute. reflexivity.
  - unfold zombie_at in Hz3. destruct (k_procs demo3 !! 3) as [q|] eqn:Hq; [|discriminate Hz3].
    exists q. split; [exact Hq|exact Hz3].
Defined.
