(* ===== verification/ProcessSpec.v ===== *)
(** * What the process system calls return

    [wait4], [fork] and [kill] on every branch. *)
From S2P Require Import Prelude Defines Kst IdAllocator FrameAllocator PageTable VmArea MemorySpace Trap Signal UserCheck UserAccess FdTable Process ProcessTree ProcessSteps.

Section spec.
Context {BD : Buddy} {KI : KernelImage} {PE : ProcessEnv} {F : Type}.
Implicit Types (p : Process F) (k : Kernel F).

(** ** [wait4] *)

(** The state once [self] has let go of its child [c]. *)
Definition reaped k (self : Z) p (c : Z) : Kernel F :=
  set_manager (k_manager k ∖ {[c]})
    (set_procs (<[self := P.with_children p (filter (λ x, x ≠ c) (p_children p))]> (k_procs k)) k).

(** What is left to do then: tell the caller how the child ended. *)
Definition report (self c code : Z) (wstatus : option Z) : kst (Kernel F) (option Z) :=
  _ ← match wstatus with
      | Some w => on_space self (write_user i32_codec w (Z.shiftl (wrap 8 code) 8))
      | None => mret ()
      end;
  mret (Some c).

Lemma zombie_exit_code s :
  ProcessStatus.is_zombie s = true → ∃ code, ProcessStatus.exit_code s = Some code.
Proof.
  intros Hz. unfold ProcessStatus.exit_code. destruct (Z.eqb_spec s ProcessStatus.normal) as [->|]; [done|].
  eauto.
Qed.

Lemma wait4_poll_reaps k self p pid wstatus options c cp code index :
  k_procs k !! self = Some p → NoDup (p_children p) →
  wait4_scan k pid (p_children p) = (true, Some index) →
  p_children p !! index = Some c → k_procs k !! c = Some cp →
  ProcessStatus.exit_code (p_status cp) = Some code →
  wait4_poll self pid wstatus options k = report self c code wstatus (reaped k self p c).
Proof.
  intros Hp Hnd Hs Hc Hcp Hcode. unfold wait4_poll.
  rewrite (kbind_run _ _ k p k) by (unfold proc, mbind, kst_bind, kget; simpl; by rewrite Hp).
  rewrite (kbind_run _ _ k k k) by done. rewrite Hs. simpl. rewrite Hc.
  rewrite (kbind_run _ _ k c k) by done.
  erewrite kbind_run by done. erewrite kbind_run by done.
  rewrite (delete_filter _ index c) by done. fold (reaped k self p c).
  set (cp' := if decide (c = self) then P.with_children p (filter (λ x, x ≠ c) (p_children p)) else cp).
  assert (Hcp' : k_procs (reaped k self p c) !! c = Some cp' ∧ p_status cp' = p_status cp).
  { unfold reaped, cp'. simpl. destruct (decide (c = self)) as [->|].
    - rewrite lookup_insert_eq. split; [done|]. simpl. congruence.
    - by rewrite lookup_insert_ne. }
  destruct Hcp' as [Hcp1 Hcp2].
  erewrite kbind_run; [|unfold proc, mbind, kst_bind, kget; simpl; simpl in Hcp1; by rewrite Hcp1].
  rewrite Hcp2, Hcode. by erewrite kbind_run by done.
Qed.

(** C31: one round of [wait4] on every branch: no child of the kind waited for is
    [ECHILD]; children but no zombie among them changes nothing and is 0 under
    [WNOHANG] and a suspension otherwise; a zombie child is removed from the
    children and from the process table, its pid returned and its exit byte
    stored, shifted by eight, at [wstatus]. *)
Theorem wait4_spec k self p pid wstatus options :
  k_procs k !! self = Some p → NoDup (p_children p) →
  let run := wait4_poll self pid wstatus options k in
  ((∀ c, c ∈ p_children p → ¬ waited pid c) → run = Fail ECHILD k) ∧
  ((∃ c, c ∈ p_children p ∧ waited pid c) →
   (∀ c, c ∈ p_children p → waited pid c → ¬ is_zombie_pid k c) →
   run = Done (if Flags.contains options WaitFlags.WNOHANG then Some 0 else None) k) ∧
  ((∃ c, c ∈ p_children p ∧ waited pid c ∧ is_zombie_pid k c) →
   ∃ c cp code, c ∈ p_children p ∧ waited pid c ∧ k_procs k !! c = Some cp ∧
     ProcessStatus.is_zombie (p_status cp) = true ∧
     ProcessStatus.exit_code (p_status cp) = Some code ∧
     run = report self c code wstatus (reaped k self p c)).
Proof.
  intros Hp Hnd run.
  destruct (wait4_scan k pid (p_children p)) as [has found] eqn:Es.
  destruct (wait4_scan_spec k pid _ has found Es) as [Hh Hf].
  assert (Hrun : (has = false → run = Fail ECHILD k) ∧
                 (has = true → found = None →
                  run = Done (if Flags.contains options WaitFlags.WNOHANG then Some 0 else None) k)).
  { unfold run, wait4_poll.
    rewrite (kbind_run _ _ k p k) by (unfold proc, mbind, kst_bind, kget; simpl; by rewrite Hp).
    rewrite (kbind_run _ _ k k k) by done. rewrite Es. split; [by intros ->|]. intros -> ->. simpl.
    by destruct (Flags.contains _ _). }
  destruct Hrun as [Hr1 Hr2]. split_and!.
  - intros Hno. apply Hr1. destruct has; [|done]. destruct (proj1 Hh eq_refl) as (c & Hc & Hw).
    by destruct (Hno c Hc).
  - intros Hex Hno. apply Hr2; [by apply Hh|]. destruct found as [i|]; [|done].
    destruct Hf as (c & Hc%list_elem_of_lookup_2 & Hw & Hz). by destruct (Hno c Hc Hw).
  - intros (c0 & Hc0 & Hw0 & Hz0). destruct found as [i|]; [|by destruct (Hf c0 Hc0 Hw0)].
    destruct Hf as (c & Hc & Hw & cp & Hcp & Hz). destruct (zombie_exit_code _ Hz) as [code Hcode].
    exists c, cp, code. split_and!; [by eapply list_elem_of_lookup_2|done..|].
    assert (has = true) as -> by (apply Hh; eauto). by eapply wait4_poll_reaps.
Qed.

(** ** [kill] *)
Definition takes_signal (t : Thread) (s : Signal) : bool :=
  negb (Flags.contains (signal_mask t) (KSignalSet.from s)) &&
  negb (Flags.contains (pending_signal t) (KSignalSet.from s)).
Definition with_signal (t : Thread) (s : Signal) : Thread :=
  Th.with_pending t (Flags.union (pending_signal t) (KSignalSet.from s)).

Lemma receive_loop_spec threads s order :
  (∀ tid t, tid ∈ order → threads !! tid = Some t → takes_signal t s = false) ∧
    receive_signal threads order s = threads ∨
  ∃ tid t, tid ∈ order ∧ threads !! tid = Some t ∧ takes_signal t s = true ∧
    receive_signal threads order s = <[tid := with_signal t s]> threads.
Proof.
  unfold receive_signal. induction order as [|tid order IH]; simpl; [left; set_solver|].
  destruct (threads !! tid) as [t|] eqn:Ht.
  - fold (takes_signal t s). destruct (takes_signal t s) eqn:E.
    + right. exists tid, t. split_and!; [set_solver|done|done|done].
    + destruct IH as [[Hn He]|(tid' & t' & Hin & ? & ? & He)].
      * left. split; [|done]. intros i x [->|Hi]%elem_of_cons Hx; [congruence|by eapply Hn].
      * right. exists tid', t'. split_and!; [set_solver|done..].
  - destruct IH as [[Hn He]|(tid' & t' & Hin & ? & ? & He)].
    + left. split; [|done]. intros i x [->|Hi]%elem_of_cons Hx; [congruence|by eapply Hn].
    + right. exists tid', t'. split_and!; [set_solver|done..].
Qed.

Lemma manager_get_run pid k :
  manager_get pid k = Done (if bool_decide (pid ∈ k_manager k) then Some pid else None) k.
Proof. done. Qed.

(** [kill] on a pid: a signal number that is no signal is [EINVAL], an
    unknown pid is [ESRCH], number 0 only checks that the process exists; any
    other signal becomes pending on exactly one thread, one that neither blocks
    it nor has it pending, and is discarded when there is no such thread. *)
Theorem kill_spec k pid signum p :
  0 < pid → k_procs k !! pid = Some p →
  (∀ tid, tid ∈ thread_order (p_threads p) ↔ is_Some (p_threads p !! tid)) →
  (0 < signum → in_uint 8 signum = false ∨ Sig.from_user signum = None →
     sys_kill pid signum k = Fail EINVAL k) ∧
  (signum = 0 ∨ (in_uint 8 signum = true ∧ is_Some (Sig.from_user signum)) →
   pid ∉ k_manager k → sys_kill pid signum k = Fail ESRCH k) ∧
  (pid ∈ k_manager k → sys_kill pid 0 k = Done 0 k) ∧
  (∀ s, 0 < signum → in_uint 8 signum = true → Sig.from_user signum = Some s → pid ∈ k_manager k →
   ∃ threads', sys_kill pid signum k =
       Done 0 (set_procs (<[pid := P.with_threads p threads']> (k_procs k)) k) ∧
     (((∀ tid t, p_threads p !! tid = Some t → takes_signal t s = false) ∧ threads' = p_threads p) ∨
      ∃ tid t, p_threads p !! tid = Some t ∧ takes_signal t s = true ∧
        threads' = <[tid := with_signal t s]> (p_threads p))).
Proof.
  intros Hpid Hp Hord. assert ((0 <? pid) = true) as Hpb by lia.
  assert (Hz : 0 < signum → (signum =? 0) = false) by lia. split_and!.
  - intros Hs Hbad. unfold sys_kill. rewrite Hz by done. simpl. apply kbind_fail.
    destruct (in_uint 8 signum); [|done]. destruct Hbad as [?| ->]; done.
  - intros Hok Hm. unfold sys_kill.
    assert (∃ o, (if negb (signum =? 0) then if in_uint 8 signum then
        s ← kok_or (Sig.from_user signum) EINVAL; mret (Some s) else kfail EINVAL else mret None) k =
        Done o k) as [o Ho].
    { destruct Hok as [->|[-> [s ->]]]; [by eexists|]. destruct (negb _); by eexists. }
    rewrite (kbind_run _ _ k o k) by exact Ho. rewrite Hpb.
    rewrite (kbind_run _ _ k None k); [done|]. rewrite manager_get_run.
    by rewrite bool_decide_eq_false_2.
  - intros Hm. unfold sys_kill. rewrite (kbind_run _ _ k None k) by done. rewrite Hpb.
    rewrite (kbind_run _ _ k (Some pid) k); [done|]. rewrite manager_get_run.
    by rewrite bool_decide_eq_true_2.
  - intros s Hs Hu Hsig Hm. exists (p_threads (receive p s)). split.
    + unfold sys_kill. rewrite Hz, Hu, Hsig by done. rewrite (kbind_run _ _ k (Some s) k) by done.
      rewrite Hpb. rewrite (kbind_run _ _ k (Some pid) k)
        by (rewrite manager_get_run; by rewrite bool_decide_eq_true_2).
      rewrite (kbind_run _ _ k p k) by (unfold proc, mbind, kst_bind, kget; simpl; by rewrite Hp).
      done.
    + simpl. destruct (receive_loop_spec (p_threads p) s (thread_order (p_threads p)))
        as [[Hn He]|(tid & t & _ & Ht & Htk & He)].
      * left. split; [|done]. intros tid t Ht. eapply Hn; [|done]. apply Hord. eauto.
      * right. exists tid, t. done.
Qed.

(** ** [fork] *)
Definition child_context (t : Thread) (stack : option Z) : TrapContext :=
  Ctx.set_a0 (match stack with Some s => Ctx.set_sp (trap_context t) s | None => trap_context t end) 0.

(** [fork] gives the child a pid no
    process has, the parent's program break, working directory, descriptors,
    signal handlers and signal mask, no pending signal, a copy of the address
    space made by [from_other] and the parent's registers with 0 in [a0] (and
    the stack given); the parent only gains the child, and no other process
    changes. *)
Theorem fork_spec k pid stack es c k' :
  kernel_ok k → fork pid stack es k = Done c k' →
  ∃ p t sp m,
    k_procs k !! pid = Some p ∧ p_threads p = {[ 0 := t ]} ∧
    from_other kernel_root page_caches (k_mem k) (p_space p) = Ok (sp, m) ∧
    k_procs k !! c = None ∧ k_mem k' = m ∧ k_manager k' = {[c]} ∪ k_manager k ∧
    k_procs k' = <[pid := P.with_children p (p_children p ++ [c])]>
      (<[c := mkProcess (p_name p) 0 (p_status p) es sp (p_heap p) (Some pid) [] (p_cwd p)
                (p_fds p) (p_handlers p) (p_tids p)
                {[ t_tid t := Th.new (t_tid t) (child_context t stack) (signal_mask t) ]}]>
         (k_procs k)).
Proof.
  intros [Hi Ha Hl]. unfold fork, proc, main_thread, alloc_pid. intros Hf.
  unfold mbind, kst_bind, kget, kassert, klift, kunwrap, kmodify in Hf.
  destruct (k_procs k !! pid) as [p|] eqn:Hp; [|done]. simpl in Hf.
  destruct (size (p_threads p) =? 1)%nat eqn:Hs; [|done].
  destruct (p_threads p !! 0) as [t|] eqn:Ht; [|done]. simpl in Hf.
  destruct (Recycle.alloc (k_pids k)) as [[c1 a]| |] eqn:Hal; [|done..]. simpl in Hf.
  destruct (from_other _ _ _ _) as [[sp m]| |] eqn:Hfo; [|done..]. injection Hf as <- <-.
  exists p, t, sp, m. apply Nat.eqb_eq in Hs. split_and!; [done| |done| |done|done|done].
  - rewrite <- (insert_delete_id _ _ _ Ht). assert (delete 0 (p_threads p) = ∅) as ->.
    { apply map_size_empty_inv. rewrite map_size_delete, Ht, Hs. done. }
    by rewrite insert_empty.
  - destruct (alloc_preserves 1 _ c1 a Ha Hal) as (_ & Hn & _).
    destruct (k_procs k !! c1) eqn:E; [|done]. exfalso. apply Hn, Hl. eauto.
Qed.
End spec.

(** ** On the small kernel *)
Lemma fork_spec_witness :
  kernel_ok demo_kernel ∧ ∃ c k' p, fork 1 None None demo_kernel = Done c k' ∧
    k_procs demo_kernel !! 1 = Some p ∧ k_manager k' = {[c]} ∪ {[1]}.
Proof.
  split; [apply demo_booted|].
  assert (Hf : is_run (fork 1 None None) demo_kernel = true) by (by vm_compute).
  assert (Hd : kcrashes (fork 1 None None demo_kernel) = false) by (by vm_compute).
  assert (He : match fork 1 None None demo_kernel with Fail _ _ => false | _ => true end = true)
    by (by vm_compute).
  destruct (fork 1 None None demo_kernel) as [c k'|e k'|] eqn:E; [|discriminate He|discriminate Hd].
  destruct (fork_spec demo_kernel 1 None None c k' (proj1 (proj2 demo_booted)) E)
    as (p & t & sp & m & Hp & _ & _ & _ & _ & Hm & _).
  exists c, k', p. split; [reflexivity|]. split; [exact Hp|exact Hm].
Defined.

(** Process 2 waits for any child after 3 has exited. *)
Lemma wait4_spec_witness :
  ∃ p c code, k_procs demo3 !! 2 = Some p ∧
    wait4_poll 2 (-1) None 0 demo3 = report 2 c code None (reaped demo3 2 p c).
Proof.
  assert (Hb : match k_procs demo3 !! 2 with
               | Some p => bool_decide (p_children p = [3]) && zombie_at demo3 3
               | None => false end = true) by (by vm_compute).
  destruct (k_procs demo3 !! 2) as [p|] eqn:Hp; [|discriminate Hb].
  apply andb_true_iff in Hb as [Hc%bool_decide_eq_true Hz].
  assert (Hnd : NoDup (p_children p)) by (rewrite Hc; apply NoDup_singleton).
  destruct (wait4_spec demo3 2 p (-1) None 0 Hp Hnd) as (_ & _ & Hw).
  destruct Hw as (c & cp & code & _ & _ & _ & _ & _ & Hr).
  - exists 3. rewrite Hc. split; [apply elem_of_cons; left; reflexivity|]. split; [left; reflexivity|].
    unfold zombie_at in Hz. destruct (k_procs demo3 !! 3) as [q|] eqn:Hq; [|discriminate Hz].
    exists q. split; [exact Hq|exact Hz].
  - exists p, c, code. split; [reflexivity|exact Hr].
Defined.

(** SIGTERM reaches the only thread of the first process. *)
Lemma kill_spec_witness :
  sys_kill 1 99 demo_kernel = Fail EINVAL demo_kernel ∧
  ∃ threads', sys_kill 1 15 demo_kernel =
    Done 0 (set_procs (<[1 := P.with_threads demo_init threads']> (k_procs demo_kernel)) demo_kernel).
Proof.
  assert (Ho : ∀ tid, tid ∈ thread_order (p_threads demo_init) ↔ is_Some (p_threads demo_init !! tid)).
  { intros tid. simpl. split.
    - intros ->%list_elem_of_singleton. rewrite lookup_singleton_eq. eauto.
    - intros [t [<- _]%lookup_singleton_Some]. apply list_elem_of_singleton. reflexivity. }
  split.
  - apply (kill_spec demo_kernel 1 99 demo_init ltac:(lia) eq_refl Ho); [lia|right; reflexivity].
  - destruct (kill_spec demo_kernel 1 15 demo_init ltac:(lia) eq_refl Ho) as (_ & _ & _ & Hk).
    destruct (Hk SIGTERM ltac:(lia) eq_refl eq_refl) as (th & Hr & _).
    + apply elem_of_singleton. reflexivity.
    + exists th. exact Hr.
Defined.

(** A bad [wstatus] pointer is noticed only after the child is gone: the call
    fails with [EFAULT] and the exit code is lost. *)
Lemma wait4_reaps_before_efault :
  match wait4_poll 2 (-1) (Some (2 ^ 40)) 0 demo3 with
  | Fail e k => bool_decide (e = EFAULT) &&
      bool_decide (p_children <$> k_procs k !! 2 = Some []) && bool_decide (3 ∉ k_manager k)
  | _ => false
  end = true.
Proof. by vm_compute. Qed.

(** [exit_group] in a process that is already exiting (two [exit_group]s, or a
    fatal signal and an [exit_group]) is a failed assertion of the kernel. *)
Lemma exit_group_twice :
  kcrashes ((_ ← ktry (sys_exit_group 1 0); sys_exit_group 1 0) demo_kernel) = true.
Proof. by vm_compute. Qed.
