(* ===== verification/Inode.v ===== *)
(** * Regular files and the page cache

    [libkernel/src/fs/inode.rs] and [page_cache.rs]: what [read_at], [write_at]
    and [resize] do to a file whose pages are cached in frames and backed by a
    file system. The file system is an implementation of [BytesBackend]; the
    devices, which have no page cache, are called through [dev_read] and
    [dev_write]. User memory is a memory of its own here: a buffer that lies in
    a shared mapping of the very file it is read from is left out. *)
From S2P Require Import Prelude BTree Address Defines Kst FrameAllocator UserCheck UserAccess.

Inductive InodeMode : Type :=
| Regular | Dir | SymbolLink | Socket | Fifo | BlockDevice | CharDevice.
#[export] Instance InodeMode_eq_dec : EqDecision InodeMode.
Proof. solve_decision. Defined.

(** [From<InodeMode> for StatMode] *)
Definition stat_mode (m : InodeMode) : Z :=
  match m with
  | Regular => StatMode.REGULAR
  | Dir => StatMode.DIR
  | SymbolLink => StatMode.SYM_LINK
  | Socket => StatMode.SOCKET
  | Fifo => StatMode.FIFO
  | BlockDevice => StatMode.BLOCK_DEVICE
  | CharDevice => StatMode.CHAR_DEVICE
  end.

Inductive PageState : Type := Invalid | Synced | Dirty.
#[export] Instance PageState_eq_dec : EqDecision PageState.
Proof. solve_decision. Defined.

(** A page of the cache: its frame and whether the frame holds the file. *)
Record BackedPage : Type := mkBacked { bp_frame : Z; bp_state : PageState }.

(** [InodeMeta] with its [InodeMetaInner] and [PageCache]. *)
Record InodeMeta : Type := mkMeta {
  ino : Z;
  mode : InodeMode;
  pages : gmap Z BackedPage;
  data_len : Z;
  access_time : TimeSpec;
  modify_time : TimeSpec;
  change_time : TimeSpec;
}.

Module Meta.
Definition new (number : Z) (m : InodeMode) : InodeMeta :=
  mkMeta number m ∅ 0 TimeSpec_default TimeSpec_default TimeSpec_default.
Definition with_pages (i : InodeMeta) (p : gmap Z BackedPage) : InodeMeta :=
  mkMeta (ino i) (mode i) p (data_len i) (access_time i) (modify_time i) (change_time i).
Definition with_len (i : InodeMeta) (l : Z) : InodeMeta :=
  mkMeta (ino i) (mode i) (pages i) l (access_time i) (modify_time i) (change_time i).
Definition with_access (i : InodeMeta) (t : TimeSpec) : InodeMeta :=
  mkMeta (ino i) (mode i) (pages i) (data_len i) t (modify_time i) (change_time i).
Definition with_modify (i : InodeMeta) (t : TimeSpec) : InodeMeta :=
  mkMeta (ino i) (mode i) (pages i) (data_len i) (access_time i) t (change_time i).
Definition with_change (i : InodeMeta) (t : TimeSpec) : InodeMeta :=
  mkMeta (ino i) (mode i) (pages i) (data_len i) (access_time i) (modify_time i) t.
End Meta.

(** ** The file system behind a file

    [content d] is what the file system stores for the file, slack space
    included. A page is read over the bytes of its frame, as far as there is
    content; pages are numbered below [2 ^ 29] (two terabytes). [truncate] is
    given the metadata it changes. *)
Class BytesBackend (D : Type) := {
  read_page : D → Z → list Z → KResult (list Z * Z);
  truncate : D → InodeMeta → Z → TimeSpec → KResult (D * InodeMeta);
  content : D → list Z;
  backend_ok : D → Prop;
  read_page_ok d id page :
    backend_ok d → 0 ≤ id < 2 ^ 29 → Z.of_nat (length page) = PAGE_SIZE →
    let chunk := take (Z.to_nat PAGE_SIZE) (drop (Z.to_nat (id * PAGE_SIZE)) (content d)) in
    read_page d (id * PAGE_SIZE) page =
      Ok (chunk ++ drop (length chunk) page, Z.of_nat (length chunk));
}.

(** [ReadBuffer] and [WriteBuffer]: kernel bytes or a range of user memory. The
    bytes of a kernel buffer that is read into are part of the state. *)
Inductive ReadBuffer : Type := RKernel | RUser (addr len : Z).
Inductive WriteBuffer : Type := WKernel (bytes : list Z) | WUser (addr len : Z).

Section inode.
Context {BD : Buddy} {KI : KernelImage} {D : Type} {BB : BytesBackend D} {U : Type} {UM : UserMemory U}.

(** What an operation on one file works with. *)
Record Io : Type := mkIo {
  io_mem : Mem;
  io_meta : InodeMeta;
  io_dev : D;
  io_user : U;
  io_kbuf : list Z;
}.
Definition set_io_mem (m : Mem) (s : Io) : Io := mkIo m (io_meta s) (io_dev s) (io_user s) (io_kbuf s).
Definition set_io_meta (i : InodeMeta) (s : Io) : Io :=
  mkIo (io_mem s) i (io_dev s) (io_user s) (io_kbuf s).
Definition set_io_dev (d : D) (s : Io) : Io := mkIo (io_mem s) (io_meta s) d (io_user s) (io_kbuf s).
Definition set_io_user (u : U) (s : Io) : Io := mkIo (io_mem s) (io_meta s) (io_dev s) u (io_kbuf s).
Definition set_io_kbuf (b : list Z) (s : Io) : Io :=
  mkIo (io_mem s) (io_meta s) (io_dev s) (io_user s) b.

Definition on_user {A} (c : kst U A) : kst Io A := λ s,
  match c (io_user s) with
  | Done a u => Done a (set_io_user u s)
  | Fail e u => Fail e (set_io_user u s)
  | Crash => Crash
  end.

(** ** Buffers *)
Definition rbuf_len (b : ReadBuffer) (s : Io) : Z :=
  match b with RKernel => Z.of_nat (length (io_kbuf s)) | RUser _ len => len end.
Definition wbuf_len (b : WriteBuffer) : Z :=
  match b with WKernel bs => Z.of_nat (length bs) | WUser _ len => len end.

(** [buf[n..n + len].copy_from_slice(bytes)]; a user buffer is sliced
    ([expect]) and checked first. *)
Definition rbuf_put (b : ReadBuffer) (n : Z) (bytes : list Z) : kst Io () :=
  match b with
  | RKernel =>
      kmodify (λ s, set_io_kbuf (take (Z.to_nat n) (io_kbuf s) ++ bytes ++
                                 drop (Z.to_nat n + length bytes) (io_kbuf s)) s)
  | RUser addr _ =>
      _ ← kassert (addr + n <=? usize_max);
      on_user (_ ← check_write (addr + n) (Z.of_nat (length bytes)); store_user (addr + n) bytes)
  end.

(** [buf.slice(n..n + len)], checked, as bytes. *)
Definition wbuf_get (b : WriteBuffer) (n len : Z) : kst Io (list Z) :=
  match b with
  | WKernel bs => mret (take (Z.to_nat len) (drop (Z.to_nat n) bs))
  | WUser addr _ =>
      _ ← kassert (addr + n <=? usize_max);
      on_user (_ ← check_read (addr + n) len; load_user (addr + n) (Z.to_nat len))
  end.

(** ** [PageCache] *)
Definition page_bytes (m : Mem) (ppn : Z) : list Z := byte_at m ppn <$> seqZ 0 PAGE_SIZE.

Definition cache_create (page_id : Z) : kst Io BackedPage :=
  s ← kget;
  '(o, m) ← klift (Frame_alloc (io_mem s));
  _ ← kmodify (set_io_mem m);
  ppn ← kunwrap o;
  let page := mkBacked ppn Invalid in
  _ ← kassert (negb (bool_decide (is_Some (pages (io_meta s) !! page_id))));
  _ ← kmodify (set_io_meta (Meta.with_pages (io_meta s) (<[page_id := page]> (pages (io_meta s)))));
  mret page.

Definition get_or_init_page (page_id : Z) : kst Io BackedPage :=
  s ← kget;
  match pages (io_meta s) !! page_id with
  | Some page => mret page
  | None => cache_create page_id
  end.

Definition set_state (page_id : Z) (st : PageState) : kst Io () :=
  kmodify (λ s, set_io_meta (Meta.with_pages (io_meta s)
    (alter (λ p, mkBacked (bp_frame p) st) page_id (pages (io_meta s)))) s).

(** [read_inode_at] into the bytes of a frame. *)
Definition fill_page (page_id ppn : Z) : kst Io () :=
  s ← kget;
  '(bytes, _) ← klift (read_page (io_dev s) (page_id * PAGE_SIZE) (page_bytes (io_mem s) ppn));
  kmodify (set_io_mem (write_bytes (io_mem s) ppn 0 bytes)).

(** The frame of a page, in the cache and no longer [Invalid]; a page that was
    is read from the file system first, if [fill]. *)
Definition prepare_page (page_id : Z) (st : PageState) (fill : bool) : kst Io Z :=
  page ← get_or_init_page page_id;
  _ ← (if bool_decide (bp_state page = Invalid) then
         _ ← (if fill then fill_page page_id (bp_frame page) else mret ());
         set_state page_id st
       else mret ());
  mret (bp_frame page).

(** [free_pages(left..)]: the pages from [left] on go, with their frames. *)
Definition free_pages (left : Z) : kst Io () :=
  s ← kget;
  let freed := filter (λ e, left ≤ e.1) (pages (io_meta s)) in
  m ← klift (Frames_drop (io_mem s) ((λ e, bp_frame e.2) <$> btree_iter freed));
  _ ← kmodify (set_io_mem m);
  kmodify (set_io_meta (Meta.with_pages (io_meta s)
    (filter (λ e, ¬ left ≤ e.1) (pages (io_meta s))))).

(** ** [read_at] *)
Fixpoint read_loop (fuel : nat) (buf : ReadBuffer) (offset read_end nread : Z) : kst Io Z :=
  if nread <? read_end then
    match fuel with
    | O => kcrash
    | S fuel =>
        let page_id := Z.shiftr (offset + nread) PAGE_SIZE_BITS in
        let page_offset := Z.land (offset + nread) PAGE_OFFSET_MASK in
        frame ← prepare_page page_id Synced true;
        let copy_len := Z.min (read_end - nread) (PAGE_SIZE - page_offset) in
        s ← kget;
        _ ← rbuf_put buf nread
              (take (Z.to_nat copy_len) (drop (Z.to_nat page_offset) (page_bytes (io_mem s) frame)));
        read_loop fuel buf offset read_end (nread + copy_len)
    end
  else mret nread.

Section devices.
Variable dev_read : ReadBuffer → Z → kst Io Z.
Variable dev_write : WriteBuffer → Z → kst Io Z.

Definition read_at (now : TimeSpec) (buf : ReadBuffer) (offset : Z) : kst Io Z :=
  s ← kget;
  let len := data_len (io_meta s) in
  if len <? offset then mret 0
  else if bool_decide (mode (io_meta s) = Regular) then
    let read_end := Z.min (rbuf_len buf s) (len - offset) in
    nread ← read_loop (Z.to_nat read_end) buf offset read_end 0;
    _ ← kmodify (λ s, set_io_meta (Meta.with_access (io_meta s) now) s);
    mret nread
  else dev_read buf offset.

(** ** [write_at] *)
Fixpoint write_loop (fuel : nat) (buf : WriteBuffer) (offset curr_last_page_id : Z) (full : Z * Z)
    (nwrite : Z) : kst Io Z :=
  if nwrite <? wbuf_len buf then
    match fuel with
    | O => kcrash
    | S fuel =>
        let page_id := Z.shiftr (offset + nwrite) PAGE_SIZE_BITS in
        let page_offset := Z.land (offset + nwrite) PAGE_OFFSET_MASK in
        frame ← prepare_page page_id Dirty
          ((page_id <=? curr_last_page_id) && ((full.1 <=? page_id) && (page_id <? full.2)));
        let copy_len := Z.min (wbuf_len buf - nwrite) (PAGE_SIZE - page_offset) in
        bytes ← wbuf_get buf nwrite copy_len;
        _ ← kmodify (λ s, set_io_mem (write_bytes (io_mem s) frame page_offset bytes) s);
        write_loop fuel buf offset curr_last_page_id full (nwrite + copy_len)
    end
  else mret nwrite.

(** [u64::next_multiple_of] *)
Definition next_multiple_of (x k : Z) : KResult Z := checked 64 (div_ceil x k * k).

Definition write_at (now : TimeSpec) (buf : WriteBuffer) (offset : Z) : kst Io Z :=
  s ← kget;
  if bool_decide (mode (io_meta s) = Regular) then
    let curr_last_page_id := Z.shiftr (data_len (io_meta s)) PAGE_SIZE_BITS in
    stop ← klift (uadd 64 offset (wbuf_len buf));
    range_end ← klift (next_multiple_of stop PAGE_SIZE);
    let full := (Z.land offset (usize_max - PAGE_OFFSET_MASK), range_end) in
    nwrite ← write_loop (Z.to_nat (wbuf_len buf)) buf offset curr_last_page_id full 0;
    _ ← kmodify (λ s,
          let i := Meta.with_modify (Meta.with_access (io_meta s) now) now in
          set_io_meta (if data_len i <? stop then Meta.with_change (Meta.with_len i stop) now else i) s);
    mret nwrite
  else dev_write buf offset.
End devices.

(** ** [resize] *)
Definition resize (now : TimeSpec) (len : Z) : kst Io () :=
  s ← kget;
  _ ← kassert (bool_decide (mode (io_meta s) = Regular));
  let curr_last_page_id := Z.shiftr (data_len (io_meta s)) PAGE_SIZE_BITS in
  let new_last_page_id := Z.shiftr len PAGE_SIZE_BITS in
  _ ← (if new_last_page_id <? curr_last_page_id then free_pages (new_last_page_id + 1) else mret ());
  s ← kget;
  '(d, i) ← klift (truncate (io_dev s) (io_meta s) len now);
  _ ← kmodify (set_io_dev d);
  kmodify (set_io_meta i).
End inode.
Arguments Io {_} D U.

(** ** The file a state stands for *)
Section file.
Context {BD : Buddy} {KI : KernelImage} {D : Type} {BB : BytesBackend D} {U : Type} {UM : UserMemory U}.
Implicit Types (s : Io D U).

Definition cached s (id : Z) : Prop :=
  ∃ p, pages (io_meta s) !! id = Some p ∧ bp_state p ≠ Invalid.
#[export] Instance cached_dec s id : Decision (cached s id).
Proof.
  destruct (pages (io_meta s) !! id) as [p|] eqn:E.
  - destruct (decide (bp_state p = Invalid)); [right|left; by exists p].
    intros (q & Hq & Hn). congruence.
  - right. intros (q & Hq & _). congruence.
Defined.

(** Byte [i] of the file: from the cache, else from the file system. *)
Definition frame_of s (id : Z) : Z :=
  match pages (io_meta s) !! id with Some p => bp_frame p | None => 0 end.
Definition file_byte s (i : Z) : Z :=
  if decide (cached s (i / PAGE_SIZE)) then byte_at (io_mem s) (frame_of s (i / PAGE_SIZE)) (i mod PAGE_SIZE)
  else default 0 (content (io_dev s) !! Z.to_nat i).
Definition file_bytes s (from len : Z) : list Z := file_byte s <$> seqZ from len.

(** The frames of the cache are distinct frames in use; a page that was never
    filled is still zero. *)
Record io_ok s : Prop := {
  io_ok_mem : mem_inv (io_mem s);
  io_ok_dev : backend_ok (io_dev s);
  io_ok_page id p : pages (io_meta s) !! id = Some p →
    0 ≤ id ∧ begin_ppn ≤ bp_frame p < end_ppn ∧ ¬ is_free (io_mem s) (bp_frame p);
  io_ok_inj i j p q : pages (io_meta s) !! i = Some p → pages (io_meta s) !! j = Some q →
    bp_frame p = bp_frame q → i = j;
  io_ok_zero id p : pages (io_meta s) !! id = Some p → bp_state p = Invalid →
    ∀ o, byte_at (io_mem s) (bp_frame p) o = 0;
}.

(** What filling the cache leaves alone. *)
Definition same_rest s s' : Prop :=
  io_dev s' = io_dev s ∧ io_user s' = io_user s ∧ io_kbuf s' = io_kbuf s ∧
  data_len (io_meta s') = data_len (io_meta s) ∧ mode (io_meta s') = mode (io_meta s) ∧
  ino (io_meta s') = ino (io_meta s).

(** [id] is brought into the cache. *)
Record page_in s (id : Z) s' : Prop := {
  pi_ok : io_ok s';
  pi_rest : same_rest s s';
  pi_here : is_Some (pages (io_meta s') !! id);
  pi_other j : j ≠ id → pages (io_meta s') !! j = pages (io_meta s) !! j;
  pi_bytes j p o : j ≠ id → pages (io_meta s) !! j = Some p →
    byte_at (io_mem s') (bp_frame p) o = byte_at (io_mem s) (bp_frame p) o;
  pi_free : (free_count (io_mem s) ≤ S (free_count (io_mem s')))%nat;
  pi_free_cached : is_Some (pages (io_meta s) !! id) → free_count (io_mem s') = free_count (io_mem s);
}.

Lemma get_page_hit s id p :
  pages (io_meta s) !! id = Some p → get_or_init_page id s = Done p s.
Proof. intros Hp. unfold get_or_init_page. rewrite (kbind_run _ _ s s s) by done. by rewrite Hp. Qed.

Lemma get_page_miss s id :
  io_ok s → 0 ≤ id → pages (io_meta s) !! id = None → (0 < free_count (io_mem s))%nat →
  ∃ ppn s', get_or_init_page id s = Done (mkBacked ppn Invalid) s' ∧ page_in s id s' ∧
    pages (io_meta s') !! id = Some (mkBacked ppn Invalid) ∧
    ∀ o, byte_at (io_mem s') ppn o = 0.
Proof.
  intros Hok Hid Hn Hf. destruct (Frame_alloc_total _ (io_ok_mem s Hok) Hf) as (ppn & m' & Ha & Hc).
  pose proof (Frame_alloc_spec _ _ _ Ha) as (Hfree & Hiff & _ & Hb).
  assert (Hne : ∀ j p, pages (io_meta s) !! j = Some p → bp_frame p ≠ ppn).
  { intros j p Hj E. destruct (io_ok_page s Hok j p Hj) as (_ & _ & Hx). by rewrite E in Hx. }
  exists ppn. eexists. split.
  { unfold get_or_init_page, cache_create. rewrite (kbind_run _ _ s s s) by done. rewrite Hn.
    rewrite (kbind_run _ _ s s s) by done.
    rewrite (kbind_run _ _ s (Some ppn, m') s) by (unfold klift; by rewrite Ha).
    erewrite kbind_run by done. erewrite kbind_run by done.
    erewrite kbind_run by (unfold kassert; by rewrite bool_decide_eq_false_2 by (intros [? ?]; congruence)).
    by erewrite kbind_run by done. }
  split_and!; [constructor; simpl| |].
  - constructor; simpl.
    + intros q [Hq _]%Hiff. by apply (io_ok_mem s Hok).
    + by apply (io_ok_dev s Hok).
    + intros j p. rewrite lookup_insert_Some. intros [[<- <-]|[_ Hj]]; simpl.
      * split; [done|]. split; [by apply (io_ok_mem s Hok)|]. rewrite Hiff. naive_solver.
      * destruct (io_ok_page s Hok j p Hj) as (? & ? & Hx). split; [done|]; split; [done|].
        rewrite Hiff. naive_solver.
    + intros i j p q. rewrite !lookup_insert_Some.
      intros [[<- <-]|[Hi Hpi]] [[<- <-]|[Hj Hqj]]; simpl; [done| | |].
      * intros E. by destruct (Hne j q Hqj).
      * intros E. by destruct (Hne i p Hpi).
      * by eapply (io_ok_inj s Hok).
    + intros j p. rewrite lookup_insert_Some. intros [[<- <-]|[_ Hj]] Hs o; simpl.
      * rewrite Hb. by rewrite decide_True.
      * rewrite Hb, decide_False by (by eapply Hne). by eapply (io_ok_zero s Hok).
  - done.
  - rewrite lookup_insert_eq. eauto.
  - intros j Hj. by rewrite lookup_insert_ne.
  - intros j p o _ Hj. rewrite Hb, decide_False by (by eapply Hne). done.
  - lia.
  - intros [? ?]. congruence.
  - simpl. by rewrite lookup_insert_eq.
  - simpl. intros o. rewrite Hb. by rewrite decide_True.
Qed.

Lemma page_in_trans s id s1 s2 : page_in s id s1 → page_in s1 id s2 → page_in s id s2.
Proof.
  intros [H1 (R1 & R2 & R3 & R4 & R5 & R6) H3 H4 H5 H6 H7] [K1 (S1 & S2 & S3 & S4 & S5 & S6) K3 K4 K5 K6 K7].
  rewrite R1 in S1. rewrite R2 in S2. rewrite R3 in S3. rewrite R4 in S4. rewrite R5 in S5. rewrite R6 in S6.
  constructor; [done|done|done| | | |].
  - intros j Hj. by rewrite K4, H4.
  - intros j p o Hj Hp. rewrite (K5 j p), (H5 j p); [done|done|done|done|]. by rewrite H4.
  - rewrite (K7 H3). done.
  - intros Hs. by rewrite (K7 H3), (H7 Hs).
Qed.

(** A write into the frame of a page of the cache. *)
Lemma page_write_ok s id p off bytes st :
  io_ok s → pages (io_meta s) !! id = Some p → st ≠ Invalid →
  page_in s id
    (set_io_meta (Meta.with_pages (io_meta s) (<[id := mkBacked (bp_frame p) st]> (pages (io_meta s))))
       (set_io_mem (write_bytes (io_mem s) (bp_frame p) off bytes) s)).
Proof.
  intros Hok Hp Hst.
  destruct (write_bytes_frame (io_mem s) (bp_frame p) off bytes) as [Hal Hpt].
  assert (Hfr : ∀ q, is_free (write_bytes (io_mem s) (bp_frame p) off bytes) q ↔ is_free (io_mem s) q)
    by (intros q; unfold is_free; by rewrite Hal).
  assert (Hoth : ∀ j q o, j ≠ id → pages (io_meta s) !! j = Some q →
    byte_at (write_bytes (io_mem s) (bp_frame p) off bytes) (bp_frame q) o = byte_at (io_mem s) (bp_frame q) o).
  { intros j q o Hj Hq. rewrite byte_at_write_bytes, decide_False; [done|]. intros [E _].
    by apply Hj, (io_ok_inj s Hok j id q p Hq Hp). }
  constructor; simpl; [constructor; simpl|done| | | | |].
  - intros q Hq%Hfr. by apply (io_ok_mem s Hok).
  - by apply (io_ok_dev s Hok).
  - intros j q. rewrite lookup_insert_Some, Hfr. intros [[<- <-]|[_ Hj]]; [|by apply (io_ok_page s Hok)].
    by apply (io_ok_page s Hok id p).
  - intros i j q q'. rewrite !lookup_insert_Some.
    intros [[<- <-]|[Hi Hqi]] [[<- <-]|[Hj Hqj]]; simpl; intros E; [done|..].
    + by apply (io_ok_inj s Hok id j p q').
    + by apply (io_ok_inj s Hok i id q p).
    + by apply (io_ok_inj s Hok i j q q').
  - intros j q. rewrite lookup_insert_Some. intros [[<- <-]|[Hj Hqj]] Hs; [done|]. intros o.
    rewrite (Hoth j q) by congruence. by eapply (io_ok_zero s Hok).
  - rewrite lookup_insert_eq. eauto.
  - intros j Hj. by rewrite lookup_insert_ne.
  - done.
  - unfold free_count. rewrite Hal. lia.
  - unfold free_count. by rewrite Hal.
Qed.

(** The chunk of the file system's content that falls into a page. *)
Definition page_chunk s (id : Z) : list Z :=
  take (Z.to_nat PAGE_SIZE) (drop (Z.to_nat (id * PAGE_SIZE)) (content (io_dev s))).

Lemma page_chunk_lookup s id o :
  0 ≤ id → 0 ≤ o < PAGE_SIZE →
  page_chunk s id !! Z.to_nat o = content (io_dev s) !! Z.to_nat (id * PAGE_SIZE + o).
Proof.
  intros Hid Ho. unfold page_chunk. change PAGE_SIZE with 4096 in *.
  rewrite lookup_take_lt, lookup_drop by lia. f_equal. lia.
Qed.

Lemma length_page_bytes m ppn : Z.of_nat (length (page_bytes m ppn)) = PAGE_SIZE.
Proof. unfold page_bytes. rewrite length_fmap, length_seqZ. done. Qed.
Lemma page_bytes_lookup m ppn o :
  0 ≤ o < PAGE_SIZE → page_bytes m ppn !! Z.to_nat o = Some (byte_at m ppn o).
Proof.
  intros Ho. unfold page_bytes. rewrite list_lookup_fmap, lookup_seqZ_lt by lia. simpl. do 2 f_equal. lia.
Qed.

Lemma set_state_run s id p st :
  pages (io_meta s) !! id = Some p →
  set_state id st s = Done () (set_io_meta (Meta.with_pages (io_meta s)
    (<[id := mkBacked (bp_frame p) st]> (pages (io_meta s)))) s).
Proof.
  intros Hp. unfold set_state, kmodify. do 3 f_equal. apply map_eq. intros j.
  destruct (decide (j = id)) as [->|].
  - by rewrite lookup_alter_eq, lookup_insert_eq, Hp.
  - by rewrite lookup_alter_ne, lookup_insert_ne.
Qed.

Definition ready s (id : Z) (fill : bool) s' : Prop :=
  page_in s id s' ∧ cached s' id ∧
  ∀ o, 0 ≤ o < PAGE_SIZE → byte_at (io_mem s') (frame_of s' id) o =
    if fill then default 0 (content (io_dev s) !! Z.to_nat (id * PAGE_SIZE + o)) else 0.

#[local] Opaque Z.to_nat.
Lemma invalid_page_ready s id ppn st (fill : bool) :
  io_ok s → 0 ≤ id → (fill = true → id < 2 ^ 29) → st ≠ Invalid →
  pages (io_meta s) !! id = Some (mkBacked ppn Invalid) →
  ∃ s', (_ ← (if fill then fill_page id ppn else mret ()); set_state id st) s = Done () s' ∧
    ready s id fill s' ∧ frame_of s' id = ppn.
Proof.
  intros Hok Hid Hbig Hst Hp.
  assert (Hz : ∀ o, byte_at (io_mem s) ppn o = 0) by by apply (io_ok_zero s Hok id _ Hp).
  set (bytes := if fill then page_chunk s id ++ drop (length (page_chunk s id)) (page_bytes (io_mem s) ppn) else []).
  pose proof (page_write_ok s id _ 0 bytes st Hok Hp Hst) as Hin. simpl in Hin.
  set (s' := set_io_meta _ _) in Hin. exists s'.
  assert (Hlen : (length (page_chunk s id) ≤ Z.to_nat PAGE_SIZE)%nat)
    by (unfold page_chunk; rewrite length_take; lia).
  assert (Hfr : frame_of s' id = ppn) by (unfold frame_of; simpl; by rewrite lookup_insert_eq).
  split_and!; [| |done].
  - destruct fill; simpl in *.
    + unfold fill_page. rewrite kbind_assoc. rewrite (kbind_run _ _ s s s) by done.
      rewrite kbind_assoc. rewrite (kbind_run _ _ s (bytes, Z.of_nat (length (page_chunk s id))) s).
      2:{ unfold klift. pose proof (length_page_bytes (io_mem s) ppn).
          rewrite (read_page_ok _ id _ (io_ok_dev s Hok)); [done|by auto|done]. }
      erewrite kbind_run by done. by rewrite (set_state_run _ id (mkBacked ppn Invalid)).
    + erewrite kbind_run by done. by rewrite (set_state_run _ id (mkBacked ppn Invalid)).
  - split; [done|]. split.
    { exists (mkBacked ppn st). split; [simpl; by rewrite lookup_insert_eq|done]. }
    intros o Ho. rewrite Hfr. simpl. rewrite byte_at_write_bytes. unfold bytes.
    destruct fill; [|rewrite decide_False by (simpl; lia); apply Hz].
    rewrite length_app, length_drop. pose proof (length_page_bytes (io_mem s) ppn).
    rewrite decide_True by lia. rewrite Z.sub_0_r, <- page_chunk_lookup by done.
    destruct (decide (Z.to_nat o < length (page_chunk s id))%nat).
    + by rewrite lookup_app_l.
    + rewrite lookup_app_r, lookup_drop by lia.
      replace (_ + _)%nat with (Z.to_nat o) by lia. rewrite page_bytes_lookup, Hz by done.
      by rewrite (lookup_ge_None_2 (page_chunk s id)) by lia.
Qed.

#[local] Transparent Z.to_nat.
Lemma prepare_page_ok s id st (fill : bool) :
  io_ok s → 0 ≤ id → (fill = true → id < 2 ^ 29) → st ≠ Invalid →
  (is_Some (pages (io_meta s) !! id) ∨ (0 < free_count (io_mem s))%nat) →
  ∃ s', prepare_page id st fill s = Done (frame_of s' id) s' ∧
    (cached s id → s' = s) ∧ (¬ cached s id → ready s id fill s').
Proof.
  intros Hok Hid Hbig Hst Hfree. unfold prepare_page.
  destruct (pages (io_meta s) !! id) as [[ppn ps]|] eqn:Hp.
  - rewrite (kbind_run _ _ s (mkBacked ppn ps) s) by by apply get_page_hit. simpl.
    destruct (decide (ps = Invalid)) as [->|Hps].
    + destruct (invalid_page_ready s id ppn st fill Hok Hid Hbig Hst Hp) as (s' & Hrun & Hr & Hf).
      exists s'. rewrite bool_decide_eq_true_2 by done. rewrite (kbind_run _ _ s () s') by exact Hrun.
      rewrite Hf. split_and!; [done| |done]. intros (q & Hq & Hi). rewrite Hp in Hq. by injection Hq as <-.
    + exists s. rewrite bool_decide_eq_false_2 by done. unfold frame_of. rewrite Hp.
      split_and!; [done|done|]. intros Hn. exfalso. apply Hn. by exists (mkBacked ppn ps).
  - destruct Hfree as [[? ?]|Hfree]; [done|].
    destruct (get_page_miss s id Hok Hid Hp Hfree) as (ppn & s1 & Hg & Hin1 & Hp1 & Hz).
    rewrite (kbind_run _ _ s (mkBacked ppn Invalid) s1) by exact Hg. simpl.
    destruct (invalid_page_ready s1 id ppn st fill (pi_ok _ _ _ Hin1) Hid Hbig Hst Hp1) as (s' & Hrun & Hr & Hf).
    exists s'. rewrite (kbind_run _ _ s1 () s') by exact Hrun. rewrite Hf. split_and!; [done| |].
    + intros (q & Hq & _). congruence.
    + intros _. destruct Hr as (Hin2 & Hc & Hb). split; [by eapply page_in_trans|]. split; [done|].
      intros o Ho. rewrite (Hb o Ho). destruct (pi_rest _ _ _ Hin1) as (-> & _). done.
Qed.

(** ** The file through the cache *)
Lemma cached_other s id s' j : page_in s id s' → j ≠ id → cached s' j ↔ cached s j.
Proof. intros Hin Hj. unfold cached. by rewrite (pi_other _ _ _ Hin). Qed.

Lemma page_in_byte s id s' i :
  page_in s id s' → i / PAGE_SIZE ≠ id → file_byte s' i = file_byte s i.
Proof.
  intros Hin Hi. unfold file_byte, frame_of. rewrite (pi_other _ _ _ Hin) by done.
  destruct (pi_rest _ _ _ Hin) as (-> & _).
  destruct (decide (cached s' (i / PAGE_SIZE))) as [Hc|Hc].
  - assert (Hc2 : cached s (i / PAGE_SIZE)) by by apply (cached_other s id s').
    rewrite decide_True by done. destruct Hc2 as (p & Hp & _). rewrite Hp. by eapply (pi_bytes _ _ _ Hin).
  - rewrite decide_False by (by rewrite <- (cached_other s id s')). done.
Qed.

Lemma page_split i : 0 ≤ i → i = i / PAGE_SIZE * PAGE_SIZE + i mod PAGE_SIZE ∧ 0 ≤ i mod PAGE_SIZE < PAGE_SIZE.
Proof. intros. change PAGE_SIZE with 4096. Z.to_euclidean_division_equations. lia. Qed.

Lemma ready_fill_byte s id s' i : 0 ≤ i → ¬ cached s id → ready s id true s' → file_byte s' i = file_byte s i.
Proof.
  intros Hi Hn (Hin & Hc & Hb). destruct (decide (i / PAGE_SIZE = id)) as [<-|]; [|by eapply page_in_byte].
  unfold file_byte. rewrite decide_True, decide_False by done.
  destruct (page_split i Hi) as [E Ho]. rewrite Hb by done. by rewrite <- E.
Qed.

(** The file is the same, and what the cache is not about. *)
Definition same_file s s' : Prop :=
  io_ok s' ∧ (∀ i, 0 ≤ i → file_byte s' i = file_byte s i) ∧ same_rest s s'.

Lemma same_rest_trans s1 s2 s3 : same_rest s1 s2 → same_rest s2 s3 → same_rest s1 s3.
Proof.
  intros (?&?&?&?&?&?) (?&?&?&?&?&?). unfold same_rest.
  split_and!; etrans; eassumption.
Qed.
Lemma same_file_trans s1 s2 s3 : same_file s1 s2 → same_file s2 s3 → same_file s1 s3.
Proof.
  intros (_ & Hb & Hr) (Hok & Hb' & Hr'). split; [done|]. split; [|by eapply same_rest_trans].
  intros i Hi. by rewrite Hb', Hb.
Qed.

(** Reading a page in changes nothing one can see. *)
Lemma prepare_read s id st :
  io_ok s → 0 ≤ id < 2 ^ 29 → st ≠ Invalid →
  (is_Some (pages (io_meta s) !! id) ∨ (0 < free_count (io_mem s))%nat) →
  ∃ s', prepare_page id st true s = Done (frame_of s' id) s' ∧ same_file s s' ∧ cached s' id ∧
    (free_count (io_mem s) ≤ S (free_count (io_mem s')))%nat.
Proof.
  intros Hok [Hid Hbig] Hst Hfree.
  destruct (prepare_page_ok s id st true Hok Hid (λ _, Hbig) Hst Hfree) as (s' & Hr & H1 & H2).
  exists s'. split; [done|]. destruct (decide (cached s id)) as [Hc|Hc].
  - rewrite (H1 Hc). split_and!; [|done|lia]. split; [done|]. split; [done|]. done.
  - specialize (H2 Hc). pose proof H2 as (Hin & Hc' & _). split_and!; [|done|by eapply pi_free].
    split; [by eapply pi_ok|]. split; [|by eapply pi_rest]. intros i Hi. by eapply ready_fill_byte.
Qed.

(** Bytes of a cached page are bytes of the file. *)
Lemma page_slice s id o n :
  0 ≤ id → cached s id → 0 ≤ o → 0 ≤ n → o + n ≤ PAGE_SIZE →
  take (Z.to_nat n) (drop (Z.to_nat o) (page_bytes (io_mem s) (frame_of s id))) =
  file_bytes s (id * PAGE_SIZE + o) n.
Proof.
  intros Hid Hc Ho Hn Hon. apply list_eq. intros k. unfold file_bytes. rewrite list_lookup_fmap.
  destruct (decide (Z.of_nat k < n)).
  - rewrite lookup_take_lt, lookup_drop, lookup_seqZ_lt by lia. simpl.
    replace (Z.to_nat o + k)%nat with (Z.to_nat (o + Z.of_nat k)) by lia.
    rewrite page_bytes_lookup by lia. f_equal. unfold file_byte.
    assert ((id * PAGE_SIZE + o + Z.of_nat k) / PAGE_SIZE = id ∧
            (id * PAGE_SIZE + o + Z.of_nat k) mod PAGE_SIZE = o + Z.of_nat k) as [-> ->]
      by (change PAGE_SIZE with 4096 in *; split; Z.to_euclidean_division_equations; lia).
    by rewrite decide_True.
  - rewrite lookup_take_ge by lia. rewrite lookup_seqZ_ge by lia. done.
Qed.

(** The number of pages a range of bytes touches. *)
Definition span (a b : Z) : nat :=
  if a <? b then Z.to_nat ((b - 1) / PAGE_SIZE - a / PAGE_SIZE + 1) else 0.

Lemma span_next a b n :
  0 ≤ a < b → n = Z.min (b - a) (PAGE_SIZE - a mod PAGE_SIZE) →
  0 < n ∧ a + n ≤ b ∧ span a b = S (span (a + n) b).
Proof.
  intros Ha ->. unfold span. rewrite (proj2 (Z.ltb_lt a b)) by lia.
  change PAGE_SIZE with 4096. destruct (Z.ltb_spec (a + Z.min (b - a) (4096 - a mod 4096)) b).
  - rewrite Z.min_r by lia. split_and!; Z.to_euclidean_division_equations; lia.
  - split_and!; Z.to_euclidean_division_equations; lia.
Qed.

Lemma offset_split a : 0 ≤ a →
  Z.shiftr a PAGE_SIZE_BITS = a / PAGE_SIZE ∧ Z.land a PAGE_OFFSET_MASK = a mod PAGE_SIZE.
Proof.
  intros. split; [by apply Z.shiftr_div_pow2|].
  change PAGE_OFFSET_MASK with (Z.ones 12). by rewrite Z.land_ones.
Qed.

(** ** Reading *)
Lemma file_bytes_app s a n m :
  0 ≤ n → 0 ≤ m → file_bytes s a n ++ file_bytes s (a + n) m = file_bytes s a (n + m).
Proof. intros. unfold file_bytes. by rewrite <- fmap_app, <- seqZ_app. Qed.
Lemma length_file_bytes s a n : length (file_bytes s a n) = Z.to_nat n.
Proof. unfold file_bytes. by rewrite length_fmap, length_seqZ. Qed.
Lemma file_bytes_same s s' a n :
  0 ≤ a → (∀ i, 0 ≤ i → file_byte s' i = file_byte s i) → file_bytes s' a n = file_bytes s a n.
Proof.
  intros Ha Hs. unfold file_bytes. apply list_fmap_ext. intros k x Hx.
  apply lookup_seqZ in Hx as [-> ?]. apply Hs. lia.
Qed.

(** The state, with other bytes in the kernel buffer. *)
Lemma same_file_kbuf s b : io_ok s → io_ok (set_io_kbuf b s) ∧
  (∀ i, file_byte (set_io_kbuf b s) i = file_byte s i).
Proof. intros []. split; [by constructor|done]. Qed.

(** What a read keeps: everything but the cache, the buffer and user memory. *)
Definition file_kept s s' : Prop :=
  io_ok s' ∧ (∀ i, 0 ≤ i → file_byte s' i = file_byte s i) ∧ io_dev s' = io_dev s ∧
  data_len (io_meta s') = data_len (io_meta s) ∧ mode (io_meta s') = mode (io_meta s) ∧
  ino (io_meta s') = ino (io_meta s).

Lemma file_kept_trans s1 s2 s3 : file_kept s1 s2 → file_kept s2 s3 → file_kept s1 s3.
Proof.
  intros (_ & Hb & ? & ? & ? & ?) (Hok & Hb' & ? & ? & ? & ?). split; [done|].
  split; [intros i Hi; by rewrite Hb', Hb|]. split_and!; etrans; eassumption.
Qed.
Lemma same_file_kept s s' : same_file s s' → file_kept s s'.
Proof. intros (? & ? & ? & ? & ? & ? & ? & ?). by split_and!. Qed.

Lemma read_loop_end s offset read_end nread :
  io_ok s → 0 ≤ nread ≤ read_end → read_end ≤ nread →
  ∃ s', (mret nread : kst (Io D U) Z) s = Done read_end s' ∧ file_kept s s' ∧ io_user s' = io_user s ∧
    io_kbuf s' = take (Z.to_nat nread) (io_kbuf s) ++
      file_bytes s (offset + nread) (read_end - nread) ++ drop (Z.to_nat read_end) (io_kbuf s).
Proof.
  intros Hok Hn Hge. exists s. assert (nread = read_end) as -> by lia. split; [done|].
  split; [by split_and!|]. split; [done|]. rewrite Z.sub_diag. simpl. by rewrite take_drop.
Qed.

Lemma read_loop_ok fuel : ∀ s offset read_end nread,
  io_ok s → 0 ≤ offset → offset + read_end ≤ 2 ^ 41 →
  0 ≤ nread ≤ read_end → read_end - nread ≤ Z.of_nat fuel →
  read_end ≤ Z.of_nat (length (io_kbuf s)) →
  (span (offset + nread) (offset + read_end) ≤ free_count (io_mem s))%nat →
  ∃ s', read_loop fuel RKernel offset read_end nread s = Done read_end s' ∧
    file_kept s s' ∧ io_user s' = io_user s ∧
    io_kbuf s' = take (Z.to_nat nread) (io_kbuf s) ++
      file_bytes s (offset + nread) (read_end - nread) ++ drop (Z.to_nat read_end) (io_kbuf s).
Proof.
  induction fuel as [|fuel IH]; intros s offset read_end nread Hok Ho Hmax Hn Hf Hb Hsp; simpl;
    destruct (Z.ltb_spec nread read_end) as [Hlt|Hge]; try lia.
  - by apply read_loop_end.
  - destruct (offset_split (offset + nread)) as [-> ->]; [lia|].
    set (id := (offset + nread) / PAGE_SIZE). set (po := (offset + nread) mod PAGE_SIZE).
    set (cl := Z.min (read_end - nread) (PAGE_SIZE - po)).
    destruct (span_next (offset + nread) (offset + read_end) cl) as (Hcl & Hce & Hsn); [lia| |].
    { unfold cl, po. f_equal. lia. }
    destruct (page_split (offset + nread)) as [Eon Hpo]; [lia|]. fold id po in Eon, Hpo.
    assert (Hid : 0 ≤ id < 2 ^ 29).
    { unfold id. change PAGE_SIZE with 4096. Z.to_euclidean_division_equations. lia. }
    destruct (prepare_read s id Synced Hok Hid) as (s1 & Hp & Hs1 & Hc & Hfc); [done|right; lia|].
    rewrite (kbind_run _ _ s (frame_of s1 id) s1) by exact Hp.
    rewrite (kbind_run _ _ s1 s1 s1) by done.
    rewrite (page_slice s1 id po cl) by (exact Hc || lia || (unfold cl; lia)). rewrite <- Eon.
    pose proof Hs1 as (Hok1 & Hb1 & Hdev & Huser & Hk & Hlen & Hmode & Hino).
    rewrite (file_bytes_same s s1) by (lia || done).
    set (s2 := set_io_kbuf (take (Z.to_nat nread) (io_kbuf s1) ++ file_bytes s (offset + nread) cl ++
      drop (Z.to_nat nread + length (file_bytes s (offset + nread) cl)) (io_kbuf s1)) s1).
    rewrite (kbind_run _ _ s1 () s2) by done.
    destruct (same_file_kbuf s1 (io_kbuf s2) Hok1) as [Hok2 Hb2].
    destruct (IH s2 offset read_end (nread + cl)) as (s3 & Hr & Hk3 & Hu3 & Hkb); [done|done|done|lia|lia| | |].
    { unfold s2. simpl. rewrite !length_app, length_take, length_drop, length_file_bytes, Hk. lia. }
    { replace (offset + (nread + cl)) with (offset + nread + cl) by lia. simpl. lia. }
    exists s3. split; [exact Hr|]. split.
    { eapply file_kept_trans; [by apply same_file_kept|]. eapply file_kept_trans; [|exact Hk3].
      unfold file_kept. simpl. done. }
    split; [rewrite Hu3; simpl; done|].
    rewrite (file_bytes_same s s2) in Hkb; [|lia|intros i Hi; simpl; unfold s2; rewrite Hb2; by apply Hb1].
    rewrite Hkb. unfold s2. simpl. rewrite Hk.
    rewrite length_file_bytes.
    replace (Z.to_nat (nread + cl)) with (Z.to_nat nread + Z.to_nat cl)%nat by lia.
    rewrite take_app_add', (take_app_length' (file_bytes _ _ _)) by (rewrite ?length_take, ?length_file_bytes; lia).
    rewrite <- app_assoc. f_equal.
    rewrite drop_app_ge by (rewrite length_take; lia). rewrite drop_app_ge by (rewrite length_file_bytes, length_take; lia).
    rewrite drop_drop, length_take, length_file_bytes.
    replace (Z.to_nat nread + Z.to_nat cl + _)%nat with (Z.to_nat read_end) by lia.
    rewrite app_assoc. f_equal. replace (offset + (nread + cl)) with (offset + nread + cl) by lia.
    rewrite file_bytes_app by lia. f_equal. lia.
  - by apply read_loop_end.
Qed.

(** [read_at] on a regular file returns, into a kernel buffer, the bytes of
    the file from [offset] on, as many as the buffer holds and the file has, and
    0 beyond its end; the pages it reads enter the cache and no byte of the file
    changes. It needs a free frame for each page of the range. *)
Theorem read_at_spec dev_read now s offset :
  io_ok s → mode (io_meta s) = Regular → 0 ≤ offset → data_len (io_meta s) ≤ 2 ^ 41 →
  let n := Z.max 0 (Z.min (Z.of_nat (length (io_kbuf s))) (data_len (io_meta s) - offset)) in
  (span offset (offset + n) ≤ free_count (io_mem s))%nat →
  ∃ s', read_at dev_read now RKernel offset s = Done n s' ∧
    io_kbuf s' = file_bytes s offset n ++ drop (Z.to_nat n) (io_kbuf s) ∧
    file_kept s s' ∧ io_user s' = io_user s.
Proof.
  intros Hok Hm Ho Hmax n Hsp. unfold read_at. rewrite (kbind_run _ _ s s s) by done.
  destruct (Z.ltb_spec (data_len (io_meta s)) offset) as [Hlt|Hge].
  - exists s. assert (n = 0) as -> by lia. by split_and!.
  - rewrite bool_decide_eq_true_2 by done. simpl.
    assert (Z.min (Z.of_nat (length (io_kbuf s))) (data_len (io_meta s) - offset) = n) as -> by lia.
    destruct (read_loop_ok (Z.to_nat n) s offset n 0 Hok Ho) as (s' & Hr & Hk & Hu & Hb);
      [lia|lia|lia|lia|by rewrite Z.add_0_r|].
    rewrite (kbind_run _ _ s n s') by exact Hr.
    exists (set_io_meta (Meta.with_access (io_meta s') now) s'). split; [done|].
    simpl. rewrite Hb, Z.add_0_r, Z.sub_0_r. split; [done|]. split; [|done].
    destruct Hk as ([] & ? & ? & ? & ? & ?). split; [by constructor|done].
Qed.

(** ** Writing

    [write_at] reads a page in before it writes a part of it only if the number
    of the page lies in a range of byte offsets: [spared] says when the old
    bytes of the page survive. *)
Definition spared s (last lo id : Z) : Prop := cached s id ∨ last < id ∨ lo ≤ id.

Lemma page_write_byte s id off bytes i :
  io_ok s → 0 ≤ i → cached s id → 0 ≤ off → off + Z.of_nat (length bytes) ≤ PAGE_SIZE →
  let s' := set_io_mem (write_bytes (io_mem s) (frame_of s id) off bytes) s in
  page_in s id s' ∧
  file_byte s' i =
    if decide (id * PAGE_SIZE + off ≤ i < id * PAGE_SIZE + off + Z.of_nat (length bytes))
    then default 0 (bytes !! Z.to_nat (i - (id * PAGE_SIZE + off))) else file_byte s i.
Proof.
  intros Hok Hi Hc Ho Hl s'. pose proof Hc as ([fr st] & Hp & Hst).
  assert (frame_of s id = fr) as Hfr by (unfold frame_of; by rewrite Hp).
  assert (Hin : page_in s id s').
  { pose proof (page_write_ok s id _ off bytes st Hok Hp Hst) as Hin. simpl in Hin.
    rewrite (insert_id (pages (io_meta s))) in Hin by done. unfold s'. rewrite Hfr.
    replace (set_io_mem _ s) with (set_io_meta (Meta.with_pages (io_meta s) (pages (io_meta s)))
      (set_io_mem (write_bytes (io_mem s) fr off bytes) s)); [done|].
    unfold set_io_meta, set_io_mem. simpl. by destruct (io_meta s). }
  split; [done|]. destruct (page_split i Hi) as [Ei Hm].
  destruct (decide (i / PAGE_SIZE = id)) as [Eid|Hne].
  - unfold file_byte. rewrite Eid. change (cached s' id) with (cached s id).
    change (frame_of s' id) with (frame_of s id). rewrite !(decide_True (P := cached s id)) by done.
    unfold s'. simpl. rewrite byte_at_write_bytes. rewrite Eid in Ei.
    destruct (decide (id * PAGE_SIZE + off ≤ i < _)).
    + rewrite decide_True by lia. do 2 f_equal. lia.
    + rewrite decide_False by lia. done.
  - rewrite (page_in_byte s id s') by done. rewrite decide_False; [done|].
    intros Hr. apply Hne. change PAGE_SIZE with 4096 in *. Z.to_euclidean_division_equations. lia.
Qed.

(** A page is made ready and a part of it overwritten. *)
Definition overwritten s (last a : Z) (bytes : list Z) s' : Prop :=
  io_ok s' ∧ same_rest s s' ∧ (∀ j, cached s j → cached s' j) ∧
  (∀ i, 0 ≤ i → a ≤ i < a + Z.of_nat (length bytes) →
     file_byte s' i = default 0 (bytes !! Z.to_nat (i - a))) ∧
  (∀ i, 0 ≤ i → a ≤ i < a + Z.of_nat (length bytes) → cached s' (i / PAGE_SIZE)) ∧
  (∀ i, 0 ≤ i → ¬ a ≤ i < a + Z.of_nat (length bytes) →
     i / PAGE_SIZE ≤ last ∨ cached s (i / PAGE_SIZE) → file_byte s' i = file_byte s i).

Lemma write_page_step s last lo hi a bytes :
  io_ok s → 0 ≤ a < 2 ^ 41 → a / PAGE_SIZE < hi → spared s last lo (a / PAGE_SIZE) →
  a mod PAGE_SIZE + Z.of_nat (length bytes) ≤ PAGE_SIZE → (0 < free_count (io_mem s))%nat →
  let id := a / PAGE_SIZE in
  ∃ s1, prepare_page id Dirty ((id <=? last) && ((lo <=? id) && (id <? hi))) s =
          Done (frame_of s1 id) s1 ∧
    let s2 := set_io_mem (write_bytes (io_mem s1) (frame_of s1 id) (a mod PAGE_SIZE) bytes) s1 in
    overwritten s last a bytes s2 ∧ (free_count (io_mem s) ≤ S (free_count (io_mem s2)))%nat.
Proof.
  intros Hok [Ha Hmax] Hhi Hsp Hl Hf id. assert (Hid : 0 ≤ id) by (unfold id; apply Z.div_pos; [lia|done]).
  destruct (page_split a Ha) as [Ea Hm]. fold id in Ea.
  set (fill := (id <=? last) && _).
  destruct (prepare_page_ok s id Dirty fill Hok Hid) as (s1 & Hp & H1 & H2); [|done|by right|].
  { intros _. unfold id. change PAGE_SIZE with 4096. Z.to_euclidean_division_equations. lia. }
  assert (Hc1 : cached s1 id ∧ io_ok s1 ∧ same_rest s s1 ∧ (∀ j, cached s j → cached s1 j) ∧
    (free_count (io_mem s) ≤ S (free_count (io_mem s1)))%nat ∧
    ∀ i, 0 ≤ i → i / PAGE_SIZE ≤ last ∨ cached s (i / PAGE_SIZE) → file_byte s1 i = file_byte s i).
  { destruct (decide (cached s id)) as [Hc|Hc].
    - rewrite (H1 Hc). split_and!; [done|done|done|done|lia|done].
    - specialize (H2 Hc). pose proof H2 as (Hin & Hcd & _).
      split_and!; [done|by eapply pi_ok|by eapply pi_rest| |by eapply pi_free|].
      + intros j Hj. destruct (decide (j = id)) as [->|]; [done|]. by apply (cached_other s id s1).
      + intros i Hi Hlast. destruct (decide (i / PAGE_SIZE = id)) as [E|]; [|by eapply page_in_byte].
        rewrite E in Hlast. destruct Hlast as [Hlast|]; [|done]. assert (fill = true) as Hfill.
        { unfold fill. fold id in Hsp, Hhi. destruct Hsp as [?|[?|?]]; [done|lia|lia]. }
        rewrite Hfill in H2. by eapply ready_fill_byte. }
  destruct Hc1 as (Hc1 & Hok1 & Hr1 & Hcc & Hf1 & Hb1).
  exists s1. split; [exact Hp|]. intros s2.
  assert (Hw : ∀ i, 0 ≤ i → page_in s1 id s2 ∧ file_byte s2 i =
    if decide (a ≤ i < a + Z.of_nat (length bytes)) then default 0 (bytes !! Z.to_nat (i - a))
    else file_byte s1 i).
  { intros i Hi. destruct (page_write_byte s1 id (a mod PAGE_SIZE) bytes i Hok1 Hi Hc1) as [Hin Hby];
      [lia|done|]. rewrite <- Ea in Hby. done. }
  destruct (Hw 0) as [Hin _]; [done|]. split.
  - split; [by eapply pi_ok|]. split; [done|]. split; [done|]. split.
    + intros i Hi Hr. destruct (Hw i Hi) as [_ ->]. by rewrite decide_True.
    + split.
      { intros i Hi Hr. replace (i / PAGE_SIZE) with id; [exact Hc1|].
        change PAGE_SIZE with 4096 in *. Z.to_euclidean_division_equations. lia. }
      intros i Hi Hr Hlast. destruct (Hw i Hi) as [_ ->]. rewrite decide_False by done. by apply Hb1.
  - rewrite (pi_free_cached _ _ _ Hin); [done|]. destruct Hc1 as (p & -> & _). eauto.
Qed.

Lemma overwritten_nil s last a : io_ok s → overwritten s last a [] s.
Proof.
  intros Hok. split; [done|]. split; [done|]. split; [done|].
  split; [simpl; intros; lia|]. split; [simpl; intros; lia|done].
Qed.

Lemma overwritten_app s last a b1 b2 s1 s2 :
  overwritten s last a b1 s1 → overwritten s1 last (a + Z.of_nat (length b1)) b2 s2 →
  overwritten s last a (b1 ++ b2) s2.
Proof.
  intros (H1 & H2 & H3 & H4 & H5 & H6) (K1 & K2 & K3 & K4 & K5 & K6).
  split; [done|]. split; [by eapply same_rest_trans|]. split; [auto|].
  split_and!; intros i Hi; rewrite length_app, Nat2Z.inj_add; intros Hr.
  - destruct (decide (i < a + Z.of_nat (length b1))).
    + assert (cached s1 (i / PAGE_SIZE)) by (apply H5; lia).
      rewrite K6, H4 by (by right || lia). by rewrite lookup_app_l by lia.
    + rewrite K4 by lia. rewrite lookup_app_r by lia. do 2 f_equal. lia.
  - destruct (decide (i < a + Z.of_nat (length b1))); [apply K3, H5; lia|apply K5; lia].
  - intros Hl. assert (i / PAGE_SIZE ≤ last ∨ cached s1 (i / PAGE_SIZE)) by naive_solver.
    rewrite K6, H6; [done|lia|lia|done|lia|lia|done].
Qed.

Lemma write_loop_ok fuel : ∀ s bs offset last lo hi nwrite,
  io_ok s → 0 ≤ offset → offset + Z.of_nat (length bs) ≤ 2 ^ 41 → 0 ≤ nwrite ≤ Z.of_nat (length bs) →
  Z.of_nat (length bs) - nwrite ≤ Z.of_nat fuel →
  (∀ id, (offset + nwrite) / PAGE_SIZE ≤ id ≤ (offset + Z.of_nat (length bs) - 1) / PAGE_SIZE →
     id < hi ∧ spared s last lo id) →
  (span (offset + nwrite) (offset + Z.of_nat (length bs)) ≤ free_count (io_mem s))%nat →
  ∃ s', write_loop fuel (WKernel bs) offset last (lo, hi) nwrite s = Done (Z.of_nat (length bs)) s' ∧
    overwritten s last (offset + nwrite) (drop (Z.to_nat nwrite) bs) s'.
Proof.
  induction fuel as [|fuel IH]; intros s bs offset last lo hi nwrite Hok Ho Hmax Hn Hf Hids Hsp; simpl;
    destruct (Z.ltb_spec nwrite (Z.of_nat (length bs))) as [Hlt|Hge]; try lia.
  - exists s. assert (nwrite = Z.of_nat (length bs)) as -> by lia. split; [done|].
    rewrite drop_ge by lia. by apply overwritten_nil.
  - destruct (offset_split (offset + nwrite)) as [-> ->]; [lia|].
    set (a := offset + nwrite) in *. set (b := offset + Z.of_nat (length bs)) in *.
    set (cl := Z.min (Z.of_nat (length bs) - nwrite) (PAGE_SIZE - a mod PAGE_SIZE)).
    destruct (span_next a b cl) as (Hcl & Hce & Hsn); [unfold a, b; lia|unfold cl, a, b; f_equal; lia|].
    assert (Hlast : a / PAGE_SIZE ≤ (b - 1) / PAGE_SIZE) by (apply Z.div_le_mono; [done|lia]).
    destruct (Hids (a / PAGE_SIZE)) as [Hhi Hspr]; [lia|].
    set (bytes := take (Z.to_nat cl) (drop (Z.to_nat nwrite) bs)).
    assert (Hlb : Z.of_nat (length bytes) = cl).
    { unfold bytes. rewrite length_take, length_drop. unfold cl. lia. }
    destruct (write_page_step s last lo hi a bytes Hok) as (s1 & Hp & Hov & Hfc);
      [unfold a; lia|done|done|rewrite Hlb; unfold cl; lia|lia|].
    rewrite (kbind_run _ _ s (frame_of s1 (a / PAGE_SIZE)) s1) by exact Hp.
    rewrite (kbind_run _ _ s1 bytes s1) by done.
    set (s2 := set_io_mem _ s1) in Hov, Hfc.
    rewrite (kbind_run _ _ s1 () s2) by done.
    pose proof Hov as (Hok2 & Hr2 & Hc2 & _).
    destruct (IH s2 bs offset last lo hi (nwrite + cl)) as (s3 & Hr & Hov3); [done|done|done|lia|lia| | |].
    { intros id Hid. destruct (Hids id) as [? [?|?]].
      - split; [|fold b in Hid; lia]. transitivity ((offset + (nwrite + cl)) / PAGE_SIZE); [|lia].
        apply Z.div_le_mono; [done|unfold a; lia].
      - split; [done|]. left. by apply Hc2.
      - split; [done|]. by right. }
    { fold b. replace (offset + (nwrite + cl)) with (a + cl) by (unfold a; lia). lia. }
    exists s3. split; [exact Hr|].
    replace (drop (Z.to_nat nwrite) bs) with (bytes ++ drop (Z.to_nat (nwrite + cl)) bs).
    + eapply overwritten_app; [exact Hov|]. rewrite Hlb.
      by replace (a + cl) with (offset + (nwrite + cl)) by (unfold a; lia).
    + unfold bytes. replace (Z.to_nat (nwrite + cl)) with (Z.to_nat nwrite + Z.to_nat cl)%nat by lia.
      by rewrite <- drop_drop, take_drop.
  - exists s. assert (nwrite = Z.of_nat (length bs)) as -> by lia. split; [done|].
    rewrite drop_ge by lia. by apply overwritten_nil.
Qed.

Lemma next_multiple_bound x : 0 ≤ x → x ≤ div_ceil x PAGE_SIZE * PAGE_SIZE.
Proof. intros. apply (div_ceil_spec x PAGE_SIZE). done. Qed.

Lemma page_floor x : 0 ≤ x < 2 ^ 64 → Z.land x (usize_max - PAGE_OFFSET_MASK) = x / PAGE_SIZE * PAGE_SIZE.
Proof.
  intros Hx. change (usize_max - PAGE_OFFSET_MASK) with (Z.shiftl (Z.ones 52) 12).
  change PAGE_SIZE with (2 ^ 12). rewrite <- Z.shiftr_div_pow2, <- Z.shiftl_mul_pow2 by lia.
  bitwise k. destruct (decide (k < 12)).
  - rewrite (Z.testbit_neg_r (Z.ones 52)), (Z.testbit_neg_r (Z.shiftr x 12)) by lia. apply andb_false_r.
  - rewrite Z.shiftr_spec by lia. replace (k - 12 + 12) with k by lia.
    destruct (decide (k < 64)).
    + rewrite Z.testbit_ones_nonneg by lia. rewrite (proj2 (Z.ltb_lt (k - 12) 52)) by lia. apply andb_true_r.
    + by rewrite (testbit_high x 64) by lia.
Qed.

(** C32: [write_at] of kernel bytes on a regular file stores them at [offset],
    extends the file to the end of the write, and keeps every other byte the
    file had, provided each page of the old file that it touches is in the cache
    or has a number not below the byte offset of the first page written. The
    proviso holds for writes into the first page; without it old bytes are lost
    ([write_at_loses_bytes]). It needs a free frame for each page of the range. *)
Theorem write_at_spec dev_write now s bs offset :
  io_ok s → mode (io_meta s) = Regular → 0 ≤ offset →
  offset + Z.of_nat (length bs) ≤ 2 ^ 41 →
  let stop := offset + Z.of_nat (length bs) in
  let len := data_len (io_meta s) in
  (span offset stop ≤ free_count (io_mem s))%nat →
  (∀ id, offset / PAGE_SIZE ≤ id ≤ (stop - 1) / PAGE_SIZE → id ≤ len / PAGE_SIZE →
     cached s id ∨ offset / PAGE_SIZE * PAGE_SIZE ≤ id) →
  ∃ s', write_at dev_write now (WKernel bs) offset s = Done (Z.of_nat (length bs)) s' ∧
    io_ok s' ∧ data_len (io_meta s') = Z.max len stop ∧
    file_bytes s' offset (Z.of_nat (length bs)) = bs ∧
    ∀ i, 0 ≤ i < len → ¬ offset ≤ i < stop → file_byte s' i = file_byte s i.
Proof.
  intros Hok Hm Ho Hb stop len Hsp Hpages. unfold write_at. rewrite (kbind_run _ _ s s s) by done.
  rewrite bool_decide_eq_true_2 by done. simpl.
  assert (Hstop : 0 ≤ stop ≤ 2 ^ 41) by (unfold stop; lia).
  assert (HP : PAGE_SIZE = 4096) by done.
  rewrite (kbind_run _ _ s stop s) by (unfold klift, uadd; fold stop; by rewrite checked_fits by lia).
  pose proof (div_ceil_spec stop PAGE_SIZE ltac:(done)) as Hdc.
  rewrite (kbind_run _ _ s (div_ceil stop PAGE_SIZE * PAGE_SIZE) s)
    by (unfold klift, next_multiple_of; by rewrite checked_fits by lia).
  rewrite page_floor by lia.
  destruct (write_loop_ok (Z.to_nat (Z.of_nat (length bs))) s bs offset (Z.shiftr len PAGE_SIZE_BITS)
    (offset / PAGE_SIZE * PAGE_SIZE) (div_ceil stop PAGE_SIZE * PAGE_SIZE) 0 Hok Ho)
    as (s1 & Hr & Hok1 & Hr1 & _ & Hw & _ & Hk); [done|lia|lia| |by rewrite Z.add_0_r|].
  { rewrite Z.add_0_r. fold stop. intros id Hid. split.
    - assert (0 ≤ (stop - 1) / PAGE_SIZE → (stop - 1) / PAGE_SIZE ≤ stop - 1).
      { intros. rewrite HP in *. Z.to_euclidean_division_equations. lia. }
      assert (0 ≤ offset / PAGE_SIZE) by (by apply Z.div_pos). lia.
    - unfold spared. rewrite Z.shiftr_div_pow2 by done. change (2 ^ PAGE_SIZE_BITS) with PAGE_SIZE.
      destruct (decide (id ≤ len / PAGE_SIZE)) as [Hle|]; [|lia]. destruct (Hpages id Hid Hle); tauto. }
  rewrite (kbind_run _ _ s (Z.of_nat (length bs)) s1) by exact Hr.
  destruct Hr1 as (_ & _ & _ & Hl & _). fold len in Hl.
  set (i0 := Meta.with_modify (Meta.with_access (io_meta s1) now) now).
  set (s2 := set_io_meta (if data_len i0 <? stop then Meta.with_change (Meta.with_len i0 stop) now else i0) s1).
  exists s2.
  assert (Hpg : pages (io_meta s2) = pages (io_meta s1)) by (unfold s2; simpl; by destruct (_ <? _)).
  assert (Hfb : ∀ i, file_byte s2 i = file_byte s1 i).
  { intros i. unfold file_byte, frame_of. rewrite Hpg. unfold cached.
    destruct (decide _) as [H1|H1], (decide _) as [H2|H2]; try done; rewrite Hpg in H1; done. }
  split; [done|]. split; [|split; [|split]].
  - destruct Hok1. constructor; rewrite ?Hpg; done.
  - unfold s2. simpl. destruct (Z.ltb_spec (data_len (io_meta s1)) stop); simpl; lia.
  - apply list_eq. intros k. unfold file_bytes. rewrite list_lookup_fmap.
    destruct (decide (k < length bs)%nat) as [Hk'|].
    + rewrite lookup_seqZ_lt by lia. simpl. rewrite Hfb, Hw by (rewrite ?drop_0; simpl; lia).
      simpl. rewrite Z.add_0_r, drop_0. replace (Z.to_nat (offset + Z.of_nat k - offset)) with k by lia.
      by destruct (lookup_lt_is_Some_2 bs k Hk') as [x ->].
    + rewrite lookup_seqZ_ge by lia. by rewrite lookup_ge_None_2 by lia.
  - intros i Hi Hout. rewrite Hfb. apply Hk; [lia|simpl; rewrite drop_0; lia|]. left.
    rewrite Z.shiftr_div_pow2 by done. apply Z.div_le_mono; [done|lia].
Qed.
End file.

(** ** A file in memory

    The smallest implementation of [BytesBackend]. *)
Program Definition RamFile : BytesBackend (list Z) := {|
  read_page d off page :=
    let chunk := take (Z.to_nat PAGE_SIZE) (drop (Z.to_nat off) d) in
    Ok (chunk ++ drop (length chunk) page, Z.of_nat (length chunk));
  truncate d i len now :=
    Ok (take (Z.to_nat len) d, Meta.with_change (Meta.with_modify (Meta.with_len i len) now) now);
  content d := d;
  backend_ok d := True;
|}.
Next Obligation. done. Qed.
#[export] Existing Instance RamFile.

Definition ram_io (m : Mem) (data kbuf : list Z) : Io (list Z) Flat.t :=
  mkIo m (Meta.with_len (Meta.new 0 Regular) (Z.of_nat (length data))) data (Flat.mk 0 []) kbuf.

Lemma ram_io_ok m data kbuf : mem_inv m → io_ok (ram_io m data kbuf).
Proof. intros Hm. constructor; simpl; [done|done|done|done|done]. Qed.

Definition no_device {A} (_ : A) (_ : Z) : kst (Io (list Z) Flat.t) Z := kcrash.

Lemma init_mem_free : (4 ≤ free_count init_mem)%nat.
Proof. by vm_compute; lia. Qed.

(** Two of the three bytes fit before the end of the file. *)
Lemma read_at_spec_witness :
  ∃ s', read_at no_device TimeSpec_default RKernel 1 (ram_io init_mem [10; 11; 12] [0; 0; 0]) =
          Done 2 s' ∧ io_kbuf s' = [11; 12; 0].
Proof.
  pose proof init_mem_free.
  destruct (read_at_spec no_device TimeSpec_default (ram_io init_mem [10; 11; 12] [0; 0; 0]) 1)
    as (s' & Hr & Hb & _).
  - apply ram_io_ok, init_mem_inv.
  - reflexivity.
  - lia.
  - simpl. lia.
  - simpl. change (span 1 _) with 1%nat. lia.
  - exists s'. split; [exact Hr|exact Hb].
Defined.

Lemma write_at_spec_witness :
  ∃ s', write_at no_device TimeSpec_default (WKernel [20; 21]) 2 (ram_io init_mem [10; 11; 12] []) =
          Done 2 s' ∧ data_len (io_meta s') = 4 ∧ file_byte s' 1 = 11.
Proof.
  pose proof init_mem_free.
  destruct (write_at_spec no_device TimeSpec_default (ram_io init_mem [10; 11; 12] []) [20; 21] 2)
    as (s' & Hr & _ & Hl & _ & Hk).
  - apply ram_io_ok, init_mem_inv.
  - reflexivity.
  - lia.
  - simpl. lia.
  - change (span 2 _) with 1%nat. simpl. lia.
  - intros id [Hid _] _. right. exact Hid.
  - exists s'. split; [exact Hr|]. split; [exact Hl|]. rewrite Hk; [reflexivity|simpl; lia|simpl; lia].
Defined.

(** One byte written at the start of the second page of a file: the rest of
    the page, which was not in the cache, reads as zero afterwards. *)
Lemma write_at_loses_bytes :
  let s := ram_io init_mem (replicate 8192 7) [] in
  file_byte s 4097 = 7 ∧
  match write_at no_device TimeSpec_default (WKernel [1]) 4096 s with
  | Done n s' => (n =? 1) && (file_byte s' 4097 =? 0) && (file_byte s' 4096 =? 1)
  | _ => false
  end = true.
Proof. split; by vm_compute. Qed.

(** Truncating a file frees the frames of its cached pages, although a shared
    mapping of the file ([init_backed_inode]) may still map them. *)
Lemma resize_frees_cached_frame :
  let s := ram_io init_mem (replicate 8192 7) (replicate 8192 0) in
  match (_ ← read_at no_device TimeSpec_default RKernel 0; kget) s with
  | Done s1 _ =>
      match pages (io_meta s1) !! 1, resize TimeSpec_default 0 s1 with
      | Some p, Done _ s2 =>
          negb (bool_decide (bp_frame p - begin_ppn ∈ buddy_free (allocator (io_mem s1)))) &&
          bool_decide (bp_frame p - begin_ppn ∈ buddy_free (allocator (io_mem s2)))
      | _, _ => false
      end
  | _ => false
  end = true.
Proof. by vm_compute. Qed.
