(* ===== verification/MemSyscalls.v ===== *)
(** * The memory system calls

    [kernel/src/syscall/memory.rs]: [mmap], [munmap] and [brk] of the current
    process. What [mmap] asks of an open file is a [FileView]: the mode of
    [desc.meta()], and the inode with its mode when the file is
    [File::Seekable]. *)
From S2P Require Import Prelude BTree Address Defines Kst IdAllocator FrameAllocator PageTable VmArea MemorySpace SpaceOps InitStack UserCheck UserAccess Trap Signal FdTable Process ProcessTree ProcessSteps Inode.

Record FileView : Type := mkView { fv_mode : InodeMode; fv_seekable : option (Z * InodeMode) }.

Section mem.
Context `{Buddy, KernelImage, ProcessEnv} {F : Type}.
Implicit Types (k : Kernel F) (p : Process F).

(** [lock_inner_with(|inner| inner.memory_space. ..)] *)
Definition in_space {A} (pid : Z) (f : Mem → MemorySpace → KResult (A * MemorySpace * Mem)) : kst (Kernel F) A :=
  p ← proc pid;
  k ← kget;
  '(a, sp, m) ← klift (f (k_mem k) (p_space p));
  _ ← kmodify (set_mem m);
  _ ← put_proc pid (P.with_space p sp);
  mret a.

Definition private_anonymous_map (pid addr len prot flags : Z) : kst (Kernel F) Z :=
  in_space pid (λ m sp, try_map m sp addr len (MapPermission.from_prot prot) flags).

(** [BackedInode::new] *)
Definition BackedInode_new (inode : Z * InodeMode) : option Z :=
  if bool_decide (inode.2 = Regular) then Some inode.1 else None.

Definition shared_file_map (view : F → FileView) (pid addr len prot flags fd file_page_id : Z) : kst (Kernel F) Z :=
  p ← proc pid;
  desc ← kok_or (fd_get (p_fds p) fd) EBADF;
  '(readable, writable) ← klift (OpenFlags.read_write (fd_flags desc));
  if negb (bool_decide (fv_mode (view (fd_file desc)) = Regular)) || negb readable ||
     ((negb writable || Flags.contains (fd_flags desc) OpenFlags.APPEND) && Flags.contains prot MmapProt.PROT_WRITE)
  then kfail EACCES
  else
    inode ← kok_or (fv_seekable (view (fd_file desc))) EACCES;
    backed ← kok_or (BackedInode_new inode) EACCES;
    in_space pid (λ m sp, try_map_inode page_caches m sp addr len (MapPermission.from_prot prot) flags backed file_page_id).

Definition sys_mmap (view : F → FileView) (pid addr len prot flags fd offset : Z) : kst (Kernel F) Z :=
  if len =? 0 then kfail EINVAL
  else
    prot ← kok_or (Flags.from_bits MmapProt.mask prot) EINVAL;
    flags ← kok_or (Flags.from_bits MmapFlags.mask flags) UNSUPPORTED;
    if negb (Z.land offset PAGE_OFFSET_MASK =? 0) then kfail EINVAL
    else
      let file_page_id := Z.shiftr offset PAGE_SIZE_BITS in
      vpn ←
        (if Flags.contains flags MmapFlags.MAP_SHARED then
           if Flags.contains flags MmapFlags.MAP_ANONYMOUS then kcrash
           else shared_file_map view pid addr len prot flags fd file_page_id
         else if negb (Flags.contains flags MmapFlags.MAP_PRIVATE) then kfail EINVAL
         else if Flags.contains flags MmapFlags.MAP_ANONYMOUS then
           if negb (fd =? usize_max) || negb (offset =? 0) then kfail EINVAL
           else private_anonymous_map pid addr len prot flags
         else kcrash);
      mret (VirtPageNum.page_start vpn).

(** The [debug!] line at the beginning names the end of the range. *)
Definition sys_munmap (pid addr len : Z) : kst (Kernel F) Z :=
  _ ← (if debug_log then klift (uadd 64 addr len) else mret 0);
  if negb (Z.land addr PAGE_OFFSET_MASK =? 0) || (len =? 0) || (LOW_ADDRESS_END <? Z.min (addr + len) usize_max)
  then kfail EINVAL
  else
    va_end ← klift (VirtAddr.add addr len);
    _ ← in_space pid (λ m sp, let? (sp, m) := space_unmap m sp addr va_end in Ok ((), sp, m));
    mret 0.

Definition sys_brk (pid brk : Z) : kst (Kernel F) Z :=
  p ← proc pid;
  k ← kget;
  '(ret, heap_end, sp, m) ← klift (set_user_brk (k_mem k) (p_space p) (p_heap p).1 (p_heap p).2 brk);
  _ ← kmodify (set_mem m);
  _ ← put_proc pid (P.with_heap (P.with_space p sp) ((p_heap p).1, heap_end));
  mret ret.

(** ** A process whose space is replaced *)
Definition put_space (pid : Z) p (sp : MemorySpace) (m : Mem) k : Kernel F :=
  set_procs (<[pid := P.with_space p sp]> (k_procs k)) (set_mem m k).

Lemma in_space_run {A} pid (f : Mem → MemorySpace → KResult (A * MemorySpace * Mem)) k p :
  k_procs k !! pid = Some p →
  in_space pid f k =
    match f (k_mem k) (p_space p) with
    | Ok (a, sp, m) => Done a (put_space pid p sp m k)
    | Err e => Fail e k
    | Panic => Crash
    end.
Proof.
  intros Hp. unfold in_space, proc, kget, mbind, kst_bind, kunwrap. rewrite Hp.
  unfold mret, kst_ret, klift. destruct (f (k_mem k) (p_space p)) as [[[a sp] m]|e|]; done.
Qed.

(** ** [mmap] *)

(** The arguments of a private anonymous mapping. *)
Record anonymous_call (prot flags fd offset : Z) : Prop := {
  an_prot : Flags.from_bits MmapProt.mask prot = Some prot;
  an_flags : Flags.from_bits MmapFlags.mask flags = Some flags;
  an_shared : Flags.contains flags MmapFlags.MAP_SHARED = false;
  an_private : Flags.contains flags MmapFlags.MAP_PRIVATE = true;
  an_anon : Flags.contains flags MmapFlags.MAP_ANONYMOUS = true;
  an_fd : fd = usize_max;
  an_offset : offset = 0;
}.
(** One for which a range is looked for. *)
Record anonymous (len prot flags fd offset : Z) : Prop := {
  an_call : anonymous_call prot flags fd offset;
  an_len : 0 < len < 2 ^ 63;
  an_fixed : Flags.contains flags MmapFlags.MAP_FIXED = false;
}.

Lemma from_prot_perm prot : 0 ≤ MapPermission.from_prot prot ≤ MapPermission.all.
Proof.
  apply Z.ldiff_le; [done|]. unfold MapPermission.from_prot, Flags.from_bits_truncate.
  apply Z.bits_inj'. intros n Hn. rewrite Z.bits_0, Z.ldiff_spec, Z.lor_spec, Z.land_spec.
  destruct (Z.testbit MapPermission.all n) eqn:Hb; [by rewrite andb_false_r|].
  rewrite andb_false_r. destruct (Z.eq_dec n 4) as [->|]; [done|].
  change MapPermission.U with (2 ^ 4). by rewrite Z.pow2_bits_false by lia.
Qed.

Lemma mmap_anonymous_run view k pid p addr len prot flags fd offset :
  k_procs k !! pid = Some p → 0 < len → anonymous_call prot flags fd offset →
  sys_mmap view pid addr len prot flags fd offset k =
    match try_map (k_mem k) (p_space p) addr len (MapPermission.from_prot prot) flags with
    | Ok (vpn, sp, m) => Done (VirtPageNum.page_start vpn) (put_space pid p sp m k)
    | Err e => Fail e k
    | Panic => Crash
    end.
Proof.
  intros Hp Hl [Hpr Hf Hs Hpv Ha -> ->]. unfold sys_mmap.
  rewrite (proj2 (Z.eqb_neq len 0)) by lia. rewrite Hpr, Hf. unfold kok_or, mbind, kst_bind, mret, kst_ret.
  cbn [Z.land Z.eqb negb]. rewrite Hs, Hpv, Ha. cbn [negb orb].
  replace (negb (usize_max =? usize_max) || false) with false by done.
  replace (negb (Z.land 0 PAGE_OFFSET_MASK =? 0)) with false by done. cbv iota.
  unfold private_anonymous_map. rewrite (in_space_run _ _ k p Hp).
  by destruct (try_map _ _ _ _ _ _) as [[[vpn sp] m]|e|].
Qed.

Lemma aligned_iff a : Z.land a PAGE_OFFSET_MASK = 0 ↔ a mod PAGE_SIZE = 0.
Proof. by rewrite <- page_offset_mod. Qed.

(** C13: a private anonymous [mmap], on every branch. A length of zero is [EINVAL];
    [MAP_FIXED] is [EINVAL] for an unaligned address and unsupported otherwise. A
    hint behind the user half, or a length of half the address space or more, is
    [ENOMEM], but a panic when the end of the last candidate overflows 64 bits.
    Otherwise the search begins at the mmap base, or at the page of the hint when
    the hint lies above it: a lower hint has no effect. Either no range of that
    many pages is free from there to the end of the user half, and the call is
    [ENOMEM]; or it returns the lowest such range: the process gets a new lazy area
    of exactly the needed pages, with the permissions asked for, that meets no
    existing area. No page is translated differently, no other process is touched,
    and the invariant of the space is kept. An error changes nothing. *)
Theorem mmap_anonymous_spec view k pid p addr len prot flags fd offset :
  k_procs k !! pid = Some p → space_inv (k_mem k) (p_space p) →
  0 ≤ addr < 2 ^ 64 → 0 ≤ len < 2 ^ 64 → anonymous_call prot flags fd offset →
  let call := sys_mmap view pid addr len prot flags fd offset k in
  let fixed := Flags.contains flags MmapFlags.MAP_FIXED in
  let lo := VirtAddr.vpn_floor (Z.max MMAP_START addr) in
  let free s := range_free (user_areas (p_space p)) s (s + npages len) in
  (len = 0 → call = Fail EINVAL k) ∧
  (0 < len → fixed = true → call = Fail (if decide (addr mod PAGE_SIZE = 0) then UNSUPPORTED else EINVAL) k) ∧
  (0 < len → fixed = false → LOW_ADDRESS_END < addr ∨ 2 ^ 63 ≤ len →
   ∃ top, search_top (user_areas (p_space p)) lo top ∧
     call = if 2 ^ 64 <=? top * PAGE_SIZE + len then Crash else Fail ENOMEM k) ∧
  (0 < len < 2 ^ 63 → fixed = false → addr ≤ LOW_ADDRESS_END →
   (∃ s sp', call = Done (s * PAGE_SIZE) (put_space pid p sp' (k_mem k) k) ∧
      lo ≤ s ∧ s * PAGE_SIZE + len ≤ LOW_ADDRESS_END ∧ free s ∧ (∀ s', lo ≤ s' < s → ¬ free s') ∧
      space_inv (k_mem k) sp' ∧
      user_areas sp' = <[s := area_new s (s + npages len) (MapPermission.from_prot prot) Lazy]> (user_areas (p_space p)) ∧
      ∀ v, translate (k_mem k) sp' v = translate (k_mem k) (p_space p) v) ∨
   (call = Fail ENOMEM k ∧ ∀ s', lo ≤ s' → s' + npages len ≤ LOW_VPN_END → ¬ free s')).
Proof.
  intros Hp Hsp Haddr Hl64 Han call fixed lo free. split; [|split; [|split]].
  - by intros ->.
  - intros Hlen Hfix. unfold call. rewrite (mmap_anonymous_run view k pid p) by done.
    unfold try_map, try_find_mmap_area. fold fixed. rewrite Hfix. case_decide as Hal.
    + by rewrite (proj2 (aligned_iff addr) Hal).
    + by rewrite (proj2 (Z.eqb_neq (Z.land addr PAGE_OFFSET_MASK) 0)) by by rewrite aligned_iff.
  - intros Hlen Hfix Hbig. destruct Hsp as (M & _ & Hi).
    destruct (try_find_mmap_area_beyond M (p_space p) addr len flags Hi Haddr Hlen Hbig Hfix) as (top & Htop & Hf).
    exists top. split; [done|]. unfold call. rewrite (mmap_anonymous_run view k pid p) by done.
    unfold try_map. rewrite Hf. by destruct (2 ^ 64 <=? _).
  - intros Hlen Hfix Hlow. unfold call. rewrite (mmap_anonymous_run view k pid p) by (done || lia).
    destruct (try_map_spec (k_mem k) (p_space p) addr len (MapPermission.from_prot prot) flags Hsp ltac:(lia)
      Hlen (from_prot_perm prot) Hfix)
      as [(s & sp' & -> & Hsp' & Hlo & Hend & Hfree & Hmin & Har & Hpt)|[-> Hno]]; [left|right; done].
    assert (0 ≤ lo) by (apply vpn_floor_nonneg; lia). pose proof (npages_pos len ltac:(lia)). fold lo in Hlo.
    pose proof (div_ceil_spec len PAGE_SIZE ltac:(done)) as Hc. fold (npages len) in Hc.
    exists s, sp'. rewrite page_start_mul by (rewrite LOW_VPN_END_eq in *; lia). split; [done|]. split; [done|].
    split. { unfold_config. lia. }
    split; [done|]. split; [done|]. split; [done|]. split; [done|].
    intros v. unfold translate. by rewrite Hpt.
Qed.

(** ** [munmap] *)
Lemma munmap_log k addr len : 0 ≤ addr + len < 2 ^ 64 →
  (if debug_log then klift (uadd 64 addr len) else mret 0) k = Done (if debug_log then addr + len else 0) k.
Proof. intros Hr. destruct debug_log; [|done]. unfold uadd. by rewrite checked_fits. Qed.

Lemma munmap_run k pid p addr len :
  k_procs k !! pid = Some p → 0 ≤ addr → 0 < len → addr mod PAGE_SIZE = 0 → addr + len ≤ LOW_ADDRESS_END →
  sys_munmap pid addr len k =
    match space_unmap (k_mem k) (p_space p) addr (addr + len) with
    | Ok (sp, m) => Done 0 (put_space pid p sp m k)
    | Err e => Fail e k
    | Panic => Crash
    end.
Proof.
  intros Hp Ha Hl Hal Hend. unfold sys_munmap.
  rewrite (kbind_run _ _ _ _ _ (munmap_log k addr len ltac:(unfold_config; lia))).
  rewrite (proj2 (aligned_iff addr) Hal).
  rewrite (proj2 (Z.eqb_neq len 0)) by lia.
  rewrite (proj2 (Z.ltb_ge LOW_ADDRESS_END _)) by (unfold_config; lia). cbn [Z.eqb negb orb].
  unfold VirtAddr.add, uadd. rewrite checked_fits by (unfold_config; lia). unfold mbind, kst_bind. cbn [klift].
  rewrite (in_space_run _ _ k p Hp). cbv beta.
  by destruct (space_unmap _ _ _ _) as [[sp m]|e|].
Qed.

(** C15: [munmap] is exact. A range that is empty, unaligned or not in the user
    half is refused with [EINVAL] and nothing changes, but for a range whose end
    does not fit 64 bits on a kernel that logs [debug!] lines: computing the end
    for the line panics. Otherwise, when no area is
    covered only in part, the areas inside the range are removed and the others
    stay: their pages lose the translation and every other page keeps it, their
    frames and no others become free, and the frames in use keep their contents.
    A range that cuts an area is a kernel panic (splitting is not implemented). *)
Theorem munmap_spec k pid p addr len :
  k_procs k !! pid = Some p → space_inv (k_mem k) (p_space p) → 0 ≤ addr < 2 ^ 64 → 0 ≤ len < 2 ^ 64 →
  let s := VirtAddr.vpn_floor addr in
  let e := VirtAddr.vpn_ceil (addr + len) in
  let areas := user_areas (p_space p) in
  let valid := addr mod PAGE_SIZE = 0 ∧ len ≠ 0 ∧ addr + len ≤ LOW_ADDRESS_END in
  (¬ valid → sys_munmap pid addr len k =
     if debug_log && (2 ^ 64 <=? addr + len) then Crash else Fail EINVAL k) ∧
  (valid → (∃ x a, areas !! x = Some a ∧ partly s e a) → sys_munmap pid addr len k = Crash) ∧
  (valid → (∀ x a, areas !! x = Some a → ¬ partly s e a) →
    ∃ sp' m', sys_munmap pid addr len k = Done 0 (put_space pid p sp' m' k) ∧ space_inv m' sp' ∧
      (∀ x a, user_areas sp' !! x = Some a ↔ areas !! x = Some a ∧ ¬ inside s e a) ∧
      (∀ v a, area_at (p_space p) v a → inside s e a → translate m' sp' v = None) ∧
      (∀ v, 0 ≤ v < LOW_VPN_END → (∀ a, area_at (p_space p) v a → ¬ inside s e a) →
         translate m' sp' v = translate (k_mem k) (p_space p) v) ∧
      (∀ f, is_free m' f ↔ is_free (k_mem k) f ∨ ∃ x a, areas !! x = Some a ∧
         inside s e a ∧ f ∈ frames_of (unbacked_map a)) ∧
      (∀ f i, ¬ is_free m' f → byte_at m' f i = byte_at (k_mem k) f i)).
Proof.
  intros Hp Hsp Ha Hl s e areas valid. split; [|split].
  - intros Hv. unfold sys_munmap. destruct (Z.leb_spec (2 ^ 64) (addr + len)) as [Ho|Ho].
    { destruct debug_log eqn:Hd; simpl.
      - unfold uadd, mbind, kst_bind. by rewrite checked_overflow.
      - rewrite (kbind_run _ _ k 0 k) by done.
        by rewrite (proj2 (Z.ltb_lt LOW_ADDRESS_END _)), orb_true_r by (unfold_config; lia). }
    rewrite andb_false_r. rewrite (kbind_run _ _ _ _ _ (munmap_log k addr len ltac:(lia))).
    assert (negb (Z.land addr PAGE_OFFSET_MASK =? 0) || (len =? 0) ||
            (LOW_ADDRESS_END <? Z.min (addr + len) usize_max) = true) as ->; [|done].
    apply orb_true_iff. rewrite orb_true_iff, negb_true_iff, Z.eqb_neq, Z.eqb_eq, Z.ltb_lt, aligned_iff.
    destruct (decide (addr mod PAGE_SIZE = 0)) as [Hal|]; [|by left; left].
    destruct (decide (len = 0)) as [|Hne]; [by left; right|]. right.
    destruct (decide (addr + len ≤ LOW_ADDRESS_END)); [destruct Hv; done|]. unfold_config. lia.
  - intros (Hal & Hne & Hend) Hpart. rewrite (munmap_run k pid p) by (done || lia).
    destruct (unmap_exact (k_mem k) (p_space p) addr (addr + len) Hsp ltac:(lia)) as [Hc _]. by rewrite Hc.
  - intros (Hal & Hne & Hend) Hno. rewrite (munmap_run k pid p) by (done || lia).
    destruct (unmap_exact (k_mem k) (p_space p) addr (addr + len) Hsp ltac:(lia)) as [_ Hc].
    destruct (Hc Hno) as (sp' & m' & -> & Hrest). exists sp', m'. split; [done|]. exact Hrest.
Qed.

(** ** [brk] *)

(** [brk] moves the program break. A break at or below the heap's start
    (zero among them) or beyond the user half is refused: the current break is
    returned and the kernel is as before. Otherwise, when no other area stands in
    the way, the new break is returned and remembered: the heap's area ends at its
    page, the pages cut off lose their translation, every other page keeps its
    translation and contents, and the invariant of the space is kept. *)
Theorem brk_spec k pid p brk :
  k_procs k !! pid = Some p → space_inv (k_mem k) (p_space p) → 0 ≤ (p_heap p).1 →
  let hs := VirtAddr.vpn_floor (p_heap p).1 in
  let ne := VirtAddr.vpn_ceil brk in
  (brk ≤ (p_heap p).1 ∨ LOW_ADDRESS_END < brk → sys_brk pid brk k = Done (p_heap p).2 k) ∧
  ((p_heap p).1 < brk ≤ LOW_ADDRESS_END → heap_room (user_areas (p_space p)) hs ne →
   (∀ a, user_areas (p_space p) !! hs = Some a → a_type a = Lazy) →
   ∃ sp' m' a', sys_brk pid brk k = Done brk
       (set_procs (<[pid := P.with_heap (P.with_space p sp') ((p_heap p).1, brk)]> (k_procs k)) (set_mem m' k)) ∧
     space_inv m' sp' ∧ user_areas sp' = <[hs := a']> (user_areas (p_space p)) ∧ va_end a' = ne ∧
     (∀ v, 0 ≤ v < LOW_VPN_END →
        ((∃ a, user_areas (p_space p) !! hs = Some a ∧ ne ≤ v < va_end a) → translate m' sp' v = None) ∧
        ((∀ a, user_areas (p_space p) !! hs = Some a → ¬ ne ≤ v < va_end a) →
           translate m' sp' v = translate (k_mem k) (p_space p) v ∧
           ∀ i, user_byte m' sp' v i = user_byte (k_mem k) (p_space p) v i))).
Proof.
  intros Hp Hsp Hh hs ne.
  destruct (set_user_brk_spec (k_mem k) (p_space p) (p_heap p).1 (p_heap p).2 brk Hsp Hh) as [Hbad Hgood].
  assert (Hrun : sys_brk pid brk k =
    match set_user_brk (k_mem k) (p_space p) (p_heap p).1 (p_heap p).2 brk with
    | Ok (ret, he, sp, m) => Done ret (set_procs (<[pid := P.with_heap (P.with_space p sp) ((p_heap p).1, he)]> (k_procs k)) (set_mem m k))
    | Err e => Fail e k
    | Panic => Crash
    end).
  { unfold sys_brk, proc, kget, mbind, kst_bind, kunwrap. rewrite Hp. unfold mret, kst_ret, klift.
    by destruct (set_user_brk _ _ _ _ _) as [[[[ret he] sp] m]|e|]. }
  rewrite Hrun. split.
  - intros Hb. rewrite (Hbad Hb). f_equal. destruct k as [m ps mg pids sd]. unfold set_procs, set_mem. simpl in *.
    f_equal. apply insert_id. rewrite Hp. f_equal. destruct p as [? ? ? ? sp [h0 h1]]. done.
  - intros Hb Hroom Hlazy. destruct (Hgood Hb Hroom Hlazy) as (sp' & m' & a' & -> & Hrest).
    exists sp', m', a'. split; [done|]. exact Hrest.
Qed.

(** ** From [mmap] to [munmap] *)
Definition no_empty (sp : MemorySpace) : Prop :=
  ∀ x a, user_areas sp !! x = Some a → va_start a < va_end a.

Lemma translate_free m sp s e v :
  space_inv m sp → range_free (user_areas sp) s e → s ≤ v < e → 0 ≤ v < LOW_VPN_END →
  translate m sp v = None.
Proof.
  intros (M & Hg & Hi) Hf Hv Hlow. unfold translate. rewrite (pg_walk Hg v Hlow).
  by rewrite (range_free_none M (user_areas sp) s e v Hi Hf Hv).
Qed.
Lemma mapped_in_use m sp v f fl :
  space_inv m sp → 0 ≤ v < LOW_VPN_END → translate m sp v = Some (f, fl) → ¬ is_free m f.
Proof.
  intros (M & Hg & Hi) Hv Ht. unfold translate in Ht. rewrite (pg_walk Hg v Hv) in Ht.
  destruct (M !! v) as [i|] eqn:HM; [|done]. simpl in Ht. injection Ht as <- _. apply (pg_frame Hg v i HM).
Qed.

(** Removing what was inserted into a free range. *)
Section insert_remove.
Context (areas : gmap Z FramedVmArea) (s e : Z) (a' : FramedVmArea).
Context (Hf : range_free areas s e) (Hse : s < e) (Hs : va_start a' = s) (He : va_end a' = e).
Context (Hne : ∀ x a, areas !! x = Some a → va_start a = x ∧ va_start a < va_end a).

Lemma free_outside x a : areas !! x = Some a → ¬ inside s e a ∧ ¬ partly s e a.
Proof using Hf Hne. intros Hx. destruct (Hne x a Hx). unfold inside, partly. destruct (Hf x a Hx); lia. Qed.
Lemma insert_not_partly x a : <[s := a']> areas !! x = Some a → ¬ partly s e a.
Proof using All.
  intros Hx. rewrite lookup_insert in Hx. case_decide; [|by apply (free_outside x a)].
  injection Hx as <-. unfold partly, inside. lia.
Qed.
Lemma insert_remove (areas3 : gmap Z FramedVmArea) :
  (∀ x a, areas3 !! x = Some a ↔ <[s := a']> areas !! x = Some a ∧ ¬ inside s e a) → areas3 = areas.
Proof using All.
  intros H3. assert (Hnone : areas !! s = None).
  { destruct (areas !! s) as [a|] eqn:Ha; [|done]. destruct (Hne s a Ha), (Hf s a Ha); lia. }
  apply map_eq. intros x. apply option_eq. intros a. rewrite H3, lookup_insert. case_decide as Hx.
  - subst x. rewrite Hnone. split; [|done]. intros [[= <-] Hi]. exfalso. apply Hi. unfold inside. lia.
  - split; [by intros [? _]|]. intros Ha. split; [done|]. by apply (free_outside x a).
Qed.
End insert_remove.

Lemma map_range s len :
  0 ≤ s → 0 < len → s * PAGE_SIZE + len ≤ LOW_ADDRESS_END →
  (s * PAGE_SIZE) mod PAGE_SIZE = 0 ∧ VirtAddr.vpn_floor (s * PAGE_SIZE) = s ∧
  VirtAddr.vpn_ceil (s * PAGE_SIZE + len) = s + npages len ∧ s < s + npages len ≤ LOW_VPN_END ∧
  ∀ va, s * PAGE_SIZE ≤ va < s * PAGE_SIZE + len → 0 ≤ va ∧ s ≤ VirtAddr.vpn_floor va < s + npages len.
Proof.
  intros Hs Hl He. pose proof (npages_pos len Hl) as Hn.
  pose proof (div_ceil_spec len PAGE_SIZE ltac:(done)) as Hc. fold (npages len) in Hc.
  pose proof (vpn_floor_ceil (s * PAGE_SIZE)) as Hf1. pose proof (vpn_floor_ceil (s * PAGE_SIZE + len)) as Hf2.
  split; [apply Z.mod_mul; done|]. unfold_config. split; [lia|]. split; [lia|]. split; [lia|].
  intros va Hva. pose proof (vpn_floor_ceil va) as Hf3. unfold_config. lia.
Qed.
Lemma put_space_lookup pid p sp m k : k_procs (put_space pid p sp m k) !! pid = Some (P.with_space p sp).
Proof. apply lookup_insert_eq. Qed.
Lemma put_space_twice pid p sp m sp' m' k :
  put_space pid (P.with_space p sp) sp' m' (put_space pid p sp m k) = put_space pid p sp' m' k.
Proof. unfold put_space. simpl. unfold set_procs, set_mem. simpl. by rewrite insert_insert_eq. Qed.

(** The frame behind a page of a lazy area is one of the area's. *)
Lemma lazy_frame m sp s a v f fl :
  space_inv m sp → user_areas sp !! s = Some a → a_type a = Lazy → in_area a v →
  translate m sp v = Some (f, fl) → unbacked_map a !! v = Some f.
Proof.
  intros (M & Hg & Hi) Hs Hl Hv Ht. destruct (ar_area Hi s a Hs) as [_ Ha]. pose proof (ai_range Ha) as Hr.
  unfold translate in Ht. rewrite (pg_walk Hg v) in Ht by (unfold in_area in Hv; lia).
  destruct (M !! v) as [i|] eqn:HM; [|done]. simpl in Ht. injection Ht as <- _.
  pose proof (ai_only Ha v i Hv HM) as Ho. destruct (pi_owned i); [done|]. exfalso.
  pose proof (ai_type Ha) as Hty. rewrite Hl in Hty. destruct Hty as [_ Hb]. rewrite Hb in Ho. set_solver.
Qed.

(** Unmapping an area that was inserted into a free range of [sp0], in a later
    state that kept the pages outside. *)
Lemma unmap_inserted m0 sp0 m2 sp2 s len a' :
  space_inv m0 sp0 → no_empty sp0 → space_inv m2 sp2 → 0 ≤ s → 0 < len →
  s * PAGE_SIZE + len ≤ LOW_ADDRESS_END → range_free (user_areas sp0) s (s + npages len) →
  user_areas sp2 = <[s := a']> (user_areas sp0) → va_start a' = s → va_end a' = s + npages len →
  (∀ w, 0 ≤ w < LOW_VPN_END → ¬ s ≤ w < s + npages len →
     translate m2 sp2 w = translate m0 sp0 w ∧ ∀ i, user_byte m2 sp2 w i = user_byte m0 sp0 w i) →
  ∃ sp3 m3, space_unmap m2 sp2 (s * PAGE_SIZE) (s * PAGE_SIZE + len) = Ok (sp3, m3) ∧
    user_areas sp3 = user_areas sp0 ∧ (∀ f, f ∈ frames_of (unbacked_map a') → is_free m3 f) ∧
    ∀ w i, 0 ≤ w < LOW_VPN_END →
      translate m3 sp3 w = translate m0 sp0 w ∧ user_byte m3 sp3 w i = user_byte m0 sp0 w i.
Proof.
  intros Hsp0 Hne Hsp2 Hs0 Hlen Hend Hrf Har2 Hs' He' Hother.
  destruct (map_range s len Hs0 Hlen Hend) as (_ & Hfl & Hcl & Hr & _).
  assert (Hne' : ∀ y b, user_areas sp0 !! y = Some b → va_start b = y ∧ va_start b < va_end b).
  { intros y b Hy. split; [|by apply (Hne y b)]. destruct Hsp0 as (M0 & _ & Hi0). by destruct (area_range _ _ _ _ Hi0 Hy). }
  destruct (unmap_exact m2 sp2 (s * PAGE_SIZE) (s * PAGE_SIZE + len) Hsp2 ltac:(unfold_config; lia)) as [_ Hun].
  rewrite Hfl, Hcl, Har2 in Hun.
  destruct Hun as (sp3 & m3 & Hun & Hsp3 & Har3 & Hgone & Hkeep & Hfr & Hby); [exact (insert_not_partly _ _ _ a' Hrf ltac:(lia) Hs' He' Hne')|].
  assert (Hins : inside s (s + npages len) a') by (unfold inside; lia).
  exists sp3, m3. split; [done|]. split; [apply (insert_remove _ _ _ a' Hrf ltac:(lia) Hs' He' Hne' _ Har3)|].
  split. { intros f Hf. apply Hfr. right. exists s, a'. by rewrite lookup_insert_eq. }
  intros w i Hw. destruct (decide (s ≤ w < s + npages len)) as [Hin|Hout].
  - assert (translate m3 sp3 w = None) as Hn3.
    { apply (Hgone w a'); [|done]. exists s. rewrite Har2, lookup_insert_eq. split; [done|]. unfold in_area. lia. }
    unfold user_byte. rewrite Hn3, (translate_free m0 sp0 s (s + npages len)) by done. done.
  - destruct (Hother w Hw Hout) as [Ht Hb].
    assert (Ht3 : translate m3 sp3 w = translate m2 sp2 w).
    { apply Hkeep; [done|]. intros b (y & Hy & Hyw) Hbi. apply Hout. rewrite Har2 in Hy.
      destruct Hsp2 as (M2 & _ & Hi2). rewrite <- Har2 in Hy. destruct (area_range _ _ _ _ Hi2 Hy) as [Hst _].
      unfold in_area in Hyw. destruct Hbi. lia. }
    split; [congruence|]. rewrite <- Hb. unfold user_byte. rewrite Ht3.
    destruct (translate m2 sp2 w) as [[f fl]|] eqn:Hf; [|done]. simpl. f_equal. apply Hby.
    eapply mapped_in_use; [exact Hsp3|exact Hw|exact Ht3].
Qed.

(** C6: memory from [mmap] is zero, private and goes back. After a private
    anonymous [mmap] the first access to any of its bytes, a page fault, finds the
    page: it is mapped to a frame that was free, full of zeros, with the
    permissions asked for, and no other page changes. [munmap] of the same range
    then leaves the process exactly the areas it had, every page of the user half
    translated and with the contents as before the [mmap], and the frame free. *)
Theorem mmap_touch_munmap view k pid p addr len prot flags fd offset base k1 va :
  k_procs k !! pid = Some p → space_inv (k_mem k) (p_space p) → no_empty (p_space p) →
  0 ≤ addr ≤ LOW_ADDRESS_END → anonymous len prot flags fd offset → (3 ≤ free_count (k_mem k))%nat →
  sys_mmap view pid addr len prot flags fd offset k = Done base k1 → base ≤ va < base + len →
  let v := VirtAddr.vpn_floor va in
  ∃ p1 ppn sp2 m2 sp3 m3,
    k_procs k1 !! pid = Some p1 ∧
    handle_memory_exception (k_mem k1) (p_space p1) va false = Ok (true, sp2, m2) ∧
    is_free (k_mem k) ppn ∧ translate m2 sp2 v = Some (ppn, leaf_flags (MapPermission.from_prot prot)) ∧
    (∀ i, user_byte m2 sp2 v i = Some 0) ∧
    (∀ w i, 0 ≤ w < LOW_VPN_END → w ≠ v → user_byte m2 sp2 w i = user_byte (k_mem k) (p_space p) w i) ∧
    sys_munmap pid base len (put_space pid p1 sp2 m2 k1) = Done 0 (put_space pid p sp3 m3 k) ∧
    user_areas sp3 = user_areas (p_space p) ∧ is_free m3 ppn ∧
    ∀ w i, 0 ≤ w < LOW_VPN_END →
      translate m3 sp3 w = translate (k_mem k) (p_space p) w ∧
      user_byte m3 sp3 w i = user_byte (k_mem k) (p_space p) w i.
Proof.
  intros Hp Hsp Hne Haddr Han Hfree Hmap Hva v. pose proof (an_len _ _ _ _ _ Han) as Hlen.
  rewrite (mmap_anonymous_run view k pid p) in Hmap by (done || lia || apply Han).
  destruct (try_map_spec (k_mem k) (p_space p) addr len (MapPermission.from_prot prot) flags Hsp Haddr
    Hlen (from_prot_perm prot) (an_fixed _ _ _ _ _ Han))
    as [(s & sp1 & Ht & Hsp1 & Hlo & Hend & Hrf & _ & Har & Hpt)|[Ht _]]; rewrite Ht in Hmap; [|done].
  assert (Hs0 : 0 ≤ s) by (pose proof (vpn_floor_nonneg (Z.max MMAP_START addr) ltac:(lia)); lia).
  pose proof (div_ceil_spec len PAGE_SIZE ltac:(done)) as Hdc. fold (npages len) in Hdc.
  pose proof (npages_pos len ltac:(lia)) as Hnp. injection Hmap as <- <-.
  rewrite page_start_mul in Hva |- * by (rewrite LOW_VPN_END_eq in *; lia).
  assert (Hle : s * PAGE_SIZE + len ≤ LOW_ADDRESS_END) by (unfold_config; lia).
  destruct (map_range s len Hs0 ltac:(lia) Hle) as (Hal & _ & _ & Hr & Hin).
  destruct (Hin va Hva) as [Hva0 Hv]. fold v in Hv.
  set (area := area_new s (s + npages len) (MapPermission.from_prot prot) Lazy) in *.
  destruct (handle_memory_exception_spec (k_mem k) sp1 va Hsp1 Hva0 Hfree) as (_ & _ & Hfault & _).
  destruct (Hfault area) as (ppn & sp2 & m2 & He & Hsp2 & Hppn & Ht2 & Hz & Hother & (x & a' & Hx & Har2 & Hs' & He' & Hty));
    [exists s; rewrite Har, lookup_insert_eq; split; [done|exact Hv]|done..|].
  assert (x = s) as ->. { destruct Hsp1 as (M1 & _ & Hi1). by destruct (area_range _ _ _ _ Hi1 Hx) as [<- _]. }
  assert (Hframe : unbacked_map a' !! v = Some ppn).
  { apply (lazy_frame m2 sp2 s a' v ppn (leaf_flags (a_perm area)) Hsp2); [by rewrite Har2, lookup_insert_eq|done| |exact Ht2].
    unfold in_area. by rewrite Hs', He'. }
  rewrite Har, insert_insert_eq in Har2.
  assert (Hout : ∀ w, 0 ≤ w < LOW_VPN_END → w ≠ v → translate m2 sp2 w = translate (k_mem k) (p_space p) w ∧
    ∀ i, user_byte m2 sp2 w i = user_byte (k_mem k) (p_space p) w i).
  { intros w Hw Hwv. destruct (Hother w Hw Hwv) as [Htw Hb]. rewrite Htw. split; [unfold translate; by rewrite Hpt|].
    intros i. rewrite Hb. unfold user_byte, translate. by rewrite Hpt. }
  destruct (unmap_inserted (k_mem k) (p_space p) m2 sp2 s len a' Hsp Hne Hsp2 Hs0 ltac:(lia) Hle Hrf Har2 Hs' He')
    as (sp3 & m3 & Hun & Heq & Hfr & Hback).
  { intros w Hw Hwr. apply Hout; [done|]. intros ->. done. }
  exists (P.with_space p sp1), ppn, sp2, m2, sp3, m3. rewrite !put_space_twice.
  split; [apply put_space_lookup|]. split; [exact He|]. split; [done|]. split; [exact Ht2|]. split; [exact Hz|].
  split; [intros w i Hw Hwv; by apply Hout|]. split; [|split; [done|split; [|done]]].
  - rewrite (munmap_run _ pid (P.with_space p sp2)); [|apply put_space_lookup|unfold_config; lia|lia|done|done].
    simpl. rewrite Hun. f_equal. apply put_space_twice.
  - apply Hfr, elem_of_frames_of. by exists v.
Qed.
End mem.

Lemma kvalue_done {S A} (r : kres S A) a : kvalue r = Some a → ∃ s, r = Done a s.
Proof. destruct r as [b s|e s|]; simpl; [|done..]. intros [= ->]. by exists s. Qed.

(** ** A process on the concrete space *)
Module MemDemo.
Definition no_view (_ : ()) : FileView := mkView Fifo None.
Definition demo_proc : Process () :=
  mkProcess [] 0 ProcessStatus.normal None demo_space (0x10000, 0x20000) None [] 0
    (with_stdio ()) Handlers.new (mkAllocator 1 []) {[ 0 := Th.new 0 (start_context 0 0 0 0) 0 ]}.
Definition kern : Kernel () := mkKernel demo_mem {[ 1 := demo_proc ]} {[ 1 ]} (mkAllocator 2 []) false.
Abbreviation map_call := (sys_mmap no_view 1 0 0x1800 3 0x22 usize_max 0) (only parsing).

Lemma demo_anonymous : anonymous 0x1800 3 0x22 usize_max 0.
Proof. by split. Qed.
Lemma demo_no_empty : no_empty demo_space.
Proof. intros x a [[-> ->]|[-> ->]]%demo_areas; simpl; lia. Qed.

Lemma map_call_done : kvalue (map_call kern) = Some 0x2000004000.
Proof. by vm_compute. Qed.

Lemma mmap_anonymous_witness :
  ∃ sp', map_call kern = Done 0x2000004000 (put_space 1 demo_proc sp' demo_mem kern) ∧ space_inv demo_mem sp'.
Proof.
  destruct (mmap_anonymous_spec no_view kern 1 demo_proc 0 0x1800 3 0x22 usize_max 0 eq_refl demo_space_inv
    ltac:(lia) ltac:(lia) (an_call _ _ _ _ _ demo_anonymous)) as (_ & _ & _ & H).
  destruct (H ltac:(lia) eq_refl ltac:(unfold_config; lia)) as [(s & sp' & He & _ & _ & _ & _ & Hi & _)|[He _]].
  - exists sp'. split; [|exact Hi]. rewrite He.
    pose proof (eq_trans (eq_sym map_call_done) (f_equal kvalue He)) as Hs. injection Hs as <-. reflexivity.
  - pose proof (eq_trans (eq_sym map_call_done) (f_equal kvalue He)) as Hs. discriminate Hs.
Defined.

Lemma mmap_touch_witness :
  ∃ k1 p1 ppn sp2 m2 sp3 m3, map_call kern = Done 0x2000004000 k1 ∧ k_procs k1 !! 1 = Some p1 ∧
    handle_memory_exception (k_mem k1) (p_space p1) 0x2000005007 false = Ok (true, sp2, m2) ∧
    translate m2 sp2 0x2000005 = Some (ppn, 23) ∧
    sys_munmap 1 0x2000004000 0x1800 (put_space 1 p1 sp2 m2 k1) = Done 0 (put_space 1 demo_proc sp3 m3 kern) ∧
    user_areas sp3 = user_areas demo_space.
Proof.
  assert (∃ k1, map_call kern = Done 0x2000004000 k1) as [k1 He].
  { apply kvalue_done, map_call_done. }
  destruct (mmap_touch_munmap no_view kern 1 demo_proc 0 0x1800 3 0x22 usize_max 0 0x2000004000 k1 0x2000005007
    eq_refl demo_space_inv demo_no_empty ltac:(unfold_config; lia) demo_anonymous ltac:(vm_compute; lia) He ltac:(lia))
    as (p1 & ppn & sp2 & m2 & sp3 & m3 & H1 & H2 & _ & H3 & _ & _ & H4 & H5 & _).
  exists k1, p1, ppn, sp2, m2, sp3, m3. split; [exact He|]. split; [exact H1|]. split; [exact H2|].
  split; [exact H3|]. split; [exact H4|exact H5].
Defined.

Lemma munmap_witness :
  (∃ sp' m', sys_munmap 1 0x10000 0x10000 kern = Done 0 (put_space 1 demo_proc sp' m' kern)) ∧
  sys_munmap 1 0x10000 0x8000 kern = Crash ∧ sys_munmap 1 0x10008 0x8000 kern = Fail EINVAL kern.
Proof.
  destruct (munmap_spec kern 1 demo_proc 0x10000 0x10000 eq_refl demo_space_inv ltac:(lia) ltac:(lia)) as (_ & _ & H1).
  destruct (munmap_spec kern 1 demo_proc 0x10000 0x8000 eq_refl demo_space_inv ltac:(lia) ltac:(lia)) as (_ & H2 & _).
  destruct (munmap_spec kern 1 demo_proc 0x10008 0x8000 eq_refl demo_space_inv ltac:(lia) ltac:(lia)) as (H3 & _).
  split; [|split].
  - destruct H1 as (sp' & m' & He & _); [vm_compute; split; [reflexivity|split; discriminate]| |exists sp', m'; exact He].
    intros x a [[-> ->]|[-> ->]]%demo_areas; unfold partly, inside; simpl.
    + intros (Hn & _). apply Hn. vm_compute. split; congruence.
    + intros (_ & _ & Hx). vm_compute in Hx. congruence.
  - apply H2; [vm_compute; split; [reflexivity|split; discriminate]|]. exists 0x10, (area_new 0x10 0x20 22 Lazy).
    split; [reflexivity|]. unfold partly, inside. vm_compute. split; [|split; congruence].
    intros [_ Hx]. apply Hx. reflexivity.
  - rewrite H3; [rewrite andb_false_r; reflexivity|]. vm_compute. intros [? _]. discriminate.
Defined.

Lemma brk_witness :
  sys_brk 1 0 kern = Done 0x20000 kern ∧ ∃ k', sys_brk 1 0x18001 kern = Done 0x18001 k'.
Proof.
  split.
  - apply (brk_spec kern 1 demo_proc 0 eq_refl demo_space_inv); [simpl; lia|left; simpl; lia].
  - destruct (brk_spec kern 1 demo_proc 0x18001 eq_refl demo_space_inv ltac:(simpl; lia)) as [_ Hb].
    destruct Hb as (sp' & m' & a' & He & _); [simpl; unfold_config; lia| | |].
    + intros x a [[-> ->]|[-> ->]]%demo_areas Hne; [done|right; vm_compute; split; [done|discriminate]].
    + intros a [[_ ->]|[? _]]%demo_areas; done.
    + eexists. exact He.
Defined.

(** A length close to the top of the address space overflows the search. *)
Lemma mmap_huge_panics :
  kcrashes (sys_mmap no_view 1 0 usize_max 3 0x22 usize_max 0 kern) = true.
Proof. by vm_compute. Qed.
(** Private file mappings and shared anonymous ones are not implemented. *)
Lemma mmap_unimplemented :
  kcrashes (sys_mmap no_view 1 0 0x1000 3 0x2 3 0 kern) = true ∧
  kcrashes (sys_mmap no_view 1 0 0x1000 3 0x21 usize_max 0 kern) = true.
Proof. by vm_compute. Qed.
End MemDemo.
