(* ===== verification/UserLib.v ===== *)
(** * The user library

    [user/src/lib.rs] and [user/src/console.rs], the library the user programs of the
    repository are linked with, on top of the kernel's system calls: how a child's
    exit code reaches its parent, the heap that grows with [brk], the console
    buffer. *)
From S2P Require Import Prelude Address Defines Kst IdAllocator FrameAllocator PageTable VmArea MemorySpace SpaceOps Trap Signal UserCheck UserAccess FdTable Process ProcessTree ProcessSteps ProcessSpec MemSyscalls.

(** ** [exit] and [waitpid] *)
(** The status word, as [waitpid] takes it apart ([i32]) *)
Definition wait_decode (exit_code : Z) : Z :=
  let exit_code := Z.shiftr (Z.land exit_code 0xff00) 8 in
  if negb (Z.land exit_code 0x80 =? 0) then to_signed 32 (Z.lor exit_code 0xffffff00) else exit_code.

Lemma byte_cases (P : Z → bool) x : 0 ≤ x < 256 → forallb P (seqZ 0 256) = true → P x = true.
Proof. intros Hx Hf. rewrite forallb_forall in Hf. apply Hf, list_elem_of_In, elem_of_seqZ. lia. Qed.
Lemma to_signed_wrapped x : to_signed 8 (wrap 8 x) = to_signed 8 x.
Proof. unfold to_signed, wrap. by rewrite Z.mod_mod. Qed.
(** The status of a child that ended with the byte [x] *)
Lemma wait_decode_status x : wait_decode (Z.shiftl (wrap 8 x) 8) = to_signed 8 x.
Proof.
  rewrite <- to_signed_wrapped.
  apply Z.eqb_eq. apply (byte_cases (λ y, wait_decode (Z.shiftl y 8) =? to_signed 8 y)); [|by vm_compute].
  apply Z.mod_pos_bound. lia.
Qed.
Lemma wrap_to_signed code : wrap 8 (to_signed 8 code) = wrap 8 code.
Proof.
  rewrite <- to_signed_wrapped. assert (0 ≤ wrap 8 code < 256) as Hr by (apply Z.mod_pos_bound; lia).
  apply Z.eqb_eq. exact (byte_cases (λ y, wrap 8 (to_signed 8 y) =? y) _ Hr eq_refl).
Qed.
Lemma to_signed_byte code : -128 ≤ code < 128 → to_signed 8 code = code.
Proof.
  intros Hc. rewrite <- to_signed_wrapped. by apply to_signed_wrap.
Qed.
Lemma exit_byte code : to_signed 8 (Z.land code 255) = to_signed 8 code.
Proof. rewrite <- (to_signed_wrapped code). f_equal. by apply (Z.land_ones code 8). Qed.
Lemma zombie_code code : ProcessStatus.exit_code (ProcessStatus.zombie code) = Some (to_signed 8 code).
Proof.
  destruct (zombie_word code) as [Hz Hc]. unfold ProcessStatus.exit_code. rewrite Hc, to_signed_wrapped.
  destruct (Z.eqb_spec (ProcessStatus.zombie code) ProcessStatus.normal) as [E|]; [|done]. by rewrite E in Hz.
Qed.

Section ending.
Context {BD : Buddy} {KI : KernelImage} {PE : ProcessEnv} {F : Type}.
Implicit Types (p : Process F) (k : Kernel F).

(** [waitpid(pid, &mut exit_code)] of the process [self], with [exit_code] at
    [xstatus]; [None] when the call goes to sleep, [fuel] bounds the turns of its
    loop. *)
Fixpoint waitpid (fuel : nat) (self pid xstatus : Z) : kst (Kernel F) (option Z) :=
  match fuel with
  | O => kcrash
  | S fuel =>
      r ← ktry (sys_wait4 self pid (UserCheck_new xstatus) 0 0);
      match r with
      | inl None => mret None
      | inl (Some 0) => waitpid fuel self pid xstatus
      | inl (Some n) =>
          _ ← on_space self
                (bs ← load_user xstatus 4;
                 store_user xstatus (encode i32_codec (wait_decode (decode i32_codec bs))));
          mret (Some n)
      | inr e => mret (Some (as_isize e))
      end
  end.

(** *** The child's end *)
Definition status_is (c st : Z) k : Prop := p_status <$> k_procs k !! c = Some st.
Lemma status_put c st pid p k :
  k_procs k !! pid = Some p → status_is c st k →
  ∀ p', p_status p' = p_status p → status_is c st (set_procs (<[pid := p']> (k_procs k)) k).
Proof.
  unfold status_is. intros Hp Hs p' Hp'. simpl. rewrite lookup_insert. case_decide as Hd; [|done].
  subst pid. rewrite Hp in Hs. simpl in *. congruence.
Qed.
(** Changes of processes that keep their status. *)
Lemma keep_put {A} c st pid p' (f : kst (Kernel F) A) k a k' :
  (put_proc pid p' ≫= λ _, f) k = Done a k' → status_is c st k →
  (∃ p, k_procs k !! pid = Some p ∧ p_status p' = p_status p) →
  ∃ k1, f k1 = Done a k' ∧ status_is c st k1.
Proof. intros Hr Hs (p & Hp & Hst). eexists. split; [exact Hr|]. by apply (status_put c st pid p). Qed.

Lemma proc_Done pid k p k' : proc pid k = Done p k' → k' = k ∧ k_procs k !! pid = Some p.
Proof. unfold proc, mbind, kst_bind, kget, kunwrap. destruct (k_procs k !! pid); [|done]. by intros [= <- <-]. Qed.

Lemma reparent_status init l : ∀ c st k k', reparent init l k = Done () k' → status_is c st k → status_is c st k'.
Proof.
  induction l as [|x l IH]; intros c st k k' Hr Hs; simpl in Hr; [by injection Hr as <-|].
  apply kbind_Done in Hr as (cp & k1 & [-> Hc]%proc_Done & Hr).
  eapply keep_put in Hr as (k2 & Hr & Hs2); [|exact Hs|by eauto].
  apply kbind_Done in Hr as (ip & k3 & [-> Hi]%proc_Done & Hr).
  eapply keep_put in Hr as (k4 & Hr & Hs4); [|exact Hs2|by eauto]. by eapply IH.
Qed.

(** The last thread's end leaves a zombie with its exit code. *)
Lemma exit_thread_status c tid t p k k' :
  k_procs k !! c = Some p → p_threads p = {[tid := t]} → p_status p = ProcessStatus.normal →
  exit_thread c tid k = Done () k' → status_is c (ProcessStatus.zombie (t_exit_code t)) k'.
Proof.
  intros Hp Ht Hst Hr. unfold exit_thread in Hr.
  apply kbind_Done in Hr as (p0 & k1 & [-> Hp0]%proc_Done & Hr). rewrite Hp in Hp0. injection Hp0 as <-.
  apply kbind_Done in Hr as (t0 & k1 & Ht0 & Hr). rewrite Ht, lookup_singleton_eq in Ht0. injection Ht0 as <- <-.
  apply kbind_Done in Hr as (tids & k1 & Htd & Hr). unfold klift in Htd. destruct (Recycle.dealloc _ _); try done. injection Htd as -> <-.
  apply kbind_Done in Hr as (k0 & k1 & [= <- <-] & Hr).
  apply kbind_Done in Hr as ([sp m] & k1 & Hds & Hr). unfold klift in Hds. destruct (dealloc_user_stack _ _ _); try done. injection Hds as -> <-.
  apply kbind_Done in Hr as ([] & k1 & [= <-] & Hr).
  rewrite bool_decide_eq_true_2 in Hr by (simpl; by rewrite Ht, delete_singleton_eq).
  apply kbind_Done in Hr as ([sp' m'] & k1 & Hrc & Hr). unfold klift in Hrc. destruct (recycle_user_pages _ _); try done. injection Hrc as -> <-.
  apply kbind_Done in Hr as ([] & k1 & [= <-] & Hr). cbn [p_status P.with_status P.with_parent P.with_children P.with_tids P.with_space P.with_cwd P.with_threads p_parent p_children p_exit_signal] in Hr.
  rewrite Hst in Hr. change (ProcessStatus.exit_code ProcessStatus.normal) with (@None Z) in Hr. cbv iota in Hr.
  apply kbind_Done in Hr as ([] & k1 & Hput & Hr).
  assert (Hs1 : status_is c (ProcessStatus.zombie (t_exit_code t)) k1).
  { unfold put_proc, kmodify in Hput. injection Hput as <-. unfold status_is. simpl. by rewrite lookup_insert_eq. }
  clear Hput. apply kbind_Done in Hr as ([] & k2 & Hre & Hr).
  assert (Hs2 : status_is c (ProcessStatus.zombie (t_exit_code t)) k2).
  { destruct (c =? INITPROC_PID).
    - apply kbind_Done in Hre as ([] & k3 & Ha & Hre). unfold kassert in Ha. destruct (_ =? 0)%nat; [|done].
      injection Ha as <-. injection Hre as <-. exact Hs1.
    - apply kbind_Done in Hre as (init & k3 & Hm & Hre). assert (k3 = k1) as ->.
      { unfold manager_init_proc, manager_get, kgets, mbind, kst_bind in Hm.
        destruct (bool_decide _); [by injection Hm|done]. }
      by eapply reparent_status. }
  clear Hre Hs1. destruct (p_parent p) as [par|]; [|by injection Hr as <-].
  apply kbind_Done in Hr as ([] & k3 & Hsig & Hr).
  assert (Hs3 : status_is c (ProcessStatus.zombie (t_exit_code t)) k3).
  { destruct (p_exit_signal p) as [sg|]; [|by injection Hsig as <-].
    apply kbind_Done in Hsig as (pp & k4 & [-> Hpp]%proc_Done & Hsig). unfold put_proc, kmodify in Hsig. injection Hsig as <-.
    by apply (status_put c _ par pp). }
  apply kbind_Done in Hr as (pp & k4 & [-> Hpp]%proc_Done & Hr). unfold put_proc, kmodify in Hr. injection Hr as <-.
  by apply (status_put c _ par pp).
Qed.

Lemma sys_exit_run c tid code t p k :
  k_procs k !! c = Some p → p_threads p !! tid = Some t →
  sys_exit c tid code k = Fail BREAK (set_procs (<[c := P.with_threads p
    (<[tid := Th.with_exit_code t (to_signed 8 (Z.land code 255))]> (p_threads p))]> (k_procs k)) k).
Proof.
  intros Hp Ht. unfold sys_exit, update_thread. unfold mbind at 1, kst_bind at 1.
  rewrite (kbind_run _ _ k p k) by (unfold proc, mbind, kst_bind, kget; simpl; by rewrite Hp).
  rewrite (kbind_run _ _ k t k) by (by rewrite Ht). done.
Qed.

(** *** The parent's wait *)
Lemma waitpid_reaps fuel self p c cp code xstatus k :
  k_procs k !! self = Some p → NoDup (p_children p) → c ∈ p_children p → 0 < c < 2 ^ 63 →
  k_procs k !! c = Some cp → p_status cp = ProcessStatus.zombie code →
  0 < xstatus → um_ok (p_space p, k_mem k) xstatus 4 →
  ∃ k' p', waitpid (S fuel) self c xstatus k = Done (Some c) k' ∧ k_procs k' !! self = Some p' ∧
    p_children p' = filter (λ x, x ≠ c) (p_children p) ∧
    um_load (p_space p', k_mem k') xstatus 4 = Ok (encode i32_codec (to_signed 8 code)).
Proof.
  intros Hp Hnd Hc Hcr Hcp Hst Hx Hok. cbn [waitpid].
  destruct (zombie_word code) as [Hz _].
  assert (∃ index, wait4_scan k c (p_children p) = (true, Some index) ∧ p_children p !! index = Some c) as (index & Hs & Hi).
  { destruct (wait4_scan k c (p_children p)) as [has found] eqn:Es. destruct (wait4_scan_spec k c _ has found Es) as [Hh Hf].
    assert (waited c c) as Hw by (right; rewrite wrap_small; lia).
    assert (has = true) as -> by (apply Hh; eauto).
    destruct found as [i|].
    - destruct Hf as (c' & Hi & [Hm|Hw'] & _); [lia|]. rewrite wrap_small in Hw' by lia. subst c'. by exists i.
    - exfalso. apply (Hf c Hc Hw). exists cp. by rewrite Hst. }
  rewrite <- Hst in Hz. pose proof (zombie_code code) as Hzc. rewrite <- Hst in Hzc.
  pose proof (wait4_poll_reaps k self p c (UserCheck_new xstatus) 0 c cp _ index Hp Hnd Hs Hi Hcp Hzc) as Hpoll.
  assert (Hnew : UserCheck_new xstatus = Some xstatus) by (unfold UserCheck_new; by rewrite (proj2 (Z.eqb_neq xstatus 0)) by lia).
  rewrite Hnew in *. set (k1 := reaped k self p c) in *. set (p1 := P.with_children p (filter (λ x, x ≠ c) (p_children p))).
  assert (Hp1 : k_procs k1 !! self = Some p1) by apply lookup_insert_eq.
  set (st := Z.shiftl (wrap 8 (to_signed 8 code)) 8) in *.
  assert (Hst8 : st = Z.shiftl (wrap 8 code) 8).
  { unfold st. by rewrite wrap_to_signed. }
  destruct (write_user_ok i32_codec (p_space p, k_mem k) xstatus st Hok) as (u1 & Hw & Hok1 & Hl1).
  change (um_load u1 xstatus 4 = Ok (encode i32_codec st)) in Hl1.
  set (k2 := set_procs (<[self := P.with_space p1 u1.1]> (k_procs k1)) (set_mem u1.2 k1)).
  assert (Hrep : report self c (to_signed 8 code) (Some xstatus) k1 = Done (Some c) k2).
  { unfold report. rewrite (kbind_run _ _ k1 () k2); [done|]. unfold on_space. rewrite Hp1. cbn [p_space p1 P.with_children].
    change (k_mem k1) with (k_mem k). fold st. by rewrite Hw. }
  rewrite Hrep in Hpoll.
  assert (Hsys : sys_wait4 self c (Some xstatus) 0 0 k = Done (Some c) k2).
  { unfold sys_wait4. rewrite (proj2 (Z.ltb_lt 0 c)), orb_true_r by lia. exact Hpoll. }
  rewrite (kbind_run _ _ k (inl (Some c)) k2) by (unfold ktry; by rewrite Hsys). cbv beta iota.
  assert (Hp2 : k_procs k2 !! self = Some (P.with_space p1 u1.1)) by apply lookup_insert_eq.
  set (val := wait_decode (decode i32_codec (encode i32_codec st))).
  assert (Hval : val = to_signed 8 code).
  { unfold val. rewrite decode_encode; [by rewrite Hst8, wait_decode_status|]. rewrite Hst8. simpl.
    rewrite Z.shiftl_mul_pow2 by lia. pose proof (Z.mod_pos_bound code (2 ^ 8) ltac:(lia)). unfold wrap. lia. }
  assert (Hst2 : um_ok u1 xstatus (length (encode i32_codec val))) by (by rewrite length_encode).
  destruct (um_ok_store u1 xstatus (encode i32_codec val) Hst2) as (u2 & Hs2 & _ & Hl2). rewrite length_encode in Hl2.
  set (k3 := set_procs (<[self := P.with_space (P.with_space p1 u1.1) u2.1]> (k_procs k2)) (set_mem u2.2 k2)).
  exists k3, (P.with_space (P.with_space p1 u1.1) u2.1). split; [|split; [apply lookup_insert_eq|split; [done|]]].
  - assert (Hn0 : match c with 0 => waitpid fuel self c xstatus
       | _ => _ ← on_space self (bs ← load_user xstatus 4; store_user xstatus (encode i32_codec (wait_decode (decode i32_codec bs)))); mret (Some c)
       end k2 = (_ ← on_space self (bs ← load_user xstatus 4; store_user xstatus (encode i32_codec (wait_decode (decode i32_codec bs)))); mret (Some c)) k2)
      by (destruct c; [lia|done|lia]).
    etransitivity; [exact Hn0|]. rewrite (kbind_run _ _ k2 () k3); [done|]. unfold on_space. rewrite Hp2. cbn [p_space P.with_space].
    change (k_mem k2) with u1.2. replace (u1.1, u1.2) with u1 by (by destruct u1).
    rewrite (kbind_run _ _ u1 (encode i32_codec st) u1) by (unfold load_user; by rewrite Hl1).
    unfold store_user. fold val. by rewrite Hs2.
  - rewrite <- Hval, <- Hl2. by destruct u2.
Qed.

(** C19: a program's exit code reaches its parent. The only thread of a process calls
    [exit(code)] and ends: the process is a zombie with the low byte of the code
    as its status. Whenever its parent then calls [waitpid] for it, with a place
    for the code it can write to, the call returns the pid without sleeping, the
    child is no longer among the children, and the place holds the low byte of
    [code] as a signed number: the code itself, from -128 to 127. *)
Theorem exit_code_roundtrip code c tid t pc k :
  k_procs k !! c = Some pc → p_threads pc = {[tid := t]} → p_status pc = ProcessStatus.normal →
  ∃ k1, sys_exit c tid code k = Fail BREAK k1 ∧
    (∀ k2, exit_thread c tid k1 = Done () k2 → status_is c (ProcessStatus.zombie (to_signed 8 code)) k2) ∧
    (∀ fuel k3 self p xstatus, status_is c (ProcessStatus.zombie (to_signed 8 code)) k3 →
       k_procs k3 !! self = Some p → NoDup (p_children p) → c ∈ p_children p → 0 < c < 2 ^ 63 →
       0 < xstatus → um_ok (p_space p, k_mem k3) xstatus 4 →
       ∃ k4 p', waitpid (S fuel) self c xstatus k3 = Done (Some c) k4 ∧ k_procs k4 !! self = Some p' ∧
         p_children p' = filter (λ x, x ≠ c) (p_children p) ∧
         um_load (p_space p', k_mem k4) xstatus 4 = Ok (encode i32_codec (to_signed 8 code))) ∧
    (-128 ≤ code < 128 → to_signed 8 code = code).
Proof.
  intros Hp Ht Hst. assert (Htt : p_threads pc !! tid = Some t) by (by rewrite Ht, lookup_singleton_eq).
  eexists. split; [by apply sys_exit_run|]. split; [|split; [|apply to_signed_byte]].
  - intros k2 Hk2. rewrite <- exit_byte.
    eapply (exit_thread_status c tid (Th.with_exit_code t (to_signed 8 (Z.land code 255)))); [| | |exact Hk2];
      [apply lookup_insert_eq| |exact Hst].
    simpl. rewrite Ht. apply insert_singleton_eq.
  - intros fuel k3 self p xs Hs Hself Hnd Hc Hcr Hx Hok. unfold status_is in Hs.
    destruct (k_procs k3 !! c) as [cp|] eqn:Hcp; [|done]. injection Hs as Hs.
    destruct (waitpid_reaps fuel self p c cp _ xs k3 Hself Hnd Hc Hcr Hcp Hs Hx Hok) as (k4 & p' & Hw & Hp' & Hch & Hl).
    exists k4, p'. split_and!; [done..|]. rewrite Hl. do 2 f_equal.
    by rewrite <- to_signed_wrapped, wrap_to_signed, to_signed_wrapped.
Qed.
End ending.

(** ** The heap

    [buddy_system_allocator::Heap]: [uh_free] are the bytes it can hand out; a
    request takes a block of a power of two bytes. *)
Definition heap_block (size align : Z) : Z := Z.max (next_power_of_two size) (Z.max align 8).
Class UserHeap := {
  UH : Type;
  uh_new : UH;
  uh_free : UH → Z → Prop;
  uh_alloc : UH → Z → Z → option (Z * UH);
  uh_dealloc : UH → Z → Z → Z → UH;
  uh_add : UH → Z → Z → UH;
  uh_new_free a : ¬ uh_free uh_new a;
  uh_alloc_free h size align ptr h' : uh_alloc h size align = Some (ptr, h') →
    (∀ a, ptr ≤ a < ptr + heap_block size align → uh_free h a) ∧
    (∀ a, uh_free h' a ↔ uh_free h a ∧ ¬ ptr ≤ a < ptr + heap_block size align);
  uh_dealloc_free h ptr size align a :
    uh_free (uh_dealloc h ptr size align) a ↔ uh_free h a ∨ ptr ≤ a < ptr + heap_block size align;
  uh_add_free h s e a : uh_free (uh_add h s e) a → uh_free h a ∨ s ≤ a < e;
}.

Lemma two_in_filter {A} (P : A → Prop) `{∀ x, Decision (P x)} (l : list A) i j x y :
  i ≠ j → l !! i = Some x → l !! j = Some y → P x → P y → (2 ≤ length (filter P l))%nat.
Proof.
  revert i j. induction l as [|z l IH]; intros i j Hne Hi Hj Hx Hy; [done|]. rewrite filter_cons.
  assert (Hone : ∀ n w, l !! n = Some w → P w → (1 ≤ length (filter P l))%nat).
  { intros n w Hn Hw. assert (w ∈ filter P l) as Hf by (apply list_elem_of_filter; split; [done|by eapply list_elem_of_lookup_2]).
    destruct (filter P l); [by apply elem_of_nil in Hf|simpl; lia]. }
  destruct i as [|i], j as [|j]; simpl in *; [done|..]; simplify_eq.
  - rewrite decide_True by done. simpl. apply le_n_S. by eapply Hone.
  - rewrite decide_True by done. simpl. apply le_n_S. by eapply Hone.
  - assert (i ≠ j) by congruence. case_decide; simpl; [apply le_S|]; by eapply (IH i j).
Qed.

Section heap.
Context {BD : Buddy} {KI : KernelImage} {PE : ProcessEnv} {F : Type} {HP : UserHeap}.

Record BrkBasedHeap : Type := mkHeap { hb_brk : Z; hb_buddy : UH }.
(** The process [pid] with its heap *)
Abbreviation user := (Kernel F * BrkBasedHeap)%type.
Definition call_brk (pid brk : Z) : kst user Z := λ s,
  match sys_brk pid brk s.1 with Done r k => Done r (k, s.2) | Fail e k => Fail e (k, s.2) | Crash => Crash end.
Definition put_heap (h : BrkBasedHeap) : kst user () := kmodify (λ s, (s.1, h)).

(** [BrkBasedHeap::new] and [init] *)
Definition heap_init (pid : Z) : kst user () :=
  brk ← call_brk pid 0; put_heap (mkHeap brk uh_new).
Definition heap_alloc (pid size align : Z) : kst user (option Z) :=
  s ← kget;
  let inner := s.2 in
  match uh_alloc (hb_buddy inner) size align with
  | Some (ret, b) => _ ← put_heap (mkHeap (hb_brk inner) b); mret (Some ret)
  | None =>
      npt ← klift (checked 64 (next_power_of_two size));
      let size' := Z.max npt (Z.max align 8) in
      top ← klift (uadd 64 (hb_brk inner) size');
      req ← klift (checked 64 (div_ceil top (PAGE_SIZE * 4) * (PAGE_SIZE * 4)));
      new_brk ← call_brk pid req;
      if new_brk <=? hb_brk inner then mret None
      else
        let b := uh_add (hb_buddy inner) (hb_brk inner) new_brk in
        match uh_alloc b size align with
        | Some (ret, b) => _ ← put_heap (mkHeap new_brk b); mret (Some ret)
        | None => _ ← put_heap (mkHeap new_brk b); mret None
        end
  end.
Definition heap_dealloc (ptr size align : Z) : kst user () :=
  s ← kget; put_heap (mkHeap (hb_brk s.2) (uh_dealloc (hb_buddy s.2) ptr size align)).

(** *** Every run of the allocator

    With the live allocations, the latest first; in between, the kernel may do
    whatever leaves the break of the process alone. *)
Definition break_of (pid : Z) (k : Kernel F) : option Z := (λ p, (p_heap p).2) <$> k_procs k !! pid.
Inductive heap_step (pid : Z) : user * list (Z * Z) → user * list (Z * Z) → Prop :=
| hs_alloc s live size align ptr s' :
    heap_alloc pid size align s = Done (Some ptr) s' →
    heap_step pid (s, live) (s', (ptr, heap_block size align) :: live)
| hs_refused s live size align s' :
    heap_alloc pid size align s = Done None s' → heap_step pid (s, live) (s', live)
| hs_dealloc s live live' ptr size align s' :
    live ≡ₚ (ptr, heap_block size align) :: live' → heap_dealloc ptr size align s = Done () s' →
    heap_step pid (s, live) (s', live')
| hs_kernel k k' h live :
    break_of pid k' = break_of pid k → heap_step pid ((k, h), live) ((k', h), live).

Definition covers (x : Z * Z) (a : Z) : Prop := x.1 ≤ a < x.1 + x.2.
#[global] Instance covers_dec x a : Decision (covers x a).
Proof. unfold covers. apply _. Defined.
Record heap_ok (pid b0 : Z) (s : user * list (Z * Z)) : Prop := {
  ho_brk : break_of pid s.1.1 = Some (hb_brk s.1.2);
  ho_free a : uh_free (hb_buddy s.1.2) a → b0 ≤ a < hb_brk s.1.2 ∧ ∀ x, x ∈ s.2 → ¬ covers x a;
  ho_live x a : x ∈ s.2 → covers x a → b0 ≤ a < hb_brk s.1.2;
  ho_once a : (length (filter (λ x, covers x a) s.2) ≤ 1)%nat;
  ho_base : b0 ≤ hb_brk s.1.2;
}.

(** The kernel answers with the break it then has: the one asked for or the old
    one. *)
Lemma sys_brk_answer pid brk k r k' :
  sys_brk pid brk k = Done r k' → ∃ old, break_of pid k = Some old ∧ break_of pid k' = Some r ∧ (r = brk ∨ r = old).
Proof.
  unfold sys_brk. intros Hr. apply kbind_Done in Hr as (p & k1 & [-> Hp]%proc_Done & Hr).
  apply kbind_Done in Hr as (k1 & k2 & [= <- <-] & Hr). apply kbind_Done in Hr as ([[[r' he] sp] m] & k1 & Hl & Hr).
  unfold klift in Hl. destruct (set_user_brk _ _ _ _ _) as [[[[r2 he2] sp2] m2]| |] eqn:Hs; try done. injection Hl as -> -> -> -> <-.
  assert (Hh : he = r' ∧ (r' = brk ∨ r' = (p_heap p).2)).
  { unfold set_user_brk in Hs. destruct (_ || _); [injection Hs as <- <- _ _; by auto|].
    apply bind_Ok in Hs as ([sp3 m3] & _ & [= <- <- _ _]). by auto. }
  destruct Hh as [-> Hh]. unfold break_of. rewrite Hp. exists (p_heap p).2. split; [done|].
  injection Hr as <- <-. simpl. rewrite lookup_insert_eq. by auto.
Qed.

(** Taking a block *)
Lemma heap_ok_take pid b0 k brk b live size align ptr b' :
  heap_ok pid b0 ((k, mkHeap brk b), live) → uh_alloc b size align = Some (ptr, b') →
  heap_ok pid b0 ((k, mkHeap brk b'), (ptr, heap_block size align) :: live).
Proof.
  intros [H1 H2 H3 H4 H5] [Ha Hf]%uh_alloc_free. simpl in *. split; simpl.
  - done.
  - intros a [Hb Hn]%Hf. destruct (H2 a Hb) as [? Hc]. split; [done|]. intros x [->|Hx]%elem_of_cons; [done|by apply Hc].
  - intros x a [->|Hx]%elem_of_cons Hc; [|by apply (H3 x)]. by apply H2, Ha.
  - intros a. rewrite filter_cons. case_decide as Hd; [|apply H4]. destruct (H2 a (Ha a Hd)) as [_ Hn]. simpl.
    assert (filter (λ x, covers x a) live = []) as ->; [|simpl; lia]. clear -Hn.
    induction live as [|y l IH]; [done|]. rewrite filter_cons_False by (apply Hn; left). apply IH. intros x Hx. apply Hn. by right.
  - done.
Qed.
Lemma heap_ok_grow pid b0 k k' brk b live new_brk :
  heap_ok pid b0 ((k, mkHeap brk b), live) → break_of pid k' = Some new_brk → brk < new_brk →
  heap_ok pid b0 ((k', mkHeap new_brk (uh_add b brk new_brk)), live).
Proof.
  intros [H1 H2 H3 H4 H5] Hk Hlt. simpl in *. split; simpl; [done| | |done|lia].
  - intros a [Hb|Hr]%uh_add_free; [destruct (H2 a Hb); split; [lia|done]|]. split; [lia|].
    intros x Hx Hc. pose proof (H3 x a Hx Hc). lia.
  - intros x a Hx Hc. pose proof (H3 x a Hx Hc). lia.
Qed.

Lemma call_brk_Done pid brk k h r s' :
  call_brk pid brk (k, h) = Done r s' → ∃ k', s' = (k', h) ∧ sys_brk pid brk k = Done r k'.
Proof. unfold call_brk. simpl. destruct (sys_brk pid brk k) as [r' k'| |]; intros [= <- <-]. by eauto. Qed.
Lemma klift_Done {S A} (o : KResult A) (s : S) a s' : klift o s = Done a s' → s' = s ∧ o = Ok a.
Proof. unfold klift. destruct o; [|done..]. by intros [= <- <-]. Qed.

Lemma heap_alloc_ok pid b0 s live size align r s' :
  heap_alloc pid size align s = Done r s' → heap_ok pid b0 (s, live) →
  heap_ok pid b0 (s', match r with Some ptr => (ptr, heap_block size align) :: live | None => live end).
Proof.
  destruct s as [k [brk b]]. unfold heap_alloc. intros Hr Hok.
  apply kbind_Done in Hr as (s & s1 & [= <- <-] & Hr). cbn [snd hb_buddy hb_brk] in Hr.
  destruct (uh_alloc b size align) as [[ret b1]|] eqn:Ha.
  { injection Hr as <- <-. by apply (heap_ok_take _ _ k brk b). }
  apply kbind_Done in Hr as (npt & s1 & [-> _]%klift_Done & Hr). apply kbind_Done in Hr as (top & s1 & [-> Htop]%klift_Done & Hr).
  apply kbind_Done in Hr as (req & s1 & [-> Hreq]%klift_Done & Hr).
  assert (brk < req) as Hlow.
  { apply checked_Ok in Htop as [<- _]. apply checked_Ok in Hreq as [<- _].
    pose proof (div_ceil_spec (brk + Z.max npt (Z.max align 8)) (PAGE_SIZE * 4) ltac:(done)). lia. }
  apply kbind_Done in Hr as (new_brk & s1 & (k' & -> & Hb)%call_brk_Done & Hr).
  destruct (sys_brk_answer _ _ _ _ _ Hb) as (old & Hold & Hnew & Hor).
  pose proof (ho_brk _ _ _ Hok) as Hbrk. simpl in Hbrk. rewrite Hold in Hbrk. injection Hbrk as ->.
  destruct (Z.leb_spec new_brk brk) as [Hle|Hlt].
  { injection Hr as <- <-. assert (new_brk = brk) as -> by (destruct Hor; lia).
    destruct Hok as [H1 H2 H3 H4 H5]. by split. }
  pose proof (heap_ok_grow _ _ k k' brk b live new_brk Hok Hnew Hlt) as Hg.
  destruct (uh_alloc (uh_add b brk new_brk) size align) as [[ret b1]|] eqn:Ha2; injection Hr as <- <-; [|exact Hg].
  by apply (heap_ok_take _ _ k' new_brk (uh_add b brk new_brk)).
Qed.
Lemma heap_step_ok pid b0 s s' : heap_step pid s s' → heap_ok pid b0 s → heap_ok pid b0 s'.
Proof.
  intros Hs Hok. destruct Hs as [s live size align ptr s' Hr|s live size align s' Hr|s live live' ptr size align s' Hp Hr|k k' h live Hb].
  - by eapply (heap_alloc_ok pid b0 s live size align (Some ptr)).
  - by eapply (heap_alloc_ok pid b0 s live size align None).
  - destruct s as [k [brk b]]. injection Hr as <-. destruct Hok as [H1 H2 H3 H4 H5]. simpl in *.
    assert (Hin : ∀ x, x ∈ live' → x ∈ live) by (intros x Hx; rewrite Hp; by right).
    assert (Hblk : (ptr, heap_block size align) ∈ live) by (rewrite Hp; left).
    split; simpl; [done| | | |done].
    + intros a [Hf|Hc]%uh_dealloc_free.
      * destruct (H2 a Hf) as [? Hn]. split; [done|]. intros x Hx. by apply Hn, Hin.
      * split; [by apply (H3 _ a Hblk)|]. intros x Hx Hxc. specialize (H4 a). rewrite Hp in H4.
        rewrite filter_cons_True in H4 by done. simpl in H4.
        assert (x ∈ filter (λ x, covers x a) live') as Hxf by (by apply list_elem_of_filter).
        apply list_elem_of_split in Hxf as (l1 & l2 & E). rewrite E, length_app in H4. simpl in H4. lia.
    + intros x a Hx. apply H3. by apply Hin.
    + intros a. specialize (H4 a). rewrite Hp, filter_cons in H4. case_decide; simpl in H4; lia.
  - destruct Hok as [H1 H2 H3 H4 H5]. split; simpl in *; [congruence|done..].
Qed.

(** C20: the library's heap hands out memory of its own. From [init] on, over every
    sequence of allocations, refusals, releases and other work of the kernel on the
    process: every byte of a live allocation lies above the break the program
    started with and below the break the kernel has now, no byte belongs to two
    live allocations, and the library and the kernel agree on the break. *)
Theorem heap_safe pid k h s0 s live :
  heap_init pid (k, h) = Done () s0 → rtc (heap_step pid) (s0, []) (s, live) →
  ∃ b0, break_of pid s0.1 = Some b0 ∧ break_of pid s.1 = Some (hb_brk s.2) ∧
    (∀ x a, x ∈ live → x.1 ≤ a < x.1 + x.2 → b0 ≤ a < hb_brk s.2) ∧
    (∀ i j x y a, live !! i = Some x → live !! j = Some y → x.1 ≤ a < x.1 + x.2 → y.1 ≤ a < y.1 + y.2 → i = j).
Proof.
  intros Hi Hr. unfold heap_init in Hi. apply kbind_Done in Hi as (brk & s1 & (k1 & -> & Hb)%call_brk_Done & Hi).
  injection Hi as <-. destruct (sys_brk_answer _ _ _ _ _ Hb) as (_ & _ & Hnew & _).
  rename brk into b0. exists b0. assert (heap_ok pid b0 (s, live)) as [H1 H2 H3 H4 H5].
  { assert (heap_ok pid b0 ((k1, mkHeap b0 uh_new), [])) as H0.
    { split; simpl; [done|intros a Ha; by apply uh_new_free in Ha|intros x a Hx; by apply elem_of_nil in Hx|simpl; lia|done]. }
    revert H0. remember ((k1, mkHeap b0 uh_new), []) as x eqn:Ex. remember (s, live) as y eqn:Ey. clear -Hr.
    induction Hr as [|x y z Hs _ IH]; [done|]. intros H0. apply IH. by eapply heap_step_ok. }
  simpl in *. split_and!; [done|done|exact H3|]. intros i j x y a Hi Hj Hx Hy. specialize (H4 a).
  destruct (decide (i = j)) as [|Hne]; [done|]. exfalso.
  pose proof (two_in_filter (λ x, covers x a) live i j x y Hne Hi Hj Hx Hy). lia.
Qed.
End heap.

(** ** Output

    [write] is the system call on a state [S]: the [isize] it returns. *)
Definition STDOUT : Z := 1.
Definition CONSOLE_BUFFER_SIZE : nat := 256 * 10.
Section output.
Context {S : Type} (write : Z → list Z → S → Z * S).

(** [write_all]; [fuel] bounds the calls. *)
Fixpoint write_all_loop (fuel : nat) (fd : Z) (buf : list Z) (n_write : Z) (s : S) : option (Z * S) :=
  match fuel with
  | O => None
  | Datatypes.S fuel =>
      if n_write <? Z.of_nat (length buf) then
        let '(ret, s) := write fd buf s in
        if ret <? 0 then Some (ret, s)
        else if ret =? 0 then Some (to_signed 64 n_write, s)
        else write_all_loop fuel fd buf (wrap 64 (n_write + ret)) s
      else Some (to_signed 64 n_write, s)
  end.
Definition write_all (fuel : nat) (fd : Z) (buf : list Z) (s : S) : option (Z * S) := write_all_loop fuel fd buf 0 s.

(** [ConsoleBuffer]: [flush] and [write_str]; [false] is [fmt::Error]. *)
Definition console_flush (st : list Z * S) : Z * (list Z * S) :=
  let '(ret, s) := write STDOUT st.1 st.2 in (ret, ([], s)).
Fixpoint write_str (text : list Z) (st : list Z * S) : bool * (list Z * S) :=
  match text with
  | [] => (true, st)
  | c :: text =>
      let st := (st.1 ++ [c], st.2) in
      if (c =? 10) || (length st.1 =? CONSOLE_BUFFER_SIZE)%nat then
        let '(ret, st) := console_flush st in
        if -1 =? ret then (false, st) else write_str text st
      else write_str text st
  end.

(** On a file that takes everything the output is what was printed, in order;
    what is not out yet is in the buffer, which never fills up. *)
Variable out : S → list Z.
Hypothesis write_whole : ∀ b s, (write STDOUT b s).1 = Z.of_nat (length b) ∧ out (write STDOUT b s).2 = out s ++ b.
Lemma console_flush_out st : let st' := (console_flush st).2 in out st'.2 ++ st'.1 = out st.2 ++ st.1 ∧ st'.1 = [].
Proof.
  unfold console_flush. destruct (write_whole st.1 st.2) as [_ Ho]. destruct (write STDOUT st.1 st.2) as [r s]. simpl in *.
  by rewrite Ho, app_nil_r.
Qed.
Lemma write_str_out text : ∀ st, (length st.1 < CONSOLE_BUFFER_SIZE)%nat →
  ∃ st', write_str text st = (true, st') ∧ out st'.2 ++ st'.1 = out st.2 ++ st.1 ++ text ∧
         (length st'.1 < CONSOLE_BUFFER_SIZE)%nat.
Proof.
  induction text as [|c text IH]; intros st Hl; cbn [write_str]; [exists st; by rewrite app_nil_r|].
  assert (Hnil : out st.2 ++ (st.1 ++ [c]) ++ text = out st.2 ++ st.1 ++ c :: text) by (by rewrite <- !app_assoc).
  destruct ((c =? 10) || _) eqn:Hc.
  - pose proof (console_flush_out (st.1 ++ [c], st.2)) as [Ho He]. destruct (write_whole (st.1 ++ [c]) st.2) as [Hr _].
    unfold console_flush in *. cbn [fst snd] in *. destruct (write STDOUT (st.1 ++ [c]) st.2) as [ret s]. cbn [fst snd] in *.
    rewrite (proj2 (Z.eqb_neq (-1) ret)) by lia.
    destruct (IH ([], s)) as (st' & Hw & Hst & Hl'); [unfold CONSOLE_BUFFER_SIZE; simpl; lia|].
    exists st'. split; [done|]. split; [|done]. cbn [fst snd] in Hst. rewrite Hst, <- Hnil, (app_assoc (out st.2)), <- Ho, <- app_assoc. done.
  - apply orb_false_iff in Hc as [_ Hc%Nat.eqb_neq]. cbn [fst snd] in Hc. rewrite length_app in Hc. simpl in Hc.
    destruct (IH (st.1 ++ [c], st.2)) as (st' & Hw & Hst & Hl'); [cbn [fst]; rewrite length_app; simpl; lia|].
    exists st'. split; [done|]. split; [|done]. rewrite Hst. exact Hnil.
Qed.
End output.

(** A file that takes one byte a time gets the first byte again and again. *)
Lemma write_all_repeats :
  let one (_ : Z) (b : list Z) (o : list Z) := (1, o ++ take 1 b) in
  write_all one 4 STDOUT [97; 98; 99] [] = Some (3, [97; 97; 97]).
Proof. reflexivity. Qed.
(** An error other than [EPERM] is not noticed: the line is lost, the print has
    succeeded. *)
Lemma print_ignores_error :
  let bad (_ : Z) (_ : list Z) (o : list Z) := (as_isize EBADF, o) in
  write_str bad [104; 105; 10] ([], []) = (true, ([], [])).
Proof. reflexivity. Qed.

(** Process 2 of two ends with [exit(-4)]; its parent waits with a variable on a page
    of its heap. *)
Module UserDemo.
Definition child_thread : Thread := Th.new 0 (start_context 0 0 0 0) 0.
Definition child (st : Z) : Process () :=
  mkProcess [] 0 st None demo_space (0x10000, 0x20000) (Some 1) [] 0 (with_stdio ()) Handlers.new (mkAllocator 1 []) {[0 := child_thread]}.
Definition parent (sp : MemorySpace) : Process () :=
  mkProcess [] 0 ProcessStatus.normal None sp (0x10000, 0x20000) None [2] 0 (with_stdio ()) Handlers.new (mkAllocator 1 []) {[0 := child_thread]}.
Definition two (sp : MemorySpace) (m : Mem) (st : Z) : Kernel () :=
  mkKernel m (<[1 := parent sp]> {[2 := child st]}) {[1; 2]} (mkAllocator 3 []) false.

Lemma touched_page :
  ∃ sp m, handle_memory_exception demo_mem demo_space 0x12345 false = Ok (true, sp, m) ∧ um_ok (sp, m) 0x12344 4.
Proof.
  destruct (handle_memory_exception_spec demo_mem demo_space 0x12345 demo_space_inv
    ltac:(lia) ltac:(vm_compute; lia)) as (_ & _ & Hf & _).
  destruct (Hf _ demo_area eq_refl eq_refl) as (ppn & sp' & m' & He & Hi & _ & Ht & _).
  exists sp', m'. split; [exact He|].
  assert (Hpg : ∀ i, 0x12344 ≤ i < 0x12344 + Z.of_nat 4 → VirtAddr.vpn_floor i = 0x12).
  { intros i Hr. unfold VirtAddr.vpn_floor. rewrite Z.shiftr_div_pow2 by done. symmetry. apply (Z.div_unique i 4096 0x12 (i - 0x12000)); lia. }
  split_and!; [exact Hi|simpl; lia|simpl; unfold_config; lia| |].
  - intros i Hr. exists ppn, 23. cbn [fst snd]. rewrite (Hpg i Hr). split; [exact Ht|]. by vm_compute.
  - intros i j p fl fl' Hri Hrj _ _. by rewrite (Hpg i Hri), (Hpg j Hrj).
Qed.

Lemma exit_code_roundtrip_witness :
  ∃ sp m k1 k4 p', sys_exit 2 0 (-4) (two sp m ProcessStatus.normal) = Fail BREAK k1 ∧
    waitpid 1 1 2 0x12344 (two sp m (ProcessStatus.zombie (-4))) = Done (Some 2) k4 ∧
    k_procs k4 !! 1 = Some p' ∧ p_children p' = [] ∧
    um_load (p_space p', k_mem k4) 0x12344 4 = Ok [252; 255; 255; 255].
Proof.
  destruct touched_page as (sp & m & _ & Hok). exists sp, m.
  destruct (exit_code_roundtrip (-4) 2 0 child_thread (child ProcessStatus.normal) (two sp m ProcessStatus.normal))
    as (k1 & H1 & _ & H3 & _); [reflexivity|reflexivity|reflexivity|].
  destruct (H3 O (two sp m (ProcessStatus.zombie (-4))) 1 (parent sp) 0x12344) as (k4 & p' & H4 & H5 & H6 & H7);
    [reflexivity|reflexivity|apply NoDup_singleton|apply list_elem_of_singleton; reflexivity|lia|lia|exact Hok|].
  exists k1, k4, p'. split; [exact H1|]. split; [exact H4|]. split; [exact H5|]. split; [exact H6|exact H7].
Defined.

(** An allocator with naturally aligned blocks: a predicate on bytes, searched for the
    lowest free block. *)
Fixpoint all_free (h : Z → bool) (p : Z) (n : nat) : bool :=
  match n with O => true | S n => if h p then all_free h (p + 1) n else false end.
Fixpoint search_block (h : Z → bool) (blk : nat) (p : Z) (n : nat) : option Z :=
  match n with
  | O => None
  | S n => if all_free h p blk then Some p else search_block h blk (p + Z.of_nat blk) n
  end.
Definition find_block (h : Z → bool) (blk : Z) : option Z := search_block h (Z.to_nat blk) 0 (Z.to_nat (0x40000 / blk)).
Lemma all_free_spec h n : ∀ p, all_free h p n = true → ∀ a, p ≤ a < p + Z.of_nat n → h a = true.
Proof.
  induction n as [|n IH]; intros p Hf a Ha; [lia|]. simpl in Hf. destruct (h p) eqn:Hp; [|done].
  destruct (decide (a = p)) as [->|]; [done|]. apply (IH (p + 1)); [done|lia].
Qed.
Lemma search_block_spec h blk n : ∀ p q, search_block h blk p n = Some q → all_free h q blk = true.
Proof.
  induction n as [|n IH]; intros p q; simpl; [done|]. destruct (all_free h p blk) eqn:Hf; [by intros [= <-]|apply IH].
Qed.
Definition except (h : Z → bool) (p blk : Z) : Z → bool := λ a, h a && negb ((p <=? a) && (a <? p + blk)).
Definition join (h : Z → bool) (p blk : Z) : Z → bool := λ a, h a || ((p <=? a) && (a <? p + blk)).
Lemma in_block_true p blk a : (p <=? a) && (a <? p + blk) = true ↔ p ≤ a < p + blk.
Proof. rewrite andb_true_iff, Z.leb_le, Z.ltb_lt. done. Qed.
#[export] Program Instance ByteHeap : UserHeap := {|
  UH := Z → bool; uh_new _ := false; uh_free h a := h a = true;
  uh_alloc h size align :=
    let blk := heap_block size align in p ← find_block h blk; Some (p, except h p blk);
  uh_dealloc h p size align := join h p (heap_block size align);
  uh_add h s e := join h s (e - s);
|}.
Next Obligation. done. Qed.
Next Obligation.
  intros h size align ptr h'. simpl. set (blk := heap_block size align).
  destruct (find_block h blk) as [p|] eqn:Hf; simpl; [|done]. intros [= <- <-]. unfold find_block in Hf.
  apply search_block_spec in Hf. split.
  - intros a Ha. apply (all_free_spec _ _ _ Hf). lia.
  - intros a. unfold except. rewrite andb_true_iff, negb_true_iff, <- not_true_iff_false, in_block_true. done.
Qed.
Next Obligation. intros h p size align a. simpl. unfold join. by rewrite orb_true_iff, in_block_true. Qed.
Next Obligation. intros h s e a. simpl. unfold join. rewrite orb_true_iff, in_block_true. intros [?|?]; [by left|right; lia]. Qed.

Definition urun {S A} (c : kst S A) (s : S) : S := match c s with Done _ s' => s' | _ => s end.
Definition u0 : Kernel () * BrkBasedHeap := urun (heap_init 1) (MemDemo.kern, mkHeap 0 uh_new).
Definition u1 : Kernel () * BrkBasedHeap := urun (heap_alloc 1 100 8) u0.
Definition u2 : Kernel () * BrkBasedHeap := urun (heap_alloc 1 0x8000 8) u1.
Lemma kvalue_run {S A} (c : kst S A) s a : kvalue (c s) = Some a → c s = Done a (urun c s).
Proof. unfold urun. destruct (c s); simpl; congruence. Qed.

(** A hundred bytes at the old break *)
Lemma heap_safe_witness :
  break_of 1 u1.1 = Some (hb_brk u1.2) ∧ ∀ x a, x ∈ [(0x20000, 128)] → x.1 ≤ a < x.1 + x.2 → 0x20000 ≤ a < hb_brk u1.2.
Proof.
  destruct (heap_safe 1 MemDemo.kern (mkHeap 0 uh_new) u0 u1 [(0x20000, 128)]) as (b0 & H1 & H2 & H3 & _).
  - apply kvalue_run. vm_compute. reflexivity.
  - apply rtc_once. change 128 with (heap_block 100 8). apply hs_alloc. apply kvalue_run. vm_compute. reflexivity.
  - assert (break_of 1 u0.1 = Some 0x20000) as Hb by (vm_compute; reflexivity).
    rewrite Hb in H1. injection H1 as <-. split; [exact H2|exact H3].
Defined.
(** The next request is for 32 KiB: the kernel grants them, but the new memory does
    not start at a multiple of the block, and the allocation fails. *)
Lemma heap_alloc_wastes :
  heap_alloc 1 0x8000 8 u1 = Done None u2 ∧ break_of 1 u1.1 = Some 0x24000 ∧ break_of 1 u2.1 = Some 0x2c000.
Proof.
  split; [|by vm_compute]. unfold u2. apply (kvalue_run (heap_alloc 1 0x8000 8) u1 None). by vm_compute.
Qed.
End UserDemo.
