(* ===== verification/UserStart.v ===== *)
(** * From [execve] to [main]: the arguments of a program

    [_start] of [user/src/lib.rs] turns the registers and the stack that the kernel
    gives a program into the arguments of its [main]. The stack is the one
    [init_stack] fills; this file shows that it can be filled, byte for byte, and
    that [_start] reads back what was put in. *)
From S2P Require Import Prelude BTree Address Defines FrameAllocator PageTable VmArea MemorySpace InitStack UserCheck Trap Process ProcessSteps.

Section start.
Context `{Buddy, KernelImage}.

(** ** [_start] *)
(** [(argv + i * 8).read_volatile()] *)
Definition read_usize (m : Mem) (sp : MemorySpace) (addr : Z) : KResult Z :=
  let? bs := user_load m sp addr 8 in Ok (from_le_bytes bs).
(** [(0usize..).find(|i| (str_start + i).read_volatile() == 0)] *)
Fixpoint find_nul (fuel : nat) (m : Mem) (sp : MemorySpace) (str_start i : Z) : KResult Z :=
  match fuel with
  | O => Panic
  | S fuel =>
      let? b := unwrap (mmu_load m sp (str_start + i)) in
      if b =? 0 then Ok i else find_nul fuel m sp str_start (i + 1)
  end.
(** The loop over [0..argc], from [i] on *)
Fixpoint start_args (fuel : nat) (m : Mem) (sp : MemorySpace) (argv i : Z) (n : nat) : KResult (list (list Z)) :=
  match n with
  | O => Ok []
  | S n =>
      let? str_start := read_usize m sp (argv + i * 8) in
      let? len := find_nul fuel m sp str_start 0 in
      let? bs := user_load m sp str_start (Z.to_nat len) in
      check (valid_utf8 bs) in
      let? v := start_args fuel m sp argv (i + 1) n in
      Ok (bs :: v)
  end.

(** ** The stack can be filled

    [b] is the lowest page the image reaches: three frames for each page from
    there to the stack pointer are enough. *)
Definition roomy (b perm : Z) (st : StackInitCtx) : Prop :=
  a_perm (st_area st) = perm ∧ 3 * (user_sp st / PAGE_SIZE - b) ≤ Z.of_nat (free_count (st_mem st)).

Lemma free_count_write_phys m ppn off bs : free_count (write_phys m ppn off bs) = free_count m.
Proof. revert m off. induction bs as [|x bs IH]; intros m off; simpl; [done|]. by rewrite IH. Qed.

Lemma push_total s e b perm st bs new :
  stk s e st bs → roomy b perm st → e * PAGE_SIZE < 2 ^ 64 → 0 ≤ s ≤ b → 0 < Z.of_nat (length new) ≤ PAGE_SIZE →
  fits (user_sp st) (Z.of_nat (length new)) → b * PAGE_SIZE ≤ user_sp st - Z.of_nat (length new) →
  ∃ st', push st new = Ok st' ∧ roomy b perm st'.
Proof.
  intros Hs [Hperm Hroom] He Hb Hn Hfit Hlow. pose proof (stk_sp _ _ _ _ Hs) as Hsp. destruct Hs as (Hr & Hst & Hen).
  set (n := Z.of_nat (length new)) in *. unfold push. fold n. unfold sp_down.
  assert (0 ≤ PAGE_SIZE) by (rewrite PAGE_SIZE_eq; lia).
  unfold usub. rewrite checked_fits by nia. cbn [mbind outcome_bind]. rewrite Z.sub_add.
  destruct (user_sp st mod PAGE_SIZE =? 0) eqn:Hal.
  - apply Z.eqb_eq in Hal. destruct (sr_inv Hr) as (M & Hg & Ha). rewrite vpn_floor_div.
    assert (Hin : in_area (st_area st) ((user_sp st - n) / PAGE_SIZE)).
    { unfold in_area. rewrite Hst, Hen. rewrite PAGE_SIZE_eq in *. lia_div. }
    destruct (ensure_allocated_total (st_mem st) (st_pt st) M (st_area st) ((user_sp st - n) / PAGE_SIZE) Hg Ha Hin (sr_lazy Hr))
      as (ppn & a' & pt' & m' & Hea & Hc).
    { assert (1 ≤ user_sp st / PAGE_SIZE - b)%Z by (rewrite PAGE_SIZE_eq in *; lia_div). lia. }
    rewrite Hea. cbn [mbind outcome_bind user_sp cur_page st_mem st_area st_pt unwrap]. eexists. split; [reflexivity|].
    destruct (ensure_allocated_ok _ _ M _ _ _ _ _ _ Hg Ha Hin Hea) as (_ & _ & _ & Heq & _).
    split; cbn [st_area st_mem user_sp]; [by rewrite Heq|]. rewrite free_count_write_phys.
    assert ((user_sp st - n) / PAGE_SIZE = user_sp st / PAGE_SIZE - 1) as -> by (rewrite PAGE_SIZE_eq in *; lia_div). lia.
  - apply Z.eqb_neq in Hal. destruct (sr_cur Hr Hal) as (p & Hp & _). cbn [mbind outcome_bind user_sp cur_page st_mem st_area st_pt].
    rewrite Hp. cbn [unwrap mbind outcome_bind]. eexists. split; [reflexivity|].
    split; cbn [st_area st_mem user_sp]; [done|]. rewrite free_count_write_phys.
    destruct Hfit as [?|Hfit]; [done|].
    assert ((user_sp st - n) / PAGE_SIZE = user_sp st / PAGE_SIZE) as -> by (rewrite PAGE_SIZE_eq in *; lia_div). done.
Qed.
(** *** Along [init_stack_impl] *)
Section fill.
Context (s e b perm : Z) (Hs0 : 0 ≤ s ≤ b) (He : e * PAGE_SIZE < 2 ^ 64).
Definition fill (st : StackInitCtx) (bs : list Z) : Prop := stk s e st bs ∧ roomy b perm st.
(** [n] more bytes stay above the page [b]. *)
Definition room (bs : list Z) (n : nat) : Prop := b * PAGE_SIZE + Z.of_nat (n + length bs) ≤ e * PAGE_SIZE.

Lemma room_stk bs n : room bs n → Z.of_nat (n + length bs) ≤ (e - s) * PAGE_SIZE.
Proof. unfold room. rewrite PAGE_SIZE_eq. lia. Qed.
Lemma fill_push st bs new :
  fill st bs → 0 < Z.of_nat (length new) ≤ PAGE_SIZE → fits (user_sp st) (Z.of_nat (length new)) → room bs (length new) →
  ∃ st', push st new = Ok st' ∧ fill st' (new ++ bs).
Proof.
  intros [Hs Hr] Hn Hf Hroom. pose proof (stk_sp _ _ _ _ Hs) as Hsp.
  destruct (push_total s e b perm st bs new Hs Hr He Hs0 Hn Hf) as (st' & Hp & Hr'); [unfold room in Hroom; lia|].
  exists st'. split; [done|]. split; [|done]. eapply push_stk; [done|done|done|by apply room_stk|done].
Qed.
Lemma fill_byte st bs x : fill st bs → room bs 1 → ∃ st', push_byte st x = Ok st' ∧ fill st' (x :: bs).
Proof.
  intros Hf Hr. apply (fill_push st bs [x]); [done|rewrite PAGE_SIZE_eq; simpl; lia| |done].
  unfold fits. simpl. rewrite PAGE_SIZE_eq. lia_div.
Qed.
Lemma fill_usize st bs n : fill st bs → fits (user_sp st) 8 → room bs 8 → ∃ st', push_usize st n = Ok st' ∧ fill st' (le8 n ++ bs).
Proof.
  intros Hf Hfit Hr. apply (fill_push st bs (to_le_bytes 8 n)); rewrite ?length_to_le_bytes; [done|rewrite PAGE_SIZE_eq; lia|done|done].
Qed.
Lemma fill_bytes l st bs : fill st bs → room bs (length l) → ∃ st', push_bytes st l = Ok st' ∧ fill st' (rev l ++ bs).
Proof.
  unfold room. revert st bs. induction l as [|x l IH]; intros st bs Hf Hr; simpl in *; [by exists st|].
  destruct (fill_byte st bs x Hf) as (st1 & -> & Hf1); [unfold room; lia|]. cbn [mbind outcome_bind].
  destruct (IH st1 (x :: bs) Hf1) as (st' & -> & Hf'); [simpl; lia|]. exists st'. by rewrite <- app_assoc.
Qed.
Lemma fill_str x st bs : fill st bs → room bs (length x + 1) → ∃ st' p, push_str st x = Ok (p, st') ∧ fill st' (x ++ [0] ++ bs).
Proof.
  unfold room. intros Hf Hr. unfold push_str. destruct (fill_byte st bs 0 Hf) as (st1 & -> & Hf1); [unfold room; lia|].
  cbn [mbind outcome_bind]. destruct (fill_bytes (rev x) st1 (0 :: bs) Hf1) as (st2 & -> & Hf2); [unfold room; rewrite length_rev; simpl; lia|].
  eexists st2, _. split; [reflexivity|]. by rewrite rev_involutive in Hf2.
Qed.
Lemma fill_strs l st bs : fill st bs → room bs (length (strs_image l)) →
  ∃ st' ps, push_strs st l = Ok (ps, st') ∧ fill st' (strs_image l ++ bs) ∧ length ps = length l.
Proof.
  unfold room. revert st bs. induction l as [|x l IH]; intros st bs Hf Hr; simpl in *; [by exists st, []|].
  rewrite !length_app in Hr. simpl in Hr.
  destruct (fill_str x st bs Hf) as (st1 & p & -> & Hf1); [unfold room; lia|]. cbn [mbind outcome_bind].
  destruct (IH st1 (x ++ [0] ++ bs) Hf1) as (st2 & ps & -> & Hf2 & Hl); [rewrite !length_app; simpl; lia|]. cbn [mbind outcome_bind].
  eexists st2, _. split; [reflexivity|]. split; [by rewrite <- !app_assoc|]. simpl. by rewrite Hl.
Qed.
(** Aligned words *)
Definition filla (st : StackInitCtx) (bs : list Z) : Prop := fill st bs ∧ user_sp st mod 8 = 0.
Lemma filla_usizes ns st bs : filla st bs → room bs (8 * length ns) →
  ∃ st', push_usizes st ns = Ok st' ∧ filla st' (words (rev ns) ++ bs).
Proof.
  unfold room. revert st bs. induction ns as [|n ns IH]; intros st bs [Hf Ha] Hr; simpl in *; [by exists st|].
  destruct (fill_usize st bs n Hf (fits_aligned _ Ha)) as (st1 & Hp & Hf1); [unfold room; lia|].
  pose proof (push_usize_sp _ _ _ Hp). rewrite Hp. cbn [mbind outcome_bind].
  destruct (IH st1 (le8 n ++ bs)) as (st' & -> & Hf'); [split; [done|lia_div]|rewrite length_app, length_le8; lia|].
  exists st'. split; [done|]. by rewrite words_app, words_single, <- app_assoc.
Qed.
Lemma filla_usize n st bs : filla st bs → room bs 8 → ∃ st', push_usize st n = Ok st' ∧ filla st' (le8 n ++ bs).
Proof.
  intros Hf Hr. destruct (filla_usizes [n] st bs Hf Hr) as (st' & Hp & Hf'). exists st'. simpl in Hp.
  destruct (push_usize st n); [|done..]. split; [done|]. change (rev [n]) with [n] in Hf'. by rewrite words_single in Hf'.
Qed.
Lemma fill_align st bs : fill st bs → room bs 8 → filla (align_sp st) (replicate (Z.to_nat (user_sp st mod 8)) 0 ++ bs).
Proof.
  intros [Hs [Hp Hr]] Hroom. pose proof (room_stk _ _ Hroom). destruct (align_sp_stk s e st bs Hs) as [Hs' Ha]; [lia|lia|].
  split; [|done]. split; [done|]. split; [done|]. cbn [align_sp user_sp st_mem] in Ha |- *.
  change 7 with (Z.ones 3) in Ha |- *. rewrite <- Z.ldiff_land, Z.ldiff_ones_r in Ha |- * by lia.
  rewrite Z.shiftr_div_pow2, Z.shiftl_mul_pow2 in * by lia.
  replace (user_sp st / 2 ^ 3 * 2 ^ 3 / PAGE_SIZE) with (user_sp st / PAGE_SIZE); [done|].
  rewrite PAGE_SIZE_eq. change (2 ^ 3) with 8. lia_div.
Qed.

Lemma length_strs_layout top l : length (strs_layout top l) = length l.
Proof. revert top. induction l as [|x l IH]; intros top; simpl; [done|]. by rewrite IH. Qed.
Ltac room :=
  unfold room, tail_words, strings_image in *;
  rewrite ?length_app, ?length_words, ?length_rev, ?length_app, ?length_rev, ?length_le8, ?length_replicate, ?length_strs_layout in *;
  simpl length in *; lia.
(** The words below the alignment *)
Lemma init_tail st bs random_pos argc envp argv auxv :
  filla st bs → room bs (8 * length (tail_words random_pos argc envp argv auxv)) →
  ∃ r, (let? st := push_usize st 0 in
   let? st := push_usize st 0 in
   let? st := push_usize st AT_RANDOM in
   let? st := push_usize st random_pos in
   let? st := push_auxv st auxv in
   let? st := push_usize st 0 in
   let? st := push_ptrs st envp in
   let? st := push_usize st 0 in
   let? st := push_ptrs st argv in
   let? st1 := push_usize st argc in
   Ok (user_sp st1, user_sp st, st1)) = Ok r ∧ a_perm (st_area r.2) = perm.
Proof.
  intros F0 Hroom.
  destruct (filla_usize 0 st _ F0) as (s1 & -> & F1); [room|]. cbn [mbind outcome_bind].
  destruct (filla_usize 0 s1 _ F1) as (s2 & -> & F2); [room|]. cbn [mbind outcome_bind].
  destruct (filla_usize AT_RANDOM s2 _ F2) as (s3 & -> & F3); [room|]. cbn [mbind outcome_bind].
  destruct (filla_usize random_pos s3 _ F3) as (s4 & -> & F4); [room|]. cbn [mbind outcome_bind].
  rewrite push_auxv_words. destruct (filla_usizes (aux_words auxv) s4 _ F4) as (s5 & -> & F5); [room|]. cbn [mbind outcome_bind].
  destruct (filla_usize 0 s5 _ F5) as (s6 & -> & F6); [room|]. cbn [mbind outcome_bind].
  unfold push_ptrs. destruct (filla_usizes (rev envp) s6 _ F6) as (s7 & -> & F7); [room|]. cbn [mbind outcome_bind].
  destruct (filla_usize 0 s7 _ F7) as (s8 & -> & F8); [room|]. cbn [mbind outcome_bind].
  destruct (filla_usizes (rev argv) s8 _ F8) as (s9 & -> & F9); [room|]. cbn [mbind outcome_bind].
  destruct (filla_usize argc s9 _ F9) as (s10 & -> & [[_ [F10 _]] _]); [room|]. cbn [mbind outcome_bind].
  eexists. split; [reflexivity|done].
Qed.
Lemma init_stack_total t1 t2 st args envs auxv :
  fill st [] → fits (e * PAGE_SIZE - 24 - Z.of_nat (length (strs_image envs))) 8 →
  room [] (length (stack_image t1 t2 (e * PAGE_SIZE) args envs auxv)) →
  ∃ sp argv_base st', init_stack_impl t1 t2 st args envs auxv = Ok (sp, argv_base, st') ∧ a_perm (st_area st') = perm.
Proof.
  intros Hf Hfit Hroom. pose proof (stk_sp _ _ _ _ (proj1 Hf)) as Hsp. rewrite stack_image_words in Hroom. cbv zeta in Hroom.
  assert (Hfa : filla st []). { split; [done|]. rewrite Hsp, PAGE_SIZE_eq. simpl. lia_div. }
  unfold init_stack_impl.
  destruct (filla_usize 0 st [] Hfa) as (s1 & -> & F1); [room|]. cbn [mbind outcome_bind].
  destruct (filla_usize t1 s1 _ F1) as (s2 & -> & F2); [room|]. cbn [mbind outcome_bind].
  destruct (filla_usize t2 s2 _ F2) as (s3 & -> & [F3 _]); [room|]. cbn [mbind outcome_bind].
  destruct (fill_strs envs s3 _ F3) as (s4 & envp & -> & F4 & Hle); [room|]. cbn [mbind outcome_bind].
  destruct (fill_usize s4 _ 0 F4) as (s5 & -> & F5); [|room|].
  { rewrite (stk_sp _ _ _ _ (proj1 F4)), !length_app, !length_le8. revert Hfit.
    match goal with |- fits ?x _ → fits ?y _ => replace y with x by (simpl length; lia) end. done. }
  cbn [mbind outcome_bind].
  destruct (fill_strs args s5 _ F5) as (s6 & argv & -> & F6 & Hla); [room|]. cbn [mbind outcome_bind].
  assert (Hsp6 : e * PAGE_SIZE - Z.of_nat (length (strings_image t1 t2 args envs)) = user_sp s6).
  { rewrite (stk_sp _ _ _ _ (proj1 F6)). clear Hroom. room. }
  rewrite Hsp6 in Hroom.
  pose proof (fill_align s6 _ F6 ltac:(room)) as F7.
  destruct (init_tail _ _ (user_sp s3) (Z.of_nat (length args)) envp argv auxv F7) as ([[sp ab] st'] & Hr & Hp).
  { room. }
  exists sp, ab, st'. split; [exact Hr|exact Hp].
Qed.
End fill.

(** ** What the program sees *)
Lemma stk_load s e st bs sp :
  stk s e st bs → page_table sp = st_pt st → Flags.contains (leaf_flags (a_perm (st_area st))) PTEFlags.R = true →
  ∀ a, user_sp st ≤ a < e * PAGE_SIZE → mmu_load (st_mem st) sp a = bs !! Z.to_nat (a - user_sp st).
Proof.
  intros (Hr & Hst & He) Hpt HR a Ha. destruct (sr_inv Hr) as (M & Hg & Hai).
  destruct (sr_bytes Hr a) as (p & Hp & ->); [lia|]. destruct (ai_unbacked Hai _ _ Hp) as [Hv HM].
  unfold mmu_load, translate. rewrite Hpt, vpn_floor_div.
  pose proof (ai_range Hai). rewrite (pg_walk Hg) by lia. rewrite HM. cbn [fmap option_fmap option_map pi_ppn pi_flags].
  by rewrite HR, page_offset_mod.
Qed.

Section reading.
Context (m : Mem) (sp : MemorySpace) (base : Z) (bs : list Z).
Context (Hload : ∀ i b, bs !! i = Some b → mmu_load m sp (base + Z.of_nat i) = Some b).
Lemma load_piece pre x post : bs = pre ++ x ++ post → user_load m sp (base + Z.of_nat (length pre)) (length x) = Ok x.
Proof.
  intros Hbs. apply user_load_Ok. split; [done|]. intros k Hk.
  destruct (lookup_lt_is_Some_2 x (Z.to_nat k)) as [b Hb]; [lia|]. rewrite Hb.
  replace (base + Z.of_nat (length pre) + k) with (base + Z.of_nat (length pre + Z.to_nat k)) by lia.
  apply Hload. rewrite Hbs, lookup_app_r, lookup_app_l by lia. by replace (length pre + Z.to_nat k - length pre)%nat with (Z.to_nat k) by lia.
Qed.
Lemma find_nul_piece fuel pre x post :
  bs = pre ++ x ++ 0 :: post → 0 ∉ x → (length x < fuel)%nat →
  find_nul fuel m sp (base + Z.of_nat (length pre)) 0 = Ok (Z.of_nat (length x)).
Proof.
  intros Hbs Hx Hfuel. cut (∀ done todo fuel, x = done ++ todo → (length todo < fuel)%nat →
    find_nul fuel m sp (base + Z.of_nat (length pre)) (Z.of_nat (length done)) = Ok (Z.of_nat (length x))).
  { intros Hc. by apply (Hc [] x). }
  clear Hfuel fuel. intros dn todo. revert dn. induction todo as [|b todo IH]; intros dn [|fuel] Hdn Hf; simpl in Hf; [lia| |lia|].
  - rewrite app_nil_r in Hdn. subst dn. simpl.
    replace (base + Z.of_nat (length pre) + Z.of_nat (length x)) with (base + Z.of_nat (length pre + length x)) by lia.
    rewrite (Hload _ 0); [done|]. rewrite Hbs, lookup_app_r, lookup_app_r by lia.
    by replace (length pre + length x - length pre - length x)%nat with O by lia.
  - simpl. replace (base + Z.of_nat (length pre) + Z.of_nat (length dn)) with (base + Z.of_nat (length pre + length dn)) by lia.
    rewrite (Hload _ b).
    2: { rewrite Hbs, Hdn, lookup_app_r by lia. rewrite <- !app_assoc, lookup_app_r by lia.
         by replace (length pre + length dn - length pre - length dn)%nat with O by lia. }
    cbn [unwrap mbind outcome_bind]. destruct (Z.eqb_spec b 0) as [->|Hb].
    { destruct Hx. rewrite Hdn. apply elem_of_app. right. left. }
    rewrite <- (IH (dn ++ [b]) fuel); [f_equal; rewrite length_app; simpl; lia|by rewrite <- app_assoc|lia].
Qed.
Lemma read_usize_piece pre n post :
  bs = pre ++ le8 n ++ post → 0 ≤ n < 2 ^ 64 → read_usize m sp (base + Z.of_nat (length pre)) = Ok n.
Proof.
  intros Hbs Hn. unfold read_usize. rewrite <- (length_le8 n), (load_piece pre (le8 n) post Hbs). cbn [mbind outcome_bind].
  unfold le8. by rewrite from_to_le_bytes.
Qed.
End reading.

(** Where the strings and the words of the image are *)
Lemma strs_piece l base pre post j x :
  l !! j = Some x →
  let top := base + Z.of_nat (length pre + length (strs_image l)) in
  ∃ pre' post', pre ++ strs_image l ++ post = pre' ++ x ++ 0 :: post' ∧
    strs_layout top l !! j = Some (base + Z.of_nat (length pre')).
Proof.
  revert j post. induction l as [|y l IH]; intros j post Hj; [done|]. cbv zeta. cbn [strs_image strs_layout].
  destruct j as [|j].
  - injection Hj as ->. exists (pre ++ strs_image l), post. rewrite <- !app_assoc. split; [done|].
    simpl. f_equal. rewrite !length_app. simpl. lia.
  - destruct (IH j (y ++ [0] ++ post) Hj) as (pre' & post' & He & Hl). exists pre', post'. rewrite <- !app_assoc in *. split; [done|].
    simpl. rewrite <- Hl. do 2 f_equal. rewrite !length_app. simpl. lia.
Qed.
Lemma words_piece l pre post j n :
  l !! j = Some n → ∃ pre' post', pre ++ words l ++ post = pre' ++ le8 n ++ post' ∧ length pre' = (length pre + 8 * j)%nat.
Proof.
  intros Hj. rewrite <- (take_drop_middle l j n Hj), words_app. change (n :: drop (S j) l) with ([n] ++ drop (S j) l).
  rewrite words_app, words_single. exists (pre ++ words (take j l)), (words (drop (S j) l) ++ post).
  rewrite <- !app_assoc. split; [done|]. rewrite length_app, length_words, length_take.
  apply lookup_lt_Some in Hj. lia.
Qed.
Lemma image_args t1 t2 top args envs auxv :
  let argv := strs_layout (top - 24 - Z.of_nat (length (strs_image envs)) - 8) args in
  ∃ mid post, stack_image t1 t2 top args envs auxv = le8 (Z.of_nat (length args)) ++ words argv ++ mid ++ strs_image args ++ post ∧
    Z.of_nat (length post) = 24 + Z.of_nat (length (strs_image envs)) + 8.
Proof.
  cbv zeta. unfold stack_image, strings_image.
  set (post := le8 0 ++ strs_image envs ++ le8 t2 ++ le8 t1 ++ le8 0).
  set (argv := strs_layout _ args). set (envp := strs_layout _ envs). set (pad := replicate _ 0).
  exists (le8 0 ++ words envp ++ le8 0 ++ aux_image auxv ++ le8 (top - 24) ++ le8 AT_RANDOM ++ le8 0 ++ le8 0 ++ pad), post. split.
  - by rewrite <- !app_assoc.
  - unfold post. rewrite !length_app, !length_le8. lia.
Qed.
Lemma start_args_image fuel m sp t1 t2 top args envs auxv base :
  let image := stack_image t1 t2 top args envs auxv in
  base + Z.of_nat (length image) = top → 0 ≤ base → top ≤ 2 ^ 64 →
  (∀ i b, image !! i = Some b → mmu_load m sp (base + Z.of_nat i) = Some b) →
  (∀ x, x ∈ args → 0 ∉ x ∧ valid_utf8 x = true ∧ (length x < fuel)%nat) →
  start_args fuel m sp (base + 8) 0 (length args) = Ok args.
Proof.
  intros image Hbase H0' Htop Hload Hargs.
  destruct (image_args t1 t2 top args envs auxv) as (mid & post & Him & Hpost). fold image in Him.
  set (argv := strs_layout _ args) in Him. clearbody image.
  cut (∀ n i, (i + n = length args)%nat → start_args fuel m sp (base + 8) (Z.of_nat i) n = Ok (drop i args)).
  { intros Hc. by apply (Hc (length args) O). }
  induction n as [|n IH]; intros i Hi; simpl; [by rewrite drop_ge by lia|].
  destruct (lookup_lt_is_Some_2 args i) as [x Hx]; [lia|].
  destruct (Hargs x) as (Hnul & Hutf & Hfuel); [by eapply list_elem_of_lookup_2|].
  destruct (strs_piece args base (le8 (Z.of_nat (length args)) ++ words argv ++ mid) post i x Hx) as (pre' & post' & Hs & Hp).
  rewrite <- !app_assoc, <- Him in Hs.
  match type of Hp with strs_layout ?a _ !! _ = _ => replace a with (top - 24 - Z.of_nat (length (strs_image envs)) - 8) in Hp end.
  2: { apply (f_equal length) in Him. rewrite !length_app in Him. rewrite !length_app. lia. }
  destruct (words_piece argv (le8 (Z.of_nat (length args))) (mid ++ strs_image args ++ post) i _ Hp) as (pre2 & post2 & Hw & Hl2).
  rewrite <- Him in Hw. rewrite length_le8 in Hl2.
  replace (base + 8 + Z.of_nat i * 8) with (base + Z.of_nat (length pre2)) by lia.
  rewrite (read_usize_piece m sp base image Hload pre2 _ post2 Hw).
  2: { apply (f_equal length) in Hs. rewrite !length_app in Hs. cbn [length] in Hs. lia. }
  cbn [mbind outcome_bind]. rewrite (find_nul_piece m sp base image Hload fuel pre' x post' Hs Hnul Hfuel). cbn [mbind outcome_bind].
  rewrite Nat2Z.id, (load_piece m sp base image Hload pre' x (0 :: post') Hs). cbn [mbind outcome_bind].
  rewrite Hutf. cbn [assert mbind outcome_bind]. replace (Z.of_nat i + 1) with (Z.of_nat (S i)) by lia.
  rewrite IH by lia. cbn [mbind outcome_bind]. by rewrite (drop_S _ _ _ Hx).
Qed.

(** ** [init_stack] of the first thread *)
Definition STACK_PAGES : Z := USER_STACK_SIZE / PAGE_SIZE.
Lemma first_stack : user_stack_high_addr 0 = Ok LOW_VPN_END ∧ user_stack_low_addr 0 = Ok (LOW_VPN_END - STACK_PAGES) ∧
  LOW_VPN_END * PAGE_SIZE = LOW_ADDRESS_END ∧ STACK_PAGES = 2048.
Proof. by vm_compute. Qed.
Lemma new_stack_rep m sp M :
  pages_inv m (page_table sp) M → areas_inv M (user_areas sp) →
  range_free (user_areas sp) (LOW_VPN_END - STACK_PAGES) LOW_VPN_END →
  let perm := Z.lor (Z.lor MapPermission.R MapPermission.W) MapPermission.U in
  let a := area_new (LOW_VPN_END - STACK_PAGES) LOW_VPN_END perm Lazy in
  alloc_user_stack m sp 0 = Ok (LOW_VPN_END - STACK_PAGES, LOW_VPN_END, mkSpace (page_table sp) (<[LOW_VPN_END - STACK_PAGES := a]> (user_areas sp)), m) ∧
  stk (LOW_VPN_END - STACK_PAGES) LOW_VPN_END (mkCtx (VirtPageNum.page_start LOW_VPN_END) None a (page_table sp) m) [].
Proof.
  intros Hg Hi Hf perm a. destruct first_stack as (Hh & Hl & Hend & H2048).
  assert (0 ≤ LOW_VPN_END - STACK_PAGES ≤ LOW_VPN_END) by (rewrite H2048, LOW_VPN_END_eq; lia).
  destruct (user_map_ok m sp M (LOW_VPN_END - STACK_PAGES) LOW_VPN_END perm Hg Hi Hf) as [Hm Hi']; [done|done|by vm_compute|].
  split.
  - unfold alloc_user_stack. rewrite Hl, Hh. cbn [mbind outcome_bind]. fold perm. rewrite Hm. done.
  - destruct (ar_area Hi' (LOW_VPN_END - STACK_PAGES) a) as [_ Ha]; [simpl; by rewrite lookup_insert_eq|].
    split_and!; [|done|done]. rewrite page_start_mul by (rewrite LOW_VPN_END_eq; lia).
    split; cbn [user_sp cur_page st_area st_pt st_mem a area_new va_start va_end a_type unbacked_map length].
    + by exists M.
    + done.
    + lia.
    + rewrite PAGE_SIZE_eq. lia.
    + lia.
    + intros Hne. rewrite PAGE_SIZE_eq in Hne. by rewrite Z_mod_mult in Hne.
    + intros v _. apply lookup_empty.
Qed.
End start.

(** C18: what is passed to [execve] reaches [main]. In a space whose stack range is
    free, with three free frames for each page of the image, and arguments that are
    UTF-8 without a zero byte: [init_stack] succeeds; the program then finds on its
    stack, byte for byte, the documented image, with its stack pointer aligned to
    eight bytes at the start of it; and [_start], run with the registers the thread
    starts with, gives [main] the same arguments. The word after the environment
    strings must not straddle a page, which it does not when there are none. *)
Theorem exec_args_roundtrip `{Buddy, KernelImage, ProcessEnv} fuel t1 t2 m sp args envs auxv entry :
  space_inv m sp → range_free (user_areas sp) (LOW_VPN_END - STACK_PAGES) LOW_VPN_END →
  let image := stack_image t1 t2 LOW_ADDRESS_END args envs auxv in
  fits (LOW_ADDRESS_END - 24 - Z.of_nat (length (strs_image envs))) 8 →
  Z.of_nat (length image) ≤ USER_STACK_SIZE →
  3 * div_ceil (Z.of_nat (length image)) PAGE_SIZE ≤ Z.of_nat (free_count m) →
  (∀ x, x ∈ args → 0 ∉ x ∧ valid_utf8 x = true ∧ (length x < fuel)%nat) →
  ∃ user_sp argv_base sp' m',
    init_stack t1 t2 m sp 0 args envs auxv = Ok (user_sp, argv_base, sp', m') ∧
    user_sp mod 8 = 0 ∧ user_sp + Z.of_nat (length image) = LOW_ADDRESS_END ∧
    (∀ i b, image !! i = Some b → mmu_load m' sp' (user_sp + Z.of_nat i) = Some b) ∧
    let c := start_context entry user_sp (Z.of_nat (length args)) argv_base in
    Ctx.sp c = user_sp ∧ start_args fuel m' sp' (Ctx.reg c 10) 0 (Z.to_nat (Ctx.a0 c)) = Ok args.
Proof.
  intros (M & Hg & Hi) Hfree image Hfit Hsize Hframes Hargs.
  destruct (new_stack_rep m sp M Hg Hi Hfree) as [Hal Hstk]. destruct first_stack as (_ & _ & Hend & H2048).
  set (s := LOW_VPN_END - STACK_PAGES) in *. set (perm := Z.lor _ _) in *. cbv zeta in Hal, Hstk.
  set (st := mkCtx _ _ _ _ _) in Hstk.
  assert (Him : stack_image t1 t2 (LOW_VPN_END * PAGE_SIZE) args envs auxv = image) by (unfold image; by rewrite Hend).
  assert (Hstart : ∀ m sp base, base + Z.of_nat (length image) = LOW_ADDRESS_END → 0 ≤ base →
    (∀ i b, image !! i = Some b → mmu_load m sp (base + Z.of_nat i) = Some b) → start_args fuel m sp (base + 8) 0 (length args) = Ok args)
    by (intros; by eapply start_args_image).
  clearbody image. rewrite <- Hend in Hfit.
  assert (Hus : USER_STACK_SIZE = 2048 * PAGE_SIZE) by (by vm_compute).
  pose proof (div_ceil_spec (Z.of_nat (length image)) PAGE_SIZE ltac:(rewrite PAGE_SIZE_eq; lia)) as Hceil.
  set (b := LOW_VPN_END - div_ceil (Z.of_nat (length image)) PAGE_SIZE).
  assert (Hb : 0 ≤ s ≤ b).
  { unfold s, b. rewrite LOW_VPN_END_eq, H2048 in *. rewrite PAGE_SIZE_eq in *. lia. }
  assert (Htop : LOW_VPN_END * PAGE_SIZE < 2 ^ 64) by (by vm_compute).
  destruct (init_stack_total s LOW_VPN_END b perm Hb Htop t1 t2 st args envs auxv) as (usp & ab & st' & Hinit & Hperm).
  { split; [done|]. split; [done|]. cbn [st user_sp st_mem]. rewrite page_start_mul by (rewrite LOW_VPN_END_eq; lia). rewrite Z_div_mult by (rewrite PAGE_SIZE_eq; lia). unfold b. lia. }
  { done. }
  { unfold room. rewrite Him. cbn [length]. unfold b. rewrite PAGE_SIZE_eq in *. lia. }
  destruct (init_stack_image s LOW_VPN_END t1 t2 st args envs auxv usp ab st' Hstk) as (Hs & -> & -> & Hal8);
    [lia|done| |exact Hinit|].
  { rewrite Him. unfold s. rewrite H2048. rewrite PAGE_SIZE_eq in *. lia. }
  rewrite Him in Hs. pose proof (stk_sp _ _ _ _ Hs) as Hsp. rewrite Hend in Hsp.
  set (sp' := mkSpace (st_pt st') (<[s := st_area st']> (<[s := area_new s LOW_VPN_END perm Lazy]> (user_areas sp)))).
  assert (Hload : ∀ i x, image !! i = Some x → mmu_load (st_mem st') sp' (user_sp st' + Z.of_nat i) = Some x).
  { intros i x Hx. rewrite (stk_load _ _ _ _ sp' Hs eq_refl).
    - by replace (Z.to_nat (user_sp st' + Z.of_nat i - user_sp st')) with i by lia.
    - rewrite Hperm. by vm_compute.
    - apply lookup_lt_Some in Hx. rewrite Hend. lia. }
  exists (user_sp st'), (user_sp st' + 8), sp', (st_mem st'). split_and!; [|done|lia|done|].
  - unfold init_stack. rewrite Hal. cbn [mbind outcome_bind user_areas page_table]. rewrite lookup_insert_eq. cbn [unwrap mbind outcome_bind].
    fold st. rewrite Hinit. done.
  - cbv zeta. split; [done|]. change (Ctx.reg _ 10) with (user_sp st' + 8). change (Ctx.a0 _) with (Z.of_nat (length args)). rewrite Nat2Z.id.
    apply Hstart; [lia| |exact Hload].
    pose proof (Hs). destruct Hs as (Hr & Hst & _). pose proof (sr_low Hr). rewrite Hst in *. rewrite PAGE_SIZE_eq in *. lia.
Qed.

(** ** Example: two arguments in an empty space *)
Module StartDemo.
Definition bare : MemorySpace := mkSpace boot_pt.1 ∅.
Lemma bare_inv : space_inv boot_pt.2 bare.
Proof.
  destruct boot_pt_inv as (Hpt & Hm & Hw). exists ∅. split; [|split; [done|done|by intros v i]].
  split; [done|done|by intros v [? ?]| |done|done].
  intros v Hv. rewrite lookup_empty. apply Hw. by apply low_in_half.
Qed.
Lemma exec_args_witness :
  ∃ user_sp argv_base sp' m',
    init_stack 7 9 boot_pt.2 bare 0 [[115; 104]; [45; 99]] [] [(AT_PAGESZ, 4096)] = Ok (user_sp, argv_base, sp', m') ∧
    start_args 10 m' sp' argv_base 0 2 = Ok [[115; 104]; [45; 99]].
Proof.
  destruct (exec_args_roundtrip 10 7 9 boot_pt.2 bare [[115; 104]; [45; 99]] [] [(AT_PAGESZ, 4096)] 0x10000)
    as (usp & ab & sp' & m' & Hi & _ & _ & _ & _ & Hs).
  - exact bare_inv.
  - intros k a Hk. cbn [bare user_areas] in Hk. by rewrite lookup_empty in Hk.
  - right. vm_compute. congruence.
  - vm_compute. congruence.
  - vm_compute. congruence.
  - intros x Hx. rewrite !elem_of_cons in Hx.
    destruct Hx as [->|[->|Hx%elem_of_nil]]; [| |done]; (split; [apply (bool_decide_unpack _); reflexivity|split; [reflexivity|simpl; lia]]).
  - exists usp, ab, sp', m'. split; [exact Hi|exact Hs].
Defined.
End StartDemo.
