(* ===== verification/Shell.v ===== *)
(** * The shell

    [user/src/bin/shell.rs]: a line editor over the terminal, commands and the two
    builtins. The system calls it makes are behind a class; a terminal is what it
    shows for the bytes it got. *)
From stdpp Require Import strings pretty.
From S2P Require Import Prelude Defines Kst Tracer UserLib.

(** ** The environment: system calls on a state [W], and the bytes the terminal
    got. The program the child runs is part of [w_waitpid]. *)
Class ShellEnv := {
  W : Type;
  screen : W → list Z;
  w_write : Z → list Z → W → Z * W;
  w_fork : W → Z * W;
  (** the child runs [exec] with these arguments; the pid and the code *)
  w_waitpid : Z → list (list Z) → W → Z * Z * W;
  w_chdir : list Z → W → Z * W;
  w_write_whole b w : (w_write STDOUT b w).1 = Z.of_nat (length b) ∧ screen (w_write STDOUT b w).2 = screen w ++ b;
  w_chdir_screen p w : screen (w_chdir p w).2 = screen w;
}.

(** ** Strings of the standard library *)
Definition LF : Z := 0x0a.
Definition CR : Z := 0x0d.
Definition DL : Z := 0x7f.
Definition BS : Z := 0x08.
(** The UTF-8 bytes of a [char] below 256, which is what [u8 as char] gives *)
Definition char_bytes (c : Z) : list Z := if c <? 0x80 then [c] else [Z.lor 0xc0 (Z.shiftr c 6); Z.lor 0x80 (Z.land c 0x3f)].
Definition str_bytes (s : list Z) : list Z := s ≫= char_bytes.
(** [char::is_whitespace], [str::trim], [split(' ')] *)
Definition is_whitespace (c : Z) : bool := ((9 <=? c) && (c <=? 13)) || (c =? 32) || (c =? 0x85) || (c =? 0xa0).
Fixpoint trim_start (s : list Z) : list Z :=
  match s with c :: s' => if is_whitespace c then trim_start s' else s | [] => [] end.
Definition trim (s : list Z) : list Z := rev (trim_start (rev (trim_start s))).
Fixpoint split_space (s : list Z) : list (list Z) :=
  match s with
  | [] => [[]]
  | c :: s =>
      if c =? 32 then [] :: split_space s
      else match split_space s with w :: ws => (c :: w) :: ws | [] => [[c]] end
  end.
(** [str::parse::<i8>] *)
Fixpoint parse_digits (neg : bool) (acc : Z) (s : list Z) : option Z :=
  match s with
  | [] => Some acc
  | c :: s =>
      if (48 <=? c) && (c <=? 57) then
        let acc := acc * 10 + (if neg then - (c - 48) else c - 48) in
        if (-128 <=? acc) && (acc <=? 127) then parse_digits neg acc s else None
      else None
  end.
Definition parse_i8 (s : list Z) : option Z :=
  match s with
  | [] | [43] | [45] => None
  | 45 :: s => parse_digits true 0 s
  | 43 :: s => parse_digits false 0 s
  | _ => parse_digits false 0 s
  end.

Section shell.
Context {E : ShellEnv}.

(** The line, the console buffer of the library, the environment. *)
Record Sh : Type := mkSh { line : list Z; con : list Z; env : W }.
Definition set_line (l : list Z) (s : Sh) : Sh := mkSh l (con s) (env s).
Definition call {A} (f : W → A * W) : kst Sh A := λ s, let '(a, w) := f (env s) in Done a (mkSh (line s) (con s) w).

(** [print!], [println!] and [flush] of the library ([unwrap]) *)
Definition print (text : list Z) : kst Sh () := λ s,
  let '(ok, st) := write_str w_write text (con s, env s) in
  if ok : bool then Done () (mkSh (line s) st.1 st.2) else Crash.
Definition println (text : list Z) : kst Sh () := print (text ++ [LF]).
Definition flush : kst Sh () := λ s,
  let '(_, st) := console_flush w_write (con s, env s) in Done () (mkSh (line s) st.1 st.2).
(** A function of the shell returns ([inl]) or has called [exit], with the console
    flushed ([inr]). *)
Definition exit {A} (code : Z) : kst Sh (A + Z) := _ ← flush; mret (inr code).
Definition go {A} (c : kst Sh A) : kst Sh (A + Z) := a ← c; mret (inl a).
Definition andthen {A B} (c : kst Sh (A + Z)) (k : A → kst Sh (B + Z)) : kst Sh (B + Z) :=
  r ← c; match r with inl a => k a | inr code => mret (inr code) end.
(** [CStr::from_bytes_with_nul(..).unwrap()] of a string with a zero pushed at its end *)
Definition as_cstr (s : list Z) : kst Sh (list Z) := _ ← kassert (bool_decide (0 ∉ s)); mret (str_bytes s).

Definition prompt : list Z := text ">> ".
Definition handle_builtin_exit (args : list (list Z)) : kst Sh (() + Z) :=
  if (2 <? length args)%nat then go (println (text "Unknown extra args"))
  else match args !! 1%nat with
       | Some a => match parse_i8 a with Some parsed => exit parsed | None => go (println (text "Not valid exit code")) end
       | None => exit 0
       end.
Definition handle_builtin_cd (args : list (list Z)) : kst Sh () :=
  if (2 <? length args)%nat then println (text "Unknown extra args")
  else match args !! 1%nat with
       | None => println (text "Missing args")
       | Some a =>
           p ← as_cstr a;
           ret ← call (w_chdir p);
           if ret <? 0 then println (text "Error when change dir to " ++ p ++ [0]) else mret ()
       end.
Definition handle_builtin (args : list (list Z)) : kst Sh (bool + Z) :=
  cmd ← kunwrap (args !! 0%nat);
  if bool_decide (cmd = text "exit") then andthen (handle_builtin_exit args) (λ _, mret (inl true))
  else if bool_decide (cmd = text "cd") then _ ← handle_builtin_cd args; mret (inl true)
  else mret (inl false).
(** The child between [fork] and [exec], with what [exec] returns *)
Definition child_main (exec : list (list Z) → Z) (args : list (list Z)) : kst Sh (() + Z) :=
  cmd ← kunwrap (args !! 0%nat);
  _ ← as_cstr cmd;
  if exec (str_bytes <$> args) <? 0 then _ ← println (text "Error when executing!"); exit (-4)
  else kcrash.
(** [true] when [handle_line_end] returns early *)
Definition run_command (args : list (list Z)) : kst Sh bool :=
  pid ← call w_fork;
  if pid <? 0 then _ ← println (text "Error when forking"); mret true
  else
    '(exit_pid, exit_code) ← call (w_waitpid pid (str_bytes <$> args));
    _ ← kassert (pid =? exit_pid);
    _ ← println (text "Shell: Process " ++ text (pretty pid) ++ text " exited with code " ++ text (pretty exit_code));
    mret false.
Definition handle_line (trimed : list Z) : kst Sh (bool + Z) :=
  match trimed with
  | [] => mret (inl false)
  | _ =>
      let args := split_space trimed in
      andthen (handle_builtin args) (λ builtin, if builtin : bool then mret (inl false) else go (run_command args))
  end.
Definition new_prompt : kst Sh () := _ ← kmodify (set_line []); _ ← print prompt; flush.
Definition handle_line_end : kst Sh (() + Z) :=
  _ ← println [];
  s ← kget;
  andthen (handle_line (trim (line s))) (λ early, if early : bool then mret (inl ()) else go new_prompt).
Definition handle_delete : kst Sh () :=
  s ← kget;
  match line s with
  | [] => mret ()
  | l =>
      _ ← print (char_bytes BS); _ ← print [32]; _ ← print (char_bytes BS); _ ← flush;
      kmodify (set_line (removelast l))
  end.
Definition handle_input (c : Z) : kst Sh (() + Z) :=
  if (c =? LF) || (c =? CR) then handle_line_end
  else if (c =? BS) || (c =? DL) then go handle_delete
  else
    _ ← print (char_bytes c);
    _ ← flush;
    go (kmodify (λ s, set_line (line s ++ [c]) s)).
(** [main] on the keys typed *)
Fixpoint run (keys : list Z) : kst Sh (() + Z) :=
  match keys with [] => mret (inl ()) | k :: keys => andthen (handle_input k) (λ _, run keys) end.
Definition main (keys : list Z) : kst Sh (() + Z) :=
  _ ← println (text "Rust user shell");
  _ ← print prompt;
  _ ← flush;
  run keys.

(** ** The terminal: the last row and the cursor

    An ideal terminal: its row is as wide as needed (a real one wraps lines, at
    the 120 columns that [fs/devfs/src/tty.rs] reports), and there are no escape
    sequences, of which the shell prints none. *)
Definition feed (r : list Z * nat) (b : Z) : list Z * nat :=
  let '(row, cur) := r in
  if b =? LF then ([], O) else if b =? CR then (row, O) else if b =? BS then (row, Nat.pred cur)
  else (take cur row ++ b :: drop (S cur) row, S cur).
Definition row (bytes : list Z) : list Z * nat := foldl feed ([], O) bytes.
(** What the keys make of the line *)
Definition printable (c : Z) : Prop := 32 ≤ c < 127.
Definition is_key (c : Z) : Prop := printable c ∨ c ∈ [LF; CR; BS; DL].
Definition edit (l : list Z) (c : Z) : list Z :=
  if (c =? LF) || (c =? CR) then [] else if (c =? BS) || (c =? DL) then removelast l else l ++ [c].
(** The last row is the prompt with the line, and blanks; everything is out. *)
Definition shown (s : Sh) : Prop :=
  con s = [] ∧ Forall printable (line s) ∧
  ∃ n, row (screen (env s)) = (prompt ++ line s ++ replicate n 32, length (prompt ++ line s)).

(** ** What is printed *)
Definition total (s : Sh) : list Z := screen (env s) ++ con s.
Definition small (s : Sh) : Prop := (length (con s) < CONSOLE_BUFFER_SIZE)%nat.
Lemma print_run txt s : small s → ∃ s', print txt s = Done () s' ∧ small s' ∧ line s' = line s ∧ total s' = total s ++ txt.
Proof.
  intros Hs. unfold print. destruct (write_str_out w_write screen w_write_whole txt (con s, env s) Hs) as (st & -> & Ho & Hl).
  eexists. split; [reflexivity|]. split; [done|]. split; [done|]. unfold total. simpl in *. by rewrite Ho, <- app_assoc.
Qed.
Lemma flush_run s : ∃ s', flush s = Done () s' ∧ con s' = [] ∧ line s' = line s ∧ screen (env s') = total s.
Proof.
  unfold flush. pose proof (console_flush_out w_write screen w_write_whole (con s, env s)) as [Ho He].
  destruct (console_flush w_write (con s, env s)) as [r st]. simpl in *.
  eexists. split; [reflexivity|]. simpl. split; [done|]. split; [done|]. rewrite He, app_nil_r in Ho. exact Ho.
Qed.
Lemma row_app a b : row (a ++ b) = foldl feed (row a) b.
Proof. apply foldl_app. Qed.
(** The start of a row *)
Definition at_start (l : list Z) (s : Sh) : Prop := small s ∧ line s = l ∧ row (total s) = ([], O).
Lemma println_run txt s : small s → ∃ s', println txt s = Done () s' ∧ at_start (line s) s'.
Proof.
  intros Hs. destruct (print_run (txt ++ [LF]) s Hs) as (s' & Hp & Hs' & Hl & Ht). exists s'. split; [exact Hp|].
  split; [done|]. split; [done|]. rewrite Ht, row_app, foldl_app. simpl. by destruct (foldl _ _ _).
Qed.
Lemma new_prompt_run l s : at_start l s → ∃ s', new_prompt s = Done () s' ∧ shown s' ∧ line s' = [].
Proof.
  intros (Hs & _ & Hr). unfold new_prompt.
  rewrite (kbind_run _ _ s () (set_line [] s)) by done.
  destruct (print_run prompt (set_line [] s) Hs) as (s1 & Hp & Hs1 & Hl1 & Ht1). rewrite (kbind_run _ _ _ _ _ Hp).
  destruct (flush_run s1) as (s2 & -> & Hc & Hl2 & Hsc). exists s2. split; [done|].
  assert (line s2 = []) as Hl by (by rewrite Hl2, Hl1). split; [|done]. split; [done|]. rewrite Hl. split; [constructor|].
  exists O. rewrite Hsc, Ht1, row_app. unfold total in *. simpl in Hr |- *. by rewrite Hr.
Qed.

(** *** The keys that edit *)
Lemma feed_printable P n c : printable c → feed (P ++ replicate n 32, length P) c = ((P ++ [c]) ++ replicate (Nat.pred n) 32, length (P ++ [c])).
Proof.
  intros Hc. unfold feed, printable, LF, CR, BS in *. rewrite !(proj2 (Z.eqb_neq _ _)) by lia.
  rewrite take_app_length, length_app. simpl. rewrite Nat.add_1_r, <- app_assoc. f_equal. f_equal. simpl. f_equal.
  rewrite drop_app_ge by lia. replace (S (length P) - length P)%nat with 1%nat by lia. by destruct n.
Qed.
Lemma feed_delete P c n :
  foldl feed (P ++ c :: replicate n 32, S (length P)) [BS; 32; BS] = (P ++ replicate (S n) 32, length P).
Proof.
  cbn [foldl]. unfold feed at 3. simpl Z.eqb. cbv iota. cbn [Nat.pred].
  unfold feed at 2. simpl Z.eqb. cbv iota. rewrite take_app_length, drop_app_ge by lia.
  replace (S (length P) - length P)%nat with 1%nat by lia. unfold feed. simpl Z.eqb. cbv iota. done.
Qed.
Lemma char_input s c : shown s → printable c → ∃ s', handle_input c s = Done (inl ()) s' ∧ shown s' ∧ line s' = line s ++ [c].
Proof.
  intros (Hc & Hp & n & Hr) Hcp. unfold handle_input, printable, LF, CR, BS, DL in *.
  rewrite !(proj2 (Z.eqb_neq _ _)) by lia. cbn [orb]. unfold char_bytes. rewrite (proj2 (Z.ltb_lt _ _)) by lia.
  destruct (print_run [c] s) as (s1 & H1 & _ & Hl1 & Ht1); [unfold small; rewrite Hc; simpl; unfold CONSOLE_BUFFER_SIZE; lia|].
  rewrite (kbind_run _ _ _ _ _ H1). destruct (flush_run s1) as (s2 & H2 & Hc2 & Hl2 & Hsc). rewrite (kbind_run _ _ _ _ _ H2).
  eexists. split; [reflexivity|]. simpl. rewrite Hl2, Hl1. split; [|done]. split; [done|]. cbn [line set_line]. split; [by apply Forall_app; split; [|constructor]|].
  exists (Nat.pred n). cbn [env set_line]. rewrite Hsc, Ht1. unfold total. rewrite Hc, app_nil_r, row_app, Hr. cbn [foldl].
  rewrite app_assoc, feed_printable by done. by rewrite <- !app_assoc.
Qed.
Lemma delete_input s : shown s → ∃ s', handle_delete s = Done () s' ∧ shown s' ∧ line s' = removelast (line s).
Proof.
  intros Hsh. pose proof Hsh as (Hc & Hp & n & Hr). unfold handle_delete. rewrite (kbind_run _ _ s s s) by done.
  destruct (line s) as [|x l0] eqn:El; [exists s; by rewrite El|]. rewrite <- El in *.
  destruct (exists_last (l := line s)) as (l & c & Hl); [by rewrite El|]. clear El x l0.
  unfold char_bytes. rewrite (proj2 (Z.ltb_lt BS 0x80)) by (unfold BS; lia).
  destruct (print_run [BS] s) as (s1 & H1 & Hs1 & Hl1 & Ht1); [unfold small; rewrite Hc; simpl; unfold CONSOLE_BUFFER_SIZE; lia|].
  rewrite (kbind_run _ _ _ _ _ H1). destruct (print_run [32] s1 Hs1) as (s2 & H2 & Hs2 & Hl2 & Ht2). rewrite (kbind_run _ _ _ _ _ H2).
  destruct (print_run [BS] s2 Hs2) as (s3 & H3 & Hs3 & Hl3 & Ht3). rewrite (kbind_run _ _ _ _ _ H3).
  destruct (flush_run s3) as (s4 & H4 & Hc4 & Hl4 & Hsc). rewrite (kbind_run _ _ _ _ _ H4).
  eexists. split; [reflexivity|]. rewrite Hl, removelast_last in *. simpl. split; [|done]. split; [done|]. simpl.
  apply Forall_app in Hp as [Hp _]. split; [done|]. exists (S n).
  rewrite Hsc, Ht3, Ht2, Ht1. unfold total. rewrite Hc, app_nil_r, <- !app_assoc, row_app, Hr. cbn [app].
  pose proof (feed_delete (prompt ++ l) c n) as Hf. rewrite <- !app_assoc in *. cbn [app] in *.
  rewrite !length_app in *. cbn [length] in *. rewrite Nat.add_1_r, <- plus_n_Sm in *. exact Hf.
Qed.

(** *** The end of a line *)
Lemma trim_start_sub s : trim_start s ⊆ s.
Proof. induction s as [|c s IH]; simpl; [done|]. case_match; [|done]. intros x Hx. right. by apply IH. Qed.
Lemma elem_of_rev (x : Z) l : x ∈ rev l ↔ x ∈ l.
Proof. by rewrite !list_elem_of_In, <- in_rev. Qed.
Lemma trim_sub s : trim s ⊆ s.
Proof. intros x Hx. unfold trim in Hx. rewrite elem_of_rev in Hx. apply trim_start_sub in Hx. rewrite elem_of_rev in Hx. by apply trim_start_sub. Qed.
Lemma split_sub s w : w ∈ split_space s → w ⊆ s.
Proof.
  revert w. induction s as [|c s IH]; intros w Hw; simpl in Hw; [apply list_elem_of_singleton in Hw as ->; done|].
  destruct (c =? 32).
  - apply elem_of_cons in Hw as [->|Hw]; [set_solver|]. intros x Hx. right. by eapply IH.
  - destruct (split_space s) as [|w0 ws]; [apply list_elem_of_singleton in Hw as ->; set_solver|].
    apply elem_of_cons in Hw as [->|Hw].
    + intros x [->|Hx]%elem_of_cons; [left|]. right. by apply (IH w0); [left|].
    + intros x Hx. right. apply (IH w); [by right|done].
Qed.
Lemma split_first s : ∃ w ws, split_space s = w :: ws.
Proof. destruct s as [|c s]; simpl; [by eexists _, _|]. destruct (c =? 32); [by eexists _, _|]. destruct (split_space s); by eexists _, _. Qed.
Lemma parse_digits_range neg s : ∀ acc n, -128 ≤ acc ≤ 127 → parse_digits neg acc s = Some n → -128 ≤ n ≤ 127.
Proof.
  induction s as [|c s IH]; intros acc n Ha Hp; simpl in Hp; [by injection Hp as <-|].
  destruct ((48 <=? c) && (c <=? 57)); [|done]. set (acc' := acc * 10 + _) in Hp.
  destruct ((-128 <=? acc') && (acc' <=? 127)) eqn:Hb; [|done]. apply andb_prop in Hb as [H1%Z.leb_le H2%Z.leb_le].
  by apply (IH acc').
Qed.
Lemma parse_i8_range s n : parse_i8 s = Some n → -128 ≤ n ≤ 127.
Proof. unfold parse_i8. repeat case_match; try done; apply parse_digits_range; lia. Qed.

Lemma call_run {A} (f : W → A * W) s : call f s = Done (f (env s)).1 (mkSh (line s) (con s) (f (env s)).2).
Proof. unfold call. by destruct (f (env s)). Qed.
Lemma exit_run {A} code s : ∃ s', exit (A := A) code s = Done (inr code) s'.
Proof. unfold exit. destruct (flush_run s) as (s' & Hf & _). rewrite (kbind_run _ _ _ _ _ Hf). by eexists. Qed.

(** A part of the line either returns at the start of a row or ends the shell. *)
Definition line_done {A} (l : list Z) (r : kres Sh (A + Z)) : Prop :=
  match r with
  | Done (inl _) s' => at_start l s'
  | Done (inr code) _ => -128 ≤ code ≤ 127
  | _ => False
  end.
Lemma go_println l txt s : at_start l s → line_done l (go (println txt) s).
Proof.
  intros (Hs & Hl & _). destruct (println_run txt s Hs) as (s' & Hp & Ha). unfold go. rewrite (kbind_run _ _ _ _ _ Hp). simpl. by rewrite <- Hl.
Qed.
Lemma builtin_exit_run l args s : at_start l s → line_done l (handle_builtin_exit args s).
Proof.
  intros Ha. unfold handle_builtin_exit. case_match; [by apply go_println|]. destruct (args !! 1%nat) as [a|].
  - destruct (parse_i8 a) as [n|] eqn:Hp; [|by apply go_println]. destruct (exit_run (A := ()) n s) as (s' & ->). by eapply parse_i8_range.
  - destruct (exit_run (A := ()) 0 s) as (s' & ->). simpl. lia.
Qed.
Lemma builtin_cd_run l args s :
  at_start l s → (∀ w, w ∈ args → Forall printable w) → ∃ s', handle_builtin_cd args s = Done () s' ∧ at_start l s'.
Proof.
  intros Ha Hargs. assert (Hpl : ∀ txt, ∃ s', println txt s = Done () s' ∧ at_start l s').
  { intros txt. destruct Ha as (Hs & <- & _). by apply println_run. }
  unfold handle_builtin_cd. case_match; [apply Hpl|]. destruct (args !! 1%nat) as [a|] eqn:H1; [|apply Hpl].
  assert (H0 : 0 ∉ a).
  { intros H0. apply list_elem_of_lookup_2 in H1. specialize (Hargs a H1). rewrite Forall_forall in Hargs. specialize (Hargs 0 H0). unfold printable in Hargs. lia. }
  unfold as_cstr. rewrite bool_decide_eq_true_2 by done. rewrite (kbind_run _ _ s (str_bytes a) s) by done.
  rewrite (kbind_run _ _ _ _ _ (call_run _ s)). set (s1 := mkSh _ _ _).
  assert (Ha1 : at_start l s1). { destruct Ha as (Hs & Hl & Hr). split; [done|]. split; [done|]. unfold total, s1. simpl. by rewrite w_chdir_screen. }
  case_match; [|by exists s1]. destruct Ha1 as (Hs1 & <- & _). by apply println_run.
Qed.
Lemma handle_builtin_run l s w ws :
  at_start l s → (∀ x, x ∈ w :: ws → Forall printable x) → line_done l (handle_builtin (w :: ws) s).
Proof.
  intros Ha Hp. unfold handle_builtin. rewrite (kbind_run _ _ s w s) by done. case_match.
  - unfold andthen. pose proof (builtin_exit_run l (w :: ws) s Ha) as He.
    destruct (handle_builtin_exit (w :: ws) s) as [[[]|code] s'| |] eqn:Hr; try done; by rewrite (kbind_run _ _ _ _ _ Hr).
  - case_match; [|done]. destruct (builtin_cd_run l (w :: ws) s Ha Hp) as (s' & Hr & Ha'). by rewrite (kbind_run _ _ _ _ _ Hr).
Qed.

(** Processes can be made, and [waitpid] answers with the pid it was asked for. *)
Definition forks : Prop := (∀ w, 0 < (w_fork w).1) ∧ ∀ pid args w, (w_waitpid pid args w).1.1 = pid.
Lemma run_command_run l args s : forks → at_start l s → ∃ s', run_command args s = Done false s' ∧ at_start l s'.
Proof.
  intros [Hfork Hwait] (Hs & Hl & _). unfold run_command. rewrite (kbind_run _ _ _ _ _ (call_run _ s)).
  pose proof (Hfork (env s)). rewrite (proj2 (Z.ltb_ge _ _)) by lia. set (s1 := mkSh _ _ _). set (pid := (w_fork (env s)).1).
  rewrite (kbind_run _ _ _ _ _ (call_run _ s1)). pose proof (Hwait pid (str_bytes <$> args) (env s1)) as Hw.
  destruct (w_waitpid pid (str_bytes <$> args) (env s1)) as [[exit_pid code] w]. cbn [fst snd] in *. subst exit_pid.
  rewrite Z.eqb_refl. set (s2 := mkSh _ _ _). rewrite (kbind_run _ _ s2 () s2) by done.
  destruct (println_run (text "Shell: Process " ++ text (pretty pid) ++ text " exited with code " ++ text (pretty code)) s2 Hs) as (s3 & Hp & Ha).
  rewrite (kbind_run _ _ _ _ _ Hp). exists s3. split; [done|]. by rewrite <- Hl.
Qed.
Lemma line_end_run s : forks → shown s →
  match handle_line_end s with
  | Done (inl _) s' => shown s' ∧ line s' = []
  | Done (inr code) _ => -128 ≤ code ≤ 127
  | _ => False
  end.
Proof.
  intros Hf (Hc & Hp & _). unfold handle_line_end.
  destruct (println_run [] s) as (s1 & H1 & Ha1); [unfold small; rewrite Hc; simpl; unfold CONSOLE_BUFFER_SIZE; lia|].
  rewrite (kbind_run _ _ _ _ _ H1), (kbind_run _ _ s1 s1 s1) by done. pose proof Ha1 as (_ & Hl1 & _).
  assert (Hln : line_done (line s) (handle_line (trim (line s1)) s1) ∧ ∀ e s', handle_line (trim (line s1)) s1 = Done (inl e) s' → e = false).
  { rewrite Hl1. unfold handle_line. destruct (trim (line s)) as [|x t] eqn:Ht; [split; [done|by intros e s' [= <- _]]|]. rewrite <- Ht.
    destruct (split_first (trim (line s))) as (w & ws & Hw). rewrite Hw.
    assert (Hpr : ∀ y, y ∈ w :: ws → Forall printable y).
    { intros y Hy. rewrite Forall_forall in Hp |- *. intros c Hcy. apply Hp, trim_sub. rewrite <- Hw in Hy. by apply (split_sub _ y Hy). }
    pose proof (handle_builtin_run (line s) s1 w ws Ha1 Hpr) as Hb. unfold andthen.
    destruct (handle_builtin (w :: ws) s1) as [[b|code] s2| |] eqn:Hr; try done; rewrite (kbind_run _ _ _ _ _ Hr); [|split; [done|done]].
    destruct b; [split; [done|by intros e s' [= <- _]]|].
    destruct (run_command_run (line s) (w :: ws) s2 Hf Hb) as (s3 & H3 & Ha3). unfold go. rewrite (kbind_run _ _ _ _ _ H3).
    split; [done|by intros e s' [= <- _]]. }
  destruct Hln as [Hln He]. unfold andthen. destruct (handle_line (trim (line s1)) s1) as [[e|code] s2| |] eqn:Hr; try done; rewrite (kbind_run _ _ _ _ _ Hr); [|done].
  rewrite (He e s2 eq_refl). destruct (new_prompt_run _ s2 Hln) as (s3 & H3 & Hs3 & Hl3). unfold go. by rewrite (kbind_run _ _ _ _ _ H3).
Qed.

(** *** Keys *)
Lemma key_run k s : forks → is_key k → shown s →
  match handle_input k s with
  | Done (inl _) s' => shown s' ∧ line s' = edit (line s) k
  | Done (inr code) _ => -128 ≤ code ≤ 127
  | _ => False
  end.
Proof.
  intros Hf Hk Hs. unfold edit. destruct ((k =? LF) || (k =? CR)) eqn:H1.
  { unfold handle_input. rewrite H1. by apply line_end_run. }
  destruct ((k =? BS) || (k =? DL)) eqn:H2.
  { unfold handle_input. rewrite H1, H2. destruct (delete_input s Hs) as (s' & Hd & Hs' & Hl). unfold go. by rewrite (kbind_run _ _ _ _ _ Hd). }
  assert (printable k) as Hp.
  { destruct Hk as [|Hk]; [done|]. apply orb_false_elim in H1 as [?%Z.eqb_neq ?%Z.eqb_neq], H2 as [?%Z.eqb_neq ?%Z.eqb_neq]. set_solver. }
  destruct (char_input s k Hs Hp) as (s' & -> & Hs' & Hl). done.
Qed.
Lemma run_run keys : ∀ s, forks → (∀ k, k ∈ keys → is_key k) → shown s →
  match run keys s with
  | Done (inl _) s' => shown s' ∧ line s' = foldl edit (line s) keys
  | Done (inr code) _ => -128 ≤ code ≤ 127
  | _ => False
  end.
Proof.
  induction keys as [|k keys IH]; intros s Hf Hk Hs; cbn [run foldl]; [done|].
  pose proof (key_run k s Hf ltac:(apply Hk; left) Hs) as H1. unfold andthen.
  destruct (handle_input k s) as [[u|code] s1| |] eqn:Hr; try done; rewrite (kbind_run _ _ _ _ _ Hr); [|done].
  destruct H1 as [Hs1 <-]. apply IH; [done|intros x Hx; apply Hk; by right|done].
Qed.
Lemma main_start keys w : ∃ s, main keys (mkSh [] [] w) = run keys s ∧ shown s ∧ line s = [].
Proof.
  unfold main. destruct (println_run (text "Rust user shell") (mkSh [] [] w)) as (s1 & H1 & Ha);
    [unfold small, CONSOLE_BUFFER_SIZE; simpl; lia|].
  rewrite (kbind_run _ _ _ _ _ H1). destruct (new_prompt_run _ s1 Ha) as (s2 & H2 & Hs & Hl). destruct Ha as (_ & Hl1 & _).
  exists s2. split; [|done]. unfold new_prompt in H2. rewrite (kbind_run _ _ s1 () (set_line [] s1)) in H2 by done.
  assert (set_line [] s1 = s1) as E1 by (destruct s1; simpl in *; by subst). rewrite E1 in H2.
  unfold mbind, kst_bind in H2 |- *. destruct (print prompt s1); [|done..]. by rewrite H2.
Qed.

(** [exit n] *)
Lemma exit_words n : -128 ≤ n < 128 →
  split_space (trim (text "exit " ++ text (pretty n))) = [text "exit"; text (pretty n)] ∧ parse_i8 (text (pretty n)) = Some n.
Proof.
  intros Hn. assert (forallb (λ n, bool_decide (split_space (trim (text "exit " ++ text (pretty n))) = [text "exit"; text (pretty n)] ∧
    parse_i8 (text (pretty n)) = Some n)) (seqZ (-128) 256) = true) as Hall by (vm_compute; reflexivity).
  rewrite forallb_forall in Hall. apply (bool_decide_unpack _), Is_true_true_2, Hall, list_elem_of_In, elem_of_seqZ. lia.
Qed.
Lemma exit_line s n : -128 ≤ n < 128 → shown s → line s = text "exit " ++ text (pretty n) → ∃ s', handle_line_end s = Done (inr n) s'.
Proof.
  intros Hn (Hc & _) Hl. unfold handle_line_end.
  destruct (println_run [] s) as (s1 & H1 & (_ & Hl1 & _)); [unfold small; rewrite Hc; simpl; unfold CONSOLE_BUFFER_SIZE; lia|].
  rewrite (kbind_run _ _ _ _ _ H1), (kbind_run _ _ s1 s1 s1) by done. rewrite Hl1, Hl.
  destruct (exit_words n Hn) as [Hw Hp]. destruct (exit_run (A := ()) n s1) as (s2 & He).
  assert (Hb : handle_builtin [text "exit"; text (pretty n)] s1 = Done (inr n) s2).
  { unfold handle_builtin. rewrite (kbind_run _ _ s1 (text "exit") s1) by done. rewrite bool_decide_eq_true_2 by done.
    assert (handle_builtin_exit [text "exit"; text (pretty n)] s1 = Done (inr n) s2) as Hx
      by (unfold handle_builtin_exit; change (2 <? length [text "exit"; text (pretty n)])%nat with false; cbn [lookup list_lookup]; by rewrite Hp).
    unfold andthen. by rewrite (kbind_run _ _ _ _ _ Hx). }
  assert (Hln : handle_line (trim (text "exit " ++ text (pretty n))) s1 = Done (inr n) s2).
  { unfold handle_line. set (t := trim _) in Hw |- *. clearbody t. destruct t as [|x t]; [done|]. rewrite Hw. unfold andthen. by rewrite (kbind_run _ _ _ _ _ Hb). }
  unfold andthen. rewrite (kbind_run _ _ _ _ _ Hln). by exists s2.
Qed.

(** C27: the shell shows what it will run. Whatever printable keys, deletions and line
    ends are typed, as long as processes can be made: the shell does not panic; as
    long as it runs, the last row of the terminal is the prompt followed by the
    line the keys have made, with the cursor behind it and blanks after it, whatever
    the commands have printed, and nothing is left in the console buffer; and the
    line [exit n], [n] from -128 to 127, ends it with the code [n]. *)
Theorem shell_shows keys w :
  forks → (∀ k, k ∈ keys → is_key k) →
  match main keys (mkSh [] [] w) with
  | Done (inl _) s =>
      shown s ∧ line s = foldl edit [] keys ∧
      ∀ n, -128 ≤ n < 128 → line s = text "exit " ++ text (pretty n) → ∃ s', handle_input LF s = Done (inr n) s'
  | Done (inr code) _ => -128 ≤ code ≤ 127
  | _ => False
  end.
Proof.
  intros Hf Hk. destruct (main_start keys w) as (s & -> & Hs & Hl). pose proof (run_run keys s Hf Hk Hs) as Hr. rewrite Hl in Hr.
  destruct (run keys s) as [[u|code] s'| |]; try done. destruct Hr as [Hs' Hl']. split_and!; [done|done|].
  intros n Hn Hx. by apply exit_line.
Qed.
End shell.

(** ** Example: a terminal, and commands that print something *)
Module ShellDemo.
#[local, program] Instance OneTerminal : ShellEnv := {|
  W := list Z; screen w := w; w_write _ b w := (Z.of_nat (length b), w ++ b);
  w_fork w := (7, w); w_waitpid pid _ w := (pid, 0, w ++ text "hi"); w_chdir _ w := (-2, w);
|}.
Next Obligation. done. Qed.
Next Obligation. done. Qed.

(** ["lt"], a deletion, ["s"], the end of the line, ["ex"] *)
Lemma shell_shows_witness :
  let keys := text "lt" ++ [DL] ++ text "s" ++ [CR] ++ text "ex" in
  match main keys (mkSh [] [] []) with Done (inl _) s => shown s ∧ line s = text "ex" | _ => False end.
Proof.
  intros keys. pose proof (shell_shows keys []) as H.
  assert (Hf : forks) by (by split).
  assert (Hk : ∀ k, k ∈ keys → is_key k).
  { intros k Hk. assert (bool_decide (32 ≤ k < 127) || bool_decide (k ∈ [LF; CR; BS; DL]) = true) as Hb.
    { revert k Hk. apply Forall_forall. apply (bool_decide_unpack _). vm_compute. exact I. }
    apply orb_true_iff in Hb as [Hb%bool_decide_eq_true|Hb%bool_decide_eq_true]; [by left|by right]. }
  specialize (H Hf Hk). destruct (main keys _) as [[u|code] s| |] eqn:E; [|vm_compute in E; discriminate..].
  destruct H as (Hs & Hl & _). split; [exact Hs|]. rewrite Hl. reflexivity.
Defined.

(** A zero byte typed after [cd] panics the shell. *)
Lemma cd_nul_panics : main (text "cd a" ++ [0; LF]) (mkSh [] [] []) = Crash.
Proof. reflexivity. Qed.
End ShellDemo.

(** When no process can be made the line is kept, without a prompt. *)
Module NoFork.
#[local, program] Instance NoProcess : ShellEnv := {|
  W := list Z; screen w := w; w_write _ b w := (Z.of_nat (length b), w ++ b);
  w_fork w := (-11, w); w_waitpid pid _ w := (pid, 0, w); w_chdir _ w := (0, w);
|}.
Next Obligation. done. Qed.
Next Obligation. done. Qed.
Lemma fork_failure_keeps_line :
  match main (text "ls" ++ [LF]) (mkSh [] [] []) with
  | Done (inl _) s => line s = text "ls" ∧ row (screen (env s)) = ([], O)
  | _ => False
  end.
Proof. by vm_compute. Qed.
End NoFork.
