(* ===== verification/Pipe.v ===== *)
(** * Pipes ([libkernel/src/fs/pipe.rs])

    A pipe is a bounded channel of bytes of the crate [async_channel] with the
    metadata its two ends share. The channel is the class [AsyncChannel]: its
    laws state the documented behaviour of the operations the pipe calls. *)
From S2P Require Import Prelude Address Defines Kst FrameAllocator UserCheck UserAccess Inode.

(** [ch_closed]: all the senders, or all the receivers, are gone. *)
Class AsyncChannel := {
  channel : Type;
  bounded : Z → channel;
  try_send : channel → Z → option channel;
  try_recv : channel → option (Z * channel);
  close : channel → channel;
  ch_queue : channel → list Z;
  ch_capacity : channel → Z;
  ch_closed : channel → bool;
  bounded_spec n : ch_queue (bounded n) = [] ∧ ch_capacity (bounded n) = n ∧ ch_closed (bounded n) = false;
  try_send_spec c b :
    match try_send c b with
    | Some c' => ch_closed c = false ∧ Z.of_nat (length (ch_queue c)) < ch_capacity c ∧
        ch_queue c' = ch_queue c ++ [b] ∧ ch_capacity c' = ch_capacity c ∧ ch_closed c' = false
    | None => ch_closed c = true ∨ ch_capacity c ≤ Z.of_nat (length (ch_queue c))
    end;
  try_recv_spec c :
    match try_recv c with
    | Some (b, c') => ch_queue c = b :: ch_queue c' ∧ ch_capacity c' = ch_capacity c ∧
        ch_closed c' = ch_closed c
    | None => ch_queue c = []
    end;
  close_spec c : ch_queue (close c) = ch_queue c ∧ ch_capacity (close c) = ch_capacity c ∧
    ch_closed (close c) = true;
}.

(** A future that is polled is done or waits. *)
Inductive poll (A : Type) : Type := Ready (x : A) | Pending.
Arguments Ready {A} x.
Arguments Pending {A}.

Inductive PipeEnd : Type := ReadEnd | WriteEnd.
#[export] Instance PipeEnd_eq_dec : EqDecision PipeEnd.
Proof. solve_decision. Defined.

Definition PIPE_CAPACITY : Z := 16384.

Section pipe.
Context {BD : Buddy} {KI : KernelImage} {AC : AsyncChannel} {U : Type} {UM : UserMemory U}.
#[local] Abbreviation PipeIo := (Io channel U).

(** [make_pipe]: the channel and the metadata of the two ends. *)
Definition make_pipe (number : Z) (now : TimeSpec) : channel * InodeMeta :=
  (bounded PIPE_CAPACITY, Meta.with_change (Meta.with_len (Meta.new number Fifo) PIPE_CAPACITY) now).

(** One byte to the buffer. *)
Definition put_byte (buf : ReadBuffer) (n_read byte : Z) : kst PipeIo () :=
  match buf with
  | RKernel => rbuf_put RKernel n_read [byte]
  | RUser addr _ =>
      o ← klift (UserCheck_add addr 1 n_read);
      p ← kok_or o EINVAL;
      on_user (_ ← check_write p 1; store_user p [byte])
  end.

(** The loop of [read], from [n_read] on: it stops when the buffer is full or
    the channel is empty and closed, and waits when the channel is empty. The
    result carries how far it got. *)
Fixpoint read_bytes (fuel : nat) (buf : ReadBuffer) (n_read : Z) : kst PipeIo (poll () * Z) :=
  match fuel with
  | O => mret (Ready (), n_read)
  | S fuel =>
      s ← kget;
      match try_recv (io_dev s) with
      | Some (byte, c) =>
          _ ← kmodify (set_io_dev c);
          _ ← put_byte buf n_read byte;
          read_bytes fuel buf (n_read + 1)
      | None => mret (if ch_closed (io_dev s) then Ready () else Pending, n_read)
      end
  end.

(** [Pipe::read], polled when [n_read] bytes have been received. *)
Definition pipe_read (now : TimeSpec) (e : PipeEnd) (buf : ReadBuffer) (n_read : Z) :
    kst PipeIo (poll Z * Z) :=
  if bool_decide (e = ReadEnd) then
    s ← kget;
    '(p, n) ← read_bytes (Z.to_nat (rbuf_len buf s - n_read)) buf n_read;
    match p with
    | Ready _ =>
        _ ← kmodify (λ s, set_io_meta (Meta.with_access (io_meta s) now) s);
        mret (Ready n, n)
    | Pending => mret (Pending, n)
    end
  else kfail EBADF.

(** The [for] loop of [write]: the bytes sent, and whether a send failed. *)
Fixpoint send_bytes (bs : list Z) (c : channel) (n : Z) : channel * Z * bool :=
  match bs with
  | [] => (c, n, false)
  | b :: bs =>
      match try_send c b with
      | Some c => send_bytes bs c (n + 1)
      | None => (c, n + 1, true)
      end
  end.

(** [Pipe::write]. The [for] loop is left with every byte sent or with a send
    that failed, so [send(last_byte).await] is not reached. *)
Definition pipe_write (now : TimeSpec) (e : PipeEnd) (buf : WriteBuffer) : kst PipeIo Z :=
  if bool_decide (e = WriteEnd) then
    slice ← wbuf_get buf 0 (wbuf_len buf);
    s ← kget;
    let '(c, this_n_write, _) := send_bytes slice (io_dev s) 0 in
    _ ← kmodify (set_io_dev c);
    _ ← kmodify (λ s, set_io_meta (Meta.with_modify (io_meta s) now) s);
    mret this_n_write
  else kfail EBADF.

(** ** What the channel does *)
Definition room (c : channel) : Z :=
  if ch_closed c then 0 else Z.max 0 (ch_capacity c - Z.of_nat (length (ch_queue c))).

Lemma send_bytes_spec bs : ∀ c n c' m full,
  send_bytes bs c n = (c', m, full) →
  let k := Z.to_nat (Z.min (room c) (Z.of_nat (length bs))) in
  ch_queue c' = ch_queue c ++ take k bs ∧ ch_capacity c' = ch_capacity c ∧
  ch_closed c' = ch_closed c ∧
  full = (room c <? Z.of_nat (length bs)) ∧
  m = n + Z.min (room c + 1) (Z.of_nat (length bs)).
Proof.
  induction bs as [|b bs IH]; intros c n c' m full; simpl.
  { intros [= <- <- <-]. rewrite take_nil, app_nil_r. assert (0 ≤ room c) by (unfold room; destruct (ch_closed c); lia).
    split_and!; [done|done|done|symmetry; by apply Z.ltb_ge|lia]. }
  pose proof (try_send_spec c b) as Hs. destruct (try_send c b) as [c1|].
  - destruct Hs as (Ho & Hr & Hq & Hc & Ho1). intros E. destruct (IH c1 _ _ _ _ E) as (Hq' & Hc' & Hcl & Hf & Hm).
    assert (room c1 = room c - 1) as Er.
    { unfold room. rewrite Ho, Ho1, Hq, Hc, length_app. simpl. lia. }
    assert (0 < room c) by (unfold room; rewrite Ho; lia). rewrite Er in *.
    replace (Z.to_nat (Z.min (room c) (Z.of_nat (S (length bs)))))
      with (S (Z.to_nat (Z.min (room c - 1) (Z.of_nat (length bs))))) by lia.
    simpl. rewrite Hq', Hq, <- app_assoc. split_and!; [done|by rewrite Hc', Hc|by rewrite Hcl, Ho, Ho1| |lia].
    rewrite Hf. apply Bool.eq_true_iff_eq. rewrite !Z.ltb_lt. lia.
  - intros [= <- <- <-]. assert (room c = 0) as ->.
    { unfold room. destruct (ch_closed c); [done|]. destruct Hs as [?|?]; [done|lia]. }
    simpl. rewrite app_nil_r. split_and!; [done|done|done|symmetry; apply Z.ltb_lt; lia|lia].
Qed.

(** The bytes of a buffer, in the space that remains of the channel. *)
Definition accepted (c : channel) (bs : list Z) : list Z :=
  take (Z.to_nat (Z.min (room c) (Z.of_nat (length bs)))) bs.

(** Whatever the buffer is: when its bytes can be read they are sent, and when
    they cannot the write fails and sends nothing. *)
Lemma pipe_write_run now buf (s : PipeIo) :
  match wbuf_get buf 0 (wbuf_len buf) s with
  | Done bs s1 =>
      ∃ s', pipe_write now WriteEnd buf s =
          Done (if room (io_dev s1) <? Z.of_nat (length bs) then room (io_dev s1) + 1
                else Z.of_nat (length bs)) s' ∧
        ch_queue (io_dev s') = ch_queue (io_dev s1) ++ accepted (io_dev s1) bs ∧
        ch_capacity (io_dev s') = ch_capacity (io_dev s1) ∧ io_kbuf s' = io_kbuf s1 ∧
        io_user s' = io_user s1
  | Fail e s1 => pipe_write now WriteEnd buf s = Fail e s1
  | Crash => pipe_write now WriteEnd buf s = Crash
  end.
Proof.
  unfold pipe_write. rewrite bool_decide_eq_true_2 by done.
  destruct (wbuf_get buf 0 (wbuf_len buf) s) as [bs s1|e s1|] eqn:Hg.
  2, 3: unfold mbind, kst_bind; by rewrite Hg.
  rewrite (kbind_run _ _ _ _ _ Hg), (kbind_run _ _ s1 s1 s1) by done.
  destruct (send_bytes bs (io_dev s1) 0) as [[c m] full] eqn:E.
  destruct (send_bytes_spec bs _ _ _ _ _ E) as (Hq & Hc & _ & Hf & Hm).
  exists (set_io_meta (Meta.with_modify (io_meta s1) now) (set_io_dev c s1)).
  split; [|simpl; by rewrite Hq, Hc]. unfold mbind, kst_bind, kmodify. simpl. f_equal.
  assert (0 ≤ room (io_dev s1)) by (unfold room; destruct (ch_closed (io_dev s1)); lia).
  destruct (Z.ltb_spec (room (io_dev s1)) (Z.of_nat (length bs))); lia.
Qed.

(** Reading the buffer of a write leaves the pipe alone. *)
Lemma wbuf_get_dev buf n len (s : PipeIo) :
  match wbuf_get buf n len s with Done _ s1 | Fail _ s1 => io_dev s1 = io_dev s | Crash => True end.
Proof.
  destruct buf as [bs|addr l]; simpl; [done|]. unfold mbind, kst_bind, kassert.
  destruct (addr + n <=? usize_max); [|done]. unfold on_user.
  by repeat (case_match; simplify_eq/=).
Qed.

(** A write to a pipe sends the bytes in order as long as the channel has
    room. A write that fits returns its length; a write that does not fit sends
    what fits and returns one more than it sent, the byte that was refused being
    counted although it is lost (as is, into a pipe without readers, the first
    byte). *)
Theorem pipe_write_spec now (s : PipeIo) bs :
  ∃ s', pipe_write now WriteEnd (WKernel bs) s =
      Done (if room (io_dev s) <? Z.of_nat (length bs) then room (io_dev s) + 1 else Z.of_nat (length bs)) s' ∧
    ch_queue (io_dev s') =
      ch_queue (io_dev s) ++ take (Z.to_nat (Z.min (room (io_dev s)) (Z.of_nat (length bs)))) bs ∧
    ch_capacity (io_dev s') = ch_capacity (io_dev s) ∧ io_kbuf s' = io_kbuf s ∧ io_user s' = io_user s.
Proof.
  pose proof (pipe_write_run now (WKernel bs) s) as H. simpl in H.
  change (Z.to_nat 0) with 0%nat in H. by rewrite Nat2Z.id, drop_0, firstn_all in H.
Qed.

(** ** Reading *)
Definition received (kbuf : list Z) (n_read : Z) (bs : list Z) : list Z :=
  take (Z.to_nat n_read) kbuf ++ bs ++ drop (Z.to_nat n_read + length bs) kbuf.

Lemma received_app kbuf n b bs :
  0 ≤ n → n + 1 + Z.of_nat (length bs) ≤ Z.of_nat (length kbuf) →
  received (received kbuf n [b]) (n + 1) bs = received kbuf n (b :: bs).
Proof.
  intros Hn Hl. unfold received. replace (Z.to_nat (n + 1)) with (Z.to_nat n + 1)%nat by lia.
  simpl. rewrite take_app_add' by (rewrite length_take; lia). simpl.
  rewrite <- app_assoc. simpl. do 2 f_equal. f_equal.
  rewrite drop_app_ge by (rewrite length_take; lia). rewrite length_take, min_l by lia.
  replace (Z.to_nat n + 1 + length bs - Z.to_nat n)%nat with (S (length bs)) by lia. simpl.
  rewrite drop_drop. f_equal. lia.
Qed.

End pipe.

(** ** User memory with a record of what was stored

    The bytes the kernel has stored into the memory of a process, in order. *)
#[export] Program Instance Logged {U} (UM : UserMemory U) : UserMemory (U * list Z) := {|
  um_check_read u a n := let? (r, v) := um_check_read u.1 a n in Ok (r, (v, u.2));
  um_check_write u a n := let? (r, v) := um_check_write u.1 a n in Ok (r, (v, u.2));
  um_load u a n := um_load u.1 a n;
  um_store u a bs := let? v := um_store u.1 a bs in Ok (v, u.2 ++ bs);
  um_ok u a n := um_ok u.1 a n;
|}.
Next Obligation. intros U UM [u l] a n Hok. simpl in *. by rewrite (um_ok_read u a n Hok). Qed.
Next Obligation.
  intros U UM [u l] a n Hok. simpl in *. destruct (um_ok_write u a n Hok) as (u' & -> & Hu & Hl).
  by exists (u', l).
Qed.
Next Obligation.
  intros U UM [u l] a bs Hok. simpl in *. destruct (um_ok_store u a bs Hok) as (u' & -> & Hu & Hl).
  by exists (u', l ++ bs).
Qed.
Next Obligation. intros U UM [u l] a n k Hk. simpl. by apply um_ok_prefix. Qed.

Section pipe_runs.
Context {BD : Buddy} {KI : KernelImage} {AC : AsyncChannel} {U : Type} {UM : UserMemory U}.
#[local] Abbreviation PipeIo := (Io channel (U * list Z)).
Implicit Types (s : PipeIo) (buf : ReadBuffer).

(** One byte to the buffer: it is stored, or the buffer and the log are as
    before. The pipe is not involved. *)
Lemma put_byte_run buf n b s :
  match put_byte buf n b s with
  | Done _ s' =>
      io_dev s' = io_dev s ∧
      match buf with
      | RKernel => io_kbuf s' = received (io_kbuf s) n [b]
      | RUser _ _ => (io_user s').2 = (io_user s).2 ++ [b]
      end
  | Fail _ s' => io_dev s' = io_dev s ∧ (∃ a l, buf = RUser a l) ∧ (io_user s').2 = (io_user s).2
  | Crash => True
  end.
Proof.
  destruct buf as [|addr len]; simpl; [done|]. unfold mbind, kst_bind, klift.
  destruct (UserCheck_add addr 1 n) as [[p|]|e|] eqn:E; simpl; [|by eauto|by eauto|done].
  - unfold on_user, check_write, kcheck, store_user, kst_bind. simpl.
    destruct (um_check_write _ p 1) as [[[?|e] v]|e|]; simpl; [|by eauto|done..].
    by destruct (um_store v p [b]) as [w|e|].
Qed.

(** What a reader finds in its buffer after a poll that took it from [n] to
    [n'] bytes: the new bytes of its kernel buffer, or what was stored into its
    memory. *)
Definition delivered buf (n n' : Z) s s' : list Z :=
  match buf with
  | RKernel => take (Z.to_nat (n' - n)) (drop (Z.to_nat n) (io_kbuf s'))
  | RUser _ _ => drop (length (io_user s).2) (io_user s').2
  end.

(** The buffer after [bs] has been put at [n]. *)
Definition holds buf (n : Z) (bs : list Z) s s' : Prop :=
  match buf with
  | RKernel => io_kbuf s' = received (io_kbuf s) n bs
  | RUser _ _ => (io_user s').2 = (io_user s).2 ++ bs
  end.

Lemma holds_delivered buf n bs s s' :
  0 ≤ n → (buf = RKernel → n + Z.of_nat (length bs) ≤ Z.of_nat (length (io_kbuf s))) →
  holds buf n bs s s' → delivered buf n (n + Z.of_nat (length bs)) s s' = bs.
Proof.
  intros Hn Hl. destruct buf as [|a l]; simpl; intros ->; [|by rewrite drop_app_length].
  specialize (Hl eq_refl). unfold received.
  rewrite drop_app_length' by (rewrite length_take; lia).
  by rewrite take_app_length' by lia.
Qed.

(** The loop of a read: bytes go from the front of the channel to the buffer, in
    order. It waits when the channel is empty and open with room in the buffer.
    When the buffer is not accessible the byte that was just received is lost. *)
Lemma read_bytes_spec fuel buf : ∀ s n,
  0 ≤ n → (buf = RKernel → n + Z.of_nat fuel ≤ Z.of_nat (length (io_kbuf s))) →
  let q := ch_queue (io_dev s) in
  match read_bytes fuel buf n s with
  | Done (p, n') s' =>
      let k := Nat.min fuel (length q) in
      n' = n + Z.of_nat k ∧ p = (if (k <? fuel)%nat && negb (ch_closed (io_dev s)) then Pending else Ready ()) ∧
      ch_queue (io_dev s') = drop k q ∧ ch_capacity (io_dev s') = ch_capacity (io_dev s) ∧
      holds buf n (take k q) s s'
  | Fail _ s' => ∃ bs b,
      q = bs ++ b :: ch_queue (io_dev s') ∧ ch_capacity (io_dev s') = ch_capacity (io_dev s) ∧
      (∃ a l, buf = RUser a l) ∧ (io_user s').2 = (io_user s).2 ++ bs
  | Crash => True
  end.
Proof.
  assert (Hnil : ∀ n s, holds buf n [] s s).
  { intros n s. destruct buf; simpl; [|by rewrite app_nil_r].
    unfold received. simpl. by rewrite Nat.add_0_r, take_drop. }
  induction fuel as [|fuel IH]; intros s n Hn Hl; simpl.
  { split_and!; [lia|done..|apply Hnil]. }
  rewrite (kbind_run _ _ s s s) by done.
  pose proof (try_recv_spec (io_dev s)) as Hr. destruct (try_recv (io_dev s)) as [[b c]|]; cycle 1.
  { simpl. rewrite Hr. simpl. split_and!; [lia|by destruct (ch_closed (io_dev s))|done..|apply Hnil]. }
  destruct Hr as (Hq & Hcap & Hcl). rewrite (kbind_run _ _ s () (set_io_dev c s)) by done.
  pose proof (put_byte_run buf n b (set_io_dev c s)) as Hp. unfold mbind, kst_bind.
  destruct (put_byte buf n b (set_io_dev c s)) as [[] s1|e s1|]; [| |done].
  - destruct Hp as [Hd Hp]. simpl in *.
    assert (Hh : holds buf n [b] s s1) by (by destruct buf). clear Hp.
    specialize (IH s1 (n + 1) ltac:(lia)). rewrite Hd in IH.
    destruct (read_bytes fuel buf (n + 1) s1) as [[p n'] s'|e s'|]; [| |done].
    + destruct IH as (-> & -> & Hq' & Hc' & Hh').
      { intros ->. simpl in Hh. rewrite Hh. unfold received. specialize (Hl eq_refl).
        rewrite !length_app, length_take, length_drop. simpl. lia. }
      rewrite Hq, <- Hcl. simpl. split_and!; [lia|done|done|congruence|].
      destruct buf; simpl in *; [|by rewrite Hh', Hh, <- app_assoc].
      rewrite Hh', Hh. specialize (Hl eq_refl). apply received_app; [lia|]. rewrite length_take. lia.
    + destruct IH as (bs & b' & Hbs & Hc' & (a & l & ->) & Hlog).
      { intros ->. simpl in Hh. rewrite Hh. unfold received. specialize (Hl eq_refl).
        rewrite !length_app, length_take, length_drop. simpl. lia. }
      exists (b :: bs), b'. simpl in Hh. rewrite Hq, Hbs, Hlog, Hh, <- app_assoc.
      split_and!; [done|congruence|by eauto|done].
  - destruct Hp as (Hd & Hb & Hlog). simpl in *. exists [], b. rewrite Hd, Hq, app_nil_r. done.
Qed.

(** A read from a pipe, started or resumed: it takes the bytes in the order they
    were sent, up to the size of the buffer. It ends short only when the pipe is
    empty and closed, which is the end of the stream, and waits when it is
    empty and open. *)
Lemma pipe_read_spec now buf n s :
  0 ≤ n ≤ rbuf_len buf s →
  let q := ch_queue (io_dev s) in
  match pipe_read now ReadEnd buf n s with
  | Done (p, n') s' =>
      let k := Nat.min (Z.to_nat (rbuf_len buf s - n)) (length q) in
      n' = n + Z.of_nat k ∧
      p = (if (n' <? rbuf_len buf s) && negb (ch_closed (io_dev s)) then Pending else Ready n') ∧
      ch_queue (io_dev s') = drop k q ∧ ch_capacity (io_dev s') = ch_capacity (io_dev s) ∧
      delivered buf n n' s s' = take k q
  | Fail _ s' => ∃ b,
      q = delivered buf n n s s' ++ b :: ch_queue (io_dev s') ∧
      ch_capacity (io_dev s') = ch_capacity (io_dev s)
  | Crash => True
  end.
Proof.
  intros Hn q. unfold pipe_read. rewrite bool_decide_eq_true_2 by done.
  rewrite (kbind_run _ _ s s s) by done. set (f := Z.to_nat (rbuf_len buf s - n)).
  assert (Hl : buf = RKernel → n + Z.of_nat f ≤ Z.of_nat (length (io_kbuf s))).
  { intros ->. unfold f. simpl in *. lia. }
  pose proof (read_bytes_spec f buf s n ltac:(lia) Hl) as Hr. cbn zeta in Hr. fold q in Hr.
  unfold mbind, kst_bind at 1. destruct (read_bytes f buf n s) as [[p n'] s'|e s'|]; [| |done].
  - destruct Hr as (-> & -> & Hq & Hc & Hh).
    assert (Ht : length (take (Nat.min f (length q)) q) = Nat.min f (length q)) by (rewrite length_take; lia).
    assert (Hd : delivered buf n (n + Z.of_nat (Nat.min f (length q))) s s' = take (Nat.min f (length q)) q).
    { rewrite <- Ht at 1. apply holds_delivered; [lia| |done]. intros Hb. specialize (Hl Hb). lia. }
    assert (Hlt : (Nat.min f (length q) <? f)%nat = (n + Z.of_nat (Nat.min f (length q)) <? rbuf_len buf s)).
    { apply Bool.eq_true_iff_eq. rewrite Nat.ltb_lt, Z.ltb_lt. lia. }
    rewrite Hlt. destruct ((_ <? rbuf_len buf s) && negb (ch_closed (io_dev s))) eqn:Hb; cbn; by rewrite Hb.
  - destruct Hr as (bs & b & Hq & Hc & (a & l & ->) & Hlog). exists b. simpl.
    by rewrite Hlog, drop_app_length.
Qed.

(** ** A pipe over time

    [pipe_run s acc got]: a pipe in state [s] that has accepted the bytes [acc];
    [got] is what its readers have seen, in order, where [None] stands for the
    byte that is missing after a read that failed. Writers and readers use
    kernel or user buffers; a read is polled from the start or resumed at the
    [n] bytes it has. Between the polls memory and buffers may change. *)
Inductive pipe_run : PipeIo → list Z → list (option Z) → Prop :=
| pr_new s : io_dev s = bounded PIPE_CAPACITY → pipe_run s [] []
| pr_write s acc got now (buf : WriteBuffer) bs s1 n s' :
    pipe_run s acc got →
    wbuf_get buf 0 (wbuf_len buf) s = Done bs s1 → pipe_write now WriteEnd buf s = Done n s' →
    pipe_run s' (acc ++ accepted (io_dev s) bs) got
| pr_write_fault s acc got now (buf : WriteBuffer) e s' :
    pipe_run s acc got → pipe_write now WriteEnd buf s = Fail e s' → pipe_run s' acc got
| pr_read s acc got now buf n p n' s' :
    pipe_run s acc got → 0 ≤ n ≤ rbuf_len buf s →
    pipe_read now ReadEnd buf n s = Done (p, n') s' →
    pipe_run s' acc (got ++ (Some <$> delivered buf n n' s s'))
| pr_read_fault s acc got now buf n e s' :
    pipe_run s acc got → 0 ≤ n ≤ rbuf_len buf s →
    pipe_read now ReadEnd buf n s = Fail e s' →
    pipe_run s' acc (got ++ (Some <$> delivered buf n n s s') ++ [None])
| pr_close s acc got :
    pipe_run s acc got → pipe_run (set_io_dev (close (io_dev s)) s) acc got
| pr_other s acc got s' :
    pipe_run s acc got → io_dev s' = io_dev s → pipe_run s' acc got.

(** A byte that was seen is the byte that was sent. *)
Definition seen (o : option Z) (b : Z) : Prop := match o with Some c => c = b | None => True end.

Lemma seen_all bs : Forall2 seen (Some <$> bs) bs.
Proof. induction bs; by constructor. Qed.

End pipe_runs.

(** ** A channel as a list *)
Program Definition ListChannel : AsyncChannel := {|
  channel := list Z * Z * bool;
  bounded n := ([], n, false);
  try_send '(q, n, cl) b := if negb cl && (Z.of_nat (length q) <? n) then Some (q ++ [b], n, cl) else None;
  try_recv '(q, n, cl) := match q with b :: q => Some (b, (q, n, cl)) | [] => None end;
  close '(q, n, _) := (q, n, true);
  ch_queue c := c.1.1;
  ch_capacity c := c.1.2;
  ch_closed c := c.2;
|}.
Next Obligation. done. Qed.
Next Obligation.
  intros [[q n] cl] b. simpl. destruct cl; simpl; [by left|].
  destruct (Z.ltb_spec (Z.of_nat (length q)) n); simpl; [by split_and!|by right].
Qed.
Next Obligation. intros [[[|b q] n] cl]; done. Qed.
Next Obligation. by intros [[q n] cl]. Qed.
#[export] Existing Instance ListChannel.

Definition pipe_io (q : list Z) (cap : Z) (kbuf : list Z) : Io channel Flat.t :=
  mkIo init_mem (make_pipe 0 TimeSpec_default).2 (q, cap, false) (Flat.mk 0 []) kbuf.

(** Three bytes are written from user memory; a read of two bytes fails at an
    inaccessible page, with one byte lost; a read of three bytes gets the other
    two and waits. *)
Module PipeDemo.
Definition s0 : Io channel (Flat.t * list Z) :=
  mkIo init_mem (make_pipe 0 TimeSpec_default).2 (bounded PIPE_CAPACITY) (Flat.mk 0x1000 [1; 2; 3], []) [].
Definition out {A} (r : kres (Io channel (Flat.t * list Z)) A) : Io channel (Flat.t * list Z) :=
  default s0 (kstate r).
Definition s1 := out (pipe_write TimeSpec_default WriteEnd (WUser 0x1000 3) s0).
Definition s2 := out (pipe_read TimeSpec_default ReadEnd (RUser 0x8000 2) 0 s1).
Definition s3 := out (pipe_read TimeSpec_default ReadEnd (RUser 0x1000 3) 0 s2).

Lemma run : pipe_run s3 [1; 2; 3] [None; Some 2; Some 3].
Proof.
  assert (H1 : pipe_run s1 [1; 2; 3] []).
  { by apply (pr_write s0 [] [] TimeSpec_default (WUser 0x1000 3) [1; 2; 3] s0 3 s1); [apply pr_new|..]. }
  assert (H2 : pipe_run s2 [1; 2; 3] [None]).
  { by apply (pr_read_fault s1 _ _ TimeSpec_default (RUser 0x8000 2) 0 EFAULT s2 H1). }
  by apply (pr_read s2 _ _ TimeSpec_default (RUser 0x1000 3) 0 Pending 2 s3 H2).
Qed.
End PipeDemo.


(** The byte a failing read had received is gone from the pipe and has reached
    nobody. *)
Lemma pipe_read_fault_loses :
  match pipe_read TimeSpec_default ReadEnd (RUser 0x8000 2) 0 PipeDemo.s1 with
  | Fail e s => bool_decide (e = EFAULT) && bool_decide (ch_queue (io_dev s) = [2; 3]) &&
                bool_decide ((io_user s).2 = [])
  | _ => false
  end = true.
Proof. by vm_compute. Qed.

(** Two bytes written into a pipe with room for one: the result is 2. *)
Lemma pipe_write_overcounts :
  match pipe_write TimeSpec_default WriteEnd (WKernel [1; 2]) (pipe_io [] 1 []) with
  | Done n s => (n =? 2) && bool_decide (ch_queue (io_dev s) = [1])
  | _ => false
  end = true.
Proof. by vm_compute. Qed.
