(* ===== verification/Tty.v ===== *)
(** * The terminal

    The serial port driver ([drivers/qemu_uart]), the terminal and clock devices
    ([fs/devfs/src/tty.rs], [rtc.rs]). A waker is the number of its task; the
    wakers that are called are recorded, the latest last. *)
From S2P Require Import Prelude Address Defines Kst UserCheck UserAccess Inode.

#[local] Obligation Tactic := idtac.

(** ** [Termios] and [WinSize] *)
Definition NCCS : nat := 19.
Record Termios : Type := mkTermios { iflag : Z; oflag : Z; cflag : Z; lflag : Z; line : Z; cc : list Z }.
Record WinSize : Type := mkWinSize { ws_row : Z; ws_col : Z; xpixel : Z; ypixel : Z }.

Definition enc_termios (t : Termios) : list Z :=
  to_le_bytes 4 (iflag t) ++ to_le_bytes 4 (oflag t) ++ to_le_bytes 4 (cflag t) ++ to_le_bytes 4 (lflag t) ++
  to_le_bytes 1 (line t) ++ take NCCS (cc t ++ replicate NCCS 0).
Definition field (n off : nat) (bs : list Z) : Z := from_le_bytes (take n (drop off bs)).
Definition dec_termios (bs : list Z) : Termios :=
  mkTermios (field 4 0 bs) (field 4 4 bs) (field 4 8 bs) (field 4 12 bs) (field 1 16 bs) (take NCCS (drop 17 bs)).
Definition enc_winsize (w : WinSize) : list Z :=
  to_le_bytes 2 (ws_row w) ++ to_le_bytes 2 (ws_col w) ++ to_le_bytes 2 (xpixel w) ++ to_le_bytes 2 (ypixel w).
Definition dec_winsize (bs : list Z) : WinSize :=
  mkWinSize (field 2 0 bs) (field 2 2 bs) (field 2 4 bs) (field 2 6 bs).

Lemma field_at n off pre x post :
  length pre = off → 0 ≤ x < 2 ^ (8 * Z.of_nat n) → field n off (pre ++ to_le_bytes n x ++ post) = x.
Proof.
  intros <- Hx. unfold field. rewrite drop_app_length, take_app_length' by (by rewrite length_to_le_bytes).
  by apply from_to_le_bytes.
Qed.

Definition u32_ok (x : Z) : Prop := 0 ≤ x < 2 ^ 32.
Definition u16_ok (x : Z) : Prop := 0 ≤ x < 2 ^ 16.
Program Definition Termios_codec : Codec Termios := {|
  size_of := 36;
  encode := enc_termios;
  decode := dec_termios;
  in_range t := u32_ok (iflag t) ∧ u32_ok (oflag t) ∧ u32_ok (cflag t) ∧ u32_ok (lflag t) ∧
                0 ≤ line t < 2 ^ 8 ∧ length (cc t) = NCCS;
|}.
Next Obligation.
  intros t. unfold enc_termios. rewrite !length_app, !length_to_le_bytes, length_take, length_app, length_replicate.
  unfold NCCS. lia.
Qed.
Next Obligation.
  intros [i o c l n cs] (Hi & Ho & Hc & Hl & Hn & Hcs). unfold u32_ok in *.
  cbn [iflag oflag cflag lflag line cc] in *. unfold dec_termios, enc_termios. cbn [iflag oflag cflag lflag line cc].
  rewrite (take_app_length' cs) by done.
  set (a := to_le_bytes 4 i). set (b := to_le_bytes 4 o). set (d := to_le_bytes 4 c). set (e := to_le_bytes 4 l).
  assert (length a = 4 ∧ length b = 4 ∧ length d = 4 ∧ length e = 4)%nat as (Ha & Hb & Hd & He)
    by (unfold a, b, d, e; by rewrite !length_to_le_bytes).
  f_equal.
  - apply (field_at 4 0 [] i); [done|lia].
  - apply (field_at 4 4 a o); [done|lia].
  - rewrite (app_assoc a). apply (field_at 4 8 (a ++ b) c); [rewrite length_app; lia|lia].
  - rewrite (app_assoc a), (app_assoc (a ++ b)).
    apply (field_at 4 12 ((a ++ b) ++ d) l); [rewrite !length_app; lia|lia].
  - rewrite (app_assoc a), (app_assoc (a ++ b)), (app_assoc ((a ++ b) ++ d)).
    apply (field_at 1 16 (((a ++ b) ++ d) ++ e) n); [rewrite !length_app; lia|lia].
  - rewrite (app_assoc a), (app_assoc (a ++ b)), (app_assoc ((a ++ b) ++ d)), (app_assoc (((a ++ b) ++ d) ++ e)).
    rewrite drop_app_length' by (rewrite !length_app, length_to_le_bytes; lia). by apply take_ge; rewrite Hcs.
Qed.
Program Definition WinSize_codec : Codec WinSize := {|
  size_of := 8;
  encode := enc_winsize;
  decode := dec_winsize;
  in_range w := u16_ok (ws_row w) ∧ u16_ok (ws_col w) ∧ u16_ok (xpixel w) ∧ u16_ok (ypixel w);
|}.
Next Obligation. intros w. unfold enc_winsize. by rewrite !length_app, !length_to_le_bytes. Qed.
Next Obligation.
  intros [r c x y] (Hr & Hc & Hx & Hy). unfold u16_ok in *. cbn [ws_row ws_col xpixel ypixel] in *.
  unfold dec_winsize, enc_winsize. cbn [ws_row ws_col xpixel ypixel].
  set (a := to_le_bytes 2 r). set (b := to_le_bytes 2 c). set (d := to_le_bytes 2 x).
  assert (length a = 2 ∧ length b = 2 ∧ length d = 2)%nat as (Ha & Hb & Hd)
    by (unfold a, b, d; by rewrite !length_to_le_bytes).
  f_equal.
  - apply (field_at 2 0 [] r); [done|lia].
  - apply (field_at 2 2 a c); [done|lia].
  - rewrite (app_assoc a). apply (field_at 2 4 (a ++ b) x); [rewrite length_app; lia|lia].
  - rewrite <- (app_nil_r (to_le_bytes 2 y)), (app_assoc a), (app_assoc (a ++ b)).
    apply (field_at 2 6 ((a ++ b) ++ d) y); [rewrite !length_app; lia|lia].
Qed.

(** ** The driver *)
Definition TTY_BUFFER_LEN : nat := 128.
Record Tty : Type := mkTty { tty_queue : list Z; tty_waker : option Z }.
(** [Tty::get_byte] *)
Definition get_byte (t : Tty) : option Z * Tty :=
  match tty_queue t with
  | [] => (None, t)
  | b :: q => (Some b, mkTty q (tty_waker t))
  end.
(** [Tty::register_waker]: the old waker is called. *)
Definition register_waker (w : Z) (t : Tty) : Tty * list Z := (mkTty (tty_queue t) (Some w), option_list (tty_waker t)).
(** [Uart::handle_irq] on the byte the port received; a full queue drops it. *)
Definition handle_irq (ch : Z) (t : Tty) : Tty * list Z :=
  let q := if (length (tty_queue t) <? TTY_BUFFER_LEN)%nat then tty_queue t ++ [ch] else tty_queue t in
  (mkTty q None, option_list (tty_waker t)).

(** ** The device *)
Section device.
Context {U : Type} `{UserMemory U}.

Record TtyInodeInner : Type := mkInner { fg_pgid : Z; win_size : WinSize; termios : Termios }.
Record TtySt : Type := mkTtySt {
  ts_tty : Tty;
  ts_inner : TtyInodeInner;
  ts_meta : InodeMeta;
  ts_out : list Z;
  ts_woken : list Z;
  ts_user : U;
}.
Definition set_tty (t : Tty) (s : TtySt) : TtySt := mkTtySt t (ts_inner s) (ts_meta s) (ts_out s) (ts_woken s) (ts_user s).
Definition set_inner (i : TtyInodeInner) (s : TtySt) : TtySt :=
  mkTtySt (ts_tty s) i (ts_meta s) (ts_out s) (ts_woken s) (ts_user s).
Definition set_tmeta (m : InodeMeta) (s : TtySt) : TtySt :=
  mkTtySt (ts_tty s) (ts_inner s) m (ts_out s) (ts_woken s) (ts_user s).
Definition put_out (bs : list Z) (s : TtySt) : TtySt :=
  mkTtySt (ts_tty s) (ts_inner s) (ts_meta s) (ts_out s ++ bs) (ts_woken s) (ts_user s).
Definition call_wakers (l : list Z) (s : TtySt) : TtySt :=
  mkTtySt (ts_tty s) (ts_inner s) (ts_meta s) (ts_out s) (ts_woken s ++ l) (ts_user s).
Definition on_tty_user {A} (c : kst U A) : kst TtySt A := λ s,
  let upd u := mkTtySt (ts_tty s) (ts_inner s) (ts_meta s) (ts_out s) (ts_woken s) u in
  match c (ts_user s) with
  | Done a u => Done a (upd u)
  | Fail e u => Fail e (upd u)
  | Crash => Crash
  end.

(** [TtyInode::new] *)
Definition TtyInodeInner_new : TtyInodeInner :=
  mkInner 1 (mkWinSize 67 120 0 0)
    (mkTermios 27906 5 1215 35387 0 [3; 28; 127; 21; 4; 0; 1; 0; 17; 19; 26; 255; 18; 15; 23; 22; 255; 0; 0]).

(** The loop of [TtyFuture::poll]: bytes go to the buffer until it is full or
    none is left. *)
Fixpoint tty_loop (fuel : nat) (addr cnt : Z) : kst TtySt Z :=
  match fuel with
  | O => mret cnt
  | S fuel =>
      s ← kget;
      match get_byte (ts_tty s) with
      | (None, _) => mret cnt
      | (Some byte, t) =>
          _ ← kmodify (set_tty t);
          _ ← on_tty_user (store_user (addr + cnt) [byte]);
          tty_loop fuel addr (cnt + 1)
      end
  end.
(** [TtyFuture::poll] of task [w]: a result, or [None] when it waits. *)
Definition tty_poll (w addr len : Z) : kst TtySt (option Z) :=
  _ ← on_tty_user (check_write addr len);
  cnt ← tty_loop (Z.to_nat len) addr 0;
  if 0 <? cnt then mret (Some cnt)
  else
    s ← kget;
    let '(t, woken) := register_waker w (ts_tty s) in
    _ ← kmodify (set_tty t);
    _ ← kmodify (call_wakers woken);
    mret None.

(** [read_inode_at] up to its first suspension, [write_inode_at] *)
Definition tty_read (now : TimeSpec) (w : Z) (buf : ReadBuffer) : kst TtySt (option Z) :=
  _ ← kmodify (λ s, set_tmeta (Meta.with_access (ts_meta s) now) s);
  match buf with
  | RKernel => kcrash
  | RUser addr len => tty_poll w addr len
  end.
Definition tty_write (now : TimeSpec) (buf : WriteBuffer) : kst TtySt Z :=
  _ ← kmodify (λ s, set_tmeta (Meta.with_modify (ts_meta s) now) s);
  bs ← match buf with
       | WKernel bs => mret bs
       | WUser addr len => on_tty_user (_ ← check_read addr len; load_user addr (Z.to_nat len))
       end;
  _ ← kassert (valid_utf8 bs);
  _ ← kmodify (put_out bs);
  mret (Z.of_nat (length bs)).

(** [TtyInode::ioctl] *)
Definition TCGETS : Z := 0x5401.
Definition TCSETS : Z := 0x5402.
Definition TCSETSW : Z := 0x5403.
Definition TCSETSF : Z := 0x5404.
Definition TCGETA : Z := 0x5405.
Definition TCSBRK : Z := 0x5409.
Definition TIOCGPGRP : Z := 0x540F.
Definition TIOCSPGRP : Z := 0x5410.
Definition TIOCGWINSZ : Z := 0x5413.
Definition TIOCSWINSZ : Z := 0x5414.
(** [UserCheck::new(value).ok_or(EINVAL)?.check_ptr_mut()?.write(x)] and the read *)
Definition ioctl_put {A} (c : Codec A) (value : Z) (x : A) : kst TtySt () :=
  p ← kok_or (UserCheck_new value) EINVAL; on_tty_user (write_user c p x).
Definition ioctl_get {A} (c : Codec A) (value : Z) : kst TtySt A :=
  p ← kok_or (UserCheck_new value) EINVAL; on_tty_user (read_user c p).
Definition tty_ioctl (cmd value : Z) : kst TtySt Z :=
  s ← kget;
  let i := ts_inner s in
  if (cmd =? TCGETS) || (cmd =? TCGETA) then _ ← ioctl_put Termios_codec value (termios i); mret 0
  else if (cmd =? TCSETS) || (cmd =? TCSETSW) || (cmd =? TCSETSF) then
    t ← ioctl_get Termios_codec value;
    _ ← kmodify (λ s, set_inner (mkInner (fg_pgid (ts_inner s)) (win_size (ts_inner s)) t) s);
    mret 0
  else if cmd =? TIOCGPGRP then _ ← ioctl_put u64_codec value (fg_pgid i); mret 0
  else if cmd =? TIOCSPGRP then
    g ← ioctl_get u64_codec value;
    _ ← kmodify (λ s, set_inner (mkInner g (win_size (ts_inner s)) (termios (ts_inner s))) s);
    mret 0
  else if cmd =? TIOCGWINSZ then _ ← ioctl_put WinSize_codec value (win_size i); mret 0
  else if cmd =? TIOCSWINSZ then
    w ← ioctl_get WinSize_codec value;
    _ ← kmodify (λ s, set_inner (mkInner (fg_pgid (ts_inner s)) w (termios (ts_inner s))) s);
    mret 0
  else if cmd =? TCSBRK then mret 0
  else kcrash.

(** ** [RtcInode] *)
Definition rtc_meta (ino : Z) (now : TimeSpec) : InodeMeta := mkMeta ino CharDevice ∅ PAGE_SIZE now now now.
Definition rtc_read (buf : ReadBuffer) (kbuf : list Z) : kst U (Z * list Z) :=
  match buf with
  | RKernel => mret (Z.of_nat (length kbuf), replicate (length kbuf) 0)
  | RUser addr len =>
      _ ← check_write addr len;
      _ ← store_user addr (replicate (Z.to_nat len) 0);
      mret (len, kbuf)
  end.
Definition rtc_write : kst U Z := kfail EBADF.
Definition rtc_ioctl : kst U Z := mret 0.
End device.
Arguments TtySt : clear implicits.

(** ** Reading what was typed *)
Section reading.
Context {U : Type} `{UserMemory U}.
Implicit Types (s : TtySt U).

(** [n] bytes go from the front of the queue to the buffer. *)
Definition took (n : nat) s (u : U) : TtySt U :=
  mkTtySt (mkTty (drop n (tty_queue (ts_tty s))) (tty_waker (ts_tty s))) (ts_inner s) (ts_meta s) (ts_out s)
    (ts_woken s) u.

Lemma tty_loop_empty fuel addr cnt s : tty_queue (ts_tty s) = [] → tty_loop fuel addr cnt s = Done cnt s.
Proof.
  intros Hq. destruct fuel as [|fuel]; [done|]. simpl. unfold mbind, kst_bind, kget, get_byte. by rewrite Hq.
Qed.
Lemma tty_loop_done fuel addr cnt s r s' :
  tty_loop fuel addr cnt s = Done r s' → ∃ n u, s' = took n s u ∧ r = cnt + Z.of_nat n ∧
    (n = min fuel (length (tty_queue (ts_tty s))))%nat.
Proof.
  revert cnt s. induction fuel as [|fuel IH]; intros cnt s.
  { intros [= <- <-]. exists 0%nat, (ts_user s). split; [by destruct s as [[]]|]. split; [lia|done]. }
  simpl. unfold get_byte. intros Hs. apply kbind_Done in Hs as (x & s0 & [= <- <-] & Hs).
  destruct (tty_queue (ts_tty s)) as [|b q] eqn:Hq.
  { injection Hs as <- <-. exists 0%nat, (ts_user s). split; [destruct s as [[]]; by simpl in *; subst|]. split; [lia|done]. }
  apply kbind_Done in Hs as (? & s1 & [= <- <-] & Hs). apply kbind_Done in Hs as (? & s2 & Hst & Hs).
  unfold on_tty_user in Hst. destruct (store_user (addr + cnt) [b] _) as [? u| |] eqn:Hu; [|done..].
  injection Hst as <- <-. apply IH in Hs as (n & u' & -> & -> & ->). simpl.
  eexists (S _), u'. split; [|split; [|done]]; [|lia]. unfold took. simpl. by rewrite Hq.
Qed.

(** A poll returns what is there, at most what fits. *)
Lemma tty_poll_done w addr len s r s' :
  tty_poll w addr len s = Done r s' →
  ∃ u, let n := min (Z.to_nat len) (length (tty_queue (ts_tty s))) in
    match r with
    | Some k => k = Z.of_nat n ∧ (0 < n)%nat ∧ s' = took n s u
    | None => n = 0%nat ∧
        s' = mkTtySt (mkTty (tty_queue (ts_tty s)) (Some w)) (ts_inner s) (ts_meta s) (ts_out s)
               (ts_woken s ++ option_list (tty_waker (ts_tty s))) u
    end.
Proof.
  unfold tty_poll. intros Hs. apply kbind_Done in Hs as (? & s1 & Hc & Hs).
  unfold on_tty_user in Hc. destruct (check_write addr len (ts_user s)) as [? u1| |]; [|done..]. injection Hc as <- <-.
  apply kbind_Done in Hs as (cnt & s2 & (n & u & -> & -> & Hn)%tty_loop_done & Hs). simpl in Hn. subst n.
  set (n := min (Z.to_nat len) (length (tty_queue (ts_tty s)))) in *.
  destruct (Z.ltb_spec 0 (0 + Z.of_nat n)) as [Hlt|Hge].
  - injection Hs as <- <-. exists u. split; [lia|]. split; [lia|done].
  - exists u. unfold mbind, kst_bind, kget, kmodify in Hs. simpl in Hs. injection Hs as <- <-.
    assert (n = 0%nat) as Hn0 by lia. split; [done|]. unfold call_wakers, set_tty, took. simpl. by rewrite Hn0.
Qed.

(** A poll that fails has only looked at the buffer. *)
Lemma tty_loop_no_fail fuel addr cnt s e s' : tty_loop fuel addr cnt s ≠ Fail e s'.
Proof.
  revert cnt s. induction fuel as [|fuel IH]; intros cnt s; [done|]. simpl. unfold mbind, kst_bind, kget.
  destruct (get_byte (ts_tty s)) as [[b|] t]; [|done]. unfold kmodify, on_tty_user, store_user.
  destruct (um_store _ _ _) as [u| |]; [apply IH|done..].
Qed.
Lemma tty_poll_fail w addr len s e s' :
  tty_poll w addr len s = Fail e s' → ts_tty s' = ts_tty s ∧ ts_woken s' = ts_woken s.
Proof.
  unfold tty_poll, mbind, kst_bind, on_tty_user. destruct (check_write addr len (ts_user s)) as [? u|e' u|]; [|by intros [= _ <-]|done].
  destruct (tty_loop _ _ _ _) as [cnt s1|e1 s1|] eqn:Hl; [|by apply tty_loop_no_fail in Hl|done].
  case_match; [done|]. unfold kget, kmodify. by destruct (register_waker w (ts_tty s1)).
Qed.

(** ** Readers that wait

    A system of tasks that read the terminal: [blocked] are those whose last poll
    returned pending, with the length of their buffers; [runnable] those of them
    that were woken since. A task that waits polls the same read again once it was
    woken; a poll may also fail. *)
Record Readers : Type := mkReaders { rd_st : TtySt U; blocked : gmap Z Z; runnable : gset Z }.
Definition forget_woken s : TtySt U := mkTtySt (ts_tty s) (ts_inner s) (ts_meta s) (ts_out s) [] (ts_user s).
Definition may_poll (R : Readers) (w len : Z) : Prop := ∀ len', blocked R !! w = Some len' → w ∈ runnable R ∧ len = len'.
Inductive tty_step : Readers → Readers → Prop :=
| step_byte ch R t woken :
    handle_irq ch (ts_tty (rd_st R)) = (t, woken) →
    tty_step R (mkReaders (set_tty t (rd_st R)) (blocked R) (runnable R ∪ list_to_set woken))
| step_read w addr len R r s' :
    may_poll R w len → tty_poll w addr len (forget_woken (rd_st R)) = Done r s' →
    tty_step R (mkReaders s' (if r then delete w (blocked R) else <[w := len]> (blocked R))
                  (runnable R ∖ {[w]} ∪ list_to_set (ts_woken s')))
| step_fault w addr len R e s' :
    may_poll R w len → tty_poll w addr len (forget_woken (rd_st R)) = Fail e s' →
    tty_step R (mkReaders s' (delete w (blocked R)) (runnable R ∖ {[w]})).

Definition readers_ok (R : Readers) : Prop := ∀ w len, blocked R !! w = Some len → 0 < len →
  w ∈ runnable R ∨ tty_waker (ts_tty (rd_st R)) = Some w ∧ tty_queue (ts_tty (rd_st R)) = [].

Lemma tty_step_ok R R' : tty_step R R' → readers_ok R → readers_ok R'.
Proof.
  intros Hs Hb. destruct Hs as [ch R t woken Hi|w addr len R r s' Hw Hp|w addr len R e s' Hw Hp]; intros v lv Hv Hlv; cbn [rd_st blocked runnable] in *.
  - unfold handle_irq in Hi. injection Hi as <- <-. left. destruct (Hb v lv Hv Hlv) as [?|[-> _]]; set_solver.
  - apply tty_poll_done in Hp as (u & Hp). simpl in Hp. destruct r as [k|].
    + destruct Hp as (_ & Hn & ->). apply lookup_delete_Some in Hv as [Hne Hv]. simpl.
      destruct (Hb v lv Hv Hlv) as [?|[? ->]]; [left; set_solver|right]. by rewrite drop_nil.
    + destruct Hp as (Hn & ->). simpl. rewrite lookup_insert in Hv. case_decide as Hd.
      * subst v. injection Hv as ->. right. split; [done|]. destruct (tty_queue (ts_tty (rd_st R))); [done|]. simpl in Hn. lia.
      * left. destruct (Hb v lv Hv Hlv) as [?|[Ho _]]; [set_solver|]. rewrite Ho. simpl. set_solver.
  - apply tty_poll_fail in Hp as [-> _]. apply lookup_delete_Some in Hv as [Hne Hv]. simpl.
    destruct (Hb v lv Hv Hlv) as [?|?]; [left; set_solver|by right].
Qed.

(** C34: no reader of the terminal is left asleep while there is input. Over every
    interleaving of received bytes and of polls by any number of tasks, reads of
    no bytes and reads that fail among them, a task that waits in a read of at
    least one byte has been woken since whenever a byte is in the queue, even though
    the terminal remembers a single waker. (A task in a read of no bytes is never
    served, see [tty_read_nothing].) *)
Theorem tty_no_lost_reader (st : TtySt U) R w len :
  rtc tty_step (mkReaders st ∅ ∅) R →
  blocked R !! w = Some len → 0 < len → tty_queue (ts_tty (rd_st R)) ≠ [] → w ∈ runnable R.
Proof.
  intros Hs Hb Hlen Hq. assert (readers_ok R) as Hok.
  { eapply (rtc_ind_r readers_ok (mkReaders st ∅ ∅)); [| |exact Hs].
    - intros v lv. simpl. by rewrite lookup_empty.
    - intros ???? ?. by eapply tty_step_ok. }
  by destruct (Hok w len Hb Hlen) as [?|[_ ?]].
Qed.
End reading.

(** ** [ioctl] *)
Section ioctl.
Context {U : Type} `{UserMemory U}.
Implicit Types (s : TtySt U).

Definition with_tuser (u : U) s : TtySt U := mkTtySt (ts_tty s) (ts_inner s) (ts_meta s) (ts_out s) (ts_woken s) u.
(** User memory holds [x] at [a]. *)
Definition holds {A} (c : Codec A) (u : U) (a : Z) (x : A) : Prop :=
  um_ok u a (size_of c) ∧ um_load u a (size_of c) = Ok (encode c x).

Lemma ioctl_get_ok {A} (c : Codec A) a x s :
  a ≠ 0 → in_range c x → holds c (ts_user s) a x → ioctl_get c a s = Done x s.
Proof.
  intros Ha Hx [Hok Hl]. unfold ioctl_get, UserCheck_new. rewrite (proj2 (Z.eqb_neq a 0) Ha).
  unfold mbind, kst_bind, kok_or, mret, kst_ret, on_tty_user. rewrite (read_user_ok c (ts_user s) a x) by done.
  by destruct s.
Qed.
Lemma ioctl_put_ok {A} (c : Codec A) a x s :
  a ≠ 0 → um_ok (ts_user s) a (size_of c) →
  ∃ u, ioctl_put c a x s = Done () (with_tuser u s) ∧ holds c u a x.
Proof.
  intros Ha Hok. destruct (write_user_ok c (ts_user s) a x Hok) as (u & Hw & Hok' & Hl).
  exists u. split; [|done]. unfold ioctl_put, UserCheck_new. rewrite (proj2 (Z.eqb_neq a 0) Ha).
  unfold mbind, kst_bind, kok_or, mret, kst_ret, on_tty_user. by rewrite Hw.
Qed.

(** The terminal settings read back are the settings last written: after
    [TCSETS] from a user buffer holding [t], [TCGETS] stores exactly [t], and the
    same for the window size and the foreground process group; a setter changes
    nothing else. *)
Theorem tty_settings_roundtrip s a b t w g :
  a ≠ 0 → b ≠ 0 → in_range Termios_codec t → in_range WinSize_codec w → in_range u64_codec g →
  let i := ts_inner s in
  let back {A} (c : Codec A) (get : Z) (x : A) s1 :=
    um_ok (ts_user s1) b (size_of c) → ∃ u, tty_ioctl get b s1 = Done 0 (with_tuser u s1) ∧ holds c u b x in
  (holds Termios_codec (ts_user s) a t →
     ∃ s1, tty_ioctl TCSETS a s = Done 0 s1 ∧ s1 = set_inner (mkInner (fg_pgid i) (win_size i) t) s ∧
           back Termios_codec TCGETS t s1) ∧
  (holds WinSize_codec (ts_user s) a w →
     ∃ s1, tty_ioctl TIOCSWINSZ a s = Done 0 s1 ∧ s1 = set_inner (mkInner (fg_pgid i) w (termios i)) s ∧
           back WinSize_codec TIOCGWINSZ w s1) ∧
  (holds u64_codec (ts_user s) a g →
     ∃ s1, tty_ioctl TIOCSPGRP a s = Done 0 s1 ∧ s1 = set_inner (mkInner g (win_size i) (termios i)) s ∧
           back u64_codec TIOCGPGRP g s1).
Proof.
  intros Ha Hb Ht Hw Hg i back.
  assert (Hput : ∀ A (c : Codec A) x s1, um_ok (ts_user s1) b (size_of c) →
    ∃ u, (_ ← ioctl_put c b x; mret 0) s1 = Done 0 (with_tuser u s1) ∧ holds c u b x).
  { intros A c x s1 Hok. destruct (ioctl_put_ok c b x s1 Hb Hok) as (u & Hp & Hh). exists u.
    split; [|done]. by rewrite (kbind_run _ _ _ _ _ Hp). }
  split; [|split]; intros Hh; eexists; (split; [|split; [reflexivity|intros Hok; by apply Hput]]).
  - etransitivity; [exact (kbind_run _ _ _ _ _ (ioctl_get_ok _ a t s Ha Ht Hh))|reflexivity].
  - etransitivity; [exact (kbind_run _ _ _ _ _ (ioctl_get_ok _ a w s Ha Hw Hh))|reflexivity].
  - etransitivity; [exact (kbind_run _ _ _ _ _ (ioctl_get_ok _ a g s Ha Hg Hh))|reflexivity].
Qed.

(** Output that is not UTF-8, and commands the terminal does not know, panic. *)
Lemma tty_write_panics now s bs : valid_utf8 bs = false → tty_write now (WKernel bs) s = Crash.
Proof. intros Hv. unfold tty_write, mbind, kst_bind, kmodify, mret, kst_ret, kassert. by rewrite Hv. Qed.
(** A read of no bytes waits, and waits again however often it is woken. *)
Lemma tty_read_nothing w addr s r s' : tty_poll w addr 0 s = Done r s' → r = None.
Proof. intros (u & Hp)%tty_poll_done. destruct r as [k|]; [|done]. destruct Hp as (_ & Hn & _). simpl in Hn. lia. Qed.
End ioctl.

(** ** A terminal over a flat memory *)
Module TtyDemo.
Definition meta0 : InodeMeta := mkMeta 1 CharDevice ∅ 0 TimeSpec_default TimeSpec_default TimeSpec_default.
Definition custom : Termios := mkTermios 1 2 3 4 5 (replicate 19 7).
Definition start : TtySt Flat.t :=
  mkTtySt (mkTty [] None) TtyInodeInner_new meta0 [] []
    (Flat.mk 0x1000 (enc_termios custom ++ replicate 64 0)).
(** Two tasks wait, then a byte arrives. *)
Definition run1 : TtySt Flat.t := default start (kstate (tty_poll 1 0x1000 8 start)).
Definition run2 : TtySt Flat.t := default start (kstate (tty_poll 2 0x1000 8 (forget_woken run1))).
Definition R1 : Readers (U:=Flat.t) := mkReaders run1 {[1 := 8]} ∅.
Definition R2 : Readers (U:=Flat.t) := mkReaders run2 (<[2 := 8]> {[1 := 8]}) {[1]}.
Definition R3 : Readers (U:=Flat.t) :=
  mkReaders (set_tty (handle_irq 97 (ts_tty run2)).1 run2) (<[2 := 8]> {[1 := 8]}) {[1; 2]}.

Lemma readers_reach : rtc tty_step (mkReaders start ∅ ∅) R3.
Proof.
  eapply (rtc_l _ _ R1).
  { replace R1 with (mkReaders run1 (<[1 := 8]> ∅) (∅ ∖ {[1]} ∪ list_to_set (ts_woken run1) : gset Z))
      by (unfold R1; f_equal; vm_compute; reflexivity).
    apply (step_read 1 0x1000 8 (mkReaders start ∅ ∅) None run1); [by intros ?|by vm_compute]. }
  eapply (rtc_l _ _ R2).
  { replace R2 with (mkReaders run2 (<[2 := 8]> (blocked R1)) (runnable R1 ∖ {[2]} ∪ list_to_set (ts_woken run2)))
      by (unfold R2; f_equal; vm_compute; reflexivity).
    apply (step_read 2 0x1000 8 R1 None run2); [by intros ?|by vm_compute]. }
  apply rtc_once.
  replace R3 with (mkReaders (set_tty (handle_irq 97 (ts_tty run2)).1 (rd_st R2)) (blocked R2)
                     (runnable R2 ∪ list_to_set [2])) by (unfold R3; f_equal; vm_compute; reflexivity).
  apply (step_byte 97 R2). by vm_compute.
Qed.
Lemma tty_no_lost_reader_witness : blocked R3 !! 1 = Some 8 ∧ blocked R3 !! 2 = Some 8 ∧ 1 ∈ runnable R3 ∧ 2 ∈ runnable R3.
Proof.
  assert (Hq : tty_queue (ts_tty (rd_st R3)) ≠ []) by (vm_compute; discriminate).
  split; [reflexivity|]. split; [reflexivity|]. split.
  - apply (tty_no_lost_reader start R3 1 8 readers_reach); [reflexivity|lia|exact Hq].
  - apply (tty_no_lost_reader start R3 2 8 readers_reach); [reflexivity|lia|exact Hq].
Defined.

Lemma tty_settings_witness :
  ∃ s1 u, tty_ioctl TCSETS 0x1000 start = Done 0 s1 ∧ tty_ioctl TCGETS 0x1030 s1 = Done 0 (with_tuser u s1) ∧
          holds Termios_codec u 0x1030 custom.
Proof.
  destruct (tty_settings_roundtrip start 0x1000 0x1030 custom (mkWinSize 1 2 3 4) 9 ltac:(lia) ltac:(lia))
    as (Ht & _ & _).
  - vm_compute. repeat split; congruence.
  - vm_compute. repeat split; congruence.
  - vm_compute. split; congruence.
  - destruct Ht as (s1 & H1 & -> & Hb); [split; vm_compute; reflexivity|].
    destruct Hb as (u & H2 & H3); [vm_compute; reflexivity|]. eexists _, u. split; [exact H1|]. split; [exact H2|exact H3].
Defined.
End TtyDemo.
