(* ===== verification/Fat.v ===== *)
(** * The FAT32 volume: boot sector and allocation table

    [utils/fat32/src/bpb.rs], [fat.rs] and the mount check of
    [fs/fat32_vfs/src/lib.rs]. The block device is the class [BlockDevice]
    (the trait of [drivers/hal]); numbers are [u32] unless said otherwise. *)
From S2P Require Import Prelude Defines.

Definition SECTOR_SIZE : Z := 512.
Definition BOOT_SECTOR_ID : Z := 0.

(** A device delivers sectors of 512 bytes. *)
Class BlockDevice := {
  read_block : Z → list Z;
  length_read_block i : Z.of_nat (length (read_block i)) = SECTOR_SIZE;
}.

(** ** The boot sector *)
Record BiosParameterBlock : Type := mkBpb {
  system_id : list Z;
  sector_size : Z;
  bpb_sector_per_cluster : Z;
  reserved_sector_count : Z;
  fat_count : Z;
  root_entry_count : Z;
  sector_count : Z;
  media : Z;
  fat_length : Z;
  sector_per_track : Z;
  head_count : Z;
  hidden_sector_count : Z;
  total_sector_count : Z;
  fat32_length : Z;
  ext_flags : Z;
  version : Z;
  root_cluster : Z;
  info_sector : Z;
  backup_boot : Z;
}.

(** [LittleEndianReader]: the next [n] bytes, as a number, and the rest. *)
Definition read_le (n : nat) (src : list Z) : Z * list Z := (from_le_bytes (take n src), drop n src).

Definition bpb_new (src : list Z) : KResult BiosParameterBlock :=
  if negb (from_le_bytes (take 2 (drop 510 src)) =? 0xAA55) then Err EINVAL
  else
    let src := drop 3 src in
    let system_id := take 8 src in
    let src := drop 8 src in
    let '(sector_size, src) := read_le 2 src in
    let '(sector_per_cluster, src) := read_le 1 src in
    let '(reserved_sector_count, src) := read_le 2 src in
    let '(fat_count, src) := read_le 1 src in
    let '(root_entry_count, src) := read_le 2 src in
    let '(sector_count, src) := read_le 2 src in
    let '(media, src) := read_le 1 src in
    let '(fat_length, src) := read_le 2 src in
    let '(sector_per_track, src) := read_le 2 src in
    let '(head_count, src) := read_le 2 src in
    let '(hidden_sector_count, src) := read_le 4 src in
    let '(total_sector_count, src) := read_le 4 src in
    let '(fat32_length, src) := read_le 4 src in
    let '(ext_flags, src) := read_le 2 src in
    let '(version, src) := read_le 2 src in
    let '(root_cluster, src) := read_le 4 src in
    let '(info_sector, src) := read_le 2 src in
    let '(backup_boot, src) := read_le 2 src in
    Ok (mkBpb system_id sector_size sector_per_cluster reserved_sector_count fat_count
      root_entry_count sector_count media fat_length sector_per_track head_count
      hidden_sector_count total_sector_count fat32_length ext_flags version root_cluster
      info_sector backup_boot).

Definition is_power_of_two (x : Z) : bool := (0 <? x) && (Z.land x (x - 1) =? 0).

(** [is_valid_fat32_bpb] *)
Definition is_valid_fat32_bpb (bpb : BiosParameterBlock) : KResult bool :=
  if negb (sector_size bpb =? SECTOR_SIZE) || (bpb_sector_per_cluster bpb =? 0) ||
     negb (is_power_of_two (bpb_sector_per_cluster bpb)) || (128 <? bpb_sector_per_cluster bpb) ||
     (reserved_sector_count bpb =? 0) || (fat_count bpb =? 0) || (fat32_length bpb =? 0) ||
     (total_sector_count bpb =? 0) || negb (root_entry_count bpb =? 0) ||
     negb (sector_count bpb =? 0) || negb (fat_length bpb =? 0) || negb (version bpb =? 0) ||
     (reserved_sector_count bpb <=? info_sector bpb)
  then Ok false
  else
    let? fat_sectors := umul 32 (fat_count bpb) (fat32_length bpb) in
    let? data_start_sector := uadd 32 (reserved_sector_count bpb) fat_sectors in
    if total_sector_count bpb <=? data_start_sector then Ok false
    else
      let data_sectors := total_sector_count bpb - data_start_sector in
      let count_of_clusters := data_sectors / bpb_sector_per_cluster bpb in
      if count_of_clusters <? 65526 then Ok false
      else
        let? max_valid_cluster := uadd 32 count_of_clusters 1 in
        Ok (negb ((root_cluster bpb <? 2) || (max_valid_cluster <? root_cluster bpb))).

(** ** The allocation table *)
Definition FAT_ENTRY_MASK : Z := 0x0fffffff.
Definition RESERVED_FAT_ENTRY_COUNT : Z := 2.
Definition END_OF_CHAIN : Z := 0x0fffffff.
Definition INVALID_ALLOC_META : Z := 0xffffffff.

Record FatAllocMeta : Type := mkAllocMeta { free_count : Z; next_free : Z }.
Record FileAllocTable : Type := mkFat {
  data_start_sector_id : Z;
  sector_per_cluster : Z;
  data_clusters_count : Z;
  alloc_meta : FatAllocMeta;
  fat_entries : list Z;
}.

Definition with_meta (f : FileAllocTable) (m : FatAllocMeta) : FileAllocTable :=
  mkFat (data_start_sector_id f) (sector_per_cluster f) (data_clusters_count f) m (fat_entries f).
Definition with_entries (f : FileAllocTable) (e : list Z) : FileAllocTable :=
  mkFat (data_start_sector_id f) (sector_per_cluster f) (data_clusters_count f) (alloc_meta f) e.

Definition meta_invalid : FatAllocMeta := mkAllocMeta INVALID_ALLOC_META INVALID_ALLOC_META.

(** A [u32] of the info sector. *)
Definition u32_at (buf : list Z) (o : nat) : Z := from_le_bytes (take 4 (drop o buf)).

(** [FatAllocMeta::new] *)
Definition meta_new (info_sector : list Z) : FatAllocMeta :=
  if negb (u32_at info_sector 0 =? 0x41615252) then meta_invalid
  else if negb (u32_at info_sector 484 =? 0x61417272) then meta_invalid
  else if negb (u32_at info_sector 508 =? 0xaa550000) then meta_invalid
  else mkAllocMeta (u32_at info_sector 488) (u32_at info_sector 492).

(** [array_chunks::<4>] of a sector, as numbers. *)
Definition sector_entries (buf : list Z) : list Z :=
  (λ i, u32_at buf (4 * i)) <$> seq 0 (length buf / 4).

(** The scan of [maintain_alloc_meta]: free clusters, and the first of them. *)
Fixpoint scan_free (cluster_id : Z) (entries : list Z) (m : FatAllocMeta) : FatAllocMeta :=
  match entries with
  | [] => m
  | entry :: entries =>
      scan_free (cluster_id + 1) entries
        (if Z.land entry FAT_ENTRY_MASK =? 0
         then mkAllocMeta (free_count m + 1) (Z.min (next_free m) (wrap 32 cluster_id)) else m)
  end.

Definition maintain_alloc_meta (f : FileAllocTable) : KResult FileAllocTable :=
  let m := alloc_meta f in
  let? total := uadd 32 (data_clusters_count f) RESERVED_FAT_ENTRY_COUNT in
  let m :=
    if (data_clusters_count f <? free_count m) ||
       (negb (next_free m =? INVALID_ALLOC_META) &&
        negb ((RESERVED_FAT_ENTRY_COUNT <=? next_free m) && (next_free m <? total)))
    then meta_invalid else m in
  let m :=
    if (free_count m =? INVALID_ALLOC_META) || (next_free m =? INVALID_ALLOC_META)
    then scan_free 2 (drop 2 (fat_entries f)) (mkAllocMeta 0 INVALID_ALLOC_META) else m in
  Ok (with_meta f m).

(** [FileAllocTable::new] *)
Definition fat_new `{BlockDevice} (bpb : BiosParameterBlock) : KResult FileAllocTable :=
  let meta := meta_new (read_block (info_sector bpb)) in
  let fat_start_sector_id := reserved_sector_count bpb in
  let fat_length := fat32_length bpb in
  let? fats := umul 32 (fat_count bpb) fat_length in
  let? data_start := uadd 32 fat_start_sector_id fats in
  let? data_sectors := usub 32 (total_sector_count bpb) data_start in
  check (negb (bpb_sector_per_cluster bpb =? 0)) in
  let data_clusters := data_sectors / bpb_sector_per_cluster bpb in
  let? fat_end := uadd 32 fat_start_sector_id fat_length in
  let? limit := uadd 32 data_clusters RESERVED_FAT_ENTRY_COUNT in
  let entries :=
    foldl (λ acc sector_id,
        acc ++ take (Z.to_nat limit - length acc) (sector_entries (read_block sector_id)))
      [] (seqZ fat_start_sector_id (fat_end - fat_start_sector_id)) in
  maintain_alloc_meta (mkFat data_start (bpb_sector_per_cluster bpb) data_clusters meta entries).

(** The closure [find_free_cluster]: the slice of the entries is a bounds check. *)
Fixpoint find_free (cluster_id : Z) (entries : list Z) : option Z :=
  match entries with
  | [] => None
  | entry :: entries =>
      if Z.land entry FAT_ENTRY_MASK =? 0 then Some cluster_id else find_free (cluster_id + 1) entries
  end.
Definition find_free_cluster (entries : list Z) (s e : Z) : KResult (option Z) :=
  check ((s <=? e) && (e <=? Z.of_nat (length entries))) in
  Ok (find_free s (take (Z.to_nat (e - s)) (drop (Z.to_nat s) entries))).

(** [entries[i] = x] *)
Definition set_entry (entries : list Z) (i x : Z) : KResult (list Z) :=
  check ((0 <=? i) && (i <? Z.of_nat (length entries))) in
  Ok (<[Z.to_nat i := x]> entries).
Definition get_entry (entries : list Z) (i : Z) : KResult Z :=
  check (0 <=? i) in unwrap (entries !! Z.to_nat i).

Definition start_cluster (f : FileAllocTable) (total : Z) : Z :=
  let n := next_free (alloc_meta f) in
  if (RESERVED_FAT_ENTRY_COUNT <=? n) && (n <? total) then n else RESERVED_FAT_ENTRY_COUNT.

(** From the hint to the end, then from the first cluster to the hint. *)
Definition search_free (f : FileAllocTable) (total : Z) : KResult (option Z) :=
  let start := start_cluster f total in
  let? r := find_free_cluster (fat_entries f) start total in
  match r with
  | Some _ => Ok r
  | None => if RESERVED_FAT_ENTRY_COUNT <? start
            then find_free_cluster (fat_entries f) RESERVED_FAT_ENTRY_COUNT start
            else Ok None
  end.

Definition alloc_cluster (f : FileAllocTable) (prev_cluster : option Z) :
    KResult (option Z * FileAllocTable) :=
  let? total := uadd 32 (data_clusters_count f) RESERVED_FAT_ENTRY_COUNT in
  let? r := search_free f total in
  match r with
  | Some cluster_id =>
      let count := free_count (alloc_meta f) in
      let? next := uadd 32 cluster_id 1 in
      let f := with_meta f (mkAllocMeta (if 0 <? count then count - 1 else count) next) in
      let? entries := match prev_cluster with
                      | Some prev => set_entry (fat_entries f) prev cluster_id
                      | None => Ok (fat_entries f)
                      end in
      let? entries := set_entry entries cluster_id END_OF_CHAIN in
      Ok (Some cluster_id, with_entries f entries)
  | None => Ok (None, f)
  end.

Fixpoint clear_entries (entries clusters : list Z) : KResult (list Z) :=
  match clusters with
  | [] => Ok entries
  | c :: clusters => let? entries := set_entry entries c 0 in clear_entries entries clusters
  end.

Definition free_clusters (f : FileAllocTable) (clusters : list Z) (prev_cluster : option Z) :
    KResult FileAllocTable :=
  match clusters with
  | [] => Ok f
  | first :: _ =>
      let? entries := match prev_cluster with
                      | Some prev =>
                          let? e := get_entry (fat_entries f) prev in
                          check (e =? first) in
                          set_entry (fat_entries f) prev END_OF_CHAIN
                      | None => Ok (fat_entries f)
                      end in
      let? entries := clear_entries entries clusters in
      let m := alloc_meta f in
      let? count := uadd 32 (free_count m) (wrap 32 (Z.of_nat (length clusters))) in
      Ok (with_meta (with_entries f entries) (mkAllocMeta count (next_free m)))
  end.

(** [cluster_chain]: the clusters the coroutine yields; [None] when the fuel
    does not reach the end of the chain (a cycle). *)
Fixpoint chain_from (fuel : nat) (entries : list Z) (curr : Z) : KResult (option (list Z)) :=
  if curr <? 0x0ffffff8 then
    match fuel with
    | O => Ok None
    | S fuel =>
        let? e := get_entry entries curr in
        let? rest := chain_from fuel entries (Z.land e FAT_ENTRY_MASK) in
        Ok (option_map (cons curr) rest)
    end
  else Ok (Some []).
Definition cluster_chain (f : FileAllocTable) (first_cluster_id : Z) : KResult (option (list Z)) :=
  if first_cluster_id <? 2 then Ok (Some [])
  else chain_from (length (fat_entries f)) (fat_entries f) first_cluster_id.

(** [cluster_sectors]: the first sector of a cluster and the one after its last. *)
Definition cluster_sectors (f : FileAllocTable) (cluster_id : Z) : KResult (Z * Z) :=
  check (2 <=? cluster_id) in
  let? d := umul 32 (cluster_id - RESERVED_FAT_ENTRY_COUNT) (sector_per_cluster f) in
  let? first := uadd 32 (data_start_sector_id f) d in
  let? last := uadd 32 first (sector_per_cluster f) in
  Ok (first, last).

Definition bytes_per_cluster (f : FileAllocTable) : Z := sector_per_cluster f * SECTOR_SIZE.

(** ** Chains

    [linked entries c l]: following the table from cluster [c] visits exactly
    the data clusters [l] and then meets an end mark. *)
Definition CHAIN_END : Z := 0x0ffffff8.
Fixpoint linked (entries : list Z) (c : Z) (l : list Z) : Prop :=
  match l with
  | [] => CHAIN_END ≤ c
  | x :: l => x = c ∧ 2 ≤ c < CHAIN_END ∧
      ∃ e, entries !! Z.to_nat c = Some e ∧ linked entries (Z.land e FAT_ENTRY_MASK) l
  end.

Lemma linked_det entries l1 : ∀ c l2, linked entries c l1 → linked entries c l2 → l1 = l2.
Proof.
  induction l1 as [|x l1 IH]; intros c [|y l2]; simpl; [done|lia|lia|].
  intros (-> & _ & e & He & H1) (-> & _ & e' & He' & H2). f_equal. eapply IH; [exact H1|congruence].
Qed.

Lemma linked_app entries l1 : ∀ c l2 x,
  linked entries c (l1 ++ x :: l2) → linked entries x (x :: l2).
Proof.
  induction l1 as [|y l1 IH]; intros c l2 x; simpl; [by intros (-> & ? & ?)|].
  intros (_ & _ & e & _ & Hl). by eapply IH.
Qed.

Lemma linked_elem entries l : ∀ c x,
  linked entries c l → x ∈ l →
  2 ≤ x < CHAIN_END ∧ ∃ e, entries !! Z.to_nat x = Some e ∧ 2 ≤ Z.land e FAT_ENTRY_MASK.
Proof.
  induction l as [|y l IH]; intros c x; simpl; [set_solver|].
  intros (-> & Hc & e & He & Hl) [->|Hx]%elem_of_cons; [|by eapply IH].
  split; [done|]. exists e. split; [done|]. destruct l as [|z l]; simpl in Hl; [unfold CHAIN_END in *; lia|].
  lia.
Qed.

(** A chain never visits a cluster twice. *)
Lemma linked_nodup entries l : ∀ c, linked entries c l → NoDup l.
Proof.
  induction l as [|x l IH]; intros c; [constructor|]. intros Hl. pose proof Hl as (-> & Hc & e & He & Hr).
  apply NoDup_cons. split; [|by eapply IH]. intros Hin.
  apply list_elem_of_split in Hin as (l1 & l2 & ->).
  pose proof (linked_app _ _ _ _ _ Hr) as H2. pose proof (linked_det _ _ _ _ Hl H2) as E.
  apply (f_equal length) in E. simpl in E. rewrite length_app in E. simpl in E. lia.
Qed.

Lemma linked_bound entries l c : linked entries c l → (length l ≤ length entries)%nat.
Proof.
  intros Hl. pose proof (linked_nodup _ _ _ Hl) as Hnd.
  assert (length (Z.to_nat <$> l) ≤ length (seq 0 (length entries)))%nat as Hle.
  { apply submseteq_length, NoDup_submseteq. 2:{ intros n (x & -> & Hx)%list_elem_of_fmap.
      destruct (linked_elem _ _ _ _ Hl Hx) as (_ & e & He & _).
      apply elem_of_seq. apply lookup_lt_Some in He. lia. }
    apply NoDup_fmap_2_strong; [|done]. intros x y Hx Hy E.
    destruct (linked_elem _ _ _ _ Hl Hx) as ((? & _) & _), (linked_elem _ _ _ _ Hl Hy) as ((? & _) & _). lia. }
  by rewrite length_fmap, length_seq in Hle.
Qed.

Lemma get_entry_lookup entries i e :
  0 ≤ i → entries !! Z.to_nat i = Some e → get_entry entries i = Ok e.
Proof.
  intros Hi He. unfold get_entry. rewrite (proj2 (Z.leb_le 0 i)) by done. simpl. by rewrite He.
Qed.

Lemma chain_from_linked entries l : ∀ fuel c,
  linked entries c l → (length l ≤ fuel)%nat → chain_from fuel entries c = Ok (Some l).
Proof.
  induction l as [|x l IH]; intros fuel c Hl Hf.
  - simpl in Hl. unfold CHAIN_END in Hl. destruct fuel; simpl; by rewrite (proj2 (Z.ltb_ge _ _)).
  - destruct Hl as (-> & Hc & e & He & Hr). destruct fuel as [|fuel]; [simpl in Hf; lia|].
    simpl. unfold CHAIN_END in Hc. rewrite (proj2 (Z.ltb_lt _ _)) by lia.
    rewrite (get_entry_lookup _ _ e) by (lia || done). simpl. rewrite (IH fuel) by (done || (simpl in Hf; lia)). done.
Qed.

(** A cluster that may be handed out; a table as [new] builds it from a volume
    whose FAT has an entry for each cluster. *)
Definition is_free (f : FileAllocTable) (c : Z) : Prop :=
  2 ≤ c < data_clusters_count f + 2 ∧
  ∃ e, fat_entries f !! Z.to_nat c = Some e ∧ Z.land e FAT_ENTRY_MASK = 0.
(** Where the clusters lie on the device. *)
Definition same_geometry (f f' : FileAllocTable) : Prop :=
  data_start_sector_id f' = data_start_sector_id f ∧ sector_per_cluster f' = sector_per_cluster f ∧
  data_clusters_count f' = data_clusters_count f.

Record wf_fat (f : FileAllocTable) : Prop := {
  wf_count : 0 ≤ data_clusters_count f;
  wf_max : data_clusters_count f + 2 ≤ CHAIN_END;
  wf_length : Z.of_nat (length (fat_entries f)) = data_clusters_count f + 2;
}.

Lemma find_free_spec entries : ∀ s,
  match find_free s entries with
  | Some c => ∃ i e, c = s + Z.of_nat i ∧ entries !! i = Some e ∧ Z.land e FAT_ENTRY_MASK = 0
  | None => ∀ i e, entries !! i = Some e → Z.land e FAT_ENTRY_MASK ≠ 0
  end.
Proof.
  induction entries as [|e entries IH]; intros s; simpl; [done|].
  destruct (Z.eqb_spec (Z.land e FAT_ENTRY_MASK) 0) as [E|E].
  - exists 0%nat, e. split_and!; [lia|done|done].
  - specialize (IH (s + 1)). destruct (find_free (s + 1) entries).
    + destruct IH as (i & e' & -> & He & Hz). exists (S i), e'. split_and!; [lia|done|done].
    + intros [|i] e'; simpl; [congruence|apply IH].
Qed.

Lemma find_free_cluster_spec f s e :
  wf_fat f → 2 ≤ s ≤ e → e ≤ data_clusters_count f + 2 →
  match find_free_cluster (fat_entries f) s e with
  | Ok (Some c) => s ≤ c < e ∧ is_free f c
  | Ok None => ∀ c, s ≤ c < e → ¬ is_free f c
  | _ => False
  end.
Proof.
  intros Hwf Hs He. pose proof (wf_length f Hwf) as Hl. unfold find_free_cluster.
  rewrite (proj2 (Z.leb_le s e)), (proj2 (Z.leb_le e _)) by lia. simpl.
  set (sl := take _ _). pose proof (find_free_spec sl s) as Hf.
  assert (Hsl : ∀ i x, sl !! i = Some x → s + Z.of_nat i < e ∧
                  fat_entries f !! Z.to_nat (s + Z.of_nat i) = Some x).
  { intros i x. unfold sl. rewrite lookup_take_Some, lookup_drop. intros [Hx Hi].
    split; [lia|]. by replace (Z.to_nat (s + Z.of_nat i)) with (Z.to_nat s + i)%nat by lia. }
  destruct (find_free s sl) as [c|].
  - destruct Hf as (i & x & -> & Hx & Hz). destruct (Hsl i x Hx) as [Hi Hx'].
    split; [lia|]. split; [lia|eauto].
  - intros c Hc (_ & x & Hx & Hz). apply (Hf (Z.to_nat (c - s)) x); [|done].
    unfold sl. rewrite lookup_take_lt, lookup_drop by lia.
    by replace (Z.to_nat s + Z.to_nat (c - s))%nat with (Z.to_nat c) by lia.
Qed.

Lemma set_entry_ok entries i x :
  0 ≤ i < Z.of_nat (length entries) → set_entry entries i x = Ok (<[Z.to_nat i := x]> entries).
Proof.
  intros Hi. unfold set_entry. by rewrite (proj2 (Z.leb_le 0 i)), (proj2 (Z.ltb_lt i _)) by lia.
Qed.

(** Changing an entry off the chain. *)
Lemma linked_insert entries l i x : ∀ c,
  linked entries c l → 0 ≤ i → i ∉ l → linked (<[Z.to_nat i := x]> entries) c l.
Proof.
  induction l as [|y l IH]; intros c; simpl; [done|].
  intros (-> & Hc & e & He & Hr) Hi Hn. split; [done|]. split; [done|]. exists e.
  rewrite list_lookup_insert_ne by (intros E; apply Hn; set_solver by lia).
  split; [done|]. apply IH; [done|done|set_solver].
Qed.

(** Pointing the last cluster of a chain somewhere else. *)
Lemma linked_redirect entries l p y l2 : ∀ c,
  linked entries c (l ++ p :: l2) → 0 ≤ y → Z.land y FAT_ENTRY_MASK = y →
  ∀ r, linked (<[Z.to_nat p := y]> entries) y r → linked (<[Z.to_nat p := y]> entries) c (l ++ p :: r).
Proof.
  induction l as [|z l IH]; intros c Hl Hy Hm r Hr.
  - destruct Hl as (-> & Hc & e & He & _). split; [done|]. split; [done|]. exists y. rewrite Hm.
    split; [|done]. apply list_lookup_insert_eq. by eapply lookup_lt_Some.
  - pose proof (linked_nodup _ _ _ Hl) as Hnd. destruct Hl as (-> & Hc & e & He & Hrest).
    simpl in Hnd. apply NoDup_cons in Hnd as [Hn _].
    assert (2 ≤ p) by (destruct (linked_elem _ _ _ p Hrest) as ((? & _) & _); [set_solver|done]).
    split; [done|]. split; [done|]. exists e.
    rewrite list_lookup_insert_ne by (intros E; apply Hn; assert (c = p) by lia; set_solver).
    split; [done|]. by apply IH.
Qed.

Lemma small_mask y : 0 ≤ y < CHAIN_END → Z.land y FAT_ENTRY_MASK = y.
Proof.
  intros Hy. change FAT_ENTRY_MASK with (Z.ones 28). rewrite Z.land_ones by lia.
  apply Z.mod_small. unfold CHAIN_END in Hy. lia.
Qed.

Lemma is_free_set f f' i x c :
  data_clusters_count f' = data_clusters_count f → fat_entries f' = <[Z.to_nat i := x]> (fat_entries f) →
  0 ≤ i → c ≠ i → is_free f' c ↔ is_free f c.
Proof.
  intros Hc He Hi Hn. unfold is_free. rewrite Hc, He. split; intros (Hr & e & H1 & H2);
    (split; [done|]); exists e; (split; [|done]).
  - by rewrite list_lookup_insert_ne in H1 by lia.
  - by rewrite list_lookup_insert_ne by lia.
Qed.

(** The search finds a free cluster if there is one. *)
Lemma search_free_spec f :
  wf_fat f →
  match search_free f (data_clusters_count f + 2) with
  | Ok (Some c) => is_free f c
  | Ok None => ∀ c, ¬ is_free f c
  | _ => False
  end.
Proof.
  intros Hwf. pose proof (wf_count f Hwf). unfold search_free.
  set (total := data_clusters_count f + 2). set (start := start_cluster f total).
  assert (Hst : 2 ≤ start ≤ total).
  { unfold start, start_cluster. change RESERVED_FAT_ENTRY_COUNT with 2.
    destruct ((2 <=? _) && _) eqn:E; lia. }
  pose proof (find_free_cluster_spec f start total Hwf Hst ltac:(unfold total; lia)) as H1.
  destruct (find_free_cluster (fat_entries f) start total) as [[c|]|e|]; simpl; [by destruct H1| |done..].
  change RESERVED_FAT_ENTRY_COUNT with 2. destruct (Z.ltb_spec 2 start).
  - pose proof (find_free_cluster_spec f 2 start Hwf ltac:(lia) ltac:(lia)) as H2.
    destruct (find_free_cluster (fat_entries f) 2 start) as [[c|]|e|]; [by destruct H2| |done..].
    intros c Hc. pose proof Hc as [Hr _]. destruct (decide (c < start)); [apply (H2 c)|apply (H1 c)]; lia || done.
  - intros c Hc. pose proof Hc as [Hr _]. apply (H1 c); [lia|done].
Qed.

(** C35: [alloc_cluster] fails only when no cluster is free. Otherwise it takes
    one that was, marks it as the end of a chain, and links it behind
    [prev_cluster]: the chain that ended there grows by the new cluster, every
    other chain stays as it is, and no other cluster is taken or freed. *)
Theorem alloc_cluster_spec f prev :
  wf_fat f → (∀ p, prev = Some p → 2 ≤ p < data_clusters_count f + 2) →
  match alloc_cluster f prev with
  | Ok (Some c, f') =>
      wf_fat f' ∧ is_free f c ∧ ¬ is_free f' c ∧
      (∀ x, x ≠ c → prev ≠ Some x → is_free f' x ↔ is_free f x) ∧
      (∀ first l, linked (fat_entries f) first l → (∀ p, prev = Some p → p ∉ l) →
         linked (fat_entries f') first l) ∧
      (∀ first l p, prev = Some p → linked (fat_entries f) first (l ++ [p]) →
         linked (fat_entries f') first (l ++ [p; c])) ∧
      linked (fat_entries f') c [c]
  | Ok (None, f') => f' = f ∧ ∀ c, ¬ is_free f c
  | _ => False
  end.
Proof.
  intros Hwf Hprev. pose proof (wf_count f Hwf) as H0. pose proof (wf_max f Hwf) as Hmax.
  pose proof (wf_length f Hwf) as Hlen. pose proof (search_free_spec f Hwf) as Hs.
  unfold CHAIN_END in Hmax. unfold alloc_cluster, uadd. change RESERVED_FAT_ENTRY_COUNT with 2 in *.
  rewrite (checked_fits (E:=errno) 32) by lia. cbn [mbind outcome_bind].
  destruct (search_free f _) as [[c|]|e|]; cbn [mbind outcome_bind]; [|by split|done..].
  pose proof Hs as (Hc & e & He & Hz).
  rewrite (checked_fits (E:=errno) 32) by lia. cbn [mbind outcome_bind].
  set (ents := match prev with Some p => <[Z.to_nat p := c]> (fat_entries f) | None => fat_entries f end).
  assert (Hents : match prev with Some p => set_entry (fat_entries f) p c | None => Ok (fat_entries f) end = Ok ents).
  { unfold ents. destruct prev as [p|]; [|done]. apply set_entry_ok. specialize (Hprev p eq_refl). lia. }
  assert (length ents = length (fat_entries f)) as Hle
    by (unfold ents; destruct prev; [apply length_insert|done]).
  change (fat_entries (with_meta f _)) with (fat_entries f). rewrite Hents. cbn [mbind outcome_bind].
  rewrite set_entry_ok by (rewrite Hle; lia). cbn [mbind outcome_bind].
  change (fat_entries (with_entries _ _)) with (<[Z.to_nat c := END_OF_CHAIN]> ents).
  assert (Hnew : linked (<[Z.to_nat c := END_OF_CHAIN]> ents) c [c]).
  { simpl. split; [done|]. unfold CHAIN_END. split; [lia|]. exists END_OF_CHAIN.
    split; [apply list_lookup_insert_eq; lia|]. by vm_compute. }
  assert (Hout : ∀ first l, linked (fat_entries f) first l → c ∉ l).
  { intros first l Hl Hin. destruct (linked_elem _ _ _ _ Hl Hin) as (_ & e' & He' & Hnz).
    assert (e' = e) by congruence. subst. lia. }
  split_and!.
  - constructor; simpl; [done|unfold CHAIN_END; lia|]. rewrite length_insert, Hle. done.
  - done.
  - intros (_ & e' & He' & Hz'). simpl in He'. rewrite list_lookup_insert_eq in He' by lia.
    injection He' as <-. by vm_compute in Hz'.
  - intros x Hx Hp. rewrite (is_free_set (with_entries f ents) _ c END_OF_CHAIN x) by (done || lia).
    unfold ents. destruct prev as [p|]; [|by destruct f].
    apply (is_free_set f _ p c x); [done|done| |congruence]. specialize (Hprev p eq_refl). lia.
  - intros first l Hl Hn. apply linked_insert; [|lia|by eapply Hout]. unfold ents.
    destruct prev as [p|]; [|done]. apply linked_insert; [done| |by apply Hn].
    specialize (Hprev p eq_refl). lia.
  - intros first l p -> Hl. specialize (Hprev p eq_refl).
    assert (p ≠ c) by (intros ->; by apply (Hout _ _ Hl), elem_of_app; right; set_solver).
    unfold ents in *. rewrite list_insert_insert_ne by lia.
    change (l ++ [p; c]) with (l ++ p :: [c]).
    eapply (linked_redirect _ l p c []).
    + apply linked_insert; [exact Hl|lia|by eapply Hout].
    + lia.
    + apply small_mask. unfold CHAIN_END. lia.
    + rewrite list_insert_insert_ne by lia. exact Hnew.
  - done.
Qed.

Lemma clear_entries_spec clusters : ∀ entries,
  (∀ c, c ∈ clusters → 0 ≤ c < Z.of_nat (length entries)) →
  ∃ entries', clear_entries entries clusters = Ok entries' ∧ length entries' = length entries ∧
    (∀ c, 0 ≤ c < Z.of_nat (length entries) → c ∈ clusters → entries' !! Z.to_nat c = Some 0) ∧
    (∀ c, 0 ≤ c → c ∉ clusters → entries' !! Z.to_nat c = entries !! Z.to_nat c) ∧
    (∀ first l, linked entries first l → (∀ c, c ∈ clusters → c ∉ l) → linked entries' first l).
Proof.
  induction clusters as [|c clusters IH]; intros entries Hr.
  { exists entries. split_and!; [done|done|set_solver|done|done]. }
  simpl. rewrite set_entry_ok by (apply Hr; set_solver). simpl.
  assert (Hc : 0 ≤ c < Z.of_nat (length entries)) by (apply Hr; set_solver).
  destruct (IH (<[Z.to_nat c := 0]> entries)) as (e' & He & Hl & Hz & Hk & Hlk).
  { intros x Hx. rewrite length_insert. apply Hr. set_solver. }
  exists e'. rewrite length_insert in *. split_and!; [done|done| | |].
  - intros x Hx Hin. destruct (decide (x ∈ clusters)) as [?|Hn]; [by apply Hz|].
    apply elem_of_cons in Hin as [->|?]; [|done]. rewrite Hk by (lia || done).
    apply list_lookup_insert_eq. lia.
  - intros x Hx Hin. rewrite Hk by set_solver. apply list_lookup_insert_ne.
    intros E. apply Hin. assert (x = c) by lia. set_solver.
  - intros first l Hlin Hd. apply Hlk; [|set_solver]. apply linked_insert; [done|lia|]. apply Hd. set_solver.
Qed.

(** [free_clusters] cuts a chain: the clusters given are free afterwards,
    the part of the chain before them ends where they began, chains that share no
    cluster with it stay as they are, and no other cluster is freed or taken. *)
Lemma free_clusters_ok f first pre freed :
  wf_fat f → linked (fat_entries f) first (pre ++ freed) →
  (∀ p c, last pre = Some p → head freed = Some c → fat_entries f !! Z.to_nat p = Some c) →
  0 ≤ free_count (alloc_meta f) → free_count (alloc_meta f) + Z.of_nat (length freed) < 2 ^ 32 →
  freed ≠ [] →
  ∃ f', free_clusters f freed (last pre) = Ok f' ∧ wf_fat f' ∧ same_geometry f f' ∧
    (∀ c, c ∈ freed → is_free f' c) ∧
    (∀ c, c ∉ freed → last pre ≠ Some c → is_free f' c ↔ is_free f c) ∧
    (pre ≠ [] → linked (fat_entries f') first pre) ∧
    (∀ first' l, linked (fat_entries f) first' l → (∀ c, c ∈ pre ++ freed → c ∉ l) →
       linked (fat_entries f') first' l).
Proof.
  intros Hwf Hl Hexact H0 Hcount Hne. pose proof (wf_length f Hwf) as Hlen.
  pose proof (linked_nodup _ _ _ Hl) as (_ & Hdis & _)%NoDup_app.
  assert (Hin : ∀ c, c ∈ pre ++ freed → 2 ≤ c < Z.of_nat (length (fat_entries f))).
  { intros c Hc. destruct (linked_elem _ _ _ _ Hl Hc) as ((? & _) & e & He%lookup_lt_Some & _). lia. }
  set (ents := match last pre with Some p => <[Z.to_nat p := END_OF_CHAIN]> (fat_entries f)
                                 | None => fat_entries f end).
  assert (Hle : length ents = length (fat_entries f))
    by (unfold ents; destruct (last pre); [apply length_insert|done]).
  assert (Hpre : ∀ p, last pre = Some p → p ∈ pre)
    by (intros p (l' & ->)%last_Some; set_solver).
  destruct (clear_entries_spec freed ents) as (ents' & Hcl & Hlen' & Hz & Hk & Hlk).
  { intros c Hc. rewrite Hle. specialize (Hin c ltac:(set_solver)). lia. }
  destruct freed as [|c0 freed]; [done|]. clear Hne.
  exists (with_meta (with_entries f ents') (mkAllocMeta (free_count (alloc_meta f) + Z.of_nat (length (c0 :: freed)))
            (next_free (alloc_meta f)))).
  assert (Hother : ∀ c, 0 ≤ c → c ∉ c0 :: freed → last pre ≠ Some c →
    ents' !! Z.to_nat c = fat_entries f !! Z.to_nat c).
  { intros c Hc Hn Hp. rewrite Hk by done. unfold ents. destruct (last pre) as [p|] eqn:Ep; [|done].
    apply list_lookup_insert_ne. specialize (Hpre p eq_refl). specialize (Hin p ltac:(set_solver)).
    intros E. assert (p = c) by lia. congruence. }
  split_and!.
  - unfold free_clusters. assert (match last pre with
      | Some prev => let? e := get_entry (fat_entries f) prev in check (e =? c0) in
                     set_entry (fat_entries f) prev END_OF_CHAIN
      | None => Ok (fat_entries f) end = Ok ents) as ->.
    { unfold ents. destruct (last pre) as [p|] eqn:Ep; [|done].
      specialize (Hpre p eq_refl). specialize (Hin p ltac:(set_solver)).
      rewrite (get_entry_lookup _ _ c0) by (lia || by apply Hexact). simpl.
      rewrite Z.eqb_refl. simpl. apply set_entry_ok. lia. }
    cbn [mbind outcome_bind]. rewrite Hcl. cbn [mbind outcome_bind]. unfold uadd.
    rewrite wrap_small by lia. rewrite checked_fits by lia. done.
  - destruct Hwf. constructor; simpl; [done|done|]. rewrite Hlen', Hle. done.
  - done.
  - intros c Hc. specialize (Hin c ltac:(set_solver)). split; [simpl; lia|]. exists 0. simpl.
    split; [apply Hz; [rewrite Hle; lia|done]|done].
  - intros c Hc Hp. unfold is_free. simpl. split; intros (Hr & e & He & Hm); (split; [done|]); exists e.
    + by rewrite Hother in He by (lia || done).
    + by rewrite Hother by (lia || done).
  - intros Hpn. destruct (last pre) as [p|] eqn:Ep; [|by apply last_None in Ep].
    apply Hlk; [|set_solver]. pose proof Ep as (l' & ->)%last_Some.
    apply (linked_redirect (fat_entries f) l' p END_OF_CHAIN (c0 :: freed)); [|done|by vm_compute|].
    + by rewrite <- app_assoc in Hl.
    + by vm_compute.
  - intros first' l Hl' Hd. apply Hlk; [|set_solver]. unfold ents.
    destruct (last pre) as [p|] eqn:Ep; [|done]. specialize (Hpre p eq_refl).
    apply linked_insert; [done| |apply Hd; set_solver]. specialize (Hin p ltac:(set_solver)). lia.
Qed.

(** C36: the iteration over a cluster chain ends: on a chain that reaches an end
    mark it yields each cluster once, in order, and stops, within as many steps
    as the table has entries. *)
Theorem cluster_chain_terminates f first l :
  l ≠ [] → linked (fat_entries f) first l →
  cluster_chain f first = Ok (Some l) ∧ NoDup l ∧ (length l ≤ length (fat_entries f))%nat.
Proof.
  intros Hne Hl. pose proof (linked_bound _ _ _ Hl). split_and!; [|by eapply linked_nodup|done].
  unfold cluster_chain. destruct l as [|x l]; [done|]. pose proof Hl as (-> & Hc & _).
  rewrite (proj2 (Z.ltb_ge _ _)) by lia. by apply chain_from_linked.
Qed.

(** ** A small table *)
Definition demo_fat : FileAllocTable :=
  mkFat 100 8 6 (mkAllocMeta 3 5) [0x0ffffff8; 0x0fffffff; 3; 6; 0x0fffffff; 0; 0x0fffffff; 0].
Lemma demo_fat_wf : wf_fat demo_fat.
Proof. by constructor. Qed.
Lemma linked_cons entries c e n l :
  (2 <=? c) && (c <? CHAIN_END) = true → entries !! Z.to_nat c = Some e →
  Z.land e FAT_ENTRY_MASK = n → linked entries n l → linked entries c (c :: l).
Proof.
  intros [H1%Z.leb_le H2%Z.ltb_lt]%andb_prop He <- Hl. split; [done|]. split; [done|]. by exists e.
Qed.
Lemma demo_linked : linked (fat_entries demo_fat) 2 [2; 3; 6].
Proof.
  do 3 (eapply linked_cons; [vm_compute; reflexivity|vm_compute; reflexivity|vm_compute; reflexivity|]).
  by vm_compute.
Qed.

Lemma alloc_cluster_witness :
  ∃ f', alloc_cluster demo_fat (Some 6) = Ok (Some 5, f') ∧ linked (fat_entries f') 2 [2; 3; 6; 5].
Proof.
  pose proof (alloc_cluster_spec demo_fat (Some 6) demo_fat_wf) as Hs.
  destruct Hs as (_ & _ & _ & _ & _ & Hl & _).
  - intros p [= <-]. simpl. lia.
  - eexists. split; [reflexivity|]. exact (Hl 2 [2; 3] 6 eq_refl demo_linked).
Defined.

Lemma cluster_chain_witness :
  cluster_chain demo_fat 2 = Ok (Some [2; 3; 6]) ∧ NoDup [2; 3; 6].
Proof.
  destruct (cluster_chain_terminates demo_fat 2 [2; 3; 6] ltac:(discriminate) demo_linked) as (H1 & H2 & _).
  split; [exact H1|exact H2].
Defined.

(** A cycle in the table: no amount of fuel is enough. *)
Lemma cluster_chain_cycle :
  cluster_chain (mkFat 100 8 2 (mkAllocMeta 0 2) [0x0ffffff8; 0x0fffffff; 3; 2]) 2 = Ok None.
Proof. done. Qed.

(** A FAT shorter than the data area, which the mount check accepts, makes the
    allocation panic. *)
Lemma alloc_cluster_short_fat :
  is_panic (alloc_cluster (mkFat 100 8 6 (mkAllocMeta 6 2) [0x0ffffff8; 0x0fffffff; 0; 0]) None) = true.
Proof. done. Qed.

(** A valid entry with its reserved upper bits set fails the assertion of
    [free_clusters]. *)
Lemma free_clusters_reserved_bits :
  linked [0x0ffffff8; 0x0fffffff; 0x10000003; 0x0fffffff] 2 [2; 3] ∧
  is_panic (free_clusters
    (mkFat 100 8 2 (mkAllocMeta 0 2) [0x0ffffff8; 0x0fffffff; 0x10000003; 0x0fffffff]) [3] (Some 2)) = true.
Proof.
  split; [|done]. simpl. unfold CHAIN_END. split; [done|]. split; [lia|]. eexists. split; [reflexivity|].
  split; [done|]. split; [by vm_compute|]. eexists. split; [reflexivity|]. by vm_compute.
Qed.
