(* ===== verification/Disk.v ===== *)
(** * The block device driver

    [drivers/virtio_glue]: the read cache in front of the third-party virtio block
    driver, and the pages and addresses the kernel lends to the device. *)
From S2P Require Import Prelude Address Defines Kst FrameAllocator Fat.

(** The device as the virtio crate presents it: a request moves it to its next state
    and gives the block or an error. The kernel never writes blocks, so that a
    request that succeeds always gives the same bytes; it may fail at one time and
    succeed at another. *)
Class VirtIOBlk := {
  VB : Type;
  vb_request : Z → VB → option (list Z) * VB;
  vb_data : Z → list Z;
  vb_request_data i v b v' : vb_request i v = (Some b, v') → b = vb_data i;
  vb_data_length i : Z.of_nat (length (vb_data i)) = SECTOR_SIZE;
}.

Section disk.
Context `{VirtIOBlk}.
(** [DiskDriver] *)
Record DiskDriver : Type := mkDisk { device : VB; caches : gmap Z (list Z) }.
Definition DiskDriver_new (block_device : VB) : DiskDriver := mkDisk block_device ∅.

Definition read_blocks (block_id : Z) : kst DiskDriver (list Z) :=
  d ← kget;
  let '(r, v) := vb_request block_id (device d) in
  _ ← kput (mkDisk v (caches d));
  kunwrap r.
Definition read_blocks_cached (block_id : Z) : kst DiskDriver (list Z) :=
  d ← kget;
  match caches d !! block_id with
  | Some block => mret block
  | None =>
      buf ← read_blocks block_id;
      _ ← kmodify (λ d, mkDisk (device d) (<[block_id := buf]> (caches d)));
      mret buf
  end.
(** The trait's two reads: [read_block_cached] and [read_block] *)
Definition disk_read (r : bool * Z) : kst DiskDriver (list Z) :=
  if r.1 then read_blocks_cached r.2 else read_blocks r.2.
Fixpoint disk_reads (l : list (bool * Z)) : kst DiskDriver (list (list Z)) :=
  match l with
  | [] => mret []
  | r :: l => b ← disk_read r; bs ← disk_reads l; mret (b :: bs)
  end.

(** ** What a read costs

    The requests the reads need: each read past the cache, and the first cached
    read of each block; and the device after a sequence of requests, if it serves
    them all. *)
Fixpoint asked (cached : gset Z) (l : list (bool * Z)) : list Z :=
  match l with
  | [] => []
  | (false, i) :: l => i :: asked cached l
  | (true, i) :: l => if decide (i ∈ cached) then asked cached l else i :: asked ({[i]} ∪ cached) l
  end.
Fixpoint serve (ids : list Z) (v : VB) : option VB :=
  match ids with
  | [] => Some v
  | i :: ids => match vb_request i v with (Some _, v) => serve ids v | (None, _) => None end
  end.

(** The cache holds blocks of the device. *)
Definition disk_ok (d : DiskDriver) : Prop := ∀ i b, caches d !! i = Some b → b = vb_data i.

Lemma read_blocks_run i v c :
  read_blocks i (mkDisk v c) =
    match vb_request i v with (Some _, v') => Done (vb_data i) (mkDisk v' c) | (None, _) => Crash end.
Proof.
  unfold read_blocks, mbind, kst_bind, kget, kput, kunwrap. simpl.
  destruct (vb_request i v) as [[b|] v'] eqn:Hr; [|done]. by rewrite (vb_request_data _ _ _ _ Hr).
Qed.
Lemma cached_hit i v c b : caches (mkDisk v c) !! i = Some b → read_blocks_cached i (mkDisk v c) = Done b (mkDisk v c).
Proof. intros Hc. unfold read_blocks_cached, mbind, kst_bind, kget. by rewrite Hc. Qed.
Lemma cached_miss i v c : c !! i = None →
  read_blocks_cached i (mkDisk v c) =
    match vb_request i v with (Some _, v') => Done (vb_data i) (mkDisk v' (<[i := vb_data i]> c)) | (None, _) => Crash end.
Proof.
  intros Hc. unfold read_blocks_cached, mbind, kst_bind, kget. simpl. rewrite Hc. cbn [mbind].
  rewrite read_blocks_run. by destruct (vb_request i v) as [[b|] v'].
Qed.

Lemma disk_reads_run l : ∀ v c, disk_ok (mkDisk v c) →
  match serve (asked (dom c) l) v with
  | Some v' => ∃ c', disk_reads l (mkDisk v c) = Done (vb_data ∘ snd <$> l) (mkDisk v' c')
  | None => disk_reads l (mkDisk v c) = Crash
  end.
Proof.
  induction l as [|[cached i] l IH]; intros v c Hok; cbn [asked disk_reads]; [by exists c|].
  unfold disk_read. cbn [fst snd]. destruct cached.
  - destruct (decide (i ∈ dom c)) as [Hin|Hout].
    + apply elem_of_dom in Hin as [b Hb]. pose proof (IH v c Hok) as Hl.
      rewrite (kbind_run _ _ _ _ _ (cached_hit i v c b Hb)). rewrite (Hok i b Hb) in *.
      destruct (serve _ v) as [v'|]; [destruct Hl as (c' & Hl)|unfold mbind, kst_bind; by rewrite Hl].
      exists c'. by rewrite (kbind_run _ _ _ _ _ Hl).
    + apply not_elem_of_dom in Hout. pose proof (cached_miss i v c Hout) as Hm. cbn [serve].
      destruct (vb_request i v) as [[b|] v1] eqn:Hr; [|unfold mbind, kst_bind; by rewrite Hm].
      rewrite (kbind_run _ _ _ _ _ Hm).
      pose proof (IH v1 (<[i := vb_data i]> c)) as Hl. rewrite dom_insert_L in Hl.
      assert (Hok1 : disk_ok (mkDisk v1 (<[i := vb_data i]> c))).
      { intros j x. simpl. rewrite lookup_insert. case_decide; [naive_solver|apply Hok]. }
      specialize (Hl Hok1). destruct (serve _ v1) as [v'|]; [destruct Hl as (c' & Hl)|unfold mbind, kst_bind; by rewrite Hl].
      exists c'. by rewrite (kbind_run _ _ _ _ _ Hl).
  - pose proof (read_blocks_run i v c) as Hm. cbn [serve].
    destruct (vb_request i v) as [[b|] v1]; [|unfold mbind, kst_bind; by rewrite Hm].
    rewrite (kbind_run _ _ _ _ _ Hm). pose proof (IH v1 c Hok) as Hl.
    destruct (serve _ v1) as [v'|]; [destruct Hl as (c' & Hl)|unfold mbind, kst_bind; by rewrite Hl].
    exists c'. by rewrite (kbind_run _ _ _ _ _ Hl).
Qed.

(** C37: the read cache saves requests and cannot be noticed otherwise. Whatever reads
    follow each other on a new driver, cached or not, the device gets exactly the
    requests of the reads past the cache and of the first cached read of each
    block, in that order. If the device serves them all, the reads give the blocks
    of the disk and leave the device as those requests do; if it refuses one of
    them, be it that it would serve it later, the driver panics. *)
Theorem disk_cache_equiv l v :
  match serve (asked ∅ l) v with
  | Some v' => ∃ d, disk_reads l (DiskDriver_new v) = Done (vb_data ∘ snd <$> l) d ∧ device d = v'
  | None => disk_reads l (DiskDriver_new v) = Crash
  end.
Proof.
  assert (disk_ok (DiskDriver_new v)) as Hok by (intros i b; simpl; by rewrite lookup_empty).
  pose proof (disk_reads_run l v ∅ Hok) as Hr. rewrite dom_empty_L in Hr. unfold DiskDriver_new.
  destruct (serve _ v) as [v'|]; [|done]. destruct Hr as (c & Hr). by eexists.
Qed.
End disk.

(** The file systems read through the driver, on a device without errors. *)
Program Definition DiskBlocks {V : VirtIOBlk} : BlockDevice := {| read_block i := vb_data i |}.
Next Obligation. intros V i. apply vb_data_length. Qed.

(** ** Example: a device that refuses every third request *)
Module CacheDemo.
#[local, program] Instance Flaky : VirtIOBlk := {|
  VB := Z; vb_request i n := (if n mod 3 =? 2 then None else Some (replicate 512 (i mod 256)), n + 1);
  vb_data i := replicate 512 (i mod 256);
|}.
Next Obligation. intros i n b n' Hr. simpl in Hr. case_match; naive_solver. Qed.
Next Obligation. reflexivity. Qed.

(** Four cached reads of two blocks are two requests; without the cache the third
    request would be refused. *)
Lemma disk_cache_witness :
  (∃ d, disk_reads [(true, 7); (true, 8); (true, 7); (true, 8)] (DiskDriver_new 0) =
          Done [vb_data 7; vb_data 8; vb_data 7; vb_data 8] d ∧ device d = 2) ∧
  disk_reads [(true, 7); (false, 7); (true, 8)] (DiskDriver_new 0) = Crash.
Proof.
  split.
  - exact (disk_cache_equiv [(true, 7); (true, 8); (true, 7); (true, 8)] 0).
  - exact (disk_cache_equiv [(true, 7); (false, 7); (true, 8)] 0).
Defined.
End CacheDemo.

(** ** [HalImpl] *)
Section hal.
Context `{Buddy, KernelImage}.
Definition dma_alloc (m : Mem) (pages : Z) : KResult (Z * Z * Mem) :=
  let? (o, m) := ContinuousFrames_alloc m pages in
  let? frames := unwrap o in
  let pa_start := PhysPageNum.page_start (cf_ppn frames) in
  let? va := kernel_pa_to_va pa_start in
  check (negb (va =? 0)) in
  Ok (pa_start, va, m).
Definition dma_dealloc (m : Mem) (paddr pages : Z) : KResult (Z * Mem) :=
  let ppn := PhysAddr.ppn paddr in
  let? e := PhysPageNum.add ppn pages in
  let? m := frame_dealloc m ppn e in
  Ok (0, m).
Definition mmio_phys_to_virt (paddr : Z) : KResult Z :=
  let? va := uadd 64 paddr PA_TO_VA in check (negb (va =? 0)) in Ok va.
Definition share (vaddr : Z) : KResult Z := check (PA_TO_VA <=? vaddr) in usub 64 vaddr PA_TO_VA.

Lemma byte_at_fill_range l : ∀ m p i,
  byte_at (foldl fill_zero m l) p i = if decide (p ∈ l) then 0 else byte_at m p i.
Proof.
  induction l as [|q l IH]; intros m p i; cbn [foldl]; [by rewrite decide_False by apply not_elem_of_nil|].
  rewrite IH, byte_at_fill_zero. repeat case_decide; set_solver.
Qed.
Lemma fill_range_free l : ∀ m p, FrameAllocator.is_free (foldl fill_zero m l) p ↔ FrameAllocator.is_free m p.
Proof. induction l as [|q l IH]; intros m p; simpl; [done|]. by rewrite IH. Qed.

(** A device gets pages of its own: frames that were free, next to each other, full
    of zeros, at the physical address given; the driver's pointer to them
    translates back to that address; giving them back makes the same frames free
    as before. *)
Lemma dma_roundtrip m pages pa va m' :
  mem_inv m → 1 ≤ pages → dma_alloc m pages = Ok (pa, va, m') →
  let ppn := pa / PAGE_SIZE in
  pa = ppn * PAGE_SIZE ∧
  (∀ p, ppn ≤ p < ppn + pages → FrameAllocator.is_free m p ∧ ¬ FrameAllocator.is_free m' p ∧ ∀ i, byte_at m' p i = 0) ∧
  (∀ p i, ¬ ppn ≤ p < ppn + pages → byte_at m' p i = byte_at m p i) ∧
  share va = Ok pa ∧
  ∃ m2, dma_dealloc m' pa pages = Ok (0, m2) ∧ ∀ p, FrameAllocator.is_free m2 p ↔ FrameAllocator.is_free m p.
Proof.
  intros Hm Hn Ha ppn. unfold dma_alloc, ContinuousFrames_alloc in Ha. rewrite (proj2 (Z.leb_le 1 pages) Hn) in Ha. simpl in Ha.
  destruct (falloc_alloc m pages) as [[[f|] m1]| |] eqn:Hf; try done. simpl in Ha.
  destruct (falloc_alloc_spec m pages (Some f) m1 Hn Hf) as (Hfree & Hiff & Hpt & Hby).
  pose proof (next_power_of_two_ge pages Hn) as Hp2. pose proof begin_ppn_bound as Hb0.
  assert (Hfb : begin_ppn ≤ f < end_ppn) by (apply Hm, Hfree; lia). rewrite end_ppn_eq in *.
  assert (Hps : PhysPageNum.page_start f = f * PAGE_SIZE).
  { unfold PhysPageNum.page_start. rewrite Z.shiftl_mul_pow2 by done. apply wrap_small. unfold_config. lia. }
  rewrite Hps in Ha. unfold kernel_pa_to_va, uadd in Ha. rewrite checked_fits in Ha by (unfold_config; lia). simpl in Ha.
  destruct (negb (f * PAGE_SIZE + PA_TO_VA =? 0)); [|done]. simpl in Ha. injection Ha as <- <- <-.
  assert (Hppn : ppn = f) by (unfold ppn; by apply Z.div_mul). rewrite Hppn. split; [done|]. split; [|split; [|split]].
  - intros p Hp. split; [apply Hfree; lia|]. split.
    + unfold fill_zero_range. rewrite fill_range_free, Hiff. intros [_ Hx]. apply Hx. lia.
    + intros i. unfold fill_zero_range. rewrite byte_at_fill_range, decide_True; [done|]. apply elem_of_seqZ. lia.
  - intros p i Hp. unfold fill_zero_range. rewrite byte_at_fill_range, decide_False; [|rewrite elem_of_seqZ; lia].
    unfold byte_at. by rewrite Hby.
  - unfold share. rewrite (proj2 (Z.leb_le PA_TO_VA _)) by (unfold_config; lia). simpl. unfold usub.
    rewrite checked_fits by (unfold_config; lia). f_equal. lia.
  - unfold dma_dealloc, PhysAddr.ppn, PhysAddr.floor. rewrite Z.div_mul by done.
    assert (Hlast : FrameAllocator.is_free m (f + next_power_of_two pages - 1)) by (apply Hfree; lia).
    apply Hm in Hlast. rewrite end_ppn_eq in Hlast.
    unfold PhysPageNum.add, uadd. rewrite checked_fits by lia. simpl.
    unfold frame_dealloc, falloc_dealloc. rewrite begin_frame_Ok. simpl. unfold usub. rewrite !checked_fits by lia. simpl.
    eexists. split; [reflexivity|]. intros p. unfold FrameAllocator.is_free. simpl.
    rewrite buddy_dealloc_free by lia. rewrite elem_of_union, elem_of_block.
    pose proof (fill_range_free (seqZ f pages) m1 p) as Hff. unfold FrameAllocator.is_free in Hff. fold (fill_zero_range m1 f pages) in Hff.
    rewrite Hff. pose proof (Hiff p) as Hi. unfold FrameAllocator.is_free in Hi. rewrite Hi. pose proof (Hfree p) as Hfp. unfold FrameAllocator.is_free in Hfp.
    replace (f + pages - f) with pages by lia. split.
    + intros [[? _]|?]; [done|]. apply Hfp. lia.
    + intros Hx. destruct (decide (f ≤ p < f + next_power_of_two pages)); [right; lia|left; done].
Qed.
End hal.
