(* ===== verification/DirEntry.v ===== *)
(** * Directory entries of FAT32 ([utils/fat32/src/dir_entry.rs])

    A file is described by a standard entry of 32 bytes, preceded, when it has a
    long name, by entries that carry 13 UTF-16 units each, last part first. The
    strings ([ecow]) and dates ([chrono]) of the code come from other crates and
    are parameters. *)
From S2P Require Import Prelude Defines.

Definition SNAME_MAX_LEN : nat := 11.
Definition LNAME_PART_LEN : nat := 13.
Definition DIR_ENTRY_SIZE : Z := 32.

(** [EcoString::from_utf16]: the UTF-8 bytes of a sequence of UTF-16 units, if it
    is well-formed. *)
Class EcoStr := from_utf16 : list Z → option (list Z).

(** The calendar of [chrono]. *)
Class Chrono := {
  NaiveDate : Type;
  NaiveTime : Type;
  from_ymd_opt : Z → Z → Z → option NaiveDate;
  date_default : NaiveDate;
  from_hms_milli_opt : Z → Z → Z → Z → option NaiveTime;
  time_default : NaiveTime;
  timestamp : NaiveDate → NaiveTime → TimeSpec;
}.

Module Attr.
Definition READ_ONLY : Z := 0x01.
Definition HIDDEN : Z := 0x02.
Definition SYSTEM : Z := 0x04.
Definition VOLUME_ID : Z := 0x08.
Definition DIRECTORY : Z := 0x10.
Definition ARCHIVE : Z := 0x20.
Definition LFN : Z := 0x0f.
Definition mask : Z := 0x3f.
End Attr.

Record DirEntry : Type := mkDirEntry {
  short_name : list Z;
  long_name : list Z;
  de_attr : Z;
  create_date : Z;
  create_time : Z;
  create_ten_ms : Z;
  modify_date : Z;
  modify_time : Z;
  access_date : Z;
  first_cluster_id : Z;
  file_size : Z;
}.
Definition with_long_name (e : DirEntry) (name : list Z) : DirEntry :=
  mkDirEntry (short_name e) name (de_attr e) (create_date e) (create_time e) (create_ten_ms e)
    (modify_date e) (modify_time e) (access_date e) (first_cluster_id e) (file_size e).

Definition entry_name (e : DirEntry) : list Z :=
  if bool_decide (long_name e = []) then short_name e else long_name e.
Definition is_dir (e : DirEntry) : bool := Flags.contains (de_attr e) Attr.DIRECTORY.

(** ** Times *)
Section times.
Context {CH : Chrono}.

(** The fields of a date, and of a time of day, as the format packs them. *)
Definition fat_date_fields (date : Z) : Z * Z * Z :=
  (1980 + Z.shiftr date 9, Z.land (Z.shiftr date 5) 0x0F, Z.land date 0x1F).
Definition fat_time_fields (time ten_ms : Z) : Z * Z * Z * Z :=
  (Z.land (Z.shiftr time 11) 0x1F, Z.land (Z.shiftr time 5) 0x3F,
   Z.land time 0x1F * 2 + ten_ms / 100, (ten_ms mod 100) * 10).

Definition fat_date_to_naive_date (date : Z) : NaiveDate :=
  let '(year, month, day) := fat_date_fields date in
  default date_default (from_ymd_opt year month day).
Definition fat_time_to_naive_time (time ten_ms : Z) : NaiveTime :=
  let '(hour, min, sec, ms) := fat_time_fields time ten_ms in
  default time_default (from_hms_milli_opt hour min sec ms).

Definition entry_create_time (e : DirEntry) : TimeSpec :=
  timestamp (fat_date_to_naive_date (create_date e))
            (fat_time_to_naive_time (create_time e) (create_ten_ms e)).
Definition entry_modify_time (e : DirEntry) : TimeSpec :=
  timestamp (fat_date_to_naive_date (modify_date e)) (fat_time_to_naive_time (modify_time e) 0).
Definition entry_access_time (e : DirEntry) : TimeSpec :=
  timestamp (fat_date_to_naive_date (access_date e)) time_default.
End times.

(** ** The standard entry *)
Definition byte_of (e : list Z) (i : nat) : Z := nth i e 0.
Definition u16_of (e : list Z) (i : nat) : Z := from_le_bytes [byte_of e i; byte_of e (i + 1)].

(** [rposition(|ch| ch != b' ').map_or(0, |idx| idx + 1)] *)
Fixpoint trimmed_len (l : list Z) : nat :=
  match l with
  | [] => O
  | ch :: l =>
      match trimmed_len l with
      | O => if ch =? 32 then O else 1%nat
      | n => S n
      end
  end.

Definition read_standard_entry (entry : list Z) : KResult DirEntry :=
  let body := take (trimmed_len (take 8 entry)) entry in
  let ext := take (trimmed_len (take 3 (drop 8 entry))) (drop 8 entry) in
  if negb (valid_utf8 body) then Err EINVAL
  else if negb (valid_utf8 ext) then Err EINVAL
  else
    let short_name := match ext with [] => body | _ => body ++ [46] ++ ext end in
    let? attr := ok_or (Flags.from_bits Attr.mask (byte_of entry 11)) EINVAL in
    Ok (mkDirEntry short_name [] attr
          (u16_of entry 16) (u16_of entry 14) (byte_of entry 13)
          (u16_of entry 24) (u16_of entry 22) (u16_of entry 18)
          (from_le_bytes [byte_of entry 26; byte_of entry 27; byte_of entry 20; byte_of entry 21])
          (from_le_bytes [byte_of entry 28; byte_of entry 29; byte_of entry 30; byte_of entry 31])).

Definition checksum_step (checksum byte : Z) : Z :=
  wrap 8 (Z.shiftr checksum 1 + wrap 8 (Z.shiftl (Z.land checksum 1) 7) + byte).
Definition calc_checksum (short_name : list Z) : Z := foldl checksum_step 0 short_name.

(** ** Long names *)
Record DirEntryBuilder : Type := mkBuilder {
  curr_order : Z;
  checksum : Z;
  b_name : list Z;
}.
Inductive DirEntryBuilderResult : Type :=
| Builder (b : DirEntryBuilder)
| Final (e : DirEntry).

Definition lfn_part (entry : list Z) : list Z :=
  u16_of entry <$> [1; 3; 5; 7; 9; 14; 16; 18; 20; 22; 24; 28; 30]%nat.

Definition read_lfn_entry (b : DirEntryBuilder) (entry : list Z) : KResult DirEntryBuilder :=
  let order := Z.land (byte_of entry 0) 0x1f in
  check (negb (order =? 0)) in
  let lname_offset := (Z.to_nat (order - 1) * LNAME_PART_LEN)%nat in
  let is_first := curr_order b =? 0 in
  if negb is_first && negb (order =? curr_order b - 1) then Err EINVAL
  else
    let name := if is_first then resize (lname_offset + LNAME_PART_LEN) 0 (b_name b) else b_name b in
    let is_final := negb (Z.land (byte_of entry 0) 64 =? 0) in
    if is_first && negb is_final then Err EINVAL
    else if negb is_first && is_final then Err EINVAL
    else if negb (byte_of entry 12 =? 0) || negb (byte_of entry 26 =? 0) || negb (byte_of entry 27 =? 0)
    then Err EINVAL
    else
      let sum := byte_of entry 13 in
      if negb is_first && negb (checksum b =? sum) then Err EINVAL
      else
        check (bool_decide (lname_offset + LNAME_PART_LEN ≤ length name)%nat) in
        Ok (mkBuilder order sum
              (take lname_offset name ++ lfn_part entry ++ drop (lname_offset + LNAME_PART_LEN) name)).

Definition from_entry (entry : list Z) : KResult DirEntryBuilderResult :=
  let? attr := ok_or (Flags.from_bits Attr.mask (byte_of entry 11)) EINVAL in
  if attr =? Attr.LFN then
    let? b := read_lfn_entry (mkBuilder 0 0 []) entry in
    Ok (Builder b)
  else
    let? e := read_standard_entry entry in
    Ok (Final e).

(** The units of a name up to its terminator, [name[..lfn_len]]. *)
Fixpoint until_zero (name : list Z) : list Z :=
  match name with
  | [] => []
  | u :: name => if u =? 0 then [] else u :: until_zero name
  end.

Definition add_entry {ES : EcoStr} (b : DirEntryBuilder) (entry : list Z) :
    KResult DirEntryBuilderResult :=
  let? attr := ok_or (Flags.from_bits Attr.mask (byte_of entry 11)) EINVAL in
  if Flags.contains attr Attr.LFN then
    let? b := read_lfn_entry b entry in
    Ok (Builder b)
  else if negb (curr_order b =? 1) then Err EINVAL
  else
    let? e := read_standard_entry entry in
    if negb (checksum b =? calc_checksum (take SNAME_MAX_LEN entry)) then Err EINVAL
    else
      let? name := ok_or (from_utf16 (until_zero (b_name b))) EINVAL in
      Ok (Final (with_long_name e name)).

(** ** Iterating over the entries of a directory ([FatDir::dir_entry_iter])

    [raw] are the entries the coroutine yields when asked; one that cannot be
    fetched is a panic. One step of the iterator consumes the entries of one
    file. *)
Section iter.
Context {ES : EcoStr}.
Abbreviation raw_entry := (KResult (list Z)).

Fixpoint next_after (b : DirEntryBuilder) (raw : list raw_entry) : option (KResult DirEntry * list raw_entry) :=
  match raw with
  | [] => None
  | entry :: raw =>
      match entry ≫= add_entry b with
      | Ok (Builder b) => next_after b raw
      | Ok (Final e) => Some (Ok e, raw)
      | Err e => Some (Err e, raw)
      | Panic => Some (Panic, raw)
      end
  end.
Definition dir_next (raw : list raw_entry) : option (KResult DirEntry * list raw_entry) :=
  match raw with
  | [] => None
  | entry :: raw =>
      match entry ≫= from_entry with
      | Ok (Builder b) => next_after b raw
      | Ok (Final e) => Some (Ok e, raw)
      | Err e => Some (Err e, raw)
      | Panic => Some (Panic, raw)
      end
  end.

(** All the items; an entry that panics ends the iteration. *)
Fixpoint dir_items (fuel : nat) (raw : list raw_entry) : list (KResult DirEntry) :=
  match fuel with
  | O => []
  | S fuel =>
      match dir_next raw with
      | None => []
      | Some (Panic, _) => [Panic]
      | Some (r, raw) => r :: dir_items fuel raw
      end
  end.
End iter.

(** ** The format

    How the FAT32 format stores a file with a long name: the name's units,
    terminated and padded to whole parts, in entries numbered from 1, stored in
    decreasing order with the highest marked, then the standard entry. *)
Definition name_parts (name : list Z) : nat := Z.to_nat (div_ceil (Z.of_nat (length name)) 13).
Definition padded (name : list Z) : list Z :=
  take (name_parts name * LNAME_PART_LEN) (name ++ 0 :: replicate LNAME_PART_LEN 0xffff).
Definition name_part (name : list Z) (order : nat) : list Z :=
  take LNAME_PART_LEN (drop ((order - 1) * LNAME_PART_LEN) (padded name)).

Definition lfn_entry (order : nat) (last : bool) (sum : Z) (part : list Z) : list Z :=
  [Z.of_nat order + (if last then 64 else 0)] ++ (take 5 part ≫= to_le_bytes 2) ++ [Attr.LFN; 0; sum] ++
  (take 6 (drop 5 part) ≫= to_le_bytes 2) ++ [0; 0] ++ (drop 11 part ≫= to_le_bytes 2).

(** The entries of the parts [order], ..., 1. *)
Fixpoint lfn_entries (name : list Z) (sum : Z) (order : nat) : list (list Z) :=
  match order with
  | O => []
  | S n => lfn_entry order (bool_decide (order = name_parts name)) sum (name_part name order)
             :: lfn_entries name sum n
  end.

Definition file_entries (name std : list Z) : list (KResult (list Z)) :=
  (Ok <$> lfn_entries name (calc_checksum (take SNAME_MAX_LEN std)) (name_parts name)) ++ [Ok std].

(** The entries of a file, as they lie on the disk. *)
Definition raw_file (name std : list Z) : list (list Z) :=
  lfn_entries name (calc_checksum (take SNAME_MAX_LEN std)) (name_parts name) ++ [std].
Lemma file_entries_raw name std : file_entries name std = Ok <$> raw_file name std.
Proof. unfold file_entries, raw_file. by rewrite fmap_app. Qed.

Record name_ok (name : list Z) : Prop := {
  name_length : (length name ≤ 255)%nat;
  name_units u : u ∈ name → 0 < u < 2 ^ 16;
}.

(** ** Reading back one part *)
Lemma length_padded name :
  length (padded name) = (name_parts name * LNAME_PART_LEN)%nat.
Proof.
  unfold padded, name_parts, LNAME_PART_LEN. rewrite length_take, length_app. simpl.
  pose proof (div_ceil_spec (Z.of_nat (length name)) 13 eq_refl). lia.
Qed.
Lemma padded_units name u : name_ok name → u ∈ padded name → 0 ≤ u < 2 ^ 16.
Proof.
  intros Hn Hu. unfold padded in Hu. apply elem_of_take in Hu as (i & Hu & _).
  apply list_elem_of_lookup_2 in Hu. apply elem_of_app in Hu as [Hu|Hu].
  - pose proof (name_units _ Hn u Hu). lia.
  - apply elem_of_cons in Hu as [->|[-> _]%elem_of_replicate]; [done|]. split; [done|]. by vm_compute.
Qed.
Lemma length_name_part name k :
  (1 ≤ k ≤ name_parts name)%nat → length (name_part name k) = LNAME_PART_LEN.
Proof.
  intros Hk. unfold name_part. rewrite length_take, length_drop, length_padded.
  unfold LNAME_PART_LEN. nia.
Qed.
Lemma u16_roundtrip x : 0 ≤ x < 2 ^ 16 → from_le_bytes [x mod 256; x / 256 mod 256] = x.
Proof. intros Hx. exact (from_to_le_bytes 2 x Hx). Qed.

Lemma lfn_part_entry order last sum part :
  length part = LNAME_PART_LEN → (∀ u, u ∈ part → 0 ≤ u < 2 ^ 16) →
  lfn_part (lfn_entry order last sum part) = part.
Proof.
  intros Hl Hu. unfold LNAME_PART_LEN in Hl.
  do 13 (destruct part as [|? part]; [done|]). destruct part; [|done].
  unfold lfn_part, u16_of, lfn_entry. cbn -[from_le_bytes Z.modulo Z.div].
  repeat f_equal; apply u16_roundtrip, Hu; set_solver.
Qed.

(** The fixed fields of a long-name entry. *)
Lemma lfn_entry_fields order last sum part :
  (1 ≤ order < 32)%nat → length part = LNAME_PART_LEN →
  let e := lfn_entry order last sum part in
  Z.land (byte_of e 0) 0x1f = Z.of_nat order ∧ negb (Z.land (byte_of e 0) 64 =? 0) = last ∧
  byte_of e 11 = Attr.LFN ∧ byte_of e 12 = 0 ∧ byte_of e 13 = sum ∧ byte_of e 26 = 0 ∧ byte_of e 27 = 0.
Proof.
  intros Ho Hl. unfold LNAME_PART_LEN in Hl.
  do 13 (destruct part as [|? part]; [done|]). destruct part; [|done].
  cbn -[Z.land Z.of_nat]. split_and!; [| |done..].
  - change 0x1f with (Z.ones 5). rewrite Z.land_ones by done. change (2 ^ 5) with 32.
    destruct last; [|rewrite Z.add_0_r; apply Z.mod_small; lia].
    change 64 with (2 * 32). rewrite Z.mod_add by done. apply Z.mod_small. lia.
  - do 32 (destruct order as [|order]; [destruct last; by vm_compute|]). lia.
Qed.

(** ** Reading back a name

    What the builder holds after the parts from [order] up. *)
Definition partial_name (name : list Z) (order : nat) : list Z :=
  replicate ((order - 1) * LNAME_PART_LEN) 0 ++ drop ((order - 1) * LNAME_PART_LEN) (padded name).
Definition partial (name : list Z) (sum : Z) (order : nat) : DirEntryBuilder :=
  mkBuilder (Z.of_nat order) sum (partial_name name order).

Lemma name_parts_bound name : name_ok name → name ≠ [] → (1 ≤ name_parts name < 32)%nat.
Proof.
  intros [Hl _] Hne. unfold name_parts. destruct name as [|u name]; [done|].
  pose proof (div_ceil_spec (Z.of_nat (length (u :: name))) 13 eq_refl). simpl in *. lia.
Qed.
Lemma partial_top name :
  (1 ≤ name_parts name)%nat →
  drop ((name_parts name - 1) * LNAME_PART_LEN) (padded name) = name_part name (name_parts name).
Proof.
  intros. unfold name_part. rewrite take_ge; [done|].
  rewrite length_drop, length_padded. unfold LNAME_PART_LEN. lia.
Qed.
Lemma partial_step name order :
  (2 ≤ order ≤ name_parts name)%nat →
  take ((order - 2) * LNAME_PART_LEN) (partial_name name order) ++ name_part name (order - 1) ++
    drop ((order - 2) * LNAME_PART_LEN + LNAME_PART_LEN) (partial_name name order)
  = partial_name name (order - 1).
Proof.
  intros Ho. unfold partial_name, name_part.
  replace (order - 1 - 1)%nat with (order - 2)%nat by lia.
  set (a := ((order - 2) * LNAME_PART_LEN)%nat).
  replace ((order - 1) * LNAME_PART_LEN)%nat with (a + LNAME_PART_LEN)%nat
    by (unfold a, LNAME_PART_LEN; lia).
  rewrite take_app_le by (rewrite length_replicate; lia).
  rewrite take_replicate, Nat.min_l by lia.
  rewrite drop_app_ge by (rewrite length_replicate; lia).
  rewrite length_replicate, Nat.sub_diag, drop_0, <- drop_drop. by rewrite take_drop.
Qed.
Lemma length_partial name order :
  (1 ≤ order ≤ name_parts name)%nat → length (partial_name name order) = (name_parts name * LNAME_PART_LEN)%nat.
Proof.
  intros. unfold partial_name. rewrite length_app, length_replicate, length_drop, length_padded.
  unfold LNAME_PART_LEN. nia.
Qed.

Lemma attr_lfn : ok_or (Flags.from_bits Attr.mask Attr.LFN) EINVAL = Ok Attr.LFN.
Proof. done. Qed.
Lemma lfn_part_name name order last sum :
  name_ok name → (1 ≤ order ≤ name_parts name)%nat →
  lfn_part (lfn_entry order last sum (name_part name order)) = name_part name order.
Proof.
  intros Hn Ho. apply lfn_part_entry; [by apply length_name_part|].
  intros u Hu. eapply padded_units; [done|]. unfold name_part in Hu.
  apply elem_of_take in Hu as (i & Hu & _). apply list_elem_of_lookup_2 in Hu.
  rewrite <- (take_drop ((order - 1) * LNAME_PART_LEN) (padded name)). set_solver.
Qed.

Lemma lfn_first name sum :
  name_ok name → name ≠ [] →
  from_entry (lfn_entry (name_parts name) true sum (name_part name (name_parts name)))
    = Ok (Builder (partial name sum (name_parts name))).
Proof.
  intros Hn Hne. pose proof (name_parts_bound name Hn Hne) as Hb.
  set (n := name_parts name) in *.
  destruct (lfn_entry_fields n true sum (name_part name n)) as (H0 & Hf & H11 & H12 & H13 & H26 & H27);
    [lia|apply length_name_part; lia|].
  unfold from_entry. rewrite H11, attr_lfn. cbn [mbind outcome_bind]. rewrite Z.eqb_refl.
  unfold read_lfn_entry. rewrite H0, Hf, H12, H13, H26, H27, lfn_part_name by (done || lia).
  rewrite (proj2 (Z.eqb_neq (Z.of_nat n) 0)) by lia.
  cbn [mbind outcome_bind assert negb andb orb curr_order b_name checksum Z.eqb].
  replace (Z.to_nat (Z.of_nat n - 1)) with (n - 1)%nat by lia.
  rewrite bool_decide_eq_true_2 by (rewrite length_resize; lia). cbn [assert outcome_bind mbind].
  rewrite drop_ge by (rewrite length_resize; lia).
  rewrite app_nil_r, resize_nil, take_replicate, Nat.min_l by lia.
  unfold partial, partial_name, n. by rewrite partial_top by lia.
Qed.

Section reading.
Context {ES : EcoStr}.

Lemma lfn_next name sum order :
  name_ok name → name ≠ [] → (2 ≤ order ≤ name_parts name)%nat →
  add_entry (partial name sum order) (lfn_entry (order - 1) false sum (name_part name (order - 1)))
    = Ok (Builder (partial name sum (order - 1))).
Proof.
  intros Hn Hne Ho. pose proof (name_parts_bound name Hn Hne) as Hb.
  destruct (lfn_entry_fields (order - 1) false sum (name_part name (order - 1)))
    as (H0 & Hf & H11 & H12 & H13 & H26 & H27); [lia|apply length_name_part; lia|].
  unfold add_entry. rewrite H11, attr_lfn. cbn [mbind outcome_bind].
  change (Flags.contains Attr.LFN Attr.LFN) with true. cbn iota.
  unfold read_lfn_entry. rewrite H0, Hf, H12, H13, H26, H27, lfn_part_name by (done || lia).
  unfold partial at 1. cbn [partial curr_order b_name checksum].
  rewrite (proj2 (Z.eqb_neq (Z.of_nat order) 0)), (proj2 (Z.eqb_neq (Z.of_nat (order - 1)) 0)) by lia.
  rewrite (proj2 (Z.eqb_eq _ (Z.of_nat order - 1))) by lia. rewrite Z.eqb_refl.
  cbn [mbind outcome_bind assert negb andb orb].
  replace (Z.to_nat (Z.of_nat (order - 1) - 1)) with (order - 2)%nat by lia.
  rewrite bool_decide_eq_true_2.
  2:{ rewrite length_partial by lia. unfold LNAME_PART_LEN. nia. }
  cbn [assert outcome_bind mbind]. by rewrite partial_step, Z.eqb_refl by lia.
Qed.

Lemma lfn_rest name sum rest order :
  name_ok name → name ≠ [] → (1 ≤ order ≤ name_parts name)%nat →
  next_after (partial name sum order) ((Ok <$> lfn_entries name sum (order - 1)) ++ rest)
    = next_after (partial name sum 1) rest.
Proof.
  intros Hn Hne. induction order as [|order IH]; intros Ho; [lia|].
  destruct (decide (order = 0%nat)) as [->|Hz]; [done|].
  replace (S order - 1)%nat with order by lia. destruct order as [|o]; [done|].
  cbn [lfn_entries fmap list_fmap app next_after mbind outcome_bind].
  rewrite bool_decide_eq_false_2 by lia.
  replace (S o) with (S (S o) - 1)%nat at 2 3 by lia.
  rewrite lfn_next by (done || lia).
  replace (S (S o) - 1)%nat with (S o) by lia.
  replace o with (S o - 1)%nat at 2 by lia. apply IH. lia.
Qed.

Lemma until_zero_app name rest :
  (∀ u, u ∈ name → u ≠ 0) → until_zero (name ++ 0 :: rest) = name.
Proof.
  induction name as [|u name IH]; intros Hu; [done|]. simpl.
  rewrite (proj2 (Z.eqb_neq u 0)) by (apply Hu; set_solver).
  f_equal. apply IH. intros. apply Hu. set_solver.
Qed.
Lemma until_zero_all name : (∀ u, u ∈ name → u ≠ 0) → until_zero name = name.
Proof.
  induction name as [|u name IH]; intros Hu; [done|]. simpl.
  rewrite (proj2 (Z.eqb_neq u 0)) by (apply Hu; set_solver).
  f_equal. apply IH. intros. apply Hu. set_solver.
Qed.
Lemma until_zero_padded name : name_ok name → until_zero (padded name) = name.
Proof.
  intros Hn. assert (∀ u, u ∈ name → u ≠ 0) as Hu.
  { intros u Hu. pose proof (name_units _ Hn u Hu). lia. }
  unfold padded, name_parts, LNAME_PART_LEN.
  pose proof (div_ceil_spec (Z.of_nat (length name)) 13 eq_refl).
  set (n := (Z.to_nat _ * 13)%nat). assert (length name ≤ n)%nat as Hle by lia.
  rewrite take_app_ge by done. destruct (n - length name)%nat as [|k] eqn:E.
  - rewrite app_nil_r. by apply until_zero_all.
  - simpl. by apply until_zero_app.
Qed.

(** What reading back a file stored with name [name] and standard entry [std]
    should give. *)
Definition decoded (name std : list Z) : KResult DirEntry :=
  let? e := read_standard_entry std in
  match name with
  | [] => Ok e
  | _ => let? s := ok_or (from_utf16 name) EINVAL in Ok (with_long_name e s)
  end.
Record std_ok (std : list Z) : Prop := {
  std_attr : Flags.from_bits Attr.mask (byte_of std 11) = Some (byte_of std 11);
  std_not_lfn : Flags.contains (byte_of std 11) Attr.LFN = false;
}.

Lemma next_file name std rest :
  name_ok name → std_ok std →
  dir_next (file_entries name std ++ rest) = Some (decoded name std, rest).
Proof.
  intros Hn [Ha Hl]. unfold decoded. destruct (decide (name = [])) as [->|Hne].
  { change (file_entries [] std ++ rest) with (Ok std :: rest). unfold dir_next, from_entry. cbn [mbind outcome_bind]. rewrite Ha.
    cbn [mbind outcome_bind ok_or]. destruct (byte_of std 11 =? Attr.LFN) eqn:E.
    { apply Z.eqb_eq in E. by rewrite E in Hl. }
    by destruct (read_standard_entry std). }
  pose proof (name_parts_bound name Hn Hne) as Hb. unfold file_entries. set (sum := calc_checksum _).
  destruct (name_parts name) as [|n] eqn:En; [lia|].
  rewrite <- app_assoc. cbn [lfn_entries fmap list_fmap app dir_next mbind outcome_bind]. rewrite bool_decide_eq_true_2 by done.
  rewrite <- En, lfn_first by done. replace n with (name_parts name - 1)%nat by lia.
  rewrite lfn_rest by (done || lia).
  cbn [app next_after]. cbn [mbind outcome_bind]. unfold add_entry. rewrite Ha. cbn [mbind outcome_bind ok_or]. rewrite Hl.
  cbn [curr_order checksum b_name partial]. change (Z.of_nat 1 =? 1) with true. cbn [negb].
  change (partial_name name 1) with (padded name). rewrite until_zero_padded by done.
  fold sum. rewrite Z.eqb_refl. cbn [negb].
  destruct (read_standard_entry std) as [e| |]; [|done..]. cbn [mbind outcome_bind].
  destruct name as [|u name]; [done|]. by destruct (from_utf16 _).
Qed.

Lemma standard_no_panic std : read_standard_entry std ≠ Panic.
Proof.
  unfold read_standard_entry. destruct (negb _); [done|]. destruct (negb _); [done|].
  by destruct (Flags.from_bits _ _).
Qed.
Lemma decoded_no_panic name std : decoded name std ≠ Panic.
Proof.
  unfold decoded. pose proof (standard_no_panic std).
  destruct (read_standard_entry std); [|done..]. cbn [mbind outcome_bind].
  destruct name; [done|]. by destruct (from_utf16 _).
Qed.

Lemma dir_items_files (files : list (list Z * list Z)) fuel :
  (∀ f, f ∈ files → name_ok f.1 ∧ std_ok f.2) →
  let raw := concat ((λ f, file_entries f.1 f.2) <$> files) in
  (length raw ≤ fuel)%nat → dir_items fuel raw = (λ f, decoded f.1 f.2) <$> files.
Proof.
  revert fuel. induction files as [|[name std] files IH]; intros fuel Hf raw Hfuel; [by destruct fuel|].
  destruct (Hf (name, std)) as [Hn Hs]; [set_solver|]. subst raw. cbn [fmap list_fmap concat fst snd] in *.
  rewrite length_app in Hfuel. unfold file_entries in Hfuel at 1. rewrite length_app in Hfuel. cbn [length] in Hfuel.
  destruct fuel as [|fuel]; [lia|]. cbn [dir_items]. rewrite next_file by done.
  pose proof (decoded_no_panic name std). rewrite IH; [by destruct (decoded name std)|set_solver|].
  apply le_S_n. etrans; [|exact Hfuel]. rewrite <- Nat.add_assoc. apply Nat.le_add_l.
Qed.

(** C39: directories are read back as they were written. For any sequence of files,
    each with a long name of up to 255 UTF-16 units (or none) and a standard
    entry, laid out as the format prescribes, iterating over the directory yields
    exactly one item per file, in order, with the fields of the standard entry
    and the long name; an ill-formed name is [EINVAL] for that file only. *)
Theorem directory_roundtrip (files : list (list Z * list Z)) :
  (∀ f, f ∈ files → name_ok f.1 ∧ std_ok f.2) →
  let raw := concat ((λ f, file_entries f.1 f.2) <$> files) in
  dir_items (length raw) raw = (λ f, decoded f.1 f.2) <$> files.
Proof.
  intros Hf raw. by apply dir_items_files.
Qed.
End reading.

(** ** Example: a directory with two files *)
#[local] Instance ascii_utf16 : EcoStr := λ units,
  if forallb (λ u, u <? 128) units then Some units else None.
Definition demo_std : list Z :=
  [72; 69; 76; 76; 79; 126; 49; 32; 84; 88; 84; 0x20; 0; 0; 0; 0; 0; 0; 0; 0; 0; 0; 0; 0; 0; 0; 3; 0; 5; 0; 0; 0].
Definition demo_long : list Z := [104; 101; 108; 108; 111; 45; 119; 111; 114; 108; 100; 46; 116; 120; 116].

Lemma directory_roundtrip_witness :
  let raw := concat ((λ f, file_entries f.1 f.2) <$> [(demo_long, demo_std); ([], demo_std)]) in
  length raw = 4%nat ∧
  (λ r, match r with Ok e => (entry_name e, file_size e) | _ => ([], 0) end) <$> dir_items (length raw) raw
    = [(demo_long, 5); ([72; 69; 76; 76; 79; 126; 49; 46; 84; 88; 84], 5)].
Proof.
  split; [reflexivity|]. rewrite directory_roundtrip; [reflexivity|].
  intros f Hf. assert (std_ok demo_std) by (by constructor).
  rewrite !elem_of_cons in Hf. destruct Hf as [->|[->|Hf%elem_of_nil]]; [| |done]; (split; [|done]); constructor.
  - simpl. lia.
  - intros u Hu. simpl in Hu. unfold demo_long in Hu. repeat (apply elem_of_cons in Hu as [->|Hu]; [lia|]). by apply elem_of_nil in Hu.
  - simpl. lia.
  - intros u Hu%elem_of_nil. done.
Defined.

(** A long-name entry with order 0 panics the kernel: the order comes from the
    disk and is only asserted to be nonzero. *)
Lemma lfn_order_zero_panics : from_entry ([0x40] ++ replicate 10 0 ++ [Attr.LFN] ++ replicate 20 0) = Panic.
Proof. reflexivity. Qed.
