(* ===== verification/FatFile.v ===== *)
(** * Files of FAT32 ([fs/fat32_vfs/src/file.rs])

    A [FatFile] is a chain of clusters on a [BlockDevice]. It is the file system
    behind the page cache of [Inode]: the [BytesBackend] instance at the end
    discharges the law the cache's theorems use. *)
From S2P Require Import Prelude Address Defines Inode Fat DirEntry.

Definition SECTOR_COUNT_PER_PAGE : Z := 8.

Record FatFile : Type := mkFatFile {
  clusters : list Z;
  ff_fat : FileAllocTable;
  ff_create_time : option TimeSpec;
}.

Section fatfile.
Context {DV : BlockDevice} {CH : Chrono}.

(** [number] is the inode number the metadata draws. Collecting the clusters of
    a cyclic chain does not end, [None]. *)
Definition from_dir_entry (fat : FileAllocTable) (number : Z) (e : DirEntry) :
    KResult (option (FatFile * InodeMeta)) :=
  check (negb (is_dir e)) in
  let? chain := cluster_chain fat (first_cluster_id e) in
  match chain with
  | None => Ok None
  | Some cs =>
      let? sectors := umul 64 (Z.of_nat (length cs)) (sector_per_cluster fat) in
      let? bytes := umul 64 sectors SECTOR_SIZE in
      check (file_size e <=? bytes) in
      let meta := Meta.with_modify (Meta.with_change (Meta.with_access
        (Meta.with_len (Meta.new number Regular) (file_size e))
        (entry_access_time e)) (entry_create_time e)) (entry_modify_time e) in
      Ok (Some (mkFatFile cs fat None, meta))
  end.

(** The table the file was given is the one shared by the volume; it is returned
    with the cluster taken. *)
Definition create (fat : FileAllocTable) (number : Z) (now : TimeSpec) :
    KResult (FatFile * InodeMeta * FileAllocTable) :=
  let? (o, fat) := alloc_cluster fat None in
  let? c := ok_or o ENOSPC in
  let meta := Meta.with_modify (Meta.with_change (Meta.with_access (Meta.new number Regular) now) now) now in
  Ok (mkFatFile [c] fat (Some now), meta, fat).

(** ** Reading a page *)
Definition page_id_to_cluster_pos (d : FatFile) (page_id : Z) : KResult (Z * Z) :=
  let? s := umul 64 page_id SECTOR_COUNT_PER_PAGE in
  let sector_index := wrap 32 s in
  check (negb (sector_per_cluster (ff_fat d) =? 0)) in
  Ok (sector_index / sector_per_cluster (ff_fat d),
      wrap 8 (sector_index mod sector_per_cluster (ff_fat d))).

(** The [for] loop over the sectors of a cluster; [true] when the page is full. *)
Fixpoint read_sectors (sectors page : list Z) (sector_count : Z) : KResult (list Z * Z * bool) :=
  match sectors with
  | [] => Ok (page, sector_count, false)
  | sector_id :: sectors =>
      check ((sector_count + 1) * SECTOR_SIZE <=? Z.of_nat (length page)) in
      let page := take (Z.to_nat (sector_count * SECTOR_SIZE)) page ++ read_block sector_id ++
                  drop (Z.to_nat ((sector_count + 1) * SECTOR_SIZE)) page in
      if SECTOR_COUNT_PER_PAGE <=? sector_count + 1 then Ok (page, sector_count + 1, true)
      else read_sectors sectors page (sector_count + 1)
  end.

Fixpoint read_clusters (fuel : nat) (d : FatFile) (cluster_index sector_offset : Z) (page : list Z)
    (sector_count : Z) : KResult (list Z * Z) :=
  if Z.of_nat (length (clusters d)) <=? cluster_index then Ok (page, sector_count)
  else
    match fuel with
    | O => Panic
    | S fuel =>
        let? cluster_id := unwrap (clusters d !! Z.to_nat cluster_index) in
        let? (first, last) := cluster_sectors (ff_fat d) cluster_id in
        let? start := uadd 32 first sector_offset in
        let? (page, sector_count, full) := read_sectors (seqZ start (last - start)) page sector_count in
        if (full : bool) then Ok (page, sector_count)
        else
          let? cluster_index := uadd 32 cluster_index 1 in
          read_clusters fuel d cluster_index 0 page sector_count
    end.

Definition ff_read_page (d : FatFile) (page_id : Z) (page : list Z) : KResult (list Z * Z) :=
  let? (cluster_index, sector_offset) := page_id_to_cluster_pos d page_id in
  check (Z.of_nat (length page) =? PAGE_SIZE) in
  let? (page, sector_count) :=
    read_clusters (length (clusters d)) d cluster_index sector_offset page 0 in
  Ok (page, sector_count * SECTOR_SIZE).

(** [read_inode_at] on a kernel buffer *)
Definition read_inode_at (d : FatFile) (offset : Z) (page : list Z) : KResult (list Z * Z) :=
  if (Z.of_nat (length page) =? PAGE_SIZE) && (Z.land offset PAGE_OFFSET_MASK =? 0)
  then ff_read_page d (Z.shiftr offset PAGE_SIZE_BITS) page
  else Panic.

(** ** Truncation; extending a file is [todo!]. *)
Definition ff_truncate (d : FatFile) (meta : InodeMeta) (len : Z) (now : TimeSpec) :
    KResult (FatFile * InodeMeta) :=
  if len <? data_len meta then
    check (negb (bytes_per_cluster (ff_fat d) =? 0)) in
    let count := Z.to_nat (div_ceil len (bytes_per_cluster (ff_fat d))) in
    check (bool_decide (count ≤ length (clusters d))%nat) in
    let? prev := match count with
                 | O => Ok None
                 | S n => let? p := unwrap (clusters d !! n) in Ok (Some p)
                 end in
    let? fat := free_clusters (ff_fat d) (drop count (clusters d)) prev in
    Ok (mkFatFile (take count (clusters d)) fat (ff_create_time d),
        Meta.with_modify (Meta.with_change (Meta.with_len meta len) now) now)
  else if data_len meta <? len then Panic
  else Ok (d, meta).

(** ** The contents of a file, as bytes *)
Definition cluster_range (fat : FileAllocTable) (c : Z) : list Z :=
  seqZ (data_start_sector_id fat + (c - RESERVED_FAT_ENTRY_COUNT) * sector_per_cluster fat) (sector_per_cluster fat).
Definition sectors_of (d : FatFile) : list Z := concat (cluster_range (ff_fat d) <$> clusters d).
Definition ff_content (d : FatFile) : list Z := concat (read_block <$> sectors_of d).

(** The geometry of the volume fits the widths of the code. *)
Record ff_ok (d : FatFile) : Prop := {
  ok_spc : 1 ≤ sector_per_cluster (ff_fat d) < 256;
  ok_start : 0 ≤ data_start_sector_id (ff_fat d);
  ok_clusters c : c ∈ clusters d → 2 ≤ c ∧
    data_start_sector_id (ff_fat d) + (c - 1) * sector_per_cluster (ff_fat d) < 2 ^ 32;
  ok_count : Z.of_nat (length (clusters d)) < 2 ^ 32;
}.

Lemma length_sector i : length (read_block i) = 512%nat.
Proof. pose proof (length_read_block i). unfold SECTOR_SIZE in *. lia. Qed.
Lemma length_cluster_range fat c : length (cluster_range fat c) = Z.to_nat (sector_per_cluster fat).
Proof. apply length_seqZ. Qed.

(** Reading sectors fills the page from the front. *)
Lemma read_sectors_ok sectors page n :
  Z.of_nat (length page) = PAGE_SIZE → 0 ≤ n < SECTOR_COUNT_PER_PAGE →
  let data := concat (read_block <$> take (Z.to_nat (SECTOR_COUNT_PER_PAGE - n)) sectors) in
  read_sectors sectors page n =
    Ok (take (Z.to_nat (n * SECTOR_SIZE)) page ++ data ++
          drop (Z.to_nat (n * SECTOR_SIZE) + length data) page,
        n + Z.min (SECTOR_COUNT_PER_PAGE - n) (Z.of_nat (length sectors)),
        bool_decide (SECTOR_COUNT_PER_PAGE - n ≤ Z.of_nat (length sectors))).
Proof.
  unfold SECTOR_COUNT_PER_PAGE, SECTOR_SIZE. change PAGE_SIZE with 4096.
  revert page n. induction sectors as [|s sectors IH]; intros page n Hp Hn; cbn zeta.
  { simpl. rewrite take_nil. simpl. rewrite Nat.add_0_r, take_drop, bool_decide_eq_false_2 by lia.
    do 3 f_equal. lia. }
  cbn [read_sectors]. unfold SECTOR_COUNT_PER_PAGE, SECTOR_SIZE.
  rewrite (proj2 (Z.leb_le ((n + 1) * 512) _)) by lia. cbn [mbind outcome_bind assert].
  replace (Z.to_nat (8 - n)) with (S (Z.to_nat (8 - (n + 1)))) by lia. csimpl.
  set (page' := take _ page ++ read_block s ++ _).
  assert (length page' = length page) as Hl.
  { unfold page'. rewrite !length_app, length_take, length_drop, length_sector. lia. }
  pose proof (length_sector s) as Hs.
  destruct (Z.leb_spec 8 (n + 1)) as [He|He].
  - assert (n = 7) as -> by lia. change (take (Z.to_nat (8 - (7 + 1))) sectors) with (@nil Z).
    cbn [fmap list_fmap concat]. rewrite app_nil_r, Hs, bool_decide_eq_true_2 by (cbn [length]; lia).
    unfold page'. do 2 f_equal. f_equal. cbn [length]. lia.
  - rewrite IH by lia. set (data := concat _). rewrite length_app, Hs.
    assert (take (Z.to_nat ((n + 1) * 512)) page' = take (Z.to_nat (n * 512)) page ++ read_block s) as ->.
    { unfold page'. rewrite app_assoc, take_app_length'; [done|].
      rewrite length_app, length_take, Hs. lia. }
    assert (drop (Z.to_nat ((n + 1) * 512) + length data) page'
            = drop (Z.to_nat (n * 512) + (512 + length data)) page) as ->.
    { unfold page'. rewrite app_assoc, drop_app_ge by (rewrite length_app, length_take, Hs; lia).
      rewrite drop_drop. f_equal. rewrite length_app, length_take, Hs. lia. }
    rewrite <- !app_assoc. do 2 f_equal; [f_equal; lia|]. apply bool_decide_ext. lia.
Qed.

Lemma read_sectors_app l1 l2 page n :
  read_sectors (l1 ++ l2) page n =
    let? (page, n, full) := read_sectors l1 page n in
    if (full : bool) then Ok (page, n, full) else read_sectors l2 page n.
Proof.
  revert page n. induction l1 as [|s l1 IH]; intros page n; [done|]. cbn [app read_sectors].
  destruct (_ <=? Z.of_nat _); [|done]. cbn [assert mbind outcome_bind].
  destruct (_ <=? n + 1); [done|]. apply IH.
Qed.
Lemma read_sectors_grows sectors page n :
  Z.of_nat (length page) = PAGE_SIZE → 0 ≤ n < SECTOR_COUNT_PER_PAGE →
  ∃ page' n' full, read_sectors sectors page n = Ok (page', n', full) ∧
    Z.of_nat (length page') = PAGE_SIZE ∧
    0 ≤ n' ∧ (full = false → n' < SECTOR_COUNT_PER_PAGE).
Proof.
  intros Hp Hn. rewrite read_sectors_ok by done. do 3 eexists. split; [reflexivity|].
  rewrite !length_app, length_take, length_drop, (length_pieces _ _ length_sector), length_take.
  unfold SECTOR_COUNT_PER_PAGE, SECTOR_SIZE in *. change PAGE_SIZE with 4096 in *.
  split; [lia|]. split; [lia|]. intros ?%bool_decide_eq_false. lia.
Qed.

Lemma cluster_sectors_ok d c :
  ff_ok d → c ∈ clusters d →
  let first := data_start_sector_id (ff_fat d) + (c - RESERVED_FAT_ENTRY_COUNT) * sector_per_cluster (ff_fat d) in
  cluster_sectors (ff_fat d) c = Ok (first, first + sector_per_cluster (ff_fat d)) ∧ 0 ≤ first ∧
  first + sector_per_cluster (ff_fat d) < 2 ^ 32.
Proof.
  intros [Hs H0 Hc _] Hin first. destruct (Hc c Hin) as [Hc2 Hb]. unfold first, cluster_sectors.
  unfold RESERVED_FAT_ENTRY_COUNT. rewrite (proj2 (Z.leb_le _ _)) by lia. cbn [mbind outcome_bind assert].
  unfold umul, uadd. rewrite !checked_fits by nia. cbn [mbind outcome_bind].
  rewrite !checked_fits by nia. cbn [mbind outcome_bind]. rewrite !checked_fits by nia. cbn [mbind outcome_bind].
  split; [done|]. nia.
Qed.

Lemma seqZ_tail a n o : 0 ≤ o ≤ n → seqZ (a + o) (a + n - (a + o)) = drop (Z.to_nat o) (seqZ a n).
Proof.
  intros Ho. replace n with (o + (n - o)) at 2 by lia. rewrite seqZ_app by lia.
  rewrite drop_app_length' by (rewrite length_seqZ; lia). f_equal. lia.
Qed.

(** Walking the clusters reads the sectors of the file in order. *)
Lemma read_clusters_ok d fuel ci so page n :
  ff_ok d → 0 ≤ ci → 0 ≤ so < sector_per_cluster (ff_fat d) →
  Z.of_nat (length (clusters d)) - ci ≤ Z.of_nat fuel →
  Z.of_nat (length page) = PAGE_SIZE → 0 ≤ n < SECTOR_COUNT_PER_PAGE →
  read_clusters fuel d ci so page n =
    let? (page, n, _) := read_sectors (drop (Z.to_nat (ci * sector_per_cluster (ff_fat d) + so)) (sectors_of d)) page n in
    Ok (page, n).
Proof.
  intros Hok. pose proof Hok as [Hs _ _ Hlen]. set (spc := sector_per_cluster (ff_fat d)) in *.
  assert (∀ c, length (cluster_range (ff_fat d) c) = Z.to_nat spc) as Hrange
    by (intros; apply length_cluster_range).
  revert ci so page n. induction fuel as [|fuel IH]; intros ci so page n Hci Hso Hf Hp Hn; cbn [read_clusters].
  { rewrite (proj2 (Z.leb_le _ _)) by lia. rewrite drop_ge; [done|].
    unfold sectors_of. rewrite (length_pieces _ _ Hrange). nia. }
  destruct (Z.leb_spec (Z.of_nat (length (clusters d))) ci) as [Hge|Hlt].
  { rewrite drop_ge; [done|]. unfold sectors_of. rewrite (length_pieces _ _ Hrange). nia. }
  destruct (lookup_lt_is_Some_2 (clusters d) (Z.to_nat ci)) as [c Hc]; [lia|].
  rewrite Hc. cbn [unwrap mbind outcome_bind].
  destruct (cluster_sectors_ok d c Hok) as (-> & H0 & Hb); [by eapply list_elem_of_lookup_2|].
  fold spc in H0, Hb |- *. cbn [mbind outcome_bind]. unfold uadd. rewrite !checked_fits by lia.
  cbn [mbind outcome_bind]. rewrite seqZ_tail by lia. unfold sectors_of.
  replace (Z.to_nat (ci * spc + so)) with (Z.to_nat ci * Z.to_nat spc + Z.to_nat so)%nat by nia.
  rewrite (drop_piece _ _ Hrange _ _ _ _ Hc) by lia.
  fold (cluster_range (ff_fat d) c). change (seqZ _ spc) with (cluster_range (ff_fat d) c).
  set (hd := drop (Z.to_nat so) (cluster_range (ff_fat d) c)). rewrite read_sectors_app.
  destruct (read_sectors_grows hd page n Hp Hn) as (page' & n' & full & -> & Hp' & Hn').
  cbn [mbind outcome_bind]. destruct full; [done|].
  destruct Hn' as [Hn0 Hn']. rewrite IH by (done || lia || (split; [done|by apply Hn'])).
  unfold sectors_of. do 3 f_equal. nia.
Qed.

(** The position of a page in the chain. *)
Lemma page_pos_ok d id :
  ff_ok d → 0 ≤ id < 2 ^ 29 →
  let spc := sector_per_cluster (ff_fat d) in
  page_id_to_cluster_pos d id = Ok (id * 8 / spc, id * 8 mod spc) ∧ 0 ≤ id * 8 / spc ∧
  0 ≤ id * 8 mod spc < spc ∧ id * 8 / spc * spc + id * 8 mod spc = id * 8.
Proof.
  intros [Hs _ _ _] Hid spc. fold spc in Hs. unfold page_id_to_cluster_pos, umul, SECTOR_COUNT_PER_PAGE. fold spc.
  rewrite checked_fits by lia. cbn [mbind outcome_bind].
  rewrite (proj2 (Z.eqb_neq spc 0)) by lia. cbn [assert negb mbind outcome_bind].
  pose proof (Z.mod_pos_bound (id * 8) spc). rewrite (wrap_small 32), (wrap_small 8) by lia.
  split; [done|]. split; [apply Z.div_pos; lia|]. split; [lia|].
  pose proof (Z.div_mod (id * 8) spc). lia.
Qed.

Lemma read_inode_at_ok d id page :
  ff_ok d → 0 ≤ id < 2 ^ 29 → Z.of_nat (length page) = PAGE_SIZE →
  let chunk := take (Z.to_nat PAGE_SIZE) (drop (Z.to_nat (id * PAGE_SIZE)) (ff_content d)) in
  read_inode_at d (id * PAGE_SIZE) page = Ok (chunk ++ drop (length chunk) page, Z.of_nat (length chunk)).
Proof.
  intros Hok Hid Hp chunk. unfold read_inode_at.
  assert (Z.land (id * PAGE_SIZE) PAGE_OFFSET_MASK = 0) as ->.
  { fold (VirtAddr.page_offset (id * PAGE_SIZE)). rewrite page_offset_mod. by apply Z.mod_mul. }
  rewrite Hp, !Z.eqb_refl. cbn [andb].
  assert (Z.shiftr (id * PAGE_SIZE) PAGE_SIZE_BITS = id) as ->.
  { rewrite Z.shiftr_div_pow2 by done. by apply Z.div_mul. }
  unfold ff_read_page. destruct (page_pos_ok d id Hok Hid) as (-> & Hc0 & Hso & Hsum).
  cbn [mbind outcome_bind]. rewrite Hp, Z.eqb_refl. cbn [assert mbind outcome_bind].
  rewrite read_clusters_ok; [|done|done|done|lia|done|done]. rewrite Hsum, read_sectors_ok by done.
  cbn [mbind outcome_bind]. unfold SECTOR_COUNT_PER_PAGE. rewrite Z.sub_0_r, Z.mul_0_l.
  change (Z.to_nat 0) with 0%nat. change (Z.to_nat 8) with 8%nat. rewrite take_0, app_nil_l, Nat.add_0_l.
  set (l := drop (Z.to_nat (id * 8)) (sectors_of d)).
  assert (concat (read_block <$> take 8 l) = chunk) as ->.
  { unfold chunk, l, ff_content. rewrite <- (take_pieces _ _ length_sector), <- (drop_pieces _ _ length_sector).
    change PAGE_SIZE with 4096. f_equal. f_equal. lia. }
  do 3 f_equal. unfold chunk, ff_content. change PAGE_SIZE with 4096.
  replace (Z.to_nat (id * 4096)) with (Z.to_nat (id * 8) * 512)%nat by lia.
  rewrite (drop_pieces _ _ length_sector). fold l.
  change (Z.to_nat 4096) with (8 * 512)%nat. rewrite (take_pieces _ _ length_sector), (length_pieces _ _ length_sector), length_take.
  unfold SECTOR_SIZE. lia.
Qed.

(** C38: reading a page by walking the cluster chain gives the same bytes as
    slicing the file's contents, the concatenation of its clusters: the part of
    the page within the file is overwritten, the rest of the buffer is left as it
    was, and the number of bytes read is returned. A buffer that is not a page or
    an unaligned offset is not implemented and panics. *)
Theorem fat_read_page_equiv d offset page :
  ff_ok d → 0 ≤ offset < 2 ^ 41 →
  let chunk := take (Z.to_nat PAGE_SIZE) (drop (Z.to_nat offset) (ff_content d)) in
  read_inode_at d offset page =
    if bool_decide (Z.of_nat (length page) = PAGE_SIZE ∧ offset mod PAGE_SIZE = 0)
    then Ok (chunk ++ drop (length chunk) page, Z.of_nat (length chunk))
    else Panic.
Proof.
  intros Hok Ho chunk. case_bool_decide as Hb.
  - destruct Hb as [Hp Hm]. pose proof (Z.div_mod offset PAGE_SIZE ltac:(done)) as Hd.
    change PAGE_SIZE with 4096 in Hd, Hm. unfold chunk.
    replace offset with (offset / 4096 * PAGE_SIZE) by (change PAGE_SIZE with 4096; lia).
    apply read_inode_at_ok; [done| |done]. lia_div.
  - unfold read_inode_at. fold (VirtAddr.page_offset offset). rewrite page_offset_mod.
    destruct (Z.eqb_spec (Z.of_nat (length page)) PAGE_SIZE); [|done].
    destruct (Z.eqb_spec (offset mod PAGE_SIZE) 0); [tauto|done].
Qed.

(** ** Truncation *)
Definition per_cluster (d : FatFile) : nat := Z.to_nat (sector_per_cluster (ff_fat d)).

Lemma length_content d : length (ff_content d) = (length (clusters d) * per_cluster d * 512)%nat.
Proof.
  unfold ff_content, sectors_of. rewrite (length_pieces _ _ length_sector).
  by rewrite (length_pieces _ _ (length_cluster_range _)).
Qed.
(** Dropping clusters from the end drops their bytes. *)
Lemma content_take d fat n time :
  same_geometry (ff_fat d) fat →
  ff_content (mkFatFile (take n (clusters d)) fat time) = take (n * per_cluster d * 512) (ff_content d).
Proof.
  intros (H1 & H2 & _). unfold ff_content, sectors_of. simpl.
  rewrite (take_pieces _ _ length_sector). unfold per_cluster.
  rewrite (take_pieces _ _ (length_cluster_range (ff_fat d))).
  do 2 f_equal. f_equal. apply list_fmap_ext. intros i c _. unfold cluster_range. by rewrite H1, H2.
Qed.

Lemma same_geometry_refl f : same_geometry f f.
Proof. done. Qed.

Lemma ff_ok_take d fat n time :
  ff_ok d → same_geometry (ff_fat d) fat → ff_ok (mkFatFile (take n (clusters d)) fat time).
Proof.
  intros [Hs H0 Hc Hl] (H1 & H2 & _). constructor; simpl; rewrite ?H1, ?H2; [done|done| |].
  - intros c (i & Hc' & _)%elem_of_take. apply Hc. by eapply list_elem_of_lookup_2.
  - rewrite length_take. lia.
Qed.

(** A chain cut after [n] clusters: what [free_clusters] is called with. *)
Lemma cut_chain d first n :
  wf_fat (ff_fat d) → linked (fat_entries (ff_fat d)) first (clusters d) →
  (∀ i p c, clusters d !! i = Some p → clusters d !! S i = Some c →
            fat_entries (ff_fat d) !! Z.to_nat p = Some c) →
  0 ≤ free_count (alloc_meta (ff_fat d)) →
  free_count (alloc_meta (ff_fat d)) + Z.of_nat (length (clusters d)) < 2 ^ 32 →
  (n ≤ length (clusters d))%nat →
  ∃ f', free_clusters (ff_fat d) (drop n (clusters d)) (last (take n (clusters d))) = Ok f' ∧
    wf_fat f' ∧ same_geometry (ff_fat d) f' ∧
    (∀ c, c ∈ drop n (clusters d) → is_free f' c) ∧
    (take n (clusters d) ≠ [] → linked (fat_entries f') first (take n (clusters d))) ∧
    (∀ first' l, linked (fat_entries (ff_fat d)) first' l → (∀ c, c ∈ clusters d → c ∉ l) →
       linked (fat_entries f') first' l).
Proof.
  intros Hwf Hl Hex H0 Hc Hn. destruct (decide (drop n (clusters d) = [])) as [He|Hne].
  { rewrite He. exists (ff_fat d). split; [done|]. split; [done|]. split; [done|].
    split; [intros c Hc'; by apply elem_of_nil in Hc'|]. split; [|done].
    intros _. rewrite <- (take_drop n (clusters d)), He, app_nil_r in Hl. done. }
  destruct (free_clusters_ok (ff_fat d) first (take n (clusters d)) (drop n (clusters d)))
    as (f' & Hf & Hwf' & Hg & Hfr & _ & Hlk & Hother); [done|by rewrite take_drop| |done| |done|].
  - intros p c Hp Hh. rewrite last_lookup, length_take, Nat.min_l in Hp by done.
    apply lookup_take_Some in Hp as [Hp ?]. apply (Hex (pred n)); [done|].
    rewrite head_lookup, lookup_drop, Nat.add_0_r in Hh. by replace (S (pred n)) with n by lia.
  - rewrite length_drop. lia.
  - exists f'. rewrite take_drop in Hother. done.
Qed.

Lemma last_take_prev (cs : list Z) n :
  (n ≤ length cs)%nat →
  match n with
  | O => Ok None
  | S k => let? p := unwrap (cs !! k) in Ok (Some p)
  end = Ok (E:=errno) (last (take n cs)).
Proof.
  intros Hn. destruct n as [|k]; [done|].
  destruct (lookup_lt_is_Some_2 cs k) as [p Hp]; [lia|]. rewrite Hp. simpl.
  rewrite last_lookup, length_take, Nat.min_l by done. simpl.
  by rewrite lookup_take_lt, Hp by lia.
Qed.

(** Truncating a FAT file keeps exactly the clusters the new length needs:
    the first [len] bytes are unchanged, less than a cluster of slack is left, the
    clusters cut off are free, the rest is still a chain and the chains of other
    files are untouched. *)
Theorem fat_truncate_spec d meta len now first :
  let fat := ff_fat d in
  let bpc := bytes_per_cluster fat in
  ff_ok d → wf_fat fat → linked (fat_entries fat) first (clusters d) →
  (∀ i p c, clusters d !! i = Some p → clusters d !! S i = Some c →
            fat_entries fat !! Z.to_nat p = Some c) →
  0 ≤ free_count (alloc_meta fat) →
  free_count (alloc_meta fat) + Z.of_nat (length (clusters d)) < 2 ^ 32 →
  0 ≤ len < data_len meta → data_len meta ≤ Z.of_nat (length (ff_content d)) →
  ∃ d' meta', ff_truncate d meta len now = Ok (d', meta') ∧
    ff_ok d' ∧ wf_fat (ff_fat d') ∧ data_len meta' = len ∧
    take (Z.to_nat len) (ff_content d') = take (Z.to_nat len) (ff_content d) ∧
    len ≤ Z.of_nat (length (ff_content d')) < len + bpc ∧
    (∀ c, c ∈ clusters d → c ∉ clusters d' → is_free (ff_fat d') c) ∧
    (0 < len → linked (fat_entries (ff_fat d')) first (clusters d')) ∧
    (∀ first' l, linked (fat_entries fat) first' l → (∀ c, c ∈ clusters d → c ∉ l) →
       linked (fat_entries (ff_fat d')) first' l).
Proof.
  intros fat bpc Hok Hwf Hl Hex H0 Hc Hlen Hdl. pose proof (ok_spc d Hok) as Hs. fold fat in Hs.
  rewrite length_content in Hdl. unfold per_cluster in Hdl. fold fat in Hdl.
  assert (bpc = sector_per_cluster fat * 512) as Hbpc by done.
  pose proof (div_ceil_spec len bpc ltac:(lia)) as Hceil.
  set (n := Z.to_nat (div_ceil len bpc)).
  assert (0 ≤ div_ceil len bpc) by nia.
  assert (n ≤ length (clusters d))%nat as Hn by nia.
  destruct (cut_chain d first n Hwf Hl Hex H0 Hc Hn) as (f' & Hf & Hwf' & Hg & Hfr & Hlk & Hother).
  exists (mkFatFile (take n (clusters d)) f' (ff_create_time d)).
  eexists. split.
  { unfold ff_truncate. rewrite (proj2 (Z.ltb_lt _ _)) by lia. fold fat. fold bpc.
    rewrite (proj2 (Z.eqb_neq bpc 0)) by lia. cbn [assert negb mbind outcome_bind]. fold n.
    rewrite bool_decide_eq_true_2 by done. cbn [assert mbind outcome_bind].
    rewrite last_take_prev by done. cbn [mbind outcome_bind]. unfold fat. rewrite Hf. reflexivity. }
  split; [by apply ff_ok_take|]. split; [done|]. split; [done|].
  rewrite content_take by done. unfold per_cluster. fold fat.
  rewrite take_take, length_take, length_content. unfold per_cluster. fold fat.
  split; [f_equal; nia|]. split; [nia|]. cbn [clusters ff_fat].
  split; [|split; [|done]].
  - intros c Hin Hnin. apply Hfr. rewrite <- (take_drop n (clusters d)) in Hin. set_solver.
  - intros Hpos. apply Hlk. intros E%(f_equal length). rewrite length_take in E. simpl in E. nia.
Qed.
End fatfile.

Program Definition FatBackend {DV : BlockDevice} : BytesBackend FatFile := {|
  read_page := read_inode_at;
  truncate := ff_truncate;
  content := ff_content;
  backend_ok := ff_ok;
|}.
Next Obligation. intros DV d id page Hok Hid Hp. by apply read_inode_at_ok. Qed.

(** ** Example: three clusters of a page each *)
#[local, program] Instance demo_device : BlockDevice := {| read_block i := replicate 512 (i mod 256) |}.
Next Obligation. reflexivity. Qed.
Definition demo_file : FatFile := mkFatFile [2; 3; 6] demo_fat None.
Lemma demo_file_ok : ff_ok demo_file.
Proof.
  constructor; simpl; [lia|lia| |lia].
  intros c Hc. repeat (apply elem_of_cons in Hc as [->|Hc]; [lia|]). by apply elem_of_nil in Hc.
Qed.

Lemma fat_read_page_witness :
  read_inode_at demo_file 8192 (replicate 4096 0) =
    Ok (concat (read_block <$> [132; 133; 134; 135; 136; 137; 138; 139]), 4096) ∧
  read_inode_at demo_file 12288 (replicate 4096 0) = Ok (replicate 4096 0, 0).
Proof.
  split; rewrite (fat_read_page_equiv demo_file) by (apply demo_file_ok || lia); by vm_compute.
Defined.

Lemma fat_truncate_witness :
  ∃ d' m', ff_truncate demo_file (Meta.with_len (Meta.new 1 Regular) 12000) 5000 TimeSpec_default = Ok (d', m') ∧
    data_len m' = 5000 ∧ is_free (ff_fat d') 6.
Proof.
  destruct (fat_truncate_spec demo_file (Meta.with_len (Meta.new 1 Regular) 12000) 5000 TimeSpec_default 2)
    as (d' & m' & Ht & _ & _ & Hl & _ & _ & Hfr & _).
  - apply demo_file_ok.
  - apply demo_fat_wf.
  - apply demo_linked.
  - intros [|[|[|i]]] p c [= <-] Hc; simplify_eq/=; reflexivity.
  - simpl. lia.
  - simpl. lia.
  - simpl. lia.
  - rewrite length_content. simpl. lia.
  - exists d', m'. split; [exact Ht|]. split; [exact Hl|]. apply Hfr; [simpl; set_solver|].
    vm_compute in Ht. injection Ht as <- _. simpl. set_solver.
Defined.
