(* ===== verification/FatDir.v ===== *)
(** * Directories and volumes of FAT32 ([fs/fat32_vfs/src/dir.rs], [lib.rs])

    Mounting checks the boot sector and reads the table; a directory is a chain of
    clusters whose sectors hold directory entries. The allocation table is shared
    by all files of the volume and passed explicitly; [number] is the inode number
    a new inode draws. *)
From S2P Require Import Prelude Address Defines Inode Fat DirEntry FatFile.

Record FatDir : Type := mkFatDir {
  d_clusters : list Z;
  d_meta : InodeMeta;
  d_create_time : option TimeSpec;
}.
Inductive DynInode : Type :=
| DynDir (d : FatDir)
| DynBytes (f : FatFile) (meta : InodeMeta).

Definition clusters_disk_space (fat : FileAllocTable) (n : Z) : KResult Z :=
  let? s := umul 64 n (sector_per_cluster fat) in umul 64 s SECTOR_SIZE.

Section fatdir.
Context {DV : BlockDevice} {CH : Chrono} {ES : EcoStr}.

Definition disk_space (fat : FileAllocTable) (d : FatDir) : KResult Z :=
  clusters_disk_space fat (Z.of_nat (length (d_clusters d))).

(** A chain that does not end is [None], as for files. *)
Definition new_root (fat : FileAllocTable) (number first_root_cluster_id : Z) : KResult (option FatDir) :=
  check (2 <=? first_root_cluster_id) in
  let? chain := cluster_chain fat first_root_cluster_id in
  match chain with
  | None => Ok None
  | Some cs =>
      let? len := clusters_disk_space fat (Z.of_nat (length cs)) in
      Ok (Some (mkFatDir cs (Meta.with_len (Meta.new number Dir) len) None))
  end.

Definition dir_from_dir_entry (fat : FileAllocTable) (number : Z) (e : DirEntry) : KResult (option FatDir) :=
  check (is_dir e) in
  let? chain := cluster_chain fat (first_cluster_id e) in
  match chain with
  | None => Ok None
  | Some cs =>
      let? len := clusters_disk_space fat (Z.of_nat (length cs)) in
      Ok (Some (mkFatDir cs
        (Meta.with_modify (Meta.with_change (Meta.with_access
          (Meta.with_len (Meta.new number Dir) len)
          (entry_access_time e)) (entry_create_time e)) (entry_modify_time e)) None))
  end.

(** [mkdir] allocates a cluster; nothing is written to the directory yet. *)
Definition mkdir (fat : FileAllocTable) (number : Z) (now : TimeSpec) : KResult (FatDir * FileAllocTable) :=
  let? (o, fat) := alloc_cluster fat None in
  let? c := ok_or o ENOSPC in
  let? len := clusters_disk_space fat 1 in
  Ok (mkFatDir [c] (Meta.with_modify (Meta.with_change (Meta.with_access
        (Meta.with_len (Meta.new number Dir) len) now) now) now) (Some now), fat).

Definition mknod (fat : FileAllocTable) (number : Z) (now : TimeSpec) (m : InodeMode) :
    KResult (FatFile * InodeMeta * FileAllocTable) :=
  check (bool_decide (m = Regular)) in create fat number now.

(** ** Iteration

    The entries of a sector, the sectors of the clusters, up to the first entry
    whose name starts with a zero byte. *)
Definition sector_pieces (buf : list Z) : list (list Z) :=
  (λ i, take 32 (drop (32 * i) buf)) <$> seq 0 16.
Definition cluster_stream (fat : FileAllocTable) (c : Z) : list (KResult (list Z)) :=
  match cluster_sectors fat c with
  | Ok (first, last) => Ok <$> concat ((λ s, sector_pieces (read_block s)) <$> seqZ first (last - first))
  | _ => [Panic]
  end.
Fixpoint until_end (raw : list (KResult (list Z))) : list (KResult (list Z)) :=
  match raw with
  | Ok e :: raw => if byte_of e 0 =? 0 then [] else Ok e :: until_end raw
  | [] => []
  | _ => [Panic]
  end.
Definition raw_entries (fat : FileAllocTable) (cs : list Z) : list (KResult (list Z)) :=
  until_end (concat (cluster_stream fat <$> cs)).

(** ** [lookup] *)
Fixpoint find_entry (fuel : nat) (raw : list (KResult (list Z))) (name : list Z) : KResult (option DirEntry) :=
  match fuel with
  | O => Ok None
  | S fuel =>
      match dir_next raw with
      | None => Ok None
      | Some (Ok e, raw) => if bool_decide (entry_name e = name) then Ok (Some e) else find_entry fuel raw name
      | Some (Err _, raw) => find_entry fuel raw name
      | Some (Panic, _) => Panic
      end
  end.

Definition lookup_entry (fat : FileAllocTable) (cs name : list Z) : KResult (option DirEntry) :=
  let raw := raw_entries fat cs in find_entry (length raw) raw name.

Definition inode_of (fat : FileAllocTable) (number : Z) (e : DirEntry) : KResult (option DynInode) :=
  if is_dir e then
    let? o := dir_from_dir_entry fat number e in Ok (option_map DynDir o)
  else
    let? o := from_dir_entry fat number e in Ok (option_map (λ '(f, m), DynBytes f m) o).

(** The directory with its access time, and the inode found, if any; [None] when
    its chain does not end. *)
Definition lookup (fat : FileAllocTable) (number : Z) (now : TimeSpec) (d : FatDir) (name : list Z) :
    KResult (FatDir * option (option DynInode)) :=
  let d := mkFatDir (d_clusters d) (Meta.with_access (d_meta d) now) (d_create_time d) in
  let? o := lookup_entry fat (d_clusters d) name in
  match o with
  | None => Ok (d, Some None)
  | Some e =>
      let? i := inode_of fat number e in
      Ok (d, match i with Some i => Some (Some i) | None => None end)
  end.

(** ** Mounting: the table and the root directory *)
Definition new_fat32_fs (number : Z) : KResult (FileAllocTable * option FatDir) :=
  let? bpb := bpb_new (read_block BOOT_SECTOR_ID) in
  let? valid := is_valid_fat32_bpb bpb in
  if negb valid then Err EINVAL
  else
    let? fat := fat_new bpb in
    let? root := new_root fat number (root_cluster bpb) in
    Ok (fat, root).

(** ** Cutting a byte stream into entries *)
Definition pieces32 (n : nat) (l : list Z) : list (list Z) :=
  (λ i, take 32 (drop (32 * i) l)) <$> seq 0 n.

Lemma pieces32_S n l : pieces32 (S n) l = take 32 l :: pieces32 n (drop 32 l).
Proof.
  unfold pieces32. cbn [seq]. rewrite fmap_cons, drop_0. f_equal.
  rewrite <- fmap_S_seq, <- list_fmap_compose. apply list_fmap_ext. intros i j _. simpl.
  rewrite drop_drop. do 2 f_equal. lia.
Qed.
Lemma pieces32_app n m a b :
  length a = (32 * n)%nat → pieces32 (n + m) (a ++ b) = pieces32 n a ++ pieces32 m b.
Proof.
  revert a. induction n as [|n IH]; intros a Ha.
  { destruct a; [done|simpl in Ha; lia]. }
  rewrite Nat.add_succ_l, !pieces32_S. cbn [app].
  rewrite take_app_le, drop_app_le by lia. f_equal. apply IH. rewrite length_drop. lia.
Qed.
Lemma pieces32_concat raws n rest :
  (∀ r, r ∈ raws → length r = 32%nat) → (length raws ≤ n)%nat →
  pieces32 n (concat raws ++ rest) = raws ++ pieces32 (n - length raws) rest.
Proof.
  revert n. induction raws as [|r raws IH]; intros n Hr Hn; cbn [concat app length] in *.
  { by rewrite Nat.sub_0_r. }
  destruct n as [|n]; [lia|]. assert (length r = 32%nat) as Hl by (apply Hr; set_solver).
  rewrite <- app_assoc, pieces32_S, take_app_length', drop_app_length' by done. f_equal.
  apply IH; [set_solver|lia].
Qed.
Lemma pieces32_sectors (ss : list Z) :
  concat ((λ s, sector_pieces (read_block s)) <$> ss)
    = pieces32 (16 * length ss) (concat (read_block <$> ss)).
Proof.
  induction ss as [|s ss IH]; [done|]. rewrite !fmap_cons. cbn [concat length].
  rewrite Nat.mul_succ_r, Nat.add_comm, pieces32_app by (by rewrite length_sector). by rewrite IH.
Qed.

(** The stream of a directory is its contents, cut into entries. *)
Lemma stream_ok fat cs :
  ff_ok (mkFatFile cs fat None) →
  ∃ n, 32 * n = Z.of_nat (length (ff_content (mkFatFile cs fat None))) ∧
  concat (cluster_stream fat <$> cs)
    = Ok <$> pieces32 (Z.to_nat n) (ff_content (mkFatFile cs fat None)).
Proof.
  intros Hok. set (d := mkFatFile cs fat None) in *.
  assert (∀ c, c ∈ cs → cluster_stream fat c
     = Ok <$> concat ((λ s, sector_pieces (read_block s)) <$> cluster_range fat c)) as Hc.
  { intros c Hc. unfold cluster_stream. destruct (cluster_sectors_ok d c Hok Hc) as (E & _).
    simpl in E. rewrite E. unfold cluster_range. by rewrite Z.add_simpl_l. }
  exists (16 * Z.of_nat (length (sectors_of d))). split.
  { unfold ff_content. rewrite (length_pieces _ _ length_sector). lia. }
  replace (Z.to_nat (16 * _)) with (16 * length (sectors_of d))%nat by lia.
  unfold ff_content. rewrite <- pieces32_sectors. unfold sectors_of. simpl. clear Hok d.
  induction cs as [|c cs IH]; [done|]. csimpl. rewrite Hc by set_solver.
  rewrite IH by (intros; apply Hc; set_solver). by rewrite fmap_app, concat_app, fmap_app.
Qed.

(** ** The entries of a directory, from its bytes *)
Record std_entry_ok (std : list Z) : Prop := {
  entry_std_ok : std_ok std;
  entry_length : length std = 32%nat;
  entry_used : byte_of std 0 ≠ 0;
}.

Lemma lfn_entry_shape order last sum part :
  (1 ≤ order)%nat → length part = LNAME_PART_LEN →
  length (lfn_entry order last sum part) = 32%nat ∧ byte_of (lfn_entry order last sum part) 0 ≠ 0.
Proof.
  intros Ho Hl. unfold LNAME_PART_LEN in Hl.
  do 13 (destruct part as [|? part]; [done|]). destruct part; [|done].
  split; [done|]. unfold byte_of, lfn_entry. cbn -[Z.of_nat]. destruct last; lia.
Qed.
Lemma raw_file_shape name std r :
  std_entry_ok std → r ∈ raw_file name std → length r = 32%nat ∧ byte_of r 0 ≠ 0.
Proof.
  intros [_ Hl Hu] Hr. unfold raw_file in Hr. apply elem_of_app in Hr as [Hr|Hr].
  - set (n := name_parts name) in Hr. assert (n ≤ name_parts name)%nat as Hn by done. clearbody n.
    induction n as [|n IH]; [by apply elem_of_nil in Hr|]. cbn [lfn_entries] in Hr.
    apply elem_of_cons in Hr as [->|Hr]; [|apply IH; [done|lia]].
    apply lfn_entry_shape; [lia|]. apply length_name_part. lia.
  - apply list_elem_of_singleton in Hr as ->. done.
Qed.

Lemma until_end_used raws rest :
  (∀ r, r ∈ raws → byte_of r 0 ≠ 0) → until_end ((Ok <$> raws) ++ rest) = (Ok <$> raws) ++ until_end rest.
Proof.
  induction raws as [|r raws IH]; intros Hr; [done|]. csimpl.
  rewrite (proj2 (Z.eqb_neq _ 0)) by (apply Hr; set_solver). rewrite IH; [done|]. intros. apply Hr. set_solver.
Qed.

Lemma raw_entries_files fat cs files rest :
  ff_ok (mkFatFile cs fat None) →
  (∀ f, f ∈ files → std_entry_ok f.2) →
  ff_content (mkFatFile cs fat None) = concat ((λ f, concat (raw_file f.1 f.2)) <$> files) ++ 0 :: rest →
  raw_entries fat cs = concat ((λ f, file_entries f.1 f.2) <$> files).
Proof.
  intros Hok Hf Hc. unfold raw_entries. destruct (stream_ok fat cs Hok) as (n & Hn & ->).
  set (raws := concat ((λ f, raw_file f.1 f.2) <$> files)).
  assert (concat ((λ f, concat (raw_file f.1 f.2)) <$> files) = concat raws) as E.
  { unfold raws. clear. induction files as [|f files IH]; [done|]. csimpl. by rewrite concat_app, IH. }
  assert (concat ((λ f, file_entries f.1 f.2) <$> files) = Ok <$> raws) as ->.
  { unfold raws. clear. induction files as [|f files IH]; [done|]. csimpl.
    by rewrite fmap_app, file_entries_raw, IH. }
  assert (∀ r, r ∈ raws → length r = 32%nat ∧ byte_of r 0 ≠ 0) as Hr.
  { intros r Hr. unfold raws in Hr. apply list_elem_of_In, in_concat in Hr as (l & Hl & Hr).
    apply list_elem_of_In, list_elem_of_fmap in Hl as (f & -> & Hin).
    eapply raw_file_shape; [by apply Hf|]. by apply list_elem_of_In. }
  rewrite Hc, E in Hn |- *.
  assert (length (concat raws) = 32 * length raws)%nat as Hlen.
  { clear -Hr. induction raws as [|r raws IH]; [done|]. cbn [concat length]. rewrite length_app.
    rewrite IH by (intros; apply Hr; set_solver). destruct (Hr r); [set_solver|lia]. }
  rewrite length_app, Hlen in Hn. cbn [length] in Hn.
  rewrite pieces32_concat; [|intros r Hin; by apply Hr|lia].
  destruct (Z.to_nat n - length raws)%nat as [|m] eqn:Em; [lia|].
  rewrite fmap_app, until_end_used by (intros r Hin; by apply Hr). by rewrite pieces32_S, app_nil_r.
Qed.

(** ** Looking up a name *)
Definition ok_value {A} (r : KResult A) : option A := match r with Ok x => Some x | _ => None end.
(** The first of the files with this name. *)
Definition first_named (files : list (list Z * list Z)) (name : list Z) : option DirEntry :=
  head (filter (λ e, entry_name e = name) (omap (λ f, ok_value (decoded f.1 f.2)) files)).

Lemma find_entry_files files fuel name :
  (∀ f, f ∈ files → name_ok f.1 ∧ std_ok f.2) →
  let raw := concat ((λ f, file_entries f.1 f.2) <$> files) in
  (length raw ≤ fuel)%nat → find_entry fuel raw name = Ok (first_named files name).
Proof.
  revert fuel. induction files as [|[n std] files IH]; intros fuel Hf raw Hfuel; [by destruct fuel|].
  destruct (Hf (n, std)) as [Hn Hs]; [set_solver|]. subst raw. csimpl in *.
  rewrite length_app in Hfuel. unfold file_entries in Hfuel at 1. rewrite length_app in Hfuel. cbn [length] in Hfuel.
  destruct fuel as [|fuel]; [lia|]. cbn [find_entry]. rewrite next_file by done.
  unfold first_named. cbn [omap list_omap fst snd].
  assert (find_entry fuel (concat ((λ f, file_entries f.1 f.2) <$> files)) name = Ok (first_named files name)) as IH'.
  { apply IH; [set_solver|lia]. }
  pose proof (decoded_no_panic n std). destruct (decoded n std) as [e|e|]; [|exact IH'|done].
  cbn [ok_value]. rewrite filter_cons. case_bool_decide as Hb.
  - by rewrite decide_True by done.
  - rewrite decide_False by done. exact IH'.
Qed.

(** [lookup] finds files by name. If the bytes of a directory's clusters are the
    entries of some files, laid out as the format prescribes and followed by an
    end mark, then looking up a name returns the first file of that name, its
    long name if it has one and its short name otherwise, and nothing when there
    is no such file. *)
Theorem fat_lookup_spec fat cs files rest name :
  ff_ok (mkFatFile cs fat None) →
  (∀ f, f ∈ files → name_ok f.1 ∧ std_entry_ok f.2) →
  ff_content (mkFatFile cs fat None) = concat ((λ f, concat (raw_file f.1 f.2)) <$> files) ++ 0 :: rest →
  lookup_entry fat cs name = Ok (first_named files name).
Proof.
  intros Hok Hf Hc. unfold lookup_entry.
  rewrite (raw_entries_files fat cs files rest); [|done|intros f Hin; by apply Hf|done].
  apply find_entry_files; [|done]. intros f Hin. destruct (Hf f Hin) as [? []]. done.
Qed.

(** ** Mounting *)
Record bpb_fits (b : BiosParameterBlock) : Prop := {
  fits_spc : 0 ≤ bpb_sector_per_cluster b < 2 ^ 8;
  fits_reserved : 0 ≤ reserved_sector_count b < 2 ^ 16;
  fits_fats : 0 ≤ fat_count b < 2 ^ 8;
  fits_length : 0 ≤ fat32_length b < 2 ^ 32;
  fits_total : 0 ≤ total_sector_count b < 2 ^ 32;
}.
Definition data_start (b : BiosParameterBlock) : Z := reserved_sector_count b + fat_count b * fat32_length b.
Definition cluster_count (b : BiosParameterBlock) : Z :=
  (total_sector_count b - data_start b) / bpb_sector_per_cluster b.

(** What the mount check establishes. *)
Lemma valid_bpb b :
  bpb_fits b → is_valid_fat32_bpb b = Ok true →
  0 < bpb_sector_per_cluster b ≤ 128 ∧ 0 < reserved_sector_count b ∧ 0 < fat_count b ∧
  0 < fat32_length b ∧ data_start b < total_sector_count b ∧
  65526 ≤ cluster_count b ∧ 2 ≤ root_cluster b < cluster_count b + 2.
Proof.
  intros [H1 H2 H3 H4 H5]. unfold is_valid_fat32_bpb.
  destruct (_ || _) eqn:Hg; [done|]. rewrite !orb_false_iff in Hg.
  destruct Hg as ((((((((((((_ & Hs) & _) & Hs') & Hr) & Hf) & Hl) & _) & _) & _) & _) & _) & _).
  apply Z.eqb_neq in Hs, Hr, Hf, Hl. apply Z.ltb_ge in Hs'. unfold umul, uadd.
  destruct (checked 32 (fat_count b * _)) as [fs| |] eqn:E1; [|done..]. apply checked_Ok in E1 as [<- _].
  cbn [mbind outcome_bind].
  destruct (checked 32 (reserved_sector_count b + _)) as [ds| |] eqn:E2; [|done..]. apply checked_Ok in E2 as [<- _].
  cbn [mbind outcome_bind]. fold (data_start b).
  destruct (Z.leb_spec (total_sector_count b) (data_start b)) as [|Ht]; [done|]. fold (cluster_count b).
  destruct (Z.ltb_spec (cluster_count b) 65526); [done|].
  destruct (checked 32 (cluster_count b + 1)) as [mx| |] eqn:E3; [|done..]. apply checked_Ok in E3 as [<- _].
  cbn [mbind outcome_bind]. intros [= Hroot]. apply negb_true_iff, orb_false_iff in Hroot as [Hr1%Z.ltb_ge Hr2%Z.ltb_ge].
  lia.
Qed.

Lemma cluster_count_bound b :
  bpb_fits b → is_valid_fat32_bpb b = Ok true →
  data_start b + cluster_count b * bpb_sector_per_cluster b ≤ total_sector_count b ∧
  cluster_count b + 2 < 2 ^ 32.
Proof.
  intros Hb Hv. destruct (valid_bpb b Hb Hv) as (Hs & Hr & Hf & Hl & Ht & Hc & _). destruct Hb.
  assert (cluster_count b * bpb_sector_per_cluster b ≤ total_sector_count b - data_start b)
    by (unfold cluster_count; rewrite Z.mul_comm; apply Z.mul_div_le; lia).
  assert (2 ≤ data_start b) by (unfold data_start; nia). split; [lia|]. nia.
Qed.

(** The entries the loop of [new] collects. *)
Lemma take_entries (limit : nat) (g : Z → list Z) (ids : list Z) acc :
  (length acc ≤ limit)%nat →
  foldl (λ acc i, acc ++ take (limit - length acc) (g i)) acc ids = take limit (acc ++ concat (g <$> ids)).
Proof.
  revert acc. induction ids as [|i ids IH]; intros acc Ha; csimpl.
  { by rewrite app_nil_r, take_ge. }
  set (l := g i). rewrite IH by (rewrite length_app, length_take; lia).
  destruct (decide (length acc + length l ≤ limit)%nat).
  - by rewrite (take_ge l), <- app_assoc by lia.
  - rewrite app_assoc, (take_app_le (acc ++ l)) by (rewrite length_app; lia).
    rewrite take_app_le by (rewrite length_app, length_take; lia).
    rewrite (take_app_ge acc l) by lia. apply take_ge. rewrite length_app, length_take. lia.
Qed.

Lemma cluster_sectors_first fat c first last :
  cluster_sectors fat c = Ok (first, last) →
  first = data_start_sector_id fat + (c - 2) * sector_per_cluster fat.
Proof.
  unfold cluster_sectors, umul, uadd. destruct (2 <=? c); [|done]. cbn [assert mbind outcome_bind].
  destruct (checked _ ((_ - _) * _)) eqn:E1; [|done..]. apply checked_Ok in E1 as [<- _]. cbn [mbind outcome_bind].
  destruct (checked _ (data_start_sector_id fat + _)) eqn:E2; [|done..]. apply checked_Ok in E2 as [<- _].
  cbn [mbind outcome_bind]. destruct (checked _ _); [|done..]. by intros [= <- _].
Qed.

(** The hint for the next free cluster is unknown or a cluster. *)
Lemma scan_free_next id entries m top :
  2 ≤ id → id + Z.of_nat (length entries) ≤ top → top < 2 ^ 32 →
  next_free m = INVALID_ALLOC_META ∨ 2 ≤ next_free m < top →
  let n := next_free (scan_free id entries m) in n = INVALID_ALLOC_META ∨ 2 ≤ n < top.
Proof.
  revert id m. induction entries as [|e entries IH]; intros id m Hid Htop Ht Hm; [done|].
  cbn [scan_free length] in *. apply IH; [lia|lia|done|].
  destruct (_ =? 0); [|done]. cbn [next_free]. rewrite wrap_small by lia.
  unfold INVALID_ALLOC_META in *. lia.
Qed.

(** What the mount check gives the table: reading it does not panic. *)
Definition table_of (b : BiosParameterBlock) (fat : FileAllocTable) : Prop :=
  sector_per_cluster fat = bpb_sector_per_cluster b ∧
  fat_entries fat = take (Z.to_nat (data_clusters_count fat + 2))
    (concat ((λ s, sector_entries (read_block s)) <$> seqZ (reserved_sector_count b) (fat32_length b))) ∧
  65526 ≤ data_clusters_count fat < 2 ^ 32 ∧ 2 ≤ root_cluster b < data_clusters_count fat + 2 ∧
  (let n := next_free (alloc_meta fat) in
   n = INVALID_ALLOC_META ∨ 2 ≤ n < data_clusters_count fat + 2) ∧
  ∀ c, 2 ≤ c < data_clusters_count fat + 2 →
    ∃ first last, cluster_sectors fat c = Ok (first, last) ∧ first < last ∧
      reserved_sector_count b + fat_count b * fat32_length b ≤ first ∧ last ≤ total_sector_count b ∧
      ∀ c' first' last', c < c' → cluster_sectors fat c' = Ok (first', last') → last ≤ first'.
Lemma fat_new_ok b :
  bpb_fits b → is_valid_fat32_bpb b = Ok true → ∃ fat, fat_new b = Ok fat ∧ table_of b fat.
Proof.
  intros Hb Hv. destruct (valid_bpb b Hb Hv) as (Hs & Hr & Hf & Hl & Ht & Hc & Hroot).
  destruct (cluster_count_bound b Hb Hv) as (Hend & Hmax). destruct Hb as [B1 B2 B3 B4 B5].
  unfold fat_new, umul, uadd, usub.
  assert (fat_count b * fat32_length b = data_start b - reserved_sector_count b) as Efs by (unfold data_start; lia).
  rewrite (checked_fits 32 (fat_count b * _)) by (rewrite Efs; nia). cbn [mbind outcome_bind].
  rewrite (checked_fits 32 (reserved_sector_count b + fat_count b * _)) by (rewrite Efs; lia).
  cbn [mbind outcome_bind]. fold (data_start b).
  rewrite (checked_fits 32 (total_sector_count b - _)) by (unfold data_start in *; nia). cbn [mbind outcome_bind].
  rewrite (proj2 (Z.eqb_neq _ 0)) by lia. cbn [assert negb mbind outcome_bind]. fold (cluster_count b).
  rewrite (checked_fits 32 (reserved_sector_count b + fat32_length b)) by nia. cbn [mbind outcome_bind].
  unfold RESERVED_FAT_ENTRY_COUNT. rewrite (checked_fits 32 (cluster_count b + 2)) by lia. cbn [mbind outcome_bind].
  rewrite Z.add_simpl_l, take_entries by (simpl; lia). cbn [app].
  set (entries := take _ (concat _)). unfold maintain_alloc_meta. cbn [data_clusters_count alloc_meta fat_entries].
  unfold uadd, RESERVED_FAT_ENTRY_COUNT. rewrite checked_fits by lia. cbn [mbind outcome_bind].
  set (m0 := meta_new _).
  match goal with |- context [with_meta _ ?m] => set (m1 := m) end.
  eexists. split; [reflexivity|]. unfold table_of, with_meta. cbn [data_clusters_count fat_entries alloc_meta sector_per_cluster].
  split; [done|]. split; [done|]. split; [lia|]. split; [done|]. split.
  - unfold m1. clear m1. set (m2 := if _ || _ then meta_invalid else m0).
    destruct (_ || (next_free m2 =? _)) eqn:E.
    { apply scan_free_next; [done| |done|by left]. rewrite length_drop. unfold entries. rewrite length_take. lia. }
    right. apply orb_false_iff in E as [_ E%Z.eqb_neq]. unfold m2 in E |- *.
    destruct ((_ <? _) || _) eqn:E2; [done|]. apply orb_false_iff in E2 as [_ E2].
    rewrite (proj2 (Z.eqb_neq _ _) E) in E2. simpl in E2. apply negb_false_iff, andb_true_iff in E2. lia.
  - assert (∀ c, 2 ≤ c → data_start b + (c - 1) * bpb_sector_per_cluster b < 2 ^ 32 →
      cluster_sectors (mkFat (data_start b) (bpb_sector_per_cluster b) (cluster_count b) m1 entries) c
        = Ok (data_start b + (c - 2) * bpb_sector_per_cluster b, data_start b + (c - 1) * bpb_sector_per_cluster b))
      as Hcs.
    { intros c H2 Hlt. assert (0 ≤ data_start b) by (unfold data_start; nia).
      unfold cluster_sectors, umul, uadd, RESERVED_FAT_ENTRY_COUNT. simpl.
      rewrite (proj2 (Z.leb_le 2 c)) by lia. cbn [assert mbind outcome_bind].
      rewrite !checked_fits by nia. cbn [mbind outcome_bind]. rewrite !checked_fits by nia. cbn [mbind outcome_bind].
      rewrite !checked_fits by nia. cbn [mbind outcome_bind]. do 2 f_equal. lia. }
    intros c Hcr. do 2 eexists. split; [apply Hcs; [lia|nia]|]. split; [nia|]. fold (data_start b).
    split; [nia|]. split; [nia|]. intros c' f' l' Hlt Hcs'.
    apply cluster_sectors_first in Hcs'. simpl in Hcs'. nia.
Qed.

(** The root directory of a chain that ends. *)
Lemma new_root_ok fat number c cs :
  linked (fat_entries fat) c cs → 2 ≤ c < CHAIN_END → 0 ≤ sector_per_cluster fat < 2 ^ 8 →
  Z.of_nat (length (fat_entries fat)) < 2 ^ 33 →
  new_root fat number c =
    Ok (Some (mkFatDir cs (Meta.with_len (Meta.new number Dir)
      (Z.of_nat (length cs) * sector_per_cluster fat * SECTOR_SIZE)) None)).
Proof.
  intros Hl Hc Hs He. unfold new_root. rewrite (proj2 (Z.leb_le 2 c)) by lia. cbn [assert mbind outcome_bind].
  unfold cluster_chain. rewrite (proj2 (Z.ltb_ge c 2)) by lia. pose proof (linked_bound _ _ _ Hl).
  rewrite (chain_from_linked _ cs) by done. cbn [mbind outcome_bind].
  unfold clusters_disk_space, umul. rewrite checked_fits by nia. cbn [mbind outcome_bind].
  change SECTOR_SIZE with 512. by rewrite checked_fits by nia.
Qed.
(** A root directory whose first cluster has no entry in the table. *)
Lemma new_root_panics fat number c :
  2 ≤ c < CHAIN_END → Z.of_nat (length (fat_entries fat)) ≤ c → (0 < length (fat_entries fat))%nat →
  new_root fat number c = Panic.
Proof.
  intros Hc Hl Hp. unfold new_root. rewrite (proj2 (Z.leb_le 2 c)) by lia. cbn [assert mbind outcome_bind].
  unfold cluster_chain. rewrite (proj2 (Z.ltb_ge c 2)) by lia.
  destruct (length (fat_entries fat)) as [|n] eqn:E; [lia|]. simpl. unfold CHAIN_END in Hc.
  rewrite (proj2 (Z.ltb_lt _ _)) by lia. unfold get_entry. rewrite (proj2 (Z.leb_le 0 c)) by lia. simpl.
  by rewrite lookup_ge_None_2 by lia.
Qed.

End fatdir.

(** ** Example: a directory with two files, and a volume *)
#[local] Instance demo_utf16 : EcoStr := ascii_utf16.
Definition demo_files : list (list Z * list Z) := [(demo_long, demo_std); ([], demo_std)].
Definition dir_bytes : list Z := concat ((λ f, concat (raw_file f.1 f.2)) <$> demo_files).
#[local, program] Instance dir_device : BlockDevice :=
  {| read_block i := if i =? 100 then take 512 (dir_bytes ++ replicate 512 0) else replicate 512 0 |}.
Next Obligation. intros i. simpl. destruct (i =? 100); reflexivity. Qed.

Lemma fat_lookup_witness :
  (λ e, (entry_name e, file_size e)) <$> ok_value (lookup_entry demo_fat [2] demo_long) ≫= id
    = Some (demo_long, 5).
Proof.
  rewrite (fat_lookup_spec demo_fat [2] demo_files (replicate 3967 0) demo_long).
  - vm_compute. reflexivity.
  - constructor; simpl; [lia|lia| |lia]. intros c Hc. apply list_elem_of_singleton in Hc as ->. lia.
  - assert (std_entry_ok demo_std) by (by repeat constructor).
    assert (∀ n, forallb (λ u, (0 <? u) && (u <? 65536)) n = true → (length n ≤ 255)%nat → name_ok n) as Hn.
    { intros n Hb Hl. constructor; [exact Hl|]. intros u Hu. apply list_elem_of_In in Hu.
      pose proof (proj1 (forallb_forall _ _) Hb u Hu) as H1. simpl in H1. apply andb_true_iff in H1. lia. }
    intros f Hf. unfold demo_files in Hf. rewrite !elem_of_cons in Hf.
    destruct Hf as [->|[->|Hf%elem_of_nil]]; [| |done]; (split; [|done]); apply Hn; first [reflexivity|simpl; lia].
  - vm_compute. reflexivity.
Defined.

Definition demo_bpb : BiosParameterBlock :=
  mkBpb [] 512 1 32 2 0 0 0xf8 0 0 0 0 66582 512 0 0 2 1 6.

(** A volume with that boot sector, whose FAT has one cluster in use, or none at
    all and the root directory where the table does not reach. *)
Module MountDemo.
Definition boot_sector (b : BiosParameterBlock) : list Z :=
  let l := replicate 11 0 ++ to_le_bytes 2 (sector_size b) ++ to_le_bytes 1 (bpb_sector_per_cluster b) ++
    to_le_bytes 2 (reserved_sector_count b) ++ to_le_bytes 1 (fat_count b) ++ replicate 4 0 ++ [0xf8] ++
    replicate 10 0 ++ to_le_bytes 4 (total_sector_count b) ++ to_le_bytes 4 (fat32_length b) ++
    replicate 4 0 ++ to_le_bytes 4 (root_cluster b) ++ [1; 0; 6; 0] in
  l ++ replicate (510 - length l) 0 ++ [0x55; 0xaa].
Definition zeros : list Z := replicate 512 0.
Definition disk (b : BiosParameterBlock) (i : Z) : list Z :=
  if i =? 0 then boot_sector b
  else if i =? 32 then replicate 8 0 ++ [0xff; 0xff; 0xff; 0x0f] ++ replicate 500 0 else zeros.
#[local, program] Instance volume : BlockDevice := {| read_block := disk demo_bpb |}.
Next Obligation. intros i. unfold disk. repeat case_match; reflexivity. Qed.

End MountDemo.

Module ShortFat.
Import MountDemo.
Definition short_bpb : BiosParameterBlock := mkBpb (replicate 8 0) 512 1 32 1 0 0 0xf8 0 0 0 0 70000 1 0 0 1000 1 6.
#[local, program] Instance short : BlockDevice := {| read_block := disk short_bpb |}.
Next Obligation. intros i. unfold disk. repeat case_match; reflexivity. Qed.
(** A boot sector that passes the check, with a FAT of one sector: the root
    directory has no entry, and mounting panics. *)
Lemma short_fat_panics :
  bpb_new (read_block BOOT_SECTOR_ID) = Ok short_bpb ∧ is_valid_fat32_bpb short_bpb = Ok true ∧
  is_panic (new_fat32_fs 1) = true.
Proof. split_and!; vm_compute; reflexivity. Qed.
End ShortFat.

(** The mount check itself overflows on a boot sector whose FATs do not fit 32 bits. *)
Lemma mount_check_overflows :
  is_valid_fat32_bpb (mkBpb [] 512 1 32 2 0 0 0xf8 0 0 0 0 66582 0x80000000 0 0 2 1 6) = Panic.
Proof. reflexivity. Qed.
