(* ===== verification/Vfs.v ===== *)
(** * The dentry cache, paths and mounts

    [libkernel/src/fs/dentry.rs] and [fs/mod.rs]. An [Arc<DEntryDir>] is a key of
    the store [dirs], an [Arc<DEntryBytes>] a key of [files]. What the code frees
    with the last [Arc] stays in the store where nothing refers to it any more; that
    the store only grows is therefore a fact of the model, used in its proofs, and
    no claim about the code. Names are UTF-8 byte lists. The directory inodes of the file
    systems are behind the class [DirBackend] (the trait [DirInodeBackend]). *)
From S2P Require Import Prelude BTree Defines Kst Inode.

Abbreviation str := (list Z).
Definition SLASH : Z := 47.
Definition dot : str := [46].
Definition dotdot : str := [46; 46].

(** No mount flag is declared yet, so only 0 is accepted. *)
Module MountFlags.
Definition mask : Z := 0.
End MountFlags.
Module UnmountFlags.
Definition mask : Z := 0.
End UnmountFlags.
Module StatFsFlags.
Definition mask : Z := 0.
End StatFsFlags.

(** ** What a file system provides

    [FS] is the state behind the inodes. [dir_read_dir i used] are the entries
    of the directory whose names are not [used] yet, as [read_dir] adds them to
    the cache. *)
Class DirBackend := {
  DI : Type;
  BI : Type;
  FS : Type;
  dir_lookup : DI → str → kst FS (option (DI + BI));
  dir_mkdir : DI → str → kst FS DI;
  dir_mknod : DI → str → InodeMode → kst FS BI;
  dir_unlink : DI → str → kst FS ();
  dir_read_dir : DI → (str → bool) → kst FS (list (str * (DI + BI)));
  dir_meta : DI → FS → InodeMeta;
  dir_set_meta : DI → InodeMeta → FS → FS;
  file_meta : BI → FS → InodeMeta;
  file_set_meta : BI → InodeMeta → FS → FS;
  file_addr : BI → Z;
}.

Inductive DEntry : Type := DDir (d : Z) | DBytes (b : Z).
#[export] Instance DEntry_eq_dec : EqDecision DEntry.
Proof. solve_decision. Defined.

Inductive LastComponentType : Type := Normal | Dot | DotDot | Root.
#[export] Instance LastComponentType_eq_dec : EqDecision LastComponentType.
Proof. solve_decision. Defined.

Record PathToInode : Type := mkP2i {
  p2i_dir : Z;
  last_type : LastComponentType;
  last_component : str;
}.

Record FileSystem : Type := mkFs {
  root_dentry : Z;
  device_path : str;
  fs_type : str;
  mounted_dentry : option DEntry;
  mount_point : str;
  fs_flags : Z;
}.

Section vfs.
Context {DB : DirBackend}.

Record DEntryDir : Type := mkDir {
  d_parent : option Z;
  d_name : str;
  d_children : gmap str DEntry;
  d_inode : DI;
}.
Record DEntryBytes : Type := mkBytes {
  b_parent : Z;
  b_name : str;
  b_inode : BI;
}.

(** [VirtFileSystem] with the store of dentries. A mount table is keyed by
    address: of the dentry for a directory, of the inode for a file. *)
Record Vfs : Type := mkVfs {
  dirs : gmap Z DEntryDir;
  files : gmap Z DEntryBytes;
  next_id : Z;
  v_fs : FS;
  root_dir : Z;
  mount_table : gmap (Z + Z) FileSystem;
}.
Definition set_dirs (m : gmap Z DEntryDir) (s : Vfs) : Vfs :=
  mkVfs m (files s) (next_id s) (v_fs s) (root_dir s) (mount_table s).
Definition set_fs (f : FS) (s : Vfs) : Vfs :=
  mkVfs (dirs s) (files s) (next_id s) f (root_dir s) (mount_table s).
Definition set_mounts (t : gmap (Z + Z) FileSystem) (s : Vfs) : Vfs :=
  mkVfs (dirs s) (files s) (next_id s) (v_fs s) (root_dir s) t.
Definition with_children (n : DEntryDir) (c : gmap str DEntry) : DEntryDir :=
  mkDir (d_parent n) (d_name n) c (d_inode n).

(** ** Access to the store *)
Definition get_dir (d : Z) : kst Vfs DEntryDir := s ← kget; kunwrap (dirs s !! d).
Definition get_file (b : Z) : kst Vfs DEntryBytes := s ← kget; kunwrap (files s !! b).
(** [Arc::new(DEntryDir::new(..))], [Arc::new(DEntryBytes::new(..))] *)
Definition new_dir (parent : option Z) (name : str) (i : DI) : kst Vfs Z :=
  s ← kget;
  _ ← kput (mkVfs (<[next_id s := mkDir parent name ∅ i]> (dirs s)) (files s) (next_id s + 1) (v_fs s)
              (root_dir s) (mount_table s));
  mret (next_id s).
Definition new_file (parent : Z) (name : str) (i : BI) : kst Vfs Z :=
  s ← kget;
  _ ← kput (mkVfs (dirs s) (<[next_id s := mkBytes parent name i]> (files s)) (next_id s + 1) (v_fs s)
              (root_dir s) (mount_table s));
  mret (next_id s).
Definition set_children (d : Z) (f : gmap str DEntry → gmap str DEntry) : kst Vfs () :=
  kmodify (λ s, set_dirs (alter (λ n, with_children n (f (d_children n))) d (dirs s)) s).
Definition on_fs {A} (c : kst FS A) : kst Vfs A := λ s,
  match c (v_fs s) with
  | Done a f => Done a (set_fs f s)
  | Fail e f => Fail e (set_fs f s)
  | Crash => Crash
  end.
(** The dentry of a new inode. *)
Definition new_dentry (parent : Z) (name : str) (i : DI + BI) : kst Vfs DEntry :=
  match i with
  | inl i => d ← new_dir (Some parent) name i; mret (DDir d)
  | inr i => b ← new_file parent name i; mret (DBytes b)
  end.

(** ** [DEntryDir] *)
Section ops.
Variable now : TimeSpec.

Definition touch (i : DI) (f : FS) : FS := dir_set_meta i (Meta.with_access (dir_meta i f) now) f.

Definition lookup (d : Z) (component : str) : kst Vfs (option DEntry) :=
  n ← get_dir d;
  _ ← kmodify (λ s, set_fs (touch (d_inode n) (v_fs s)) s);
  if bool_decide (component = dot) then mret (Some (DDir d))
  else if bool_decide (component = dotdot) then mret (Some (DDir (default d (d_parent n))))
  else
    match d_children n !! component with
    | Some e => mret (Some e)
    | None =>
        o ← on_fs (dir_lookup (d_inode n) component);
        match o with
        | None => mret None
        | Some i =>
            e ← new_dentry d component i;
            _ ← set_children d (insert component e);
            mret (Some e)
        end
    end.

Definition is_special (component : str) : bool := bool_decide (component = dot ∨ component = dotdot).

Definition mkdir (d : Z) (component : str) : kst Vfs Z :=
  if is_special component then kfail EINVAL
  else
    n ← get_dir d;
    if bool_decide (is_Some (d_children n !! component)) then kfail EEXIST
    else
      i ← on_fs (dir_mkdir (d_inode n) component);
      c ← new_dir (Some d) component i;
      _ ← set_children d (insert component (DDir c));
      mret c.

Definition mknod (d : Z) (component : str) (mode : InodeMode) : kst Vfs Z :=
  if bool_decide (mode = SymbolLink ∨ mode = Dir) || is_special component then kfail EINVAL
  else
    n ← get_dir d;
    if bool_decide (is_Some (d_children n !! component)) then kfail EEXIST
    else
      i ← on_fs (dir_mknod (d_inode n) component mode);
      b ← new_file d component i;
      _ ← set_children d (insert component (DBytes b));
      mret b.

Definition unlink (d : Z) (name : str) : kst Vfs () :=
  if is_special name then kfail EINVAL
  else
    n ← get_dir d;
    _ ← set_children d (delete name);
    on_fs (dir_unlink (d_inode n) name).

(** [self.children] are the children of the parent, not of the directory to be
    removed. *)
Definition remove_dir (d child : Z) : kst Vfs () :=
  c ← get_dir child;
  _ ← kassert (bool_decide (d_parent c = Some d));
  n ← get_dir d;
  if (size (d_children n) =? 2)%nat then kfail ENOTEMPTY
  else set_children d (delete (d_name c)).

(** [read_dir]: the file system adds the entries that are not cached. *)
Fixpoint add_entries (d : Z) (l : list (str * (DI + BI))) : kst Vfs () :=
  match l with
  | [] => mret ()
  | (name, i) :: l =>
      e ← new_dentry d name i;
      _ ← set_children d (insert name e);
      add_entries d l
  end.
Definition read_dir (d : Z) : kst Vfs () :=
  n ← get_dir d;
  l ← on_fs (dir_read_dir (d_inode n) (λ name, bool_decide (is_Some (d_children n !! name))));
  add_entries d l.

(** [rename] of a directory and of a file; the renamed dentry is a new one. *)
Definition rename_dir (d new_parent : Z) (new_name : str) : kst Vfs () :=
  n ← get_dir d;
  match d_parent n with
  | None => kfail EBUSY
  | Some old =>
      _ ← get_dir old;
      _ ← set_children old (delete (d_name n));
      e ← new_dir (Some new_parent) new_name (d_inode n);
      set_children new_parent (insert new_name (DDir e))
  end.
Definition rename_file (b new_parent : Z) (new_name : str) : kst Vfs () :=
  n ← get_file b;
  _ ← set_children (b_parent n) (delete (b_name n));
  e ← new_file new_parent new_name (b_inode n);
  set_children new_parent (insert new_name (DBytes e)).

(** [path]: the names from the root down, separated by slashes. The walk to the
    root goes to older dentries, so [next_id] steps are enough. *)
Fixpoint names_up (fuel : nat) (m : gmap Z DEntryDir) (d : Z) : option (list str) :=
  match fuel, m !! d with
  | S fuel, Some n =>
      match d_parent n with
      | Some p => names ← names_up fuel m p; mret (d_name n :: names)
      | None => Some []
      end
  | _, _ => None
  end.
Fixpoint joined (names : list str) : str :=
  match names with
  | [] => []
  | [name] => name
  | name :: names => name ++ SLASH :: joined names
  end.
Definition path (d : Z) : kst Vfs str :=
  s ← kget;
  names ← kunwrap (names_up (Z.to_nat (next_id s)) (dirs s) d);
  mret (SLASH :: joined (reverse names)).

(** ** Paths *)
Fixpoint trim_start (p : str) : str :=
  match p with c :: q => if c =? SLASH then trim_start q else p | [] => [] end.
Definition trim_end (p : str) : str := reverse (trim_start (reverse p)).
(** [str::split('/')] *)
Fixpoint split_slash (p : str) : list str :=
  match p with
  | [] => [[]]
  | c :: p =>
      if c =? SLASH then [] :: split_slash p
      else match split_slash p with
           | w :: ws => (c :: w) :: ws
           | [] => [[c]]
           end
  end.
Definition components (p : str) : list str :=
  filter (λ w, w ≠ []) (split_slash (trim_end (trim_start p))).

Fixpoint walk (d : Z) (curr : str) (rest : list str) : kst Vfs PathToInode :=
  match rest with
  | next :: rest =>
      o ← lookup d curr;
      match o with
      | Some (DDir d) => walk d next rest
      | Some _ => kfail ENOTDIR
      | None => kfail ENOENT
      end
  | [] =>
      mret (mkP2i d (if bool_decide (curr = dot) then Dot
                     else if bool_decide (curr = dotdot) then DotDot else Normal) curr)
  end.
Definition path_walk (start : Z) (p : str) : kst Vfs PathToInode :=
  match components p with
  | [] => mret (mkP2i start Root dot)
  | curr :: rest => walk start curr rest
  end.

(** [cwd] and the directory of a descriptor come from the process: no
    descriptor is [EBADF], one that is no directory [ENOTDIR]. *)
Definition resolve_path_with_dir_fd (cwd : Z) (dir_of : Z → option (option Z)) (dir_fd : Z) (p : str) :
    kst Vfs PathToInode :=
  match p with
  | [] => kfail ENOENT
  | c :: _ =>
      if c =? SLASH then s ← kget; path_walk (root_dir s) p
      else if dir_fd =? AT_FDCWD then path_walk cwd p
      else
        match dir_of dir_fd with
        | None => kfail EBADF
        | Some None => kfail ENOTDIR
        | Some (Some d) => path_walk d p
        end
  end.
Definition find_file (cwd : Z) (p : str) : kst Vfs DEntry :=
  p2i ← resolve_path_with_dir_fd cwd (λ _, None) AT_FDCWD p;
  o ← lookup (p2i_dir p2i) (last_component p2i);
  kok_or o ENOENT.

(** ** Mounts *)
Definition entry_key (e : DEntry) : kst Vfs (Z + Z) :=
  match e with
  | DDir d => mret (inl d)
  | DBytes b => n ← get_file b; mret (inr (file_addr (b_inode n)))
  end.
Definition entry_name (e : DEntry) : kst Vfs str :=
  match e with
  | DDir d => n ← get_dir d; mret (d_name n)
  | DBytes b => n ← get_file b; mret (b_name n)
  end.
(** The parent of a mount point; mounting over the root is [todo!]. *)
Definition entry_parent (e : DEntry) : kst Vfs Z :=
  match e with
  | DDir d => n ← get_dir d; kunwrap (d_parent n)
  | DBytes b => n ← get_file b; mret (b_parent n)
  end.
Definition is_mount_root (e : DEntry) : kst Vfs bool :=
  k ← entry_key e; s ← kget; mret (bool_decide (is_Some (mount_table s !! k))).

Section mounting.
Variable resolve : str → kst Vfs PathToInode.
Variable create_fs : Z → str → str → Z → kst Vfs FileSystem.

Definition mount (mount_at device : str) (flags : Z) : kst Vfs () :=
  p2i ← resolve mount_at;
  let statfs_flags := Flags.from_bits_truncate StatFsFlags.mask (Z.land flags 0x1df) in
  let name := last_component p2i in
  o ← lookup (p2i_dir p2i) name;
  '(parent, name) ←
    match o with
    | Some e =>
        b ← is_mount_root e;
        _ ← (if (b : bool) then kfail EBUSY else mret ());
        name' ← (if is_special name then mret name else entry_name e);
        parent ← entry_parent e;
        mret (parent, name')
    | None => mret (p2i_dir p2i, name)
    end;
  fs ← create_fs parent name device statfs_flags;
  _ ← set_children parent (insert name (DDir (root_dentry fs)));
  let fs := mkFs (root_dentry fs) (device_path fs) (fs_type fs) o (mount_point fs) (fs_flags fs) in
  kmodify (λ s, set_mounts (<[inl (root_dentry fs) := fs]> (mount_table s)) s).

Definition unmount (mount_at : str) : kst Vfs () :=
  p2i ← resolve mount_at;
  o ← lookup (p2i_dir p2i) (last_component p2i);
  e ← kok_or o ENOENT;
  k ← entry_key e;
  s ← kget;
  match mount_table s !! k with
  | None => kfail EINVAL
  | Some fs =>
      _ ← kmodify (λ s, set_mounts (delete k (mount_table s)) s);
      match mounted_dentry fs with
      | None => mret ()
      | Some m =>
          parent ← entry_parent e;
          name ← entry_name m;
          n ← get_dir parent;
          _ ← kassert (bool_decide (is_Some (d_children n !! name)));
          set_children parent (insert name m)
      end
  end.
End mounting.

(** The closest mount root above a dentry. *)
Fixpoint mounted_root_of (fuel : nat) (e : DEntry) : kst Vfs DEntry :=
  b ← is_mount_root e;
  if (b : bool) then mret e
  else
    match fuel with
    | O => kcrash
    | S fuel => p ← entry_parent e; mounted_root_of fuel (DDir p)
    end.
Definition same_mounted_fs (a b : DEntry) : kst Vfs bool :=
  s ← kget;
  let fuel := Z.to_nat (next_id s) in
  ra ← mounted_root_of fuel a;
  rb ← mounted_root_of fuel b;
  ka ← entry_key ra;
  kb ← entry_key rb;
  mret (bool_decide (ka = kb)).
End ops.

(** ** The invariant of the store *)
Implicit Types (s : Vfs).

(** [e] is what the directory [d] has under [nm]: its parent and name say so. *)
Definition linked s (d : Z) (nm : str) (e : DEntry) : Prop :=
  match e with
  | DDir c => ∃ n, dirs s !! c = Some n ∧ d_parent n = Some d ∧ d_name n = nm
  | DBytes b => ∃ n, files s !! b = Some n ∧ b_parent n = d ∧ b_name n = nm
  end.
Definition valid_dir s (d : Z) : Prop := is_Some (dirs s !! d).
Definition valid_entry s (e : DEntry) : Prop :=
  match e with DDir d => valid_dir s d | DBytes b => is_Some (files s !! b) end.

Record vfs_ok s : Prop := {
  ok_dir d n : dirs s !! d = Some n → 0 ≤ d < next_id s;
  ok_parent d n p : dirs s !! d = Some n → d_parent n = Some p → 0 ≤ p < d ∧ valid_dir s p;
  ok_children d n nm e : dirs s !! d = Some n → d_children n !! nm = Some e → linked s d nm e;
  ok_file b n : files s !! b = Some n → 0 ≤ b < next_id s ∧ valid_dir s (b_parent n);
  ok_root : ∃ n, dirs s !! root_dir s = Some n ∧ d_parent n = None;
  ok_orphan d n : dirs s !! d = Some n → d_parent n = None → d = root_dir s;
  ok_mount k fs : mount_table s !! k = Some fs → k = inl (root_dentry fs) ∧ valid_dir s (root_dentry fs);
  ok_mounted k fs m n p : mount_table s !! k = Some fs → mounted_dentry fs = Some m →
    dirs s !! root_dentry fs = Some n → d_parent n = Some p → ∃ nm, linked s p nm m;
}.

(** Dentries are never taken away, and keep their parent, name and inode. *)
Definition ext s s' : Prop :=
  (∀ d n, dirs s !! d = Some n → ∃ n', dirs s' !! d = Some n' ∧ d_parent n' = d_parent n ∧
     d_name n' = d_name n ∧ d_inode n' = d_inode n) ∧
  (∀ b n, files s !! b = Some n → files s' !! b = Some n) ∧
  root_dir s' = root_dir s ∧ next_id s ≤ next_id s'.

Lemma ext_refl s : ext s s.
Proof. split_and!; [eauto 6|done|done|done]. Qed.
Lemma ext_trans s1 s2 s3 : ext s1 s2 → ext s2 s3 → ext s1 s3.
Proof.
  intros (A1 & B1 & C1 & D1) (A2 & B2 & C2 & D2). split_and!; [|auto|congruence|lia].
  intros d n Hd. destruct (A1 d n Hd) as (n1 & Hn1 & ? & ? & ?).
  destruct (A2 d n1 Hn1) as (n2 & Hn2 & ? & ? & ?).
  exists n2. split_and!; [done|congruence..].
Qed.
Lemma ext_valid s s' e : ext s s' → valid_entry s e → valid_entry s' e.
Proof.
  intros (A & B & _) Hv. destruct e as [d|b]; destruct Hv as [n Hn]; simpl.
  - destruct (A d n Hn) as (n' & Hn' & _). by exists n'.
  - exists n. by apply B.
Qed.
Lemma ext_dir s s' d : ext s s' → valid_dir s d → valid_dir s' d.
Proof. intros He Hv. by apply (ext_valid s s' (DDir d)). Qed.
Lemma ext_linked s s' d nm e : ext s s' → linked s d nm e → linked s' d nm e.
Proof.
  intros (A & B & _) Hl. destruct e as [c|b]; destruct Hl as (n & Hn & Hp & Hnm); simpl.
  - destruct (A c n Hn) as (n' & Hn' & ? & ? & _). exists n'. split_and!; congruence.
  - exists n. split_and!; [by apply B|done..].
Qed.
Lemma linked_valid s d nm e : linked s d nm e → valid_entry s e.
Proof. destruct e; intros (n & Hn & _); by exists n. Qed.
Hint Resolve ext_refl ext_dir ext_valid ext_linked linked_valid : core.

(** The steps that change the store. *)
Lemma new_dir_ok s p nm i :
  vfs_ok s → valid_dir s p →
  let d := next_id s in
  let s' := mkVfs (<[d := mkDir (Some p) nm ∅ i]> (dirs s)) (files s) (next_id s + 1) (v_fs s)
              (root_dir s) (mount_table s) in
  new_dir (Some p) nm i s = Done d s' ∧ vfs_ok s' ∧ ext s s' ∧ linked s' p nm (DDir d).
Proof.
  intros Hok Hp d s'.
  assert (dirs s !! d = None) as Hnew.
  { destruct (dirs s !! d) as [n|] eqn:E; [|done]. apply (ok_dir s Hok) in E. unfold d in E. lia. }
  assert (ext s s') as He.
  { split_and!; [|done|done|simpl; lia]. intros d' n Hd. exists n. split_and!; [|done..].
    simpl. rewrite lookup_insert_ne; congruence. }
  assert (0 ≤ p < d) as Hpd. { destruct Hp as [n Hn]. by apply (ok_dir s Hok) in Hn. }
  assert (linked s' p nm (DDir d)) as Hl.
  { exists (mkDir (Some p) nm ∅ i). simpl. by rewrite lookup_insert_eq. }
  split; [done|]. split; [|done]. constructor; simpl.
  - intros d' n [[<- _]|[_ Hd]]%lookup_insert_Some; [unfold d; lia|]. apply (ok_dir s Hok) in Hd. lia.
  - intros d' n p' [[<- <-]|[_ Hd]]%lookup_insert_Some Hp'; simpl in *.
    + simplify_eq. eauto.
    + destruct (ok_parent s Hok _ _ _ Hd Hp'). eauto.
  - intros d' n nm' e [[<- <-]|[_ Hd]]%lookup_insert_Some Hc; [done|].
    eapply ext_linked; [exact He|]. by eapply (ok_children s Hok).
  - intros b n Hb. destruct (ok_file s Hok _ _ Hb). split; [lia|eauto].
  - destruct (ok_root s Hok) as (n & Hn & Hpn). exists n. split; [|done].
    rewrite lookup_insert_ne; congruence.
  - intros d' n [[<- <-]|[_ Hd]]%lookup_insert_Some; [done|]. by apply (ok_orphan s Hok).
  - intros k fs Hk. destruct (ok_mount s Hok _ _ Hk). eauto.
  - intros k fs m n p' Hk Hm [[E _]|[_ Hn]]%lookup_insert_Some Hp'.
    + destruct (ok_mount s Hok _ _ Hk) as [_ [x Hx]]. congruence.
    + destruct (ok_mounted s Hok _ _ _ _ _ Hk Hm Hn Hp') as [nm' Hl']. exists nm'. eauto.
Qed.
Lemma new_file_ok s p nm i :
  vfs_ok s → valid_dir s p →
  let b := next_id s in
  let s' := mkVfs (dirs s) (<[b := mkBytes p nm i]> (files s)) (next_id s + 1) (v_fs s)
              (root_dir s) (mount_table s) in
  new_file p nm i s = Done b s' ∧ vfs_ok s' ∧ ext s s' ∧ linked s' p nm (DBytes b).
Proof.
  intros Hok Hp b s'.
  assert (files s !! b = None) as Hnew.
  { destruct (files s !! b) as [n|] eqn:E; [|done]. apply (ok_file s Hok) in E. unfold b in E. lia. }
  assert (ext s s') as He.
  { split_and!; [eauto 6| |done|simpl; lia]. intros b' n Hb. simpl. rewrite lookup_insert_ne; congruence. }
  split; [done|]. split; [|split; [done|]].
  - constructor; simpl.
    + intros d n Hd. apply (ok_dir s Hok) in Hd. lia.
    + apply (ok_parent s Hok).
    + intros d n nm' e Hd Hc. eapply ext_linked; [exact He|]. by eapply (ok_children s Hok).
    + intros b' n [[<- <-]|[_ Hb]]%lookup_insert_Some; simpl.
      * destruct Hp as [n Hn]. apply (ok_dir s Hok) in Hn as Hn'. unfold b. split; [lia|by exists n].
      * destruct (ok_file s Hok _ _ Hb). split; [lia|done].
    + apply (ok_root s Hok).
    + apply (ok_orphan s Hok).
    + apply (ok_mount s Hok).
    + intros k fs m n p' Hk Hm Hn Hp'.
      destruct (ok_mounted s Hok _ _ _ _ _ Hk Hm Hn Hp') as [nm' Hl']. exists nm'. eauto.
  - exists (mkBytes p nm i). simpl. by rewrite lookup_insert_eq.
Qed.

Lemma set_children_state s d f :
  let s' := set_dirs (alter (λ n, with_children n (f (d_children n))) d (dirs s)) s in
  vfs_ok s → (∀ n nm e, dirs s !! d = Some n → f (d_children n) !! nm = Some e → linked s d nm e) →
  vfs_ok s' ∧ ext s s'.
Proof.
  intros s' Hok Hf.
  assert (∀ d' n', dirs s' !! d' = Some n' → ∃ n, dirs s !! d' = Some n ∧ d_parent n' = d_parent n ∧
    d_name n' = d_name n ∧ d_inode n' = d_inode n ∧
    (d_children n' = d_children n ∨ d' = d ∧ d_children n' = f (d_children n))) as Hinv.
  { intros d' n'. simpl. destruct (decide (d = d')) as [<-|Hne].
    - rewrite lookup_alter_eq. intros (n & Hn & ->)%fmap_Some. exists n. simpl. eauto 8.
    - rewrite lookup_alter_ne by done. intros Hn. exists n'. eauto 8. }
  assert (ext s s') as He.
  { split_and!; [|done|done|done]. intros d' n Hn. simpl. destruct (decide (d = d')) as [<-|Hne].
    - rewrite lookup_alter_eq, Hn. simpl. eauto 6.
    - rewrite lookup_alter_ne by done. eauto 6. }
  split; [|done]. constructor.
  - intros d' n' (n & Hn & _)%Hinv. by apply (ok_dir s Hok) in Hn.
  - intros d' n' p (n & Hn & Hp & _)%Hinv Hp'. rewrite Hp in Hp'.
    destruct (ok_parent s Hok _ _ _ Hn Hp'). eauto.
  - intros d' n' nm e (n & Hn & _ & _ & _ & [Hc|[-> Hc]])%Hinv Hl; rewrite Hc in Hl; apply (ext_linked s); [done| |done|].
    + by eapply (ok_children s Hok).
    + by eapply Hf.
  - intros b n Hb. destruct (ok_file s Hok _ _ Hb). eauto.
  - destruct (ok_root s Hok) as (n & Hn & Hp). destruct He as (A & _ & Hr & _).
    destruct (A _ _ Hn) as (n' & Hn' & Hp' & _). exists n'. split; [by rewrite Hr|congruence].
  - intros d' n' (n & Hn & Hp & _)%Hinv Hp'. rewrite Hp in Hp'. by apply (ok_orphan s Hok _ _ Hn).
  - intros k fs Hk. destruct (ok_mount s Hok _ _ Hk). eauto.
  - intros k fs m n' p Hk Hm (n & Hn & Hp & _)%Hinv Hp'. rewrite Hp in Hp'.
    destruct (ok_mounted s Hok _ _ _ _ _ Hk Hm Hn Hp') as [nm Hl]. exists nm. eauto.
Qed.

(** ** Specifications

    [backend_total]: the file systems do not panic. *)
Definition backend_total : Prop :=
  (∀ i nm f, dir_lookup i nm f ≠ Crash) ∧ (∀ i nm f, dir_mkdir i nm f ≠ Crash) ∧
  (∀ i nm m f, dir_mknod i nm m f ≠ Crash) ∧ (∀ i nm f, dir_unlink i nm f ≠ Crash) ∧
  (∀ i used f, dir_read_dir i used f ≠ Crash).
(** A run keeps the invariant and establishes [R]; a panic means [C]. *)
Definition gspec (C : Prop) {A} s (c : kst Vfs A) (R : A → Vfs → Prop) : Prop :=
  match c s with
  | Done a s' => vfs_ok s' ∧ ext s s' ∧ R a s'
  | Fail _ s' => vfs_ok s' ∧ ext s s'
  | Crash => C
  end.
Abbreviation spec := (gspec (¬ backend_total)).

Lemma spec_bind {C A B} s (c : kst Vfs A) (f : A → kst Vfs B) R Q :
  gspec C s c R → (∀ a s', vfs_ok s' → ext s s' → R a s' → gspec C s' (f a) Q) → gspec C s (c ≫= f) Q.
Proof.
  unfold gspec, mbind, kst_bind. intros Hc Hf. destruct (c s) as [a s1|e s1|]; [|done..].
  destruct Hc as (Hok & He & HR). specialize (Hf a s1 Hok He HR).
  destruct (f a s1) as [b s2|e s2|]; [| |done].
  - destruct Hf as (? & ? & ?). eauto using ext_trans.
  - destruct Hf as (? & ?). eauto using ext_trans.
Qed.
Lemma spec_weaken {C A} s (c : kst Vfs A) R : gspec C s c R → gspec True s c R.
Proof. unfold gspec. by destruct (c s). Qed.
Lemma spec_ret {C A} s (a : A) (R : A → Vfs → Prop) : vfs_ok s → R a s → gspec C s (mret a) R.
Proof. unfold gspec. simpl. eauto. Qed.
Lemma spec_fail {C A} s e (R : A → Vfs → Prop) : vfs_ok s → gspec C s (kfail e) R.
Proof. unfold gspec. simpl. eauto. Qed.
Lemma spec_mono {C A} s (c : kst Vfs A) (R Q : A → Vfs → Prop) :
  gspec C s c R → (∀ a s', R a s' → Q a s') → gspec C s c Q.
Proof. unfold gspec. intros Hc HQ. destruct (c s); [|done..]. naive_solver. Qed.
Lemma spec_get {C} s (R : Vfs → Vfs → Prop) : vfs_ok s → R s s → gspec C s kget R.
Proof. unfold gspec. simpl. eauto. Qed.
Lemma spec_get_dir s d : vfs_ok s → valid_dir s d → spec s (get_dir d) (λ n s', s' = s ∧ dirs s !! d = Some n).
Proof. intros Hok [n Hn]. unfold gspec, get_dir, mbind, kst_bind, kget, kunwrap. rewrite Hn. simpl. auto. Qed.
Lemma spec_get_file s b :
  vfs_ok s → is_Some (files s !! b) → spec s (get_file b) (λ n s', s' = s ∧ files s !! b = Some n).
Proof. intros Hok [n Hn]. unfold gspec, get_file, mbind, kst_bind, kget, kunwrap. rewrite Hn. simpl. auto. Qed.
Lemma set_fs_ok f s : vfs_ok s → vfs_ok (set_fs f s) ∧ ext s (set_fs f s).
Proof.
  intros [H1 H2 H3 H4 H5 H6 H7 H8]. split; [by constructor|]. split_and!; [eauto 6|done|done|done].
Qed.
Lemma spec_on_fs {A} s (c : kst FS A) :
  vfs_ok s → (backend_total → ∀ f, c f ≠ Crash) →
  spec s (on_fs c) (λ _ s', dirs s' = dirs s).
Proof.
  intros Hok Hc. unfold gspec, on_fs. destruct (c (v_fs s)) as [a f|e f|] eqn:E.
  - destruct (set_fs_ok f s Hok). eauto.
  - destruct (set_fs_ok f s Hok). eauto.
  - intros Ht. by apply (Hc Ht (v_fs s)).
Qed.
Lemma spec_touch s f : vfs_ok s → spec s (kmodify (λ s, set_fs (f s) s)) (λ _ s', dirs s' = dirs s).
Proof. intros Hok. unfold gspec. simpl. destruct (set_fs_ok (f s) s Hok). eauto. Qed.
Lemma spec_insert s d nm e :
  vfs_ok s → linked s d nm e → spec s (set_children d (insert nm e)) (λ _ s', linked s' d nm e).
Proof.
  intros Hok Hl. unfold gspec, set_children. simpl.
  destruct (set_children_state s d (insert nm e) Hok) as [Hok' He]; [|eauto].
  intros n nm' e' Hn [[<- <-]|[_ Hc]]%lookup_insert_Some; [done|]. by eapply (ok_children s Hok).
Qed.
Lemma spec_delete s d nm : vfs_ok s → spec s (set_children d (delete nm)) (λ _ _, True).
Proof.
  intros Hok. unfold gspec, set_children. simpl.
  destruct (set_children_state s d (delete nm) Hok) as [Hok' He]; [|eauto].
  intros n nm' e' Hn [_ Hc]%lookup_delete_Some. by eapply (ok_children s Hok).
Qed.
Lemma spec_new_dir s p nm i :
  vfs_ok s → valid_dir s p → spec s (new_dir (Some p) nm i) (λ d s', linked s' p nm (DDir d)).
Proof. intros Hok Hp. destruct (new_dir_ok s p nm i Hok Hp) as (E & ? & ? & ?). unfold gspec. rewrite E. eauto. Qed.
Lemma spec_new_file s p nm i :
  vfs_ok s → valid_dir s p → spec s (new_file p nm i) (λ b s', linked s' p nm (DBytes b)).
Proof. intros Hok Hp. destruct (new_file_ok s p nm i Hok Hp) as (E & ? & ? & ?). unfold gspec. rewrite E. eauto. Qed.
Lemma spec_new_dentry s p nm i :
  vfs_ok s → valid_dir s p → spec s (new_dentry p nm i) (λ e s', linked s' p nm e).
Proof.
  intros Hok Hp. destruct i as [i|i]; simpl.
  - eapply spec_bind; [by apply spec_new_dir|]. intros d s' Hok' _ Hl. by apply spec_ret.
  - eapply spec_bind; [by apply spec_new_file|]. intros b s' Hok' _ Hl. by apply spec_ret.
Qed.

(** [vstep] runs one step of an operation by its specification. *)
Ltac vstep H :=
  eapply spec_bind; [apply H|]; [..|intros ?; intros]; simpl in *;
  repeat match goal with
         | H : _ ∧ _ |- _ => destruct H
         | H : ?s' = ?s |- _ => is_var s'; is_var s; subst s'
         end.

Section operations.
Variable now : TimeSpec.

Lemma lookup_spec s d comp :
  vfs_ok s → valid_dir s d →
  spec s (lookup now d comp) (λ o s', ∀ e, o = Some e →
    valid_entry s' e ∧ (is_special comp = false → linked s' d comp e)).
Proof.
  intros Hok Hd. unfold lookup. vstep spec_get_dir; [done|done|]. rename a into n.
  eapply spec_bind; [by apply spec_touch|]. intros ? s1 Hok1 He1 Hs1. unfold is_special.
  case_bool_decide as Hdot.
  { apply spec_ret; [done|]. intros e [= <-]. split; [by apply (ext_dir s)|].
    rewrite bool_decide_eq_true_2 by auto. done. }
  case_bool_decide as Hdd.
  { apply spec_ret; [done|]. intros e [= <-]. rewrite bool_decide_eq_true_2 by auto. split; [|done].
    simpl. apply (ext_dir s); [done|]. destruct (d_parent n) as [p|] eqn:Ep; [|done].
    by eapply (ok_parent s Hok). }
  destruct (d_children n !! comp) as [e|] eqn:Ec.
  { apply spec_ret; [done|]. intros e' [= <-].
    assert (linked s1 d comp e) by (apply (ext_linked s); [done|]; by eapply (ok_children s Hok)). eauto. }
  eapply spec_bind; [apply spec_on_fs; [done|]; by intros (? & _)|]. intros o s2 Hok2 He2 Hs2.
  destruct o as [i|]; [|by apply spec_ret].
  eapply spec_bind; [apply spec_new_dentry; [done|]; eauto|]. intros e s3 Hok3 He3 Hl3.
  eapply spec_bind; [by apply spec_insert|]. intros ? s4 Hok4 He4 Hl4.
  apply spec_ret; [done|]. intros e' [= <-]. cbn beta in Hl4. eauto.
Qed.

Lemma mkdir_spec s d comp :
  vfs_ok s → valid_dir s d → spec s (mkdir d comp) (λ c s', linked s' d comp (DDir c)).
Proof.
  intros Hok Hd. unfold mkdir. destruct (is_special comp); [by apply spec_fail|].
  vstep spec_get_dir; [done|done|]. case_bool_decide; [by apply spec_fail|].
  eapply spec_bind; [apply spec_on_fs; [done|]; by intros (_ & ? & _)|]. intros i s2 Hok2 He2 _.
  eapply spec_bind; [apply spec_new_dir; [done|]; eauto|]. intros c s3 Hok3 He3 Hl3.
  eapply spec_bind; [by apply spec_insert|]. intros ? s4 Hok4 He4 Hl4. by apply spec_ret.
Qed.
Lemma mknod_spec s d comp m :
  vfs_ok s → valid_dir s d → spec s (mknod d comp m) (λ b s', linked s' d comp (DBytes b)).
Proof.
  intros Hok Hd. unfold mknod. destruct (_ || _); [by apply spec_fail|].
  vstep spec_get_dir; [done|done|]. case_bool_decide; [by apply spec_fail|].
  eapply spec_bind; [apply spec_on_fs; [done|]; by intros (_ & _ & ? & _)|]. intros i s2 Hok2 He2 _.
  eapply spec_bind; [apply spec_new_file; [done|]; eauto|]. intros c s3 Hok3 He3 Hl3.
  eapply spec_bind; [by apply spec_insert|]. intros ? s4 Hok4 He4 Hl4. by apply spec_ret.
Qed.
Lemma unlink_spec s d comp : vfs_ok s → valid_dir s d → spec s (unlink d comp) (λ _ _, True).
Proof.
  intros Hok Hd. unfold unlink. destruct (is_special comp); [by apply spec_fail|].
  vstep spec_get_dir; [done|done|]. eapply spec_bind; [by apply spec_delete|]. intros ? s2 Hok2 He2 _.
  eapply spec_mono; [apply spec_on_fs; [done|]; by intros (_ & _ & _ & ? & _)|done].
Qed.
Lemma remove_dir_spec s d c nm :
  vfs_ok s → valid_dir s d → linked s d nm (DDir c) → spec s (remove_dir d c) (λ _ _, True).
Proof.
  intros Hok Hd (m & Hm & Hp & _). unfold remove_dir. vstep spec_get_dir; [done|by exists m|]. simplify_eq.
  rewrite bool_decide_eq_true_2 by done. eapply (spec_bind _ _ _ (λ _ s', s' = s)); [by apply spec_ret|].
  intros ? s' _ _ ->. vstep spec_get_dir; [done|done|]. case_match; [by apply spec_fail|]. by apply spec_delete.
Qed.
Lemma add_entries_spec l s d : vfs_ok s → valid_dir s d → spec s (add_entries d l) (λ _ _, True).
Proof.
  revert s. induction l as [|[nm i] l IH]; intros s Hok Hd; [by apply spec_ret|]. cbn [add_entries].
  eapply spec_bind; [by apply spec_new_dentry|]. intros e s1 Hok1 He1 Hl1.
  eapply spec_bind; [by apply spec_insert|]. intros ? s2 Hok2 He2 Hl2. apply IH; [done|]. eauto.
Qed.
Lemma read_dir_spec s d : vfs_ok s → valid_dir s d → spec s (read_dir d) (λ _ _, True).
Proof.
  intros Hok Hd. unfold read_dir. vstep spec_get_dir; [done|done|].
  eapply spec_bind; [apply spec_on_fs; [done|]; by intros (_ & _ & _ & _ & ?)|]. intros l s2 Hok2 He2 _.
  apply add_entries_spec; eauto.
Qed.
Lemma rename_dir_spec s d p nm :
  vfs_ok s → valid_dir s d → valid_dir s p → spec s (rename_dir d p nm) (λ _ _, True).
Proof.
  intros Hok Hd Hp. unfold rename_dir. vstep spec_get_dir; [done|done|].
  destruct (d_parent a) as [o|] eqn:Eo; [|by apply spec_fail].
  vstep spec_get_dir; [done|by eapply (ok_parent s Hok)|].
  eapply spec_bind; [by apply spec_delete|]. intros ? s2 Hok2 He2 _.
  eapply spec_bind; [apply spec_new_dir; [done|]; eauto|]. intros c s3 Hok3 He3 Hl3.
  eapply spec_mono; [by apply spec_insert|done].
Qed.
Lemma rename_file_spec s b p nm :
  vfs_ok s → is_Some (files s !! b) → valid_dir s p → spec s (rename_file b p nm) (λ _ _, True).
Proof.
  intros Hok Hb Hp. unfold rename_file. vstep spec_get_file; [done|done|].
  eapply spec_bind; [by apply spec_delete|]. intros ? s2 Hok2 He2 _.
  eapply spec_bind; [apply spec_new_file; [done|]; eauto|]. intros c s3 Hok3 He3 Hl3.
  eapply spec_mono; [by apply spec_insert|done].
Qed.
Lemma walk_spec rest s d curr :
  vfs_ok s → valid_dir s d → spec s (walk now d curr rest) (λ p2i s', valid_dir s' (p2i_dir p2i)).
Proof.
  revert s d curr. induction rest as [|next rest IH]; intros s d curr Hok Hd; cbn [walk].
  { by apply spec_ret. }
  eapply spec_bind; [by apply lookup_spec|]. intros o s1 Hok1 He1 Ho.
  destruct o as [[c|b]|]; [|by apply spec_fail|by apply spec_fail].
  destruct (Ho _ eq_refl) as [Hv _]. by apply IH.
Qed.
Lemma path_walk_spec s d p :
  vfs_ok s → valid_dir s d → spec s (path_walk now d p) (λ p2i s', valid_dir s' (p2i_dir p2i)).
Proof.
  intros Hok Hd. unfold path_walk. destruct (components p); [by apply spec_ret|]. by apply walk_spec.
Qed.
Lemma resolve_spec s cwd dir_of dir_fd p :
  vfs_ok s → valid_dir s cwd → (∀ fd d, dir_of fd = Some (Some d) → valid_dir s d) →
  spec s (resolve_path_with_dir_fd now cwd dir_of dir_fd p) (λ p2i s', valid_dir s' (p2i_dir p2i)).
Proof.
  intros Hok Hc Hd. unfold resolve_path_with_dir_fd. destruct p as [|c p]; [by apply spec_fail|].
  destruct (c =? SLASH).
  { eapply spec_bind; [by apply (spec_get _ (λ x s', s' = s ∧ x = s))|]. intros ? ? _ _ [-> ->].
    apply path_walk_spec; [done|]. destruct (ok_root s Hok) as (n & Hn & _). by exists n. }
  destruct (dir_fd =? AT_FDCWD); [by apply path_walk_spec|].
  destruct (dir_of dir_fd) as [[d|]|] eqn:E; [|by apply spec_fail..]. apply path_walk_spec; [done|by eapply Hd].
Qed.

(** ** Mounting keeps the invariant *)
Lemma add_mount_ok s fs :
  vfs_ok s → valid_dir s (root_dentry fs) →
  (∀ m n p, mounted_dentry fs = Some m → dirs s !! root_dentry fs = Some n → d_parent n = Some p →
     ∃ nm, linked s p nm m) →
  let s' := set_mounts (<[inl (root_dentry fs) := fs]> (mount_table s)) s in vfs_ok s' ∧ ext s s'.
Proof.
  intros [H1 H2 H3 H4 H5 H6 H7 H8] Hv Hm s'. split; [|split_and!; [simpl; eauto 6|done|done|done]]. constructor; [done..| |]; simpl.
  - intros k f [[<- <-]|[_ Hk]]%lookup_insert_Some; [done|by apply H7].
  - intros k f m n p [[<- <-]|[_ Hk]]%lookup_insert_Some; [by apply Hm|by apply (H8 k)].
Qed.
Lemma del_mount_ok s k :
  vfs_ok s → let s' := set_mounts (delete k (mount_table s)) s in vfs_ok s' ∧ ext s s'.
Proof.
  intros [H1 H2 H3 H4 H5 H6 H7 H8] s'. split; [|split_and!; [simpl; eauto 6|done|done|done]]. constructor; [done..| |]; simpl.
  - intros k' f [_ Hk]%lookup_delete_Some. by apply H7.
  - intros k' f m n p [_ Hk]%lookup_delete_Some. by apply (H8 k').
Qed.

Lemma entry_name_spec {C} s e :
  vfs_ok s → valid_entry s e → gspec C s (entry_name e) (λ nm s', s' = s ∧ ∀ d nm', linked s d nm' e → nm = nm').
Proof.
  intros Hok Hv. destruct e as [d|b]; destruct Hv as [n Hn]; unfold gspec, entry_name, get_dir, get_file;
    cbn [mbind kst_bind kget]; unfold mbind, kst_bind, kget, kunwrap; rewrite Hn; simpl;
    (split_and!; [done|apply ext_refl|done|]); intros d' nm' (n' & ? & ? & ?); congruence.
Qed.
Lemma entry_parent_spec s e :
  vfs_ok s → valid_entry s e →
  gspec True s (entry_parent e) (λ p s', s' = s ∧ valid_dir s p ∧ (∃ nm, linked s p nm e)).
Proof.
  intros Hok Hv. destruct e as [d|b]; destruct Hv as [n Hn]; unfold gspec, entry_parent, get_dir, get_file;
    unfold mbind, kst_bind, kget, kunwrap; rewrite Hn; simpl.
  - destruct (d_parent n) as [p|] eqn:Ep; simpl; [|done]. split_and!; [done|apply ext_refl|done| |].
    + by eapply (ok_parent s Hok).
    + exists (d_name n), n. done.
  - split_and!; [done|apply ext_refl|done| |]; [by eapply (ok_file s Hok)|]. exists (b_name n), n. done.
Qed.
Lemma entry_key_spec {C} s e :
  vfs_ok s → valid_entry s e → gspec C s (entry_key e) (λ k s', s' = s ∧ ∀ d, k = inl d → e = DDir d).
Proof.
  intros Hok Hv. destruct e as [d|b]; unfold gspec; simpl.
  - split_and!; [done|apply ext_refl|done|]. by intros d' [= ->].
  - destruct Hv as [n Hn]. unfold get_file, mbind, kst_bind, kget, kunwrap. rewrite Hn. simpl.
    split_and!; [done|apply ext_refl|done|done].
Qed.

Section mounts.
Variable resolve : str → kst Vfs PathToInode.
Variable create_fs : Z → str → str → Z → kst Vfs FileSystem.
Hypothesis create_fs_spec : ∀ s p nm dev fl,
  vfs_ok s → valid_dir s p → gspec True s (create_fs p nm dev fl) (λ fs s', linked s' p nm (DDir (root_dentry fs))).

Lemma vfs_mount_spec s mp dev fl :
  vfs_ok s → gspec True s (resolve mp) (λ p2i s', valid_dir s' (p2i_dir p2i)) →
  gspec True s (mount now resolve create_fs mp dev fl) (λ _ _, True).
Proof.
  intros Hok Hres. unfold mount. eapply spec_bind; [exact Hres|]. intros p2i s1 Hok1 He1 Hd1.
  eapply spec_bind; [by eapply spec_weaken, lookup_spec|]. intros o s2 Hok2 He2 Ho.
  apply (spec_bind _ _ _ (λ '(parent, nm) s', valid_dir s' parent ∧
    ∀ m, o = Some m → ∃ nm', linked s' parent nm' m)).
  { destruct o as [e|]; [|apply spec_ret; [done|]; split; [eauto|done]].
    destruct (Ho e eq_refl) as [Hv _].
    eapply (spec_bind _ _ _ (λ _ s', s' = s2)).
    { unfold is_mount_root. eapply spec_bind; [by apply entry_key_spec|]. intros k s3 Hok3 _ [-> _].
      eapply spec_bind; [by apply (spec_get _ (λ _ s', s' = s2))|]. intros s3 s4 _ _ ->. by apply spec_ret. }
    intros b s3 _ _ ->. eapply (spec_bind _ _ _ (λ _ s', s' = s2)).
    { destruct b; [by apply spec_fail|by apply spec_ret]. }
    intros ? s3 _ _ ->. eapply (spec_bind _ _ _ (λ _ s', s' = s2)).
    { destruct (is_special _); [by apply spec_ret|]. eapply spec_mono; [by apply entry_name_spec|]. by intros ? ? [-> _]. }
    intros nm s3 _ _ ->. eapply spec_bind; [by apply entry_parent_spec|].
    intros p s3 _ _ (-> & Hp & Hl). apply spec_ret; [done|]. split; [done|]. by intros m [= <-]. }
  intros [parent nm] s3 Hok3 He3 [Hp3 Hm3].
  eapply spec_bind; [by apply create_fs_spec|]. intros fs s4 Hok4 He4 Hl4. cbn beta in Hl4.
  eapply spec_bind; [by eapply spec_weaken, spec_insert|]. intros ? s5 Hok5 He5 Hl5. cbn beta in Hl5.
  unfold gspec. simpl. destruct (add_mount_ok s5 (mkFs (root_dentry fs) (device_path fs) (fs_type fs) o
    (mount_point fs) (fs_flags fs))) as [Ha Hb]; [done|by apply (linked_valid _ _ _ _ Hl5)| |done].
  simpl. intros m n p Hm Hn Hpn. destruct Hl5 as (n' & Hn' & Hp' & _). simplify_eq.
  destruct (Hm3 m eq_refl) as [nm' Hl]. exists nm'. apply (ext_linked s4); [done|]. by apply (ext_linked s3).
Qed.

(** ** Unmounting *)

(** Looking things up leaves the mounts alone. *)
Definition keeps_mounts {A} (c : kst Vfs A) : Prop := ∀ s,
  match c s with Done _ s' | Fail _ s' => mount_table s' = mount_table s | Crash => True end.
Lemma km_bind {A B} (c : kst Vfs A) (f : A → kst Vfs B) :
  keeps_mounts c → (∀ a, keeps_mounts (f a)) → keeps_mounts (c ≫= f).
Proof.
  intros Hc Hf s. specialize (Hc s). unfold mbind, kst_bind. destruct (c s) as [a s1|e s1|]; [|done..].
  specialize (Hf a s1). by destruct (f a s1); [congruence..|].
Qed.
Lemma km_fs {A} (c : kst FS A) : keeps_mounts (on_fs c).
Proof. intros s. unfold on_fs. by destruct (c (v_fs s)). Qed.
Lemma km_lookup d nm : keeps_mounts (lookup now d nm).
Proof.
  unfold lookup. apply km_bind; [intros s; unfold get_dir, mbind, kst_bind, kget, kunwrap; by destruct (dirs s !! d)|intros n].
  apply km_bind; [done|intros _]. do 2 (case_bool_decide; [done|]). case_match; [done|].
  apply km_bind; [apply km_fs|intros [i|]; [|done]]. apply km_bind; [by destruct i|done].
Qed.
Lemma km_walk rest : ∀ d curr, keeps_mounts (walk now d curr rest).
Proof.
  induction rest as [|next rest IH]; intros d curr; simpl; [done|].
  apply km_bind; [apply km_lookup|]. intros [[c|b]|]; [apply IH|done..].
Qed.
Lemma km_resolve cwd dir_of fd p : keeps_mounts (resolve_path_with_dir_fd now cwd dir_of fd p).
Proof.
  assert (Hw : ∀ d, keeps_mounts (path_walk now d p)) by (intros d; unfold path_walk; case_match; [done|apply km_walk]).
  unfold resolve_path_with_dir_fd. destruct p as [|c p]; [done|]. case_match; [by apply km_bind|].
  case_match; [apply Hw|]. by repeat case_match.
Qed.
Lemma spec_mounts {C A} s (c : kst Vfs A) R :
  gspec C s c R → keeps_mounts c → gspec C s c (λ a s', R a s' ∧ mount_table s' = mount_table s).
Proof. unfold gspec. intros Hc Hk. specialize (Hk s). destruct (c s); naive_solver. Qed.

(** What an unmount does: one mount goes, and the entry it hid, if any, is again
    under its name in the directory of the mount point. *)
Definition unmounted s s' : Prop := ∃ fs,
  mount_table s !! inl (root_dentry fs) = Some fs ∧
  mount_table s' = delete (inl (root_dentry fs)) (mount_table s) ∧
  ∀ m, mounted_dentry fs = Some m → ∃ p nm n r,
    linked s' p nm m ∧ dirs s' !! p = Some n ∧ d_children n !! nm = Some m ∧
    dirs s' !! root_dentry fs = Some r ∧ d_parent r = Some p.

Lemma vfs_unmount_spec s mp :
  vfs_ok s → gspec True s (resolve mp) (λ p2i s', valid_dir s' (p2i_dir p2i)) → keeps_mounts (resolve mp) →
  gspec True s (unmount now resolve mp) (λ _ s', unmounted s s').
Proof.
  intros Hok Hres Hkm. unfold unmount. eapply spec_bind; [exact (spec_mounts _ _ _ Hres Hkm)|].
  intros p2i s1 Hok1 He1 [Hd1 Hm1]. eapply spec_bind.
  { eapply spec_mounts; [by eapply spec_weaken, lookup_spec|apply km_lookup]. }
  intros o s2 Hok2 He2 [Ho Hm2]. rewrite Hm1 in Hm2.
  destruct o as [e|]; [|by apply spec_fail]. destruct (Ho e eq_refl) as [Hv _].
  eapply (spec_bind _ _ _ (λ e' s', e' = e ∧ s' = s2)); [by apply spec_ret|]. intros ? s3 _ _ [-> ->].
  eapply spec_bind; [by apply entry_key_spec|]. intros k s3 _ _ [-> Hk].
  eapply spec_bind; [by apply (spec_get _ (λ s s', s' = s2 ∧ s = s2))|]. intros ? s3 _ _ [-> ->].
  destruct (mount_table s2 !! k) as [fs|] eqn:Efs; [|by apply spec_fail].
  destruct (ok_mount s2 Hok2 _ _ Efs) as [-> Hroot]. rewrite (Hk _ eq_refl) in *. clear Hk.
  destruct (del_mount_ok s2 (inl (root_dentry fs)) Hok2) as [Hok3 He3]. set (s3 := set_mounts _ s2) in *.
  assert (Hmt : mount_table s3 = delete (inl (root_dentry fs)) (mount_table s)) by (simpl; by rewrite Hm2).
  eapply (spec_bind _ _ _ (λ _ s', s' = s3)); [by unfold gspec|]. intros ? ? _ _ ->. rewrite Hm2 in Efs.
  destruct (mounted_dentry fs) as [m|] eqn:Em.
  2:{ apply spec_ret; [done|]. exists fs. split_and!; [done..|congruence]. }
  eapply spec_bind; [by apply entry_parent_spec|]. intros p s4 _ _ (-> & Hp & nmr & n & Hn & Hpn & _).
  rewrite <- Hm2 in Efs. destruct (ok_mounted s2 Hok2 _ _ _ _ _ Efs Em Hn Hpn) as [nm Hl]. rewrite Hm2 in Efs.
  assert (linked s3 p nm m) as Hl3 by by apply (ext_linked s2).
  eapply spec_bind; [apply entry_name_spec; [done|by eapply linked_valid]|]. intros nm' s4 _ _ [-> Hnm].
  rewrite (Hnm _ _ Hl3). eapply spec_bind; [by eapply spec_weaken, spec_get_dir|]. intros pn s4 _ _ [-> Hpd].
  case_bool_decide; [|done]. eapply (spec_bind _ _ _ (λ _ s', s' = s3)); [by apply spec_ret|]. intros ? ? _ _ ->.
  pose proof (spec_insert s3 p nm m Hok3 Hl3) as Hins. unfold gspec in *.
  unfold set_children, kmodify in *. cbv beta in *. destruct Hins as (Hok4 & He4 & Hl4). split_and!; [done..|].
  exists fs. split_and!; [done..|]. intros m' Hm'. rewrite Em in Hm'. injection Hm' as <-.
  exists p, nm, (with_children pn (<[nm := m]> (d_children pn))).
  destruct (proj1 He4 (root_dentry fs) n Hn) as (r & Hr & Hrp & _). exists r.
  split_and!; [done| |simpl; by rewrite lookup_insert_eq|done|congruence].
  cbn [dirs set_dirs]. rewrite lookup_alter_eq. change (dirs s3) with (dirs s2) in *. by rewrite Hpd.
Qed.
End mounts.

(** ** Components of a path *)
Definition good_name (nm : str) : Prop := nm ≠ [] ∧ SLASH ∉ nm ∧ is_special nm = false.
Definition non_empty (w : str) : Prop := w ≠ [].

Lemma split_word w p :
  SLASH ∉ w → split_slash (w ++ SLASH :: p) = w :: split_slash p.
Proof.
  induction w as [|c w IH]; intros Hw; [done|]. simpl.
  rewrite (proj2 (Z.eqb_neq c SLASH)) by set_solver. by rewrite IH by set_solver.
Qed.
Lemma split_last w : SLASH ∉ w → split_slash w = [w].
Proof.
  induction w as [|c w IH]; intros Hw; [done|]. simpl.
  rewrite (proj2 (Z.eqb_neq c SLASH)) by set_solver. by rewrite IH by set_solver.
Qed.
Lemma split_nonempty p : split_slash p ≠ [].
Proof. destruct p as [|c p]; simpl; [done|]. destruct (c =? SLASH); [done|]. by destruct (split_slash p). Qed.
Lemma split_snoc_slash p : split_slash (p ++ [SLASH]) = split_slash p ++ [[]].
Proof.
  induction p as [|c p IH]; [done|]. simpl. rewrite IH. destruct (c =? SLASH); [done|].
  pose proof (split_nonempty p). by destruct (split_slash p).
Qed.

(** Leading and trailing slashes only add empty components. *)
Lemma words_trim_start p :
  filter non_empty (split_slash (trim_start p)) = filter non_empty (split_slash p).
Proof.
  induction p as [|c p IH]; [done|]. simpl. destruct (Z.eqb_spec c SLASH) as [->|Hc]; [|].
  - rewrite IH. done.
  - simpl. by rewrite (proj2 (Z.eqb_neq c SLASH)).
Qed.
Lemma words_trim_end p :
  filter non_empty (split_slash (trim_end p)) = filter non_empty (split_slash p).
Proof.
  induction p as [|c p IH] using rev_ind; [done|]. unfold trim_end in *. rewrite reverse_snoc. simpl.
  destruct (Z.eqb_spec c SLASH) as [->|Hc].
  - rewrite IH, split_snoc_slash, filter_app. by rewrite app_nil_r.
  - by rewrite reverse_cons, reverse_involutive.
Qed.
Lemma components_split p : components p = filter non_empty (split_slash p).
Proof.
  unfold components. change (λ w : list Z, w ≠ []) with non_empty. by rewrite words_trim_end, words_trim_start.
Qed.

Lemma split_joined names :
  names ≠ [] → (∀ nm, nm ∈ names → SLASH ∉ nm) → split_slash (joined names) = names.
Proof.
  induction names as [|nm names IH]; [done|]. intros _ Hn. destruct names as [|nm' names].
  - simpl. apply split_last, Hn. set_solver.
  - change (joined (nm :: nm' :: names)) with (nm ++ SLASH :: joined (nm' :: names)).
    rewrite split_word by (apply Hn; set_solver). f_equal. apply IH; [done|]. intros. apply Hn. set_solver.
Qed.
Lemma components_joined names :
  (∀ nm, nm ∈ names → good_name nm) → components (SLASH :: joined names) = names.
Proof.
  intros Hn. rewrite components_split. destruct (decide (names = [])) as [->|Hne]; [done|].
  cbn [split_slash]. rewrite Z.eqb_refl, filter_cons_False by (by intros H).
  rewrite split_joined; [|done|intros nm Hnm; by apply Hn].
  clear Hne. induction names as [|nm names IH]; [done|].
  rewrite filter_cons_True by (apply Hn; set_solver). f_equal. apply IH. intros. apply Hn. set_solver.
Qed.

(** ** Following cached names *)
Fixpoint follow s (d : Z) (names : list str) : option Z :=
  match names with
  | [] => Some d
  | nm :: names =>
      match dirs s !! d with
      | Some n => match d_children n !! nm with Some (DDir c) => follow s c names | _ => None end
      | None => None
      end
  end.

Lemma follow_snoc s names d nm c :
  follow s d (names ++ [nm]) = Some c ↔
  ∃ e n, follow s d names = Some e ∧ dirs s !! e = Some n ∧ d_children n !! nm = Some (DDir c).
Proof.
  revert d. induction names as [|x names IH]; intros d; simpl.
  - split.
    + intros H. destruct (dirs s !! d) as [n|] eqn:E; [|done].
      destruct (d_children n !! nm) as [[c'|b]|] eqn:Ec; simplify_eq. eauto.
    + intros (e & n & [= <-] & -> & ->). done.
  - destruct (dirs s !! d) as [n|] eqn:E; [|naive_solver].
    destruct (d_children n !! x) as [[c'|b]|]; [apply IH|naive_solver|naive_solver].
Qed.

(** The names above a directory are the ones that lead to it. *)
Lemma names_up_follow s names d fuel :
  vfs_ok s → follow s (root_dir s) names = Some d → (Z.to_nat d < fuel)%nat →
  names_up fuel (dirs s) d = Some (reverse names).
Proof.
  intros Hok. revert d fuel. induction names as [|nm names IH] using rev_ind; intros d fuel Hf Hlt.
  - simpl in Hf. injection Hf as <-. destruct (ok_root s Hok) as (n & Hn & Hp).
    destruct fuel; [lia|]. simpl. by rewrite Hn, Hp.
  - apply follow_snoc in Hf as (e & n & Hf & Hn & Hc).
    destruct (ok_children s Hok _ _ _ _ Hn Hc) as (m & Hm & Hp & Hnm).
    destruct (ok_parent s Hok _ _ _ Hm Hp) as [Hed _].
    destruct fuel as [|fuel]; [lia|]. simpl. rewrite Hm, Hp, (IH e fuel Hf) by lia. simpl.
    by rewrite reverse_snoc, Hnm.
Qed.

(** A lookup that hits the cache changes only the metadata of directories. *)
Definition touches : relation FS := rtc (λ f f', ∃ i m, f' = dir_set_meta i m f).
Definition same_tree s s' : Prop :=
  dirs s' = dirs s ∧ files s' = files s ∧ root_dir s' = root_dir s ∧ mount_table s' = mount_table s ∧
  next_id s' = next_id s ∧ touches (v_fs s) (v_fs s').
Lemma same_tree_refl s : same_tree s s.
Proof. split_and!; [done..|apply rtc_refl]. Qed.
Lemma lookup_cached s d n nm e :
  dirs s !! d = Some n → is_special nm = false → d_children n !! nm = Some e →
  ∃ s', lookup now d nm s = Done (Some e) s' ∧ same_tree s s'.
Proof.
  intros Hn Hs He. unfold lookup, get_dir, mbind, kst_bind, kget, kunwrap, kmodify. rewrite Hn. simpl.
  unfold is_special in Hs. apply bool_decide_eq_false in Hs.
  rewrite !bool_decide_eq_false_2 by tauto. rewrite He.
  eexists. split; [done|]. split_and!; [done..|]. apply rtc_once. by eexists _, _.
Qed.
Lemma same_tree_follow s s' d names : same_tree s s' → follow s' d names = follow s d names.
Proof.
  intros (Hd & _). revert d. induction names as [|nm names IH]; intros d; simpl; [done|]. rewrite Hd.
  destruct (dirs s !! d) as [n|]; [|done]. by destruct (d_children n !! nm) as [[c|b]|].
Qed.
Lemma same_tree_trans s1 s2 s3 : same_tree s1 s2 → same_tree s2 s3 → same_tree s1 s3.
Proof.
  intros (A1 & A2 & A3 & A4 & A5 & A6) (B1 & B2 & B3 & B4 & B5 & B6). split_and!; [congruence..|].
  by transitivity (v_fs s2).
Qed.

Lemma walk_cached names s d e curr :
  (∀ nm, nm ∈ names → good_name nm) → good_name curr →
  follow s d names = Some e →
  ∃ s', walk now d (hd curr names) (tl (names ++ [curr])) s = Done (mkP2i e Normal curr) s' ∧ same_tree s s'.
Proof.
  revert s d. induction names as [|nm names IH]; intros s d Hn Hc Hf.
  { injection Hf as <-. simpl. destruct Hc as (_ & _ & Hc). unfold is_special in Hc.
    apply bool_decide_eq_false in Hc. rewrite !bool_decide_eq_false_2 by tauto.
    exists s. split; [done|apply same_tree_refl]. }
  simpl in Hf. destruct (dirs s !! d) as [n|] eqn:En; [|done].
  destruct (d_children n !! nm) as [[c|b]|] eqn:Ec; [|done..].
  destruct (lookup_cached s d n nm (DDir c) En) as (s1 & Hl & Ht); [apply Hn; set_solver|done|].
  destruct (IH s1 c) as (s2 & Hw & Ht2); [intros; apply Hn; set_solver|done|by rewrite (same_tree_follow s)|].
  exists s2. split; [|by eapply same_tree_trans].
  cbn [hd tl app]. destruct names as [|nm' names]; simpl in *.
  - rewrite (kbind_run _ _ _ _ _ Hl). exact Hw.
  - rewrite (kbind_run _ _ _ _ _ Hl). exact Hw.
Qed.
End operations.
End vfs.
