(* ===== verification/VfsSpec.v ===== *)
(** * Paths and mounts: what the dentry cache promises

    The theorems about [Vfs], and [tmpfs] ([fs/tmpfs/src/lib.rs]), whose
    directories live in the dentry cache alone. *)
From S2P Require Import Prelude BTree Defines Kst Inode Vfs.

(** ** [tmpfs] *)
Definition tmpfs_type : str := [116; 109; 112; 102; 115].

Section tmpfs.
Context {DB : DirBackend}.

(** [new_tmp_fs]; [new_tmp_dir] is [TmpDir::new]. *)
Definition new_tmp_fs (new_tmp_dir : kst FS DI) (parent : Z) (name device_path : str) (flags : Z) :
    kst Vfs FileSystem :=
  i ← on_fs new_tmp_dir;
  root_dentry ← new_dir (Some parent) name i;
  mount_point ← path root_dentry;
  mret (mkFs root_dentry device_path tmpfs_type None mount_point flags).

(** [add_child] of [new_dev_fs] and [new_proc_fs]: a device file, made by
    [new_inode], below the root of the file system. *)
Definition add_child (root : Z) (name : str) (new_inode : kst FS BI) : kst Vfs () :=
  i ← on_fs new_inode;
  b ← new_file root name i;
  set_children root (insert name (DBytes b)).
Definition with_type (t : str) (fs : FileSystem) : FileSystem :=
  mkFs (root_dentry fs) (device_path fs) t (mounted_dentry fs) (mount_point fs) (fs_flags fs).
Definition devtmpfs_type : str := [100; 101; 118; 116; 109; 112; 102; 115].
Definition new_dev_fs (new_tmp_dir : kst FS DI) (new_tty new_rtc : kst FS BI)
    (parent : Z) (name device_path : str) (flags : Z) : kst Vfs FileSystem :=
  fs ← new_tmp_fs new_tmp_dir parent name device_path flags;
  _ ← add_child (root_dentry fs) [116; 116; 121] new_tty;
  _ ← add_child (root_dentry fs) [114; 116; 99] new_rtc;
  mret (with_type devtmpfs_type fs).
Definition proc_type : str := [112; 114; 111; 99].
Definition new_proc_fs (new_tmp_dir : kst FS DI) (new_mounts new_meminfo : kst FS BI)
    (parent : Z) (name device_path : str) (flags : Z) : kst Vfs FileSystem :=
  fs ← new_tmp_fs new_tmp_dir parent name device_path flags;
  _ ← add_child (root_dentry fs) [109; 111; 117; 110; 116; 115] new_mounts;
  _ ← add_child (root_dentry fs) [109; 101; 109; 105; 110; 102; 111] new_meminfo;
  mret (with_type proc_type fs).

(** [init_vfs]: the root file system, then [/dev] and [/proc] ([unwrap]).
    [root_inode] and [fs_type] are what [new_fat32_fs] made. *)
Definition root_vfs (root_inode : DI) (f : FS) (root_type : str) : Vfs :=
  mkVfs {[0 := mkDir None [SLASH] ∅ root_inode]} ∅ 1 f 0
    {[inl 0 := mkFs 0 [47; 100; 101; 118; 47; 109; 109; 99; 98; 108; 107; 48] root_type None [SLASH] 0]}.
Definition unwrap {A} (c : kst Vfs A) : kst Vfs A := λ s,
  match c s with Done a s => Done a s | _ => Crash end.
Definition init_vfs (now : TimeSpec) (new_dev new_proc : Z → str → str → Z → kst Vfs FileSystem)
    (root_inode : DI) (f : FS) (root_type : str) : kres Vfs () :=
  (_ ← unwrap (mount now (resolve_path_with_dir_fd now 0 (λ _, None) AT_FDCWD) new_dev
                 [47; 100; 101; 118] [117; 100; 101; 118] 0);
   unwrap (mount now (resolve_path_with_dir_fd now 0 (λ _, None) AT_FDCWD) new_proc
             [47; 112; 114; 111; 99] [112; 114; 111; 99] 0))
    (root_vfs root_inode f root_type).
End tmpfs.

(** The inodes of [tmpfs]: the metadata of each directory, and the counter
    [InodeMeta::new] takes the inode number from. *)
Module Tmp.
Record Store : Type := mkStore { metas : gmap Z InodeMeta; ino_counter : Z }.

Definition TmpDir_new (now : TimeSpec) : kst Store Z :=
  s ← kget;
  let meta := Meta.with_modify (Meta.with_change (Meta.with_access (Meta.new (ino_counter s) Dir) now) now) now in
  _ ← kput (mkStore (<[ino_counter s := meta]> (metas s)) (ino_counter s + 1));
  mret (ino_counter s).
Definition meta (i : Z) (s : Store) : InodeMeta := default (Meta.new i Dir) (metas s !! i).
Definition set_meta (i : Z) (m : InodeMeta) (s : Store) : Store :=
  mkStore (<[i := m]> (metas s)) (ino_counter s).
Definition lookup (_ : Z) (_ : str) : kst Store (option (Z + Empty_set)) := mret None.
Definition mkdir (now : TimeSpec) (_ : Z) (_ : str) : kst Store Z := TmpDir_new now.
Definition mknod (_ : Z) (_ : str) (_ : InodeMode) : kst Store Empty_set := kcrash.
Definition unlink (_ : Z) (_ : str) : kst Store () := mret ().
Definition read_dir (_ : Z) (_ : str → bool) : kst Store (list (str * (Z + Empty_set))) := mret [].

#[local] Instance TmpDir (now : TimeSpec) : DirBackend := {|
  DI := Z; BI := Empty_set; FS := Store;
  dir_lookup := lookup; dir_mkdir := mkdir now; dir_mknod := mknod; dir_unlink := unlink;
  dir_read_dir := read_dir; dir_meta := meta; dir_set_meta := set_meta;
  file_meta e := match e with end; file_set_meta e := match e with end; file_addr e := match e with end;
|}.
End Tmp.

(** ** Cached paths *)
Section cached.
Context {DB : DirBackend}.
Variable now : TimeSpec.
Implicit Types (s : Vfs).

Lemma same_tree_ok s s' : same_tree s s' → vfs_ok s → vfs_ok s'.
Proof.
  destruct s as [ds fl nx f r mt], s' as [ds' fl' nx' f' r' mt'].
  intros (H1 & H2 & H3 & H4 & H5 & _). simpl in *. subst. intros [K1 K2 K3 K4 K5 K6 K7 K8]. by constructor.
Qed.

(** A path made of cached names resolves without asking the file system. *)
Definition resolve_at (cwd : Z) : str → kst Vfs PathToInode :=
  resolve_path_with_dir_fd now cwd (λ _, None) AT_FDCWD.
Lemma resolve_cached s names nm e cwd :
  (∀ x, x ∈ names ++ [nm] → good_name x) → follow s (root_dir s) names = Some e →
  ∃ s', resolve_at cwd (SLASH :: joined (names ++ [nm])) s = Done (mkP2i e Normal nm) s' ∧ same_tree s s'.
Proof.
  intros Hn Hf. unfold resolve_at. cbn [resolve_path_with_dir_fd].
  rewrite Z.eqb_refl, (kbind_run kget _ s s s) by done. unfold path_walk. rewrite components_joined by done.
  destruct (walk_cached now names s (root_dir s) e nm) as (s1 & Hw & Ht);
    [intros; apply Hn; set_solver|apply Hn; set_solver|done|].
  exists s1. split; [|done]. by destruct names.
Qed.

(** Dentries above a directory are older, so a step that only touches it and
    newer ones leaves the way to it. *)
Lemma follow_le s d names e : vfs_ok s → follow s d names = Some e → d ≤ e ∧ (names ≠ [] → d < e).
Proof.
  intros Hok. revert d. induction names as [|nm names IH]; intros d Hf; simpl in Hf.
  { injection Hf as <-. split; [lia|done]. }
  destruct (dirs s !! d) as [n|] eqn:En; [|done].
  destruct (d_children n !! nm) as [[c|b]|] eqn:Ec; [|done..].
  destruct (ok_children s Hok _ _ _ _ En Ec) as (m & Hm & Hp & _).
  destruct (ok_parent s Hok _ _ _ Hm Hp) as [Hlt _]. destruct (IH c Hf). split; [lia|]. intros _. lia.
Qed.
Lemma follow_below s s' d names e :
  vfs_ok s → follow s d names = Some e → (∀ x, x < e → dirs s' !! x = dirs s !! x) →
  follow s' d names = Some e.
Proof.
  intros Hok. revert d. induction names as [|nm names IH]; intros d Hf Hs; [done|].
  destruct (follow_le s d (nm :: names) e Hok Hf) as [_ Hlt]. simpl in *. rewrite Hs by (by apply Hlt).
  destruct (dirs s !! d) as [n|]; [|done]. destruct (d_children n !! nm) as [[c|b]|]; [|done..]. by apply IH.
Qed.
Lemma follow_valid s names d : vfs_ok s → follow s (root_dir s) names = Some d → valid_dir s d.
Proof.
  intros Hok Hf. destruct names as [|nm names _] using rev_ind.
  - injection Hf as <-. destruct (ok_root s Hok) as (n & Hr & _). by exists n.
  - apply follow_snoc in Hf as (e & n & _ & He & Hc).
    destruct (ok_children s Hok _ _ _ _ He Hc) as (m & Hm & _). by exists m.
Qed.
Lemma find_cached s names nm e n m cwd :
  (∀ x, x ∈ names ++ [nm] → good_name x) → follow s (root_dir s) names = Some e →
  dirs s !! e = Some n → d_children n !! nm = Some m →
  ∃ s', find_file now cwd (SLASH :: joined (names ++ [nm])) s = Done m s' ∧ same_tree s s'.
Proof.
  intros Hn Hf He Hm. destruct (resolve_cached s names nm e cwd Hn Hf) as (s1 & Hr & Ht1).
  assert (nm ∈ names ++ [nm]) as Hin by set_solver. destruct (Hn nm Hin) as (_ & _ & Hs).
  destruct (lookup_cached now s1 e n nm m) as (s2 & Hl & Ht2); [by rewrite (proj1 Ht1)|done|done|].
  exists s2. split; [|by eapply same_tree_trans]. unfold find_file. unfold resolve_at in Hr.
  rewrite (kbind_run _ _ _ _ _ Hr). cbn [p2i_dir last_component]. by rewrite (kbind_run _ _ _ _ _ Hl).
Qed.
Lemma path_names s names d :
  vfs_ok s → follow s (root_dir s) names = Some d → path d s = Done (SLASH :: joined names) s.
Proof.
  intros Hok Hf. destruct (follow_valid s names d Hok Hf) as [n Hd]. apply (ok_dir s Hok) in Hd.
  unfold path, mbind, kst_bind, kget, kunwrap.
  rewrite (names_up_follow s names d) by (done || lia). simpl. by rewrite reverse_involutive.
Qed.

(** C22: a directory's path leads back to it. For every directory reached from the
    root along cached names, [path] is these names joined by slashes, and looking
    that path up, from whatever working directory, finds the same directory and
    leaves the tree as it is. *)
Theorem path_roundtrip s names d cwd :
  vfs_ok s → (∀ nm, nm ∈ names → good_name nm) → follow s (root_dir s) names = Some d →
  path d s = Done (SLASH :: joined names) s ∧
  ∃ s', find_file now cwd (SLASH :: joined names) s = Done (DDir d) s' ∧ same_tree s s'.
Proof.
  intros Hok Hn Hf. split; [by apply path_names|]. destruct names as [|nm names _] using rev_ind.
  - injection Hf as <-. destruct (ok_root s Hok) as (n & Hr & _). eexists. split.
    + unfold find_file, mbind, kst_bind. simpl. unfold lookup, get_dir, mbind, kst_bind, kget, kunwrap.
      rewrite Hr. reflexivity.
    + split_and!; [done..|]. apply rtc_once. by eexists _, _.
  - apply follow_snoc in Hf as (e & n & Hfe & He & Hc). by eapply find_cached.
Qed.
End cached.

(** ** Mounting [tmpfs] and taking it away again *)
Section mounts.
Context {DB : DirBackend}.
Variables (now : TimeSpec) (new_tmp_dir : kst FS DI).
Implicit Types (s : Vfs).

Abbreviation mount_tmp cwd := (mount now (resolve_at now cwd) (new_tmp_fs new_tmp_dir)).
Abbreviation umount cwd := (unmount now (resolve_at now cwd)).

(** What is under a name of a directory, and what hides it. *)
Definition child_at s (d : Z) (nm : str) : option DEntry :=
  match dirs s !! d with Some n => d_children n !! nm | None => None end.

Lemma linked_name s d nm e : linked s d nm e → entry_name e s = Done nm s.
Proof.
  destruct e as [c|b]; intros (n & Hn & _ & <-);
    unfold entry_name, get_dir, get_file, mbind, kst_bind, kget, kunwrap; by rewrite Hn.
Qed.
Lemma linked_parent s d nm e : linked s d nm e → entry_parent e s = Done d s.
Proof.
  destruct e as [c|b]; intros (n & Hn & Hp & _);
    unfold entry_parent, get_dir, get_file, mbind, kst_bind, kget, kunwrap; rewrite Hn; simpl; by rewrite Hp.
Qed.
Lemma linked_same s s' d nm e : same_tree s s' → linked s d nm e → linked s' d nm e.
Proof. intros (Hd & Hf & _). destruct e; simpl; by rewrite ?Hd, ?Hf. Qed.
Lemma is_mount_root_same s s' e : same_tree s s' →
  is_mount_root e s = Done false s → is_mount_root e s' = Done false s'.
Proof.
  intros (Hd & Hf & _ & Hm & _). unfold is_mount_root, entry_key.
  destruct e as [d|b]; unfold mbind, kst_bind, get_file, kget, kunwrap, mret, kst_ret; simpl.
  - rewrite Hm. intros [= ->]. done.
  - unfold mbind, kst_bind. rewrite Hf. destruct (files s !! b) as [n|]; [|done]. simpl. rewrite Hm. by intros [= ->].
Qed.

(** The file system is made below the parent, with the way to it still there. *)
Lemma new_tmp_fs_run s names e nm dev fl i f :
  vfs_ok s → follow s (root_dir s) names = Some e → new_tmp_dir (v_fs s) = Done i f →
  let s' := mkVfs (<[next_id s := mkDir (Some e) nm ∅ i]> (dirs s)) (files s) (next_id s + 1) f
              (root_dir s) (mount_table s) in
  vfs_ok s' ∧ follow s' (root_dir s) names = Some e ∧
  new_tmp_fs new_tmp_dir e nm dev fl s =
    Done (mkFs (next_id s) dev tmpfs_type None (SLASH :: joined (names ++ [nm])) fl) s'.
Proof.
  intros Hok Hf Hi s'. destruct (set_fs_ok f s Hok) as [Hok1 _].
  destruct (follow_valid s names e Hok Hf) as [n Hn]. pose proof (ok_dir s Hok _ _ Hn) as He.
  destruct (new_dir_ok (set_fs f s) e nm i Hok1) as (Hnew & Hok2 & _ & _); [by exists n|].
  assert (follow s' (root_dir s) names = Some e) as Hf'.
  { apply (follow_below s); [done|done|]. intros x Hx. simpl. rewrite lookup_insert_ne by lia. done. }
  split_and!; [done|done|]. unfold new_tmp_fs. erewrite kbind_run by (unfold on_fs; rewrite Hi; reflexivity).
  rewrite (kbind_run _ _ _ _ _ Hnew). simpl in Hok2. fold s' in Hok2 |- *.
  assert (path (next_id s) s' = Done (SLASH :: joined (names ++ [nm])) s') as Hp; [|by rewrite (kbind_run _ _ _ _ _ Hp)].
  unfold path, mbind, kst_bind, kget, kunwrap. cbn [next_id s' dirs].
  rewrite Z2Nat.inj_add by lia. change (Z.to_nat 1) with 1%nat. rewrite Nat.add_1_r. cbn [names_up].
  rewrite lookup_insert_eq. cbn [d_parent d_name].
  pose proof (names_up_follow s' names e (Z.to_nat (next_id s)) Hok2 Hf') as Hup. simpl in Hup.
  rewrite Hup by lia. simpl. by rewrite reverse_cons, reverse_involutive.
Qed.

(** Mounting: the dentry stays aside and the new root takes its name. *)
Lemma mount_run s names nm e n m cwd dev :
  vfs_ok s → (∀ x, x ∈ names ++ [nm] → good_name x) →
  follow s (root_dir s) names = Some e → dirs s !! e = Some n → d_children n !! nm = Some m →
  is_mount_root m s = Done false s → (∀ f, ∃ i f', new_tmp_dir f = Done i f') →
  ∃ i s' fs, mount_tmp cwd (SLASH :: joined (names ++ [nm])) dev 0 s = Done () s' ∧
    vfs_ok s' ∧ root_dir s' = root_dir s ∧ files s' = files s ∧
    dirs s' = <[e := with_children n (<[nm := DDir (next_id s)]> (d_children n))]>
                (<[next_id s := mkDir (Some e) nm ∅ i]> (dirs s)) ∧
    mounted_dentry fs = Some m ∧ root_dentry fs = next_id s ∧
    mount_table s' = <[inl (next_id s) := fs]> (mount_table s).
Proof.
  intros Hok Hn Hf He Hm Hroot Hmk. destruct (resolve_cached now s names nm e cwd Hn Hf) as (s1 & Hr & Ht1).
  assert (nm ∈ names ++ [nm]) as Hin by set_solver. destruct (Hn nm Hin) as (_ & _ & Hs). clear Hin.
  destruct (lookup_cached now s1 e n nm m) as (s2 & Hl & Ht2); [by rewrite (proj1 Ht1)|done|done|].
  assert (same_tree s s2) as Ht by (by eapply same_tree_trans). clear Ht1 Ht2.
  pose proof (same_tree_ok s s2 Ht Hok) as Hok2.
  pose proof (linked_same s s2 _ _ _ Ht (ok_children s Hok _ _ _ _ He Hm)) as Hlk.
  destruct (Hmk (v_fs s2)) as (i & f & Hi).
  destruct (new_tmp_fs_run s2 names e nm dev 0 i f Hok2) as (Hok3 & _ & Hnew); [|done|].
  { by rewrite (same_tree_follow s s2), (proj1 (proj2 (proj2 Ht))). }
  unfold mount. rewrite (kbind_run _ _ _ _ _ Hr). cbn [last_component p2i_dir].
  rewrite (kbind_run _ _ _ _ _ Hl), kbind_assoc, (kbind_run _ _ _ _ _ (is_mount_root_same s s2 m Ht Hroot)).
  rewrite kbind_assoc, (kbind_run _ _ s2 () s2) by done. rewrite Hs.
  rewrite kbind_assoc, (kbind_run _ _ _ _ _ (linked_name _ _ _ _ Hlk)).
  rewrite kbind_assoc, (kbind_run _ _ _ _ _ (linked_parent _ _ _ _ Hlk)).
  rewrite (kbind_run _ _ s2 (e, nm) s2) by done. rewrite (kbind_run _ _ _ _ _ Hnew). clear Hnew Hl Hr.
  destruct Ht as (Hd & Hfl & Hrt & Hmt & Hnx & _). set (s3 := mkVfs _ _ _ _ _ _) in *.
  assert (linked s3 e nm (DDir (next_id s2))) as Hlk3.
  { exists (mkDir (Some e) nm ∅ i). simpl. by rewrite lookup_insert_eq. }
  pose proof (spec_insert s3 e nm _ Hok3 Hlk3) as Hins. unfold gspec in Hins.
  erewrite kbind_run by reflexivity. unfold kmodify in *. cbn in Hins |- *. destruct Hins as (Hok4 & He4 & Hlk4).
  eexists i, _, (mkFs (next_id s2) dev tmpfs_type (Some m) (SLASH :: joined (names ++ [nm])) 0).
  split; [reflexivity|].
  assert (next_id s ≠ e) by (apply (ok_dir s Hok) in He; lia).
  split; [|simpl; rewrite Hnx; split_and!; [done|done| |done|done|by rewrite Hmt]].
  - match goal with |- vfs_ok (set_mounts (<[_ := ?fs]> _) ?s4) => refine (proj1 (add_mount_ok s4 fs _ _ _)) end;
      [done|destruct Hlk4 as (x & Hx & _); by exists x|].
    simpl. intros m' n' p [= <-] Hn' Hp. destruct Hlk4 as (x & Hx & Hpx & _). cbn [dirs set_dirs] in Hx. simplify_eq.
    exists nm. apply (ext_linked s3); [done|]. apply (ext_linked s2); [|done].
    destruct (follow_valid s names _ Hok Hf) as [y Hy].
    destruct (new_dir_ok (set_fs f s2) e nm i) as (_ & _ & (A & B & C & D) & _).
    { by apply set_fs_ok. } { exists y. simpl. by rewrite Hd. } split_and!; [apply A|apply B|done|simpl in D |- *; lia].
  - rewrite Hd. apply map_eq. intros x. rewrite lookup_alter, !lookup_insert. repeat case_decide; simplify_eq; try done.
    by rewrite He.
Qed.

(** Unmounting puts the dentry back. *)
Lemma unmount_run s names nm e n r m fs cwd :
  vfs_ok s → (∀ x, x ∈ names ++ [nm] → good_name x) →
  follow s (root_dir s) names = Some e → dirs s !! e = Some n → d_children n !! nm = Some (DDir r) →
  mount_table s !! inl r = Some fs → mounted_dentry fs = Some m → linked s e nm m →
  ∃ s', umount cwd (SLASH :: joined (names ++ [nm])) s = Done () s' ∧
    root_dir s' = root_dir s ∧ files s' = files s ∧
    dirs s' = <[e := with_children n (<[nm := m]> (d_children n))]> (dirs s) ∧
    mount_table s' = delete (inl r) (mount_table s).
Proof.
  intros Hok Hn Hf He Hr Hfs Hm Hlm. destruct (resolve_cached now s names nm e cwd Hn Hf) as (s1 & Hres & Ht1).
  assert (nm ∈ names ++ [nm]) as Hin by set_solver. destruct (Hn nm Hin) as (_ & _ & Hs). clear Hin.
  destruct (lookup_cached now s1 e n nm (DDir r)) as (s2 & Hl & Ht2); [by rewrite (proj1 Ht1)|done|done|].
  assert (same_tree s s2) as Ht by (by eapply same_tree_trans). clear Ht1 Ht2.
  pose proof (ok_children s Hok _ _ _ _ He Hr) as Hlr.
  set (s3 := set_mounts (delete (inl r) (mount_table s2)) s2).
  assert (linked s3 e nm (DDir r)) as Hlr3 by exact (linked_same s s2 _ _ _ Ht Hlr).
  assert (linked s3 e nm m) as Hlm3. { pose proof (linked_same s s2 _ _ _ Ht Hlm) as H. by destruct m. }
  destruct Ht as (Hd & Hfl & Hrt & Hmt & Hnx & _).
  unfold unmount. rewrite (kbind_run _ _ _ _ _ Hres). cbn [last_component p2i_dir].
  rewrite (kbind_run _ _ _ _ _ Hl), (kbind_run _ _ s2 (DDir r) s2) by done.
  rewrite (kbind_run _ _ s2 (inl r) s2), (kbind_run kget _ s2 s2 s2) by done. rewrite Hmt, Hfs.
  rewrite (kbind_run _ _ s2 () s3) by done. rewrite Hm.
  rewrite (kbind_run _ _ _ _ _ (linked_parent _ _ _ _ Hlr3)), (kbind_run _ _ _ _ _ (linked_name _ _ _ _ Hlm3)).
  rewrite (kbind_run _ _ s3 n s3) by (unfold get_dir, mbind, kst_bind, kget, kunwrap; simpl; by rewrite Hd, He).
  rewrite bool_decide_eq_true_2 by eauto. rewrite (kbind_run _ _ s3 () s3) by done.
  eexists. split; [reflexivity|]. simpl. rewrite Hd, Hmt. split_and!; [done|done| |done].
  apply map_eq. intros x. rewrite lookup_alter, lookup_insert. case_decide; [|done]. subst. by rewrite He.
Qed.

(** Mounting hides, unmounting restores. Mounting [tmpfs] over an existing
    entry makes the path of the entry lead to the fresh, empty root of the new
    file system; unmounting it makes the path lead to the entry again, and every
    directory and the mount table are what they were. *)
Lemma mount_unmount s names nm e m cwd dev :
  vfs_ok s → (∀ x, x ∈ names ++ [nm] → good_name x) →
  follow s (root_dir s) names = Some e → child_at s e nm = Some m →
  is_mount_root m s = Done false s → (∀ f, ∃ i f', new_tmp_dir f = Done i f') →
  let p := SLASH :: joined (names ++ [nm]) in
  let r := next_id s in
  ∃ s1 s2,
    mount_tmp cwd p dev 0 s = Done () s1 ∧
    (∃ s1', find_file now cwd p s1 = Done (DDir r) s1') ∧ (∀ x, child_at s1 r x = None) ∧
    umount cwd p s1 = Done () s2 ∧
    (∃ s2', find_file now cwd p s2 = Done m s2') ∧
    (∀ d, d ≠ r → dirs s2 !! d = dirs s !! d) ∧ files s2 = files s ∧ mount_table s2 = mount_table s.
Proof.
  intros Hok Hn Hf Hc Hroot Hmk p r. unfold child_at in Hc. destruct (dirs s !! e) as [n|] eqn:He; [|done].
  destruct (mount_run s names nm e n m cwd dev Hok Hn Hf He Hc Hroot Hmk)
    as (i & s1 & fs & Hm & Hok1 & Hr1 & Hfl1 & Hd1 & Hmd & Hrd & Hmt1).
  pose proof (ok_dir s Hok _ _ He) as Hlt. pose proof (ok_children s Hok _ _ _ _ He Hc) as Hlk.
  assert (follow s1 (root_dir s1) names = Some e) as Hf1.
  { rewrite Hr1. apply (follow_below s); [done|done|]. intros x Hx. rewrite Hd1, !lookup_insert_ne by lia. done. }
  assert (dirs s1 !! e = Some (with_children n (<[nm := DDir r]> (d_children n)))) as He1.
  { by rewrite Hd1, lookup_insert_eq. }
  assert (linked s1 e nm m) as Hlk1.
  { destruct m as [c|b]; destruct Hlk as (x & Hx & Hp & Hnm); [|exists x; by rewrite Hfl1].
    exists x. split; [|done]. rewrite Hd1, !lookup_insert_ne; [done| |]; destruct (ok_parent s Hok _ _ _ Hx Hp);
      apply (ok_dir s Hok) in Hx; lia. }
  assert (mount_table s !! inl r = None) as Hfresh.
  { destruct (mount_table s !! inl r) as [x|] eqn:E; [|done]. destruct (ok_mount s Hok _ _ E) as [[= Hx] [y Hy]].
    apply (ok_dir s Hok) in Hy. unfold r in Hx. lia. }
  destruct (unmount_run s1 names nm e _ r m fs cwd Hok1 Hn Hf1 He1) as (s2 & Hu & Hr2 & Hfl2 & Hd2 & Hmt2);
    [simpl; by rewrite lookup_insert_eq|by rewrite Hmt1, lookup_insert_eq|done|done|].
  assert (dirs s2 !! e = Some n) as He2.
  { rewrite Hd2, lookup_insert_eq. unfold with_children. simpl. rewrite insert_insert_eq, (insert_id _ _ _ Hc).
    by destruct n. }
  assert (∀ d, d ≠ r → dirs s2 !! d = dirs s !! d) as Hds.
  { intros d Hd. destruct (decide (d = e)) as [->|Hne]; [by rewrite He2|].
    rewrite Hd2, lookup_insert_ne, Hd1, !lookup_insert_ne by done. done. }
  exists s1, s2. split_and!; [done| | |done| |done|congruence|].
  - edestruct find_cached as (s1' & Hff & _); [exact Hn|exact Hf1|exact He1|simpl; apply lookup_insert_eq|]. eauto.
  - intros x. unfold child_at. rewrite Hd1, lookup_insert_ne, lookup_insert_eq by lia. apply lookup_empty.
  - edestruct (find_cached now s2 names nm e n m cwd Hn) as (s2' & Hff & _); [|done|done|eauto].
    rewrite Hr2, Hr1. apply (follow_below s); [done|done|]. intros x Hx. apply Hds. lia.
  - rewrite Hmt2, Hmt1. by apply delete_insert_id.
Qed.
End mounts.

(** ** The mount a dentry belongs to *)
Section roots.
Context {DB : DirBackend}.
Variable now : TimeSpec.
Implicit Types (s : Vfs).

Definition mount_root s (d : Z) : Prop := is_Some (mount_table s !! inl d).

(** [r] is the first mount root on the way from [d] up to the root. *)
Inductive nearest s : Z → Z → Prop :=
| nearest_here d : mount_root s d → nearest s d d
| nearest_up d n p r :
    ¬ mount_root s d → dirs s !! d = Some n → d_parent n = Some p → nearest s p r → nearest s d r.

Lemma nearest_fun s d r r' : nearest s d r → nearest s d r' → r = r'.
Proof.
  intros H. revert r'. induction H as [d Hd|d n p r Hd Hn Hp _ IH]; intros r' H'; inversion H'; simplify_eq; auto; done.
Qed.
Lemma nearest_root s d r : nearest s d r → mount_root s r.
Proof. by induction 1. Qed.

Lemma is_mount_root_dir s d : is_mount_root (DDir d) s = Done (bool_decide (mount_root s d)) s.
Proof. done. Qed.
Lemma is_mount_root_file s b n :
  vfs_ok s → files s !! b = Some n → is_mount_root (DBytes b) s = Done false s.
Proof.
  intros Hok Hb. unfold is_mount_root, entry_key, get_file, mbind, kst_bind, kget, kunwrap. rewrite Hb. simpl.
  unfold mret, kst_ret. rewrite bool_decide_eq_false_2; [done|]. intros [fs Hfs].
  by destruct (ok_mount s Hok _ _ Hfs).
Qed.

(** While the root is mounted, the walk ends at the nearest mount root. *)
Lemma mounted_root_dir s fuel d :
  vfs_ok s → mount_root s (root_dir s) → valid_dir s d → (Z.to_nat d ≤ fuel)%nat →
  ∃ r, mounted_root_of fuel (DDir d) s = Done (DDir r) s ∧ nearest s d r.
Proof.
  intros Hok Hroot. revert d. induction fuel as [|fuel IH]; intros d [n Hn] Hle; cbn [mounted_root_of];
    rewrite (kbind_run _ _ _ _ _ (is_mount_root_dir s d)); case_bool_decide as Hd; try (exists d; split; [done|by apply nearest_here]).
  - destruct (d_parent n) as [p|] eqn:Ep.
    + destruct (ok_parent s Hok _ _ _ Hn Ep). lia.
    + by rewrite (ok_orphan s Hok _ _ Hn Ep) in Hd.
  - destruct (d_parent n) as [p|] eqn:Ep; [|by rewrite (ok_orphan s Hok _ _ Hn Ep) in Hd].
    destruct (ok_parent s Hok _ _ _ Hn Ep) as [Hlt Hv]. destruct (IH p Hv) as (r & Hr & Hne); [lia|].
    exists r. split; [|by eapply nearest_up].
    rewrite (kbind_run _ _ _ _ _ (linked_parent s p (d_name n) (DDir d) ltac:(by exists n))). done.
Qed.

Definition entry_dir s (e : DEntry) : Z :=
  match e with DDir d => d | DBytes b => match files s !! b with Some n => b_parent n | None => 0 end end.
Lemma mounted_root_entry s fuel e :
  vfs_ok s → mount_root s (root_dir s) → valid_entry s e → (Z.to_nat (next_id s) ≤ fuel)%nat →
  ∃ r, mounted_root_of fuel e s = Done (DDir r) s ∧ nearest s (entry_dir s e) r.
Proof.
  intros Hok Hroot Hv Hf. destruct e as [d|b].
  - destruct Hv as [n Hn]. pose proof (ok_dir s Hok _ _ Hn). cbn [entry_dir]. apply mounted_root_dir; [done|done|by exists n|lia].
  - destruct Hv as [n Hn]. destruct (ok_file s Hok _ _ Hn) as [Hlt Hp]. unfold entry_dir. rewrite Hn.
    assert (0 ≤ b_parent n < next_id s) by (destruct Hp as [x Hx]; by apply (ok_dir s Hok) in Hx).
    destruct fuel as [|fuel]; [lia|]. cbn [mounted_root_of].
    rewrite (kbind_run _ _ _ _ _ (is_mount_root_file s b n Hok Hn)).
    rewrite (kbind_run _ _ _ _ _ (linked_parent s (b_parent n) (b_name n) (DBytes b) ltac:(by exists n))).
    apply mounted_root_dir; [done|done|done|lia].
Qed.
Lemma same_mounted_run s a b ra rb :
  vfs_ok s → mount_root s (root_dir s) → valid_entry s a → valid_entry s b →
  nearest s (entry_dir s a) ra → nearest s (entry_dir s b) rb →
  same_mounted_fs a b s = Done (bool_decide (ra = rb)) s.
Proof.
  intros Hok Hroot Ha Hb Hna Hnb. unfold same_mounted_fs. rewrite (kbind_run kget _ s s s) by done.
  destruct (mounted_root_entry s _ a Hok Hroot Ha (le_n _)) as (x & Hx & Hx').
  destruct (mounted_root_entry s _ b Hok Hroot Hb (le_n _)) as (y & Hy & Hy').
  rewrite (nearest_fun s _ _ _ Hna Hx'), (nearest_fun s _ _ _ Hnb Hy').
  rewrite (kbind_run _ _ _ _ _ Hx), (kbind_run _ _ _ _ _ Hy). unfold mbind, kst_bind. simpl. unfold mret, kst_ret. f_equal. apply bool_decide_ext. naive_solver.
Qed.

(** Every directory has a path. *)
Lemma names_up_total s fuel d :
  vfs_ok s → valid_dir s d → (Z.to_nat d < fuel)%nat → is_Some (names_up fuel (dirs s) d).
Proof.
  intros Hok. revert d. induction fuel as [|fuel IH]; intros d [n Hn] Hlt; [lia|]. simpl. rewrite Hn.
  destruct (d_parent n) as [p|] eqn:Ep; [|done].
  destruct (ok_parent s Hok _ _ _ Hn Ep) as [Hp Hv]. destruct (IH p Hv) as [l Hl]; [lia|]. rewrite Hl. simpl. eauto.
Qed.
Lemma path_total s d : vfs_ok s → valid_dir s d → ∃ p, path d s = Done p s.
Proof.
  intros Hok Hv. pose proof Hv as [n Hn]. apply (ok_dir s Hok) in Hn.
  destruct (names_up_total s (Z.to_nat (next_id s)) d Hok Hv) as [l Hl]; [lia|].
  unfold path, mbind, kst_bind, kget, kunwrap. rewrite Hl. simpl. eauto.
Qed.
Lemma on_fs_ok {A} s (c : kst FS A) : vfs_ok s → gspec True s (on_fs c) (λ _ _, True).
Proof.
  intros Hok. unfold gspec, on_fs. destruct (c (v_fs s)) as [a f|e f|]; [| |done];
    destruct (set_fs_ok f s Hok); eauto.
Qed.
Lemma new_tmp_fs_spec mk s p nm dev fl :
  vfs_ok s → valid_dir s p →
  gspec True s (new_tmp_fs mk p nm dev fl) (λ fs s', linked s' p nm (DDir (root_dentry fs))).
Proof.
  intros Hok Hp. unfold new_tmp_fs.
  eapply spec_bind; [by apply on_fs_ok|]. intros i s1 Hok1 He1 _.
  eapply spec_bind; [eapply spec_weaken, spec_new_dir; [done|]; by eapply ext_dir|].
  intros d s2 Hok2 He2 Hl. cbn beta in Hl.
  destruct (path_total s2 d Hok2) as [q Hq]; [by apply (linked_valid _ _ _ _ Hl)|].
  apply (spec_bind _ _ _ (λ _ s', s' = s2)).
  { unfold gspec. rewrite Hq. split; [done|]. split; [apply ext_refl|done]. }
  intros q' s3 _ _ ->. by apply spec_ret.
Qed.
Lemma add_child_spec s d nm mk : vfs_ok s → valid_dir s d → gspec True s (add_child d nm mk) (λ _ _, True).
Proof.
  intros Hok Hd. unfold add_child. eapply spec_bind; [by apply on_fs_ok|]. intros i s1 Hok1 He1 _.
  eapply spec_bind; [eapply spec_weaken, spec_new_file; [done|]; by eapply ext_dir|].
  intros b s2 Hok2 He2 Hl. eapply spec_mono; [by eapply spec_weaken, spec_insert|done].
Qed.
(** [/dev] and [/proc]: a [tmpfs] with two device files. *)
Lemma with_children_spec mk mk1 mk2 nm1 nm2 t s p nm dev fl :
  vfs_ok s → valid_dir s p →
  gspec True s (fs ← new_tmp_fs mk p nm dev fl; _ ← add_child (root_dentry fs) nm1 mk1;
                _ ← add_child (root_dentry fs) nm2 mk2; mret (with_type t fs))
    (λ fs s', linked s' p nm (DDir (root_dentry fs))).
Proof.
  intros Hok Hp. eapply spec_bind; [by apply new_tmp_fs_spec|]. intros fs s1 Hok1 He1 Hl1. cbn beta in Hl1.
  pose proof (linked_valid _ _ _ _ Hl1) as Hv.
  eapply spec_bind; [by apply add_child_spec|]. intros ? s2 Hok2 He2 _.
  eapply spec_bind; [apply add_child_spec; [done|by eapply ext_dir]|]. intros ? s3 Hok3 He3 _.
  apply spec_ret; [done|]. simpl. apply (ext_linked s2 s3 p nm (DDir (root_dentry fs)) He3).
  by apply (ext_linked s1 s2).
Qed.

(** Unmounting the root succeeds, and leaves a tree without a mount. *)
Lemma umount_root s n fs cwd :
  dirs s !! root_dir s = Some n → mount_table s !! inl (root_dir s) = Some fs → mounted_dentry fs = None →
  ∃ s', unmount now (resolve_at now cwd) [SLASH] s = Done () s' ∧
        mount_table s' = delete (inl (root_dir s)) (mount_table s).
Proof.
  intros Hn Hm Hf. eexists. split.
  - unfold unmount, resolve_at, mbind, kst_bind. simpl. unfold lookup, get_dir, mbind, kst_bind, kget, kunwrap.
    rewrite Hn. simpl. rewrite Hm, Hf. reflexivity.
  - done.
Qed.

Lemma root_vfs_ok i f t : vfs_ok (root_vfs i f t) ∧ mount_root (root_vfs i f t) 0.
Proof.
  split; [|by eexists]. constructor; simpl.
  - intros d n [<- <-]%lookup_singleton_Some. lia.
  - by intros d n p [<- <-]%lookup_singleton_Some.
  - intros d n nm e [<- <-]%lookup_singleton_Some. simpl. by rewrite lookup_empty.
  - intros b n. by rewrite lookup_empty.
  - eexists. by rewrite lookup_singleton_eq.
  - by intros d n [<- <-]%lookup_singleton_Some.
  - intros k fs [<- <-]%lookup_singleton_Some. split; [done|]. simpl. unfold valid_dir. simpl. by eexists.
  - by intros k fs m n p [<- <-]%lookup_singleton_Some.
Qed.
End roots.

(** ** A tree of [tmpfs] directories: [/a/b] *)
Module TmpDemo.
Definition t0 : TimeSpec := mkTimeSpec 7 0.
#[local] Instance demo_backend : DirBackend := Tmp.TmpDir t0.
Definition new_inode : kst (@FS demo_backend) (@DI demo_backend) := Tmp.TmpDir_new t0.
Definition empty_vfs : Vfs := root_vfs (DB:=demo_backend) 0 (Tmp.mkStore {[0 := Meta.new 0 Dir]} 1) [118; 102; 97; 116].
Definition a_b : kst Vfs Z := c ← mkdir 0 [97]; mkdir c [98].
Definition demo_vfs : Vfs := default empty_vfs (kstate (a_b empty_vfs)).

Lemma demo_vfs_ok : vfs_ok demo_vfs.
Proof.
  destruct (root_vfs_ok (DB:=demo_backend) 0 (Tmp.mkStore {[0 := Meta.new 0 Dir]} 1) [118; 102; 97; 116]) as [Hok _].
  assert (gspec (¬ backend_total) empty_vfs a_b (λ _ _, True)) as H.
  { eapply spec_bind; [apply mkdir_spec; [done|by eexists]|]. intros c s Hok1 _ Hl. cbn beta in Hl.
    eapply spec_mono; [apply mkdir_spec; [done|by apply (linked_valid _ _ _ _ Hl)]|done]. }
  unfold demo_vfs, gspec in *. destruct (a_b empty_vfs); simpl; [by apply H..|done].
Qed.
Lemma demo_names nm : nm ∈ [[97]; [98]] → good_name nm.
Proof.
  rewrite !elem_of_cons, elem_of_nil. intros [->|[->|[]]]; (split; [done|split; [|done]]);
    (rewrite elem_of_cons, elem_of_nil; intros [H|[]]; discriminate H).
Qed.
Lemma demo_new f : ∃ i f', new_inode f = Done i f'.
Proof. unfold new_inode, Tmp.TmpDir_new, mbind, kst_bind. cbn. by eexists _, _. Qed.

Lemma path_roundtrip_witness :
  follow demo_vfs (root_dir demo_vfs) [[97]; [98]] = Some 2 ∧
  ∃ s', find_file t0 1 [47; 97; 47; 98] demo_vfs = Done (DDir 2) s' ∧ same_tree demo_vfs s'.
Proof.
  split; [vm_compute; reflexivity|].
  apply (path_roundtrip t0 demo_vfs [[97]; [98]] 2 1 demo_vfs_ok demo_names). vm_compute. reflexivity.
Defined.

Lemma mount_unmount_witness :
  ∃ s1 s2, mount t0 (resolve_at t0 0) (new_tmp_fs new_inode) [47; 97; 47; 98] [120] 0 demo_vfs = Done () s1 ∧
    unmount t0 (resolve_at t0 0) [47; 97; 47; 98] s1 = Done () s2 ∧ mount_table s2 = mount_table demo_vfs.
Proof.
  destruct (mount_unmount t0 new_inode demo_vfs [[97]] [98] 1 (DDir 2) 0 [120] demo_vfs_ok demo_names)
    as (s1 & s2 & H1 & _ & _ & H2 & _ & _ & _ & H3);
    [vm_compute; reflexivity|vm_compute; reflexivity|vm_compute; reflexivity|exact demo_new|].
  exists s1, s2. split; [exact H1|]. split; [exact H2|exact H3].
Defined.

(** Creating a file in a [tmpfs] directory panics ([todo!]). *)
Lemma tmpfs_mknod_panics : kcrashes (mknod 0 [99] Regular demo_vfs) = true.
Proof. vm_compute. reflexivity. Qed.

(** [remove_dir] counts the entries of the parent: with [/a/b] a directory with
    entries can be removed, and an empty directory that has one sibling
    cannot. *)
Lemma remove_dir_keeps_empty :
  kvalue (remove_dir 0 1 demo_vfs) = Some () ∧ child_at demo_vfs 1 [98] = Some (DDir 2) ∧
  match (c ← mkdir 0 [99]; remove_dir 0 c) demo_vfs with Fail e _ => e = ENOTEMPTY | _ => False end.
Proof. vm_compute. done. Qed.

(** Renaming a directory makes a new dentry without the cached entries: [/a/b]
    cannot be found under the new name. *)
Lemma rename_dir_loses_entries :
  match (_ ← rename_dir 1 0 [99]; find_file t0 0 [47; 99; 47; 98]) demo_vfs with
  | Fail e _ => e = ENOENT
  | _ => False
  end.
Proof. vm_compute. done. Qed.

(** A file system mounted where nothing was stays reachable after it is
    unmounted: only the mount table forgets it. *)
Lemma unmount_leaves_new_entry :
  match (_ ← mount t0 (resolve_at t0 0) (new_tmp_fs new_inode) [47; 109] [120] 0;
         _ ← unmount t0 (resolve_at t0 0) [47; 109]; find_file t0 0 [47; 109]) demo_vfs with
  | Done (DDir d) s => mount_table s !! inl d = None
  | _ => False
  end.
Proof. vm_compute. done. Qed.

(** The root can be unmounted, and the next search for a mount root panics. *)
Lemma umount_root_panics :
  kcrashes ((_ ← unmount t0 (resolve_at t0 0) [47]; same_mounted_fs (DDir 1) (DDir 2)) demo_vfs) = true.
Proof. vm_compute. done. Qed.
End TmpDemo.
