(* ===== verification/ProcFs.v ===== *)
(** * The text files of [procfs]

    [fs/procfs/src/mounts.rs], [meminfo.rs] and [mounts_info] of
    [libkernel/src/fs/mod.rs]. A backend gives its whole text to a reader that
    asks for it from the start with room enough, and panics on any other read. *)
From S2P Require Import Prelude BTree Address Defines Kst UserCheck UserAccess FdTable Inode Vfs VfsSpec.

(** [MountsInode::new] and [MeminfoInode::new] *)
Definition proc_meta (ino : Z) (now : TimeSpec) : InodeMeta := mkMeta ino Regular ∅ PAGE_SIZE now now now.

Section text.
Context {U : Type} `{UserMemory U}.
(** [read_inode_at] of a file whose text is [text]; the bytes of a kernel buffer are
    given and returned. *)
Definition read_text (text : list Z) (buf : ReadBuffer) (offset : Z) (kbuf : list Z) : kst U (Z * list Z) :=
  _ ← kassert (offset =? 0);
  let buf_len := match buf with RKernel => Z.of_nat (length kbuf) | RUser _ len => len end in
  let read_len := Z.min buf_len (Z.of_nat (length text)) in
  _ ← kassert (read_len =? Z.of_nat (length text));
  match buf with
  | RKernel => mret (read_len, text ++ drop (length text) kbuf)
  | RUser addr _ => _ ← check_write addr read_len; _ ← store_user addr text; mret (read_len, kbuf)
  end.
Definition proc_write : kst U Z := kfail EBADF.

Lemma read_text_spec text offset kbuf u :
  let len := Z.of_nat (length text) in
  (offset = 0 → len ≤ Z.of_nat (length kbuf) →
     read_text text RKernel offset kbuf u = Done (len, text ++ drop (length text) kbuf) u) ∧
  (offset = 0 → ∀ addr n, len ≤ n → um_ok u addr (length text) →
     ∃ u', read_text text (RUser addr n) offset kbuf u = Done (len, kbuf) u' ∧ um_load u' addr (length text) = Ok text) ∧
  (∀ buf, offset ≠ 0 ∨ (match buf with RKernel => Z.of_nat (length kbuf) | RUser _ n => n end) < len →
     read_text text buf offset kbuf u = Crash).
Proof.
  intros len. unfold read_text. split_and!.
  - intros -> Hl. fold len. rewrite Z.min_r by lia. change (0 =? 0) with true. rewrite Z.eqb_refl. done.
  - intros -> addr n Hl Hok. fold len. rewrite Z.min_r by lia. change (0 =? 0) with true. rewrite Z.eqb_refl.
    destruct (um_ok_write u addr _ Hok) as (u1 & Hc & Hok1 & _). destruct (um_ok_store u1 addr text Hok1) as (u2 & Hs & _ & Hld).
    exists u2. split; [|done]. unfold kassert, check_write, store_user, mbind, kst_bind, mret, kst_ret. unfold len. rewrite Hc. simpl.
    by rewrite Hs.
  - intros buf Hb. destruct (Z.eqb_spec offset 0) as [->|]; [|done]. destruct Hb as [?|Hb]; [done|].
    fold len. unfold kassert, mbind, kst_bind, mret, kst_ret. cbv zeta.
    by rewrite (proj2 (Z.eqb_neq _ len)) by (destruct buf; lia).
Qed.
End text.

Definition DUMMY_MEMINFO : list Z :=
  [77; 101; 109; 84; 111; 116; 97; 108; 58; 9; 49; 57; 49; 57; 56; 49; 48; 75; 66; 10; 77; 101; 109; 70; 114;
   101; 101; 58; 9; 49; 49; 52; 53; 49; 52; 75; 66; 10; 77; 101; 109; 65; 118; 97; 105; 108; 97; 98; 108;
   101; 58; 9; 49; 52; 50; 56; 53; 55; 75; 66; 10; 66; 117; 102; 102; 101; 114; 115; 58; 9; 49; 48; 48; 48;
   48; 75; 66; 10; 67; 97; 99; 104; 101; 100; 58; 9; 50; 48; 48; 48; 48; 75; 66; 10; 83; 119; 97; 112; 67;
   97; 99; 104; 101; 100; 58; 9; 51; 48; 48; 48; 48; 75; 66; 10; 83; 119; 97; 112; 84; 111; 116; 97; 108; 58;
   9; 52; 48; 48; 48; 48; 75; 66; 10; 83; 119; 97; 112; 70; 114; 101; 101; 58; 9; 53; 48; 48; 48; 48; 75; 66;
   10; 83; 104; 109; 101; 109; 58; 9; 54; 48; 48; 48; 48; 75; 66; 10; 83; 108; 97; 98; 58; 9; 55; 48; 48; 48;
   48; 75; 66; 10].

(** ** [mounts_info]

    The mounts come in the order of the hash table: a parameter. *)
Definition SPACE : Z := 32.
Definition NEWLINE : Z := 10.
(** ["{} {} {} {} 0 0"]; the flags are always displayed as ["rw"]. *)
Definition mount_line (fs : FileSystem) : list Z :=
  device_path fs ++ SPACE :: mount_point fs ++ SPACE :: fs_type fs ++
  [SPACE; 114; 119; SPACE; 48; SPACE; 48].
Definition mounts_text (l : list FileSystem) : list Z := concat ((λ fs, mount_line fs ++ [NEWLINE]) <$> l).
Definition mounts_info (order : gmap (Z + Z) FileSystem → list FileSystem) (t : gmap (Z + Z) FileSystem) : list Z :=
  mounts_text (order t).

(** A reader's view: lines, then fields *)
Fixpoint split_at (c : Z) (acc l : list Z) : list (list Z) :=
  match l with
  | [] => [rev acc]
  | x :: l => if x =? c then rev acc :: split_at c [] l else split_at c (x :: acc) l
  end.
Definition fields (line : list Z) : list (list Z) := split_at SPACE [] line.
Definition plain_text (l : list Z) : Prop := SPACE ∉ l ∧ NEWLINE ∉ l.

Lemma split_at_app c l1 : ∀ acc l2, c ∉ l1 → split_at c acc (l1 ++ c :: l2) = (rev acc ++ l1) :: split_at c [] l2.
Proof.
  induction l1 as [|x l1 IH]; intros acc l2 Hc; simpl.
  - by rewrite Z.eqb_refl, app_nil_r.
  - apply not_elem_of_cons in Hc as [Hne Hc]. rewrite (proj2 (Z.eqb_neq x c)) by done.
    rewrite IH by done. simpl. by rewrite <- app_assoc.
Qed.
Lemma mount_line_newline fs :
  plain_text (device_path fs) → plain_text (mount_point fs) → plain_text (fs_type fs) → NEWLINE ∉ mount_line fs.
Proof.
  intros [_ H1] [_ H2] [_ H3]. unfold mount_line. rewrite !elem_of_app, !elem_of_cons, !elem_of_app, !elem_of_cons, !elem_of_app.
  assert (NEWLINE ∉ [SPACE; 114; 119; SPACE; 48; SPACE; 48]) by (apply (bool_decide_eq_true_1 _); reflexivity).
  unfold NEWLINE, SPACE in *. intuition congruence.
Qed.

(** [/proc/mounts] tells a reader the mounts, each once. Split into lines and
    fields, the text lists for every entry of the mount table its device, mount
    point and type, in the order of the table, and nothing else, as long as these
    contain no space or newline. *)
Theorem mounts_roundtrip order t :
  (∀ x, order x ≡ₚ (map_to_list x).*2) →
  (∀ k fs, t !! k = Some fs → plain_text (device_path fs) ∧ plain_text (mount_point fs) ∧ plain_text (fs_type fs)) →
  ∃ l, l ≡ₚ (map_to_list t).*2 ∧
    fields <$> split_at NEWLINE [] (mounts_info order t) =
      ((λ fs, [device_path fs; mount_point fs; fs_type fs; [114; 119]; [48]; [48]]) <$> l) ++ [[[]]].
Proof.
  intros Ho Ht. exists (order t). split; [apply Ho|]. unfold mounts_info, mounts_text.
  assert (Hall : ∀ fs, fs ∈ order t → plain_text (device_path fs) ∧ plain_text (mount_point fs) ∧ plain_text (fs_type fs)).
  { intros fs. rewrite (Ho t), list_elem_of_fmap. intros ([k x] & -> & Hx%elem_of_map_to_list). by apply (Ht k). }
  induction (order t) as [|fs l IH]; [done|]. destruct (Hall fs ltac:(left)) as (H1 & H2 & H3).
  cbn [fmap list_fmap concat]. rewrite <- app_assoc. cbn [app].
  rewrite split_at_app by by apply mount_line_newline. cbn [rev app fmap list_fmap]. f_equal.
  - unfold fields, mount_line. destruct H1 as [H1 _], H2 as [H2 _], H3 as [H3 _].
    rewrite !split_at_app by done. done.
  - apply IH. intros x Hx. apply Hall. by right.
Qed.

(** A root file system and [/proc] *)
Module ProcDemo.
Definition demo_mounts : gmap (Z + Z) FileSystem :=
  <[inl 0 := mkFs 0 [109] [118; 102; 97; 116] None [SLASH] 0]> {[inl 1 := mkFs 1 [112] proc_type None [SLASH; 112] 0]}.
Lemma mounts_roundtrip_witness :
  ∃ l, l ≡ₚ (map_to_list demo_mounts).*2 ∧
    length (fields <$> split_at NEWLINE [] (mounts_info (λ x, (map_to_list x).*2) demo_mounts)) = S (length l).
Proof.
  destruct (mounts_roundtrip (λ x, (map_to_list x).*2) demo_mounts) as (l & H1 & H2).
  - intros x. reflexivity.
  - intros k fs Hk. assert (fs = mkFs 0 [109] [118; 102; 97; 116] None [SLASH] 0 ∨ fs = mkFs 1 [112] proc_type None [SLASH; 112] 0) as [-> | ->].
    { unfold demo_mounts in Hk. rewrite lookup_insert, lookup_singleton in Hk. repeat case_decide; simplify_eq; auto. }
    all: unfold plain_text; split_and!; apply (bool_decide_eq_true_1 _); reflexivity.
  - exists l. split; [exact H1|]. rewrite H2. rewrite length_app, length_fmap. simpl. lia.
Defined.
End ProcDemo.
