(* ===== verification/SysFs.v ===== *)
(** * Open files and the file system calls

    The open files of [libkernel/src/fs/file.rs] and the system calls of
    [kernel/src/syscall/fs.rs]. A process has a table of descriptors and a
    working directory; the directory files and the seekable files behind the
    descriptors are shared ([Arc]) and live in stores of their own. An [await]
    runs to its end: two calls on the same file do not interleave. *)
From S2P Require Import Prelude BTree Address Defines Kst UserCheck UserAccess FdTable Inode Vfs VfsSpec.

(** ** What the calls use of the rest of the kernel

    The state [FS] of the file systems also holds the user memory of the
    process and the kernel buffer that [sendfile] reads into. [user_cstr] is
    [check_cstr], [inode_read] and [inode_write] are [read_at] and [write_at] of
    a file or device, run to their end. *)
Class World {DB : DirBackend} := {
  PipeT : Type;
  UserT : Type;
  user_mem : UserMemory UserT;
  get_user : FS → UserT;
  set_user : UserT → FS → FS;
  user_cstr : Z → kst UserT str;
  set_kbuf : list Z → FS → FS;
  get_kbuf : FS → list Z;
  inode_read : BI → ReadBuffer → Z → kst FS Z;
  inode_write : BI → WriteBuffer → Z → kst FS Z;
  inode_resize : BI → Z → kst FS ();
  inode_ioctl : BI → Z → Z → kst FS Z;
  new_pipe : kst FS (PipeT * PipeT);
  pipe_read : PipeT → ReadBuffer → kst FS Z;
  pipe_write : PipeT → WriteBuffer → kst FS Z;
  pipe_meta : PipeT → FS → InodeMeta;
  new_tmp_dir : kst FS DI;
  new_tty : kst FS BI;
  new_rtc : kst FS BI;
  new_mounts : kst FS BI;
  new_meminfo : kst FS BI;
}.
#[export] Existing Instance user_mem.

(** ** Records of the ABI *)
Definition TimeSpec_bytes (t : TimeSpec) : list Z :=
  to_le_bytes 8 (wrap 64 (sec t)) ++ to_le_bytes 8 (wrap 64 (nsec t)).
Definition TimeSpec_of (bs : list Z) : TimeSpec :=
  mkTimeSpec (to_signed 64 (from_le_bytes (take 8 bs))) (to_signed 64 (from_le_bytes (take 8 (drop 8 bs)))).
(** [#[derive(PartialOrd)]]: seconds first. *)
Definition TimeSpec_lt (a b : TimeSpec) : bool := (sec a <? sec b) || ((sec a =? sec b) && (nsec a <? nsec b)).

Record Stat : Type := mkStat {
  st_dev : Z; st_ino : Z; st_mode : Z; st_nlink : Z; st_size : Z; st_blksize : Z; st_blocks : Z;
  st_atime : TimeSpec; st_mtime : TimeSpec; st_ctime : TimeSpec;
}.
Definition BLOCK_SIZE : Z := 512.
Definition stat_from_meta (m : InodeMeta) : Stat :=
  mkStat 114514 (ino m) (stat_mode (mode m)) 1 (data_len m) BLOCK_SIZE (div_ceil (data_len m) BLOCK_SIZE)
    (access_time m) (modify_time m) (change_time m).
(** [#[repr(C)]]; the owner, the group, [st_rdev] and the padding are zero. *)
Definition Stat_bytes (s : Stat) : list Z :=
  to_le_bytes 8 (st_dev s) ++ to_le_bytes 8 (st_ino s) ++ to_le_bytes 4 (st_mode s) ++ to_le_bytes 4 (st_nlink s) ++
  to_le_bytes 4 0 ++ to_le_bytes 4 0 ++ to_le_bytes 8 0 ++ to_le_bytes 8 0 ++ to_le_bytes 8 (st_size s) ++
  to_le_bytes 4 (st_blksize s) ++ to_le_bytes 4 0 ++ to_le_bytes 8 (st_blocks s) ++
  TimeSpec_bytes (st_atime s) ++ TimeSpec_bytes (st_mtime s) ++ TimeSpec_bytes (st_ctime s).
(** [FsStat] as [statfs64] fills it. *)
Definition FsStat_bytes (flags : Z) : list Z :=
  to_le_bytes 8 0 ++ to_le_bytes 8 BLOCK_SIZE ++ replicate 48 0 ++ to_le_bytes 8 NAME_MAX ++ to_le_bytes 8 0 ++
  to_le_bytes 8 flags ++ replicate 32 0.

(** [Dirent64]: the offsets of [d_off], [d_reclen], [d_type] and [d_name], and
    the alignment. *)
Module Dirent64.
Definition d_reclen : Z := 16.
Definition d_type : Z := 18.
Definition d_name : Z := 19.
Definition align : Z := 8.
End Dirent64.

Module PollEvents.
Definition POLLIN : Z := Z.shiftl 1 0.
Definition POLLPRI : Z := Z.shiftl 1 1.
Definition POLLOUT : Z := Z.shiftl 1 2.
Definition POLLERR : Z := Z.shiftl 1 3.
Definition POLLHUP : Z := Z.shiftl 1 4.
Definition POLLNVAL : Z := Z.shiftl 1 5.
Definition mask : Z := 0x3f.
End PollEvents.

(** [FileSystemType::from_str] *)
Inductive FileSystemType : Type := VFat | TmpFs | DevTmpFs | ProcFs.
Definition FileSystemType_from_str (s : str) : KResult FileSystemType :=
  if bool_decide (s = [118; 102; 97; 116]) then Ok VFat
  else if bool_decide (s = tmpfs_type) then Ok TmpFs
  else if bool_decide (s = devtmpfs_type) then Ok DevTmpFs
  else if bool_decide (s = proc_type) then Ok ProcFs
  else Err ENODEV.

Inductive SeekFrom : Type := Start (pos : Z) | End_ (offset : Z) | Current (offset : Z).

(** ** Open files *)
Record DirFile : Type := mkDirFile { df_dentry : Z; dirent_index : Z }.
Record SeekableFile : Type := mkSeekable { sf_dentry : Z; sf_offset : Z }.

Section sys.
Context {DB : DirBackend} {WD : World}.

Inductive File : Type :=
| FPipe (p : PipeT)
| FDir (f : Z)
| FSeekable (f : Z)
| FStream (b : Z).

(** The open files are in stores, like the dentries: a [FDir] or [FSeekable] is an
    [Arc]. An open file that the code frees with its last descriptor stays in the
    store, where no descriptor leads to it. *)
Record Sys : Type := mkSys {
  y_vfs : Vfs;
  fd_table : FdTable File;
  cwd : Z;
  dir_files : gmap Z DirFile;
  seek_files : gmap Z SeekableFile;
  next_file : Z;
}.
Definition set_vfs (v : Vfs) (s : Sys) : Sys :=
  mkSys v (fd_table s) (cwd s) (dir_files s) (seek_files s) (next_file s).
Definition set_table (t : FdTable File) (s : Sys) : Sys :=
  mkSys (y_vfs s) t (cwd s) (dir_files s) (seek_files s) (next_file s).
Definition set_cwd (d : Z) (s : Sys) : Sys :=
  mkSys (y_vfs s) (fd_table s) d (dir_files s) (seek_files s) (next_file s).
Definition set_dir_files (m : gmap Z DirFile) (s : Sys) : Sys :=
  mkSys (y_vfs s) (fd_table s) (cwd s) m (seek_files s) (next_file s).
Definition set_seek_files (m : gmap Z SeekableFile) (s : Sys) : Sys :=
  mkSys (y_vfs s) (fd_table s) (cwd s) (dir_files s) m (next_file s).

(** Part of the state at a time. *)
Definition on_vfs {A} (c : kst Vfs A) : kst Sys A := λ s,
  match c (y_vfs s) with
  | Done a v => Done a (set_vfs v s)
  | Fail e v => Fail e (set_vfs v s)
  | Crash => Crash
  end.
Definition on_table {A} (c : kst (FdTable File) A) : kst Sys A := λ s,
  match c (fd_table s) with
  | Done a t => Done a (set_table t s)
  | Fail e t => Fail e (set_table t s)
  | Crash => Crash
  end.
Definition on_world {A} (c : kst FS A) : kst Sys A := on_vfs (on_fs c).
Definition on_mem {A} (c : kst UserT A) : kst Sys A :=
  on_world (λ f, match c (get_user f) with
                 | Done a u => Done a (set_user u f)
                 | Fail e u => Fail e (set_user u f)
                 | Crash => Crash
                 end).
Definition cstr (ptr : Z) : kst Sys str := on_mem (user_cstr ptr).
(** [check_ptr_mut()?.write(..)] of a value given by its bytes *)
Definition put_user (ptr : Z) (bs : list Z) : kst Sys () :=
  on_mem (_ ← check_write ptr (Z.of_nat (length bs)); store_user ptr bs).

(** [Arc::new(DirFile::new(..))], [Arc::new(SeekableFile::new(..))] *)
Definition new_dir_file (d : Z) : kst Sys File :=
  s ← kget;
  let f := next_file s in
  _ ← kput (mkSys (y_vfs s) (fd_table s) (cwd s) (<[f := mkDirFile d 0]> (dir_files s)) (seek_files s) (f + 1));
  mret (FDir f).
Definition new_seekable (b : Z) : kst Sys File :=
  s ← kget;
  let f := next_file s in
  _ ← kput (mkSys (y_vfs s) (fd_table s) (cwd s) (dir_files s) (<[f := mkSeekable b 0]> (seek_files s)) (f + 1));
  mret (FSeekable f).
Definition get_dir_file (f : Z) : kst Sys DirFile := s ← kget; kunwrap (dir_files s !! f).
Definition get_seekable (f : Z) : kst Sys SeekableFile := s ← kget; kunwrap (seek_files s !! f).
Definition set_offset (f offset : Z) : kst Sys () :=
  kmodify (λ s, set_seek_files (alter (λ x, mkSeekable (sf_dentry x) offset) f (seek_files s)) s).

(** The inode of a file dentry, and its metadata. *)
Definition inode_of (b : Z) : kst Sys BI := n ← on_vfs (get_file b); mret (b_inode n).
Definition inode_meta (b : Z) : kst Sys InodeMeta :=
  i ← inode_of b; s ← kget; mret (file_meta i (v_fs (y_vfs s))).
Definition dentry_meta (e : DEntry) : kst Sys InodeMeta :=
  match e with
  | DDir d => n ← on_vfs (get_dir d); s ← kget; mret (dir_meta (d_inode n) (v_fs (y_vfs s)))
  | DBytes b => inode_meta b
  end.

(** [File::meta] *)
Definition File_meta (f : File) : kst Sys InodeMeta :=
  match f with
  | FDir f => x ← get_dir_file f; dentry_meta (DDir (df_dentry x))
  | FSeekable f => x ← get_seekable f; inode_meta (sf_dentry x)
  | FPipe p => s ← kget; mret (pipe_meta p (v_fs (y_vfs s)))
  | FStream b => inode_meta b
  end.

(** ** [FileDescriptor] *)
Definition fd_read (desc : FileDescriptor File) (buf : ReadBuffer) : kst Sys Z :=
  match fd_file desc with
  | FDir _ => kfail EBADF
  | FPipe p => on_world (pipe_read p buf)
  | FSeekable f =>
      x ← get_seekable f;
      i ← inode_of (sf_dentry x);
      nread ← on_world (inode_read i buf (sf_offset x));
      offset ← klift (uadd 64 (sf_offset x) nread);
      _ ← set_offset f offset;
      mret nread
  | FStream b => i ← inode_of b; on_world (inode_read i buf 0)
  end.

Definition fd_read_at (desc : FileDescriptor File) (buf : ReadBuffer) (offset : Z) : kst Sys Z :=
  match fd_file desc with
  | FSeekable f => x ← get_seekable f; i ← inode_of (sf_dentry x); on_world (inode_read i buf offset)
  | FDir _ => kfail EBADF
  | FStream _ | FPipe _ => kfail ESPIPE
  end.

Definition fd_write (desc : FileDescriptor File) (buf : WriteBuffer) : kst Sys Z :=
  match fd_file desc with
  | FSeekable f =>
      x ← get_seekable f;
      i ← inode_of (sf_dentry x);
      _ ← (if Flags.contains (fd_flags desc) OpenFlags.APPEND
           then m ← inode_meta (sf_dentry x); set_offset f (data_len m) else mret ());
      x ← get_seekable f;
      nwrite ← on_world (inode_write i buf (sf_offset x));
      offset ← klift (uadd 64 (sf_offset x) nwrite);
      _ ← set_offset f offset;
      mret nwrite
  | FStream b => i ← inode_of b; on_world (inode_write i buf 0)
  | FPipe p => on_world (pipe_write p buf)
  | FDir _ => kfail EBADF
  end.

(** [u64::checked_add_signed] *)
Definition checked_add_signed (x d : Z) : option Z :=
  if (0 <=? x + d) && (x + d <? 2 ^ 64) then Some (x + d) else None.
Definition fd_seek (desc : FileDescriptor File) (pos : SeekFrom) : kst Sys Z :=
  match fd_file desc with
  | FSeekable f =>
      x ← get_seekable f;
      new_pos ←
        match pos with
        | Start pos => mret pos
        | End_ offset => m ← inode_meta (sf_dentry x); kok_or (checked_add_signed (data_len m) offset) EOVERFLOW
        | Current offset => kok_or (checked_add_signed (sf_offset x) offset) EOVERFLOW
        end;
      _ ← set_offset f new_pos;
      mret new_pos
  | FStream _ | FPipe _ => kfail ESPIPE
  | FDir _ => kcrash
  end.

Definition fd_ioctl (desc : FileDescriptor File) (request argp : Z) : kst Sys Z :=
  m ← File_meta (fd_file desc);
  if negb (bool_decide (mode m = CharDevice)) then kfail ENOTTY
  else
    match fd_file desc with
    | FStream b => i ← inode_of b; on_world (inode_ioctl i request argp)
    | _ => kfail ENOTTY
    end.

(** ** [getdirents] *)

(** The record of an entry at address [ptr]: its length and what is written. *)
Definition reclen (ptr : Z) (name : str) : Z :=
  let name_len := Z.min (Z.of_nat (length name)) NAME_MAX in
  div_ceil (ptr + (Dirent64.d_name + name_len + 1)) Dirent64.align * Dirent64.align - ptr.
Definition put_dirent (ptr : Z) (name : str) (m : InodeMeta) : kst UserT () :=
  let name_len := Z.to_nat (Z.min (Z.of_nat (length name)) NAME_MAX) in
  _ ← store_user ptr (to_le_bytes 8 (ino m));
  _ ← store_user (ptr + Dirent64.d_reclen) (to_le_bytes 2 (wrap 16 (reclen ptr name)));
  _ ← store_user (ptr + Dirent64.d_type) [wrap 8 (Z.shiftr (stat_mode (mode m)) 12)];
  _ ← store_user (ptr + Dirent64.d_name) (take name_len name);
  store_user (ptr + Dirent64.d_name + Z.of_nat name_len) [0].
Fixpoint getdirents_loop (f end_ : Z) (ptr : Z) (l : list (str * DEntry)) : kst Sys Z :=
  match l with
  | [] => mret ptr
  | (name, child) :: l =>
      let name_len := Z.min (Z.of_nat (length name)) NAME_MAX in
      if end_ <? ptr + (Dirent64.d_name + name_len + 1) then mret ptr
      else
        m ← dentry_meta child;
        _ ← on_mem (put_dirent ptr name m);
        _ ← kmodify (λ s, set_dir_files
              (alter (λ x, mkDirFile (df_dentry x) (dirent_index x + 1)) f (dir_files s)) s);
        getdirents_loop f end_ (ptr + reclen ptr name) l
  end.
(** [children.iter()]: in the order of the names. *)
Fixpoint str_leb (a b : str) : bool :=
  match a, b with
  | [], _ => true
  | _ :: _, [] => false
  | x :: a, y :: b => if x <? y then true else if y <? x then false else str_leb a b
  end.
Fixpoint insert_name (x : str * DEntry) (l : list (str * DEntry)) : list (str * DEntry) :=
  match l with
  | [] => [x]
  | y :: l => if str_leb x.1 y.1 then x :: y :: l else y :: insert_name x l
  end.
Definition sorted_children (c : gmap str DEntry) : list (str * DEntry) :=
  foldr insert_name [] (map_to_list c).
Definition getdirents (f addr len : Z) : kst Sys Z :=
  x ← get_dir_file f;
  _ ← on_vfs (read_dir (df_dentry x));
  n ← on_vfs (get_dir (df_dentry x));
  ptr ← getdirents_loop f (addr + len) addr
          (drop (Z.to_nat (dirent_index x)) (sorted_children (d_children n)));
  mret (ptr - addr).

(** ** System calls: descriptors and data *)
Section calls.
Variable now : TimeSpec.

Definition get_desc (fd : Z) : kst Sys (FileDescriptor File) :=
  s ← kget; kok_or (fd_get (fd_table s) fd) EBADF.

Definition sys_ioctl (fd request argp : Z) : kst Sys Z := desc ← get_desc fd; fd_ioctl desc request argp.

Definition sys_lseek (fd offset whence : Z) : kst Sys Z :=
  file ← get_desc fd;
  pos ← (if whence =? SEEK_SET then mret (Start (wrap 64 offset))
         else if whence =? SEEK_END then mret (End_ offset)
         else if whence =? SEEK_CUR then mret (Current offset)
         else kfail EINVAL);
  fd_seek file pos.

Definition sys_read (fd addr len : Z) : kst Sys Z :=
  file ← on_table (prepare_io true fd); fd_read file (RUser addr len).
Definition sys_write (fd addr len : Z) : kst Sys Z :=
  file ← on_table (prepare_io false fd); fd_write file (WUser addr len).

(** The loops of [readv] and [writev] over the vector of buffers; an [IoVec] is
    an address and a length. *)
Definition get_iov (ptr : Z) : kst Sys (Z * Z) :=
  bs ← on_mem (_ ← check_read ptr 16; load_user ptr 16);
  mret (from_le_bytes (take 8 bs), from_le_bytes (take 8 (drop 8 bs))).
Definition next_iov (ptr : Z) : kst Sys Z := o ← klift (UserCheck_add ptr 16 1); kok_or o EINVAL.
Fixpoint readv_loop (file : FileDescriptor File) (n : nat) (io_vec tot_read : Z) : kst Sys Z :=
  match n with
  | O => mret tot_read
  | S n =>
      '(base, len) ← get_iov io_vec;
      if negb (len =? 0) then
        base ← kok_or (UserCheck_new base) EINVAL;
        nread ← fd_read file (RUser base len);
        if nread =? 0 then mret tot_read
        else
          tot_read ← klift (uadd 64 tot_read nread);
          io_vec ← next_iov io_vec;
          readv_loop file n io_vec tot_read
      else
        io_vec ← next_iov io_vec;
        readv_loop file n io_vec tot_read
  end.
Definition sys_readv (fd io_vec vec_len : Z) : kst Sys Z :=
  file ← on_table (prepare_io true fd); readv_loop file (Z.to_nat vec_len) io_vec 0.
Fixpoint writev_loop (file : FileDescriptor File) (n : nat) (io_vec total : Z) : kst Sys Z :=
  match n with
  | O => mret total
  | S n =>
      '(base, len) ← get_iov io_vec;
      total ←
        (if negb (len =? 0) then
           base ← kok_or (UserCheck_new base) EINVAL;
           nwrite ← fd_write file (WUser base len);
           klift (uadd 64 total nwrite)
         else mret total);
      io_vec ← next_iov io_vec;
      writev_loop file n io_vec total
  end.
Definition sys_writev (fd io_vec vec_len : Z) : kst Sys Z :=
  file ← on_table (prepare_io false fd); writev_loop file (Z.to_nat vec_len) io_vec 0.

(** [sendfile64]: the bytes go through a kernel buffer of [count] bytes. *)
Definition sys_sendfile64 (out_fd in_fd : Z) (offset_ptr : option Z) (count : Z) : kst Sys Z :=
  source ← on_table (prepare_io true in_fd);
  target ← on_table (prepare_io false out_fd);
  _ ← on_world (kmodify (set_kbuf (replicate (Z.to_nat count) 0)));
  n_read ←
    match offset_ptr with
    | Some ptr =>
        offset ← on_mem (read_user u64_codec ptr);
        n_read ← fd_read_at source RKernel offset;
        new_offset ← klift (uadd 64 offset n_read);
        _ ← on_mem (write_user u64_codec ptr new_offset);
        mret n_read
    | None => fd_read source RKernel
    end;
  s ← kget;
  fd_write target (WKernel (take (Z.to_nat n_read) (get_kbuf (v_fs (y_vfs s))))).

(** [pipe2]: the descriptors are written as two [i32]. *)
Definition sys_pipe2 (pipe_fd flags : Z) : kst Sys Z :=
  _ ← on_mem (check_write pipe_fd 8);
  flags ← kunwrap (OpenFlags.from_bits flags);
  '(read_end, write_end) ← on_world new_pipe;
  s ← kget;
  match add_many (fd_table s) [mkFd (FPipe read_end) (OpenFlags.with_read_only flags);
                               mkFd (FPipe write_end) (OpenFlags.with_write_only flags)] with
  | None => kfail EMFILE
  | Some (fds, t) =>
      _ ← kmodify (set_table t);
      _ ← on_mem (store_user pipe_fd (concat ((λ fd, to_le_bytes 4 (wrap 32 fd)) <$> fds)));
      mret 0
  end.

Definition sys_getdents64 (fd addr len : Z) : kst Sys Z :=
  s ← kget;
  match fd_file <$> fd_get (fd_table s) fd with
  | Some (FDir f) =>
      _ ← on_mem (check_write addr len);
      getdirents f addr len
  | _ => kfail EBADF
  end.

Definition sys_newfstat (fd stat_buf : Z) : kst Sys Z :=
  file ← get_desc fd;
  m ← File_meta (fd_file file);
  _ ← put_user stat_buf (Stat_bytes (stat_from_meta m));
  mret 0.

(** [ppoll]: every open file is ready; a [PollFd] is eight bytes. *)
Fixpoint ppoll_loop (n : nat) (ptr ret : Z) : kst Sys Z :=
  match n with
  | O => mret ret
  | S n =>
      bs ← on_mem (load_user ptr 8);
      let fd := to_signed 32 (from_le_bytes (take 4 bs)) in
      let events := from_le_bytes (take 2 (drop 4 bs)) in
      '(revents, ret) ←
        (if fd <? 0 then mret (0, ret)
         else
           s ← kget;
           match fd_get (fd_table s) fd with
           | Some _ =>
               events ← kunwrap (Flags.from_bits PollEvents.mask events);
               mret (Z.land events (Z.lor PollEvents.POLLIN PollEvents.POLLOUT), ret + 1)
           | None => mret (PollEvents.POLLNVAL, ret)
           end);
      _ ← on_mem (store_user ptr (take 6 bs ++ to_le_bytes 2 revents));
      ppoll_loop n (ptr + 8) ret
  end.
Definition sys_ppoll (fds len : Z) (timeout : option Z) : kst Sys Z :=
  _ ← match timeout with
      | Some ptr =>
          bs ← on_mem (_ ← check_read ptr 16; load_user ptr 16);
          if TimeSpec_lt (TimeSpec_of bs) TimeSpec_default then kfail EINVAL else mret ()
      | None => mret ()
      end;
  s ← kget;
  if limit (fd_table s) <=? len then kfail EINVAL
  else
    _ ← on_mem (check_write fds (len * 8));
    ppoll_loop (Z.to_nat len) fds 0.

(** ** System calls: paths *)

(** The directory a descriptor is open on. *)
Definition dir_of_fd (s : Sys) (fd : Z) : option (option Z) :=
  match fd_get (fd_table s) fd with
  | None => None
  | Some desc =>
      Some match fd_file desc with
           | FDir f => df_dentry <$> dir_files s !! f
           | _ => None
           end
  end.
Definition resolve (dir_fd : Z) (p : str) : kst Sys PathToInode :=
  s ← kget; on_vfs (resolve_path_with_dir_fd now (cwd s) (dir_of_fd s) dir_fd p).
Definition lookup_last (p2i : PathToInode) : kst Sys (option DEntry) :=
  on_vfs (lookup now (p2i_dir p2i) (last_component p2i)).
(** [p2i.dir.lookup(p2i.last_component).ok_or(errno::ENOENT)?] *)
Definition find_last (p2i : PathToInode) : kst Sys DEntry := o ← lookup_last p2i; kok_or o ENOENT.

Definition sys_mkdirat (dir_fd ptr : Z) : kst Sys Z :=
  p ← cstr ptr;
  p2i ← resolve dir_fd p;
  _ ← on_vfs (mkdir (p2i_dir p2i) (last_component p2i));
  mret 0.

(** The file [openat] opens for an existing entry. *)
Definition open_existing (flags : Z) (e : DEntry) : kst Sys File :=
  if Flags.contains flags (Flags.union OpenFlags.CREATE OpenFlags.EXCL) then kfail EEXIST
  else
    match e with
    | DDir d =>
        if Flags.intersects flags (Flags.union OpenFlags.WRONLY OpenFlags.RDWR) then kfail EISDIR
        else new_dir_file d
    | DBytes b =>
        if Flags.contains flags OpenFlags.DIRECTORY then kfail ENOTDIR
        else
          m ← inode_meta b;
          _ ← (if Flags.contains flags OpenFlags.TRUNCATE then
                 '(_, w) ← klift (OpenFlags.read_write flags);
                 if (w : bool) && bool_decide (mode m = Regular)
                 then i ← inode_of b; on_world (inode_resize i 0) else mret ()
               else mret ());
          if bool_decide (mode m = Regular ∨ mode m = BlockDevice) then new_seekable b
          else mret (FStream b)
    end.
Definition sys_openat (dir_fd ptr flags : Z) : kst Sys Z :=
  p ← cstr ptr;
  flags ← kunwrap (OpenFlags.from_bits flags);
  _ ← kassert (negb (Flags.intersects flags (Flags.union OpenFlags.ASYNC OpenFlags.DSYNC)));
  p2i ← resolve dir_fd p;
  o ← lookup_last p2i;
  new_file ←
    match o with
    | Some final_dentry => open_existing flags final_dentry
    | None =>
        if negb (Flags.contains flags OpenFlags.CREATE) then kfail ENOENT
        else
          b ← on_vfs (mknod (p2i_dir p2i) (last_component p2i) Regular);
          new_seekable b
    end;
  s ← kget;
  o ← klift (fd_add (fd_table s) (mkFd new_file flags));
  '(ret_fd, t) ← kok_or o EMFILE;
  _ ← kmodify (set_table t);
  mret ret_fd.

(** [u32::try_from(flags)] and [FstatFlags::from_bits] *)
Definition fstat_flags (flags : Z) : kst Sys Z :=
  if flags <? 2 ^ 32 then kok_or (Flags.from_bits FstatFlags.mask flags) EINVAL else kfail EINVAL.
Definition sys_newfstatat (dir_fd ptr stat_buf flags : Z) : kst Sys Z :=
  flags ← fstat_flags flags;
  p ← cstr ptr;
  if bool_decide (p = []) && negb (Flags.contains flags FstatFlags.AT_EMPTY_PATH) then kfail ENOENT
  else
    _ ← on_mem (check_write stat_buf 120);
    m ← (if bool_decide (p = []) then file ← get_desc dir_fd; File_meta (fd_file file)
         else p2i ← resolve dir_fd p; e ← find_last p2i; dentry_meta e);
    _ ← on_mem (store_user stat_buf (Stat_bytes (stat_from_meta m)));
    mret 0.

Definition check_not_mounted (e : DEntry) : kst Sys () :=
  b ← on_vfs (is_mount_root e); if (b : bool) then kfail EBUSY else mret ().
Definition sys_unlinkat (dir_fd ptr flags : Z) : kst Sys Z :=
  p ← cstr ptr;
  flags ← kunwrap (Flags.from_bits FstatFlags.mask flags);
  p2i ← resolve dir_fd p;
  if Flags.contains flags FstatFlags.AT_REMOVEDIR then
    _ ← match last_type p2i with
        | Normal => mret ()
        | Dot => kfail EINVAL
        | DotDot => kfail ENOTEMPTY
        | Root => kfail EBUSY
        end;
    e ← find_last p2i;
    _ ← check_not_mounted e;
    match e with
    | DBytes _ => kfail ENOTDIR
    | DDir d => _ ← on_vfs (remove_dir (p2i_dir p2i) d); mret 0
    end
  else if negb (bool_decide (last_type p2i = Normal)) then kfail EISDIR
  else
    e ← find_last p2i;
    _ ← check_not_mounted e;
    match e with
    | DDir _ => kfail EISDIR
    | DBytes b =>
        n ← on_vfs (get_file b);
        _ ← on_vfs (unlink (b_parent n) (b_name n));
        mret 0
    end.

Definition sys_linkat (flags : Z) : kst Sys Z := if negb (flags =? 0) then kfail EINVAL else kcrash.

(** Inside [mount] and [unmount] paths start at the working directory. *)
Definition resolve_cwd (s : Sys) : str → kst Vfs PathToInode :=
  resolve_path_with_dir_fd now (cwd s) (dir_of_fd s) AT_FDCWD.
Definition sys_umount (target flags : Z) : kst Sys Z :=
  _ ← kunwrap (Flags.from_bits UnmountFlags.mask flags);
  target ← cstr target;
  s ← kget;
  _ ← on_vfs (unmount now (resolve_cwd s) target);
  mret 0.
Definition sys_mount (source target fs_type flags : Z) (data : option Z) : kst Sys Z :=
  source ← cstr source;
  target ← cstr target;
  t ← cstr fs_type;
  fs_type ← klift (FileSystemType_from_str t);
  flags ← kunwrap (Flags.from_bits MountFlags.mask flags);
  _ ← match data with Some ptr => _ ← cstr ptr; mret () | None => mret () end;
  s ← kget;
  _ ← on_vfs (mount now (resolve_cwd s)
        match fs_type with
        | VFat | TmpFs => new_tmp_fs new_tmp_dir
        | DevTmpFs => new_dev_fs new_tmp_dir new_tty new_rtc
        | ProcFs => new_proc_fs new_tmp_dir new_mounts new_meminfo
        end target source flags);
  mret 0.

Definition sys_chdir (ptr : Z) : kst Sys Z :=
  p ← cstr ptr;
  p2i ← resolve AT_FDCWD p;
  e ← find_last p2i;
  match e with
  | DBytes _ => kfail ENOTDIR
  | DDir d => _ ← kmodify (set_cwd d); mret 0
  end.

(** [getcwd]: the names up to the root, the length they need with the slashes
    and the final zero, and the copy. *)
Definition sys_getcwd (addr len : Z) : kst Sys Z :=
  s ← kget;
  dirs ← kunwrap (names_up (Z.to_nat (next_id (y_vfs s))) (dirs (y_vfs s)) (cwd s));
  let path_len := 2 + foldr (λ nm n, Z.of_nat (length nm) + n) 0 dirs + Z.max 0 (Z.of_nat (length dirs) - 1) in
  if len <? path_len then kfail ERANGE
  else
    _ ← on_mem (check_write addr len);
    let path := SLASH :: joined (reverse dirs) ++ [0] in
    _ ← kassert (Z.of_nat (length path) <=? len);
    _ ← on_mem (store_user addr path);
    mret addr.

Definition sys_statfs64 (ptr buf : Z) : kst Sys Z :=
  p ← cstr ptr;
  s ← kget;
  p2i ← on_vfs (path_walk now (root_dir (y_vfs s)) p);
  e ← find_last p2i;
  r ← on_vfs (mounted_root_of (Z.to_nat (next_id (y_vfs s))) e);
  k ← on_vfs (entry_key r);
  s ← kget;
  fs ← kunwrap (mount_table (y_vfs s) !! k);
  _ ← put_user buf (FsStat_bytes (fs_flags fs));
  mret 0.

Definition sys_faccessat (dir_fd ptr mode : Z) : kst Sys Z :=
  _ ← kok_or (Flags.from_bits FaccessatMode.mask mode) EINVAL;
  p ← cstr ptr;
  p2i ← resolve dir_fd p;
  _ ← find_last p2i;
  mret 0.

(** [utimensat]; a modification time that is given is taken from [atime]. *)
Definition set_entry_meta (e : DEntry) (f : InodeMeta → InodeMeta) : kst Sys () :=
  match e with
  | DDir d => n ← on_vfs (get_dir d);
              on_world (kmodify (λ w, dir_set_meta (d_inode n) (f (dir_meta (d_inode n) w)) w))
  | DBytes b => i ← inode_of b;
                on_world (kmodify (λ w, file_set_meta i (f (file_meta i w)) w))
  end.
Definition new_times (times : option (TimeSpec * TimeSpec)) : option TimeSpec * option TimeSpec :=
  match times with
  | Some (atime, mtime) =>
      (if nsec atime =? UTIME_NOW then Some now else if nsec atime =? UTIME_OMIT then None else Some atime,
       if nsec mtime =? UTIME_NOW then Some now else if nsec mtime =? UTIME_OMIT then None else Some atime)
  | None => (Some now, Some now)
  end.
Definition apply_times (ts : option TimeSpec * option TimeSpec) (m : InodeMeta) : InodeMeta :=
  let m := match ts.1 with Some t => Meta.with_access m t | None => m end in
  match ts.2 with Some t => Meta.with_modify m t | None => m end.
Definition sys_utimensat (dir_fd ptr : Z) (times : option Z) (flags : Z) : kst Sys Z :=
  flags ← fstat_flags flags;
  p ← cstr ptr;
  if bool_decide (p = []) && negb (Flags.contains flags FstatFlags.AT_EMPTY_PATH) then kfail ENOENT
  else
    p2i ← resolve dir_fd p;
    file ← find_last p2i;
    times ← match times with
            | Some ptr =>
                bs ← on_mem (_ ← check_read ptr 32; load_user ptr 32);
                mret (Some (TimeSpec_of (take 16 bs), TimeSpec_of (drop 16 bs)))
            | None => mret None
            end;
    _ ← set_entry_meta file (apply_times (new_times times));
    mret 0.

(** The walk of [renameat2] from the new parent to the root: does it meet the
    directory that is moved? *)
Fixpoint is_ancestor (fuel : nat) (m : gmap Z DEntryDir) (old curr : Z) : option bool :=
  match fuel, m !! curr with
  | S fuel, Some n =>
      if curr =? old then Some true
      else match d_parent n with Some p => is_ancestor fuel m old p | None => Some false end
  | _, _ => None
  end.
Definition sys_renameat2 (old_dir_fd old_ptr new_dir_fd new_ptr flags : Z) : kst Sys Z :=
  flags ← kok_or (Flags.from_bits Renameat2Flags.mask flags) EINVAL;
  if Flags.intersects flags (Flags.union Renameat2Flags.RENAME_EXCHANGE Renameat2Flags.RENAME_WHITEOUT)
  then kfail UNSUPPORTED
  else
    old_path ← cstr old_ptr;
    new_path ← cstr new_ptr;
    old_p2i ← resolve old_dir_fd old_path;
    _ ← (if negb (bool_decide (last_type old_p2i = Normal)) then kfail EBUSY else mret ());
    old_dentry ← find_last old_p2i;
    _ ← check_not_mounted old_dentry;
    new_p2i ← resolve new_dir_fd new_path;
    _ ← (if negb (bool_decide (last_type new_p2i = Normal)) then kfail EBUSY else mret ());
    new_dentry ← lookup_last new_p2i;
    same ←
      match new_dentry with
      | None => mret false
      | Some e =>
          k1 ← on_vfs (entry_key old_dentry);
          k2 ← on_vfs (entry_key e);
          if bool_decide (k1 = k2) then mret true
          else _ ← check_not_mounted e; mret false
      end;
    if (same : bool) then mret 0
    else
      let new_anchor := default (DDir (p2i_dir new_p2i)) new_dentry in
      b ← on_vfs (same_mounted_fs old_dentry new_anchor);
      if negb b then kfail EXDEV
      else
        let noreplace := Flags.contains flags Renameat2Flags.RENAME_NOREPLACE in
        match old_dentry with
        | DDir old_dir =>
            s ← kget;
            b ← kunwrap (is_ancestor (Z.to_nat (next_id (y_vfs s))) (dirs (y_vfs s)) old_dir (p2i_dir new_p2i));
            if (b : bool) then kfail EINVAL
            else
              match new_dentry with
              | Some _ => if noreplace then kfail EEXIST else kfail UNSUPPORTED
              | None => _ ← on_vfs (rename_dir old_dir (p2i_dir new_p2i) (last_component new_p2i)); mret 0
              end
        | DBytes old_bytes =>
            match new_dentry with
            | Some e =>
                if noreplace then kfail EEXIST
                else
                  match e with
                  | DDir _ => kfail EISDIR
                  | DBytes _ =>
                      _ ← on_vfs (rename_file old_bytes (p2i_dir new_p2i) (last_component new_p2i)); mret 0
                  end
            | None => _ ← on_vfs (rename_file old_bytes (p2i_dir new_p2i) (last_component new_p2i)); mret 0
            end
        end.
End calls.
End sys.
