(* ===== verification/SysFsSpec.v ===== *)
(** * What the file system calls promise

    Every call keeps the invariant of the tree and of the open files; paths,
    working directories, renames and seeks behave as documented. *)
From S2P Require Import Prelude BTree Address Defines Kst UserCheck UserAccess FdTable Inode Vfs VfsSpec SysFs.

Create HintDb sspec.

Section inv.
Context {DB : DirBackend} {WD : World}.
Variable now : TimeSpec.
Implicit Types (s : Sys).

(** ** The invariant *)
Definition valid_file s (f : File) : Prop :=
  match f with
  | FPipe _ => True
  | FDir f => is_Some (dir_files s !! f)
  | FSeekable f => is_Some (seek_files s !! f)
  | FStream b => is_Some (Vfs.files (y_vfs s) !! b)
  end.
Record sys_ok s : Prop := {
  sy_vfs : vfs_ok (y_vfs s);
  sy_cwd : valid_dir (y_vfs s) (cwd s);
  sy_fd fd desc : FdTable.files (fd_table s) !! fd = Some desc → valid_file s (fd_file desc);
  sy_dir f x : dir_files s !! f = Some x → f < next_file s ∧ valid_dir (y_vfs s) (df_dentry x);
  sy_seek f x : seek_files s !! f = Some x → f < next_file s ∧ is_Some (Vfs.files (y_vfs s) !! sf_dentry x);
}.
(** Dentries and open files stay. *)
Definition sext s s' : Prop :=
  ext (y_vfs s) (y_vfs s') ∧
  (∀ f x, dir_files s !! f = Some x → ∃ x', dir_files s' !! f = Some x' ∧ df_dentry x' = df_dentry x) ∧
  (∀ f x, seek_files s !! f = Some x → ∃ x', seek_files s' !! f = Some x' ∧ sf_dentry x' = sf_dentry x).

Lemma sext_refl s : sext s s.
Proof. split_and!; [apply ext_refl|eauto..]. Qed.
Lemma sext_trans s1 s2 s3 : sext s1 s2 → sext s2 s3 → sext s1 s3.
Proof.
  intros (A & B & C) (A' & B' & C'). split_and!; [by eapply ext_trans| |].
  - intros f x Hf. destruct (B f x Hf) as (y & Hy & Ey). destruct (B' f y Hy) as (z & Hz & Ez). exists z. split; congruence.
  - intros f x Hf. destruct (C f x Hf) as (y & Hy & Ey). destruct (C' f y Hy) as (z & Hz & Ez). exists z. split; congruence.
Qed.
Lemma sext_dir s s' d : sext s s' → valid_dir (y_vfs s) d → valid_dir (y_vfs s') d.
Proof. intros (A & _). by apply ext_dir. Qed.
Lemma sext_entry s s' e : sext s s' → valid_entry (y_vfs s) e → valid_entry (y_vfs s') e.
Proof. intros (A & _). by apply ext_valid. Qed.
Lemma sext_linked s s' d nm e : sext s s' → linked (y_vfs s) d nm e → linked (y_vfs s') d nm e.
Proof. intros (A & _). by apply ext_linked. Qed.
Lemma sext_file s s' f : sext s s' → valid_file s f → valid_file s' f.
Proof.
  intros (A & B & C). destruct f as [p|f|f|b]; simpl; [done| | |].
  - intros [x Hx]. destruct (B f x Hx) as (y & Hy & _). by exists y.
  - intros [x Hx]. destruct (C f x Hx) as (y & Hy & _). by exists y.
  - by apply (ext_valid _ _ (DBytes b)).
Qed.
Hint Resolve sext_refl sext_dir sext_entry sext_linked sext_file : core.

(** ** Specifications *)
Definition sspec {A} s (c : kst Sys A) (R : A → Sys → Prop) : Prop :=
  match c s with
  | Done a s' => sys_ok s' ∧ sext s s' ∧ R a s'
  | Fail _ s' => sys_ok s' ∧ sext s s'
  | Crash => True
  end.

Lemma ss_bind {A B} s (c : kst Sys A) (f : A → kst Sys B) R Q :
  sspec s c R → (∀ a s', sys_ok s' → sext s s' → R a s' → sspec s' (f a) Q) → sspec s (c ≫= f) Q.
Proof.
  unfold sspec, mbind, kst_bind. intros Hc Hf. destruct (c s) as [a s1|e s1|]; [|done..].
  destruct Hc as (Hok & He & HR). specialize (Hf a s1 Hok He HR).
  destruct (f a s1) as [b s2|e s2|]; [| |done].
  - destruct Hf as (? & ? & ?). eauto using sext_trans.
  - destruct Hf as (? & ?). eauto using sext_trans.
Qed.
Lemma ss_mono {A} s (c : kst Sys A) (R Q : A → Sys → Prop) :
  sspec s c R → (∀ a s', sys_ok s' → R a s' → Q a s') → sspec s c Q.
Proof. unfold sspec. intros Hc HQ. destruct (c s); [|done..]. naive_solver. Qed.
Lemma ss_ret {A} s (a : A) (R : A → Sys → Prop) : sys_ok s → R a s → sspec s (mret a) R.
Proof. unfold sspec. simpl. eauto. Qed.
Lemma ss_fail {A} s e (R : A → Sys → Prop) : sys_ok s → sspec s (kfail e) R.
Proof. unfold sspec. simpl. eauto. Qed.
Lemma ss_crash {A} s (R : A → Sys → Prop) : sspec s kcrash R.
Proof. done. Qed.
Lemma ss_get s : sys_ok s → sspec s kget (λ a s', s' = s ∧ a = s).
Proof. unfold sspec. simpl. eauto. Qed.
Lemma ss_ok_or {A} s (o : option A) e : sys_ok s → sspec s (kok_or o e) (λ a s', s' = s ∧ o = Some a).
Proof. intros Hok. destruct o; [by apply ss_ret|by apply ss_fail]. Qed.
Lemma ss_unwrap {A} s (o : option A) : sys_ok s → sspec s (kunwrap o) (λ a s', s' = s ∧ o = Some a).
Proof. intros Hok. destruct o; [by apply ss_ret|done]. Qed.
Lemma ss_lift {A} s (o : KResult A) : sys_ok s → sspec s (klift o) (λ a s', s' = s ∧ o = Ok a).
Proof. intros Hok. unfold sspec, klift. destruct o; [|eauto|done]. eauto. Qed.
Lemma ss_assert s b : sys_ok s → sspec s (kassert b) (λ _ _, True).
Proof. intros Hok. unfold sspec, kassert. destruct b; [|done]. eauto. Qed.

(** A step of the tree. *)
Lemma set_vfs_ok s v : sys_ok s → vfs_ok v → ext (y_vfs s) v → sys_ok (set_vfs v s) ∧ sext s (set_vfs v s).
Proof.
  intros [H1 H2 H3 H4 H5] Hv He. assert (sext s (set_vfs v s)) as Hs by (split_and!; [done|simpl; eauto..]).
  split; [|done]. constructor; simpl; [done|by eapply ext_dir| | |].
  - intros fd desc Hd. apply (sext_file s); [done|]. by eapply H3.
  - intros f x Hx. destruct (H4 f x Hx). split; [done|by eapply ext_dir].
  - intros f x Hx. destruct (H5 f x Hx) as [? Hb]. split; [done|].
    by apply (ext_valid _ _ (DBytes (sf_dentry x)) He).
Qed.
Lemma ss_vfs {A} s (c : kst Vfs A) R :
  sys_ok s → gspec True (y_vfs s) c R →
  sspec s (on_vfs c) (λ a s', R a (y_vfs s') ∧ s' = set_vfs (y_vfs s') s).
Proof.
  intros Hok Hc. unfold sspec, on_vfs, gspec in *. destruct (c (y_vfs s)) as [a v|e v|]; [| |done].
  - destruct Hc as (Hv & He & HR). destruct (set_vfs_ok s v Hok Hv He). done.
  - destruct Hc as (Hv & He). by apply set_vfs_ok.
Qed.
Lemma ss_world {A} s (c : kst FS A) : sys_ok s → sspec s (on_world c) (λ _ _, True).
Proof.
  intros Hok. eapply ss_mono; [apply (ss_vfs s _ (λ _ _, True) Hok)|done].
  unfold gspec, on_fs. destruct (c (v_fs (y_vfs s))) as [a f|e f|]; [| |done];
    destruct (set_fs_ok f (y_vfs s) (sy_vfs s Hok)); eauto.
Qed.
Lemma ss_mem {A} s (c : kst UserT A) : sys_ok s → sspec s (on_mem c) (λ _ _, True).
Proof. apply ss_world. Qed.
Lemma ss_table s t :
  sys_ok s → (∀ fd desc, FdTable.files t !! fd = Some desc → valid_file s (fd_file desc)) →
  sspec s (kmodify (set_table t)) (λ _ _, True).
Proof.
  intros [H1 H2 H3 H4 H5] Ht. unfold sspec. simpl. split; [by constructor|]. split; [|done].
  split_and!; [apply ext_refl|simpl; eauto..].
Qed.
Hint Resolve ss_ret ss_fail ss_crash ss_get ss_ok_or ss_unwrap ss_lift ss_assert ss_world ss_mem : sspec.
Hint Unfold put_user cstr : sspec.

(** [sstep] takes one step of a call by the specification of its first part. *)
Ltac ssimp :=
  repeat match goal with
         | H : _ ∧ _ |- _ => destruct H
         | H : ?a = ?b |- _ => is_var a; subst a
         | H : (λ _ _, _) _ _ |- _ => cbn beta in H
         | x : (_ * _)%type |- _ => destruct x
         end.
Ltac sstep :=
  match goal with
  | |- sspec _ (mret _) _ => apply ss_ret; [done|]
  | |- sspec _ (kfail _) _ => apply ss_fail; done
  | |- sspec _ kcrash _ => apply ss_crash
  | |- sspec _ (if ?b then _ else _) _ => destruct b eqn:?
  | |- sspec _ (match ?x with _ => _ end) _ => destruct x eqn:?
  | |- sspec _ (_ ≫= _) _ => eapply ss_bind; [solve [eauto with sspec]|intros; ssimp]
  end.
Ltac srun := repeat sstep; try done.

Lemma ss_get_desc s fd : sys_ok s → sspec s (get_desc fd) (λ desc s', valid_file s' (fd_file desc)).
Proof.
  intros Hok. unfold get_desc. sstep. eapply ss_mono; [by apply ss_ok_or|].
  intros desc s' _ [-> Hd]. by apply (sy_fd s Hok fd).
Qed.
Lemma ss_prepare s r fd : sys_ok s → sspec s (on_table (prepare_io r fd)) (λ desc s', valid_file s' (fd_file desc)).
Proof.
  intros Hok. unfold sspec, on_table, prepare_io, mbind, kst_bind, kget, kok_or. cbn.
  assert (set_table (fd_table s) s = s) as Es by (by destruct s).
  destruct (fd_get (fd_table s) fd) as [desc|] eqn:Ed; cbn; [|rewrite Es; eauto].
  destruct r; unfold klift, readable, writable;
    destruct (OpenFlags.read_write (fd_flags desc)) as [[[] []]|e|]; cbn; rewrite ?Es; eauto;
    (split; [done|]; split; [apply sext_refl|]; by apply (sy_fd s Hok fd)).
Qed.
Hint Resolve ss_get_desc ss_prepare : sspec.

Lemma set_vfs_same s : set_vfs (y_vfs s) s = s.
Proof. by destruct s. Qed.
Lemma ss_get_file s b :
  sys_ok s → sspec s (on_vfs (get_file b)) (λ n s', s' = s ∧ Vfs.files (y_vfs s) !! b = Some n).
Proof.
  intros Hok. unfold sspec, on_vfs, get_file, mbind, kst_bind, kget, kunwrap.
  destruct (Vfs.files (y_vfs s) !! b); [|done]. simpl. rewrite set_vfs_same. eauto.
Qed.
Lemma ss_get_dir s d :
  sys_ok s → sspec s (on_vfs (get_dir d)) (λ n s', s' = s ∧ dirs (y_vfs s) !! d = Some n).
Proof.
  intros Hok. unfold sspec, on_vfs, get_dir, mbind, kst_bind, kget, kunwrap.
  destruct (dirs (y_vfs s) !! d); [|done]. simpl. rewrite set_vfs_same. eauto.
Qed.
Hint Resolve ss_get_file ss_get_dir : sspec.
Lemma ss_inode_of s b : sys_ok s → sspec s (inode_of b) (λ _ s', s' = s).
Proof. intros Hok. unfold inode_of. srun. Qed.
Hint Resolve ss_inode_of : sspec.
Lemma ss_inode_meta s b : sys_ok s → sspec s (inode_meta b) (λ _ s', s' = s).
Proof. intros Hok. unfold inode_meta. srun. Qed.
Hint Resolve ss_inode_meta : sspec.
Lemma ss_dentry_meta s e : sys_ok s → sspec s (dentry_meta e) (λ _ s', s' = s).
Proof. intros Hok. unfold dentry_meta. srun. by apply ss_inode_meta. Qed.
Lemma ss_get_dir_file s f :
  sys_ok s → sspec s (get_dir_file f) (λ x s', s' = s ∧ dir_files s !! f = Some x).
Proof. intros Hok. unfold get_dir_file. sstep. by apply ss_unwrap. Qed.
Lemma ss_get_seekable s f :
  sys_ok s → sspec s (get_seekable f) (λ x s', s' = s ∧ seek_files s !! f = Some x).
Proof. intros Hok. unfold get_seekable. sstep. by apply ss_unwrap. Qed.
Hint Resolve ss_dentry_meta ss_get_dir_file ss_get_seekable : sspec.
Lemma ss_File_meta s f : sys_ok s → sspec s (File_meta f) (λ _ s', s' = s).
Proof.
  intros Hok. unfold File_meta. destruct f; srun; eauto using ss_dentry_meta, ss_inode_meta.
Qed.
Hint Resolve ss_File_meta : sspec.

(** Open files change only in their positions. *)
Lemma ss_alter_seek s f o : sys_ok s → sspec s (set_offset f o) (λ _ s', y_vfs s' = y_vfs s).
Proof.
  intros [H1 H2 H3 H4 H5]. unfold sspec, set_offset, kmodify.
  assert (∀ g, match seek_files s !! g, alter (λ x, mkSeekable (sf_dentry x) o) f (seek_files s) !! g with
          | Some x, Some y => sf_dentry y = sf_dentry x | None, None => True | _, _ => False end) as Ha.
  { intros g. destruct (decide (f = g)) as [<-|Hne]; [rewrite lookup_alter_eq|rewrite lookup_alter_ne by done];
      by destruct (seek_files s !! _). }
  assert (sext s (set_seek_files (alter (λ x, mkSeekable (sf_dentry x) o) f (seek_files s)) s)) as He.
  { split_and!; [apply ext_refl|simpl; eauto|]. intros g x Hx. specialize (Ha g). simpl. rewrite Hx in Ha.
    destruct (alter _ _ _ !! g) as [y|]; [eauto|done]. }
  split; [|split; [done|done]]. constructor; simpl; [done|done| |done|].
  - intros fd desc Hd. by apply (sext_file s), (H3 fd).
  - intros g x Hx. specialize (Ha g). rewrite Hx in Ha. destruct (seek_files s !! g) as [y|] eqn:Ey; [|done].
    destruct (H5 g y Ey). split; [done|congruence].
Qed.
Lemma ss_next_dirent s f :
  sys_ok s → sspec s (kmodify (λ s, set_dir_files
    (alter (λ x, mkDirFile (df_dentry x) (dirent_index x + 1)) f (dir_files s)) s)) (λ _ _, True).
Proof.
  intros [H1 H2 H3 H4 H5]. unfold sspec, kmodify. set (g := λ x, mkDirFile _ _).
  assert (∀ h, match dir_files s !! h, alter g f (dir_files s) !! h with
          | Some x, Some y => df_dentry y = df_dentry x | None, None => True | _, _ => False end) as Ha.
  { intros h. destruct (decide (f = h)) as [<-|Hne]; [rewrite lookup_alter_eq|rewrite lookup_alter_ne by done];
      by destruct (dir_files s !! _). }
  assert (sext s (set_dir_files (alter g f (dir_files s)) s)) as He.
  { split_and!; [apply ext_refl| |simpl; eauto]. intros h x Hx. specialize (Ha h). simpl. rewrite Hx in Ha.
    destruct (alter _ _ _ !! h) as [y|]; [eauto|done]. }
  split; [|split; [done|done]]. constructor; simpl; [done|done| | |done].
  - intros fd desc Hd. by apply (sext_file s), (H3 fd).
  - intros h x Hx. specialize (Ha h). rewrite Hx in Ha. destruct (dir_files s !! h) as [y|] eqn:Ey; [|done].
    destruct (H4 h y Ey). split; [done|congruence].
Qed.
Lemma ss_new_dir_file s d :
  sys_ok s → valid_dir (y_vfs s) d → sspec s (new_dir_file d) (λ f s', valid_file s' f ∧ fd_table s' = fd_table s).
Proof.
  intros [H1 H2 H3 H4 H5] Hd. unfold sspec, new_dir_file, mbind, kst_bind. cbn.
  assert (dir_files s !! next_file s = None) as Hnew.
  { destruct (dir_files s !! next_file s) eqn:E; [|done]. destruct (H4 _ _ E). lia. }
  set (s' := mkSys _ _ _ _ _ _).
  assert (sext s s') as He.
  { split_and!; [apply ext_refl| |simpl; eauto]. intros f x Hf. exists x. simpl. rewrite lookup_insert_ne; [done|congruence]. }
  split; [|split; [done|split; [|done]; simpl; rewrite lookup_insert_eq; eauto]]. constructor; simpl; [done|done| | |].
  - intros fd desc Hx. by apply (sext_file s), (H3 fd).
  - intros f x [[<- <-]|[_ Hf]]%lookup_insert_Some; [split; [lia|done]|]. destruct (H4 f x Hf). split; [lia|done].
  - intros f x Hf. destruct (H5 f x Hf). split; [lia|done].
Qed.
Lemma ss_new_seekable s b :
  sys_ok s → is_Some (Vfs.files (y_vfs s) !! b) →
  sspec s (new_seekable b) (λ f s', valid_file s' f ∧ fd_table s' = fd_table s).
Proof.
  intros [H1 H2 H3 H4 H5] Hb. unfold sspec, new_seekable, mbind, kst_bind. cbn.
  assert (seek_files s !! next_file s = None) as Hnew.
  { destruct (seek_files s !! next_file s) eqn:E; [|done]. destruct (H5 _ _ E). lia. }
  set (s' := mkSys _ _ _ _ _ _).
  assert (sext s s') as He.
  { split_and!; [apply ext_refl|simpl; eauto|]. intros f x Hf. exists x. simpl. rewrite lookup_insert_ne; [done|congruence]. }
  split; [|split; [done|split; [|done]; simpl; rewrite lookup_insert_eq; eauto]]. constructor; simpl; [done|done| | |].
  - intros fd desc Hx. by apply (sext_file s), (H3 fd).
  - intros f x Hf. destruct (H4 f x Hf). split; [lia|done].
  - intros f x [[<- <-]|[_ Hf]]%lookup_insert_Some; [split; [lia|done]|]. destruct (H5 f x Hf). split; [lia|done].
Qed.
Hint Resolve ss_alter_seek ss_next_dirent ss_new_dir_file ss_new_seekable : sspec.

(** ** Reading, writing and seeking *)
Lemma ss_read s desc buf : sys_ok s → sspec s (fd_read desc buf) (λ _ _, True).
Proof. intros Hok. unfold fd_read. srun; by apply ss_world. Qed.
Lemma ss_read_at s desc buf o : sys_ok s → sspec s (fd_read_at desc buf o) (λ _ _, True).
Proof. intros Hok. unfold fd_read_at. srun; by apply ss_world. Qed.
Lemma ss_write s desc buf : sys_ok s → sspec s (fd_write desc buf) (λ _ _, True).
Proof.
  intros Hok. unfold fd_write. destruct (fd_file desc); [by apply ss_world|by apply ss_fail| |].
  - do 2 sstep. eapply (ss_bind _ _ _ (λ _ _, True)).
    { sstep; [|sstep; done]. sstep. eapply ss_mono; [by apply ss_alter_seek|done]. }
    intros; ssimp. srun.
  - sstep. by apply ss_world.
Qed.
Lemma ss_seek s desc pos : sys_ok s → sspec s (fd_seek desc pos) (λ _ _, True).
Proof.
  intros Hok. unfold fd_seek. destruct (fd_file desc); [by apply ss_fail|done| |by apply ss_fail].
  sstep. eapply (ss_bind _ _ _ (λ _ _, True)); [|intros; ssimp; srun].
  destruct pos; [by apply ss_ret| |].
  - sstep. eapply ss_mono; [by apply ss_ok_or|done].
  - eapply ss_mono; [by apply ss_ok_or|done].
Qed.
Hint Resolve ss_read ss_read_at ss_write ss_seek : sspec.
Lemma ss_ioctl s desc r a : sys_ok s → sspec s (fd_ioctl desc r a) (λ _ _, True).
Proof. intros Hok. unfold fd_ioctl. srun. by apply ss_world. Qed.
Lemma ss_get_iov s p : sys_ok s → sspec s (get_iov p) (λ _ _, True).
Proof. intros Hok. unfold get_iov. srun. Qed.
Lemma ss_next_iov s p : sys_ok s → sspec s (next_iov p) (λ _ _, True).
Proof. intros Hok. unfold next_iov. sstep. eapply ss_mono; [by apply ss_ok_or|done]. Qed.
Hint Resolve ss_ioctl ss_get_iov ss_next_iov : sspec.
Lemma ss_readv n : ∀ s file p t, sys_ok s → sspec s (readv_loop file n p t) (λ _ _, True).
Proof. induction n as [|n IH]; intros s file p t Hok; cbn [readv_loop]; srun; by apply IH. Qed.
Lemma ss_writev n : ∀ s file p t, sys_ok s → sspec s (writev_loop file n p t) (λ _ _, True).
Proof.
  induction n as [|n IH]; intros s file p t Hok; cbn [writev_loop]; [by apply ss_ret|]. sstep.
  eapply (ss_bind _ _ _ (λ _ _, True)).
  { sstep; [|by apply ss_ret]. do 2 sstep. eapply ss_mono; [by apply ss_lift|done]. }
  intros; ssimp. sstep. by apply IH.
Qed.
Lemma ss_ppoll n : ∀ s p r, sys_ok s → sspec s (ppoll_loop n p r) (λ _ _, True).
Proof.
  induction n as [|n IH]; intros s p r Hok; cbn [ppoll_loop]; [by apply ss_ret|]. sstep.
  eapply (ss_bind _ _ _ (λ _ _, True)).
  { sstep; [by apply ss_ret|]. do 2 sstep; srun. }
  intros; ssimp. sstep. by apply IH.
Qed.
Lemma ss_dirents l : ∀ s f e p, sys_ok s → sspec s (getdirents_loop f e p l) (λ _ _, True).
Proof. induction l as [|[nm c] l IH]; intros s f e p Hok; cbn [getdirents_loop]; srun; by apply IH. Qed.
Hint Resolve ss_readv ss_writev ss_ppoll ss_dirents : sspec.

(** ** Paths *)
Lemma dir_of_fd_valid s fd d : sys_ok s → dir_of_fd s fd = Some (Some d) → valid_dir (y_vfs s) d.
Proof.
  intros Hok. unfold dir_of_fd. destruct (fd_get (fd_table s) fd) as [desc|]; [|done].
  destruct (fd_file desc) as [p|f|f|b]; try done. intros [= H]. apply fmap_Some in H as (x & Hx & ->).
  by apply (sy_dir s Hok f x).
Qed.
Lemma ss_resolve s fd p :
  sys_ok s → sspec s (resolve now fd p) (λ p2i s', valid_dir (y_vfs s') (p2i_dir p2i)).
Proof.
  intros Hok. unfold resolve. sstep. eapply ss_mono; [apply ss_vfs; [done|]|].
  - eapply spec_weaken, resolve_spec; [by apply sy_vfs|by apply sy_cwd|]. intros ? ?. by apply dir_of_fd_valid.
  - by intros p2i s' _ [Hv _].
Qed.
Lemma resolve_cwd_spec s p :
  sys_ok s → gspec True (y_vfs s) (resolve_cwd now s p) (λ p2i v, valid_dir v (p2i_dir p2i)).
Proof.
  intros Hok. eapply spec_weaken, resolve_spec; [by apply sy_vfs|by apply sy_cwd|]. intros ? ?. by apply dir_of_fd_valid.
Qed.
Lemma ss_lookup_last s p2i :
  sys_ok s → valid_dir (y_vfs s) (p2i_dir p2i) →
  sspec s (lookup_last now p2i) (λ o s', ∀ e, o = Some e → valid_entry (y_vfs s') e).
Proof.
  intros Hok Hd. eapply ss_mono; [apply ss_vfs; [done|]; eapply spec_weaken, lookup_spec; [by apply sy_vfs|done]|].
  intros o s' _ [Ho _] e He. by apply Ho.
Qed.
Lemma ss_find_last s p2i :
  sys_ok s → valid_dir (y_vfs s) (p2i_dir p2i) →
  sspec s (find_last now p2i) (λ e s', valid_entry (y_vfs s') e).
Proof.
  intros Hok Hd. unfold find_last. eapply ss_bind; [by apply ss_lookup_last|]. intros o s1 Hok1 _ Ho.
  eapply ss_mono; [by apply ss_ok_or|]. intros e s2 _ [-> He]. by apply Ho.
Qed.
Hint Resolve ss_resolve ss_lookup_last ss_find_last : sspec.

Lemma ss_mkdir s d nm : sys_ok s → valid_dir (y_vfs s) d → sspec s (on_vfs (mkdir d nm)) (λ _ _, True).
Proof.
  intros Hok Hd. eapply ss_mono; [apply ss_vfs; [done|]; eapply spec_weaken, mkdir_spec; [by apply sy_vfs|done]|done].
Qed.
Lemma ss_mknod s d nm m :
  sys_ok s → valid_dir (y_vfs s) d →
  sspec s (on_vfs (mknod d nm m)) (λ b s', is_Some (Vfs.files (y_vfs s') !! b)).
Proof.
  intros Hok Hd. eapply ss_mono; [apply ss_vfs; [done|]; eapply spec_weaken, mknod_spec; [by apply sy_vfs|done]|].
  intros b s' _ [(n & Hn & _) _]. by exists n.
Qed.
Lemma ss_unlink s d nm : sys_ok s → valid_dir (y_vfs s) d → sspec s (on_vfs (unlink d nm)) (λ _ _, True).
Proof.
  intros Hok Hd. eapply ss_mono; [apply ss_vfs; [done|]; eapply spec_weaken, unlink_spec; [by apply sy_vfs|done]|done].
Qed.
Lemma ss_remove_dir s d c : sys_ok s → sspec s (on_vfs (remove_dir d c)) (λ _ _, True).
Proof.
  intros Hok. eapply ss_mono; [apply (ss_vfs s _ (λ _ _, True)); [done|]|done]. pose proof (sy_vfs s Hok) as Hv.
  unfold gspec, remove_dir, get_dir, mbind, kst_bind, kget, kunwrap, kassert.
  destruct (dirs (y_vfs s) !! c) as [n|]; [|done]. simpl. case_bool_decide; [|done].
  destruct (dirs (y_vfs s) !! d) as [m|]; [|done]. simpl. destruct (_ =? _)%nat; [split; [done|apply ext_refl]|].
  by apply spec_delete.
Qed.
Lemma ss_read_dir s d : sys_ok s → valid_dir (y_vfs s) d → sspec s (on_vfs (read_dir d)) (λ _ _, True).
Proof.
  intros Hok Hd. eapply ss_mono; [apply ss_vfs; [done|]; eapply spec_weaken, read_dir_spec; [by apply sy_vfs|done]|done].
Qed.
Lemma ss_rename_dir s d p nm :
  sys_ok s → valid_dir (y_vfs s) d → valid_dir (y_vfs s) p → sspec s (on_vfs (rename_dir d p nm)) (λ _ _, True).
Proof.
  intros Hok Hd Hp.
  eapply ss_mono; [apply ss_vfs; [done|]; eapply spec_weaken, rename_dir_spec; [by apply sy_vfs|done|done]|done].
Qed.
Lemma ss_rename_file s b p nm :
  sys_ok s → valid_entry (y_vfs s) (DBytes b) → valid_dir (y_vfs s) p →
  sspec s (on_vfs (rename_file b p nm)) (λ _ _, True).
Proof.
  intros Hok Hd Hp.
  eapply ss_mono; [apply ss_vfs; [done|]; eapply spec_weaken, rename_file_spec; [by apply sy_vfs|done|done]|done].
Qed.
Hint Resolve ss_mkdir ss_mknod ss_unlink ss_remove_dir ss_read_dir ss_rename_dir ss_rename_file : sspec.

(** Questions to the tree. *)
Lemma ss_pure {A} s (c : kst Vfs A) :
  sys_ok s → (∀ v, match c v with Done _ v' | Fail _ v' => v' = v | Crash => True end) →
  sspec s (on_vfs c) (λ _ s', s' = s).
Proof.
  intros Hok Hc. unfold sspec, on_vfs. specialize (Hc (y_vfs s)).
  destruct (c (y_vfs s)); [| |done]; subst; rewrite set_vfs_same; eauto.
Qed.
Lemma entry_key_pure e v : match entry_key e v with Done _ v' | Fail _ v' => v' = v | Crash => True end.
Proof.
  destruct e as [d|b]; [done|]. unfold entry_key, get_file, mbind, kst_bind, kget, kunwrap.
  by destruct (Vfs.files v !! b).
Qed.
Lemma is_mount_root_pure e v : match is_mount_root e v with Done _ v' | Fail _ v' => v' = v | Crash => True end.
Proof.
  unfold is_mount_root, mbind, kst_bind. pose proof (entry_key_pure e v) as H.
  by destruct (entry_key e v).
Qed.
Lemma mounted_root_pure fuel : ∀ e v,
  match mounted_root_of fuel e v with Done _ v' | Fail _ v' => v' = v | Crash => True end.
Proof.
  induction fuel as [|fuel IH]; intros e v; cbn [mounted_root_of]; unfold mbind, kst_bind;
    pose proof (is_mount_root_pure e v) as H; destruct (is_mount_root e v) as [b v'|x v'|]; try done; subst; destruct b; try done.
  unfold entry_parent, get_dir, get_file, mbind, kst_bind, kget, kunwrap. destruct e as [d|b].
  - destruct (dirs v !! d) as [n|]; [|done]. simpl. destruct (d_parent n); [apply IH|done].
  - destruct (Vfs.files v !! b) as [n|]; [|done]. simpl. apply IH.
Qed.
Lemma same_mounted_pure a b v : match same_mounted_fs a b v with Done _ v' | Fail _ v' => v' = v | Crash => True end.
Proof.
  unfold same_mounted_fs, mbind, kst_bind, kget.
  pose proof (mounted_root_pure (Z.to_nat (next_id v)) a v) as Ha.
  destruct (mounted_root_of _ a v) as [ra v1|x v1|]; [subst v1|done..].
  pose proof (mounted_root_pure (Z.to_nat (next_id v)) b v) as Hb.
  destruct (mounted_root_of _ b v) as [rb v1|x v1|]; [subst v1|done..].
  pose proof (entry_key_pure ra v) as H1. destruct (entry_key ra v) as [ka v1|x v1|]; [subst v1|done..].
  pose proof (entry_key_pure rb v) as H2. by destruct (entry_key rb v) as [kb v1|x v1|].
Qed.
Lemma ss_check_not_mounted s e : sys_ok s → sspec s (check_not_mounted e) (λ _ _, True).
Proof.
  intros Hok. unfold check_not_mounted. eapply ss_bind; [apply ss_pure; [done|apply is_mount_root_pure]|].
  intros b s' _ _ ->. destruct b; [by apply ss_fail|by apply ss_ret].
Qed.
Lemma ss_entry_key s e : sys_ok s → sspec s (on_vfs (entry_key e)) (λ _ s', s' = s).
Proof. intros Hok. apply ss_pure; [done|apply entry_key_pure]. Qed.
Lemma ss_mounted_root s fuel e : sys_ok s → sspec s (on_vfs (mounted_root_of fuel e)) (λ _ s', s' = s).
Proof. intros Hok. apply ss_pure; [done|apply mounted_root_pure]. Qed.
Lemma ss_same_mounted s a b : sys_ok s → sspec s (on_vfs (same_mounted_fs a b)) (λ _ s', s' = s).
Proof. intros Hok. apply ss_pure; [done|apply same_mounted_pure]. Qed.
Hint Resolve ss_check_not_mounted ss_entry_key ss_mounted_root ss_same_mounted : sspec.

(** ** Every call keeps the invariant *)
Inductive fs_call : Type :=
| CIoctl (fd request argp : Z) | CLseek (fd offset whence : Z)
| CRead (fd addr len : Z) | CWrite (fd addr len : Z) | CReadv (fd vec n : Z) | CWritev (fd vec n : Z)
| CSendfile (out_fd in_fd : Z) (offset : option Z) (count : Z) | CPipe2 (ptr flags : Z)
| CGetdents (fd addr len : Z) | CFstat (fd buf : Z) | CPpoll (fds len : Z) (timeout : option Z)
| CMkdirat (dir_fd ptr : Z) | COpenat (dir_fd ptr flags : Z) | CFstatat (dir_fd ptr buf flags : Z)
| CUnlinkat (dir_fd ptr flags : Z) | CLinkat (flags : Z) | CUmount (target flags : Z)
| CMount (source target fs_type flags : Z) (data : option Z) | CChdir (ptr : Z) | CGetcwd (addr len : Z)
| CStatfs (ptr buf : Z) | CFaccessat (dir_fd ptr mode : Z)
| CUtimensat (dir_fd ptr : Z) (times : option Z) (flags : Z)
| CRenameat2 (old_fd old_ptr new_fd new_ptr flags : Z)
| CClose (fd : Z) | CDup (fd : Z) | CDup3 (old_fd new_fd flags : Z) | CFcntl (fd cmd arg : Z).
Definition run_call (c : fs_call) : kst Sys Z :=
  match c with
  | CIoctl fd r a => sys_ioctl fd r a
  | CLseek fd o w => sys_lseek fd o w
  | CRead fd a l => sys_read fd a l
  | CWrite fd a l => sys_write fd a l
  | CReadv fd v n => sys_readv fd v n
  | CWritev fd v n => sys_writev fd v n
  | CSendfile o i p c => sys_sendfile64 o i p c
  | CPipe2 p f => sys_pipe2 p f
  | CGetdents fd a l => sys_getdents64 fd a l
  | CFstat fd b => sys_newfstat fd b
  | CPpoll f l t => sys_ppoll f l t
  | CMkdirat d p => sys_mkdirat now d p
  | COpenat d p f => sys_openat now d p f
  | CFstatat d p b f => sys_newfstatat now d p b f
  | CUnlinkat d p f => sys_unlinkat now d p f
  | CLinkat f => sys_linkat f
  | CUmount t f => sys_umount now t f
  | CMount s t ty f d => sys_mount now s t ty f d
  | CChdir p => sys_chdir now p
  | CGetcwd a l => sys_getcwd a l
  | CStatfs p b => sys_statfs64 now p b
  | CFaccessat d p m => sys_faccessat now d p m
  | CUtimensat d p t f => sys_utimensat now d p t f
  | CRenameat2 a b c d f => sys_renameat2 now a b c d f
  | CClose fd => on_table (sys_close fd)
  | CDup fd => on_table (sys_dup fd)
  | CDup3 a b f => on_table (sys_dup3 a b f)
  | CFcntl fd c a => on_table (sys_fcntl64 fd c a)
  end.

Lemma ss_getdirents s f a l : sys_ok s → sspec s (getdirents f a l) (λ _ _, True).
Proof.
  intros Hok. unfold getdirents. sstep. eapply ss_bind; [apply ss_read_dir; [done|by eapply sy_dir]|].
  intros; ssimp. srun.
Qed.
Lemma ss_call_data c s :
  match c with
  | CIoctl _ _ _ | CLseek _ _ _ | CRead _ _ _ | CWrite _ _ _ | CReadv _ _ _ | CWritev _ _ _ | CSendfile _ _ _ _
  | CGetdents _ _ _ | CFstat _ _ | CPpoll _ _ _ => sys_ok s → sspec s (run_call c) (λ _ _, True)
  | _ => True
  end.
Proof.
  destruct c; try done; intros Hok; cbn [run_call].
  - unfold sys_ioctl. sstep. by apply ss_ioctl.
  - unfold sys_lseek. sstep. eapply (ss_bind _ _ _ (λ _ _, True)); [srun|]. intros; ssimp. by apply ss_seek.
  - unfold sys_read. sstep. by apply ss_read.
  - unfold sys_write. sstep. by apply ss_write.
  - unfold sys_readv. sstep. by apply ss_readv.
  - unfold sys_writev. sstep. by apply ss_writev.
  - unfold sys_sendfile64. do 3 sstep. eapply (ss_bind _ _ _ (λ _ _, True)).
    + sstep; [|by apply ss_read]. srun.
    + intros; ssimp. sstep. by apply ss_write.
  - unfold sys_getdents64. do 2 sstep; [|by apply ss_fail]. destruct f; try by apply ss_fail. sstep. by apply ss_getdirents.
  - unfold sys_newfstat, put_user. srun.
  - unfold sys_ppoll. eapply (ss_bind _ _ _ (λ _ _, True)); [srun|]. intros; ssimp. do 2 sstep; [by apply ss_fail|].
    sstep. by apply ss_ppoll.
Qed.

(** The calls on the table alone only copy descriptors. *)
Definition copies (t t' : FdTable File) : Prop :=
  ∀ fd desc, FdTable.files t' !! fd = Some desc →
    ∃ fd' desc', FdTable.files t !! fd' = Some desc' ∧ fd_file desc' = fd_file desc.
Lemma copies_refl t : copies t t.
Proof. intros fd desc H. eauto. Qed.
Lemma copies_insert t fd fd' desc desc' :
  FdTable.files t !! fd' = Some desc' → fd_file desc' = fd_file desc → copies t (fd_insert t fd desc).
Proof. intros H E k d; simpl; intros [[<- <-]|[_ Hk]]%lookup_insert_Some; eauto. Qed.
Hint Resolve copies_refl copies_insert : core.
Lemma copies_add t desc fd desc' from e :
  FdTable.files t !! fd = Some desc' → fd_file desc' = fd_file desc →
  match add_or e (add_from t desc from) t with Done _ t' | Fail _ t' => copies t t' | Crash => True end.
Proof.
  intros H E. unfold add_or, add_from, mbind, kst_bind, klift. destruct (_ <=? _); [simpl; eauto|].
  destruct (free_from_loop _ _) as [n|x|]; simpl; eauto.
Qed.
Lemma ss_on_table {A} s (c : kst (FdTable File) A) :
  sys_ok s → match c (fd_table s) with Done _ t' | Fail _ t' => copies (fd_table s) t' | Crash => True end →
  sspec s (on_table c) (λ _ _, True).
Proof.
  intros Hok Hc. unfold sspec, on_table.
  assert (∀ t', copies (fd_table s) t' → sys_ok (set_table t' s) ∧ sext s (set_table t' s)) as H.
  { intros t' Ht. pose proof (ss_table s t' Hok) as [H1 [H2 _]]; [|done]. intros fd desc Hd.
    destruct (Ht fd desc Hd) as (fd' & desc' & H' & <-). by apply (sy_fd s Hok fd'). }
  destruct (c (fd_table s)); [| |done]; destruct (H _ Hc); eauto.
Qed.
Lemma ss_call_table c s :
  match c with
  | CClose _ | CDup _ | CDup3 _ _ _ | CFcntl _ _ _ => sys_ok s → sspec s (run_call c) (λ _ _, True)
  | _ => True
  end.
Proof.
  destruct c; try done; intros Hok; cbn [run_call]; (apply ss_on_table; [done|]).
  - unfold sys_close, mbind, kst_bind, kget, kput, fd_remove. cbn.
    assert (copies (fd_table s) (with_files (fd_table s) (delete fd (FdTable.files (fd_table s))))) as H.
    { intros k d; simpl; intros [_ Hk]%lookup_delete_Some. eauto. }
    by destruct (FdTable.files (fd_table s) !! fd).
  - unfold sys_dup, mbind, kst_bind, kget. destruct (fd_get (fd_table s) fd) as [desc|] eqn:E; [|simpl; eauto].
    by apply (copies_add _ _ fd desc).
  - unfold sys_dup3, mbind, kst_bind, kget, kunwrap. destruct (OpenFlags.from_bits flags); [|done]. cbn.
    destruct (fd_get (fd_table s) old_fd) as [desc|] eqn:E; [|simpl; eauto].
    destruct (_ =? _); [simpl; eauto|]. cbn. by eapply copies_insert.
  - unfold sys_fcntl64, mbind, kst_bind, kget, kok_or. destruct (fd_get (fd_table s) fd) as [desc|] eqn:E; cbn;
      (destruct (_ || _); [|destruct (cmd =? F_GETFD); [|destruct (cmd =? F_SETFD); [|destruct (cmd =? F_GETFL)]]]);
      cbn; eauto.
    apply (copies_add _ _ fd desc); [done|]. by destruct (cmd =? F_DUPFD_CLOEXEC).
Qed.

(** A new descriptor for a file that is open. *)
Lemma files_fd_add (t : FdTable File) desc fd t' :
  fd_add (E:=errno) t desc = Ok (Some (fd, t')) → FdTable.files t' = <[fd := desc]> (FdTable.files t).
Proof.
  unfold fd_add, add_from. destruct (_ <=? _); [done|].
  destruct (free_from_loop _ _) as [n|e|]; [|done..]. by intros [= <- <-].
Qed.
Lemma files_add_many (t : FdTable File) descs fds t' fd desc :
  add_many t descs = Some (fds, t') → FdTable.files t' !! fd = Some desc →
  FdTable.files t !! fd = Some desc ∨ desc ∈ descs.
Proof.
  unfold add_many. destruct (_ <? _); [done|]. destruct (add_many_keys _ _ _) as [[ret n] next].
  intros [= _ <-]. generalize (ret ++ ((λ i, next + Z.of_nat i) <$> seq 0 n)). clear. intros l.
  revert t l. induction descs as [|d descs IH]; intros t l H.
  { destruct l; [by left|]. by left. }
  destruct l as [|k l]; [by left|]. simpl in H. apply IH in H as [H|H].
  - simpl in H. apply lookup_insert_Some in H as [[_ <-]|[_ H]]; [right; left|by left].
  - right. by right.
Qed.
Lemma ss_new_fd s f flags :
  sys_ok s → valid_file s f →
  sspec s (s ← kget; o ← klift (fd_add (fd_table s) (mkFd f flags)); '(ret_fd, t) ← kok_or o EMFILE;
           _ ← kmodify (set_table t); mret ret_fd) (λ _ _, True).
Proof.
  intros Hok Hf. do 3 sstep. eapply ss_bind; [|intros; ssimp; srun]. apply ss_table; [done|].
  intros fd desc Hd. erewrite files_fd_add in Hd by (subst; eassumption).
  apply lookup_insert_Some in Hd as [[_ <-]|[_ Hd]]; [done|]. by apply (sy_fd _ Hok fd).
Qed.
Lemma ss_open_existing s flags e :
  sys_ok s → valid_entry (y_vfs s) e → sspec s (open_existing flags e) (λ f s', valid_file s' f).
Proof.
  intros Hok Hv. unfold open_existing. sstep; [by apply ss_fail|]. destruct e as [d|b].
  - sstep; [by apply ss_fail|]. eapply ss_mono; [by apply ss_new_dir_file|]. by intros f s' _ [Hf _].
  - sstep; [by apply ss_fail|]. sstep. eapply (ss_bind _ _ _ (λ _ _, True)).
    { sstep; [|by apply ss_ret]. do 2 sstep; [|by apply ss_ret]. sstep. by apply ss_world. }
    intros ? s1 Hok1 He1 _. sstep; [|apply ss_ret; [done|]; by apply (sext_entry _ _ (DBytes b) He1)].
    eapply ss_mono; [apply ss_new_seekable; [done|by apply (sext_entry _ _ (DBytes b) He1)]|]. by intros f s' _ [Hf _].
Qed.
Hint Resolve ss_new_fd ss_open_existing : sspec.
Lemma ss_openat s d p f : sys_ok s → sspec s (sys_openat now d p f) (λ _ _, True).
Proof.
  intros Hok. unfold sys_openat, cstr. do 4 sstep. eapply ss_bind; [by apply ss_lookup_last|].
  intros o s2 Hok2 He2 Ho. eapply (ss_bind _ _ _ (λ f s', valid_file s' f)); [|intros; by apply ss_new_fd].
  destruct o as [e|]; [by apply ss_open_existing, Ho|]. sstep; [by apply ss_fail|].
  eapply ss_bind; [apply ss_mknod; [done|by eauto]|]. intros b s3 Hok3 He3 Hb.
  eapply ss_mono; [by apply ss_new_seekable|]. by intros ? ? _ [? _].
Qed.
Lemma ss_pipe2 s p f : sys_ok s → sspec s (sys_pipe2 p f) (λ _ _, True).
Proof.
  intros Hok. unfold sys_pipe2. do 5 sstep; [|by apply ss_fail]. destruct p2 as [fds t].
  eapply ss_bind; [|intros; ssimp; srun]. apply ss_table; [done|]. intros fd desc Hd.
  eapply files_add_many in Hd as [Hd|Hd]; [by eapply sy_fd| |done].
  rewrite !elem_of_cons, elem_of_nil in Hd. by destruct Hd as [->|[->|[]]].
Qed.
Lemma ss_fstat_flags s f : sys_ok s → sspec s (fstat_flags f) (λ _ s', s' = s).
Proof.
  intros Hok. unfold fstat_flags. sstep; [|by apply ss_fail]. eapply ss_mono; [by apply ss_ok_or|]. by intros ? ? _ [-> _].
Qed.
Hint Resolve ss_fstat_flags : sspec.
Lemma ss_fstatat s d p b f : sys_ok s → sspec s (sys_newfstatat now d p b f) (λ _ _, True).
Proof.
  intros Hok. unfold sys_newfstatat, cstr. do 3 sstep; [by apply ss_fail|]. sstep.
  eapply (ss_bind _ _ _ (λ _ _, True)); [|intros; ssimp; srun].
  sstep; [sstep; eapply ss_mono; [by apply ss_File_meta|done]|]. do 2 sstep.
  eapply ss_mono; [by apply ss_dentry_meta|done].
Qed.
Lemma ss_unlinkat s d p f : sys_ok s → sspec s (sys_unlinkat now d p f) (λ _ _, True).
Proof.
  intros Hok. unfold sys_unlinkat, cstr. do 4 sstep.
  - eapply (ss_bind _ _ _ (λ _ s', valid_dir (y_vfs s') (p2i_dir a1))); [srun|].
    intros ? s2 Hok2 He2 Hd2. sstep. sstep. sstep; [|by apply ss_fail]. eapply ss_bind; [by apply ss_remove_dir|].
    intros; ssimp. srun.
  - sstep; [by apply ss_fail|]. sstep. sstep. sstep; [by apply ss_fail|]. sstep.
    eapply ss_bind; [apply ss_unlink; [done|]|intros; ssimp; srun]. by eapply (ok_file _ (sy_vfs _ ltac:(eassumption))).
Qed.

Lemma ss_mount s so t ty f d : sys_ok s → sspec s (sys_mount now so t ty f d) (λ _ _, True).
Proof.
  intros Hok. unfold sys_mount, cstr. do 5 sstep. eapply (ss_bind _ _ _ (λ _ _, True)); [srun|].
  intros ? s1 Hok1 _ _. sstep. eapply ss_bind; [|intros; ssimp; srun].
  eapply ss_mono; [apply (ss_vfs _ _ (λ _ _, True)); [done|]|done].
  apply vfs_mount_spec; [|by apply sy_vfs|by apply resolve_cwd_spec].
  intros. destruct a2; first [by apply new_tmp_fs_spec|by apply with_children_spec].
Qed.
Lemma on_mem_mounts {A} s (c : kst UserT A) a s' :
  on_mem c s = Done a s' → mount_table (y_vfs s') = mount_table (y_vfs s).
Proof.
  unfold on_mem, on_world, on_vfs, on_fs. destruct (c (get_user (v_fs (y_vfs s)))) as [b u|e u|]; [|done..].
  by intros [= <- <-].
Qed.
Lemma ss_umount s t f : sys_ok s → sspec s (sys_umount now t f) (λ _ s', unmounted (y_vfs s) (y_vfs s')).
Proof.
  intros Hok. unfold sys_umount, cstr. eapply ss_bind; [by apply ss_unwrap|]. intros fl s0 _ _ [-> _].
  eapply (ss_bind _ _ _ (λ _ s', mount_table (y_vfs s') = mount_table (y_vfs s))).
  { pose proof (ss_mem s (user_cstr t) Hok) as Hm. unfold sspec in *.
    destruct (on_mem (user_cstr t) s) as [p s1|e s1|] eqn:E; [|done..].
    destruct Hm as (? & ? & _). split_and!; [done|done|by eapply on_mem_mounts]. }
  intros p s1 Hok1 _ Hm1. eapply ss_bind; [by apply ss_get|]. intros ? s2 Hok2 _ [-> ->].
  eapply (ss_bind _ _ _ (λ _ s', unmounted (y_vfs s) (y_vfs s'))); [|intros ? s3 Hok3 _ Hu; by apply ss_ret].
  eapply ss_mono; [apply (ss_vfs s1 _ (λ _ v, unmounted (y_vfs s) v)); [done|]|].
  - assert (Hsp := vfs_unmount_spec now (resolve_cwd now s1) (y_vfs s1) p (sy_vfs s1 Hok1)
      (resolve_cwd_spec s1 p Hok1) (km_resolve now _ _ _ _)).
    unfold gspec in *. destruct (unmount now (resolve_cwd now s1) p (y_vfs s1)) as [a v|e v|]; [|done..].
    destruct Hsp as (? & ? & fs & Hfs & Hmt & Hr). split_and!; [done|done|]. exists fs.
    rewrite Hm1 in Hfs, Hmt. done.
  - by intros ? ? _ [? _].
Qed.
Lemma ss_chdir s p : sys_ok s → sspec s (sys_chdir now p) (λ _ _, True).
Proof.
  intros Hok. unfold sys_chdir, cstr. do 3 sstep. sstep; [|by apply ss_fail].
  eapply (ss_bind _ _ _ (λ _ _, True)); [|intros; ssimp; srun]. subst. unfold sspec. simpl.
  match goal with H : sys_ok ?x |- sys_ok (set_cwd _ ?x) ∧ _ => destruct H as [K1 K2 K3 K4 K5] end.
  split; [by constructor|]. split; [|done]. split_and!; [apply ext_refl|simpl; eauto..].
Qed.
Lemma ss_utimensat s d p t f : sys_ok s → sspec s (sys_utimensat now d p t f) (λ _ _, True).
Proof.
  intros Hok. unfold sys_utimensat, cstr. do 3 sstep; [by apply ss_fail|]. do 2 sstep.
  eapply (ss_bind _ _ _ (λ _ _, True)); [srun|]. intros; ssimp.
  eapply (ss_bind _ _ _ (λ _ _, True)); [|intros; ssimp; srun].
  unfold set_entry_meta. case_match; sstep; by apply ss_world.
Qed.
Lemma ss_renameat2 s a b c d f : sys_ok s → sspec s (sys_renameat2 now a b c d f) (λ _ _, True).
Proof.
  intros Hok. unfold sys_renameat2, cstr. sstep. sstep; [by apply ss_fail|]. do 3 sstep.
  eapply (ss_bind _ _ _ (λ _ s', valid_dir (y_vfs s') (p2i_dir a3))); [srun|]. intros ? s1 Hok1 He1 Hd1.
  sstep. rename a5 into old. sstep. sstep.
  eapply (ss_bind _ _ _ (λ _ s', valid_dir (y_vfs s') (p2i_dir a6))); [srun|]. intros ? s5 Hok5 He5 Hd5.
  assert (valid_entry (y_vfs s5) old) as Hold by eauto 6. sstep. rename a8 into new.
  eapply (ss_bind _ _ _ (λ _ s', valid_dir (y_vfs s') (p2i_dir a6) ∧ valid_entry (y_vfs s') old)).
  { destruct new as [e|]; [|apply ss_ret; [done|]; eauto]. do 3 sstep; [apply ss_ret; [done|]; split; eauto 8|]. srun; split; eauto 8. }
  intros same s7 Hok7 He7 [Hd7 Ho7]. sstep; [srun|]. sstep. sstep; [by apply ss_fail|]. destruct old as [od|ob].
  - do 3 sstep; [by apply ss_fail|]. sstep; [sstep; by apply ss_fail|]. sstep. srun.
  - sstep; [sstep; [by apply ss_fail|]; sstep; [by apply ss_fail|]|]; sstep; srun.
Qed.
Lemma ss_call c s : sys_ok s → sspec s (run_call c) (λ _ _, True).
Proof.
  intros Hok. pose proof (ss_call_data c s) as H1. pose proof (ss_call_table c s) as H2.
  destruct c; try (by apply H1); try (by apply H2); clear H1 H2; cbn [run_call].
  - by apply ss_pipe2.
  - unfold sys_mkdirat, cstr. srun.
  - by apply ss_openat.
  - by apply ss_fstatat.
  - by apply ss_unlinkat.
  - unfold sys_linkat. srun.
  - eapply ss_mono; [by apply ss_umount|done].
  - by apply ss_mount.
  - by apply ss_chdir.
  - unfold sys_getcwd. srun.
  - unfold sys_statfs64, cstr, put_user. do 2 sstep. eapply ss_bind.
    { eapply ss_vfs; [done|]. eapply spec_weaken, path_walk_spec; [by apply sy_vfs|].
      destruct (ok_root _ (sy_vfs _ ltac:(eassumption))) as (n & Hn & _). by exists n. }
    intros; ssimp. srun.
  - unfold sys_faccessat, cstr. srun.
  - by apply ss_utimensat.
  - by apply ss_renameat2.
Qed.
End inv.

Section run.
Context {DB : DirBackend} {WD : World}.

(** One system call, successful or not, at any time. *)
Inductive call_step (s : Sys) : Sys → Prop :=
| call_done now c r s' : run_call now c s = Done r s' → call_step s s'
| call_fail now c e s' : run_call now c s = Fail e s' → call_step s s'.

(** C7: the tree and the open files stay consistent. However the file system calls
    of a process follow each other, and whether they succeed or fail: every entry of
    a directory is a dentry with that name and that parent; every directory but the
    root has an older one as its parent, so that all of them hang on the root; every
    mount has a root in the tree, and the entry it hides is one of the directory it
    is mounted in; the working directory, the directory or file behind every
    descriptor and the parent of every file exist. And a successful [umount], at
    any time, takes away one mount and puts the entry that it hid back under its
    name. *)
Theorem fs_calls_invariant s s' : rtc call_step s s' → sys_ok s →
  sys_ok s' ∧
  ∀ now target flags r s'', run_call now (CUmount target flags) s' = Done r s'' →
    sys_ok s'' ∧ unmounted (y_vfs s') (y_vfs s'').
Proof.
  intros Hr Hok. assert (Hok' : sys_ok s').
  { induction Hr as [s|s s1 s2 Hs _ IH]; [done|]. apply IH.
    destruct Hs as [now c r s1 Hc|now c e s1 Hc]; pose proof (ss_call now c s Hok) as H;
      unfold sspec in H; rewrite Hc in H; tauto. }
  split; [done|]. intros now t f r s'' Hc. pose proof (ss_umount now s' t f Hok') as H.
  unfold sspec in H. simpl in Hc. rewrite Hc in H. tauto.
Qed.
End run.
