(* ===== verification/SysFsPaths.v ===== *)
(** * Working directories, creation, renames and positions

    The behaviour of the calls of [SysFs] on paths whose directories are in the
    dentry cache. *)
From S2P Require Import Prelude BTree Address Defines Kst UserCheck UserAccess FdTable Inode Vfs VfsSpec SysFs SysFsSpec.

(** User memory and the metadata of inodes are separate parts of the state. *)
Class WorldLaws {DB : DirBackend} {WD : World} : Prop := {
  user_set u f : get_user (set_user u f) = u;
  user_dir_meta i m f : get_user (dir_set_meta i m f) = get_user f;
  meta_set_user b u f : file_meta b (set_user u f) = file_meta b f;
  meta_dir_meta b i m f : file_meta b (dir_set_meta i m f) = file_meta b f;
}.

Section paths.
Context {DB : DirBackend} {WD : World} {WL : WorldLaws}.
Variable now : TimeSpec.
Implicit Types (s : Sys).

Definition user_of s : UserT := get_user (v_fs (y_vfs s)).
(** Only metadata of directories changed. *)
Definition same_sys s s' : Prop := same_tree (y_vfs s) (y_vfs s') ∧ s' = set_vfs (y_vfs s') s.

Lemma same_sys_trans s1 s2 s3 : same_sys s1 s2 → same_sys s2 s3 → same_sys s1 s3.
Proof. intros [A1 ->] [A2 ->]. split; [by eapply same_tree_trans|done]. Qed.
Lemma touches_user f f' : touches f f' → get_user f' = get_user f.
Proof. induction 1 as [|f f1 f2 (i & m & ->) _ IH]; [done|]. by rewrite IH, user_dir_meta. Qed.
Lemma touches_meta b f f' : touches f f' → file_meta b f' = file_meta b f.
Proof. induction 1 as [|f f1 f2 (i & m & ->) _ IH]; [done|]. by rewrite IH, meta_dir_meta. Qed.
Lemma same_sys_user s s' : same_sys s s' → user_of s' = user_of s.
Proof. intros [(_ & _ & _ & _ & _ & Ht) _]. by apply touches_user. Qed.

Lemma on_vfs_run {A} (c : kst Vfs A) s a v :
  c (y_vfs s) = Done a v → on_vfs c s = Done a (set_vfs v s).
Proof. unfold on_vfs. by intros ->. Qed.

(** The state with new user memory. *)
Definition with_user s (u : UserT) : Sys := set_vfs (set_fs (set_user u (v_fs (y_vfs s))) (y_vfs s)) s.
Lemma on_mem_run {A} (c : kst UserT A) s a u :
  c (user_of s) = Done a u → on_mem c s = Done a (with_user s u).
Proof. unfold on_mem, on_world, on_vfs, on_fs, user_of. by intros ->. Qed.
Lemma user_of_with s u : user_of (with_user s u) = u.
Proof. apply user_set. Qed.

Lemma resolve_run s names nm e fd :
  (∀ x, x ∈ names ++ [nm] → good_name x) → follow (y_vfs s) (root_dir (y_vfs s)) names = Some e →
  ∃ s', resolve now fd (SLASH :: joined (names ++ [nm])) s = Done (mkP2i e Normal nm) s' ∧ same_sys s s'.
Proof.
  intros Hn Hf. destruct (resolve_cached now (y_vfs s) names nm e 0 Hn Hf) as (v & Hr & Ht).
  exists (set_vfs v s). split; [|by split]. unfold resolve. rewrite (kbind_run kget _ s s s) by done.
  apply on_vfs_run. exact Hr.
Qed.
Lemma lookup_last_run s e nm m :
  child_at (y_vfs s) e nm = Some m → is_special nm = false →
  ∃ s', lookup_last now (mkP2i e Normal nm) s = Done (Some m) s' ∧ same_sys s s'.
Proof.
  unfold child_at. intros Hc Hs. destruct (dirs (y_vfs s) !! e) as [n|] eqn:He; [|done].
  destruct (lookup_cached now (y_vfs s) e n nm m He Hs Hc) as (v & Hl & Ht).
  exists (set_vfs v s). split; [by apply on_vfs_run|by split].
Qed.
(** The entry a cached path leads to. *)
Definition at_path s (names : list str) (nm : str) (e : Z) (m : DEntry) : Prop :=
  (∀ x, x ∈ names ++ [nm] → good_name x) ∧ follow (y_vfs s) (root_dir (y_vfs s)) names = Some e ∧
  child_at (y_vfs s) e nm = Some m.
Lemma same_sys_follow s s' names : same_sys s s' →
  follow (y_vfs s') (root_dir (y_vfs s')) names = follow (y_vfs s) (root_dir (y_vfs s)) names.
Proof. intros [Ht _]. rewrite (same_tree_follow (y_vfs s)) by done. by destruct Ht as (_ & _ & -> & _). Qed.
Lemma same_sys_child s s' d nm : same_sys s s' → child_at (y_vfs s') d nm = child_at (y_vfs s) d nm.
Proof. intros [(Hd & _) _]. unfold child_at. by rewrite Hd. Qed.
Lemma good_last names nm : (∀ x, x ∈ names ++ [nm] → good_name x) → is_special nm = false.
Proof. intros Hn. apply (Hn nm). set_solver. Qed.
Lemma find_run s names nm e m fd :
  at_path s names nm e m →
  ∃ s', (p2i ← resolve now fd (SLASH :: joined (names ++ [nm])); find_last now p2i) s = Done m s' ∧ same_sys s s'.
Proof.
  intros (Hn & Hf & Hc). destruct (resolve_run s names nm e fd Hn Hf) as (s1 & Hr & H1).
  destruct (lookup_last_run s1 e nm m) as (s2 & Hl & H2); [by rewrite (same_sys_child s)|by eapply good_last|].
  exists s2. split; [|by eapply same_sys_trans]. rewrite (kbind_run _ _ _ _ _ Hr). unfold find_last.
  by rewrite (kbind_run _ _ _ _ _ Hl).
Qed.

(** ** [chdir] and [getcwd] *)
Lemma names_length (names : list str) : names ≠ [] →
  Z.of_nat (length (joined names)) =
    foldr (λ nm n, Z.of_nat (length nm) + n) 0 names + (Z.of_nat (length names) - 1).
Proof.
  induction names as [|nm names IH]; [done|]. intros _. destruct names as [|nm' names]; [simpl; lia|].
  change (joined (nm :: nm' :: names)) with (nm ++ SLASH :: joined (nm' :: names)).
  rewrite length_app, length_cons. cbn [foldr length] in *. specialize (IH ltac:(done)). lia.
Qed.
Lemma sum_reverse (names : list str) :
  foldr (λ nm n, Z.of_nat (length nm) + n) 0 (reverse names) = foldr (λ nm n, Z.of_nat (length nm) + n) 0 names.
Proof.
  induction names as [|nm names IH]; [done|]. rewrite reverse_cons, foldr_app. cbn [foldr].
  rewrite <- IH. clear IH. generalize (reverse names) as l. intros l. induction l as [|x l IH]; simpl; lia.
Qed.
Lemma path_len (names : list str) :
  2 + foldr (λ nm n, Z.of_nat (length nm) + n) 0 (reverse names) + Z.max 0 (Z.of_nat (length (reverse names)) - 1) =
  Z.of_nat (length (SLASH :: joined names ++ [0])).
Proof.
  rewrite sum_reverse, length_reverse, length_cons, length_app. cbn [length].
  destruct names as [|nm names]; [done|]. pose proof (names_length (nm :: names) ltac:(done)) as H.
  cbn [length] in *. lia.
Qed.
Lemma getcwd_run s names addr len :
  vfs_ok (y_vfs s) → follow (y_vfs s) (root_dir (y_vfs s)) names = Some (cwd s) →
  let p := SLASH :: joined names ++ [0] in
  (len < Z.of_nat (length p) → sys_getcwd addr len s = Fail ERANGE s) ∧
  (Z.of_nat (length p) ≤ len → um_ok (user_of s) addr (Z.to_nat len) →
   ∃ s', sys_getcwd addr len s = Done addr s' ∧ um_load (user_of s') addr (length p) = Ok p).
Proof.
  intros Hok Hf p. destruct (follow_valid _ _ _ Hok Hf) as [n Hd]. apply (ok_dir _ Hok) in Hd.
  unfold sys_getcwd. rewrite (kbind_run kget _ s s s) by done.
  rewrite (names_up_follow (y_vfs s) names (cwd s)) by (done || lia).
  rewrite (kbind_run _ _ s (reverse names) s) by done. cbn beta zeta. rewrite path_len, reverse_involutive. fold p.
  split; intros Hlen; [by rewrite (proj2 (Z.ltb_lt _ _)) by lia|]. intros Hu.
  rewrite (proj2 (Z.ltb_ge _ _)) by lia.
  destruct (um_ok_write (user_of s) addr _ Hu) as (u1 & Hc & Hu1 & _). rewrite Z2Nat.id in Hc by lia.
  erewrite kbind_run by (apply on_mem_run; unfold check_write; rewrite Hc; reflexivity).
  rewrite (proj2 (Z.leb_le _ _)) by lia. erewrite kbind_run by reflexivity.
  destruct (um_ok_store u1 addr p) as (u2 & Hs & _ & Hl); [apply (um_ok_prefix _ _ (Z.to_nat len)); [lia|done]|].
  erewrite kbind_run by (apply on_mem_run; rewrite user_of_with; unfold store_user; rewrite Hs; reflexivity).
  eexists. split; [reflexivity|]. by rewrite user_of_with.
Qed.

(** The state with another file system state; the tree is the same. *)
Definition stir s (f : FS) : Sys := set_vfs (set_fs f (y_vfs s)) s.
Lemma same_sys_stir s s' : same_sys s s' → s' = stir s (v_fs (y_vfs s')).
Proof.
  intros [(H1 & H2 & H3 & H4 & H5 & _) E]. rewrite E at 1. unfold stir. f_equal.
  destruct (y_vfs s'), (y_vfs s). simpl in *. subst. done.
Qed.

Lemma follow_set_fs (v : Vfs) f d names : follow (set_fs f v) d names = follow v d names.
Proof.
  revert d. induction names as [|nm names IH]; intros d; simpl; [done|].
  destruct (dirs v !! d) as [n|]; [|done]. by destruct (d_children n !! nm) as [[c|b]|].
Qed.
Lemma at_path_stir s f names nm e m : at_path s names nm e m → at_path (stir s f) names nm e m.
Proof.
  intros (Hn & Hf & Hc). split_and!; [done| |done].
  change (y_vfs (stir s f)) with (set_fs f (y_vfs s)). by rewrite follow_set_fs.
Qed.
Lemma is_mount_root_set_fs (v : Vfs) f e :
  is_mount_root e v = Done false v → is_mount_root e (set_fs f v) = Done false (set_fs f v).
Proof.
  unfold is_mount_root, entry_key. destruct e as [d|b]; unfold mbind, kst_bind, get_file, kget, kunwrap; simpl.
  - by intros [= ->].
  - unfold mbind, kst_bind. simpl. destruct (Vfs.files v !! b); [|done]. simpl. by intros [= ->].
Qed.
Lemma nearest_set_fs (v : Vfs) f d r : nearest v d r → nearest (set_fs f v) d r.
Proof. induction 1 as [d Hd|d n p r Hd Hn Hp _ IH]; [by apply nearest_here|by eapply nearest_up]. Qed.

(** Steps from a state with the tree of [s]. *)
Lemma same_sys_touches s s' : same_sys s s' → touches (v_fs (y_vfs s)) (v_fs (y_vfs s')).
Proof. intros [Ht _]. apply Ht. Qed.
Lemma resolve_stir s f names nm e fd :
  (∀ x, x ∈ names ++ [nm] → good_name x) → follow (y_vfs s) (root_dir (y_vfs s)) names = Some e →
  ∃ f', resolve now fd (SLASH :: joined (names ++ [nm])) (stir s f) = Done (mkP2i e Normal nm) (stir s f') ∧ touches f f'.
Proof.
  intros Hn Hf. destruct (resolve_run (stir s f) names nm e fd Hn) as (s' & Hr & Hs').
  { change (y_vfs (stir s f)) with (set_fs f (y_vfs s)). by rewrite follow_set_fs. }
  pose proof (same_sys_touches _ _ Hs') as Ht. apply same_sys_stir in Hs'. rewrite Hs' in Hr. eauto.
Qed.
Lemma lookup_stir s f e nm m :
  child_at (y_vfs s) e nm = Some m → is_special nm = false →
  ∃ f', lookup_last now (mkP2i e Normal nm) (stir s f) = Done (Some m) (stir s f') ∧ touches f f'.
Proof.
  intros Hc Hs. destruct (lookup_last_run (stir s f) e nm m Hc Hs) as (s' & Hr & Hs').
  pose proof (same_sys_touches _ _ Hs') as Ht. apply same_sys_stir in Hs'. rewrite Hs' in Hr. eauto.
Qed.
(** The file system state after reads of user memory and of directories: user
    memory (pages that came in) and metadata of directories (access times). *)
Definition stirred : relation FS :=
  rtc (λ f f', (∃ i m, f' = dir_set_meta i m f) ∨ ∃ u, f' = set_user u f).
Lemma touches_stirred f f' : touches f f' → stirred f f'.
Proof. intros H. eapply rtc_subrel; [|exact H]. auto. Qed.
Lemma set_user_stirred u f : stirred f (set_user u f).
Proof. apply rtc_once. eauto. Qed.
(** The directory has no entry of that name: its file system, as it is now up to
    reads, says so, and a lookup is such a read itself. *)
Definition absent (i : DI) (nm : str) (f0 : FS) : Prop :=
  ∀ f, stirred f0 f → ∃ f', dir_lookup i nm f = Done None f' ∧ touches f f'.
Lemma lookup_absent s f e n nm :
  dirs (y_vfs s) !! e = Some n → is_special nm = false → d_children n !! nm = None →
  absent (d_inode n) nm f →
  ∃ f', lookup_last now (mkP2i e Normal nm) (stir s f) = Done None (stir s f') ∧ touches f f'.
Proof.
  intros Hn Hs Hc Hl. unfold is_special in Hs. apply bool_decide_eq_false in Hs.
  assert (touches f (touch now (d_inode n) f)) as Ht by (apply rtc_once; by eexists _, _).
  destruct (Hl (touch now (d_inode n) f)) as (f' & Hl' & Ht'); [by apply touches_stirred|].
  exists f'. split; [|by etrans]. unfold lookup_last. rewrite (on_vfs_run _ _ None (set_fs f' (y_vfs s))); [done|].
  cbn [p2i_dir last_component y_vfs stir set_vfs].
  unfold lookup, get_dir, mbind, kst_bind, kget, kunwrap, kmodify. simpl. rewrite Hn. simpl.
  rewrite !bool_decide_eq_false_2 by tauto. rewrite Hc. unfold on_fs. simpl. by rewrite Hl'.
Qed.
Lemma absent_stirred i nm f f' : stirred f f' → absent i nm f → absent i nm f'.
Proof. intros Hs Ha g Hg. apply Ha. by etrans. Qed.
Lemma cstr_stir s f ptr p u :
  user_cstr ptr (get_user f) = Done p u → cstr ptr (stir s f) = Done p (stir s (set_user u f)).
Proof. intros Hp. unfold cstr. by rewrite (on_mem_run _ _ p u). Qed.

(** [chdir] to the path of a directory makes [getcwd] answer that path. Whatever
    the buffer, a path that does not fit in it with its final zero is [ERANGE];
    otherwise the path and the zero are what user memory then holds. *)
Theorem chdir_getcwd s ptr u names nm e d :
  vfs_ok (y_vfs s) → at_path s names nm e (DDir d) →
  let p := SLASH :: joined (names ++ [nm]) in
  user_cstr ptr (user_of s) = Done p u →
  ∃ s1, sys_chdir now ptr s = Done 0 s1 ∧ cwd s1 = d ∧
    ∀ addr len,
      (len ≤ Z.of_nat (length p) → sys_getcwd addr len s1 = Fail ERANGE s1) ∧
      (Z.of_nat (length p) < len → um_ok u addr (Z.to_nat len) →
       ∃ s2, sys_getcwd addr len s1 = Done addr s2 ∧
         um_load (user_of s2) addr (S (length p)) = Ok (p ++ [0])).
Proof.
  intros Hok Hat p Hp. assert (at_path (with_user s u) names nm e (DDir d)) as Hat' by by apply (at_path_stir s).
  destruct (find_run _ _ _ _ _ AT_FDCWD Hat') as (s1 & Hr & Hs1).
  exists (set_cwd d s1). split_and!.
  { unfold sys_chdir, cstr. rewrite (kbind_run _ _ _ _ _ (on_mem_run _ _ _ _ Hp)).
    fold p in Hr. rewrite <- kbind_assoc, (kbind_run _ _ _ _ _ Hr). done. }
  { done. }
  intros addr len.
  assert (vfs_ok (y_vfs s1)) as Hok1.
  { eapply same_tree_ok; [apply Hs1|]. by apply set_fs_ok. }
  destruct (getcwd_run (set_cwd d s1) (names ++ [nm]) addr len Hok1) as [H1 H2].
  { cbn [y_vfs set_cwd cwd]. rewrite (same_sys_follow _ _ _ Hs1). destruct Hat' as (_ & Hf & Hc).
    apply follow_snoc. unfold child_at in Hc. destruct (dirs _ !! e) as [n|] eqn:He; [|done]. eauto. }
  assert (length (SLASH :: joined (names ++ [nm]) ++ [0]) = S (length p)) as El.
  { unfold p. cbn [length]. rewrite length_app. cbn [length]. lia. }
  rewrite El in *. split; intros Hlen; [apply H1; lia|]. intros Hu. apply H2; [lia|].
  change (user_of (set_cwd d s1)) with (user_of s1). by rewrite (same_sys_user _ _ Hs1), user_of_with.
Qed.

(** ** [renameat2] *)

(** [a] is [d] or above it. *)
Inductive above (v : Vfs) (a : Z) : Z → Prop :=
| above_refl : above v a a
| above_up d n p : dirs v !! d = Some n → d_parent n = Some p → above v a p → above v a d.
Lemma is_ancestor_spec v a fuel d :
  vfs_ok v → valid_dir v d → (Z.to_nat d < fuel)%nat →
  ∃ b, is_ancestor fuel (dirs v) a d = Some b ∧ (b = true ↔ above v a d).
Proof.
  intros Hok. revert d. induction fuel as [|fuel IH]; intros d [n Hn] Hlt; [lia|]. simpl. rewrite Hn.
  destruct (Z.eqb_spec d a) as [->|Hne]; [exists true; split; [done|]; split; [intros _; apply above_refl|done]|].
  destruct (d_parent n) as [p|] eqn:Ep.
  - destruct (ok_parent v Hok _ _ _ Hn Ep) as [Hp Hv]. destruct (IH p Hv) as (b & Hb & Hiff); [lia|].
    exists b. split; [done|]. rewrite Hiff. split; [intros; by eapply above_up|].
    intros Ha. inversion Ha; simplify_eq. done.
  - exists false. split; [done|]. split; [done|]. intros Ha. inversion Ha; simplify_eq.
Qed.

(** What a rename of [m1], at [e1/nm1], to the free name [nm2] of [e2] needs: paths
    in the cache, [m1] not mounted on, one mount, and no entry of the new name, in
    the cache or in the file system. *)
Record rename_setup s (names1 : list str) (nm1 : str) (e1 : Z) (m1 : DEntry)
    (names2 : list str) (nm2 : str) (e2 : Z) (n2 : DEntryDir) (r : Z) : Prop := {
  rs_ok : vfs_ok (y_vfs s);
  rs_root : mount_root (y_vfs s) (root_dir (y_vfs s));
  rs_old : at_path s names1 nm1 e1 m1;
  rs_new : ∀ x, x ∈ names2 ++ [nm2] → good_name x;
  rs_parent : follow (y_vfs s) (root_dir (y_vfs s)) names2 = Some e2;
  rs_dir : dirs (y_vfs s) !! e2 = Some n2;
  rs_free : d_children n2 !! nm2 = None;
  rs_absent : absent (d_inode n2) nm2 (v_fs (y_vfs s));
  rs_unmounted : is_mount_root m1 (y_vfs s) = Done false (y_vfs s);
  rs_mount1 : nearest (y_vfs s) (entry_dir (y_vfs s) m1) r;
  rs_mount2 : nearest (y_vfs s) e2 r;
}.

(** The checks pass, and the rename is done in a state with the same tree. *)
Lemma rename_checks s names1 nm1 e1 m1 names2 nm2 e2 n2 r fd1 fd2 ptr1 ptr2 flags u1 u2 :
  rename_setup s names1 nm1 e1 m1 names2 nm2 e2 n2 r →
  user_cstr ptr1 (user_of s) = Done (SLASH :: joined (names1 ++ [nm1])) u1 →
  user_cstr ptr2 u1 = Done (SLASH :: joined (names2 ++ [nm2])) u2 →
  flags = 0 ∨ flags = Renameat2Flags.RENAME_NOREPLACE →
  ∃ f, touches (set_user u2 (set_user u1 (v_fs (y_vfs s)))) f ∧ sys_renameat2 now fd1 ptr1 fd2 ptr2 flags s =
    match m1 with
    | DDir od =>
        (s ← kget;
         b ← kunwrap (is_ancestor (Z.to_nat (next_id (y_vfs s))) (dirs (y_vfs s)) od e2);
         if (b : bool) then kfail EINVAL else _ ← on_vfs (rename_dir od e2 nm2); mret 0) (stir s f)
    | DBytes ob => (_ ← on_vfs (rename_file ob e2 nm2); mret 0) (stir s f)
    end.
Proof.
  intros [Hok Hroot Hold Hn2 Hf2 He2 Hc2 Habs Hun Hm1 Hm2] Hp1 Hp2 Hfl. unfold sys_renameat2.
  destruct Hold as (Hn1 & Hf1 & Hc1).
  rewrite (kbind_run _ _ s flags s) by (by destruct Hfl as [-> | ->]).
  replace (Flags.intersects flags _) with false by (by destruct Hfl as [-> | ->]).
  assert (s = stir s (v_fs (y_vfs s))) as Es by (unfold stir; destruct s as [[] ? ? ? ? ?]; done).
  pose proof (cstr_stir s _ _ _ _ Hp1) as Hc. rewrite <- Es in Hc. rewrite (kbind_run _ _ _ _ _ Hc).
  rewrite <- (user_set u1 (v_fs (y_vfs s))) in Hp2. rewrite (kbind_run _ _ _ _ _ (cstr_stir _ _ _ _ _ Hp2)).
  clear Hp1 Hp2 Es Hc. set (f1 := set_user u2 _).
  assert (absent (d_inode n2) nm2 f1) as Habs1.
  { eapply absent_stirred; [|exact Habs]. etrans; apply set_user_stirred. }
  clearbody f1. clear Habs.
  destruct (resolve_stir s f1 names1 nm1 e1 fd1 Hn1 Hf1) as (f2 & Hr & Ht2). rewrite (kbind_run _ _ _ _ _ Hr). clear Hr.
  cbn [last_type]. rewrite (kbind_run _ _ _ () (stir s f2)) by done.
  destruct (lookup_stir s f2 e1 nm1 m1 Hc1 (good_last _ _ Hn1)) as (f3 & Hl & Ht3).
  rewrite (kbind_run _ _ _ m1 (stir s f3)) by (unfold find_last; by rewrite (kbind_run _ _ _ _ _ Hl)). clear Hl.
  rewrite (kbind_run _ _ _ () (stir s f3)).
  2:{ unfold check_not_mounted.
      by rewrite (kbind_run _ _ _ _ _ (on_vfs_run _ (stir s f3) _ _ (is_mount_root_set_fs (y_vfs s) f3 m1 Hun))). }
  destruct (resolve_stir s f3 names2 nm2 e2 fd2 Hn2 Hf2) as (f4 & Hr & Ht4). rewrite (kbind_run _ _ _ _ _ Hr). clear Hr.
  cbn [last_type]. rewrite (kbind_run _ _ _ () (stir s f4)) by done.
  assert (touches f1 f4) as Ht by (etrans; [exact Ht2|]; by etrans).
  destruct (lookup_absent s f4 e2 n2 nm2 He2 (good_last _ _ Hn2) Hc2) as (f5 & Hl & Ht5).
  { by eapply absent_stirred; [apply touches_stirred|]. }
  rewrite (kbind_run _ _ _ _ _ Hl). clear Hl. rewrite (kbind_run _ _ _ false (stir s f5)) by done.
  cbn [default p2i_dir last_component]. exists f5. split; [by etrans|].
  assert (valid_entry (y_vfs s) m1) as Hv1.
  { unfold child_at in Hc1. destruct (dirs (y_vfs s) !! e1) as [n1|] eqn:He1; [|done].
    by apply (linked_valid (y_vfs s) e1 nm1), (ok_children _ Hok _ _ _ _ He1). }
  assert (same_mounted_fs m1 (DDir e2) (set_fs f5 (y_vfs s)) = Done true (set_fs f5 (y_vfs s))) as Hs.
  { rewrite (same_mounted_run (set_fs f5 (y_vfs s)) m1 (DDir e2) r r); [by rewrite bool_decide_eq_true_2| | | | | |].
    - by apply set_fs_ok.
    - exact Hroot.
    - by destruct m1.
    - by exists n2.
    - apply nearest_set_fs. by destruct m1.
    - by apply nearest_set_fs. }
  rewrite (kbind_run _ _ _ _ _ (on_vfs_run _ (stir s f5) _ _ Hs)). by destruct m1.
Qed.

(** The cache after a move: [m2], made for [nm2], in [e2], nothing at [nm1] in
    [e1], and no cached children in a directory that was moved. *)
Definition entry_inode (v : Vfs) (e : DEntry) : option (DI + BI) :=
  match e with
  | DDir d => (λ n, inl (d_inode n)) <$> dirs v !! d
  | DBytes b => (λ n, inr (b_inode n)) <$> Vfs.files v !! b
  end.
Record moved (v v' : Vfs) (m1 : DEntry) (e1 : Z) (nm1 : str) (e2 : Z) (nm2 : str) (m2 : DEntry) : Prop := {
  mv_gone : child_at v' e1 nm1 = None;
  mv_here : child_at v' e2 nm2 = Some m2;
  mv_inode : entry_inode v' m2 = entry_inode v m1;
  mv_empty d x : m2 = DDir d → child_at v' d x = None;
  mv_rest d x : valid_dir v d → (d, x) ≠ (e1, nm1) → (d, x) ≠ (e2, nm2) → child_at v' d x = child_at v d x;
}.
Lemma child_at_set_children (v : Vfs) d g d' x :
  child_at (set_dirs (alter (λ n, with_children n (g (d_children n))) d (dirs v)) v) d' x =
  if decide (d = d') then match dirs v !! d with Some n => g (d_children n) !! x | None => None end
  else child_at v d' x.
Proof.
  unfold child_at. simpl. destruct (decide (d = d')) as [<-|Hne].
  - rewrite lookup_alter_eq. by destruct (dirs v !! d).
  - by rewrite lookup_alter_ne.
Qed.
(** [delete] in [e1], a new dentry [m2], [insert] in [e2]. *)
Lemma moved_states (v v1 v2 v3 : Vfs) m1 e1 nm1 e2 nm2 m2 n1 n2 :
  dirs v !! e1 = Some n1 → d_children n1 !! nm1 = Some m1 →
  dirs v !! e2 = Some n2 → d_children n2 !! nm2 = None →
  v1 = set_dirs (alter (λ n, with_children n (delete nm1 (d_children n))) e1 (dirs v)) v →
  (∀ d, valid_dir v1 d → dirs v2 !! d = dirs v1 !! d) → entry_inode v2 m2 = entry_inode v m1 →
  (∀ d x, m2 = DDir d → d ≠ e2 ∧ child_at v2 d x = None) →
  v3 = set_dirs (alter (λ n, with_children n (<[nm2 := m2]> (d_children n))) e2 (dirs v2)) v2 →
  moved v v3 m1 e1 nm1 e2 nm2 m2.
Proof.
  intros H1 Hm1 H2 Hf -> Hsame Hino Hnew ->.
  assert (∀ d, valid_dir v d → valid_dir (set_dirs (alter (λ n, with_children n (delete nm1 (d_children n))) e1 (dirs v)) v) d) as Hv.
  { intros d [n Hn]. unfold valid_dir. simpl. destruct (decide (e1 = d)) as [->|];
      [rewrite lookup_alter_eq, Hn; by eexists|rewrite lookup_alter_ne by done; by exists n]. }
  assert (∀ d x, valid_dir v d → child_at v2 d x =
    if decide (e1 = d) then match dirs v !! e1 with Some n => delete nm1 (d_children n) !! x | None => None end
    else child_at v d x) as Hc2.
  { intros d x Hd. rewrite <- (child_at_set_children v e1 (delete nm1)). unfold child_at. by rewrite Hsame by by apply Hv. }
  assert ((e1, nm1) ≠ (e2, nm2)) as Hne by congruence.
  assert (∀ d x, valid_dir v d → match dirs v2 !! d with Some n => <[nm2 := m2]> (d_children n) !! x | None => None end =
    if decide (nm2 = x) then Some m2 else child_at v2 d x) as Hi.
  { intros d x Hd. specialize (Hsame d (Hv d Hd)). destruct (Hv d Hd) as [n Hn]. unfold child_at. rewrite Hsame, Hn.
    by rewrite lookup_insert. }
  assert (valid_dir v e1) by (by exists n1). assert (valid_dir v e2) by (by exists n2).
  split; [| | |intros d x Hm|intros d x Hd Hx1 Hx2]; try rewrite (child_at_set_children v2 e2 (insert nm2 m2)).
  - rewrite (Hi e2) by done. case_decide as E; [subst e2|].
    + rewrite decide_False by congruence. rewrite Hc2, decide_True, H1 by done. apply lookup_delete_eq.
    + rewrite Hc2, decide_True, H1 by done. apply lookup_delete_eq.
  - by rewrite decide_True, Hi, decide_True.
  - destruct m2 as [d|b]; simpl in *; [|done]. rewrite <- Hino. destruct (decide (e2 = d)) as [->|].
    + rewrite lookup_alter_eq. by destruct (dirs v2 !! d).
    + by rewrite lookup_alter_ne.
  - destruct (Hnew d x Hm) as [Hd Hc]. by rewrite decide_False.
  - assert (child_at v2 d x = child_at v d x) as Hd2.
    { rewrite Hc2 by done. case_decide as E; [subst d|done]. unfold child_at. rewrite H1.
      rewrite lookup_delete_ne; [done|]. congruence. }
    case_decide as E; [subst d|done]. rewrite Hi by done. rewrite decide_False by congruence. done.
Qed.
Lemma get_dir_run (v : Vfs) d n : dirs v !! d = Some n → get_dir d v = Done n v.
Proof. intros Hn. unfold get_dir, mbind, kst_bind, kget, kunwrap. by rewrite Hn. Qed.
Lemma get_file_run (v : Vfs) b n : Vfs.files v !! b = Some n → get_file b v = Done n v.
Proof. intros Hn. unfold get_file, mbind, kst_bind, kget, kunwrap. by rewrite Hn. Qed.
Lemma rename_entry_run (v : Vfs) m1 e1 nm1 e2 nm2 n1 n2 :
  vfs_ok v → dirs v !! e1 = Some n1 → d_children n1 !! nm1 = Some m1 →
  dirs v !! e2 = Some n2 → d_children n2 !! nm2 = None →
  ∃ v' m2, match m1 with DDir d => rename_dir d e2 nm2 | DBytes b => rename_file b e2 nm2 end v = Done () v' ∧
    moved v v' m1 e1 nm1 e2 nm2 m2 ∧ v_fs v' = v_fs v.
Proof.
  intros Hok H1 Hm1 H2 Hf. pose proof (ok_dir v Hok _ _ H2) as Hlt2. pose proof (ok_children v Hok _ _ _ _ H1 Hm1) as Hl.
  set (v1 := set_dirs (alter (λ n, with_children n (delete nm1 (d_children n))) e1 (dirs v)) v).
  assert (∀ d n, dirs v1 !! d = Some n → d < next_id v) as Hlt.
  { intros d n. simpl. destruct (decide (e1 = d)) as [->|].
    - rewrite lookup_alter_eq, H1. intros _. apply (ok_dir v Hok) in H1. lia.
    - rewrite lookup_alter_ne by done. intros Hn. apply (ok_dir v Hok) in Hn. lia. }
  destruct m1 as [od|ob]; destruct Hl as (n & Hn & Hp & Hnm).
  - set (v2 := mkVfs (<[next_id v := mkDir (Some e2) nm2 ∅ (d_inode n)]> (dirs v1)) (Vfs.files v) (next_id v + 1)
                 (v_fs v) (root_dir v) (mount_table v)).
    eexists _, (DDir (next_id v)). split.
    + unfold rename_dir. rewrite (kbind_run _ _ _ _ _ (get_dir_run v od n Hn)). rewrite Hp.
      rewrite (kbind_run _ _ _ _ _ (get_dir_run v e1 n1 H1)). rewrite Hnm.
      rewrite (kbind_run _ _ v () v1), (kbind_run _ _ v1 (next_id v) v2) by done. reflexivity.
    + split; [|done]. eapply (moved_states v v1 v2); [done..| | | |done].
      * intros d [x Hx]. simpl. rewrite lookup_insert_ne; [done|]. apply Hlt in Hx. lia.
      * simpl. by rewrite lookup_insert_eq, Hn.
      * intros d x [= <-]. split; [lia|]. unfold child_at. simpl. rewrite lookup_insert_eq. apply lookup_empty.
  - set (v2 := mkVfs (dirs v1) (<[next_id v := mkBytes e2 nm2 (b_inode n)]> (Vfs.files v)) (next_id v + 1)
                 (v_fs v) (root_dir v) (mount_table v)).
    eexists _, (DBytes (next_id v)). split.
    + unfold rename_file. rewrite (kbind_run _ _ _ _ _ (get_file_run v ob n Hn)). rewrite Hp, Hnm.
      rewrite (kbind_run _ _ v () v1), (kbind_run _ _ v1 (next_id v) v2) by done. reflexivity.
    + split; [|done]. eapply (moved_states v v1 v2); [done..| | | |done]; [done| |done]. simpl. by rewrite lookup_insert_eq, Hn.
Qed.

Section rename.
Variables (s : Sys) (names1 : list str) (nm1 : str) (e1 : Z) (m1 : DEntry).
Variables (names2 : list str) (nm2 : str) (e2 : Z) (n2 : DEntryDir) (r : Z).
Variables (fd1 fd2 ptr1 ptr2 flags : Z) (u1 u2 : UserT).
Hypothesis Hsetup : rename_setup s names1 nm1 e1 m1 names2 nm2 e2 n2 r.
Hypothesis Hptr1 : user_cstr ptr1 (user_of s) = Done (SLASH :: joined (names1 ++ [nm1])) u1.
Hypothesis Hptr2 : user_cstr ptr2 u1 = Done (SLASH :: joined (names2 ++ [nm2])) u2.
Hypothesis Hflags : flags = 0 ∨ flags = Renameat2Flags.RENAME_NOREPLACE.


End rename.

(** ** [openat] *)
Definition open_flags_ok (flags : Z) : Prop :=
  OpenFlags.from_bits flags = Some flags ∧
  Flags.intersects flags (Flags.union OpenFlags.ASYNC OpenFlags.DSYNC) = false.

Lemma openat_start s names nm e dfd ptr flags u :
  (∀ x, x ∈ names ++ [nm] → good_name x) → follow (y_vfs s) (root_dir (y_vfs s)) names = Some e →
  user_cstr ptr (user_of s) = Done (SLASH :: joined (names ++ [nm])) u → open_flags_ok flags →
  ∃ f, touches (set_user u (v_fs (y_vfs s))) f ∧ ∀ K : Z → PathToInode → kst Sys Z,
    (p ← cstr ptr; flags ← kunwrap (OpenFlags.from_bits flags);
     _ ← kassert (negb (Flags.intersects flags (Flags.union OpenFlags.ASYNC OpenFlags.DSYNC)));
     p2i ← resolve now dfd p; K flags p2i) s = K flags (mkP2i e Normal nm) (stir s f).
Proof.
  intros Hn Hf Hp [Hfl Hfl2]. assert (s = stir s (v_fs (y_vfs s))) as Es by (unfold stir; destruct s as [[] ? ? ? ? ?]; done).
  pose proof (cstr_stir s _ _ _ _ Hp) as Hc. rewrite <- Es in Hc. set (f1 := set_user u _) in *. clearbody f1.
  destruct (resolve_stir s f1 names nm e dfd Hn Hf) as (f2 & Hr & Ht). exists f2. split; [done|]. intros K.
  rewrite (kbind_run _ _ _ _ _ Hc). rewrite Hfl. rewrite (kbind_run _ _ _ flags (stir s f1)) by done. rewrite Hfl2.
  by rewrite (kbind_run _ _ _ () (stir s f1)), (kbind_run _ _ _ _ _ Hr) by done.
Qed.

(** [O_CREAT | O_EXCL] refuses a path that leads to something. *)
Lemma openat_excl s names nm e m dfd ptr flags u :
  at_path s names nm e m → user_cstr ptr (user_of s) = Done (SLASH :: joined (names ++ [nm])) u →
  open_flags_ok flags → Flags.contains flags (Flags.union OpenFlags.CREATE OpenFlags.EXCL) = true →
  ∃ f, sys_openat now dfd ptr flags s = Fail EEXIST (stir s f).
Proof.
  intros (Hn & Hf & Hc) Hp Hfl Hx. destruct (openat_start s names nm e dfd ptr flags u Hn Hf Hp Hfl) as (f & _ & Hs).
  unfold sys_openat. destruct (lookup_stir s f e nm m Hc (good_last _ _ Hn)) as (f' & Hl & _). exists f'.
  etransitivity; [apply Hs|]. cbn beta. rewrite (kbind_run _ _ _ _ _ Hl).
  unfold open_existing. by rewrite Hx.
Qed.

(** The cache with an entry for a new file. *)
Definition after_mknod (v : Vfs) (e : Z) (nm : str) (i : BI) (f : FS) : Vfs :=
  let b := next_id v in
  let v1 := mkVfs (dirs v) (<[b := mkBytes e nm i]> (Vfs.files v)) (b + 1) f (root_dir v) (mount_table v) in
  set_dirs (alter (λ n, with_children n (<[nm := DBytes b]> (d_children n))) e (dirs v1)) v1.
Lemma mknod_run s f e n nm :
  dirs (y_vfs s) !! e = Some n → is_special nm = false → d_children n !! nm = None →
  on_vfs (mknod e nm Regular) (stir s f) =
    match dir_mknod (d_inode n) nm Regular f with
    | Done i f' => Done (next_id (y_vfs s)) (set_vfs (after_mknod (y_vfs s) e nm i f') s)
    | Fail err f' => Fail err (stir s f')
    | Crash => Crash
    end.
Proof.
  intros He Hsp Hc. unfold on_vfs, mknod. rewrite bool_decide_eq_false_2 by (by intros [?|?]).
  cbn [orb]. rewrite Hsp. cbn [y_vfs stir set_vfs]. rewrite (kbind_run _ _ _ _ _ (get_dir_run (set_fs f (y_vfs s)) e n He)).
  rewrite bool_decide_eq_false_2 by (rewrite Hc; by intros [? ?]).
  unfold mbind at 1, kst_bind at 1, on_fs. cbn [v_fs set_fs]. by destruct (dir_mknod (d_inode n) nm Regular f).
Qed.
Lemma after_mknod_spec (v : Vfs) e n nm i f :
  vfs_ok v → dirs v !! e = Some n →
  let v' := after_mknod v e nm i f in
  (∀ names, follow v (root_dir v) names = Some e → follow v' (root_dir v') names = Some e) ∧
  child_at v' e nm = Some (DBytes (next_id v)) ∧ entry_inode v' (DBytes (next_id v)) = Some (inr i) ∧
  (∀ d x, (d, x) ≠ (e, nm) → child_at v' d x = child_at v d x).
Proof.
  intros Hok He v'.
  assert (Hc : ∀ d x, child_at v' d x = if decide (e = d) then <[nm := DBytes (next_id v)]> (d_children n) !! x else child_at v d x).
  { intros d x. unfold v', after_mknod. cbv zeta.
    rewrite (child_at_set_children (mkVfs (dirs v) _ _ _ _ _) e (insert nm (DBytes (next_id v)))). cbn [dirs]. by rewrite He. }
  split_and!.
  - intros names Hf. apply (follow_below v); [done|done|]. intros x Hx. simpl. by rewrite lookup_alter_ne by lia.
  - by rewrite Hc, decide_True, lookup_insert_eq.
  - simpl. by rewrite lookup_insert_eq.
  - intros d x Hdx. rewrite Hc. case_decide as E; [subst d|done]. unfold child_at. rewrite He.
    rewrite lookup_insert_ne; [done|congruence].
Qed.

(** C21: creating a file. [openat] with [O_CREAT] of a free name of a cached directory
    reads the path and the directory, and asks the file system for a new regular
    file. What that answers decides: if it gives an inode, the name leads to a new
    entry with that inode, the other names and the working directory stay, and the
    file is open at position 0 under the lowest free descriptor, the others kept;
    but when the process has as many descriptors as its limit allows the call is
    [EMFILE], and the file is there all the same; if it fails ([ENOSPC] on a full FAT volume), the call fails with
    its error and the cache and the descriptors are as they were; if it panics
    ([todo!] in a tmpfs), the call panics. *)
Theorem openat_create s names nm e n dfd ptr flags u :
  vfs_ok (y_vfs s) → (∀ x, x ∈ names ++ [nm] → good_name x) →
  follow (y_vfs s) (root_dir (y_vfs s)) names = Some e → dirs (y_vfs s) !! e = Some n →
  d_children n !! nm = None → absent (d_inode n) nm (v_fs (y_vfs s)) →
  user_cstr ptr (user_of s) = Done (SLASH :: joined (names ++ [nm])) u →
  open_flags_ok flags → Flags.contains flags OpenFlags.CREATE = true →
  let open := Z.of_nat (size (FdTable.files (fd_table s))) in
  open < 2 ^ 64 →
  ∃ f, touches (set_user u (v_fs (y_vfs s))) f ∧
    match dir_mknod (d_inode n) nm Regular f with
    | Done i f' =>
        ∃ b file s',
          at_path s' names nm e (DBytes b) ∧ entry_inode (y_vfs s') (DBytes b) = Some (inr i) ∧
          (∀ d x, (d, x) ≠ (e, nm) → child_at (y_vfs s') d x = child_at (y_vfs s) d x) ∧
          v_fs (y_vfs s') = f' ∧ cwd s' = cwd s ∧
          seek_files s' = <[file := mkSeekable b 0]> (seek_files s) ∧
          if decide (limit (fd_table s) ≤ open)
          then sys_openat now dfd ptr flags s = Fail EMFILE s' ∧ fd_table s' = fd_table s
          else ∃ fd, sys_openat now dfd ptr flags s = Done fd s' ∧ lowest_free (fd_table s) 0 fd ∧
                 fd_table s' = fd_insert (fd_table s) fd (mkFd (FSeekable file) flags)
    | Fail err f' => sys_openat now dfd ptr flags s = Fail err (stir s f')
    | Crash => sys_openat now dfd ptr flags s = Crash
    end.
Proof.
  intros Hok Hn Hf He Hc Habs Hp Hfl Hcr open Hlim.
  destruct (openat_start s names nm e dfd ptr flags u Hn Hf Hp Hfl) as (f & Ht & Hs).
  pose proof (good_last _ _ Hn) as Hsp.
  destruct (lookup_absent s f e n nm He Hsp Hc) as (f1 & Hl & Ht1).
  { eapply absent_stirred; [|exact Habs]. etrans; [apply set_user_stirred|by apply touches_stirred]. }
  exists f1. split; [by etrans|].
  pose proof (mknod_run s f1 e n nm He Hsp Hc) as Hmk.
  assert (Hopen : ∀ c : kst Sys File, c = (b ← on_vfs (mknod e nm Regular); new_seekable b) →
    sys_openat now dfd ptr flags s =
    (file ← c; s ← kget; o ← klift (fd_add (fd_table s) (mkFd file flags)); '(ret_fd, t) ← kok_or o EMFILE;
     _ ← kmodify (set_table t); mret ret_fd) (stir s f1)).
  { intros c ->. unfold sys_openat. etransitivity; [apply Hs|]. cbn beta. rewrite (kbind_run _ _ _ _ _ Hl). by rewrite Hcr. }
  rewrite (Hopen _ eq_refl). clear Hopen Hs Hl. rewrite kbind_assoc.
  destruct (dir_mknod (d_inode n) nm Regular f1) as [i f2|err f2|] eqn:Hi;
    [|unfold mbind at 1, kst_bind at 1; by rewrite Hmk..].
  set (b := next_id (y_vfs s)) in *. set (v2 := after_mknod (y_vfs s) e nm i f2) in *.
  set (s1 := mkSys v2 (fd_table s) (cwd s) (dir_files s) (<[next_file s := mkSeekable b 0]> (seek_files s))
               (next_file s + 1)).
  destruct (after_mknod_spec (y_vfs s) e n nm i f2 Hok He) as (Hfol & Hhere & Hino & Hrest).
  rewrite (kbind_run _ _ _ _ _ Hmk).
  rewrite (kbind_run _ _ _ (FSeekable (next_file s)) s1) by done. rewrite (kbind_run kget _ s1 s1 s1) by done.
  pose proof (add_from_ok (fd_table s) (mkFd (FSeekable (next_file s)) flags) 0 ltac:(lia) ltac:(lia)) as Hadd.
  fold open in Hadd. case_decide as Hd.
  - exists b, (next_file s), s1. split_and!; [split_and!; [done|by apply Hfol|done]|done|done|done|done|done| |done].
    by rewrite (kbind_run _ _ s1 None s1) by (unfold klift, fd_add; cbn [fd_table s1]; by rewrite Hadd).
  - destruct Hadd as (fd & Hadd & Hlow). set (t := fd_insert (fd_table s) fd (mkFd (FSeekable (next_file s)) flags)) in *.
    exists b, (next_file s), (set_table t s1). split_and!; [split_and!; [done|by apply Hfol|done]|done..|]. exists fd. split_and!; [|done|done].
    rewrite (kbind_run _ _ s1 (Some (fd, t)) s1) by (unfold klift, fd_add; cbn [fd_table s1]; by rewrite Hadd).
    by rewrite (kbind_run _ _ s1 (fd, t) s1), (kbind_run _ _ s1 () (set_table t s1)) by done.
Qed.

(** ** Positions *)
Definition at_offset s (f pos : Z) : Sys :=
  set_seek_files (alter (λ x, mkSeekable (sf_dentry x) pos) f (seek_files s)) s.
Lemma get_seekable_run s f x : seek_files s !! f = Some x → get_seekable f s = Done x s.
Proof. intros Hx. unfold get_seekable, mbind, kst_bind, kget, kunwrap. by rewrite Hx. Qed.
Lemma inode_of_run s b n : Vfs.files (y_vfs s) !! b = Some n → inode_of b s = Done (b_inode n) s.
Proof.
  intros Hn. unfold inode_of. erewrite kbind_run by (apply on_vfs_run, get_file_run, Hn). by rewrite set_vfs_same.
Qed.
(** [lseek] on every branch: the position asked for, if a [u64] can hold it. *)
Lemma lseek_spec s fd desc f x n offset whence :
  fd_get (fd_table s) fd = Some desc → fd_file desc = FSeekable f → seek_files s !! f = Some x →
  Vfs.files (y_vfs s) !! sf_dentry x = Some n →
  let len := data_len (file_meta (b_inode n) (v_fs (y_vfs s))) in
  sys_lseek fd offset whence s =
    if (whence =? SEEK_SET) || (whence =? SEEK_END) || (whence =? SEEK_CUR) then
      let pos := if whence =? SEEK_SET then wrap 64 offset
                 else if whence =? SEEK_END then len + offset else sf_offset x + offset in
      if (0 <=? pos) && (pos <? 2 ^ 64) then Done pos (at_offset s f pos) else Fail EOVERFLOW s
    else Fail EINVAL s.
Proof.
  intros Hd Hf Hx Hn len. unfold sys_lseek.
  rewrite (kbind_run _ _ s desc s) by (unfold get_desc, mbind, kst_bind, kget; by rewrite Hd).
  unfold fd_seek. rewrite Hf.
  assert (0 ≤ wrap 64 offset < 2 ^ 64) as Hw by (apply Z.mod_pos_bound; lia).
  destruct (whence =? SEEK_SET) eqn:E1; cbn [orb].
  { rewrite (kbind_run _ _ s (Start (wrap 64 offset)) s), (kbind_run _ _ _ _ _ (get_seekable_run s f x Hx)) by done.
    rewrite (kbind_run _ _ s (wrap 64 offset) s) by done.
    rewrite (proj2 (Z.leb_le _ _)), (proj2 (Z.ltb_lt _ _)) by lia. done. }
  destruct (whence =? SEEK_END) eqn:E2; cbn [orb].
  { rewrite (kbind_run _ _ s (End_ offset) s), (kbind_run _ _ _ _ _ (get_seekable_run s f x Hx)) by done.
    assert (inode_meta (sf_dentry x) s = Done (file_meta (b_inode n) (v_fs (y_vfs s))) s) as Hm.
    { unfold inode_meta. by rewrite (kbind_run _ _ _ _ _ (inode_of_run s _ n Hn)). }
    rewrite kbind_assoc, (kbind_run _ _ _ _ _ Hm). fold len. unfold checked_add_signed.
    by destruct ((0 <=? len + offset) && (len + offset <? 2 ^ 64)). }
  destruct (whence =? SEEK_CUR) eqn:E3; cbn [orb]; [|done].
  rewrite (kbind_run _ _ s (Current offset) s), (kbind_run _ _ _ _ _ (get_seekable_run s f x Hx)) by done.
  unfold checked_add_signed. by destruct ((0 <=? sf_offset x + offset) && (sf_offset x + offset <? 2 ^ 64)).
Qed.

(** The position belongs to the open file. After [lseek] to [pos], [read] reads
    the file at [pos]; the position is then behind what was read, for every
    descriptor that shares the open file, duplicates included. *)
Theorem lseek_read s fd desc f x n pos addr len k w :
  fd_get (fd_table s) fd = Some desc → fd_file desc = FSeekable f → seek_files s !! f = Some x →
  Vfs.files (y_vfs s) !! sf_dentry x = Some n → readable (E:=errno) desc = Ok true →
  0 ≤ pos < 2 ^ 63 → inode_read (b_inode n) (RUser addr len) pos (v_fs (y_vfs s)) = Done k w →
  0 ≤ k → pos + k < 2 ^ 64 →
  ∃ s1 s2, sys_lseek fd pos SEEK_SET s = Done pos s1 ∧ sys_read fd addr len s1 = Done k s2 ∧
    v_fs (y_vfs s2) = w ∧
    ∀ fd' desc', fd_get (fd_table s) fd' = Some desc' → fd_file desc' = FSeekable f →
      ∃ s3, sys_lseek fd' 0 SEEK_CUR s2 = Done (pos + k) s3.
Proof.
  intros Hd Hf Hx Hn Hr Hpos Hread Hk Hb. set (s1 := at_offset s f pos).
  set (s2 := at_offset (stir s1 w) f (pos + k)).
  assert (seek_files s1 !! f = Some (mkSeekable (sf_dentry x) pos)) as Hx1.
  { simpl. by rewrite lookup_alter_eq, Hx. }
  assert (seek_files s2 !! f = Some (mkSeekable (sf_dentry x) (pos + k))) as Hx2.
  { unfold s2. cbn [seek_files at_offset set_seek_files stir set_vfs]. by rewrite lookup_alter_eq, Hx1. }
  exists s1, s2. split_and!.
  - rewrite (lseek_spec s fd desc f x n) by done. cbn -[Z.pow].
    rewrite wrap_small by lia. rewrite (proj2 (Z.leb_le _ _)), (proj2 (Z.ltb_lt _ _)) by lia. done.
  - unfold sys_read. rewrite (kbind_run _ _ s1 desc s1).
    2:{ unfold on_table, prepare_io, mbind, kst_bind, kget, kok_or. cbn -[readable].
        rewrite Hd. cbn -[readable]. rewrite Hr. cbn. done. }
    unfold fd_read. rewrite Hf, (kbind_run _ _ _ _ _ (get_seekable_run s1 f _ Hx1)).
    rewrite (kbind_run _ _ _ _ _ (inode_of_run s1 _ n Hn)). cbn [sf_offset].
    rewrite (kbind_run _ _ s1 k (stir s1 w)) by (unfold on_world, on_vfs, on_fs; cbn [y_vfs s1 at_offset set_seek_files]; by rewrite Hread).
    unfold uadd. rewrite checked_fits by lia. by rewrite (kbind_run _ _ _ (pos + k) (stir s1 w)) by done.
  - done.
  - intros fd' desc' Hd' Hf'. rewrite (lseek_spec s2 fd' desc' f _ n 0 SEEK_CUR Hd' Hf' Hx2 Hn). cbn -[Z.pow].
    rewrite Z.add_0_r, (proj2 (Z.leb_le _ _)), (proj2 (Z.ltb_lt _ _)) by lia. by eexists.
Qed.
End paths.
