(* ===== verification/SysFsDemo.v ===== *)
(** * The file system calls on a file system in memory

    An instance of [DirBackend] and [World] with directories and regular files
    in memory and a flat user memory, and the theorems about the calls applied
    to it. *)
From S2P Require Import Prelude BTree Address Defines Kst UserCheck UserAccess FdTable Inode Vfs VfsSpec SysFs SysFsSpec SysFsPaths.

Module Ram.
Record St : Type := mkSt {
  metas : gmap Z InodeMeta;
  datas : gmap Z (list Z);
  counter : Z;
  user : Flat.t;
  kbuf : list Z;
}.
Definition t0 : TimeSpec := mkTimeSpec 7 0.
Definition with_user (u : Flat.t) (s : St) : St := mkSt (metas s) (datas s) (counter s) u (kbuf s).
Definition with_kbuf (b : list Z) (s : St) : St := mkSt (metas s) (datas s) (counter s) (user s) b.
Definition meta (m : InodeMode) (i : Z) (s : St) : InodeMeta := default (Meta.new i m) (metas s !! i).
(** The metadata of directories is under even, that of files under odd keys. *)
Definition set_meta (i : Z) (m : InodeMeta) (s : St) : St :=
  mkSt (<[i := m]> (metas s)) (datas s) (counter s) (user s) (kbuf s).
Definition new_inode (m : InodeMode) : kst St Z :=
  s ← kget;
  let i := counter s in
  _ ← kput (mkSt (<[2 * i + (if bool_decide (m = Dir) then 0 else 1) := Meta.new i m]> (metas s))
              (<[i := []]> (datas s)) (counter s + 1) (user s) (kbuf s));
  mret i.

#[local] Instance RamDirs : DirBackend := {|
  DI := Z; BI := Z; FS := St;
  dir_lookup _ _ := mret None; dir_mkdir _ _ := new_inode Dir; dir_mknod _ _ m := new_inode m;
  dir_unlink _ _ := mret (); dir_read_dir _ _ := mret [];
  dir_meta i := meta Dir (2 * i); dir_set_meta i := set_meta (2 * i);
  file_meta i := meta Regular (2 * i + 1); file_set_meta i := set_meta (2 * i + 1);
  file_addr i := i;
|}.

Definition on_user {A} (c : kst Flat.t A) : kst St A := λ s,
  match c (user s) with
  | Done a u => Done a (with_user u s)
  | Fail e u => Fail e (with_user u s)
  | Crash => Crash
  end.
Definition data (i : Z) (s : St) : list Z := default [] (datas s !! i).
Definition read (i : Z) (buf : ReadBuffer) (offset : Z) : kst St Z :=
  s ← kget;
  let rest := drop (Z.to_nat offset) (data i s) in
  match buf with
  | RKernel =>
      let bs := take (length (kbuf s)) rest in
      _ ← kput (with_kbuf (bs ++ drop (length bs) (kbuf s)) s);
      mret (Z.of_nat (length bs))
  | RUser addr len =>
      let bs := take (Z.to_nat len) rest in
      _ ← on_user (_ ← check_write addr (Z.of_nat (length bs)); store_user addr bs);
      mret (Z.of_nat (length bs))
  end.
Definition write (i : Z) (buf : WriteBuffer) (offset : Z) : kst St Z :=
  bs ← match buf with
       | WKernel bs => mret bs
       | WUser addr len => on_user (_ ← check_read addr len; load_user addr (Z.to_nat len))
       end;
  s ← kget;
  let old := data i s in
  let n := Z.to_nat offset in
  let new := take n (old ++ replicate (n - length old) 0) ++ bs ++ drop (n + length bs) old in
  _ ← kput (mkSt (<[2 * i + 1 := Meta.with_len (meta Regular (2 * i + 1) s) (Z.of_nat (length new))]> (metas s))
              (<[i := new]> (datas s)) (counter s) (user s) (kbuf s));
  mret (Z.of_nat (length bs)).
Definition resize (i len : Z) : kst St () :=
  kmodify (λ s, mkSt (<[2 * i + 1 := Meta.with_len (meta Regular (2 * i + 1) s) len]> (metas s))
                  (<[i := take (Z.to_nat len) (data i s)]> (datas s)) (counter s) (user s) (kbuf s)).
(** The bytes up to a zero. *)
Fixpoint until_zero (l : list Z) : option (list Z) :=
  match l with
  | [] => None
  | c :: l => if c =? 0 then Some [] else r ← until_zero l; mret (c :: r)
  end.
Definition cstr (ptr : Z) : kst Flat.t str := λ u,
  match until_zero (drop (Flat.off u ptr) (Flat.cells u)) with Some p => Done p u | None => Fail EFAULT u end.

#[local] Instance RamWorld : World := {|
  PipeT := Empty_set; UserT := Flat.t; user_mem := Flat.FlatMemory;
  get_user := user; set_user := with_user; user_cstr := cstr; set_kbuf := with_kbuf; get_kbuf := kbuf;
  inode_read := read : @BI RamDirs → ReadBuffer → Z → kst FS Z;
  inode_write := write : @BI RamDirs → WriteBuffer → Z → kst FS Z;
  inode_resize := resize : @BI RamDirs → Z → kst FS ();
  inode_ioctl _ _ _ := kfail ENOTTY;
  new_pipe := kfail EMFILE; pipe_read p := match p with end; pipe_write p := match p with end;
  pipe_meta p := match p with end;
  new_tmp_dir := new_inode Dir : kst (@FS RamDirs) (@DI RamDirs);
  new_tty := new_inode CharDevice : kst (@FS RamDirs) (@BI RamDirs);
  new_rtc := new_inode CharDevice : kst (@FS RamDirs) (@BI RamDirs);
  new_mounts := new_inode Regular : kst (@FS RamDirs) (@BI RamDirs);
  new_meminfo := new_inode Regular : kst (@FS RamDirs) (@BI RamDirs);
|}.
#[local] Instance RamLaws : WorldLaws.
Proof.
  constructor; [done|done|done|]. intros b i m f. unfold file_meta, dir_set_meta. simpl. unfold meta, set_meta. simpl.
  rewrite lookup_insert_ne; [done|lia].
Qed.

(** ** A process at the root of [/a/b] *)
Definition str_a : str := [97].
Definition str_b : str := [98].
Definition str_c : str := [99].
(** User memory: ["/a"], ["/a/b"], ["/a/c"], ["/a/b/c"] and ["/c"] at 4096, 4104, ...,
    zeros from 4136 on. *)
Definition demo_user : Flat.t :=
  Flat.mk 4096 ([47; 97; 0; 0; 0; 0; 0; 0; 47; 97; 47; 98; 0; 0; 0; 0; 47; 97; 47; 99; 0; 0; 0; 0;
                 47; 97; 47; 98; 47; 99; 0; 0; 47; 99; 0; 0; 0; 0; 0; 0] ++ replicate 64 0).
Definition empty_vfs : Vfs := root_vfs (DB:=RamDirs) 0 (mkSt ∅ ∅ 1 demo_user []) [118; 102; 97; 116].
Definition a_b : kst Vfs Z := c ← mkdir (DB:=RamDirs) 0 str_a; mkdir (DB:=RamDirs) c str_b.
Definition demo_vfs : Vfs := default empty_vfs (kstate (a_b empty_vfs)).
Definition demo_sys : Sys :=
  mkSys demo_vfs (mkTable ∅ (mkRLimit 1024 RLIM_INFINITY)) 0 ∅ ∅ 0.

Lemma ram_vfs_ok : vfs_ok demo_vfs.
Proof.
  destruct (root_vfs_ok (DB:=RamDirs) 0 (mkSt ∅ ∅ 1 demo_user []) [118; 102; 97; 116]) as [Hok _].
  assert (gspec (¬ backend_total) empty_vfs a_b (λ _ _, True)) as H.
  { eapply spec_bind; [apply mkdir_spec; [done|by eexists]|]. intros c s Hok1 _ Hl. cbn beta in Hl.
    eapply spec_mono; [apply mkdir_spec; [done|by apply (linked_valid _ _ _ _ Hl)]|done]. }
  unfold demo_vfs, gspec in *. destruct (a_b empty_vfs); simpl; [by apply H..|done].
Qed.
Lemma demo_sys_ok : sys_ok demo_sys.
Proof.
  constructor; [exact ram_vfs_ok|by eexists|..]; intros f x; simpl; by rewrite lookup_empty.
Qed.
Lemma good_names l : forallb (λ nm, negb (bool_decide (nm = [])) && negb (bool_decide (SLASH ∈ nm)) && negb (is_special nm)) l = true →
  ∀ nm, nm ∈ l → good_name nm.
Proof.
  intros H nm Hnm. rewrite forallb_forall in H. apply list_elem_of_In, H in Hnm.
  apply andb_true_iff in Hnm as [[H1 H2]%andb_true_iff H3]. apply negb_true_iff in H1, H2, H3.
  apply bool_decide_eq_false in H1, H2. done.
Qed.
Lemma demo_at_b : at_path demo_sys [str_a] str_b 1 (DDir 2).
Proof. split_and!; [by apply good_names|vm_compute; reflexivity..]. Qed.

Lemma fs_calls_invariant_witness :
  ∃ s', kvalue (run_call t0 (COpenat AT_FDCWD 4112 OpenFlags.CREATE) demo_sys) = Some 0 ∧
        rtc call_step demo_sys s' ∧ sys_ok s'.
Proof.
  assert (kvalue (run_call t0 (COpenat AT_FDCWD 4112 OpenFlags.CREATE) demo_sys) = Some 0) as Hv by (vm_compute; reflexivity).
  revert Hv. destruct (run_call t0 (COpenat AT_FDCWD 4112 OpenFlags.CREATE) demo_sys) as [r s'|e s'|] eqn:E;
    intros Hv; [|discriminate Hv..].
  exists s'. assert (rtc call_step demo_sys s') as Hs by (apply rtc_once; by eapply call_done).
  split; [exact Hv|]. split; [exact Hs|exact (proj1 (fs_calls_invariant demo_sys s' Hs demo_sys_ok))].
Defined.

Lemma chdir_getcwd_witness :
  ∃ s1 s2, sys_chdir t0 4104 demo_sys = Done 0 s1 ∧ cwd s1 = 2 ∧ sys_getcwd 4136 10 s1 = Done 4136 s2 ∧
           um_load (user_of s2) 4136 5 = Ok [47; 97; 47; 98; 0].
Proof.
  destruct (chdir_getcwd t0 demo_sys 4104 demo_user [str_a] str_b 1 2 ram_vfs_ok demo_at_b) as (s1 & H1 & H2 & H3);
    [vm_compute; reflexivity|].
  destruct (H3 4136 10) as [_ H4]. destruct H4 as (s2 & H5 & H6); [reflexivity|vm_compute; reflexivity|].
  exists s1, s2. split; [exact H1|]. split; [exact H2|]. split; [exact H5|exact H6].
Defined.

Definition dentry (d : Z) : DEntryDir := default (mkDir (DB:=RamDirs) None [] ∅ 0) (dirs demo_vfs !! d).

(** ** A file of four bytes, open as 3 and 4, and the root directory, open as 5 *)
Definition file_st : St := mkSt ∅ {[9 := [10; 20; 30; 40]]} 10 demo_user [].
Definition file_vfs : Vfs :=
  mkVfs (dirs demo_vfs) {[5 := mkBytes (DB:=RamDirs) 1 str_c 9]} 6 (file_st : @FS RamDirs) 0 (mount_table demo_vfs).
Definition file_desc : FileDescriptor File := mkFd (FSeekable 0) OpenFlags.RDONLY.
Definition dir_desc : FileDescriptor File := mkFd (FDir 1) OpenFlags.RDONLY.
Definition file_sys : Sys :=
  mkSys file_vfs (mkTable (<[3 := file_desc]> (<[4 := file_desc]> {[5 := dir_desc]})) (mkRLimit 1024 RLIM_INFINITY)) 0
    {[1 := mkDirFile 0 0]} {[0 := mkSeekable 5 0]} 2.

Lemma lseek_read_witness :
  ∃ s1 s2 s3, sys_lseek 3 1 SEEK_SET file_sys = Done 1 s1 ∧ sys_read 3 4136 2 s1 = Done 2 s2 ∧
    sys_lseek 4 0 SEEK_CUR s2 = Done 3 s3.
Proof.
  assert (kvalue (read 9 (RUser 4136 2) 1 file_st) = Some 2) as Hv by (vm_compute; reflexivity).
  revert Hv. destruct (read 9 (RUser 4136 2) 1 file_st) as [k w|e w|] eqn:E; intros Hv; [|discriminate Hv..].
  injection Hv as ->.
  destruct (lseek_read file_sys 3 file_desc 0 (mkSeekable 5 0) (mkBytes (DB:=RamDirs) 1 str_c 9) 1 4136 2 2 w)
    as (s1 & s2 & H1 & H2 & _ & H3);
    [exact (lookup_insert_eq _ 3 file_desc)|reflexivity|exact (lookup_singleton_eq 0 _)|exact (lookup_singleton_eq 5 _)|
     reflexivity|lia|exact E|lia|lia|].
  destruct (H3 4 file_desc) as [s3 H4]; [|reflexivity|].
  { unfold fd_get, file_sys. cbn [fd_table FdTable.files]. rewrite lookup_insert_ne by lia. exact (lookup_insert_eq _ 4 file_desc). }
  exists s1, s2, s3. split; [exact H1|]. split; [exact H2|exact H4].
Defined.

(** [read] of a directory is [EBADF], [lseek] on one panics ([todo!]). *)
Lemma dir_read_seek :
  match sys_read 5 4136 8 file_sys with Fail e _ => e = EBADF | _ => False end ∧
  kcrashes (sys_lseek 5 0 SEEK_SET file_sys) = true.
Proof. split; vm_compute; reflexivity. Qed.

(** [getdents64] rounds a record up after it checked that the record fits: into a
    buffer of 21 bytes it claims to have put 24. *)
Lemma getdents_past_end : kvalue (sys_getdents64 5 4136 21 file_sys) = Some 24.
Proof. vm_compute. reflexivity. Qed.

(** [utimensat] with access time 1 and modification time 2 sets both to 1. *)
Definition times_user : Flat.t :=
  Flat.mk 4096 ([47; 97; 0; 0; 0; 0; 0; 0] ++ to_le_bytes 8 1 ++ to_le_bytes 8 0 ++ to_le_bytes 8 2 ++ to_le_bytes 8 0).
Definition times_sys : Sys :=
  set_vfs (set_fs (with_user times_user (v_fs demo_vfs) : @FS RamDirs) demo_vfs) demo_sys.
Lemma utimensat_mtime :
  match sys_utimensat t0 AT_FDCWD 4096 (Some 4104) 0 times_sys with
  | Done _ s => modify_time (dir_meta (d_inode (dentry 1)) (v_fs (y_vfs s))) = mkTimeSpec 1 0
  | _ => False
  end.
Proof. vm_compute. reflexivity. Qed.
End Ram.
