(* ===== verification/Executor.v ===== *)
(** * Time, timers and the task queue

    [arch/riscv_time], [utils/executor] and the system calls of
    [kernel/src/syscall/time.rs] and [misc.rs]. The hardware counter is the
    number of ticks since boot. The crates [async_task] and [crossbeam_queue] are
    the classes [AsyncTask] and [ArrayQueue]; a waker is the number of its
    task. *)
From S2P Require Import Prelude BTree Address Defines Kst UserCheck UserAccess SysFs.

(** ** [riscv_time] *)
Definition get_time_ns (ticks : Z) : KResult Z := let? x := umul 64 ticks NANO_PER_SEC in Ok (x / CLOCK_FREQ).
Definition get_time_us (ticks : Z) : KResult Z := let? x := umul 64 ticks MICRO_PER_SEC in Ok (x / CLOCK_FREQ).
Definition get_time_ms (ticks : Z) : KResult Z := let? x := umul 64 ticks MILLI_PER_SEC in Ok (x / CLOCK_FREQ).
Definition TICKS_PER_SEC : Z := 100.
Definition set_next_trigger (ticks : Z) : KResult Z := uadd 64 ticks (CLOCK_FREQ / TICKS_PER_SEC).

(** [Duration::from_nanos], [curr_time], [curr_time_spec] *)
Definition curr_time (ticks : Z) : KResult Duration :=
  let? ns := get_time_ns ticks in Ok (mkDuration (ns / NANO_PER_SEC) (ns mod NANO_PER_SEC)).
Definition curr_time_spec (ticks : Z) : KResult TimeSpec :=
  let? d := curr_time ticks in Ok (TimeSpec_from_duration d).

(** ** System calls *)
Section calls.
Context {U : Type} `{UserMemory U}.

Definition put_bytes (ptr : Z) (bs : list Z) : kst U () :=
  _ ← check_write ptr (Z.of_nat (length bs)); store_user ptr bs.

Definition sys_get_time_of_day (ticks tv tz : Z) : kst U Z :=
  _ ← kassert (tz =? 0);
  _ ← check_write tv 16;
  us ← klift (get_time_us ticks);
  _ ← store_user tv (to_le_bytes 8 (us / MICRO_PER_SEC) ++ to_le_bytes 8 (us mod MICRO_PER_SEC));
  mret 0.

Definition CLOCK_REALTIME : Z := 0.
Definition sys_clock_gettime (ticks clock_id ts : Z) : kst U Z :=
  _ ← kassert (clock_id =? CLOCK_REALTIME);
  _ ← check_write ts 16;
  ns ← klift (get_time_ns ticks);
  _ ← store_user ts (to_le_bytes 8 (ns / NANO_PER_SEC) ++ to_le_bytes 8 (ns mod NANO_PER_SEC));
  mret 0.

Definition sys_times (ticks tms : Z) : kst U Z :=
  _ ← put_bytes tms (concat (replicate 4 (to_le_bytes 8 (ticks / 4))));
  mret 0.

(** [UtsName::new]: six fields of 65 bytes. *)
Definition str_to_bytes (info : list Z) : list Z := take 65 (info ++ replicate 65 0).
Definition UtsName_new : list Z :=
  str_to_bytes [97; 115; 121; 110; 99; 108; 101; 97; 114] ++
  str_to_bytes [97; 115; 121; 110; 99; 108; 101; 97; 114; 32; 45; 32; 109; 97; 99; 104; 105; 110; 101; 91; 48; 93] ++
  str_to_bytes [110; 117; 108; 108] ++ str_to_bytes [48; 46; 49] ++ str_to_bytes [113; 101; 109; 117] ++
  str_to_bytes [110; 117; 108; 108].
Definition sys_uname (ptr : Z) : kst U Z := _ ← put_bytes ptr UtsName_new; mret 0.
Definition sys_syslog (log_type ptr len : Z) : kst U Z := _ ← check_write ptr len; mret 0.
(** [SysInfo]: the uptime, everything else zero; 112 bytes. *)
Definition sys_sysinfo (ticks ptr : Z) : kst U Z :=
  _ ← check_write ptr 112;
  d ← klift (curr_time ticks);
  _ ← store_user ptr (to_le_bytes 8 (d_secs d) ++ replicate 104 0);
  mret 0.
End calls.

(** ** Timers

    [TIMERS] is a binary heap with the earliest timer on top. Among equal timers
    the heap may choose; here it takes the first. *)
Record Timer : Type := mkTimer { expire_ms : Z; waker : Z }.
#[export] Instance Timer_eq_dec : EqDecision Timer.
Proof. solve_decision. Defined.

(** [BinaryHeap::pop]: the earliest timer and the others. *)
Fixpoint pop_earliest (l : list Timer) : option (Timer * list Timer) :=
  match l with
  | [] => None
  | t :: l =>
      match pop_earliest l with
      | Some (u, others) =>
          if expire_ms t <=? expire_ms u then Some (t, l) else Some (u, t :: others)
      | None => Some (t, [])
      end
  end.
(** The [while] loop of [check_timer]: the timers it pops, in order, and those
    that stay. *)
Fixpoint check_loop (fuel : nat) (curr_ms : Z) (l : list Timer) : list Timer * list Timer :=
  match fuel, pop_earliest l with
  | S fuel, Some (t, others) =>
      if expire_ms t <=? curr_ms then
        let '(popped, kept) := check_loop fuel curr_ms others in (t :: popped, kept)
      else ([], l)
  | _, _ => ([], l)
  end.
Definition check_timer (curr_ms : Z) (l : list Timer) : list Timer * list Timer :=
  check_loop (length l) curr_ms l.

Record TimerFuture : Type := mkFuture { f_expire_ms : Z; timer_activated : bool }.
(** [sleep]; [as_millis() as usize] *)
Definition sleep (curr_ms : Z) (time : Duration) : KResult TimerFuture :=
  let? e := uadd 64 curr_ms (wrap 64 (as_millis time)) in Ok (mkFuture e false).
(** [Future::poll]: ready or not, the future and the timers. *)
Definition poll_timer (curr_ms w : Z) (f : TimerFuture) (timers : list Timer) : bool * TimerFuture * list Timer :=
  if curr_ms <? f_expire_ms f then
    if timer_activated f then (false, f, timers)
    else (false, mkFuture (f_expire_ms f) true, mkTimer (f_expire_ms f) w :: timers)
  else (true, f, timers).
(** [YieldFuture::poll]: ready or not, the future, and whether it woke its task. *)
Definition poll_yield (first_pool : bool) : bool * bool * bool :=
  if first_pool then (false, false, true) else (true, first_pool, false).

(** [sys_nanosleep] up to its [await], in a process at [ticks]. *)
Definition sys_nanosleep {U} `{UserMemory U} (ticks ptr : Z) : kst U TimerFuture :=
  _ ← check_read ptr 16;
  bs ← load_user ptr 16;
  d ← klift (Duration_try_from (TimeSpec_of bs));
  ms ← klift (get_time_ms ticks);
  klift (sleep ms d).

(** ** The runtime

    [async_task]: the state of a task as its wakers and its [Runnable] see it.
    Waking an idle task schedules it; waking a task that runs schedules it when
    the poll returns pending; waking a scheduled or completed task does nothing. *)
Inductive TaskStatus : Type :=
| Idle
| Scheduled
| Running (notified : bool)
| Completed.
#[export] Instance TaskStatus_eq_dec : EqDecision TaskStatus.
Proof. solve_decision. Defined.

Class AsyncTask (T : Type) := {
  status : T → TaskStatus;
  at_spawn : T;
  at_wake : T → T * bool;
  at_start : T → T;
  at_finish : bool → T → T * bool;
  at_spawn_status : status at_spawn = Scheduled;
  at_wake_status t :
    status (at_wake t).1 =
      match status t with Idle => Scheduled | Running _ => Running true | st => st end ∧
    (at_wake t).2 = bool_decide (status t = Idle);
  at_start_status t : status t = Scheduled → status (at_start t) = Running false;
  at_finish_status ready t n :
    status t = Running n →
    status (at_finish ready t).1 = (if ready then Completed else if n then Scheduled else Idle) ∧
    (at_finish ready t).2 = negb ready && n;
}.

(** [crossbeam_queue::ArrayQueue]: a bounded queue, first in first out. *)
Class ArrayQueue (Q : Type) := {
  aq_view : Q → list Z;
  aq_new : Q;
  aq_push : Z → Q → option Q;
  aq_pop : Q → option (Z * Q);
  aq_new_view : aq_view aq_new = [];
  aq_push_view x q :
    match aq_push x q with
    | Some q' => aq_view q' = aq_view q ++ [x]
    | None => TASK_LIMIT ≤ Z.of_nat (length (aq_view q))
    end;
  aq_pop_view q :
    match aq_pop q with
    | Some (x, q') => aq_view q = x :: aq_view q'
    | None => aq_view q = []
    end;
}.

Section executor.
Context {T Q : Type} `{AsyncTask T} `{ArrayQueue Q}.

(** [TaskQueue::push_task] and [fetch_task] *)
Definition push_task (task : Z) (q : Q) : KResult Q := unwrap (aq_push task q).
Definition fetch_task (q : Q) : option (Z * Q) := aq_pop q.

(** A task spawned with [spawn_with(sleep(d), ..)]. Interrupts arrive while a task
    is polled, so a poll is cut at the points where the state can change under it:
    before the clock is read, before the timer is pushed (the lock of [TIMERS]
    keeps interrupts out), and before the poll returns to [Runnable::run]. *)
Record Task : Type := mkTask { handle : T; future : TimerFuture }.
Inductive poll_pc : Type :=
| AtCompare
| AtPush
| AtReturn (ready : bool).
Record Ex : Type := mkEx {
  ticks : Z;
  timers : list Timer;
  queue : Q;
  tasks : gmap Z Task;
  running : option (Z * poll_pc);
}.
Definition set_ticks (n : Z) (s : Ex) : Ex := mkEx n (timers s) (queue s) (tasks s) (running s).
Definition set_timers (l : list Timer) (s : Ex) : Ex := mkEx (ticks s) l (queue s) (tasks s) (running s).
Definition set_queue (q : Q) (s : Ex) : Ex := mkEx (ticks s) (timers s) q (tasks s) (running s).
Definition set_task (w : Z) (t : Task) (s : Ex) : Ex :=
  mkEx (ticks s) (timers s) (queue s) (<[w := t]> (tasks s)) (running s).
Definition set_running (r : option (Z * poll_pc)) (s : Ex) : Ex :=
  mkEx (ticks s) (timers s) (queue s) (tasks s) r.
Definition ex_init : Ex := mkEx 0 [] aq_new ∅ None.

(** The schedule closure of [spawn_with]; the action is that of the caller. *)
Definition schedule (w : Z) (s : Ex) : KResult Ex :=
  let? q := push_task w (queue s) in Ok (set_queue q s).
(** [Waker::wake] *)
Definition wake (s : Ex) (w : Z) : KResult Ex :=
  match tasks s !! w with
  | None => Ok s
  | Some t =>
      let '(h, sched) := at_wake (handle t) in
      let s := set_task w (mkTask h (future t)) s in
      if sched then schedule w s else Ok s
  end.
Fixpoint wake_all (s : Ex) (l : list Timer) : KResult Ex :=
  match l with
  | [] => Ok s
  | t :: l => let? s := wake s (waker t) in wake_all s l
  end.
(** [check_timer] in the timer interrupt. *)
Definition timer_irq (s : Ex) : KResult Ex :=
  let? ms := get_time_ms (ticks s) in
  let '(popped, kept) := check_timer ms (timers s) in
  wake_all (set_timers kept s) popped.
(** [spawn_with(sleep(time), ..)] and [Runnable::schedule] *)
Definition spawn_with (w : Z) (time : Duration) (s : Ex) : KResult Ex :=
  let? ms := get_time_ms (ticks s) in
  let? f := sleep ms time in
  schedule w (set_task w (mkTask at_spawn f) s).

(** The loop of [run_until_shutdown], one step at a time. *)
Definition advance (s : Ex) : KResult Ex :=
  match running s with
  | None =>
      match fetch_task (queue s) with
      | None => Ok s
      | Some (w, q) =>
          let? t := unwrap (tasks s !! w) in
          Ok (set_running (Some (w, AtCompare)) (set_queue q (set_task w (mkTask (at_start (handle t)) (future t)) s)))
      end
  | Some (w, AtCompare) =>
      let? t := unwrap (tasks s !! w) in
      let? ms := get_time_ms (ticks s) in
      Ok (set_running (Some (w, if ms <? f_expire_ms (future t)
                                then if timer_activated (future t) then AtReturn false else AtPush
                                else AtReturn true)) s)
  | Some (w, AtPush) =>
      let? t := unwrap (tasks s !! w) in
      let e := f_expire_ms (future t) in
      Ok (set_running (Some (w, AtReturn false))
            (set_task w (mkTask (handle t) (mkFuture e true)) (set_timers (mkTimer e w :: timers s) s)))
  | Some (w, AtReturn ready) =>
      let? t := unwrap (tasks s !! w) in
      let '(h, sched) := at_finish ready (handle t) in
      let s := set_running None (set_task w (mkTask h (future t)) s) in
      if sched then schedule w s else Ok s
  end.

(** What can happen next: time passes, the timer interrupt, a task is spawned, the
    executor goes on. *)
Inductive ex_step : Ex → Ex → Prop :=
| step_tick n s : 0 ≤ n → ex_step s (set_ticks (ticks s + n) s)
| step_irq s s' : timer_irq s = Ok s' → ex_step s s'
| step_spawn w d s s' :
    tasks s !! w = None → 0 ≤ as_millis d < 2 ^ 64 → spawn_with w d s = Ok s' → ex_step s s'
| step_advance s s' : advance s = Ok s' → ex_step s s'.

Definition now_ms (s : Ex) : Z := ticks s * MILLI_PER_SEC / CLOCK_FREQ.
Definition status_of (s : Ex) (w : Z) : option TaskStatus := (status ∘ handle) <$> tasks s !! w.
(** [n] steps of the executor with nothing in between. *)
Definition advances (n : nat) (s : Ex) : KResult Ex := Nat.iter n (λ o, let? s := o in advance s) (Ok s).

(** Between [AtCompare] and [AtReturn], undisturbed, these steps are one
    [poll_timer]. *)
Lemma advance_polls s w t ms ready f ts :
  running s = Some (w, AtCompare) → tasks s !! w = Some t → get_time_ms (ticks s) = Ok ms →
  poll_timer ms w (future t) (timers s) = (ready, f, ts) →
  ∃ n, (n ≤ 2)%nat ∧ advances n s =
    Ok (set_running (Some (w, AtReturn ready)) (set_task w (mkTask (handle t) f) (set_timers ts s))).
Proof.
  intros Hr Ht Hms. destruct t as [h [e act]].
  assert (Hid : set_task w (mkTask h (mkFuture e act)) (set_timers (timers s) s) = s).
  { destruct s. unfold set_task, set_timers. simpl in *. f_equal. by apply insert_id. }
  unfold poll_timer. simpl. destruct (ms <? e) eqn:He; [destruct act|]; intros [= <- <- <-].
  - exists 1%nat. split; [lia|]. rewrite Hid. simpl. unfold advance. by rewrite Hr, Ht; simpl; rewrite Hms; simpl; rewrite He.
  - exists 2%nat. split; [lia|]. simpl. unfold advance at 2. rewrite Hr, Ht. simpl. rewrite Hms. simpl. rewrite He.
    unfold advance. simpl. by rewrite Ht.
  - exists 1%nat. split; [lia|]. rewrite Hid. simpl. unfold advance. by rewrite Hr, Ht; simpl; rewrite Hms; simpl; rewrite He.
Qed.
End executor.
