(* ===== verification/ExecutorSpec.v ===== *)
(** * The timers wake what sleeps

    Over every interleaving of ticks, timer interrupts, spawns and steps of the
    executor: a sleeping task is woken by the first interrupt after its deadline,
    whatever the moment the interrupt arrives at, and never finishes before. *)
From S2P Require Import Prelude BTree Address Defines Kst UserCheck UserAccess SysFs Executor.
From Stdlib Require Import Sorted.

(** ** The heap *)
Lemma pop_earliest_spec l :
  match pop_earliest l with
  | None => l = []
  | Some (t, others) => l ≡ₚ t :: others ∧ Forall (λ u, expire_ms t ≤ expire_ms u) others
  end.
Proof.
  induction l as [|t l IH]; simpl; [done|].
  destruct (pop_earliest l) as [[u others]|]; [|by subst].
  destruct IH as [Hp Hf]. destruct (Z.leb_spec (expire_ms t) (expire_ms u)).
  - split; [done|]. rewrite Hp. constructor; [lia|]. eapply Forall_impl; [exact Hf|]. simpl. lia.
  - split; [by rewrite Hp, Permutation_swap|]. constructor; [lia|done].
Qed.

Definition earlier (t u : Timer) : Prop := expire_ms t ≤ expire_ms u.

Lemma check_loop_spec ms n l :
  (length l ≤ n)%nat →
  ∃ popped kept, check_loop n ms l = (popped, kept) ∧ l ≡ₚ popped ++ kept ∧
    StronglySorted earlier popped ∧
    Forall (λ t, expire_ms t ≤ ms) popped ∧ Forall (λ t, ms < expire_ms t) kept.
Proof.
  revert l. induction n as [|n IH]; intros l Hl.
  { destruct l; [|simpl in Hl; lia]. exists [], []. repeat constructor. }
  simpl. pose proof (pop_earliest_spec l) as Hp. destruct (pop_earliest l) as [[t others]|].
  2:{ subst. exists [], []. repeat constructor. }
  destruct Hp as [Hp Hf]. destruct (Z.leb_spec (expire_ms t) ms) as [Ht|Ht].
  - destruct (IH others) as (popped & kept & -> & Ho & Hs & Hpop & Hk).
    { apply Permutation_length in Hp. simpl in Hp. lia. }
    exists (t :: popped), kept. split; [done|]. split; [by rewrite Hp, Ho|].
    split; [constructor; [done|]|by split; [constructor|]].
    rewrite Ho, Forall_app in Hf. apply Hf.
  - exists [], l. split; [done|]. split; [done|]. split; [constructor|]. split; [done|].
    rewrite Hp. constructor; [done|]. eapply Forall_impl; [exact Hf|]. simpl. lia.
Qed.

(** The timer interrupt pops exactly the timers that have expired, the earliest
    first. *)
Lemma check_timer_spec ms l :
  ∃ popped kept, check_timer ms l = (popped, kept) ∧ l ≡ₚ popped ++ kept ∧
    StronglySorted earlier popped ∧
    Forall (λ t, expire_ms t ≤ ms) popped ∧ Forall (λ t, ms < expire_ms t) kept.
Proof. by apply check_loop_spec. Qed.

Section spec.
Context {T Q : Type} `{AT : AsyncTask T} `{AQ : ArrayQueue Q}.
Implicit Types (s : Ex (T:=T) (Q:=Q)) (t : Task (T:=T)) (W : list Z).

(** ** The invariant

    [W] are tasks whose timer was popped and that are about to be woken. *)
Definition armed s (w : Z) (f : TimerFuture) : Prop := mkTimer (f_expire_ms f) w ∈ timers s.
Definition expired s (f : TimerFuture) : Prop := f_expire_ms f ≤ now_ms s.
Definition task_ok W s (w : Z) t : Prop :=
  (timer_activated (future t) = true → armed s w (future t) ∨ expired s (future t)) ∧
  match status (handle t), running s with
  | Idle, _ => timer_activated (future t) = true ∧ (armed s w (future t) ∨ w ∈ W)
  | Completed, _ => expired s (future t)
  | Running _, Some (_, AtReturn true) => expired s (future t)
  | Running n, Some (_, AtReturn false) =>
      timer_activated (future t) = true ∧ (n = true ∨ armed s w (future t) ∨ w ∈ W)
  | _, _ => True
  end.
Record ex_ok_w W s : Prop := {
  eo_nodup : NoDup (aq_view (queue s));
  eo_queue w : w ∈ aq_view (queue s) ↔ status_of s w = Some Scheduled;
  eo_running w : (∃ n, status_of s w = Some (Running n)) ↔ ∃ pc, running s = Some (w, pc);
  eo_task w t : tasks s !! w = Some t → task_ok W s w t;
}.
Abbreviation ex_ok := (ex_ok_w []).

Lemma status_of_eq s w t : tasks s !! w = Some t → status_of s w = Some (status (handle t)).
Proof. unfold status_of. by intros ->. Qed.

(** A task other than the one that changes. *)
Lemma task_ok_mono W W' s s' v t :
  task_ok W s v t → now_ms s ≤ now_ms s' →
  (armed s v (future t) → armed s' v (future t) ∨ v ∈ W' ∧ expired s' (future t)) → (v ∈ W → v ∈ W') →
  (∀ n, status (handle t) = Running n → running s' = running s) →
  task_ok W' s' v t.
Proof.
  unfold task_ok, expired. intros [Hc Hm] Hn Ha HW Hr. split.
  { intros Ht. destruct (Hc Ht) as [?%Ha|]; [naive_solver|right; lia]. }
  destruct (status (handle t)) as [| |n|]; [naive_solver|done| |lia].
  rewrite (Hr n eq_refl). destruct (running s) as [[? [| |[]]]|]; [done..|lia|naive_solver|done].
Qed.

(** One task [w] is replaced by [t], the others stay. *)
Lemma ok_update W W' s s' w t :
  ex_ok_w W s → tasks s' = <[w := t]> (tasks s) → ticks s' = ticks s →
  timers s ⊆ timers s' → (∀ v, v ≠ w → v ∈ W → v ∈ W') →
  (∀ v pc, v ≠ w → running s' = Some (v, pc) ↔ running s = Some (v, pc)) →
  (∀ v, v ≠ w → v ∈ aq_view (queue s') ↔ v ∈ aq_view (queue s)) →
  NoDup (aq_view (queue s')) →
  (w ∈ aq_view (queue s') ↔ status (handle t) = Scheduled) →
  ((∃ n, status (handle t) = Running n) ↔ ∃ pc, running s' = Some (w, pc)) →
  task_ok W' s' w t → ex_ok_w W' s'.
Proof.
  intros [Hnd Hq Hr Ht] Hts Htk Htm HW Hrun Hqu Hnd' Hwq Hwr Hwt.
  assert (Hst : ∀ v, v ≠ w → status_of s' v = status_of s v).
  { intros v Hv. unfold status_of. by rewrite Hts, lookup_insert_ne. }
  assert (Hsw : status_of s' w = Some (status (handle t))).
  { apply status_of_eq. by rewrite Hts, lookup_insert_eq. }
  split; [done| | |].
  - intros v. destruct (decide (v = w)) as [->|Hv].
    + rewrite Hwq, Hsw. split; [by intros ->|by intros [= ->]].
    + by rewrite Hqu, Hq, Hst.
  - intros v. destruct (decide (v = w)) as [->|Hv].
    + rewrite Hsw, <- Hwr. split; intros [n Hn]; exists n; [by injection Hn|by f_equal].
    + rewrite Hst, Hr by done. split; intros [pc Hpc]; exists pc; by apply Hrun.
  - intros v t' Hv. destruct (decide (v = w)) as [->|Hne].
    { rewrite Hts, lookup_insert_eq in Hv. by injection Hv as <-. }
    rewrite Hts, lookup_insert_ne in Hv by done.
    eapply task_ok_mono; [by apply Ht| |by intros ?; left; apply Htm|by apply HW|].
    + unfold now_ms. by rewrite Htk.
    + intros n Hn. assert (∃ pc, running s = Some (v, pc)) as [pc Hpc].
      { apply Hr. exists n. by rewrite (status_of_eq s v t' Hv), Hn. }
      rewrite Hpc. by apply Hrun.
Qed.

Lemma schedule_run w s s' :
  schedule w s = Ok s' →
  ∃ q, s' = set_queue q s ∧ aq_view q = aq_view (queue s) ++ [w].
Proof.
  unfold schedule, push_task. intros Hs. inv_ok. pose proof (aq_push_view w (queue s)) as Hp.
  match goal with H : aq_push _ _ = Some _ |- _ => rewrite H in Hp end. eauto.
Qed.
Lemma nodup_snoc (l : list Z) w : NoDup l → w ∉ l → NoDup (l ++ [w]).
Proof. intros. apply NoDup_app. split; [done|]. split; [set_solver|]. apply NoDup_singleton. Qed.

Lemma not_queued W s w st :
  ex_ok_w W s → status_of s w = Some st → st ≠ Scheduled → w ∉ aq_view (queue s).
Proof. intros Hok Hw Hst Hin%(eo_queue _ _ Hok). congruence. Qed.

(** Waking takes the task off [W]. *)
Lemma wake_ok W s s' w : ex_ok_w (w :: W) s → wake s w = Ok s' → ex_ok_w W s'.
Proof.
  intros Hok. unfold wake. destruct (tasks s !! w) as [t|] eqn:Hw.
  2:{ intros [= <-]. destruct Hok as [? ? ? Ht]. split; [done..|]. intros v t Hv.
      eapply task_ok_mono; [by apply Ht|lia|by left| |done]. set_unfold. naive_solver. }
  pose proof (eo_task _ _ Hok w t Hw) as [Hcov Hmatch].
  pose proof (status_of_eq s w t Hw) as Hst.
  destruct (at_wake_status (handle t)) as [Hh Hs]. destruct (at_wake (handle t)) as [h sched].
  simpl in Hh, Hs. subst sched.
  assert (HW : ∀ v, v ≠ w → v ∈ w :: W → v ∈ W) by set_solver.
  pose proof (eo_queue _ _ Hok w) as Hq. pose proof (eo_running _ _ Hok w) as Hr. rewrite Hst in Hq, Hr.
  destruct (bool_decide_reflect (status (handle t) = Idle)) as [Hi|Hi].
  - rewrite Hi in Hh, Hq, Hr. intros (q & -> & Hv)%schedule_run. simpl in Hv.
    assert (Hn : w ∉ aq_view (queue s)) by (rewrite Hq; done).
    eapply (ok_update _ _ s _ w (mkTask h (future t)) Hok); simpl; try done; try rewrite Hv.
    + set_solver.
    + apply nodup_snoc; [apply Hok|done].
    + set_solver.
    + rewrite Hh. rewrite <- Hr. split; intros [? ?]; congruence.
    + split; [done|]. simpl. by rewrite Hh.
  - intros [= <-]. eapply (ok_update _ _ s _ w (mkTask h (future t)) Hok); simpl; try done.
    + apply Hok.
    + rewrite Hq, Hh. destruct (status (handle t)); split; congruence.
    + rewrite <- Hr, Hh. destruct (status (handle t)) as [| |n|]; split; intros [? ?]; try congruence; eauto.
    + split; [done|]. simpl. rewrite Hh. destruct (status (handle t)) as [| |n|]; [done..| |done].
      destruct (running s) as [[? [| |[]]]|]; [done..|naive_solver|done].
Qed.

Lemma wake_all_ok W l s s' : ex_ok_w ((waker <$> l) ++ W) s → wake_all s l = Ok s' → ex_ok_w W s'.
Proof.
  revert s. induction l as [|t l IH]; intros s Hok; simpl; [by intros [= <-]|].
  intros Hs. inv_ok. eapply IH; [|done]. by eapply wake_ok.
Qed.

Lemma wake_frame s w s' : wake s w = Ok s' → timers s' = timers s ∧ ticks s' = ticks s ∧ running s' = running s.
Proof.
  unfold wake. destruct (tasks s !! w); [|by intros [= <-]]. destruct (at_wake _) as [h []]; [|by intros [= <-]].
  by intros (q & -> & _)%schedule_run.
Qed.
Lemma wake_all_frame l s s' :
  wake_all s l = Ok s' → timers s' = timers s ∧ ticks s' = ticks s ∧ running s' = running s.
Proof.
  revert s. induction l as [|t l IH]; intros s; simpl; [by intros [= <-]|].
  intros Hs. inv_ok. destruct (IH _ Hs) as (-> & -> & ->). by eapply wake_frame.
Qed.

Lemma get_time_ms_run s ms : get_time_ms (ticks s) = Ok ms → ms = now_ms s.
Proof.
  unfold get_time_ms, umul. intros Hm. inv_ok.
  match goal with H : checked _ _ = Ok _ |- _ => apply checked_Ok in H as [<- _] end. done.
Qed.

Lemma popped_ok s popped kept :
  ex_ok s → timers s ≡ₚ popped ++ kept → Forall (λ u, expire_ms u ≤ now_ms s) popped →
  ex_ok_w (waker <$> popped) (set_timers kept s).
Proof.
  intros [? ? ? Ht] Hp Hf. split; [done..|]. intros v t Hv. simpl in Hv.
  eapply task_ok_mono; [by apply Ht|done| |set_solver|done].
  unfold armed, expired. rewrite Hp, elem_of_app. intros [Hin|]; [|by left]. right. split.
  - apply list_elem_of_fmap. by exists (mkTimer (f_expire_ms (future t)) v).
  - rewrite Forall_forall in Hf. by apply Hf in Hin.
Qed.

Lemma irq_ok s s' : ex_ok s → timer_irq s = Ok s' → ex_ok s'.
Proof.
  unfold timer_irq. intros Hok (ms & ->%get_time_ms_run & Hs)%bind_Ok.
  destruct (check_timer_spec (now_ms s) (timers s)) as (popped & kept & Hc & Hp & _ & Hf & _).
  rewrite Hc in Hs. eapply wake_all_ok; [|exact Hs]. rewrite app_nil_r. by apply popped_ok.
Qed.

Lemma spawn_ok w d s s' : ex_ok s → tasks s !! w = None → spawn_with w d s = Ok s' → ex_ok s'.
Proof.
  unfold spawn_with, sleep. intros Hok Hw Hs. apply bind_Ok in Hs as (ms & _ & Hs).
  apply bind_Ok in Hs as (f & Hf & Hs). apply bind_Ok in Hf as (e & _ & [= <-]).
  apply schedule_run in Hs as (q & -> & Hv). simpl in Hv.
  assert (Hst : status_of s w = None) by (unfold status_of; by rewrite Hw).
  assert (Hn : w ∉ aq_view (queue s)) by (rewrite (eo_queue _ _ Hok), Hst; done).
  pose proof (eo_running _ _ Hok w) as Hr. rewrite Hst in Hr.
  eapply (ok_update _ _ s _ w (mkTask at_spawn (mkFuture e false)) Hok); simpl; try done; try rewrite Hv.
  - set_solver.
  - apply nodup_snoc; [apply Hok|done].
  - rewrite at_spawn_status. set_solver.
  - rewrite at_spawn_status, <- Hr. split; intros [? ?]; congruence.
  - split; [done|]. simpl. by rewrite at_spawn_status.
Qed.

(** The running task and its place in the poll. *)
Lemma running_task s w pc :
  ex_ok s → running s = Some (w, pc) → ∃ t n, tasks s !! w = Some t ∧ status (handle t) = Running n.
Proof.
  intros Hok Hr. destruct (proj2 (eo_running _ _ Hok w) ltac:(eauto)) as [n Hn].
  unfold status_of in Hn. destruct (tasks s !! w) as [t|]; [|done]. injection Hn as. eauto.
Qed.

Lemma fetch_ok s s' : ex_ok s → running s = None → advance s = Ok s' → ex_ok s'.
Proof.
  unfold advance, fetch_task. intros Hok Hr. rewrite Hr. pose proof (aq_pop_view (queue s)) as Hpop.
  destruct (aq_pop (queue s)) as [[w q]|]; [|by intros [= <-]].
  intros (t & Hw%unwrap_Ok & [= <-])%bind_Ok.
  pose proof (eo_nodup _ _ Hok) as Hnd. rewrite Hpop in Hnd. apply NoDup_cons in Hnd as [Hnw Hnd].
  assert (Hst : status (handle t) = Scheduled).
  { pose proof (status_of_eq s w t Hw) as Hst. rewrite (proj1 (eo_queue _ _ Hok w)) in Hst.
    - by injection Hst. - rewrite Hpop. left. }
  pose proof (at_start_status _ Hst) as Hh.
  eapply (ok_update _ _ s _ w (mkTask (at_start (handle t)) (future t)) Hok); simpl; try done.
  - intros v pc Hv. rewrite Hr. split; [congruence|done].
  - intros v Hv. rewrite Hpop. set_solver.
  - rewrite Hh. split; [done|congruence].
  - rewrite Hh. split; eauto.
  - split; [|simpl; by rewrite Hh]. apply (eo_task _ _ Hok w t Hw).
Qed.

Lemma compare_ok s s' w : ex_ok s → running s = Some (w, AtCompare) → advance s = Ok s' → ex_ok s'.
Proof.
  intros Hok Hr. destruct (running_task _ _ _ Hok Hr) as (t & n & Hw & Hn). unfold advance. rewrite Hr, Hw.
  intros Hs. apply bind_Ok in Hs as (t' & [= <-] & Hs). apply bind_Ok in Hs as (ms & ->%get_time_ms_run & [= <-]).
  destruct (eo_task _ _ Hok w t Hw) as [Hcov _].
  eapply (ok_update _ _ s _ w t Hok); simpl; try done.
  - by rewrite insert_id.
  - intros v pc Hv. rewrite Hr. split; congruence.
  - apply Hok.
  - rewrite (eo_queue _ _ Hok), (status_of_eq s w t Hw), Hn. split; congruence.
  - rewrite Hn. split; eauto.
  - split; [done|]. simpl. rewrite Hn.
    destruct (Z.ltb_spec (now_ms s) (f_expire_ms (future t))); [|done].
    destruct (timer_activated (future t)) eqn:Ha; [|done]. split; [done|]. right; left.
    destruct (Hcov eq_refl) as [?|He]; [done|]. unfold expired in He. lia.
Qed.

Lemma queue_push_ok s s' w : ex_ok s → running s = Some (w, AtPush) → advance s = Ok s' → ex_ok s'.
Proof.
  intros Hok Hr. destruct (running_task _ _ _ Hok Hr) as (t & n & Hw & Hn). unfold advance. rewrite Hr, Hw.
  intros Hs. apply bind_Ok in Hs as (t' & [= <-] & [= <-]).
  eapply (ok_update _ _ s _ w (mkTask (handle t) (mkFuture (f_expire_ms (future t)) true)) Hok); simpl; try done.
  - set_solver.
  - intros v pc Hv. rewrite Hr. split; congruence.
  - apply Hok.
  - rewrite (eo_queue _ _ Hok), (status_of_eq s w t Hw), Hn. split; congruence.
  - rewrite Hn. split; eauto.
  - unfold task_ok, armed. simpl. rewrite Hn. split; [left; left|]. split; [done|]. right; left; left.
Qed.

Lemma return_ok s s' w ready : ex_ok s → running s = Some (w, AtReturn ready) → advance s = Ok s' → ex_ok s'.
Proof.
  intros Hok Hr. destruct (running_task _ _ _ Hok Hr) as (t & n & Hw & Hn). unfold advance. rewrite Hr, Hw.
  intros Hs. apply bind_Ok in Hs as (t' & [= <-] & Hs).
  destruct (eo_task _ _ Hok w t Hw) as [Hcov Hm]. rewrite Hn, Hr in Hm.
  destruct (at_finish_status ready (handle t) n Hn) as [Hh Hsch].
  assert (Hnq : w ∉ aq_view (queue s)).
  { rewrite (eo_queue _ _ Hok), (status_of_eq s w t Hw), Hn. congruence. }
  destruct (at_finish ready (handle t)) as [h sched]. simpl in Hh, Hsch. subst sched.
  assert (Hrun : ∀ v pc, v ≠ w → None = Some (v, pc) ↔ running s = Some (v, pc)).
  { intros v pc Hv. rewrite Hr. split; congruence. }
  destruct (negb ready && n) eqn:Hrn.
  - apply andb_true_iff in Hrn as [->%negb_true_iff ->]. apply schedule_run in Hs as (q & -> & Hv). simpl in Hv.
    eapply (ok_update _ _ s _ w (mkTask h (future t)) Hok); simpl; try done; try rewrite Hv.
    + set_solver.
    + apply nodup_snoc; [apply Hok|done].
    + set_solver.
    + rewrite Hh. split; intros [? ?]; congruence.
    + split; [done|]. simpl. by rewrite Hh.
  - injection Hs as <-. eapply (ok_update _ _ s _ w (mkTask h (future t)) Hok); simpl; try done.
    + apply Hok.
    + rewrite Hh. split; [done|]. destruct ready, n; done.
    + rewrite Hh. destruct ready, n; split; intros [? ?]; congruence.
    + split; [done|]. simpl. rewrite Hh. destruct ready; [done|]. destruct n; [done|]. naive_solver.
Qed.

Lemma step_ok s s' : ex_ok s → ex_step s s' → ex_ok s'.
Proof.
  intros Hok Hs. destruct Hs as [n s Hn|s s' Hs|w d s s' Hw _ Hs|s s' Hs].
  - destruct Hok as [? ? ? Ht]. split; [done..|]. intros v t Hv.
    eapply task_ok_mono; [by apply Ht| |by left|done|done]. unfold now_ms. simpl.
    apply Z.div_le_mono; [done|]. unfold MILLI_PER_SEC. lia.
  - by eapply irq_ok.
  - by eapply spawn_ok.
  - destruct (running s) as [[w []]|] eqn:Hr; eauto using fetch_ok, compare_ok, queue_push_ok, return_ok.
Qed.

Lemma init_ok : ex_ok (ex_init (T:=T) (Q:=Q)).
Proof.
  split; simpl.
  - rewrite aq_new_view. constructor.
  - intros w. rewrite aq_new_view. split; [by intros ?%not_elem_of_nil|done].
  - intros w. split; intros [? ?]; done.
  - done.
Qed.
Lemma reachable_ok s : rtc ex_step (ex_init (T:=T) (Q:=Q)) s → ex_ok s.
Proof.
  intros Hs. eapply (rtc_ind_r ex_ok); [apply init_ok| |exact Hs]. intros ???? Hok. by eapply step_ok.
Qed.

(** ** Progress

    The clock does not overflow and there are at most [TASK_LIMIT] tasks. *)
Definition roomy s : Prop :=
  0 ≤ ticks s ∧ ticks s * MILLI_PER_SEC < 2 ^ 64 ∧ Z.of_nat (size (tasks s)) ≤ TASK_LIMIT.

Lemma get_time_ms_ok s : roomy s → get_time_ms (ticks s) = Ok (now_ms s).
Proof.
  intros (H0 & H1 & _). unfold get_time_ms, umul. rewrite checked_fits; [done|].
  unfold MILLI_PER_SEC in *. lia.
Qed.

Lemma schedule_room s w :
  NoDup (w :: aq_view (queue s)) → (∀ v, v ∈ w :: aq_view (queue s) → is_Some (tasks s !! v)) →
  Z.of_nat (size (tasks s)) ≤ TASK_LIMIT →
  ∃ q, schedule w s = Ok (set_queue q s) ∧ aq_view q = aq_view (queue s) ++ [w].
Proof.
  intros Hnd Hin Hsz. unfold schedule, push_task. pose proof (aq_push_view w (queue s)) as Hp.
  destruct (aq_push w (queue s)) as [q|]; [by exists q|]. exfalso.
  assert (length (w :: aq_view (queue s)) ≤ size (tasks s))%nat; [|simpl in *; lia].
  rewrite <- (size_list_to_set (C:=gset Z)) by done. rewrite <- size_dom.
  apply subseteq_size. intros v Hv. apply elem_of_dom, Hin. by apply elem_of_list_to_set in Hv.
Qed.

Lemma is_task W s v : ex_ok_w W s → v ∈ aq_view (queue s) → is_Some (tasks s !! v).
Proof.
  intros Hok Hv%(eo_queue _ _ Hok). unfold status_of in Hv. destruct (tasks s !! v); [done|discriminate].
Qed.

(** Scheduling a task of the map, in the state where only its entry changed. *)
Lemma reschedule W s w t t' r :
  ex_ok_w W s → roomy s → tasks s !! w = Some t → status (handle t) ≠ Scheduled →
  ∃ q, schedule w (set_running r (set_task w t' s)) = Ok (set_queue q (set_running r (set_task w t' s))) ∧
       aq_view q = aq_view (queue s) ++ [w].
Proof.
  intros Hok (_ & _ & Hsz) Hw Hst.
  destruct (schedule_room (set_running r (set_task w t' s)) w) as (q & Hq & Hv); simpl; [| | |by exists q].
  - constructor; [|apply Hok]. rewrite (eo_queue _ _ Hok), (status_of_eq s w t Hw). congruence.
  - intros v Hv. destruct (decide (v = w)) as [->|Hne]; [by rewrite lookup_insert_eq|].
    rewrite lookup_insert_ne by done. eapply is_task; [done|set_solver].
  - by rewrite map_size_insert, Hw.
Qed.

Lemma wake_total W s w :
  ex_ok_w W s → roomy s → ∃ s', wake s w = Ok s' ∧ roomy s'.
Proof.
  intros Hok Hro. unfold wake. destruct (tasks s !! w) as [t|] eqn:Hw; [|by exists s].
  destruct (at_wake_status (handle t)) as [Hh Hs]. destruct (at_wake (handle t)) as [h sched]. simpl in Hs. subst sched.
  assert (Hro' : roomy (set_task w (mkTask h (future t)) s)).
  { destruct Hro as (? & ? & ?). unfold roomy. simpl. by rewrite map_size_insert, Hw. }
  destruct (bool_decide_reflect (status (handle t) = Idle)) as [Hi|Hi]; [|by eexists].
  destruct (reschedule W s w t (mkTask h (future t)) (running s) Hok Hro Hw) as (q & Hq & _); [congruence|].
  exists (set_queue q (set_task w (mkTask h (future t)) s)). split; [exact Hq|done].
Qed.

Lemma wake_all_total l W s :
  ex_ok_w ((waker <$> l) ++ W) s → roomy s → ∃ s', wake_all s l = Ok s' ∧ roomy s'.
Proof.
  revert s. induction l as [|t l IH]; intros s Hok Hro; simpl; [by exists s|].
  destruct (wake_total _ s (waker t) Hok Hro) as (s1 & Hs & Hro'). rewrite Hs. simpl.
  apply IH; [|done]. eapply wake_ok; [exact Hok|exact Hs].
Qed.

(** The interrupt always succeeds, and leaves no expired timer behind. *)
Lemma irq_total s :
  ex_ok s → roomy s →
  ∃ s', timer_irq s = Ok s' ∧ ex_ok s' ∧ roomy s' ∧ running s' = running s ∧ ticks s' = ticks s ∧
        Forall (λ u, now_ms s' < expire_ms u) (timers s').
Proof.
  intros Hok Hro. destruct (check_timer_spec (now_ms s) (timers s)) as (popped & kept & Hc & Hp & _ & Hf & Hk).
  destruct (wake_all_total popped [] (set_timers kept s)) as (s' & Hs & Hro').
  { rewrite app_nil_r. by apply popped_ok. } { done. }
  assert (Hirq : timer_irq s = Ok s').
  { unfold timer_irq. rewrite get_time_ms_ok by done. simpl. by rewrite Hc. }
  exists s'. split; [done|]. split; [by eapply irq_ok|]. split; [done|].
  destruct (wake_all_frame _ _ _ Hs) as (Htm & Htk & Hr). split; [done|]. split; [done|].
  rewrite Htm. unfold now_ms. by rewrite Htk.
Qed.

Lemma advances_S n s s1 : advance s = Ok s1 → advances (S n) s = advances n s1.
Proof. intros Hs. unfold advances. rewrite Nat.iter_succ_r. simpl. by rewrite Hs. Qed.
Lemma advances_app m n s s1 : advances m s = Ok s1 → advances (m + n) s = advances n s1.
Proof. intros Hs. unfold advances. rewrite Nat.add_comm, Nat.iter_add. unfold advances in Hs. by rewrite Hs. Qed.

(** What finishing the poll of [v] leaves alone. *)
Definition polled (v : Z) s s' : Prop :=
  ticks s' = ticks s ∧ (∀ u, u ≠ v → tasks s' !! u = tasks s !! u) ∧
  (f_expire_ms ∘ future <$> tasks s' !! v) = (f_expire_ms ∘ future <$> tasks s !! v).
Lemma polled_trans v s1 s2 s3 : polled v s1 s2 → polled v s2 s3 → polled v s1 s3.
Proof.
  intros (? & H1 & ?) (? & H2 & ?). split; [congruence|]. split; [|congruence].
  intros u Hu. by rewrite H2, H1.
Qed.

Lemma polled_roomy v s s' : polled v s s' → roomy s → roomy s'.
Proof.
  intros (Ht & Ho & He) (H0 & H1 & H2). unfold roomy. rewrite Ht. split; [done|]. split; [done|].
  replace (size (tasks s')) with (size (tasks s)); [done|]. rewrite <- !size_dom. f_equal. apply set_eq. intros u.
  rewrite !elem_of_dom. destruct (decide (u = v)) as [->|Hu]; [|by rewrite Ho].
  destruct (tasks s' !! v), (tasks s !! v); simpl in He; naive_solver.
Qed.
Lemma polled_expired v w s s' t :
  polled v s s' → tasks s !! w = Some t → expired s (future t) →
  ∃ t', tasks s' !! w = Some t' ∧ expired s' (future t').
Proof.
  intros (Ht & Ho & He) Hw Hx. unfold expired, now_ms in *. rewrite Ht.
  destruct (decide (w = v)) as [->|Hne]; [|exists t; by rewrite Ho].
  rewrite Hw in He. destruct (tasks s' !! v) as [t'|]; [|done]. simpl in He. exists t'.
  split; [done|]. injection He as He. by rewrite He.
Qed.

(** The end of a poll: the task goes back to the queue when it was woken
    meanwhile. *)
Lemma run_return s v ready t n :
  ex_ok s → roomy s → running s = Some (v, AtReturn ready) → tasks s !! v = Some t →
  status (handle t) = Running n →
  ∃ s', advance s = Ok s' ∧ ex_ok s' ∧ polled v s s' ∧ running s' = None ∧
        aq_view (queue s') = aq_view (queue s) ++ (if negb ready && n then [v] else []) ∧
        status_of s' v = Some (if ready then Completed else if n then Scheduled else Idle).
Proof.
  intros Hok Hro Hr Hv Hn. destruct (at_finish_status ready (handle t) n Hn) as [Hh Hs].
  assert (Hp : polled v s (set_running None (set_task v (mkTask (at_finish ready (handle t)).1 (future t)) s))).
  { split; [done|]. simpl. rewrite lookup_insert_eq, Hv. split; [|done]. intros u Hu. by rewrite lookup_insert_ne. }
  assert (Hst : status_of (set_running None (set_task v (mkTask (at_finish ready (handle t)).1 (future t)) s)) v =
                Some (if ready then Completed else if n then Scheduled else Idle)).
  { unfold status_of. simpl. rewrite lookup_insert_eq. simpl. by rewrite Hh. }
  assert (Ha : ∃ q, advance s = Ok (set_queue q (set_running None (set_task v (mkTask (at_finish ready (handle t)).1 (future t)) s))) ∧
               aq_view q = aq_view (queue s) ++ (if negb ready && n then [v] else [])).
  { unfold advance. rewrite Hr, Hv. simpl. destruct (at_finish ready (handle t)) as [h sched]. simpl in *. subst sched.
    destruct (negb ready && n); [|exists (queue s); by rewrite app_nil_r].
    apply (reschedule [] s v t (mkTask h (future t)) None); [done..|congruence]. }
  destruct Ha as (q & Ha & Hq). eexists. split; [exact Ha|]. split; [by eapply return_ok|]. done.
Qed.

Lemma run_push s v t n :
  ex_ok s → roomy s → running s = Some (v, AtPush) → tasks s !! v = Some t → status (handle t) = Running n →
  ∃ s2, advances 2 s = Ok s2 ∧ ex_ok s2 ∧ polled v s s2 ∧ running s2 = None ∧
      aq_view (queue s2) = aq_view (queue s) ++ (if n then [v] else []) ∧
      status_of s2 v = Some (if n then Scheduled else Idle).
Proof.
  intros Hok Hro Hr Hv Hn.
  assert (Ha : ∃ s1, advance s = Ok s1) by (unfold advance; rewrite Hr, Hv; simpl; eauto). destruct Ha as [s1 Ha].
  pose proof (queue_push_ok _ _ _ Hok Hr Ha) as Hok1. rewrite (advances_S 1 s s1 Ha).
  unfold advance in Ha. rewrite Hr, Hv in Ha. simpl in Ha. injection Ha as <-.
  assert (Hp1 : polled v s (set_running (Some (v, AtReturn false))
          (set_task v (mkTask (handle t) (mkFuture (f_expire_ms (future t)) true))
             (set_timers (mkTimer (f_expire_ms (future t)) v :: timers s) s)))).
  { split; [done|]. simpl. rewrite lookup_insert_eq, Hv. split; [|done]. intros u Hu. by rewrite lookup_insert_ne. }
  destruct (run_return _ v false _ n Hok1 (polled_roomy _ _ _ Hp1 Hro) eq_refl (lookup_insert_eq _ _ _) Hn)
    as (s2 & Ha & Hok2 & Hp2 & Hr2 & Hq2 & Hs2).
  exists s2. rewrite (advances_S 0 _ s2 Ha). split; [done|]. split; [done|].
  split; [by eapply polled_trans|]. done.
Qed.

(** The poll under way ends within three steps. *)
Lemma finish_poll s v pc t n :
  ex_ok s → roomy s → running s = Some (v, pc) → tasks s !! v = Some t → status (handle t) = Running n →
  ∃ k s' ready, (k ≤ 3)%nat ∧ advances k s = Ok s' ∧ ex_ok s' ∧ polled v s s' ∧ running s' = None ∧
        aq_view (queue s') = aq_view (queue s) ++ (if negb ready && n then [v] else []) ∧
        status_of s' v = Some (if ready then Completed else if n then Scheduled else Idle) ∧
        (pc = AtCompare → expired s (future t) → ready = true) ∧ (∀ b, pc = AtReturn b → ready = b).
Proof.
  intros Hok Hro Hr Hv Hn.
  destruct pc as [| |ready].
  - assert (Ha : ∃ pc', advance s = Ok (set_running (Some (v, pc')) s) ∧
       (pc' = AtPush ∧ ~ expired s (future t) ∨ ∃ b, pc' = AtReturn b ∧ (expired s (future t) → b = true))).
    { unfold advance. rewrite Hr, Hv. simpl. rewrite (get_time_ms_ok s Hro). simpl. eexists. split; [done|].
      unfold expired. destruct (Z.ltb_spec (now_ms s) (f_expire_ms (future t))); [|by right; exists true].
      destruct (timer_activated _); [right; exists false; split; [done|lia]|left; split; [done|lia]]. }
    destruct Ha as (pc' & Ha & Hpc). pose proof (compare_ok _ _ _ Hok Hr Ha) as Hok1.
    destruct Hpc as [[-> Hne]|(b & -> & Hb)].
    + destruct (run_push _ v t n Hok1 Hro eq_refl Hv Hn) as (s2 & Ha2 & ? & ? & ? & ? & ?).
      exists 3%nat, s2, false. rewrite (advances_S 2 _ _ Ha). repeat (split; [done || lia|]). intros b Hb; congruence.
    + destruct (run_return _ v b t n Hok1 Hro eq_refl Hv Hn) as (s2 & Ha2 & ? & ? & ? & ? & ?).
      exists 2%nat, s2, b. rewrite (advances_S 1 _ _ Ha), (advances_S 0 _ _ Ha2).
      repeat (split; [done || lia|]). intros ? Hb'; congruence.
  - destruct (run_push _ v t n Hok Hro Hr Hv Hn) as (s2 & Ha2 & ? & ? & ? & ? & ?).
    exists 2%nat, s2, false. repeat (split; [done || lia|]). intros b Hb; congruence.
  - destruct (run_return _ v ready t n Hok Hro Hr Hv Hn) as (s2 & Ha2 & ? & ? & ? & ? & ?).
    exists 1%nat, s2, ready. rewrite (advances_S 0 _ _ Ha2).
    repeat (split; [done || lia|]). intros ? Hb'; congruence.
Qed.

(** One turn of the loop: the head of the queue is polled, and finishes when its
    deadline has passed. *)
Lemma run_turn s v l t :
  ex_ok s → roomy s → running s = None → aq_view (queue s) = v :: l → tasks s !! v = Some t →
  ∃ k s', (k ≤ 4)%nat ∧ advances k s = Ok s' ∧ ex_ok s' ∧ polled v s s' ∧ running s' = None ∧
          aq_view (queue s') = l ∧ (expired s (future t) → status_of s' v = Some Completed).
Proof.
  intros Hok Hro Hr Hq Hv. pose proof (aq_pop_view (queue s)) as Hpop.
  assert (Hst : status (handle t) = Scheduled).
  { pose proof (status_of_eq s v t Hv) as Hst. rewrite (proj1 (eo_queue _ _ Hok v)) in Hst.
    - by injection Hst. - rewrite Hq. left. }
  assert (Ha : ∃ q, aq_view q = l ∧ advance s =
    Ok (set_running (Some (v, AtCompare)) (set_queue q (set_task v (mkTask (at_start (handle t)) (future t)) s)))).
  { unfold advance, fetch_task. rewrite Hr. destruct (aq_pop (queue s)) as [[w q]|]; [|congruence].
    rewrite Hq in Hpop. injection Hpop as <- Hl. exists q. split; [done|]. by rewrite Hv. }
  destruct Ha as (q & Hl & Ha). pose proof (fetch_ok _ _ Hok Hr Ha) as Hok1.
  match type of Ha with _ = Ok ?x => set (s1 := x) in * end.
  assert (Hp1 : polled v s s1).
  { split; [done|]. simpl. rewrite lookup_insert_eq, Hv. split; [|done]. intros u Hu. by rewrite lookup_insert_ne. }
  destruct (finish_poll s1 v AtCompare (mkTask (at_start (handle t)) (future t)) false Hok1
    (polled_roomy _ _ _ Hp1 Hro) eq_refl (lookup_insert_eq _ _ _) (at_start_status _ Hst))
    as (k & s' & ready & Hk & Hs & Hok' & Hp & Hr' & Hq' & Hst' & Hx & _).
  exists (S k), s'. rewrite (advances_S k s s1 Ha). split; [lia|]. split; [done|]. split; [done|].
  split; [by eapply polled_trans|]. split; [done|].
  rewrite andb_false_r, app_nil_r in Hq'. split; [by rewrite Hq'|].
  intros He. by rewrite Hx in Hst'.
Qed.

Lemma drain l s w r t :
  ex_ok s → roomy s → running s = None → aq_view (queue s) = l ++ w :: r →
  tasks s !! w = Some t → expired s (future t) →
  ∃ k s', (k ≤ 4 * S (length l))%nat ∧ advances k s = Ok s' ∧ status_of s' w = Some Completed.
Proof.
  revert s t. induction l as [|v l IH]; intros s t Hok Hro Hr Hq Hw He.
  { destruct (run_turn s w r t Hok Hro Hr Hq Hw) as (k & s' & Hk & Hs & _ & _ & _ & _ & Hc).
    exists k, s'. split; [simpl; lia|]. auto. }
  destruct (is_task _ s v Hok) as [tv Hv]; [rewrite Hq; set_solver|].
  destruct (run_turn s v (l ++ w :: r) tv Hok Hro Hr Hq Hv) as (k & s1 & Hk & Hs & Hok1 & Hp & Hr1 & Hq1 & _).
  destruct (polled_expired v w s s1 t Hp Hw He) as (t1 & Hw1 & He1).
  destruct (IH s1 t1 Hok1 (polled_roomy _ _ _ Hp Hro) Hr1 Hq1 Hw1 He1) as (k2 & s2 & Hk2 & Hs2 & Hc).
  exists (k + k2)%nat, s2. rewrite (advances_app _ _ _ _ Hs). split; [simpl in *; lia|]. done.
Qed.

(** Nothing changes the deadline of a task. *)
Definition deadline s (w : Z) : option Z := (f_expire_ms ∘ future) <$> tasks s !! w.

Lemma set_task_deadline s w t t' u :
  tasks s !! w = Some t → f_expire_ms (future t') = f_expire_ms (future t) →
  deadline (set_task w t' s) u = deadline s u.
Proof.
  intros Hw He. unfold deadline. simpl. destruct (decide (u = w)) as [->|Hu]; [|by rewrite lookup_insert_ne].
  rewrite lookup_insert_eq, Hw. simpl. by rewrite He.
Qed.
Lemma wake_deadline s w s' u : wake s w = Ok s' → deadline s' u = deadline s u.
Proof.
  unfold wake. destruct (tasks s !! w) as [t|] eqn:Hw; [|by intros [= <-]].
  destruct (at_wake (handle t)) as [h []]; [intros (q & -> & _)%schedule_run|intros [= <-]];
    by apply (set_task_deadline s w t (mkTask h (future t))).
Qed.
Lemma wake_all_deadline l s s' u : wake_all s l = Ok s' → deadline s' u = deadline s u.
Proof.
  revert s. induction l as [|t l IH]; intros s; simpl; [by intros [= <-]|].
  intros Hs. inv_ok. rewrite (IH _ Hs). by eapply wake_deadline.
Qed.
Lemma irq_deadline s s' u : timer_irq s = Ok s' → deadline s' u = deadline s u.
Proof.
  unfold timer_irq. intros (ms & _ & Hs)%bind_Ok. destruct (check_timer ms (timers s)) as [popped kept].
  by rewrite (wake_all_deadline _ _ _ u Hs).
Qed.
Lemma advance_deadline s s' u : advance s = Ok s' → deadline s' u = deadline s u.
Proof.
  unfold advance. destruct (running s) as [[w [| |ready]]|].
  - intros Hs. apply bind_Ok in Hs as (t & _ & Hs). by apply bind_Ok in Hs as (ms & _ & [= <-]).
  - intros Hs. apply bind_Ok in Hs as (t & Hw%unwrap_Ok & [= <-]).
    by apply (set_task_deadline s w t (mkTask (handle t) (mkFuture (f_expire_ms (future t)) true))).
  - intros Hs. apply bind_Ok in Hs as (t & Hw%unwrap_Ok & Hs). destruct (at_finish ready (handle t)) as [h []];
      [apply schedule_run in Hs as (q & -> & _)|injection Hs as <-];
      by apply (set_task_deadline s w t (mkTask h (future t))).
  - destruct (fetch_task (queue s)) as [[w q]|]; [|by intros [= <-]].
    intros Hs. apply bind_Ok in Hs as (t & Hw%unwrap_Ok & [= <-]).
    by apply (set_task_deadline s w t (mkTask (at_start (handle t)) (future t))).
Qed.
Lemma spawn_deadline w d s s' :
  0 ≤ as_millis d < 2 ^ 64 → spawn_with w d s = Ok s' →
  now_ms s' = now_ms s ∧ deadline s' w = Some (now_ms s + as_millis d) ∧
  ∀ u, u ≠ w → deadline s' u = deadline s u.
Proof.
  intros Hd Hs. unfold spawn_with, sleep in Hs. apply bind_Ok in Hs as (ms & ->%get_time_ms_run & Hs).
  apply bind_Ok in Hs as (f & Hf & Hs). apply bind_Ok in Hf as (e & He & [= <-]).
  unfold uadd in He. apply checked_Ok in He as [<- _]. rewrite wrap_small in Hs by done.
  apply schedule_run in Hs as (q & -> & _). split; [done|]. unfold deadline. simpl.
  rewrite lookup_insert_eq. split; [done|]. intros u Hu. by rewrite lookup_insert_ne.
Qed.
Lemma steps_deadline s s' w e : rtc ex_step s s' → deadline s w = Some e → deadline s' w = Some e.
Proof.
  intros Hs. induction Hs as [|s s1 s2 Hs _ IH]; [done|]. intros He. apply IH. rewrite <- He.
  destruct Hs as [n s Hn|s s' Hs|v d s s' Hv Hd Hs|s s' Hs];
    [done|by apply irq_deadline| |by apply advance_deadline].
  destruct (spawn_deadline _ _ _ _ Hd Hs) as (_ & _ & Ho). apply Ho. intros ->.
  unfold deadline in He. by rewrite Hv in He.
Qed.

(** The poll under way, if any, ends; a task that was due is then queued or done. *)
Lemma settle s w t :
  ex_ok s → roomy s → Forall (λ u, now_ms s < expire_ms u) (timers s) →
  tasks s !! w = Some t → expired s (future t) → running s ≠ Some (w, AtPush) →
  ∃ k s' t', (k ≤ 3)%nat ∧ advances k s = Ok s' ∧ ex_ok s' ∧ roomy s' ∧ running s' = None ∧
    (length (aq_view (queue s')) ≤ S (length (aq_view (queue s))))%nat ∧
    tasks s' !! w = Some t' ∧ expired s' (future t') ∧
    (status_of s' w = Some Completed ∨ w ∈ aq_view (queue s')).
Proof.
  intros Hok Hro Hf Hw He Hne. destruct (eo_task _ _ Hok w t Hw) as [_ Hm].
  assert (Hna : ~ armed s w (future t)).
  { intros Ha. rewrite Forall_forall in Hf. apply Hf in Ha. simpl in Ha. unfold expired in He. lia. }
  pose proof (status_of_eq s w t Hw) as Hst. destruct (running s) as [[v pc]|] eqn:Hr.
  - destruct (running_task s v pc Hok Hr) as (tv & n & Hv & Hn).
    destruct (finish_poll s v pc tv n Hok Hro Hr Hv Hn)
      as (k & s' & ready & Hk & Hs & Hok' & Hp & Hr' & Hq & Hst' & Hc & Hb).
    destruct (polled_expired v w s s' t Hp Hw He) as (t' & Hw' & He').
    exists k, s', t'. split; [done|]. split; [done|]. split; [done|]. split; [by eapply polled_roomy|].
    split; [done|]. split. { rewrite Hq, length_app. destruct (negb ready && n); simpl; lia. }
    split; [done|]. split; [done|]. destruct (decide (v = w)) as [->|Hvw].
    + assert (tv = t) as -> by congruence. rewrite Hn in Hm. destruct pc as [| |b]; [|done|].
      * left. by rewrite Hst', Hc.
      * rewrite (Hb b eq_refl) in *. destruct b; [by left|right].
        destruct Hm as [_ [->|[?|?%not_elem_of_nil]]]; [|done..]. rewrite Hq. simpl. set_solver.
    + destruct Hp as (_ & Ho & _). specialize (Ho w ltac:(done)).
      assert (status_of s' w = status_of s w) as Hsw by (unfold status_of; by rewrite Ho).
      destruct (status (handle t)) as [| |m|] eqn:Hs'; [exfalso|right|exfalso|left; congruence].
      * destruct Hm as [_ [?|?%not_elem_of_nil]]; done.
      * apply (eo_queue _ _ Hok'). congruence.
      * destruct (proj1 (eo_running _ _ Hok w) ltac:(eauto)) as [pc' Hpc]. congruence.
  - exists 0%nat, s, t. split; [lia|]. split; [done|]. split; [done|]. split; [done|]. split; [done|]. split; [lia|].
    split; [done|]. split; [done|]. destruct (status (handle t)) as [| |m|] eqn:Hs'.
    + destruct Hm as [_ [?|?%not_elem_of_nil]]; done.
    + right. by apply (eo_queue _ _ Hok).
    + destruct (proj1 (eo_running _ _ Hok w) ltac:(eauto)) as [pc' Hpc]. congruence.
    + by left.
Qed.

(** C10: A sleeping task is not forgotten: in every reachable state of the executor,
    however interrupts, clock ticks, spawns and polls were interleaved, once the
    deadline of a task has passed the timer interrupt followed by a bounded number
    of steps of the executor (four for each queued task) finishes it. The
    exception is a task interrupted after it compared the clock and before it
    pushed its timer, which waits for the interrupt after. *)
Theorem sleep_wakes s w t :
  rtc ex_step (ex_init (T:=T) (Q:=Q)) s → roomy s →
  tasks s !! w = Some t → f_expire_ms (future t) ≤ now_ms s → running s ≠ Some (w, AtPush) →
  ∃ s1 k s2, timer_irq s = Ok s1 ∧ advances k s1 = Ok s2 ∧ status_of s2 w = Some Completed ∧
             (k ≤ 4 * length (aq_view (queue s1)) + 7)%nat.
Proof.
  intros Hreach Hro Hw He Hne. pose proof (reachable_ok s Hreach) as Hok.
  destruct (irq_total s Hok Hro) as (s1 & Hirq & Hok1 & Hro1 & Hr1 & Ht1 & Hf1).
  pose proof (irq_deadline s s1 w Hirq) as Hd. unfold deadline in Hd. rewrite Hw in Hd.
  destruct (tasks s1 !! w) as [t1|] eqn:Hw1; [|done]. injection Hd as Hd.
  destruct (settle s1 w t1 Hok1 Hro1 Hf1 Hw1) as (k & s2 & t2 & Hk & Hs & Hok2 & Hro2 & Hr2 & Hl & Hw2 & He2 & Hc);
    [unfold expired, now_ms in *; by rewrite Hd, Ht1|by rewrite Hr1|].
  exists s1. destruct Hc as [Hc|Hin]; [exists k, s2; repeat (split; [done|]); lia|].
  apply list_elem_of_split in Hin as (l1 & l2 & Hq).
  destruct (drain l1 s2 w l2 t2 Hok2 Hro2 Hr2 Hq Hw2 He2) as (k2 & s3 & Hk2 & Hs3 & Hc3).
  exists (k + k2)%nat, s3. split; [done|]. rewrite (advances_app _ _ _ _ Hs). split; [done|]. split; [done|].
  rewrite Hq, length_app in Hl. simpl in Hl. lia.
Qed.

(** A task that sleeps for [d] from a reachable state is not finished before
    the clock, in whole milliseconds, has advanced by the milliseconds of [d],
    whatever happens meanwhile. *)
Lemma sleep_not_early w d s0 s1 s2 :
  rtc ex_step (ex_init (T:=T) (Q:=Q)) s0 → tasks s0 !! w = None → 0 ≤ as_millis d < 2 ^ 64 →
  spawn_with w d s0 = Ok s1 → rtc ex_step s1 s2 → status_of s2 w = Some Completed →
  now_ms s0 + as_millis d ≤ now_ms s2.
Proof.
  intros H0 Hw Hd Hs1 H2 Hc.
  assert (Hok : ex_ok s2).
  { apply reachable_ok. etransitivity; [exact H0|]. eapply rtc_l; [|exact H2]. by eapply step_spawn. }
  destruct (spawn_deadline _ _ _ _ Hd Hs1) as (_ & Hdl & _). apply (steps_deadline _ _ _ _ H2) in Hdl.
  unfold deadline in Hdl. unfold status_of in Hc. destruct (tasks s2 !! w) as [t|] eqn:Ht; [|done].
  injection Hdl as Hdl. injection Hc as Hc. destruct (eo_task _ _ Hok w t Ht) as [_ Hm]. rewrite Hc in Hm.
  unfold expired in Hm. lia.
Qed.
End spec.

(** ** The clock as user programs see it *)
Section clock.
Context {U : Type} `{UserMemory U}.

Lemma timespec_bytes_of t :
  -(2 ^ 63) ≤ sec t < 2 ^ 63 → -(2 ^ 63) ≤ nsec t < 2 ^ 63 → TimeSpec_of (TimeSpec_bytes t) = t.
Proof.
  intros Hs Hn. unfold TimeSpec_of, TimeSpec_bytes.
  rewrite take_app_length', drop_app_length' by (by rewrite length_to_le_bytes).
  rewrite take_ge by (by rewrite length_to_le_bytes).
  rewrite !from_to_le_bytes by (apply Z.mod_pos_bound; lia).
  rewrite !to_signed_wrap by (simpl; lia). by destruct t.
Qed.

(** [clock_gettime] of the wall clock stores the time since boot as a normalised
    [TimeSpec], as long as the nanoseconds fit in a word; another clock is a
    kernel panic. *)
Lemma clock_gettime_spec (u : U) ticks ts :
  um_ok u ts 16 → 0 ≤ ticks → ticks * NANO_PER_SEC < 2 ^ 64 →
  ∃ u' bs, sys_clock_gettime ticks CLOCK_REALTIME ts u = Done 0 u' ∧ um_load u' ts 16 = Ok bs ∧
    let t := TimeSpec_of bs in
    sec t * NANO_PER_SEC + nsec t = ticks * (NANO_PER_SEC / CLOCK_FREQ) ∧ 0 ≤ nsec t < NANO_PER_SEC ∧ 0 ≤ sec t.
Proof.
  intros Hok H0 H1. set (ns := ticks * NANO_PER_SEC / CLOCK_FREQ).
  assert (Hns : ns = ticks * 100).
  { unfold ns, NANO_PER_SEC, MICRO_PER_SEC, MILLI_PER_SEC, CLOCK_FREQ. lia_div. }
  set (t := mkTimeSpec (ns / NANO_PER_SEC) (ns mod NANO_PER_SEC)).
  unfold NANO_PER_SEC, MICRO_PER_SEC, MILLI_PER_SEC in H1.
  assert (Ht : sec t * NANO_PER_SEC + nsec t = ns ∧ 0 ≤ nsec t < NANO_PER_SEC ∧ 0 ≤ sec t ≤ ns).
  { unfold t, NANO_PER_SEC, MICRO_PER_SEC, MILLI_PER_SEC. simpl. lia_div. }
  destruct (um_ok_write u ts 16 Hok) as (u1 & Hc & Hok1 & _).
  assert (Hl : length (TimeSpec_bytes t) = 16%nat) by (unfold TimeSpec_bytes; by rewrite length_app, !length_to_le_bytes).
  rewrite <- Hl in Hok1. destruct (um_ok_store u1 ts (TimeSpec_bytes t) Hok1) as (u2 & Hs & _ & Hld).
  exists u2, (TimeSpec_bytes t). rewrite Hl in Hld. split; [|split; [done|]].
  - unfold sys_clock_gettime, get_time_ns, umul.
    rewrite checked_fits by (unfold NANO_PER_SEC, MICRO_PER_SEC, MILLI_PER_SEC; lia).
    unfold kassert, check_write, store_user, mbind, kst_bind. cbn [Z.eqb CLOCK_REALTIME]. 
    change (Z.of_nat 16) with 16 in Hc. rewrite Hc. cbn [kcheck klift outcome_bind]. fold ns.
    replace (to_le_bytes 8 (ns / NANO_PER_SEC) ++ to_le_bytes 8 (ns mod NANO_PER_SEC)) with (TimeSpec_bytes t).
    + by rewrite Hs.
    + unfold TimeSpec_bytes. simpl sec. simpl nsec. unfold t in Ht. simpl in Ht.
      unfold NANO_PER_SEC, MICRO_PER_SEC, MILLI_PER_SEC in *. rewrite !wrap_small by lia. done.
  - unfold NANO_PER_SEC, MICRO_PER_SEC, MILLI_PER_SEC in Ht. rewrite timespec_bytes_of by lia.
    change (NANO_PER_SEC / CLOCK_FREQ) with 100. unfold NANO_PER_SEC, MICRO_PER_SEC, MILLI_PER_SEC. lia.
Qed.

(** The assertions of the time system calls are on arguments of the user. *)
Lemma time_calls_panic (u : U) ticks ptr clock tz :
  clock ≠ 0 → tz ≠ 0 →
  sys_clock_gettime ticks clock ptr u = Crash ∧ sys_get_time_of_day ticks ptr tz u = Crash.
Proof.
  intros Hc Ht. unfold sys_clock_gettime, sys_get_time_of_day, mbind, kst_bind, kassert, CLOCK_REALTIME.
  by rewrite (proj2 (Z.eqb_neq clock 0) Hc), (proj2 (Z.eqb_neq tz 0) Ht).
Qed.
End clock.

(** ** A runtime *)
Module Demo.
Definition wake_status (t : TaskStatus) : TaskStatus * bool :=
  (match t with Idle => Scheduled | Running _ => Running true | t => t end, bool_decide (t = Idle)).
Definition finish_status (ready : bool) (t : TaskStatus) : TaskStatus * bool :=
  match t with
  | Running n => (if ready then Completed else if n then Scheduled else Idle, negb ready && n)
  | t => (t, false)
  end.
#[export] Program Instance status_task : AsyncTask TaskStatus := {
  status t := t; at_spawn := Scheduled; at_wake := wake_status;
  at_start _ := Running false; at_finish := finish_status;
}.
Next Obligation. done. Qed.
Next Obligation. by intros []. Qed.
Next Obligation. done. Qed.
Next Obligation. intros ready t n. simpl. by intros ->. Qed.

Definition list_push (x : Z) (q : list Z) : option (list Z) :=
  if Z.of_nat (length q) <? TASK_LIMIT then Some (q ++ [x]) else None.
Definition list_pop (q : list Z) : option (Z * list Z) :=
  match q with [] => None | x :: q => Some (x, q) end.
#[export] Program Instance list_queue : ArrayQueue (list Z) := {
  aq_view q := q; aq_new := []; aq_push := list_push; aq_pop := list_pop;
}.
Next Obligation. done. Qed.
Next Obligation. intros x q. unfold list_push. destruct (Z.ltb_spec (Z.of_nat (length q)) TASK_LIMIT); done. Qed.
Next Obligation. by intros []. Qed.

Definition five_ms : Duration := mkDuration 0 5000000.
Definition start : Ex (T:=TaskStatus) (Q:=list Z) := ex_init.
Definition or_start (o : KResult (Ex (T:=TaskStatus) (Q:=list Z))) : Ex :=
  match o with Ok s => s | _ => start end.
Definition spawned := or_start (spawn_with 1 five_ms start).
Definition asleep := or_start (advances 4 spawned).
Definition due := set_ticks 60000 asleep.

Lemma steps_advances (n : nat) (s s' : Ex (T:=TaskStatus) (Q:=list Z)) :
  advances n s = Ok s' → rtc ex_step s s'.
Proof.
  revert s'. induction n as [|n IH]; intros s'; [by intros [= ->]|].
  unfold advances. simpl. intros (s1 & Hs & Ha)%bind_Ok.
  eapply rtc_r; [by apply IH|by apply step_advance].
Qed.
Lemma spawned_reachable : rtc ex_step start spawned.
Proof. apply rtc_once, (step_spawn 1 five_ms); [done|vm_compute; split; congruence|by vm_compute]. Qed.
Lemma due_reachable : rtc ex_step start due.
Proof.
  etransitivity; [apply spawned_reachable|]. eapply rtc_r; [apply (steps_advances 4 _ asleep); by vm_compute|].
  apply (step_tick 60000). lia.
Qed.

Lemma sleep_wakes_witness :
  status_of due 1 = Some Idle ∧
  ∃ s1 k s2, timer_irq due = Ok s1 ∧ advances k s1 = Ok s2 ∧ status_of s2 1 = Some Completed ∧
             (k ≤ 4 * length (aq_view (queue s1)) + 7)%nat.
Proof.
  split; [by vm_compute|].
  apply (sleep_wakes due 1 (mkTask Idle (mkFuture 5 true))); [apply due_reachable| |by vm_compute..].
  vm_compute. repeat split; congruence.
Defined.

Definition finished := or_start (let? s := timer_irq due in advances 4 s).
Lemma sleep_not_early_witness :
  status_of finished 1 = Some Completed ∧ now_ms start + 5 ≤ now_ms finished.
Proof.
  split; [by vm_compute|].
  apply (sleep_not_early 1 five_ms start spawned finished); [done|done|by vm_compute|by vm_compute| |by vm_compute].
  etransitivity. { eapply rtc_r; [apply (steps_advances 4 _ asleep); by vm_compute|apply (step_tick 60000); lia]. }
  eapply rtc_l; [apply (step_irq _ (or_start (timer_irq due))); by vm_compute|].
  apply (steps_advances 3); by vm_compute.
Defined.

(** The deadline is in whole milliseconds, of the clock and of the duration:
    nearly two milliseconds of sleep end after one tick of a tenth of a
    microsecond. *)
Definition early_spawned := or_start (spawn_with 1 (mkDuration 0 1999999) (set_ticks 9999 start)).
Definition early_done := or_start (advances 3 (set_ticks 10000 early_spawned)).
Lemma sleep_ends_early :
  status_of early_done 1 = Some Completed ∧ ticks early_done - 9999 = 1.
Proof. by vm_compute. Qed.

(** The milliseconds of a long sleep wrap around, and may overflow the sum. *)
Lemma sleep_wraps : sleep 0 (mkDuration 18446744073709552 0) = Ok (mkFuture 384 false).
Proof. by vm_compute. Qed.
Lemma sleep_overflows : sleep 1 (mkDuration 18446744073709551 615000000) = Panic.
Proof. by vm_compute. Qed.
(** [get_time_ns] multiplies first: it overflows 1845 seconds after boot. *)
Lemma get_time_ns_overflows : get_time_ns (1845 * CLOCK_FREQ) = Panic.
Proof. by vm_compute. Qed.
End Demo.
