(* ===== verification/Machine.v ===== *)
(** * The kernel as one machine

    [kernel/src/syscall/mod.rs], [kernel/src/glue.rs] and [sys_execve]: the table
    of system calls, the trap handlers, the poll of a user thread. The state joins
    those of the components: the processes with their memory, the file systems and
    open files, the floating-point unit and the page table of the hart, the clock
    and the timers. One hart; a lock is held for a whole operation. *)
From S2P Require Import Prelude BTree Address Defines Kst IdAllocator FrameAllocator PageTable VmArea MemorySpace InitStack UserCheck UserAccess Trap Signal FdTable Process Inode MemSyscalls Vfs VfsSpec SysFs Executor Tty.

(** The user memory the file systems see is the address space of the process, and
    the terminal driver is among their devices. *)
Class UserWorld {DB : DirBackend} {WD : World} `{Buddy} := {
  as_user : MemorySpace * Mem → UserT;
  as_space : UserT → MemorySpace * Mem;
  as_space_user u : as_space (as_user u) = u;
  get_set_user u (f : FS) : get_user (SysFs.set_user u f) = u;
  get_tty : FS → Tty;
  set_tty : Tty → FS → FS;
  get_set_tty t (f : FS) : get_tty (set_tty t f) = t;
}.

(** A loop that runs its body at most [n] times; [inl] goes on, [inr] ends. *)
Fixpoint kiter {S A B} (n : positive) (body : A → kst S (A + B)) (x : A) : kst S (A + B) :=
  match n with
  | xH => body x
  | xO n => r ← kiter n body x; match r with inl x => kiter n body x | inr b => mret (inr b) end
  | xI n =>
      r ← body x;
      match r with
      | inl x => r ← kiter n body x; match r with inl x => kiter n body x | inr b => mret (inr b) end
      | inr b => mret (inr b)
      end
  end.

Section machine.
Context `{Buddy, KernelImage, ProcessEnv} {DB : DirBackend} {WD : World} {UW : UserWorld}.

(** [m_curr] is the thread of [local_hart()], [m_satp] the root of the page table
    in use; [m_woken] are the wakers called and [m_spawned] the threads given to
    the executor, the latest first. *)
Record Machine : Type := mkMachine {
  m_kernel : Kernel File;
  m_vfs : Vfs;
  m_dir_files : gmap Z DirFile;
  m_seek_files : gmap Z SeekableFile;
  m_next_file : Z;
  m_fpu : Fpu;
  m_ticks : Z;
  m_trigger : Z;
  m_timers : list Timer;
  m_woken : list Z;
  m_spawned : list (Z * Z);
  m_curr : option (Z * Z);
  m_satp : Z;
}.
Definition set_kernel (k : Kernel File) (s : Machine) : Machine :=
  mkMachine k (m_vfs s) (m_dir_files s) (m_seek_files s) (m_next_file s) (m_fpu s) (m_ticks s) (m_trigger s)
    (m_timers s) (m_woken s) (m_spawned s) (m_curr s) (m_satp s).
Definition set_fpu (x : Fpu) (s : Machine) : Machine :=
  mkMachine (m_kernel s) (m_vfs s) (m_dir_files s) (m_seek_files s) (m_next_file s) x (m_ticks s) (m_trigger s)
    (m_timers s) (m_woken s) (m_spawned s) (m_curr s) (m_satp s).
Definition set_clock (trigger : Z) (timers : list Timer) (woken : list Z) (s : Machine) : Machine :=
  mkMachine (m_kernel s) (m_vfs s) (m_dir_files s) (m_seek_files s) (m_next_file s) (m_fpu s) (m_ticks s) trigger
    timers woken (m_spawned s) (m_curr s) (m_satp s).
Definition set_spawned (l : list (Z * Z)) (s : Machine) : Machine :=
  mkMachine (m_kernel s) (m_vfs s) (m_dir_files s) (m_seek_files s) (m_next_file s) (m_fpu s) (m_ticks s) (m_trigger s)
    (m_timers s) (m_woken s) l (m_curr s) (m_satp s).
Definition set_hart (curr : option (Z * Z)) (satp : Z) (s : Machine) : Machine :=
  mkMachine (m_kernel s) (m_vfs s) (m_dir_files s) (m_seek_files s) (m_next_file s) (m_fpu s) (m_ticks s) (m_trigger s)
    (m_timers s) (m_woken s) (m_spawned s) curr satp.

(** ** The components in the machine *)
Definition on_kernel {A} (c : kst (Kernel File) A) : kst Machine A := λ s,
  match c (m_kernel s) with
  | Done a k => Done a (set_kernel k s)
  | Fail e k => Fail e (set_kernel k s)
  | Crash => Crash
  end.
Definition on_fds {A} (pid : Z) (c : kst (FdTable File) A) : kst Machine A := λ s,
  match k_procs (m_kernel s) !! pid with
  | None => Crash
  | Some p =>
      let upd t := set_kernel (set_procs (<[pid := P.with_fds p t]> (k_procs (m_kernel s))) (m_kernel s)) s in
      match c (p_fds p) with
      | Done a t => Done a (upd t)
      | Fail e t => Fail e (upd t)
      | Crash => Crash
      end
  end.
Definition on_mem {A} (pid : Z) (c : kst (MemorySpace * Mem) A) : kst Machine A := on_kernel (on_space pid c).

(** The file system calls see the descriptors, the working directory and the
    memory of the process. *)
Definition sys_view (p : Process File) (s : Machine) : Sys :=
  mkSys (set_fs (SysFs.set_user (as_user (p_space p, k_mem (m_kernel s))) (v_fs (m_vfs s))) (m_vfs s))
    (p_fds p) (p_cwd p) (m_dir_files s) (m_seek_files s) (m_next_file s).
Definition sys_put (pid : Z) (p : Process File) (y : Sys) (s : Machine) : Machine :=
  let u := as_space (get_user (v_fs (y_vfs y))) in
  let p := P.with_space (P.with_cwd (P.with_fds p (fd_table y)) (cwd y)) u.1 in
  mkMachine (set_procs (<[pid := p]> (k_procs (m_kernel s))) (set_mem u.2 (m_kernel s)))
    (y_vfs y) (dir_files y) (seek_files y) (next_file y) (m_fpu s) (m_ticks s) (m_trigger s) (m_timers s)
    (m_woken s) (m_spawned s) (m_curr s) (m_satp s).
Definition on_sys {A} (pid : Z) (c : kst Sys A) : kst Machine A := λ s,
  match k_procs (m_kernel s) !! pid with
  | None => Crash
  | Some p =>
      match c (sys_view p s) with
      | Done a y => Done a (sys_put pid p y s)
      | Fail e y => Fail e (sys_put pid p y s)
      | Crash => Crash
      end
  end.

(** Signals see the thread, the handlers, status and memory of its process, and
    the floating-point unit. *)
Definition on_sig {A} (pid tid : Z) (c : kst (SigState (MemorySpace * Mem)) A) : kst Machine A := λ s,
  match k_procs (m_kernel s) !! pid with
  | None => Crash
  | Some p =>
      match p_threads p !! tid with
      | None => Crash
      | Some t =>
          let upd x :=
            let p := P.with_threads p (<[tid := ss_thread x]> (p_threads p)) in
            let p := P.with_status (P.with_handlers p (ss_handlers x)) (ss_status x) in
            let p := P.with_space p (ss_user x).1 in
            set_fpu (ss_fpu x)
              (set_kernel (set_procs (<[pid := p]> (k_procs (m_kernel s))) (set_mem (ss_user x).2 (m_kernel s))) s) in
          match c (mkSig t (p_handlers p) (p_status p) (m_fpu s) (p_space p, k_mem (m_kernel s))) with
          | Done a x => Done a (upd x)
          | Fail e x => Fail e (upd x)
          | Crash => Crash
          end
      end
  end.

(** [local_hart().curr_thread()], and its trap context *)
Definition curr : kst Machine (Z * Z) := s ← kget; kunwrap (m_curr s).
Definition get_thread (pid tid : Z) : kst Machine Thread :=
  p ← on_kernel (proc pid); kunwrap (p_threads p !! tid).
Definition set_ctx (pid tid : Z) (f : TrapContext → TrapContext) : kst Machine () :=
  on_kernel (update_thread pid tid (λ t, Th.with_ctx t (f (trap_context t)))).

(** What [mmap] asks of an open file. *)
Definition file_view (s : Machine) (p : Process File) (f : File) : FileView :=
  let y := sys_view p s in
  mkView
    (match kvalue (File_meta f y) with Some m => mode m | None => Fifo end)
    (match f with
     | FSeekable x =>
         match kvalue ((x ← get_seekable x; i ← inode_of (sf_dentry x); m ← inode_meta (sf_dentry x); mret (i, mode m)) y) with
         | Some (i, md) => Some (file_addr i, md)
         | None => None
         end
     | _ => None
     end).

(** ** [sys_execve] *)
Definition now_spec : kst Machine TimeSpec := s ← kget; klift (curr_time_spec (m_ticks s)).

(** [collect_cstrs]: pointers up to a null one, each to a string. An address grows
    by eight at each turn and stays below [2 ^ 64]. *)
Definition collect_step (st : list str * Z) : kst Sys ((list str * Z) + list str) :=
  let '(v, ptr_vec) := st in
  bs ← SysFs.on_mem (_ ← check_read ptr_vec 8; load_user ptr_vec 8);
  let arg_str_ptr := from_le_bytes bs in
  if arg_str_ptr =? 0 then mret (inr v)
  else
    arg_str ← cstr arg_str_ptr;
    o ← klift (UserCheck_add ptr_vec 8 1);
    ptr_vec ← kok_or o EINVAL;
    mret (inl (v ++ [arg_str], ptr_vec)).
Definition collect_cstrs (v : list str) (ptr_vec : Z) : kst Sys (list str) :=
  r ← kiter (2 ^ 61) collect_step (v, ptr_vec);
  match r with inr v => mret v | inl _ => kcrash end.

Definition ends_with (suffix p : str) : bool :=
  bool_decide (suffix = drop (length p - length suffix) p).
Definition dot_sh : str := [46; 115; 104].
Definition busybox : str := [98; 117; 115; 121; 98; 111; 120].

(** [fs::find_file] and [fs::read_file] *)
Definition find_file (now : TimeSpec) (p : str) : kst Sys DEntry :=
  p2i ← SysFs.resolve now AT_FDCWD p; find_last now p2i.
Definition read_file (b : Z) : kst Sys (list Z) :=
  m ← inode_meta b;
  i ← inode_of b;
  _ ← on_world (kmodify (set_kbuf (replicate (Z.to_nat (data_len m)) 0)));
  len ← on_world (inode_read i RKernel 0);
  s ← kget;
  mret (take (Z.to_nat len) (get_kbuf (v_fs (y_vfs s)))).

Definition sys_execve (pid pathname argv : Z) (envp : option Z) : kst Machine Z :=
  now ← now_spec;
  '(bytes, args, envs) ← on_sys pid
    (pathname ← cstr pathname;
     let '(pathname, args) :=
       if ends_with dot_sh pathname then (47 :: busybox, [busybox; [115; 104]]) else (pathname, []) in
     args ← collect_cstrs args argv;
     envs ← match envp with Some envp => collect_cstrs [] envp | None => mret [] end;
     e ← find_file now pathname;
     match e with
     | DDir _ => kfail EISDIR
     | DBytes b =>
         m ← inode_meta b;
         if negb (bool_decide (mode m = Regular)) then kfail EACCES else mret (b, args, envs)
     end);
  elf_data ← on_sys pid (read_file bytes);
  _ ← on_kernel (exec pid elf_data args envs);
  mret (Z.of_nat (length args)).

(** ** The table of system calls

    A call returns a value, or its task waits: for a timer, for its next turn, for
    a child. Waits inside files and pipes run to their end. *)
Inductive wait_on : Type :=
| OnTimer (f : TimerFuture)
| OnYield
| OnChild (pid : Z) (wstatus : option Z) (options : Z).
Inductive sysret : Type :=
| Ret (r : Z)
| Wait (w : wait_on).

Definition ret (c : kst Machine Z) : kst Machine sysret := r ← c; mret (Ret r).
(** [UserCheck::new(ptr).ok_or(errno::EINVAL)?] *)
Definition non_null (ptr : Z) : kst Machine Z := kok_or (UserCheck_new ptr) EINVAL.

Definition wait4 (pid child : Z) (wstatus : option Z) (options rusage : Z) : kst Machine sysret :=
  o ← on_kernel (sys_wait4 pid child wstatus options rusage);
  mret (match o with
        | Some r => Ret r
        | None => Wait (OnChild child wstatus (wrap 32 options))
        end).
(** [sys_clone] and [spawn_user_thread] of the new main thread *)
Definition clone (pid flags user_stack : Z) : kst Machine Z :=
  child ← on_kernel (sys_clone pid flags user_stack);
  _ ← kmodify (λ s, set_spawned ((child, 0) :: m_spawned s) s);
  mret child.
Definition mmap (pid addr len prot flags fd offset : Z) : kst Machine Z :=
  s ← kget;
  p ← on_kernel (proc pid);
  on_kernel (sys_mmap (file_view s p) pid addr len prot flags fd offset).
Definition nanosleep (pid req : Z) : kst Machine sysret :=
  s ← kget; f ← on_mem pid (sys_nanosleep (m_ticks s) req); mret (Wait (OnTimer f)).

(** [syscall_impl] for the thread [tid] of [pid], at [ticks]. *)
Definition syscall_at (ticks pid tid id : Z) (args : list Z) : kst Machine sysret :=
  let arg n := default 0 (args !! n) in
  let a0 := arg 0%nat in let a1 := arg 1%nat in let a2 := arg 2%nat in
  let a3 := arg 3%nat in let a4 := arg 4%nat in let a5 := arg 5%nat in
  let opt := UserCheck_new in
  let fs c := now ← now_spec; ret (on_sys pid (c now)) in
  match id with
  | 17 (* GETCWD *) => p ← non_null a0; ret (on_sys pid (sys_getcwd p a1))
  | 23 (* DUP *) => ret (on_fds pid (sys_dup a0))
  | 24 (* DUP3 *) => ret (on_fds pid (sys_dup3 a0 a1 (wrap 32 a2)))
  | 25 (* FCNTL64 *) => ret (on_fds pid (sys_fcntl64 a0 a1 a2))
  | 29 (* IOCTL *) => ret (on_sys pid (sys_ioctl a0 a1 a2))
  | 34 (* MKDIRAT *) => p ← non_null a1; fs (λ now, sys_mkdirat now a0 p)
  | 35 (* UNLINKAT *) => p ← non_null a1; fs (λ now, sys_unlinkat now a0 p (wrap 32 a2))
  | 39 (* UMOUNT *) => p ← non_null a0; fs (λ now, sys_umount now p (wrap 32 a1))
  | 40 (* MOUNT *) =>
      src ← non_null a0; target ← non_null a1; fs_type ← non_null a2;
      fs (λ now, sys_mount now src target fs_type (wrap 32 a3) (opt a4))
  | 43 (* STATFS64 *) => p ← non_null a0; buf ← non_null a1; fs (λ now, sys_statfs64 now p buf)
  | 48 (* FACCESSAT *) => p ← non_null a1; fs (λ now, sys_faccessat now a0 p (wrap 32 a2))
  | 49 (* CHDIR *) => p ← non_null a0; fs (λ now, sys_chdir now p)
  | 56 (* OPENAT *) => p ← non_null a1; fs (λ now, sys_openat now a0 p (wrap 32 a2))
  | 57 (* CLOSE *) => ret (on_fds pid (sys_close a0))
  | 59 (* PIPE2 *) => p ← non_null a0; ret (on_sys pid (sys_pipe2 p (wrap 32 a1)))
  | 61 (* GETDENTS64 *) => p ← non_null a1; ret (on_sys pid (sys_getdents64 a0 p a2))
  | 62 (* LSEEK *) => ret (on_sys pid (sys_lseek a0 (to_signed 64 a1) a2))
  | 63 (* READ *) => p ← non_null a1; ret (on_sys pid (sys_read a0 p a2))
  | 64 (* WRITE *) => p ← non_null a1; ret (on_sys pid (sys_write a0 p a2))
  | 65 (* READV *) => p ← non_null a1; ret (on_sys pid (sys_readv a0 p a2))
  | 66 (* WRITEV *) => p ← non_null a1; ret (on_sys pid (sys_writev a0 p a2))
  | 71 (* SENDFILE64 *) => ret (on_sys pid (sys_sendfile64 a0 a1 (opt a2) a3))
  | 73 (* PPOLL *) => p ← non_null a0; ret (on_sys pid (sys_ppoll p a1 (opt a2)))
  | 79 (* NEWFSTATAT *) => p ← non_null a1; buf ← non_null a2; fs (λ now, sys_newfstatat now a0 p buf a3)
  | 80 (* NEWFSTAT *) => buf ← non_null a1; ret (on_sys pid (sys_newfstat a0 buf))
  | 88 (* UTIMENSAT *) => p ← non_null a1; fs (λ now, sys_utimensat now a0 p (opt a2) a3)
  | 93 (* EXIT *) => ret (on_kernel (sys_exit pid tid (to_signed 32 a0)))
  | 94 (* EXIT_GROUP *) => ret (on_kernel (sys_exit_group pid (to_signed 32 a0)))
  | 96 (* SET_TID_ADDRESS *) => ret (on_kernel (sys_set_tid_address pid tid a0))
  | 101 (* NANOSLEEP *) => p ← non_null a0; nanosleep pid p
  | 113 (* CLOCK_GETTIME *) => p ← non_null a1; ret (on_mem pid (sys_clock_gettime ticks a0 p))
  | 116 (* SYSLOG *) => p ← non_null a1; ret (on_mem pid (sys_syslog (wrap 32 a0) p a2))
  | 124 (* SCHED_YIELD *) => mret (Wait OnYield)
  | 129 (* KILL *) => ret (on_kernel (sys_kill (to_signed 64 a0) a1))
  | 134 (* RT_SIGACTION *) => ret (on_sig pid tid (sys_rt_sigaction a0 (opt a1) (opt a2)))
  | 135 (* RT_SIGPROCMASK *) => ret (on_sig pid tid (sys_rt_sigprocmask a0 (opt a1) (opt a2) a3))
  | 139 (* RT_SIGRETURN *) => ret (on_sig pid tid sys_rt_sigreturn)
  | 140 (* SETPRIORITY *) => ret (on_kernel sys_setpriority)
  | 153 (* TIMES *) => p ← non_null a0; ret (on_mem pid (sys_times ticks p))
  | 154 (* SETPGID *) => ret (on_kernel sys_setpgid)
  | 155 (* GETPGID *) => ret (on_kernel sys_getpgid)
  | 160 (* UNAME *) => p ← non_null a0; ret (on_mem pid (sys_uname p))
  | 169 (* GET_TIME_OF_DAY *) => p ← non_null a0; ret (on_mem pid (sys_get_time_of_day ticks p a1))
  | 172 (* GETPID *) => ret (on_kernel (sys_getpid pid))
  | 173 (* GETPPID *) => ret (on_kernel (sys_getppid pid))
  | 174 | 175 | 176 | 177 (* GETUID, GETEUID, GETGID, GETEGID *) => mret (Ret 0)
  | 178 (* GETTID *) => ret (on_kernel (sys_gettid tid))
  | 179 (* SYSINFO *) => p ← non_null a0; ret (on_mem pid (sys_sysinfo ticks p))
  | 214 (* BRK *) => ret (on_kernel (sys_brk pid a0))
  | 215 (* MUNMAP *) => ret (on_kernel (sys_munmap pid a0 a1))
  | 220 (* CLONE *) => ret (clone pid a0 a1)
  | 221 (* EXECVE *) => p ← non_null a0; argv ← non_null a1; ret (sys_execve pid p argv (opt a2))
  | 222 (* MMAP *) => ret (mmap pid a0 a1 (wrap 32 a2) (wrap 32 a3) a4 a5)
  | 260 (* WAIT4 *) => wait4 pid (to_signed 64 a0) (opt a1) a2 a3
  | 276 (* RENAMEAT2 *) =>
      old ← non_null a1; new ← non_null a3;
      fs (λ now, sys_renameat2 now a0 old a2 new (wrap 32 a4))
  | _ => _ ← on_kernel (k_exit_process pid (-10)); mret (Ret 0)
  end.
Definition syscall_impl (id : Z) (args : list Z) : kst Machine sysret :=
  '(pid, tid) ← curr; s ← kget; syscall_at (m_ticks s) pid tid id args.

(** [defines::syscall::name] knows these; any other number is [unreachable!]. *)
Definition syscall_ids : list Z :=
  [17; 23; 24; 25; 29; 34; 35; 39; 40; 43; 48; 49; 56; 57; 59; 61; 62; 63; 64; 65; 66; 71; 73; 79; 80; 88;
   93; 94; 96; 101; 113; 116; 124; 129; 134; 135; 139; 140; 153; 154; 155; 160; 169; 172; 173; 174; 175;
   176; 177; 178; 179; 214; 215; 220; 221; 222; 260; 276].

(** [syscall]: the result as an [isize], an error as its code. *)
Definition syscall (id : Z) (args : list Z) : kst Machine (Z + wait_on) := λ s,
  match syscall_impl id args s with
  | Done (Ret r) s => Done (inl (to_signed 64 r)) s
  | Done (Wait w) s => Done (inr w) s
  | Fail e s => Done (inl (as_isize e)) s
  | Crash => Crash
  end.

(** ** Traps *)
Inductive TrapCause : Type := Exception (e : Z) | Interrupt (i : Z).
Definition IllegalInstruction : Z := 2.
Definition StoreFault : Z := 7.
Definition UserEnvCall : Z := 8.
Definition InstructionPageFault : Z := 12.
Definition LoadPageFault : Z := 13.
Definition StorePageFault : Z := 15.
Definition SupervisorTimer : Z := 5.
Definition SupervisorExternal : Z := 9.

(** What a handler does with the thread: [ControlFlow], or a wait, in the middle of
    a system call or until the next turn. *)
Inductive flow : Type := FContinue | FBreak | FSyscall (w : wait_on) | FYield.

(** [time::check_timer] and [riscv_time::set_next_trigger] *)
Definition timer_interrupt : kst Machine () :=
  s ← kget;
  ms ← klift (get_time_ms (m_ticks s));
  let '(popped, kept) := check_timer ms (m_timers s) in
  trigger ← klift (set_next_trigger (m_ticks s));
  kmodify (set_clock trigger kept (m_woken s ++ (waker <$> popped))).

(** [interrupt_handler] on the interrupt the PLIC gives, [ch] being the byte the
    serial port receives. *)
Inductive InterruptSource : Type := VirtIO | Uart0.
Definition InterruptSource_from_id (id : Z) : option InterruptSource :=
  if id =? 1 then Some VirtIO else if id =? 10 then Some Uart0 else None.
Definition set_world (f : FS) (s : Machine) : Machine :=
  mkMachine (m_kernel s) (set_fs f (m_vfs s)) (m_dir_files s) (m_seek_files s) (m_next_file s) (m_fpu s) (m_ticks s)
    (m_trigger s) (m_timers s) (m_woken s) (m_spawned s) (m_curr s) (m_satp s).
Definition interrupt_handler (interrupt_id ch : Z) : kst Machine () :=
  if interrupt_id =? 0 then mret ()
  else
    src ← kunwrap (InterruptSource_from_id interrupt_id);
    match src with
    | Uart0 =>
        s ← kget;
        let '(t, woken) := handle_irq ch (get_tty (v_fs (m_vfs s))) in
        _ ← kmodify (set_world (set_tty t (v_fs (m_vfs s))));
        kmodify (λ s, set_clock (m_trigger s) (m_timers s) (m_woken s ++ woken) s)
    | VirtIO => kcrash
    end.

(** The end of a system call: the thread ends, or the result goes to [a0]. *)
Definition finish_syscall (pid tid result : Z) : kst Machine flow :=
  if result =? as_isize BREAK then mret FBreak
  else _ ← set_ctx pid tid (λ c, Ctx.set_a0 c (wrap 64 result)); mret FContinue.

Section handlers.
(** Are spans logged ([SLOG] at [Info] or above)? What do the interrupt controller
    and the serial port give? *)
Variables (slog : bool) (interrupt_id ch : Z).

Definition is_page_fault (e : Z) : bool :=
  (e =? StoreFault) || (e =? StorePageFault) || (e =? InstructionPageFault) || (e =? LoadPageFault).
Definition page_fault (pid e stval : Z) : kst Machine flow :=
  ok ← on_kernel (in_space pid (λ m sp, handle_memory_exception m sp stval (e =? StoreFault)));
  if (ok : bool) then mret FContinue
  else _ ← on_kernel (k_exit_process pid (-2)); mret FBreak.

Definition user_trap_handler (cause : TrapCause) (stval : Z) : kst Machine flow :=
  '(pid, tid) ← curr;
  match cause with
  | Exception e =>
      if e =? UserEnvCall then
        t ← get_thread pid tid;
        sepc' ← klift (uadd 64 (sepc (trap_context t)) 4);
        _ ← set_ctx pid tid (λ c, Ctx.with_sepc c sepc');
        let r n := Ctx.reg (trap_context t) n in
        let syscall_id := r 16%nat in
        _ ← kassert (negb slog || bool_decide (syscall_id ∈ syscall_ids));
        result ← syscall syscall_id [r 9%nat; r 10%nat; r 11%nat; r 12%nat; r 13%nat; r 14%nat];
        match result with
        | inl result => finish_syscall pid tid result
        | inr w => mret (FSyscall w)
        end
      else if is_page_fault e then page_fault pid e stval
      else if e =? IllegalInstruction then _ ← on_kernel (k_exit_process pid (-3)); mret FBreak
      else kcrash
  | Interrupt i =>
      if i =? SupervisorTimer then _ ← timer_interrupt; mret FYield
      else if i =? SupervisorExternal then _ ← interrupt_handler interrupt_id ch; mret FContinue
      else kcrash
  end.

(** A system call after its wait. *)
Definition resume_syscall (w : wait_on) : kst Machine flow :=
  '(pid, tid) ← curr;
  match w with
  | OnTimer _ | OnYield => finish_syscall pid tid 0
  | OnChild child wstatus options =>
      r ← ktry (on_kernel (wait4_poll pid child wstatus options));
      match r with
      | inl (Some r) => finish_syscall pid tid (to_signed 64 r)
      | inl None => mret (FSyscall w)
      | inr e => finish_syscall pid tid (as_isize e)
      end
  end.

Definition kernel_trap_handler (cause : TrapCause) : kst Machine () :=
  match cause with
  | Interrupt i =>
      if i =? SupervisorTimer then timer_interrupt
      else if i =? SupervisorExternal then interrupt_handler interrupt_id ch
      else kcrash
  | Exception _ => kcrash
  end.
End handlers.

(** [trap_return], up to the jump to user mode *)
Definition trap_return : kst Machine () := '(pid, tid) ← curr; _ ← on_sig pid tid check_signal; mret ().
(** The test at the end of [user_thread_loop]: does the loop end? *)
Definition loop_ends (next_op : flow) : kst Machine bool :=
  '(pid, _) ← curr;
  p ← on_kernel (proc pid);
  mret (match next_op with FBreak => true | _ => ProcessStatus.is_exited (p_status p) end).

(** [UserThreadWrapperFuture::poll] around the poll [run] of the thread's loop:
    [true] is ready. *)
Definition set_status_of (pid tid : Z) (st : ThreadStatus) : kst Machine () :=
  on_kernel (update_thread pid tid (λ t, Th.with_status t st)).
Definition poll_enter (pid tid : Z) : kst Machine () :=
  p ← on_kernel (proc pid);
  _ ← kmodify (set_hart (Some (pid, tid)) (root_frame (page_table (p_space p))));
  t ← get_thread pid tid;
  let fl := user_float_ctx (trap_context t) in
  _ ← (if valid fl then kmodify (set_fpu (float_restore fl)) else mret ());
  _ ← set_status_of pid tid Trap.Running;
  kassert (bool_decide (t_status t = Ready)).
Definition poll_leave (pid tid : Z) (ready : bool) : kst Machine () :=
  _ ← (if ready then on_kernel (exit_thread pid tid)
       else
         t ← get_thread pid tid;
         _ ← (if negb (bool_decide (t_status t = Ready)) then set_status_of pid tid Blocking else mret ());
         s ← kget;
         match Ctx.fs (trap_context t) with
         | Trap.Dirty =>
             set_ctx pid tid (λ c, Trap.set_fs (Ctx.with_float c (set_valid true (float_save (user_float_ctx c) (m_fpu s)))) Trap.Clean)
         | _ => mret ()
         end);
  kmodify (set_hart None kernel_root).
Definition poll_thread (pid tid : Z) (run : kst Machine bool) : kst Machine bool :=
  _ ← poll_enter pid tid;
  ready ← run;
  _ ← poll_leave pid tid ready;
  mret ready.
End machine.
Arguments Machine {_ _ _}.
