(* ===== verification/FatVfs.v ===== *)
(** * From a path to the bytes on the disk

    The directories and files of a FAT32 volume behind the interfaces of the dentry
    cache ([DirBackend], the trait [DirInodeBackend] of [fs/fat32_vfs/src/dir.rs])
    and of the file system calls ([World]), with the page cache in between; and
    what [find_file] and [read_file] of [libkernel/src/fs/mod.rs], with which
    [execve] loads a program, then give. *)
From S2P Require Import Prelude BTree Address Defines Kst FrameAllocator UserCheck UserAccess FdTable Inode Fat DirEntry FatFile FatDir Vfs VfsSpec SysFs SysFsSpec SysFsPaths Machine.

Section volume.
Context {BD : Buddy} {KI : KernelImage} {DV : BlockDevice} {CH : Chrono} {ES : EcoStr}.
Context {U : Type} {UM : UserMemory U} (ucstr : Z → kst U str).
#[local] Existing Instance FatBackend.

(** Physical memory, the allocation table the inodes share, the inodes by number
    (the number also being the inode number they draw), the clock, user memory and
    the kernel's buffer *)
Record Volume : Type := mkVol {
  w_mem : Mem;
  w_fat : FileAllocTable;
  w_dirs : gmap Z FatDir;
  w_files : gmap Z (FatFile * InodeMeta);
  w_next : Z;
  w_now : TimeSpec;
  w_user : U;
  w_kbuf : list Z;
}.
Definition set_wdirs (m : gmap Z FatDir) (s : Volume) : Volume :=
  mkVol (w_mem s) (w_fat s) m (w_files s) (w_next s) (w_now s) (w_user s) (w_kbuf s).
Definition set_wfat (t : FileAllocTable) (s : Volume) : Volume :=
  mkVol (w_mem s) t (w_dirs s) (w_files s) (w_next s) (w_now s) (w_user s) (w_kbuf s).
Definition set_wuser (u : U) (s : Volume) : Volume :=
  mkVol (w_mem s) (w_fat s) (w_dirs s) (w_files s) (w_next s) (w_now s) u (w_kbuf s).
Definition set_wkbuf (b : list Z) (s : Volume) : Volume :=
  mkVol (w_mem s) (w_fat s) (w_dirs s) (w_files s) (w_next s) (w_now s) (w_user s) b.

(** ** Directories *)
(** [Arc::new(..).unsize(..)] *)
Definition put_inode (i : DynInode) : kst Volume (Z + Z) :=
  s ← kget;
  let k := w_next s in
  match i with
  | DynDir d =>
      _ ← kput (mkVol (w_mem s) (w_fat s) (<[k := d]> (w_dirs s)) (w_files s) (k + 1) (w_now s) (w_user s) (w_kbuf s));
      mret (inl k)
  | DynBytes f m =>
      _ ← kput (mkVol (w_mem s) (w_fat s) (w_dirs s) (<[k := (f, m)]> (w_files s)) (k + 1) (w_now s) (w_user s) (w_kbuf s));
      mret (inr k)
  end.
Definition get_fat_dir (d : Z) : kst Volume FatDir := s ← kget; kunwrap (w_dirs s !! d).

Definition vol_lookup (d : Z) (name : str) : kst Volume (option (Z + Z)) :=
  dir ← get_fat_dir d;
  s ← kget;
  '(dir, r) ← klift (FatDir.lookup (w_fat s) (w_next s) (w_now s) dir name);
  _ ← kmodify (λ s, set_wdirs (<[d := dir]> (w_dirs s)) s);
  match r with
  | None => kcrash
  | Some None => mret None
  | Some (Some i) => k ← put_inode i; mret (Some k)
  end.
Definition vol_mkdir (d : Z) (_ : str) : kst Volume Z :=
  s ← kget;
  '(dir, fat) ← klift (FatDir.mkdir (w_fat s) (w_next s) (w_now s));
  _ ← kmodify (set_wfat fat);
  k ← put_inode (DynDir dir);
  mret (match k with inl k | inr k => k end).
Definition vol_mknod (d : Z) (_ : str) (m : InodeMode) : kst Volume Z :=
  s ← kget;
  '(f, meta, fat) ← klift (FatDir.mknod (w_fat s) (w_next s) (w_now s) m);
  _ ← kmodify (set_wfat fat);
  k ← put_inode (DynBytes f meta);
  mret (match k with inl k | inr k => k end).
Definition vol_unlink (_ : Z) (_ : str) : kst Volume () := mret ().

(** [read_dir]: the entries whose names are not taken, by the cache or by an earlier
    entry *)
Fixpoint vol_entries (fuel : nat) (raw : list (KResult (list Z))) (used : str → bool) : kst Volume (list (str * (Z + Z))) :=
  match fuel with
  | O => mret []
  | S fuel =>
      match dir_next raw with
      | None => mret []
      | Some (Ok e, raw) =>
          if used (DirEntry.entry_name e) then vol_entries fuel raw used
          else
            s ← kget;
            o ← klift (FatDir.inode_of (w_fat s) (w_next s) e);
            i ← kunwrap o;
            k ← put_inode i;
            rest ← vol_entries fuel raw (λ n, used n || bool_decide (n = DirEntry.entry_name e));
            mret ((DirEntry.entry_name e, k) :: rest)
      | Some (Err _, raw) => vol_entries fuel raw used
      | Some (Panic, _) => kcrash
      end
  end.
Definition set_dir_meta (d : Z) (m : InodeMeta) (s : Volume) : Volume :=
  set_wdirs (alter (λ x, mkFatDir (d_clusters x) m (d_create_time x)) d (w_dirs s)) s.
Definition vol_read_dir (d : Z) (used : str → bool) : kst Volume (list (str * (Z + Z))) :=
  dir ← get_fat_dir d;
  s ← kget;
  let raw := raw_entries (w_fat s) (d_clusters dir) in
  l ← vol_entries (length raw) raw used;
  _ ← kmodify (set_dir_meta d (Meta.with_access (d_meta dir) (w_now s)));
  mret l.

Definition vol_dir_meta (d : Z) (s : Volume) : InodeMeta :=
  match w_dirs s !! d with Some x => d_meta x | None => Meta.new d Dir end.
Definition vol_file_meta (b : Z) (s : Volume) : InodeMeta :=
  match w_files s !! b with Some x => x.2 | None => Meta.new b Regular end.
Definition set_file_meta (b : Z) (m : InodeMeta) (s : Volume) : Volume :=
  mkVol (w_mem s) (w_fat s) (w_dirs s) (alter (λ x, (x.1, m)) b (w_files s)) (w_next s) (w_now s) (w_user s) (w_kbuf s).

#[export] Instance VolumeDirs : DirBackend := {|
  DI := Z; BI := Z; FS := Volume;
  dir_lookup := vol_lookup; dir_mkdir := vol_mkdir; dir_mknod := vol_mknod; dir_unlink := vol_unlink;
  dir_read_dir := vol_read_dir; dir_meta := vol_dir_meta; dir_set_meta := set_dir_meta;
  file_meta := vol_file_meta; file_set_meta := set_file_meta; file_addr b := b;
|}.

(** ** Files: the page cache over the clusters

    The file works on the shared table. *)
Definition on_file {A} (b : Z) (c : TimeSpec → kst (Io FatFile U) A) : kst Volume A := λ s,
  match w_files s !! b with
  | None => Crash
  | Some (f, meta) =>
      let io := mkIo (w_mem s) meta (mkFatFile (clusters f) (w_fat s) (ff_create_time f)) (w_user s) (w_kbuf s) in
      let upd x := mkVol (io_mem x) (ff_fat (io_dev x)) (w_dirs s) (<[b := (io_dev x, io_meta x)]> (w_files s))
                     (w_next s) (w_now s) (io_user x) (io_kbuf x) in
      match c (w_now s) io with
      | Done a x => Done a (upd x)
      | Fail e x => Fail e (upd x)
      | Crash => Crash
      end
  end.
(** Every inode of the volume is a regular file. *)
Definition none_such {B} (_ : B) (_ : Z) : kst (Io FatFile U) Z := kcrash.
#[export] Instance VolumeWorld : World := {|
  PipeT := Empty_set; UserT := U; user_mem := UM;
  get_user := w_user; set_user := set_wuser; user_cstr := ucstr; set_kbuf := set_wkbuf; get_kbuf := w_kbuf;
  inode_read b buf offset := on_file b (λ now, read_at none_such now buf offset);
  inode_write b buf offset := on_file b (λ now, write_at none_such now buf offset);
  inode_resize b len := on_file b (λ now, resize now len);
  inode_ioctl _ _ _ := kfail ENOTTY;
  new_pipe := kfail EMFILE; pipe_read p := match p with end; pipe_write p := match p with end;
  pipe_meta p := match p with end;
  new_tmp_dir := kfail ENOSPC; new_tty := kfail ENOSPC; new_rtc := kfail ENOSPC; new_mounts := kfail ENOSPC;
  new_meminfo := kfail ENOSPC;
|}.
#[export] Instance VolumeLaws : WorldLaws.
Proof. by constructor. Qed.

(** ** Looking up a file that is not in the cache *)
Lemma from_dir_entry_ok fat number e cs :
  is_dir e = false → cluster_chain fat (first_cluster_id e) = Ok (Some cs) →
  let f := mkFatFile cs fat None in
  ff_ok f → 0 ≤ file_size e ≤ Z.of_nat (length (ff_content f)) →
  ∃ m, from_dir_entry fat number e = Ok (Some (f, m)) ∧ data_len m = file_size e ∧ mode m = Regular ∧ pages m = ∅.
Proof.
  intros Hd Hc f [Hs _ _ Hn] Hsz. rewrite length_content in Hsz. unfold per_cluster in Hsz. simpl in *.
  unfold from_dir_entry. rewrite Hd, Hc. cbn [negb assert mbind outcome_bind]. unfold umul.
  rewrite checked_fits by nia. cbn [mbind outcome_bind]. rewrite checked_fits by (unfold SECTOR_SIZE; nia). cbn [mbind outcome_bind].
  rewrite (proj2 (Z.leb_le (file_size e) _)) by (unfold SECTOR_SIZE; nia). cbn [assert mbind outcome_bind].
  eexists. split; [reflexivity|]. done.
Qed.

(** Metadata of directories apart, the volume is the same. *)
Definition calm (f f' : Volume) : Prop :=
  w_mem f' = w_mem f ∧ w_fat f' = w_fat f ∧ w_files f' = w_files f ∧ w_next f' = w_next f ∧ w_now f' = w_now f ∧
  ∀ d, d_clusters <$> w_dirs f' !! d = d_clusters <$> w_dirs f !! d.
Lemma set_dir_meta_calm i m f : calm f (set_dir_meta i m f).
Proof.
  split_and!; [done..|]. intros d. simpl. rewrite lookup_alter. case_decide as Hd; [subst|done]. by destruct (w_dirs f !! d).
Qed.
Lemma calm_trans f1 f2 f3 : calm f1 f2 → calm f2 f3 → calm f1 f3.
Proof.
  unfold calm. intros (-> & -> & -> & -> & -> & Ha) (-> & -> & -> & -> & -> & Hb). split_and!; [done..|]. intros d. by rewrite Hb.
Qed.
Lemma touches_calm (f f' : @FS VolumeDirs) : touches f f' → calm f f'.
Proof.
  induction 1 as [f|f f1 f2 (i & m & ->) _ IH]; [by split_and!|]. eapply calm_trans; [apply set_dir_meta_calm|exact IH].
Qed.

Lemma set_wuser_calm u f : calm f (set_wuser u f).
Proof. by split_and!. Qed.
Lemma stirred_calm (f f' : Volume) : stirred (DB:=VolumeDirs) (WD:=VolumeWorld) f f' → calm f f'.
Proof.
  induction 1 as [f|f f1 f2 H1 _ IH]; [by split_and!|]. eapply calm_trans; [|exact IH].
  destruct H1 as [(i & m & ->)|[u ->]]; [apply set_dir_meta_calm|apply set_wuser_calm].
Qed.
(** A name that no entry on the disk has is absent, in the sense the calls on paths
    need: the lookup of [FatDir] answers [None] and sets an access time. *)
Lemma fat_absent (f : Volume) (d : Z) dd files rest nm :
  w_dirs f !! d = Some dd → ff_ok (mkFatFile (d_clusters dd) (w_fat f) None) →
  (∀ x, x ∈ files → name_ok x.1 ∧ std_entry_ok x.2) →
  ff_content (mkFatFile (d_clusters dd) (w_fat f) None) = concat ((λ x, concat (raw_file x.1 x.2)) <$> files) ++ 0 :: rest →
  first_named files nm = None → absent (DB:=VolumeDirs) (WD:=VolumeWorld) d nm f.
Proof.
  intros Hd Hok Hfiles Hc Hfn.
  change (∀ g : Volume, stirred (DB:=VolumeDirs) (WD:=VolumeWorld) f g →
    ∃ g' : Volume, vol_lookup d nm g = Done None g' ∧ touches (DB:=VolumeDirs) g g').
  intros g Hg. apply stirred_calm in Hg as (_ & Hfat & _ & _ & _ & Hcl). specialize (Hcl d).
  rewrite Hd in Hcl. apply fmap_Some in Hcl as (gd & Hgd & Hcl). rewrite Hcl, <- Hfat in Hok, Hc.
  exists (set_dir_meta d (Meta.with_access (d_meta gd) (w_now g)) g). split; [|apply rtc_once; by eexists _, _].
  unfold vol_lookup. rewrite (kbind_run _ _ g gd g) by (unfold get_fat_dir, mbind, kst_bind, kget; by rewrite Hgd).
  rewrite (kbind_run _ _ g g g) by done.
  set (gd' := mkFatDir (d_clusters gd) (Meta.with_access (d_meta gd) (w_now g)) (d_create_time gd)).
  assert (Hl : FatDir.lookup (w_fat g) (w_next g) (w_now g) gd nm = Ok (gd', Some None)).
  { unfold FatDir.lookup. cbv zeta. cbn [d_clusters]. by rewrite (fat_lookup_spec _ _ files rest nm Hok Hfiles Hc), Hfn. }
  rewrite (kbind_run _ _ g (gd', Some None) g) by (unfold klift; by rewrite Hl). cbv beta iota.
  unfold set_dir_meta. rewrite alter_alt. by rewrite Hgd.
Qed.

Lemma vol_lookup_run (f : Volume) d dd files rest nm e cs :
  w_dirs f !! d = Some dd → ff_ok (mkFatFile (d_clusters dd) (w_fat f) None) →
  (∀ x, x ∈ files → name_ok x.1 ∧ std_entry_ok x.2) →
  ff_content (mkFatFile (d_clusters dd) (w_fat f) None) = concat ((λ x, concat (raw_file x.1 x.2)) <$> files) ++ 0 :: rest →
  first_named files nm = Some e → is_dir e = false →
  cluster_chain (w_fat f) (first_cluster_id e) = Ok (Some cs) → ff_ok (mkFatFile cs (w_fat f) None) →
  0 ≤ file_size e ≤ Z.of_nat (length (ff_content (mkFatFile cs (w_fat f) None))) →
  ∃ f' m, vol_lookup d nm f = Done (Some (inr (w_next f))) f' ∧ w_files f' !! w_next f = Some (mkFatFile cs (w_fat f) None, m) ∧
    data_len m = file_size e ∧ mode m = Regular ∧ pages m = ∅ ∧
    w_mem f' = w_mem f ∧ w_fat f' = w_fat f ∧ w_now f' = w_now f ∧ w_user f' = w_user f.
Proof.
  intros Hd Hok Hfiles Hc Hfn Hdir Hch Hokf Hsz.
  destruct (from_dir_entry_ok (w_fat f) (w_next f) e cs Hdir Hch Hokf Hsz) as (m & Hm & Hlen & Hmode & Hpg).
  unfold vol_lookup. rewrite (kbind_run _ _ f dd f) by (unfold get_fat_dir, mbind, kst_bind, kget; by rewrite Hd).
  rewrite (kbind_run _ _ f f f) by done.
  set (dd' := mkFatDir (d_clusters dd) (Meta.with_access (d_meta dd) (w_now f)) (d_create_time dd)).
  assert (Hl : FatDir.lookup (w_fat f) (w_next f) (w_now f) dd nm = Ok (dd', Some (Some (DynBytes (mkFatFile cs (w_fat f) None) m)))).
  { unfold FatDir.lookup. cbv zeta. cbn [d_clusters]. rewrite (fat_lookup_spec _ _ files rest nm Hok Hfiles Hc), Hfn. cbn [mbind outcome_bind].
    unfold FatDir.inode_of. rewrite Hdir, Hm. done. }
  rewrite (kbind_run _ _ f (dd', Some (Some (DynBytes (mkFatFile cs (w_fat f) None) m))) f) by (unfold klift; by rewrite Hl).
  cbv beta iota. eexists _, m. split; [reflexivity|]. simpl. rewrite lookup_insert_eq. done.
Qed.

(** The cache then has a new entry. *)
Lemma lookup_new_file now (v : Vfs) d n nm (k : Z) f' :
  dirs v !! d = Some n → is_special nm = false → d_children n !! nm = None →
  vol_lookup (d_inode n) nm (touch now (d_inode n) (v_fs v)) = Done (Some (inr k)) f' →
  ∃ v', Vfs.lookup now d nm v = Done (Some (DBytes (next_id v))) v' ∧
        Vfs.files v' !! next_id v = Some (mkBytes d nm (k : @BI VolumeDirs)) ∧ v_fs v' = f'.
Proof.
  intros Hd Hs Hc Hl. unfold is_special in Hs. apply bool_decide_eq_false in Hs.
  unfold Vfs.lookup, get_dir, mbind, kst_bind, kget, kunwrap, kmodify. rewrite Hd. unfold mret, kst_ret.
  rewrite !bool_decide_eq_false_2 by tauto. rewrite Hc. unfold on_fs. cbn [v_fs set_fs dir_lookup VolumeDirs]. rewrite Hl.
  eexists. split; [reflexivity|]. simpl. by rewrite lookup_insert_eq.
Qed.

(** ** Reading it *)
Lemma fresh_io_ok m i (f : FatFile) (u : U) kb : mem_inv m → ff_ok f → pages i = ∅ → io_ok (mkIo m i f u kb).
Proof. intros Hm Hf Hp. split; simpl; rewrite ?Hp; try done; intros *; by rewrite lookup_empty. Qed.
Lemma fresh_file_bytes m i (f : FatFile) (u : U) kb n :
  pages i = ∅ → 0 ≤ n ≤ Z.of_nat (length (ff_content f)) →
  file_bytes (mkIo m i f u kb) 0 n = take (Z.to_nat n) (ff_content f).
Proof.
  intros Hp Hn. apply list_eq. intros j. unfold file_bytes. rewrite list_lookup_fmap.
  destruct (decide (Z.of_nat j < n)) as [Hj|Hj].
  - rewrite lookup_seqZ_lt by lia. simpl. rewrite lookup_take_lt by lia. unfold file_byte.
    rewrite decide_False by (intros (q & Hq & _); simpl in Hq; by rewrite Hp, lookup_empty in Hq).
    simpl. rewrite Z.add_0_l, Nat2Z.id. destruct (lookup_lt_is_Some_2 (ff_content f) j) as [x Hx]; [lia|]. by rewrite Hx.
  - rewrite lookup_seqZ_ge by lia. rewrite lookup_ge_None_2; [done|]. rewrite length_take. lia.
Qed.
Lemma read_file_run (s : Sys) b n (k : Z) (f : FatFile) m :
  Vfs.files (y_vfs s) !! b = Some n → b_inode n = (k : @BI VolumeDirs) → w_files (v_fs (y_vfs s)) !! k = Some (f, m) →
  let g := mkFatFile (clusters f) (w_fat (v_fs (y_vfs s))) (ff_create_time f) in
  mode m = Regular → pages m = ∅ → ff_ok g → mem_inv (w_mem (v_fs (y_vfs s))) →
  0 ≤ data_len m ≤ Z.of_nat (length (ff_content g)) → data_len m ≤ 2 ^ 41 →
  (span 0 (data_len m) ≤ FrameAllocator.free_count (w_mem (v_fs (y_vfs s))))%nat →
  ∃ s', read_file b s = Done (take (Z.to_nat (data_len m)) (ff_content g)) s'.
Proof.
  intros Hb Hk Hf g Hmode Hpg Hok Hmem Hlen Hmax Hsp. unfold read_file.
  assert (Hi : SysFs.inode_of b s = Done k s) by (rewrite (inode_of_run s b n Hb); by rewrite Hk).
  assert (Hm : inode_meta b s = Done m s).
  { unfold inode_meta. rewrite (kbind_run _ _ _ _ _ Hi). unfold mbind, kst_bind, kget, mret, kst_ret. simpl. unfold vol_file_meta. by rewrite Hf. }
  rewrite (kbind_run _ _ _ _ _ Hm), (kbind_run _ _ _ _ _ Hi).
  set (sz := Z.to_nat (data_len m)). set (v := v_fs (y_vfs s)) in *.
  assert (Hk1 : on_world (kmodify (set_kbuf (replicate sz 0))) s = Done () (stir s (set_wkbuf (replicate sz 0) v))) by done.
  rewrite (kbind_run _ _ _ _ _ Hk1).
  destruct (read_at_spec none_such (w_now v) (mkIo (w_mem v) m g (w_user v) (replicate sz 0)) 0) as (io & Hr & Hkb & _).
  - by apply fresh_io_ok.
  - done.
  - lia.
  - done.
  - cbn [io_kbuf io_meta io_mem]. rewrite length_replicate. unfold sz. rewrite Z2Nat.id by lia.
    replace (Z.max 0 (Z.min (data_len m) (data_len m - 0))) with (data_len m) by lia. by rewrite Z.add_0_l.
  - cbn [io_kbuf io_meta] in Hr, Hkb. rewrite length_replicate in Hr, Hkb. assert (Hszz : Z.of_nat sz = data_len m) by (unfold sz; lia). rewrite Hszz in Hr, Hkb.
    replace (Z.max 0 (Z.min (data_len m) (data_len m - 0))) with (data_len m) in Hr, Hkb by lia.
    rewrite fresh_file_bytes in Hkb by done. rewrite drop_ge, app_nil_r in Hkb by (rewrite length_replicate; unfold sz; lia).
    set (v' := mkVol (io_mem io) (ff_fat (io_dev io)) (w_dirs v) (<[k := (io_dev io, io_meta io)]> (w_files v)) (w_next v) (w_now v) (io_user io) (io_kbuf io)).
    assert (Hrd : on_world (inode_read k RKernel 0) (stir s (set_wkbuf (replicate sz 0) v)) = Done (data_len m) (stir s v')).
    { unfold on_world, on_vfs, on_fs. cbn [y_vfs stir set_vfs v_fs set_fs inode_read VolumeWorld]. unfold on_file. cbn [w_files set_wkbuf].
      rewrite Hf. cbn [w_mem w_fat w_now w_user w_kbuf set_wkbuf]. fold g. by rewrite Hr. }
    rewrite (kbind_run _ _ _ _ _ Hrd). eexists. unfold mbind, kst_bind, kget, mret, kst_ret. f_equal.
    cbn [y_vfs stir set_vfs v_fs set_fs get_kbuf VolumeWorld w_kbuf v']. rewrite Hkb. unfold sz. apply take_ge. rewrite length_take. lia.
Qed.

(** C12: a path leads to the bytes on the disk. The directories of the path are in
    the dentry cache; the last one is a directory of the volume whose clusters
    hold the entries of some files, laid out as the format prescribes, and the
    name is not in the cache. Then [find_file] finds the first file of that name
    on the disk, makes a new entry for it, and [read_file] of that entry, through
    the page cache, gives the bytes of its cluster chain up to its size, and
    nothing else. *)
Theorem file_from_disk now (s : Sys) names nm d n dd files rest e cs :
  let v := v_fs (y_vfs s) in
  (∀ x, x ∈ names ++ [nm] → good_name x) → follow (y_vfs s) (root_dir (y_vfs s)) names = Some d →
  dirs (y_vfs s) !! d = Some n → d_children n !! nm = None → w_dirs v !! (d_inode n : Z) = Some dd →
  ff_ok (mkFatFile (d_clusters dd) (w_fat v) None) → (∀ x, x ∈ files → name_ok x.1 ∧ std_entry_ok x.2) →
  ff_content (mkFatFile (d_clusters dd) (w_fat v) None) = concat ((λ x, concat (raw_file x.1 x.2)) <$> files) ++ 0 :: rest →
  first_named files nm = Some e → is_dir e = false →
  cluster_chain (w_fat v) (first_cluster_id e) = Ok (Some cs) → ff_ok (mkFatFile cs (w_fat v) None) →
  let bytes := ff_content (mkFatFile cs (w_fat v) None) in
  0 ≤ file_size e ≤ Z.of_nat (length bytes) → file_size e ≤ 2 ^ 32 →
  mem_inv (w_mem v) → (span 0 (file_size e) ≤ FrameAllocator.free_count (w_mem v))%nat →
  ∃ s1 s2, find_file now (SLASH :: joined (names ++ [nm])) s = Done (DBytes (next_id (y_vfs s))) s1 ∧
    read_file (next_id (y_vfs s)) s1 = Done (take (Z.to_nat (file_size e)) bytes) s2.
Proof.
  intros v Hgood Hfol Hd Hnc Hdd Hok Hfiles Hc Hfn Hdir Hch Hokf bytes Hsz Hmax Hmem Hsp.
  destruct (resolve_run now s names nm d AT_FDCWD Hgood Hfol) as (s1 & Hr & Hs1).
  pose proof (same_sys_stir s s1 Hs1) as Es1. destruct Hs1 as [(Hdirs & _ & _ & _ & Hnext & Ht) _].
  set (f1 := touch now (d_inode n) (v_fs (y_vfs s1))).
  assert (Hcalm : calm v f1) by (eapply calm_trans; [by apply touches_calm|apply set_dir_meta_calm]).
  destruct Hcalm as (Hm1 & Hf1 & Hw1 & Hn1 & Ht1 & Hcl1).
  pose proof (Hcl1 (d_inode n)) as Hcl. rewrite Hdd in Hcl. apply fmap_Some in Hcl as (dd1 & Hdd1 & Hcl).
  destruct (vol_lookup_run f1 (d_inode n) dd1 files rest nm e cs) as (f2 & m & Hl & Hfile & Hlen & Hmode & Hpg & Hm2 & Hf2 & _);
    [done|by rewrite <- Hcl, Hf1|done|by rewrite <- Hcl, Hf1|done|done|by rewrite Hf1|by rewrite Hf1|by rewrite Hf1|].
  destruct (lookup_new_file now (y_vfs s1) d n nm (w_next f1) f2) as (v2 & Hv2 & Hb & Hvf);
    [by rewrite Hdirs|by eapply good_last|done|exact Hl|].
  rewrite Hnext in Hv2, Hb. exists (set_vfs v2 s1).
  destruct (read_file_run (set_vfs v2 s1) (next_id (y_vfs s)) _ (w_next f1) (mkFatFile cs (w_fat f1) None) m Hb eq_refl) as (s2 & Hrd);
    cbn [y_vfs set_vfs]; rewrite ?Hvf; cbn [clusters ff_create_time]; rewrite ?Hf2, ?Hf1, ?Hm2, ?Hm1, ?Hlen;
    [by rewrite Hfile, Hf1|done|done|done|done|done|lia|done|].
  exists s2. split.
  - unfold Machine.find_file. rewrite (kbind_run _ _ _ _ _ Hr). unfold find_last, lookup_last. cbn [p2i_dir last_component].
    rewrite (kbind_run _ _ _ _ _ (on_vfs_run _ _ _ _ Hv2)). done.
  - rewrite Hrd. cbn [y_vfs set_vfs]. rewrite Hvf, Hf2, Hf1, Hlen. done.
Qed.
End volume.


(** ** Example: one file on a volume of two clusters *)
Module DiskDemo.
#[local] Instance disk_utf16 : EcoStr := ascii_utf16.
#[local] Instance disk_dates : Chrono := {|
  NaiveDate := (); NaiveTime := (); from_ymd_opt _ _ _ := None; date_default := ();
  from_hms_milli_opt _ _ _ _ := None; time_default := (); timestamp _ _ := TimeSpec_default;
|}.
(** The directory is cluster 2, the file cluster 3. *)
Definition disk_fat : FileAllocTable :=
  mkFat 100 8 2 (mkAllocMeta 0 3) [0x0ffffff8; 0x0fffffff; 0x0fffffff; 0x0fffffff].
#[local, program] Instance disk_device : BlockDevice :=
  {| read_block i := if i =? 100 then take 512 (dir_bytes ++ replicate 512 0)
                     else if i =? 108 then [104; 101; 108; 108; 111] ++ replicate 507 255 else replicate 512 0 |}.
Next Obligation. intros i. simpl. destruct (i =? 100); [reflexivity|]. by destruct (i =? 108). Qed.
Definition any_cstr (_ : Z) : kst Flat.t str := mret [].
#[local] Existing Instance Flat.FlatMemory.
#[local] Instance disk_dirs : DirBackend := VolumeDirs (U:=Flat.t).
#[local] Instance disk_world : World := VolumeWorld any_cstr.

Definition disk : Volume := mkVol init_mem disk_fat {[0 := mkFatDir [2] (Meta.new 0 Dir) None]} ∅ 1 TimeSpec_default (Flat.mk 0 []) [].
Definition disk_sys : Sys := mkSys (root_vfs (DB:=disk_dirs) 0 disk [118; 102; 97; 116]) (mkTable ∅ (mkRLimit 128 128)) 0 ∅ ∅ 0.

Lemma one_cluster_ok c : 2 ≤ c < 4 → ff_ok (mkFatFile [c] disk_fat None).
Proof. intros Hc. constructor; simpl; [lia|lia| |lia]. intros x Hx. apply list_elem_of_singleton in Hx as ->. lia. Qed.
Lemma demo_files_ok x : x ∈ demo_files → name_ok x.1 ∧ std_entry_ok x.2.
Proof.
  assert (std_entry_ok demo_std) by (by repeat constructor).
  assert (∀ n, forallb (λ u, (0 <? u) && (u <? 65536)) n = true → (length n ≤ 255)%nat → name_ok n) as Hn.
  { intros n Hb Hl. constructor; [exact Hl|]. intros u Hu. apply list_elem_of_In in Hu.
    pose proof (proj1 (forallb_forall _ _) Hb u Hu) as H1. simpl in H1. apply andb_true_iff in H1. lia. }
  intros Hf. unfold demo_files in Hf. rewrite !elem_of_cons in Hf.
  destruct Hf as [->|[->|Hf%elem_of_nil]]; [| |done]; (split; [|done]); apply Hn; first [reflexivity|simpl; lia].
Qed.

(** ["/hello-world.txt"] holds ["hello"]. *)
Lemma file_from_disk_witness :
  ∃ s1 s2, find_file TimeSpec_default (SLASH :: demo_long) disk_sys = Done (DBytes 1) s1 ∧
    read_file 1 s1 = Done [104; 101; 108; 108; 111] s2.
Proof.
  destruct (first_named demo_files demo_long) as [e|] eqn:He; [|by vm_compute in He].
  assert (He' := He). vm_compute in He'. injection He' as He'.
  assert (is_dir e = false ∧ first_cluster_id e = 3 ∧ file_size e = 5) as (Hd & Hf & Hz) by (by subst e).
  clear He'.
  pose proof (file_from_disk any_cstr TimeSpec_default disk_sys [] demo_long 0
    (mkDir None [SLASH] ∅ (0 : @DI disk_dirs)) (mkFatDir [2] (Meta.new 0 Dir) None) demo_files (replicate 3967 0) e [3]) as H.
  cbv zeta in H. rewrite Hz, Hf in H.
  change (w_fat (v_fs (y_vfs disk_sys))) with disk_fat in H. change (w_mem (v_fs (y_vfs disk_sys))) with init_mem in H.
  cbn [d_clusters] in H.
  destruct H as (s1 & s2 & H1 & H2).
  - intros x ->%list_elem_of_singleton. split; [done|]. split; [|reflexivity].
    apply (bool_decide_unpack _). reflexivity.
  - reflexivity.
  - reflexivity.
  - reflexivity.
  - reflexivity.
  - apply one_cluster_ok. lia.
  - exact demo_files_ok.
  - vm_compute. reflexivity.
  - exact He.
  - exact Hd.
  - reflexivity.
  - apply one_cluster_ok. lia.
  - rewrite length_content. simpl. lia.
  - lia.
  - exact init_mem_inv.
  - etrans; [|exact Inode.init_mem_free]. by vm_compute; lia.
  - exists s1, s2. split; [exact H1|].
    assert (take (Z.to_nat 5) (ff_content (mkFatFile [3] disk_fat None)) = [104; 101; 108; 108; 111]) as <- by (vm_compute; reflexivity).
    exact H2.
Defined.
End DiskDemo.
