(* ===== verification/FatVfsDemo.v ===== *)
(** * Creation and renames on a FAT32 volume

    The theorems on paths applied to a volume on which two directories were made
    and a file of the disk was looked up; and what becomes of a rename when the
    cache asks the disk again. *)
From S2P Require Import Prelude BTree Address Defines Kst FrameAllocator UserCheck UserAccess FdTable Inode Fat DirEntry FatFile FatDir Vfs VfsSpec SysFs SysFsSpec SysFsPaths SysFsDemo Machine FatVfs.

Module FatPaths.
#[local] Existing Instances DiskDemo.disk_utf16 DiskDemo.disk_dates DiskDemo.disk_device Flat.FlatMemory.
(** Clusters 2 and 3 are in use, three are free. *)
Definition vol_fat : FileAllocTable :=
  mkFat 100 8 5 (mkAllocMeta 3 4) [0x0ffffff8; 0x0fffffff; 0x0fffffff; 0x0fffffff; 0; 0; 0].
(** User memory: ["/hello-world.txt"] at 4096, ["/a/c"] at 4120, ["/a"] at 4128,
    ["/a/b/c"] at 4136. *)
Definition vol_user : Flat.t :=
  Flat.mk 4096 ((SLASH :: demo_long) ++ replicate 8 0 ++ [47; 97; 47; 99; 0; 0; 0; 0] ++ [47; 97; 0; 0; 0; 0; 0; 0] ++
    [47; 97; 47; 98; 47; 99; 0; 0]).
#[local] Instance vol_dirs : DirBackend := VolumeDirs (U:=Flat.t).
#[local] Instance vol_world : World := VolumeWorld Ram.cstr.
#[local] Instance vol_laws : WorldLaws := VolumeLaws Ram.cstr.
Definition t0 : TimeSpec := mkTimeSpec 7 0.
Definition str_a : str := [97].
Definition str_b : str := [98].
Definition str_c : str := [99].
Definition vol : Volume :=
  mkVol init_mem vol_fat {[0 := mkFatDir [2] (Meta.new 0 Dir) None]} ∅ 1 TimeSpec_default vol_user [].
(** [mkdir("/a")], [mkdir("/a/b")], and a lookup of ["/hello-world.txt"] *)
Definition vol_root : Vfs := root_vfs (DB:=vol_dirs) 0 vol [118; 102; 97; 116].
Definition prepare : kst Vfs (option DEntry) :=
  c ← mkdir (DB:=vol_dirs) 0 str_a; _ ← mkdir (DB:=vol_dirs) c str_b; Vfs.lookup (DB:=vol_dirs) t0 0 demo_long.
Definition vol_vfs : Vfs := default vol_root (kstate (prepare vol_root)).
Definition vol_sys : Sys := mkSys vol_vfs (mkTable ∅ (mkRLimit 128 128)) 0 ∅ ∅ 0.

Lemma vol_vfs_ok : vfs_ok vol_vfs.
Proof.
  destruct (root_vfs_ok (DB:=vol_dirs) 0 vol [118; 102; 97; 116]) as [Hok _].
  assert (gspec (¬ backend_total) vol_root prepare (λ _ _, True)) as H.
  { eapply spec_bind; [apply mkdir_spec; [done|by eexists]|]. intros c s Hok1 He1 Hl. cbn beta in Hl.
    eapply spec_bind; [apply mkdir_spec; [done|by apply (linked_valid _ _ _ _ Hl)]|]. intros c' s2 Hok2 He2 _.
    eapply spec_mono; [apply lookup_spec; [done|]|done]. apply (ext_dir _ _ _ He2), (ext_dir _ _ _ He1). by eexists. }
  unfold vol_vfs, gspec in *. destruct (prepare vol_root); simpl; [by apply H..|done].
Qed.

Definition dentry (d : Z) : DEntryDir := default (mkDir (DB:=vol_dirs) None [] ∅ 0) (dirs vol_vfs !! d).
Lemma vol_mounted : mount_root vol_vfs 0.
Proof. eexists. vm_compute. reflexivity. Qed.
Lemma vol_unmounted d : bool_decide (mount_root vol_vfs d) = false → ¬ mount_root vol_vfs d.
Proof. apply bool_decide_eq_false. Qed.
Lemma vol_dir d : bool_decide (is_Some (dirs vol_vfs !! d)) = true → dirs vol_vfs !! d = Some (dentry d).
Proof. rewrite bool_decide_eq_true. intros [n Hn]. unfold dentry. by rewrite Hn. Qed.
(** [/], [/a] and [/a/b] are of the one mount. *)
Lemma vol_nearest : nearest vol_vfs 0 0 ∧ nearest vol_vfs 1 0 ∧ nearest vol_vfs 2 0.
Proof.
  assert (nearest vol_vfs 0 0) as H0 by apply nearest_here, vol_mounted.
  assert (nearest vol_vfs 1 0) as H1.
  { apply (nearest_up _ 1 (dentry 1) 0); [by apply vol_unmounted|by apply vol_dir|vm_compute; reflexivity|done]. }
  split_and!; [done|done|].
  apply (nearest_up _ 2 (dentry 2) 1); [by apply vol_unmounted|by apply vol_dir|vm_compute; reflexivity|done].
Qed.
(** Two of the free clusters, 4 and 5, hold [/a] and [/a/b], which are empty. *)
Definition fat_now : FileAllocTable :=
  mkFat 100 8 5 (mkAllocMeta 1 6) [0x0ffffff8; 0x0fffffff; 0x0fffffff; 0x0fffffff; END_OF_CHAIN; END_OF_CHAIN; 0].
Lemma vol_fat_now : w_fat (v_fs vol_vfs) = fat_now.
Proof. vm_compute. reflexivity. Qed.
Lemma empty_dir_ok c : 4 ≤ c ≤ 5 → ff_ok (mkFatFile [c] fat_now None).
Proof. intros Hc. constructor; simpl; [lia|lia| |lia]. intros x Hx. apply list_elem_of_singleton in Hx as ->. lia. Qed.
Lemma empty_dir_content c : 4 ≤ c ≤ 5 → ff_content (mkFatFile [c] fat_now None) = 0 :: replicate 4095 0.
Proof. intros Hc. assert (c = 4 ∨ c = 5) as [-> | ->] by lia; vm_compute; reflexivity. Qed.
Lemma vol_absent (v : Volume) (d c : Z) nm :
  w_fat v = fat_now → d_clusters <$> w_dirs v !! d = Some [c] → 4 ≤ c ≤ 5 → absent (d : @DI vol_dirs) nm (v : @FS vol_dirs).
Proof.
  intros Hf (dd & Hd & Hcl)%fmap_Some Hc.
  apply (fat_absent Ram.cstr v d dd [] (replicate 4095 0) nm); [done| | | |done].
  - rewrite Hf, <- Hcl. by apply empty_dir_ok.
  - by intros x ?%elem_of_nil.
  - rewrite Hf, <- Hcl. by apply empty_dir_content.
Qed.
Lemma vol_file : at_path vol_sys [] demo_long 0 (DBytes 3).
Proof. split_and!; [by apply Ram.good_names|done|vm_compute; reflexivity]. Qed.



(** [open("/a/c", O_CREAT | O_RDWR)]: the last free cluster is the file's. *)
Definition create_rw : Z := Z.lor OpenFlags.CREATE OpenFlags.RDWR.
Lemma openat_create_witness :
  ∃ b file s', sys_openat t0 AT_FDCWD 4120 create_rw vol_sys = Done 0 s' ∧
    fd_get (fd_table s') 0 = Some (mkFd (FSeekable file) create_rw) ∧ at_path s' [str_a] str_c 1 (DBytes b).
Proof.
  assert (kvalue (sys_openat t0 AT_FDCWD 4120 create_rw vol_sys) = Some 0) as Hv by (vm_compute; reflexivity).
  destruct (openat_create t0 vol_sys [str_a] str_c 1 (dentry 1) AT_FDCWD 4120 create_rw vol_user) as (f & _ & H);
    [exact vol_vfs_ok|by apply Ram.good_names|vm_compute; reflexivity|by apply vol_dir|vm_compute; reflexivity|
     apply (vol_absent _ _ 4 _ vol_fat_now); [vm_compute; reflexivity|lia]|
     vm_compute; reflexivity|vm_compute; split; reflexivity|vm_compute; reflexivity|vm_compute; reflexivity|].
  destruct (dir_mknod _ _ _ f); [|rewrite H in Hv; discriminate Hv..].
  destruct H as (b & file & s' & H4 & _ & _ & _ & _ & _ & H).
  destruct (decide _) as [Hd|_]; [vm_compute in Hd; destruct Hd; reflexivity|].
  destruct H as (fd & H1 & _ & H3). rewrite H1 in Hv. injection Hv as ->.
  exists b, file, s'. split; [exact H1|]. split; [|exact H4].
  rewrite H3. exact (lookup_insert_eq (FdTable.files (fd_table vol_sys)) 0 _).
Defined.
(** With no descriptor left it is [EMFILE], and the file has been made. *)
Lemma openat_create_emfile :
  match sys_openat t0 AT_FDCWD 4120 create_rw (set_table (mkTable ∅ (mkRLimit 0 128)) vol_sys) with
  | Fail e s' => e = EMFILE ∧ child_at (y_vfs s') 1 str_c = Some (DBytes 4)
  | _ => False
  end.
Proof. vm_compute. split; reflexivity. Qed.
(** On a full volume the same call is [ENOSPC]. *)
Definition full_sys : Sys :=
  stir vol_sys (set_wfat (with_meta (with_entries fat_now (replicate 7 END_OF_CHAIN)) (mkAllocMeta 0 6)) (v_fs vol_vfs) : @FS vol_dirs).
Lemma openat_create_full :
  match sys_openat t0 AT_FDCWD 4120 create_rw full_sys with Fail e _ => e = ENOSPC | _ => False end.
Proof. vm_compute. reflexivity. Qed.

(** The rename of [rename_moves_witness] takes the old name out of the cache only:
    the next lookup of it finds the entry on the disk again, and makes a second
    cached file of the same clusters. *)
Definition renamed_sys : Sys := default vol_sys (kstate (sys_renameat2 t0 AT_FDCWD 4096 AT_FDCWD 4120 0 vol_sys)).
Definition found_sys : Sys := default renamed_sys (kstate (find_file t0 (SLASH :: demo_long) renamed_sys)).
Definition file_clusters (s : Sys) (b : Z) : option (list Z) :=
  n ← Vfs.files (y_vfs s) !! b; x ← w_files (v_fs (y_vfs s)) !! (b_inode n : Z); Some (clusters x.1).
Lemma rename_not_on_disk :
  child_at (y_vfs renamed_sys) 0 demo_long = None ∧ child_at (y_vfs renamed_sys) 1 str_c = Some (DBytes 4) ∧
  kvalue (find_file t0 (SLASH :: demo_long) renamed_sys) = Some (DBytes 5) ∧
  file_clusters found_sys 4 = Some [3] ∧ file_clusters found_sys 5 = Some [3].
Proof. split_and!; vm_compute; reflexivity. Qed.
End FatPaths.
