(* ===== verification/MachineSpec.v ===== *)
(** * What the machine does at a trap

    System calls from the [ecall] to the registers, page faults, the switch of the
    floating-point unit. *)
From S2P Require Import Prelude BTree Address Defines Kst IdAllocator FrameAllocator PageTable VmArea MemorySpace SpaceOps InitStack UserCheck UserAccess Trap Signal FdTable Process ProcessTree ProcessSteps ProcessSpec Inode MemSyscalls Vfs VfsSpec SysFs Executor Tty Machine.

Section spec.
Context `{Buddy, KernelImage, ProcessEnv} {DB : DirBackend} {WD : World} {UW : UserWorld}.
Implicit Types (s : Machine) (c : TrapContext).

(** ** The current thread *)
Record at_thread s (pid tid : Z) (p : Process File) (t : Thread) : Prop := {
  th_curr : m_curr s = Some (pid, tid);
  th_proc : k_procs (m_kernel s) !! pid = Some p;
  th_thread : p_threads p !! tid = Some t;
}.
Definition put_process (pid : Z) (p : Process File) s : Machine :=
  set_kernel (set_procs (<[pid := p]> (k_procs (m_kernel s))) (m_kernel s)) s.
Definition put_thread (pid tid : Z) (p : Process File) (t : Thread) s : Machine :=
  put_process pid (P.with_threads p (<[tid := t]> (p_threads p))) s.

Lemma curr_run s pid tid p t : at_thread s pid tid p t → curr s = Done (pid, tid) s.
Proof. intros [Hc _ _]. unfold curr, mbind, kst_bind, kget. by rewrite Hc. Qed.
Lemma get_thread_ok s pid tid p t :
  k_procs (m_kernel s) !! pid = Some p → p_threads p !! tid = Some t → get_thread pid tid s = Done t s.
Proof.
  intros Hp Ht. unfold get_thread, on_kernel, proc, mbind, kst_bind, kget, kunwrap. rewrite Hp.
  unfold mret, kst_ret. rewrite Ht. by destruct s as [[]].
Qed.
Lemma update_thread_ok s pid tid p t f :
  k_procs (m_kernel s) !! pid = Some p → p_threads p !! tid = Some t →
  on_kernel (update_thread pid tid f) s = Done () (put_thread pid tid p (f t) s).
Proof.
  intros Hp Ht. unfold on_kernel, update_thread, proc, mbind, kst_bind, kget, kunwrap. rewrite Hp.
  unfold mret, kst_ret. by rewrite Ht.
Qed.
Lemma get_thread_run s pid tid p t : at_thread s pid tid p t → get_thread pid tid s = Done t s.
Proof. intros [_ Hp Ht]. by eapply get_thread_ok. Qed.
Lemma update_thread_run s pid tid p t f :
  at_thread s pid tid p t → on_kernel (update_thread pid tid f) s = Done () (put_thread pid tid p (f t) s).
Proof. intros [_ Hp Ht]. by apply update_thread_ok. Qed.
Lemma put_thread_at s pid tid p t t' :
  at_thread s pid tid p t →
  at_thread (put_thread pid tid p t' s) pid tid (P.with_threads p (<[tid := t']> (p_threads p))) t'.
Proof. intros [Hc Hp Ht]. split; [done|apply lookup_insert_eq|apply lookup_insert_eq]. Qed.
Lemma put_thread_twice s pid tid p t1 t2 :
  put_thread pid tid (P.with_threads p (<[tid := t1]> (p_threads p))) t2 (put_thread pid tid p t1 s) =
  put_thread pid tid p t2 s.
Proof.
  unfold put_thread, put_process, set_kernel, set_procs. simpl. by rewrite !insert_insert_eq.
Qed.

Lemma put_same_thread s pid tid p t :
  k_procs (m_kernel s) !! pid = Some p → p_threads p !! tid = Some t → put_thread pid tid p t s = s.
Proof.
  intros Hp Ht. unfold put_thread, put_process, set_kernel, set_procs. rewrite (insert_id (p_threads p)) by done.
  rewrite insert_id; [by destruct s as [[]]|]. rewrite Hp. by destruct p.
Qed.

(** ** The [ecall] path *)
Definition call_id (t : Thread) : Z := Ctx.reg (trap_context t) 16.
Definition call_args (t : Thread) : list Z := (λ n, Ctx.reg (trap_context t) n) <$> [9; 10; 11; 12; 13; 14]%nat.
Definition past_ecall (t : Thread) : Thread :=
  Th.with_ctx t (Ctx.with_sepc (trap_context t) (sepc (trap_context t) + 4)).
Definition sepc_ok (t : Thread) : Prop := 0 ≤ sepc (trap_context t) < 2 ^ 64 - 4.

(** The handler moves past the instruction, names the call, runs it and stores the
    result. *)
Lemma ecall_enter slog i ch stval s pid tid p t :
  at_thread s pid tid p t → sepc_ok t →
  user_trap_handler slog i ch (Exception UserEnvCall) stval s =
    (_ ← kassert (negb slog || bool_decide (call_id t ∈ syscall_ids));
     result ← syscall (call_id t) (call_args t);
     match result with inl r => finish_syscall pid tid r | inr w => mret (FSyscall w) end)
    (put_thread pid tid p (past_ecall t) s).
Proof.
  intros Hat Hse. unfold user_trap_handler. rewrite (kbind_run _ _ _ _ _ (curr_run _ _ _ _ _ Hat)). cbv beta iota.
  change (UserEnvCall =? UserEnvCall) with true. cbv iota.
  rewrite (kbind_run _ _ _ _ _ (get_thread_run _ _ _ _ _ Hat)). cbv beta.
  unfold uadd. rewrite checked_fits by (unfold sepc_ok in Hse; lia). unfold mbind at 1, kst_bind at 1. cbn [klift].
  unfold set_ctx. by rewrite (kbind_run _ _ _ _ _ (update_thread_run _ _ _ _ _ _ Hat)).
Qed.
Lemma ecall_run slog i ch stval s pid tid p t :
  at_thread s pid tid p t → sepc_ok t → (slog = true → call_id t ∈ syscall_ids) →
  user_trap_handler slog i ch (Exception UserEnvCall) stval s =
    match syscall (call_id t) (call_args t) (put_thread pid tid p (past_ecall t) s) with
    | Done (inl r) s' => finish_syscall pid tid r s'
    | Done (inr w) s' => Done (FSyscall w) s'
    | Fail e s' => Fail e s'
    | Crash => Crash
    end.
Proof.
  intros Hat Hse Hid. rewrite (ecall_enter slog i ch stval s pid tid p t) by done.
  assert (negb slog || bool_decide (call_id t ∈ syscall_ids) = true) as ->.
  { destruct slog; [|done]. simpl. by apply bool_decide_eq_true_2, Hid. }
  unfold kassert, mbind, kst_bind. by destruct (syscall _ _ _) as [[r|w] s'|e s'|].
Qed.

Lemma finish_run s pid tid p t r :
  at_thread s pid tid p t → r ≠ as_isize BREAK →
  finish_syscall pid tid r s =
    Done FContinue (put_thread pid tid p (Th.with_ctx t (Ctx.set_a0 (trap_context t) (wrap 64 r))) s).
Proof.
  intros Hat Hr. unfold finish_syscall. rewrite (proj2 (Z.eqb_neq r _) Hr). unfold set_ctx.
  by rewrite (kbind_run _ _ _ _ _ (update_thread_run _ _ _ _ _ _ Hat)).
Qed.

(** A call that leaves the machine as it is and gives an error. *)
Lemma ecall_error slog i ch stval s pid tid p t e :
  at_thread s pid tid p t → sepc_ok t → (slog = true → call_id t ∈ syscall_ids) → e ≠ BREAK →
  (let s1 := put_thread pid tid p (past_ecall t) s in
   syscall_impl (call_id t) (call_args t) s1 = Fail e s1) →
  user_trap_handler slog i ch (Exception UserEnvCall) stval s =
    Done FContinue (put_thread pid tid p
      (Th.with_ctx t (Ctx.set_a0 (trap_context (past_ecall t)) (wrap 64 (as_isize e)))) s).
Proof.
  intros Hat Hse Hid He Hs. rewrite (ecall_run slog i ch stval s pid tid p t) by done.
  unfold syscall. cbv zeta in Hs. rewrite Hs.
  rewrite (finish_run _ pid tid _ _ _ (put_thread_at _ _ _ _ _ _ Hat)) by (destruct e; done).
  by rewrite put_thread_twice.
Qed.

(** The pointer arguments that are not [Option]s, by call and position. *)
Definition pointer_args : list (Z * nat) :=
  [(17, 0%nat); (34, 1%nat); (35, 1%nat); (39, 0%nat); (40, 0%nat); (40, 1%nat); (40, 2%nat); (43, 0%nat); (43, 1%nat); (48, 1%nat); (49, 0%nat); (56, 1%nat);
   (59, 0%nat); (61, 1%nat); (63, 1%nat); (64, 1%nat); (65, 1%nat); (66, 1%nat); (73, 0%nat); (79, 1%nat); (79, 2%nat); (80, 1%nat); (88, 1%nat); (101, 0%nat);
   (113, 1%nat); (116, 1%nat); (153, 0%nat); (160, 0%nat); (169, 0%nat); (179, 0%nat); (221, 0%nat); (221, 1%nat); (276, 1%nat); (276, 3%nat)].

Lemma non_null_bind {B} (k : Z → kst Machine B) a s :
  (a = 0 → (x ← non_null a; k x) s = Fail EINVAL s) ∧ (a ≠ 0 → (x ← non_null a; k x) s = k a s).
Proof.
  unfold non_null, UserCheck_new, mbind, kst_bind. split; intros Ha.
  - by rewrite Ha.
  - by rewrite (proj2 (Z.eqb_neq a 0) Ha).
Qed.
Lemma non_null_fail {B} (k : Z → kst Machine B) a s :
  (a ≠ 0 → k a s = Fail EINVAL s) → (x ← non_null a; k x) s = Fail EINVAL s.
Proof.
  intros Hk. destruct (decide (a = 0)) as [Ha|Ha]; [by apply non_null_bind|].
  rewrite (proj2 (non_null_bind k a s) Ha). by apply Hk.
Qed.

Lemma syscall_impl_at id args s pid tid :
  m_curr s = Some (pid, tid) → syscall_impl id args s = syscall_at (m_ticks s) pid tid id args s.
Proof. intros Hc. unfold syscall_impl, curr, mbind, kst_bind, kget. by rewrite Hc. Qed.

Lemma pointer_args_checked (id : Z) (n : nat) (args : list Z) s pt :
  (id, n) ∈ pointer_args → args !! n = Some 0 → m_curr s = Some pt → syscall_impl id args s = Fail EINVAL s.
Proof.
  intros Hin Hn Hc. destruct pt as [pid tid]. rewrite (syscall_impl_at id args s pid tid Hc).
  unfold syscall_at.
  assert (Hz : default 0 (args !! n) = 0) by (by rewrite Hn).
  unfold pointer_args in Hin. repeat (apply elem_of_cons in Hin as [Hin|Hin]); [..|by apply not_elem_of_nil in Hin];
    injection Hin as -> ->; cbv iota; repeat first [by apply non_null_bind | apply non_null_fail; intros _].
Qed.

(** A null pointer never reaches a handler. Every system call that takes a
    pointer it needs, entered with that argument zero, returns [EINVAL] in [a0] and
    resumes after the [ecall]; nothing else in the machine changes. *)
Lemma null_pointer_einval slog i ch stval s pid tid p t n :
  at_thread s pid tid p t → sepc_ok t → (call_id t, n) ∈ pointer_args → call_args t !! n = Some 0 →
  user_trap_handler slog i ch (Exception UserEnvCall) stval s =
    Done FContinue (put_thread pid tid p
      (Th.with_ctx t (Ctx.set_a0 (Ctx.with_sepc (trap_context t) (sepc (trap_context t) + 4)) (2 ^ 64 - 22))) s).
Proof.
  intros Hat Hse Hin Hn. apply (ecall_error slog i ch stval s pid tid p t EINVAL); try done.
  - intros _. unfold pointer_args in Hin. repeat (apply elem_of_cons in Hin as [Hin|Hin]);
      [..|by apply not_elem_of_nil in Hin]; injection Hin as -> _; apply (bool_decide_eq_true_1 _); reflexivity.
  - apply (pointer_args_checked (call_id t) n _ _ (pid, tid)); [done..|]. apply (th_curr _ _ _ _ _ Hat).
Qed.

(** Every other number takes the last branch of the table. *)
Lemma syscall_default ticks pid tid id args :
  id ∉ syscall_ids →
  syscall_at ticks pid tid id args = (_ ← on_kernel (k_exit_process pid (-10)); mret (Ret 0)).
Proof.
  intros Hid. unfold syscall_at.
  let rec walk q :=
    first [reflexivity
          |destruct q as [q|q|];
           [walk q|walk q|first [reflexivity|exfalso; apply Hid; apply (bool_decide_eq_true_1 _); reflexivity]]] in
  destruct id as [|q|q]; [reflexivity|walk q|reflexivity].
Qed.
Lemma k_exit_run pid code s p :
  k_procs (m_kernel s) !! pid = Some p → p_status p = ProcessStatus.normal →
  on_kernel (k_exit_process pid code) s = Done () (put_process pid (P.with_status p (ProcessStatus.exited code)) s).
Proof.
  intros Hp Hst. unfold on_kernel, k_exit_process, proc, mbind, kst_bind, kget, kunwrap. rewrite Hp.
  unfold mret, kst_ret. rewrite Hst. done.
Qed.

(** A number that is no system call. When spans are logged the kernel panics
    on the name of the call. Otherwise the process is marked as exited with code
    -10, the call returns zero, and the thread's loop ends. *)
Theorem unknown_syscall slog i ch stval s pid tid p t :
  at_thread s pid tid p t → sepc_ok t → call_id t ∉ syscall_ids → p_status p = ProcessStatus.normal →
  let p' := P.with_status p (ProcessStatus.exited (-10)) in
  let t' := Th.with_ctx t (Ctx.set_a0 (Ctx.with_sepc (trap_context t) (sepc (trap_context t) + 4)) 0) in
  let s' := put_thread pid tid p' t' s in
  user_trap_handler slog i ch (Exception UserEnvCall) stval s = (if slog then Crash else Done FContinue s') ∧
  loop_ends FContinue s' = Done true s'.
Proof.
  intros Hat Hse Hid Hst p' t' s'. split.
  - destruct slog.
    { rewrite (ecall_enter true i ch stval s pid tid p t) by done. by rewrite bool_decide_eq_false_2. }
    rewrite (ecall_run false i ch stval s pid tid p t) by done.
    pose proof (put_thread_at _ _ _ _ _ (past_ecall t) Hat) as Hat1.
    unfold syscall. rewrite (syscall_impl_at _ _ _ pid tid (th_curr _ _ _ _ _ Hat1)), syscall_default by done.
    rewrite (kbind_run _ _ _ _ _ (k_exit_run pid (-10) _ _ (th_proc _ _ _ _ _ Hat1) Hst)).
    unfold mret, kst_ret. cbv beta iota. change (to_signed 64 0) with 0.
    set (s1 := put_process _ _ _).
    assert (Hat2 : at_thread s1 pid tid (P.with_status (P.with_threads p (<[tid := past_ecall t]> (p_threads p)))
      (ProcessStatus.exited (-10))) (past_ecall t)).
    { split; [apply Hat|apply lookup_insert_eq|apply lookup_insert_eq]. }
    rewrite (finish_run _ _ _ _ _ _ Hat2) by done. f_equal.
    unfold s', s1, put_thread, put_process, set_kernel, set_procs. simpl. by rewrite !insert_insert_eq.
  - unfold loop_ends. assert (Hat' : at_thread s' pid tid (P.with_threads p' (<[tid := t']> (p_threads p))) t').
    { split; [apply Hat|apply lookup_insert_eq|apply lookup_insert_eq]. }
    rewrite (kbind_run _ _ _ _ _ (curr_run _ _ _ _ _ Hat')). cbv beta iota.
    unfold on_kernel, proc, mbind, kst_bind, kget, kunwrap. rewrite (th_proc _ _ _ _ _ Hat').
    unfold mret, kst_ret. by destruct s as [[]].
Qed.

(** ** Page faults *)
Lemma fault_run slog i ch e stval s pid tid p t :
  at_thread s pid tid p t → is_page_fault e = true →
  user_trap_handler slog i ch (Exception e) stval s =
    match handle_memory_exception (k_mem (m_kernel s)) (p_space p) stval (e =? StoreFault) with
    | Ok (true, sp, m) => Done FContinue (set_kernel (put_space pid p sp m (m_kernel s)) s)
    | Ok (false, sp, m) =>
        (_ ← on_kernel (k_exit_process pid (-2)); mret FBreak) (set_kernel (put_space pid p sp m (m_kernel s)) s)
    | Err e => Fail e s
    | Panic => Crash
    end.
Proof.
  intros Hat He. unfold user_trap_handler. rewrite (kbind_run _ _ _ _ _ (curr_run _ _ _ _ _ Hat)). cbv beta iota.
  assert ((e =? UserEnvCall) = false) as ->.
  { destruct (Z.eqb_spec e UserEnvCall) as [->|]; [discriminate He|done]. }
  rewrite He. unfold page_fault. unfold mbind at 1, kst_bind at 1. unfold on_kernel at 1.
  rewrite (in_space_run _ _ _ p (th_proc _ _ _ _ _ Hat)). cbv beta.
  destruct (handle_memory_exception _ _ _ _) as [[[[] sp] m]|er|]; [done|done| |done].
  by destruct s as [[]].
Qed.
Lemma put_same_space pid (p : Process File) (k : Kernel File) : k_procs k !! pid = Some p → put_space pid p (p_space p) (k_mem k) k = k.
Proof.
  intros Hp. destruct k as [m ps mg pids sd]. unfold put_space, set_procs, set_mem. simpl in *. f_equal.
  apply insert_id. rewrite Hp. f_equal. by destruct p.
Qed.


(** ** Switching threads *)
Lemma proc_run s pid p : k_procs (m_kernel s) !! pid = Some p → on_kernel (proc pid) s = Done p s.
Proof.
  intros Hp. unfold on_kernel, proc, mbind, kst_bind, kget, kunwrap. rewrite Hp. by destruct s as [[]].
Qed.

(** What a poll starts with. *)
Lemma poll_enter_run s pid tid p t :
  k_procs (m_kernel s) !! pid = Some p → p_threads p !! tid = Some t → t_status t = Ready →
  let fl := user_float_ctx (trap_context t) in
  ∃ s', poll_enter pid tid s = Done () s' ∧ m_curr s' = Some (pid, tid) ∧
    m_satp s' = root_frame (page_table (p_space p)) ∧
    m_fpu s' = (if valid fl then float_restore fl else m_fpu s).
Proof.
  intros Hp Ht Hr fl. unfold poll_enter. rewrite (kbind_run _ _ _ _ _ (proc_run s pid p Hp)). cbv beta.
  unfold mbind at 1, kst_bind at 1. unfold kmodify at 1. set (s1 := set_hart _ _ s).
  rewrite (kbind_run _ _ _ _ _ (get_thread_ok s1 pid tid p t Hp Ht)). cbv beta zeta. fold fl.
  set (s2 := if valid fl then set_fpu (float_restore fl) s1 else s1).
  assert (Hif : (if valid fl then kmodify (set_fpu (float_restore fl)) else mret () : kst Machine ()) s1 = Done () s2)
    by (unfold s2; by destruct (valid fl)).
  rewrite (kbind_run _ _ _ _ _ Hif). cbv beta. unfold set_status_of.
  assert (Hk : m_kernel s2 = m_kernel s) by (unfold s2; by destruct (valid fl)).
  assert (Hp2 : k_procs (m_kernel s2) !! pid = Some p) by (by rewrite Hk).
  rewrite (kbind_run _ _ _ _ _ (update_thread_ok s2 pid tid p t (λ t, Th.with_status t Trap.Running) Hp2 Ht)). cbv beta.
  rewrite bool_decide_eq_true_2 by done. eexists. split; [reflexivity|].
  unfold s2. by destruct (valid fl).
Qed.

(** What a poll that returns pending leaves. *)
Definition suspended (t : Thread) (fpu : Fpu) : Thread :=
  let t := if bool_decide (t_status t = Ready) then t else Th.with_status t Blocking in
  match Ctx.fs (trap_context t) with
  | Trap.Dirty =>
      let c := trap_context t in
      Th.with_ctx t (Trap.set_fs (Ctx.with_float c (set_valid true (float_save (user_float_ctx c) fpu))) Trap.Clean)
  | _ => t
  end.
Lemma poll_leave_run s pid tid p t :
  k_procs (m_kernel s) !! pid = Some p → p_threads p !! tid = Some t →
  poll_leave pid tid false s = Done () (set_hart None kernel_root (put_thread pid tid p (suspended t (m_fpu s)) s)).
Proof.
  intros Hp Ht. unfold poll_leave. unfold mbind at 1, kst_bind at 1.
  rewrite (kbind_run _ _ _ _ _ (get_thread_ok s pid tid p t Hp Ht)). cbv beta.
  set (t1 := if bool_decide (t_status t = Ready) then t else Th.with_status t Blocking).
  assert (Hst : (if negb (bool_decide (t_status t = Ready)) then set_status_of pid tid Blocking else mret () : kst Machine ()) s =
                Done () (put_thread pid tid p t1 s)).
  { unfold t1. destruct (bool_decide (t_status t = Ready)); simpl.
    - unfold mret, kst_ret. by rewrite put_same_thread.
    - by apply (update_thread_ok s pid tid p t (λ t, Th.with_status t Blocking)). }
  rewrite (kbind_run _ _ _ _ _ Hst). unfold mbind at 1, kst_bind at 1. cbn [kget].
  assert (Hc : trap_context t1 = trap_context t) by (unfold t1; by destruct (bool_decide _)).
  unfold suspended. fold t1. rewrite Hc. change (m_fpu (put_thread pid tid p t1 s)) with (m_fpu s).
  destruct (Ctx.fs (trap_context t)) eqn:Hfs; try done. unfold set_ctx.
  rewrite (update_thread_ok (put_thread pid tid p t1 s) pid tid (P.with_threads p (<[tid := t1]> (p_threads p))) t1); [|apply lookup_insert_eq..].
  rewrite put_thread_twice, Hc. done.
Qed.

(** C29: a thread finds its floating-point registers again. When its poll returns
    pending, with the registers changed ([FS] is dirty) or as they were restored,
    the hart is left with the kernel's page table and no thread. Whatever runs
    meanwhile, when the thread, its context untouched and ready, is polled again
    the unit holds the registers it had, and the hart has the thread and the page
    table of its process. *)
Theorem float_switch s pid tid p t :
  k_procs (m_kernel s) !! pid = Some p → p_threads p !! tid = Some t → 0 ≤ fpu_fcsr (m_fpu s) < 2 ^ 32 →
  let c := trap_context t in
  (Ctx.fs c = Trap.Dirty ∨ valid (user_float_ctx c) = true ∧ m_fpu s = float_restore (user_float_ctx c)) →
  ∃ s1 t1, poll_leave pid tid false s = Done () s1 ∧ m_curr s1 = None ∧ m_satp s1 = kernel_root ∧
    p_threads <$> k_procs (m_kernel s1) !! pid = Some (<[tid := t1]> (p_threads p)) ∧
    ∀ s2 p2 t2, k_procs (m_kernel s2) !! pid = Some p2 → p_threads p2 !! tid = Some t2 →
      t_status t2 = Ready → trap_context t2 = trap_context t1 →
      ∃ s3, poll_enter pid tid s2 = Done () s3 ∧ m_fpu s3 = m_fpu s ∧ m_curr s3 = Some (pid, tid) ∧
            m_satp s3 = root_frame (page_table (p_space p2)).
Proof.
  intros Hp Ht Hf c Hc. exists (set_hart None kernel_root (put_thread pid tid p (suspended t (m_fpu s)) s)), (suspended t (m_fpu s)).
  split; [by apply poll_leave_run|]. split; [done|]. split; [done|].
  split; [simpl; by rewrite lookup_insert_eq|].
  intros s2 p2 t2 Hp2 Ht2 Hr2 Hc2. destruct (poll_enter_run s2 pid tid p2 t2 Hp2 Ht2 Hr2) as (s3 & He & Hcu & Hsa & Hfp).
  exists s3. split; [done|]. split; [|done]. rewrite Hfp, Hc2.
  assert (Hctx : trap_context (if bool_decide (t_status t = Ready) then t else Th.with_status t Blocking) = c)
    by (by destruct (bool_decide _)).
  unfold suspended. rewrite Hctx. destruct (Ctx.fs c) eqn:Hfs; [..|].
  4:{ simpl. unfold float_restore, float_save. simpl. rewrite wrap_small by done. by destruct (m_fpu s). }
  all: rewrite Hctx; destruct Hc as [Hd|[Hv Heq]]; [congruence|]; by rewrite Hv.
Qed.

(** A thread that was never saved starts with the registers of the thread that ran
    before it. *)
Lemma float_inherited s pid tid p t :
  k_procs (m_kernel s) !! pid = Some p → p_threads p !! tid = Some t → t_status t = Ready →
  valid (user_float_ctx (trap_context t)) = false →
  ∃ s', poll_enter pid tid s = Done () s' ∧ m_fpu s' = m_fpu s.
Proof.
  intros Hp Ht Hr Hv. destruct (poll_enter_run s pid tid p t Hp Ht Hr) as (s' & He & _ & _ & Hf).
  exists s'. by rewrite Hv in Hf.
Qed.

(** ** [clone] *)
Lemma sys_clone_fork pid flags stack (k : Kernel File) child k' :
  sys_clone pid flags stack k = Done child k' →
  ∃ es, fork pid (if stack =? 0 then None else Some stack) es k = Done child k'.
Proof.
  unfold sys_clone. intros Hs. destruct (negb (in_uint 32 flags)); [done|].
  destruct (Flags.from_bits _ _) as [cf|]; [|done].
  destruct (Flags.contains cf CloneFlags.CLONE_THREAD).
  { apply kbind_Done in Hs as (? & s1 & _ & Hs). by destruct (negb (wrap 8 flags =? 0)). }
  apply kbind_Done in Hs as (? & s1 & Ha & Hs). unfold kassert in Ha.
  destruct (negb (Flags.intersects cf thread_flags)); [|done]. injection Ha as _ <-.
  apply kbind_Done in Hs as (es & s2 & He & Hs).
  assert (s2 = k) as ->; [|by exists es].
  destruct (negb (wrap 8 flags =? 0)); [|by injection He].
  destruct (Sig.from_user (wrap 8 flags)) as [sg|]; [|done].
  apply kbind_Done in He as (? & s3 & Hb & He). unfold kassert in Hb.
  destruct (bool_decide (sg = SIGCHLD)); [|done]. injection Hb as _ <-. by injection He.
Qed.
Lemma put_thread_kernel_ok s pid tid p t t' :
  at_thread s pid tid p t → kernel_ok (m_kernel s) → kernel_ok (m_kernel (put_thread pid tid p t' s)).
Proof.
  intros [_ Hp Ht] [Hi Ha Hl]. split; [|done|].
  - intros q pq. simpl. rewrite lookup_insert. case_decide as Hq; [|by apply Hi].
    intros [= <-] Hz. specialize (Hi pid p Hp Hz). by rewrite Hi in Ht.
  - intros q. simpl. rewrite lookup_insert. case_decide as Hq; [subst q; intros _; apply Hl; by eexists|by apply Hl].
Qed.
Lemma to_signed_small x : 0 ≤ x < 2 ^ 63 → to_signed 64 x = x.
Proof. intros Hx. unfold to_signed. rewrite wrap_small by lia. by rewrite (proj2 (Z.ltb_lt x _)) by (simpl; lia). Qed.

Lemma clone_run ticks pid tid args s child k' :
  sys_clone pid (default 0 (args !! 0%nat)) (default 0 (args !! 1%nat)) (m_kernel s) = Done child k' →
  syscall_at ticks pid tid 220 args s =
    Done (Ret child) (set_spawned ((child, 0) :: m_spawned s) (set_kernel k' s)).
Proof.
  intros Hc. unfold syscall_at. cbv zeta iota. unfold ret, clone, on_kernel, mbind, kst_bind. by rewrite Hc.
Qed.

(** C11: [clone] returns twice. When the call of the current thread forks, both
    processes resume after the [ecall] with the same registers, except that [a0] is
    the pid of the child in the parent and zero in the child, and that the child
    runs on the stack given, if any. The child is ready and handed to the executor;
    it has the parent's descriptors and working directory and the copy of the
    address space, and is the parent's last child. *)
Theorem clone_returns_twice slog i ch stval s pid tid p t child k' :
  at_thread s pid tid p t → sepc_ok t → call_id t = 220 → kernel_ok (m_kernel s) → 0 ≤ child < 2 ^ 63 →
  let s1 := put_thread pid tid p (past_ecall t) s in
  let c1 := Ctx.with_sepc (trap_context t) (sepc (trap_context t) + 4) in
  let stack := Ctx.reg (trap_context t) 10 in
  sys_clone pid (Ctx.reg (trap_context t) 9) stack (m_kernel s1) = Done child k' →
  ∃ s' p' pc tc,
    user_trap_handler slog i ch (Exception UserEnvCall) stval s = Done FContinue s' ∧
    m_spawned s' = (child, 0) :: m_spawned s ∧
    k_procs (m_kernel s') !! pid = Some p' ∧ p_children p' = p_children p ++ [child] ∧
    p_threads p' = {[ 0 := Th.with_ctx t (Ctx.set_a0 c1 child) ]} ∧
    k_procs (m_kernel s') !! child = Some pc ∧ p_parent pc = Some pid ∧
    p_fds pc = p_fds p ∧ p_cwd pc = p_cwd p ∧ p_threads pc = {[ t_tid t := tc ]} ∧ t_status tc = Ready ∧
    trap_context tc = Ctx.set_a0 (if stack =? 0 then c1 else Ctx.set_sp c1 stack) 0 ∧
    from_other kernel_root page_caches (k_mem (m_kernel s)) (p_space p) = Ok (p_space pc, k_mem (m_kernel s')).
Proof.
  intros Hat Hse Hid Hko Hch s1 c1 stack Hcl. pose proof Hat as [Hcu Hp Ht].
  assert (Hko1 : kernel_ok (m_kernel s1)) by (by eapply put_thread_kernel_ok).
  destruct (sys_clone_fork _ _ _ _ _ _ Hcl) as (es & Hf).
  destruct (fork_spec _ _ _ _ _ _ Hko1 Hf) as (p1 & t1 & sp & m & Hp1 & Hth & Hfo & Hnew & Hm & _ & Hps).
  assert (Hp1' : Some p1 = Some (P.with_threads p (<[tid := past_ecall t]> (p_threads p)))).
  { rewrite <- Hp1. apply lookup_insert_eq. }
  injection Hp1' as ->. simpl in Hth.
  assert (tid = 0 ∧ t1 = past_ecall t) as [-> ->].
  { assert (Hl : <[tid := past_ecall t]> (p_threads p) !! tid = Some (past_ecall t)) by apply lookup_insert_eq.
    rewrite Hth in Hl. apply lookup_singleton_Some in Hl. naive_solver. }
  assert (Hne : pid ≠ child). { intros ->. rewrite Hnew in Hp1. done. }
  set (s2 := set_spawned ((child, 0) :: m_spawned s) (set_kernel k' s1)).
  assert (Hat2 : at_thread s2 pid 0 (P.with_children (P.with_threads p (<[0 := past_ecall t]> (p_threads p)))
                   (p_children p ++ [child])) (past_ecall t)).
  { split; [done| |apply lookup_insert_eq]. simpl. rewrite Hps. apply lookup_insert_eq. }
  eexists (put_thread pid 0 _ _ s2), _, _, _. split.
  { rewrite (ecall_run slog i ch stval s pid 0 p t); [|done|done|rewrite Hid; intros _; by apply (bool_decide_eq_true_1 _)].
    fold s1. unfold syscall. rewrite (syscall_impl_at _ _ s1 pid 0 Hcu), Hid, (clone_run (m_ticks s1) pid 0 (call_args t) s1 child k' Hcl).
    fold s2. rewrite to_signed_small by done. by rewrite (finish_run _ _ _ _ _ _ Hat2) by (simpl; lia). }
  split; [done|]. split; [apply lookup_insert_eq|]. split; [done|]. split.
  { simpl. rewrite Hth, insert_singleton_eq. rewrite wrap_small by lia. done. }
  split. { simpl. rewrite lookup_insert_ne, Hps, lookup_insert_ne by done. apply lookup_insert_eq. }
  split; [done|]. split; [done|]. split; [done|]. split; [done|]. split; [done|]. split.
  { simpl. unfold child_context. by destruct (stack =? 0). }
  simpl. rewrite Hm. exact Hfo.
Qed.

(** ** Where the parts do not fit *)

(** [lseek] to an offset that looks like [BREAK] succeeds, and the thread ends. *)
Lemma lseek_ends_thread slog i ch stval s pid tid p t desc f x :
  at_thread s pid tid p t → sepc_ok t → call_id t = 62 →
  Ctx.reg (trap_context t) 10 = 2 ^ 64 - 1023 → Ctx.reg (trap_context t) 11 = SEEK_SET →
  fd_get (p_fds p) (Ctx.reg (trap_context t) 9) = Some desc → fd_file desc = FSeekable f →
  m_seek_files s !! f = Some x →
  ∃ s', user_trap_handler slog i ch (Exception UserEnvCall) stval s = Done FBreak s'.
Proof.
  intros Hat Hse Hid H10 H11 Hfd Hf Hx. pose proof Hat as [Hcu Hp Ht].
  rewrite (ecall_run slog i ch stval s pid tid p t); [|done|done|rewrite Hid; intros _; by apply (bool_decide_eq_true_1 _)].
  set (s1 := put_thread pid tid p (past_ecall t) s). unfold syscall. rewrite (syscall_impl_at _ _ s1 pid tid Hcu), Hid.
  set (p1 := P.with_threads p (<[tid := past_ecall t]> (p_threads p))).
  assert (Hl : ∃ y, sys_lseek (Ctx.reg (trap_context t) 9) (to_signed 64 (Ctx.reg (trap_context t) 10))
                      (Ctx.reg (trap_context t) 11) (sys_view p1 s1) = Done (2 ^ 64 - 1023) y).
  { rewrite H10, H11. unfold sys_lseek, get_desc, mbind, kst_bind, kget, kok_or. 
    change (fd_table (sys_view p1 s1)) with (p_fds p). rewrite Hfd. unfold mret, kst_ret. change (SEEK_SET =? SEEK_SET) with true. cbv iota.
    unfold fd_seek, get_seekable, mbind, kst_bind, kget. rewrite Hf.
    change (seek_files (sys_view p1 s1)) with (m_seek_files s). rewrite Hx.
    unfold kunwrap, mret, kst_ret. eexists. reflexivity. }
  destruct Hl as [y Hl].
  assert (Hsys : syscall_at (m_ticks s1) pid tid 62 (call_args t) s1 = Done (Ret (2 ^ 64 - 1023)) (sys_put pid p1 y s1)).
  { unfold syscall_at. cbv zeta iota. unfold ret, on_sys. unfold mbind at 1, kst_bind at 1.
    assert (k_procs (m_kernel s1) !! pid = Some p1) as -> by apply lookup_insert_eq.
    assert (Hd : ∀ n, default 0 (call_args t !! n) = default 0 (call_args t !! n)) by done.
    change (default 0 (call_args t !! 0%nat)) with (Ctx.reg (trap_context t) 9).
    change (default 0 (call_args t !! 1%nat)) with (Ctx.reg (trap_context t) 10).
    change (default 0 (call_args t !! 2%nat)) with (Ctx.reg (trap_context t) 11). by rewrite Hl. }
  rewrite Hsys. eexists. reflexivity.
Qed.

(** A process that was told to exit once ends the kernel when it calls
    [exit_group]. *)
Lemma exit_group_after_exit slog i ch stval s pid tid p t :
  at_thread s pid tid p t → sepc_ok t → call_id t = 94 → p_status p ≠ ProcessStatus.normal →
  user_trap_handler slog i ch (Exception UserEnvCall) stval s = Crash.
Proof.
  intros Hat Hse Hid Hst. pose proof Hat as [Hcu Hp Ht].
  rewrite (ecall_run slog i ch stval s pid tid p t); [|done|done|rewrite Hid; intros _; by apply (bool_decide_eq_true_1 _)].
  set (s1 := put_thread pid tid p (past_ecall t) s). unfold syscall. rewrite (syscall_impl_at _ _ s1 pid tid Hcu), Hid.
  assert (Hex : ∀ code, k_exit_process pid code (m_kernel s1) = Crash).
  { intros code. unfold k_exit_process, proc, mbind, kst_bind, kget, kunwrap.
    assert (k_procs (m_kernel s1) !! pid = Some (P.with_threads p (<[tid := past_ecall t]> (p_threads p)))) as ->
      by apply lookup_insert_eq.
    unfold mret, kst_ret, klift, exit_process. cbn [p_status P.with_threads]. by rewrite (proj2 (Z.eqb_neq _ _) Hst). }
  unfold syscall_at. cbv zeta iota. unfold ret, on_kernel, sys_exit_group. unfold mbind, kst_bind. by rewrite Hex.
Qed.

(** A fatal signal marks the process as exited, and the thread goes back to user
    mode all the same. *)
Lemma killed_returns_to_user s pid tid p t :
  at_thread s pid tid p t → p_status p = ProcessStatus.normal →
  pending_signal t = KSignalSet.from SIGTERM → signal_mask t = 0 →
  Handlers.action (p_handlers p) SIGTERM = KSignalAction_new →
  ∃ s' p' t', trap_return s = Done () s' ∧ at_thread s' pid tid p' t' ∧
    p_status p' ≠ ProcessStatus.normal ∧ trap_context t' = trap_context t.
Proof.
  intros Hat Hst Hpe Hma Hac. pose proof Hat as [Hcu Hp Ht].
  unfold trap_return. rewrite (kbind_run _ _ _ _ _ (curr_run _ _ _ _ _ Hat)). cbv beta iota.
  unfold mbind at 1, kst_bind at 1, on_sig. rewrite Hp, Ht.
  unfold check_signal, mbind, kst_bind, kget. cbn [ss_thread ss_handlers]. rewrite Hpe, Hma.
  change (KSignalSet.first_pending (Z.land (KSignalSet.from SIGTERM) (KSignalSet.complement 0))) with (Some SIGTERM).
  cbv beta iota. unfold kmodify. rewrite Hac.
  change (sa_handler KSignalAction_new =? SIG_ERR) with false. change (sa_handler KSignalAction_new =? SIG_DFL) with true.
  cbv iota. change (DefaultHandler_new SIGTERM) with Terminate. cbv iota.
  unfold sig_exit_process, mbind, kst_bind, kget, exit_process. cbn [ss_status Signal.set_thread].
  rewrite Hst. eexists _, _, _. split; [reflexivity|]. split; [split; [exact Hcu|apply lookup_insert_eq|apply lookup_insert_eq]|].
  split; [simpl; by vm_compute|done].
Qed.
End spec.
