(* ===== verification/MachineDemo.v ===== *)
(** * A machine with two areas of memory and a terminal

    The theorems about traps at a concrete state: the world has one empty
    directory and the serial port, and the user memory it sees is the address
    space of the process. *)
From S2P Require Import Prelude BTree Address Defines Kst IdAllocator FrameAllocator PageTable VmArea MemorySpace SpaceOps InitStack UserCheck UserAccess Trap Signal FdTable Process ProcessTree ProcessSteps ProcessSpec Inode MemSyscalls Vfs VfsSpec SysFs Executor Tty Machine MachineSpec.

Module Board.
Record Dev : Type := mkDev { d_user : MemorySpace * Mem; d_kbuf : list Z; d_tty : Tty }.
#[local] Instance BoardDirs : DirBackend := {|
  DI := (); BI := Empty_set; FS := Dev;
  dir_lookup _ _ := mret None; dir_mkdir _ _ := kfail ENOSPC; dir_mknod _ _ _ := kfail ENOSPC;
  dir_unlink _ _ := kfail ENOENT; dir_read_dir _ _ := mret [];
  dir_meta _ _ := Meta.new 0 Dir; dir_set_meta _ _ d := d;
  file_meta b := match b with end; file_set_meta b := match b with end; file_addr b := match b with end;
|}.
(** [check_cstr] of the address space *)
Definition board_cstr (ptr : Z) : kst (MemorySpace * Mem) str := λ u,
  match check_cstr u.2 u.1 ptr with
  | Ok (inl p, sp, m) => Done p (sp, m)
  | Ok (inr e, sp, m) => Fail e (sp, m)
  | Err e => Fail e u
  | Panic => Crash
  end.
#[local] Instance BoardWorld : World := {|
  PipeT := Empty_set; UserT := MemorySpace * Mem; user_mem := SpaceUserMemory;
  get_user := d_user; SysFs.set_user u d := mkDev u (d_kbuf d) (d_tty d); user_cstr := board_cstr;
  set_kbuf b d := mkDev (d_user d) b (d_tty d); get_kbuf := d_kbuf;
  inode_read b := match b with end; inode_write b := match b with end; inode_resize b := match b with end;
  inode_ioctl b := match b with end;
  new_pipe := kfail EMFILE; pipe_read p := match p with end; pipe_write p := match p with end;
  pipe_meta p := match p with end;
  new_tmp_dir := kfail ENOSPC; new_tty := kfail ENOSPC; new_rtc := kfail ENOSPC; new_mounts := kfail ENOSPC;
  new_meminfo := kfail ENOSPC;
|}.
#[local] Instance BoardUser : UserWorld := {|
  as_user u := u; as_space u := u; as_space_user u := eq_refl; get_set_user u f := eq_refl;
  get_tty := d_tty; set_tty t (d : @FS BoardDirs) := mkDev (d_user d) (d_kbuf d) t; get_set_tty t f := eq_refl;
|}.

(** ** Process 1 at an [ecall] *)
Definition call_context (id a0 a1 : Z) : TrapContext :=
  Ctx.set_reg (Ctx.set_a1 (Ctx.set_a0 (start_context 0x10000 0x20000 0 0) a0) a1) 16 id.
Definition at_call (id a0 a1 : Z) : Thread := Th.new 0 (call_context id a0 a1) 0.
Definition board_proc (t : Thread) : Process File :=
  mkProcess [] 0 ProcessStatus.normal None demo_space (0x10000, 0x20000) None [] 0
    (mkTable ∅ (mkRLimit 1024 RLIM_INFINITY)) Handlers.new (mkAllocator 1 []) {[ 0 := t ]}.
Definition board_kernel (t : Thread) : Kernel File :=
  mkKernel demo_mem {[ 1 := board_proc t ]} {[ 1 ]} (mkAllocator 2 []) false.
Definition board_vfs : Vfs := root_vfs (DB:=BoardDirs) () (mkDev (demo_space, demo_mem) [] (mkTty [] None)) [].
Definition board (t : Thread) : Machine :=
  mkMachine (board_kernel t) board_vfs ∅ ∅ 0 (mkFpu (replicate 32 7) 1) 5000 0 [] [] [] (Some (1, 0)) 0.

Lemma board_at t : at_thread (board t) 1 0 (board_proc t) t.
Proof. split; reflexivity. Qed.
Lemma board_sepc id a0 a1 : sepc_ok (at_call id a0 a1).
Proof. vm_compute. split; congruence. Qed.
Lemma board_kernel_ok t : kernel_ok (board_kernel t).
Proof.
  constructor; simpl.
  - intros pid p [_ <-]%lookup_singleton_Some. by intros ?.
  - split; [simpl; lia|]. split; [constructor|]. simpl. set_solver.
  - intros pid [p [<- _]%lookup_singleton_Some]. apply elem_of_live. simpl. split; [lia|set_solver].
Qed.

(** [a0] of the thread *)
Definition a0_of (s : Machine) : option Z :=
  p ← k_procs (m_kernel s) !! 1; t ← p_threads p !! 0; Some (Ctx.a0 (trap_context t)).

(** [read(0, NULL)] *)
Lemma null_pointer_witness :
  ∃ s', user_trap_handler true 0 0 (Exception UserEnvCall) 0 (board (at_call 63 0 0)) = Done FContinue s' ∧
        a0_of s' = Some (2 ^ 64 - 22).
Proof.
  eexists. split.
  - apply (null_pointer_einval true 0 0 0 (board (at_call 63 0 0)) 1 0 (board_proc (at_call 63 0 0)) (at_call 63 0 0) 1
             (board_at _) (board_sepc 63 0 0)); [|vm_compute; reflexivity].
    apply (bool_decide_eq_true_1 _). vm_compute. reflexivity.
  - vm_compute. reflexivity.
Defined.

(** Number 1000 is no system call. *)
Lemma unknown_syscall_witness :
  user_trap_handler true 0 0 (Exception UserEnvCall) 0 (board (at_call 1000 0 0)) = Crash ∧
  ∃ s', user_trap_handler false 0 0 (Exception UserEnvCall) 0 (board (at_call 1000 0 0)) = Done FContinue s' ∧
        loop_ends FContinue s' = Done true s'.
Proof.
  assert (call_id (at_call 1000 0 0) ∉ syscall_ids) as Hid
    by (apply (bool_decide_eq_true_1 _); vm_compute; reflexivity).
  pose proof (λ slog, unknown_syscall slog 0 0 0 (board (at_call 1000 0 0)) 1 0 (board_proc (at_call 1000 0 0))
    (at_call 1000 0 0) (board_at _) (board_sepc 1000 0 0) Hid eq_refl) as Hu.
  split; [exact (proj1 (Hu true))|]. eexists. exact (Hu false).
Defined.


(** The thread with [FS] dirty leaves, and comes back ready. *)
Definition dirty : Thread := Th.new 0 (Trap.set_fs (call_context 0 0 0) Trap.Dirty) 0.
Lemma float_switch_witness :
  ∃ s1, poll_leave 1 0 false (board dirty) = Done () s1 ∧ m_curr s1 = None ∧
  ∃ s3, poll_enter 1 0 (set_fpu (mkFpu [] 0) s1) = Done () s3 ∧ m_fpu s3 = mkFpu (replicate 32 7) 1.
Proof.
  destruct (float_switch (board dirty) 1 0 (board_proc dirty) dirty eq_refl eq_refl ltac:(simpl; lia)
    ltac:(left; reflexivity)) as (s1 & t1 & H1 & H2 & _ & H3 & H4).
  exists s1. split; [exact H1|]. split; [exact H2|].
  assert (t_status t1 = Ready) as Hr.
  { assert (match poll_leave 1 0 false (board dirty) with
            | Done _ s => match k_procs (m_kernel s) !! 1 with
                          | Some p => match p_threads p !! 0 with Some t => bool_decide (t_status t = Ready) | None => false end
                          | None => false end
            | _ => false end = true) as Hv by (vm_compute; reflexivity).
    rewrite H1 in Hv. destruct (k_procs (m_kernel s1) !! 1) as [p|]; [|discriminate H3]. injection H3 as H3.
    rewrite H3 in Hv. simpl in Hv. rewrite lookup_insert_eq in Hv. exact (bool_decide_eq_true_1 _ Hv). }
  destruct (k_procs (m_kernel s1) !! 1) as [p|] eqn:Hp; [|discriminate H3]. injection H3 as H3.
  destruct (H4 (set_fpu (mkFpu [] 0) s1) p t1 Hp) as (s3 & H5 & H6 & _);
    [rewrite H3; apply lookup_insert_eq|exact Hr|reflexivity|].
  exists s3. split; [exact H5|exact H6].
Defined.

(** [fork()] *)
Lemma clone_witness :
  ∃ s' p' pc, user_trap_handler true 0 0 (Exception UserEnvCall) 0 (board (at_call 220 17 0)) = Done FContinue s' ∧
    m_spawned s' = [(2, 0)] ∧ k_procs (m_kernel s') !! 1 = Some p' ∧ p_children p' = [2] ∧
    k_procs (m_kernel s') !! 2 = Some pc ∧ p_parent pc = Some 1.
Proof.
  set (t := at_call 220 17 0). set (s1 := put_thread 1 0 (board_proc t) (past_ecall t) (board t)).
  assert (kvalue (sys_clone 1 17 0 (m_kernel s1)) = Some 2) as Hv by (vm_compute; reflexivity).
  destruct (kvalue_done _ _ Hv) as [k' Hk].
  destruct (clone_returns_twice true 0 0 0 (board t) 1 0 (board_proc t) t 2 k' (board_at t) (board_sepc 220 17 0) eq_refl
    (board_kernel_ok t) ltac:(lia) Hk) as (s' & p' & pc & tc & H1 & H2 & H3 & H4 & _ & H5 & H6 & _).
  exists s', p', pc. split; [exact H1|]. split; [exact H2|]. split; [exact H3|]. split; [exact H4|].
  split; [exact H5|exact H6].
Defined.
End Board.
