(* ===== verification/UserAbi.v ===== *)
(** * The system calls of the user library

    [user/src/syscall.rs]: each wrapper fills registers and traps. What the kernel
    then runs is the handler the wrapper means, with its arguments at their width,
    whatever is left in the registers the wrapper does not fill. *)
From S2P Require Import Prelude BTree Address Defines Kst IdAllocator FrameAllocator PageTable VmArea MemorySpace UserCheck UserAccess Trap Signal FdTable Process ProcessSteps Inode MemSyscalls Vfs SysFs Executor Machine MachineSpec MachineDemo.

(** The wrappers with their arguments; a pointer or a slice is its address and its
    length. *)
Inductive user_call : Type :=
| UOpenat (dirfd path flags mode : Z) | UClose (fd : Z) | ULseek (fd offset whence : Z)
| URead (fd buf len : Z) | UWrite (fd buf len : Z) | UNewfstat (fd st : Z) | UExit (exit_code : Z)
| UYield | UGetpid | UGetppid | UClone (flags : Z) | UExecve (path args : Z) | UWaitpid (pid xstatus : Z)
| USetPriority (prio : Z) | UMmap (start len prot flags fd offset : Z) | UMunmap (start len : Z)
| UChdir (path : Z) | UGetcwd (buf len : Z) | UGetdents64 (fd buf len : Z) | UDup (fd : Z)
| UPipe (pipe_fd flags : Z) | UGettid | UUname (utsname : Z) | URtSigaction (signum act old_act : Z)
| UBrk (brk : Z) | UClockGettime (clock_id ts : Z) | UIoctl (fd request argp : Z).

(** [id] and [args] of [syscall3] and [syscall6]; [as usize] of a signed integer
    extends its sign. *)
Definition user_regs (c : user_call) : Z * list Z :=
  match c with
  | UOpenat dirfd path flags mode => (56, [dirfd; path; flags; mode; 0; 0])
  | UClose fd => (57, [wrap 64 fd; 0; 0])
  | ULseek fd offset whence => (62, [wrap 64 fd; wrap 64 offset; whence])
  | URead fd buf len => (63, [wrap 64 fd; buf; len])
  | UWrite fd buf len => (64, [wrap 64 fd; buf; len])
  | UNewfstat fd st => (80, [fd; st; 0])
  | UExit exit_code => (93, [wrap 64 exit_code; 0; 0])
  | UYield => (124, [0; 0; 0])
  | UGetpid => (172, [0; 0; 0])
  | UGetppid => (173, [0; 0; 0])
  | UClone flags => (220, [flags; 0; 0])
  | UExecve path args => (221, [path; args; 0])
  | UWaitpid pid xstatus => (260, [wrap 64 pid; xstatus; 0; 0; 0; 0])
  | USetPriority prio => (140, [wrap 64 prio; 0; 0])
  | UMmap start len prot flags fd offset => (222, [start; len; prot; flags; fd; offset])
  | UMunmap start len => (215, [start; len; 0])
  | UChdir path => (49, [path; 0; 0])
  | UGetcwd buf len => (17, [buf; len; 0])
  | UGetdents64 fd buf len => (61, [fd; buf; len])
  | UDup fd => (23, [fd; 0; 0])
  | UPipe pipe_fd flags => (59, [pipe_fd; flags; 0])
  | UGettid => (178, [0; 0; 0])
  | UUname utsname => (160, [utsname; 0; 0])
  | URtSigaction signum act old_act => (134, [signum; act; old_act])
  | UBrk brk => (214, [brk; 0; 0])
  | UClockGettime clock_id ts => (113, [clock_id; ts; 0])
  | UIoctl fd request argp => (29, [fd; request; argp])
  end.

(** The arguments are of their Rust types, the pointers not null. *)
Definition call_ok (c : user_call) : Prop :=
  match c with
  | UOpenat _ path flags _ => path ≠ 0 ∧ 0 ≤ flags < 2 ^ 32
  | ULseek _ offset _ => - 2 ^ 63 ≤ offset < 2 ^ 63
  | URead _ buf _ | UWrite _ buf _ | UGetdents64 _ buf _ | UGetcwd buf _ | UNewfstat _ buf => buf ≠ 0
  | UExit code => - 2 ^ 31 ≤ code < 2 ^ 31
  | UWaitpid pid xstatus => - 2 ^ 63 ≤ pid < 2 ^ 63 ∧ xstatus ≠ 0
  | UExecve path args => path ≠ 0 ∧ args ≠ 0
  | UMmap _ _ prot flags _ _ => 0 ≤ prot < 2 ^ 32 ∧ 0 ≤ flags < 2 ^ 32
  | UChdir path => path ≠ 0
  | UPipe pipe_fd flags => pipe_fd ≠ 0 ∧ 0 ≤ flags < 2 ^ 32
  | UUname utsname => utsname ≠ 0
  | UClockGettime _ ts => ts ≠ 0
  | _ => True
  end.

Section abi.
Context `{Buddy, KernelImage, ProcessEnv} {DB : DirBackend} {WD : World} {UW : UserWorld}.

(** What the wrapper means: the handler of the thread [tid] of [pid] *)
Definition meaning (ticks pid tid : Z) (c : user_call) : kst Machine sysret :=
  let fs f := now ← now_spec; ret (on_sys pid (f now)) in
  match c with
  | UOpenat dirfd path flags _ => fs (λ now, sys_openat now dirfd path flags)
  | UClose fd => ret (on_fds pid (sys_close (wrap 64 fd)))
  | ULseek fd offset whence => ret (on_sys pid (sys_lseek (wrap 64 fd) offset whence))
  | URead fd buf len => ret (on_sys pid (sys_read (wrap 64 fd) buf len))
  | UWrite fd buf len => ret (on_sys pid (sys_write (wrap 64 fd) buf len))
  | UNewfstat fd st => ret (on_sys pid (sys_newfstat fd st))
  | UExit exit_code => ret (on_kernel (sys_exit pid tid exit_code))
  | UYield => mret (Wait OnYield)
  | UGetpid => ret (on_kernel (sys_getpid pid))
  | UGetppid => ret (on_kernel (sys_getppid pid))
  | UClone flags => ret (clone pid flags 0)
  | UExecve path args => ret (sys_execve pid path args None)
  | UWaitpid child xstatus => wait4 pid child (Some xstatus) 0 0
  | USetPriority _ => ret (on_kernel sys_setpriority)
  | UMmap start len prot flags fd offset => ret (mmap pid start len prot flags fd offset)
  | UMunmap start len => ret (on_kernel (sys_munmap pid start len))
  | UChdir path => fs (λ now, sys_chdir now path)
  | UGetcwd buf len => ret (on_sys pid (sys_getcwd buf len))
  | UGetdents64 fd buf len => ret (on_sys pid (sys_getdents64 fd buf len))
  | UDup fd => ret (on_fds pid (sys_dup fd))
  | UPipe pipe_fd flags => ret (on_sys pid (sys_pipe2 pipe_fd flags))
  | UGettid => ret (on_kernel (sys_gettid tid))
  | UUname utsname => ret (on_mem pid (sys_uname utsname))
  | URtSigaction signum act old_act =>
      ret (on_sig pid tid (sys_rt_sigaction signum (UserCheck_new act) (UserCheck_new old_act)))
  | UBrk brk => ret (on_kernel (sys_brk pid brk))
  | UClockGettime clock_id ts => ret (on_mem pid (sys_clock_gettime ticks clock_id ts))
  | UIoctl fd request argp => ret (on_sys pid (sys_ioctl fd request argp))
  end.

Lemma user_check_some ptr : ptr ≠ 0 → UserCheck_new ptr = Some ptr.
Proof. intros Hp. unfold UserCheck_new. by rewrite (proj2 (Z.eqb_neq ptr 0) Hp). Qed.
Lemma non_null_ok {B} ptr (k : Z → kst Machine B) s : ptr ≠ 0 → (p ← non_null ptr; k p) s = k ptr s.
Proof. intros Hp. unfold non_null. by rewrite (user_check_some ptr Hp). Qed.
Lemma to_signed_exit code : - 2 ^ 31 ≤ code < 2 ^ 31 → to_signed 32 (wrap 64 code) = code.
Proof.
  intros Hc. rewrite <- (to_signed_wrap 32 code) at 2 by lia. unfold to_signed, wrap.
  rewrite <- (Znumtheory.Zmod_div_mod (2 ^ 32) (2 ^ 64) code); [by rewrite Z.mod_mod|lia|lia|]. exists (2 ^ 32). lia.
Qed.

(** The wrapper's call reaches its handler. *)
Lemma user_call_dispatch ticks pid tid c junk s :
  call_ok c → syscall_at ticks pid tid (user_regs c).1 ((user_regs c).2 ++ junk) s = meaning ticks pid tid c s.
Proof.
  intros Hc. destruct c; simpl in Hc; cbn [user_regs fst snd app]; unfold syscall_at, meaning; cbv beta iota zeta;
    repeat match goal with |- context [default 0 (?l !! ?n)] => let x := eval cbn in (default 0 (l !! n)) in change (default 0 (l !! n)) with x end;
    try reflexivity;
    repeat match goal with H : _ ∧ _ |- _ => destruct H end;
    rewrite ?non_null_ok, ?wrap_small, ?to_signed_wrap, ?to_signed_exit, ?user_check_some by (done || lia); reflexivity.
Qed.
Lemma user_call_known c : (user_regs c).1 ∈ syscall_ids.
Proof. by destruct c; apply (bool_decide_eq_true_1 _). Qed.

(** C14: the user library and the kernel agree on the system calls. A thread that
    traps in a wrapper of the library, with its arguments of their types and
    anything in the registers the wrapper does not fill, has exactly the handler
    the wrapper stands for run on its process, with the wrapper's arguments; the
    result, or the error as a negative number, goes back in [a0] after the
    instruction, unless the call waits or ends the thread. *)
Theorem user_call_runs c junk slog i ch stval s pid tid p t :
  at_thread s pid tid p t → sepc_ok t → call_id t = (user_regs c).1 → call_args t = (user_regs c).2 ++ junk → call_ok c →
  user_trap_handler slog i ch (Exception UserEnvCall) stval s =
    match meaning (m_ticks s) pid tid c (put_thread pid tid p (past_ecall t) s) with
    | Done (Ret r) s' => finish_syscall pid tid (to_signed 64 r) s'
    | Done (Wait w) s' => Done (FSyscall w) s'
    | Fail e s' => finish_syscall pid tid (as_isize e) s'
    | Crash => Crash
    end.
Proof.
  intros Hat Hse Hid Hargs Hok.
  rewrite (ecall_run slog i ch stval s pid tid p t Hat Hse) by (intros _; rewrite Hid; apply user_call_known).
  pose proof (put_thread_at s pid tid p t (past_ecall t) Hat) as [Hcur _ _].
  unfold syscall. rewrite (syscall_impl_at _ _ _ pid tid Hcur), Hid, Hargs.
  change (m_ticks (put_thread pid tid p (past_ecall t) s)) with (m_ticks s).
  rewrite user_call_dispatch by done. by destruct (meaning _ _ _ _ _) as [[r|w] s'|e s'|].
Qed.
End abi.

(** [close(-1)] *)
Module AbiDemo.
Import Board.
#[local] Existing Instances BoardDirs BoardWorld BoardUser.
Lemma user_call_witness :
  match user_trap_handler true 0 0 (Exception UserEnvCall) 0 (board (at_call 57 (2 ^ 64 - 1) 0)) with
  | Done FContinue s' => a0_of s' = Some (2 ^ 64 - 9)
  | _ => False
  end.
Proof.
  set (t := at_call 57 (2 ^ 64 - 1) 0).
  pose proof (user_call_runs (UClose (-1)) [0; 0; 0] true 0 0 0 (board t) 1 0 (board_proc t) t
    (board_at t) (board_sepc 57 (2 ^ 64 - 1) 0) eq_refl eq_refl I) as Hr.
  rewrite Hr. vm_compute. reflexivity.
Defined.
End AbiDemo.
