(* ===== verification/Drivers.v ===== *)
(** * Drivers

    [drivers/qemu_plic], [drivers/virtio_glue] and [kernel/src/drivers.rs]: the
    registers of the interrupt controller and their set-up, external interrupts
    from the claim to the completion, the block device with its read cache, and
    the memory a device shares with its driver. *)
From S2P Require Import Prelude BTree Address Defines Kst IdAllocator FrameAllocator PageTable VmArea MemorySpace InitStack UserCheck UserAccess Trap Signal FdTable Process Inode MemSyscalls Vfs VfsSpec SysFs Executor Tty Machine MachineDemo.

(** ** The interrupt controller as hardware

    The memory map of the RISC-V PLIC specification. Priorities, enables and
    thresholds are configuration registers that keep what is written. A source
    is pending from the arrival of its interrupt until it is claimed, by a read of
    the claim register of a context it is enabled in, and in service from then
    until its number is written to that register; an interrupt of a source in
    service is held back. *)
Module PlicSpec.
Definition priority (source : Z) : Z := 4 * source.
Definition enable_word (context source : Z) : Z := 0x2000 + 0x80 * context + 4 * (source / 32).
Definition threshold (context : Z) : Z := 0x200000 + 0x1000 * context.
Definition claim_complete (context : Z) : Z := 0x200004 + 0x1000 * context.
(** Configuration registers, up to the last context; the pending bits, from
    0x1000 to 0x2000, are not among them. *)
Definition is_config (off : Z) : Prop :=
  0 ≤ off < 0x1000 ∨ 0x2000 ≤ off < 0x1f2000 ∨ ∃ c, 0 ≤ c < 15872 ∧ off = threshold c.
(** A bit of the enables, in the registers [reg] *)
Definition enable_bit (reg : Z → Z) (c id : Z) : bool := Z.testbit (reg (enable_word c id)) (id mod 32).
End PlicSpec.

Class PlicDevice (P : Type) := {
  pl_reg : P → Z → Z;
  pl_pending : P → Z → bool;
  pl_serving : P → Z → bool;
  pl_read : Z → P → Z * P;
  pl_write : Z → Z → P → P;
  pl_arrive : Z → P → P;
  pl_read_config off p : PlicSpec.is_config off → pl_read off p = (pl_reg p off, p);
  pl_write_config off v p off' :
    PlicSpec.is_config off → PlicSpec.is_config off' →
    pl_reg (pl_write off v p) off' = if decide (off = off') then v else pl_reg p off';
  pl_write_sources off v p id : PlicSpec.is_config off →
    pl_pending (pl_write off v p) id = pl_pending p id ∧ pl_serving (pl_write off v p) id = pl_serving p id;
  (** a claim gives zero when no source enabled in the context is pending with a
      priority, or else such a source, which is in service then *)
  pl_claim c p : 0 ≤ c < 15872 →
    let '(id, p') := pl_read (PlicSpec.claim_complete c) p in
    (id = 0 ∧ p' = p ∧
     ∀ i, 0 < i < 1024 → PlicSpec.enable_bit (pl_reg p) c i = true → 0 < pl_reg p (PlicSpec.priority i) →
          pl_pending p i = false) ∨
    (0 < id < 1024 ∧ PlicSpec.enable_bit (pl_reg p) c id = true ∧ pl_pending p id = true ∧
     ∀ i, pl_pending p' i = (if decide (i = id) then false else pl_pending p i) ∧
          pl_serving p' i = (if decide (i = id) then true else pl_serving p i));
  (** the completion of a source enabled in the context *)
  pl_complete c id p i : 0 ≤ c < 15872 → 0 < id < 1024 → PlicSpec.enable_bit (pl_reg p) c id = true →
    let p' := pl_write (PlicSpec.claim_complete c) id p in
    pl_pending p' i = pl_pending p i ∧
    pl_serving p' i = if decide (i = id) then false else pl_serving p i;
  (** an interrupt arrives *)
  pl_arrive_sources id p i :
    pl_pending (pl_arrive id p) i = (bool_decide (i = id) && negb (pl_serving p id) || pl_pending p i) ∧
    pl_serving (pl_arrive id p) i = pl_serving p i;
  pl_claim_config c p off : 0 ≤ c < 15872 → PlicSpec.is_config off →
    pl_reg (pl_read (PlicSpec.claim_complete c) p).2 off = pl_reg p off;
  pl_complete_config c id p off : 0 ≤ c < 15872 → PlicSpec.is_config off →
    pl_reg (pl_write (PlicSpec.claim_complete c) id p) off = pl_reg p off;
  pl_arrive_config id p off : PlicSpec.is_config off → pl_reg (pl_arrive id p) off = pl_reg p off;
}.

(** ** [Plic] *)
Definition COUNT_SOURCE : Z := 1024.
Definition COUNT_CONTEXT : Z := 15872.
Definition U32_BITS : Z := 32.
(** The offsets of the fields of the [repr(C)] structure. *)
Definition priorities_at : Z := 0.
Definition pending_bits_at : Z := priorities_at + 4 * COUNT_SOURCE.
Definition size_pending : Z := 4 * (COUNT_SOURCE / U32_BITS).
Definition enables_at : Z := pending_bits_at + size_pending + (4096 - size_pending).
Definition enables_len : Z := COUNT_SOURCE * COUNT_CONTEXT / U32_BITS.
Definition context_local_at : Z := enables_at + 4 * enables_len + 0xe000.
Definition size_context_local : Z := 4096.
Definition Plic_mmio : Z := PA_TO_VA + QEMU_PLIC_ADDR.

Section plic.
Context {P : Type} `{PlicDevice P}.
(** [self.array[i].get()]: the bounds check, and the address of the element *)
Definition element (at_ len size i : Z) : kst P Z :=
  if (0 <=? i) && (i <? len) then mret (at_ + size * i) else kcrash.
Definition read_volatile (off : Z) : kst P Z := λ p, let '(v, p) := pl_read off p in Done v p.
Definition write_volatile (off v : Z) : kst P () := kmodify (pl_write off v).

Definition set_priority (source_id value : Z) : kst P () :=
  ptr ← element priorities_at COUNT_SOURCE 4 source_id; write_volatile ptr value.
Definition enable (source_id context_id : Z) : kst P () :=
  let pos := context_id * COUNT_SOURCE + source_id in
  let group := pos / U32_BITS in
  let index := pos mod U32_BITS in
  ptr ← element enables_at enables_len 4 group;
  v ← read_volatile ptr;
  write_volatile ptr (Z.lor v (Z.shiftl 1 index)).
Definition set_threshold (context_id value : Z) : kst P () :=
  ptr ← element context_local_at COUNT_CONTEXT size_context_local context_id; write_volatile ptr value.
Definition claim (context_id : Z) : kst P Z :=
  ptr ← element context_local_at COUNT_CONTEXT size_context_local context_id; read_volatile (ptr + 4).
Definition complete (context_id source_id : Z) : kst P () :=
  ptr ← element context_local_at COUNT_CONTEXT size_context_local context_id;
  write_volatile (ptr + 4) (wrap 32 source_id).

(** The set-up of the controller in [drivers::init] *)
Definition source_id (s : InterruptSource) : Z := match s with VirtIO => 1 | Uart0 => 10 end.
Fixpoint init_contexts (l : list Z) : kst P () :=
  match l with
  | [] => mret ()
  | context :: l =>
      _ ← set_threshold context 0;
      _ ← enable (source_id Uart0) context;
      init_contexts l
  end.
Definition init_plic : kst P () :=
  _ ← init_contexts (seqZ 0 (MAX_HART_NUM * 2)); set_priority (source_id Uart0) 1.

(** ** The registers *)
Lemma layout :
  pending_bits_at = 0x1000 ∧ enables_at = 0x2000 ∧ context_local_at = 0x200000 ∧ Plic_mmio mod 4096 = 0.
Proof. done. Qed.

Import PlicSpec.
(** The sources of [p'] are as those of [p]. *)
Definition same_sources (p p' : P) : Prop :=
  ∀ id, pl_pending p' id = pl_pending p id ∧ pl_serving p' id = pl_serving p id.
Lemma same_sources_trans p1 p2 p3 : same_sources p1 p2 → same_sources p2 p3 → same_sources p1 p3.
Proof. intros Ha Hb id. destruct (Ha id) as [<- <-]. apply Hb. Qed.
(** [p'] has the configuration of [p], but for the register [off], which is [v],
    and its sources. *)
Definition set_reg (p p' : P) (off v : Z) : Prop :=
  (∀ o, is_config o → pl_reg p' o = if decide (o = off) then v else pl_reg p o) ∧ same_sources p p'.
Lemma config_priority id : 0 ≤ id < 1024 → is_config (priority id).
Proof. left. unfold priority. lia. Qed.
Lemma config_threshold c : 0 ≤ c < COUNT_CONTEXT → is_config (threshold c).
Proof. intros Hc. right. right. by exists c. Qed.
Lemma element_ok at_ len size i p : 0 ≤ i < len → element at_ len size i p = Done (at_ + size * i) p.
Proof.
  intros Hi. unfold element. rewrite (proj2 (Z.leb_le 0 i)), (proj2 (Z.ltb_lt i len)) by lia. done.
Qed.
Lemma write_reg off v p : is_config off → write_volatile off v p = Done () (pl_write off v p) ∧ set_reg p (pl_write off v p) off v.
Proof.
  intros Hc. split; [done|]. split; [|intros id; by apply pl_write_sources].
  intros o Ho. rewrite pl_write_config by done. by do 2 case_decide; congruence.
Qed.

Lemma set_priority_run src v p :
  0 ≤ src < COUNT_SOURCE → ∃ p', set_priority src v p = Done () p' ∧ set_reg p p' (priority src) v.
Proof.
  intros Hs. unfold set_priority. rewrite (kbind_run _ _ _ _ _ (element_ok _ _ _ _ p Hs)).
  destruct (write_reg (priority src) v p) as [He Hr]; [by apply config_priority|].
  eexists. split; [exact He|exact Hr].
Qed.
Lemma set_threshold_run c v p :
  0 ≤ c < COUNT_CONTEXT → ∃ p', set_threshold c v p = Done () p' ∧ set_reg p p' (threshold c) v.
Proof.
  intros Hc. unfold set_threshold. rewrite (kbind_run _ _ _ _ _ (element_ok _ _ _ _ p Hc)).
  destruct (write_reg (threshold c) v p) as [He Hr]; [by apply config_threshold|].
  eexists. split; [exact He|exact Hr].
Qed.
Lemma enable_position c src :
  0 ≤ c < COUNT_CONTEXT → 0 ≤ src < COUNT_SOURCE →
  let pos := c * COUNT_SOURCE + src in
  0 ≤ pos / U32_BITS < enables_len ∧ enables_at + 4 * (pos / U32_BITS) = enable_word c src ∧
  pos mod U32_BITS = src mod 32 ∧ is_config (enable_word c src).
Proof.
  unfold COUNT_CONTEXT, COUNT_SOURCE, U32_BITS. intros Hc Hs. cbv zeta.
  assert ((c * 1024 + src) / 32 = 32 * c + src / 32) as ->.
  { replace (c * 1024 + src) with (src + 32 * c * 32) by lia. rewrite Z.div_add by lia. lia. }
  assert ((c * 1024 + src) mod 32 = src mod 32) as ->.
  { replace (c * 1024 + src) with (src + 32 * c * 32) by lia. by rewrite Z.mod_add. }
  assert (0 ≤ src / 32 < 32) by (split; [apply Z.div_pos|apply Z.div_lt_upper_bound]; lia).
  change enables_len with 507904. change enables_at with 0x2000. unfold enable_word.
  split_and!; [lia|lia|lia|done|]. right. left. lia.
Qed.
Lemma enable_run src c p :
  0 ≤ c < COUNT_CONTEXT → 0 ≤ src < COUNT_SOURCE →
  ∃ p', enable src c p = Done () p' ∧
        set_reg p p' (enable_word c src) (Z.lor (pl_reg p (enable_word c src)) (Z.shiftl 1 (src mod 32))).
Proof.
  intros Hc Hs. destruct (enable_position c src Hc Hs) as (Hg & Ha & Hm & Hcf). unfold enable.
  rewrite (kbind_run _ _ _ _ _ (element_ok _ _ _ _ p Hg)), Ha, Hm.
  assert (read_volatile (enable_word c src) p = Done (pl_reg p (enable_word c src)) p) as Hr.
  { unfold read_volatile. by rewrite pl_read_config. }
  rewrite (kbind_run _ _ _ _ _ Hr).
  destruct (write_reg (enable_word c src) (Z.lor (pl_reg p (enable_word c src)) (Z.shiftl 1 (src mod 32))) p Hcf) as [He Hw].
  eexists. split; [exact He|exact Hw].
Qed.

(** Is [source] enabled in [context]? *)
Definition enabled (p : P) (c id : Z) : bool := enable_bit (pl_reg p) c id.
(** The registers of different kinds, contexts and groups of sources are apart. *)
Lemma enable_word_inj c c' a b :
  0 ≤ a < 1024 → 0 ≤ b < 1024 → enable_word c a = enable_word c' b → c = c' ∧ a / 32 = b / 32.
Proof.
  intros Ha Hb. unfold enable_word.
  assert (0 ≤ a / 32 < 32) by (split; [apply Z.div_pos|apply Z.div_lt_upper_bound]; lia).
  assert (0 ≤ b / 32 < 32) by (split; [apply Z.div_pos|apply Z.div_lt_upper_bound]; lia). lia.
Qed.
Lemma enabled_enable p p' c src c' id :
  0 ≤ c' < COUNT_CONTEXT → 0 ≤ src < 1024 → 0 ≤ id < 1024 →
  set_reg p p' (enable_word c src) (Z.lor (pl_reg p (enable_word c src)) (Z.shiftl 1 (src mod 32))) →
  enabled p' c' id = bool_decide (c' = c ∧ id = src) || enabled p c' id.
Proof.
  intros Hc Hs Hi [Hr _]. unfold enabled, enable_bit. rewrite Hr by apply (enable_position c' id Hc Hi). case_decide as Hd.
  - destruct (enable_word_inj _ _ _ _ Hi Hs Hd) as [-> Hg]. rewrite Hd, Z.lor_spec, orb_comm. f_equal.
    rewrite Z.shiftl_spec by (apply Z.mod_pos_bound; lia).
    rewrite (bool_decide_ext _ (id = src)) by naive_solver.
    pose proof (Z.div_mod id 32 ltac:(lia)). pose proof (Z.div_mod src 32 ltac:(lia)).
    destruct (decide (id mod 32 = src mod 32)) as [E|E].
    + rewrite bool_decide_eq_true_2 by lia. by rewrite E, Z.sub_diag.
    + rewrite bool_decide_eq_false_2 by congruence. destruct (Z.lt_ge_cases (id mod 32) (src mod 32)).
      * apply Z.testbit_neg_r. lia.
      * apply (Z.bits_above_log2 1); [lia|]. change (Z.log2 1) with 0. lia.
  - rewrite bool_decide_eq_false_2; [done|]. by intros [-> ->].
Qed.

Lemma word_low c id : 0 ≤ c < COUNT_CONTEXT → 0 ≤ id < 1024 → 0x2000 ≤ enable_word c id < 0x1f2000.
Proof.
  unfold COUNT_CONTEXT, enable_word. intros Hc Hi.
  assert (0 ≤ id / 32 < 32) by (split; [apply Z.div_pos|apply Z.div_lt_upper_bound]; lia). lia.
Qed.
Lemma config_word c id : 0 ≤ c < COUNT_CONTEXT → 0 ≤ id < 1024 → is_config (enable_word c id).
Proof. intros Hc Hi. right. left. by apply word_low. Qed.
(** What is enabled, the thresholds and the priorities of [p] *)
Record plic_state (p : P) (on : Z → Z → bool) (thr : Z → Z) (prio : Z → Z) : Prop := {
  ps_on c id : 0 ≤ c < COUNT_CONTEXT → 0 ≤ id < 1024 → enabled p c id = on c id;
  ps_thr c : 0 ≤ c < COUNT_CONTEXT → pl_reg p (threshold c) = thr c;
  ps_prio id : 0 ≤ id < 1024 → pl_reg p (priority id) = prio id;
}.
Lemma plic_state_self p : plic_state p (enabled p) (λ c, pl_reg p (threshold c)) (λ id, pl_reg p (priority id)).
Proof. by split. Qed.

Lemma set_threshold_state c v p on thr prio :
  0 ≤ c < COUNT_CONTEXT → plic_state p on thr prio →
  ∃ p', set_threshold c v p = Done () p' ∧ same_sources p p' ∧
        plic_state p' on (λ c', if decide (c' = c) then v else thr c') prio.
Proof.
  intros Hc [H1 H2 H3]. destruct (set_threshold_run c v p Hc) as (p' & He & Hr & Hs). exists p'. split_and!; [done..|]. split.
  - intros c' id Hc' Hi. unfold enabled, enable_bit. pose proof (word_low c' id Hc' Hi).
    rewrite Hr, decide_False; [by apply H1|unfold threshold; lia|by apply config_word].
  - intros c' Hc'. rewrite Hr by by apply config_threshold. rewrite H2 by done. unfold threshold. do 2 case_decide; lia.
  - intros id Hi. rewrite Hr, decide_False; [by apply H3|unfold priority, threshold; lia|by apply config_priority].
Qed.
Lemma enable_state src c p on thr prio :
  0 ≤ c < COUNT_CONTEXT → 0 ≤ src < 1024 → plic_state p on thr prio →
  ∃ p', enable src c p = Done () p' ∧ same_sources p p' ∧
        plic_state p' (λ c' id, bool_decide (c' = c ∧ id = src) || on c' id) thr prio.
Proof.
  intros Hc Hs [H1 H2 H3]. destruct (enable_run src c p Hc Hs) as (p' & He & Hr). exists p'. split; [done|].
  split; [apply Hr|]. pose proof (word_low c src Hc Hs) as Hw. split.
  - intros c' id Hc' Hi. rewrite (enabled_enable p p' c src c' id) by done. by rewrite H1.
  - intros c' Hc'. rewrite (proj1 Hr), decide_False; [by apply H2|unfold threshold; lia|by apply config_threshold].
  - intros id Hi. rewrite (proj1 Hr), decide_False; [by apply H3|unfold priority; lia|by apply config_priority].
Qed.
Lemma set_priority_state src v p on thr prio :
  0 ≤ src < 1024 → plic_state p on thr prio →
  ∃ p', set_priority src v p = Done () p' ∧ same_sources p p' ∧
        plic_state p' on thr (λ id, if decide (id = src) then v else prio id).
Proof.
  intros Hs [H1 H2 H3]. destruct (set_priority_run src v p Hs) as (p' & He & Hr & Hss). exists p'. split_and!; [done..|]. split.
  - intros c' id Hc' Hi. unfold enabled, enable_bit. pose proof (word_low c' id Hc' Hi).
    rewrite Hr, decide_False; [by apply H1|unfold priority; lia|by apply config_word].
  - intros c' Hc'. rewrite Hr, decide_False; [by apply H2|unfold threshold, priority; lia|by apply config_threshold].
  - intros id Hi. rewrite Hr by by apply config_priority. rewrite H3 by done. unfold priority. do 2 case_decide; lia.
Qed.
Lemma plic_state_ext p on thr prio on' thr' prio' :
  plic_state p on thr prio → (∀ c id, on c id = on' c id) → (∀ c, thr c = thr' c) → (∀ id, prio id = prio' id) →
  plic_state p on' thr' prio'.
Proof. intros [H1 H2 H3] E1 E2 E3. split; intros; rewrite <- ?E1, <- ?E2, <- ?E3; auto. Qed.

Lemma init_contexts_state l : ∀ p on thr prio,
  (∀ c, c ∈ l → 0 ≤ c < COUNT_CONTEXT) → plic_state p on thr prio →
  ∃ p', init_contexts l p = Done () p' ∧ same_sources p p' ∧
    plic_state p' (λ c id, bool_decide (c ∈ l ∧ id = 10) || on c id) (λ c, if decide (c ∈ l) then 0 else thr c) prio.
Proof.
  induction l as [|c l IH]; intros p on thr prio Hl Hp; cbn [init_contexts].
  - exists p. split_and!; [done|done|]. eapply plic_state_ext; [exact Hp|..]; intros; [|by rewrite decide_False by set_solver|done].
    rewrite bool_decide_eq_false_2 by set_solver. done.
  - destruct (set_threshold_state c 0 p on thr prio) as (p1 & E1 & S1 & H1); [apply Hl; left|done|].
    rewrite (kbind_run _ _ _ _ _ E1).
    destruct (enable_state (source_id Uart0) c p1 _ _ _ (Hl c ltac:(left)) ltac:(done) H1) as (p2 & E2 & S2 & H2).
    rewrite (kbind_run _ _ _ _ _ E2).
    destruct (IH p2 _ _ _ (λ x Hx, Hl x (list_elem_of_further _ _ _ Hx)) H2) as (p3 & E3 & S3 & H3). exists p3.
    split; [exact E3|]. split; [by do 2 (eapply same_sources_trans; [done|])|].
    eapply plic_state_ext; [exact H3|..]; [|intros c'|done].
    + intros c' id. simpl. rewrite orb_assoc. f_equal. apply eq_true_iff_eq. rewrite orb_true_iff, !bool_decide_eq_true, elem_of_cons.
      naive_solver.
    + cbn beta. destruct (decide (c' = c)) as [->|Hne].
      { rewrite (decide_True (P:=c ∈ c :: l)) by left. by destruct (decide (c ∈ l)). }
      destruct (decide (c' ∈ l)) as [Hin|Hin]; [rewrite decide_True; [done|by right]|rewrite decide_False; [done|]].
      rewrite elem_of_cons. tauto.
Qed.

(** After the set-up the serial port and nothing else was switched on. The
    writes through the controller's structure reach the registers of the memory
    map: every context of a hart has threshold zero and the serial port enabled,
    its priority is one, and every other enable bit, priority and threshold is as
    it was. *)
Lemma init_plic_run p :
  ∃ p', init_plic p = Done () p' ∧ same_sources p p' ∧
    plic_state p' (λ c id, bool_decide (0 ≤ c < 16 ∧ id = 10) || enabled p c id)
      (λ c, if decide (0 ≤ c < 16) then 0 else pl_reg p (threshold c))
      (λ id, if decide (id = 10) then 1 else pl_reg p (priority id)).
Proof.
  unfold init_plic.
  edestruct (init_contexts_state (seqZ 0 (MAX_HART_NUM * 2)) p) as (p1 & E1 & S1 & H1); [|apply plic_state_self|].
  { intros c Hc%elem_of_seqZ. unfold MAX_HART_NUM, COUNT_CONTEXT in *. lia. }
  rewrite (kbind_run _ _ _ _ _ E1).
  destruct (set_priority_state (source_id Uart0) 1 p1 _ _ _ ltac:(done) H1) as (p2 & E2 & S2 & H2). exists p2. split; [exact E2|].
  split; [by eapply same_sources_trans|].
  assert (∀ c, c ∈ seqZ 0 (MAX_HART_NUM * 2) ↔ 0 ≤ c < 16) as Hs by (intros c; rewrite elem_of_seqZ; unfold MAX_HART_NUM; lia).
  eapply plic_state_ext; [exact H2|..]; [intros c id; cbn beta; f_equal; apply bool_decide_ext; by rewrite Hs|intros c; cbn beta|done].
  destruct (decide (0 ≤ c < 16)); [rewrite decide_True by by apply Hs|rewrite decide_False by by rewrite Hs]; done.
Qed.
End plic.

(** ** External interrupts *)
Section external.
Context `{Buddy, KernelImage, ProcessEnv} {DB : DirBackend} {WD : World} {UW : UserWorld} {P : Type} `{PlicDevice P}.
Import PlicSpec.

Definition on_machine {A} (c : kst Machine A) : kst (Machine * P) A := λ s,
  match c s.1 with Done a m => Done a (m, s.2) | Fail e m => Fail e (m, s.2) | Crash => Crash end.
Definition on_plic {A} (c : kst P A) : kst (Machine * P) A := λ s,
  match c s.2 with Done a p => Done a (s.1, p) | Fail e p => Fail e (s.1, p) | Crash => Crash end.

(** [interrupt_handler] on the hart [hart_id], with the controller *)
Definition serve_interrupt (hart_id ch : Z) : kst (Machine * P) () :=
  let context_id := hart_id * 2 in
  interrupt_id ← on_plic (claim context_id);
  _ ← on_machine (interrupt_handler interrupt_id ch);
  if interrupt_id =? 0 then mret () else on_plic (complete context_id interrupt_id).

(** ** Interrupts over time

    The interrupt of a source arrives at the controller, or a hart takes an
    external interrupt when the serial port has the byte [ch]. *)
Inductive event : Type := Arrives (id : Z) | Traps (hart_id ch : Z).
Definition event_ok (e : event) : Prop :=
  match e with Arrives id => 0 < id < 1024 | Traps hart_id _ => 0 ≤ hart_id < MAX_HART_NUM end.
Fixpoint serve_all (l : list event) : kst (Machine * P) () :=
  match l with
  | [] => mret ()
  | Arrives id :: l => _ ← on_plic (kmodify (pl_arrive id)); serve_all l
  | Traps hart_id ch :: l => _ ← serve_interrupt hart_id ch; serve_all l
  end.
(** The bytes that must reach the terminal: that of the first trap after an
    interrupt of the serial port. A hart that is trapped by an interrupt
    another hart has claimed finds none. *)
Fixpoint received (pending : bool) (l : list event) : list Z :=
  match l with
  | [] => []
  | Arrives id :: l => received (pending || (id =? 10)) l
  | Traps _ ch :: l => if pending then ch :: received false l else received pending l
  end.

(** Only the serial port is enabled on the harts. *)
Definition uart_only (p : P) : Prop :=
  ∀ c id, 0 ≤ c < 16 → 0 ≤ id < 1024 → enabled p c id = bool_decide (id = 10).
Definition idle (p : P) : Prop := ∀ id, 0 < id < 1024 → pl_serving p id = false.
Definition uart_ready (p : P) : Prop := uart_only p ∧ 0 < pl_reg p (priority 10) ∧ idle p.
(** What interrupts leave alone: all but the terminal and the calls of wakers *)
Definition same_but_tty (m m' : Machine) : Prop := ∃ f woken,
  rtc (λ f f', ∃ t, f' = set_tty t f) (v_fs (m_vfs m)) f ∧
  m' = set_clock (m_trigger m) (m_timers m) (m_woken m ++ woken) (set_world f m).
Definition tty_of (m : Machine) : Tty := get_tty (v_fs (m_vfs m)).
Lemma same_but_tty_refl m : same_but_tty m m.
Proof. exists (v_fs (m_vfs m)), []. split; [done|]. rewrite app_nil_r. by destruct m as [? []]. Qed.
Lemma same_but_tty_trans m1 m2 m3 : same_but_tty m1 m2 → same_but_tty m2 m3 → same_but_tty m1 m3.
Proof.
  intros (f1 & w1 & Ha & ->) (f2 & w2 & Hb & ->). exists f2, (w1 ++ w2). split; [|simpl; by rewrite app_assoc].
  etransitivity; [exact Ha|exact Hb].
Qed.

(** The terminal after the bytes [bs]: those that find room are queued, and the
    reader that waits is woken by the first. *)
Definition tty_after (m : Machine) (bs : list Z) (m' : Machine) : Prop :=
  tty_queue (tty_of m') =
    tty_queue (tty_of m) ++ take (TTY_BUFFER_LEN - length (tty_queue (tty_of m))) bs ∧
  tty_waker (tty_of m') = (if bs is [] then tty_waker (tty_of m) else None) ∧
  m_woken m' = m_woken m ++ (if bs is [] then [] else option_list (tty_waker (tty_of m))).
Lemma tty_after_nil m : tty_after m [] m.
Proof. unfold tty_after. by rewrite take_nil, !app_nil_r. Qed.
Lemma tty_after_cons m b m1 bs m2 : tty_after m [b] m1 → tty_after m1 bs m2 → tty_after m (b :: bs) m2.
Proof.
  intros (Hq & Hw & Hc) (Hq' & Hw' & Hc'). unfold tty_after. rewrite Hq', Hw', Hc', Hq, Hw, Hc.
  split_and!; [|by destruct bs|destruct bs; by rewrite app_nil_r].
  rewrite length_app, <- app_assoc. f_equal.
  destruct (TTY_BUFFER_LEN - length (tty_queue (tty_of m)))%nat as [|n] eqn:Hn; simpl.
  - by replace (_ - _)%nat with 0%nat by lia.
  - rewrite take_nil. simpl. do 2 f_equal. lia.
Qed.

Lemma uart_handled ch m :
  ∃ m', interrupt_handler 10 ch m = Done () m' ∧ same_but_tty m m' ∧ tty_after m [ch] m'.
Proof.
  unfold interrupt_handler. change (10 =? 0) with false. cbv iota.
  unfold mbind, kst_bind, kget, kunwrap, kmodify. change (InterruptSource_from_id 10) with (Some Uart0).
  unfold mret, kst_ret. destruct (handle_irq ch (get_tty (v_fs (m_vfs m)))) as [t woken] eqn:Hi.
  eexists. split; [reflexivity|]. split; [exists (set_tty t (v_fs (m_vfs m))), woken; split; [|done]; apply rtc_once; by exists t|].
  unfold tty_after, tty_of. simpl. rewrite get_set_tty. unfold handle_irq in Hi. injection Hi as <- <-. simpl.
  split_and!; [|done|done]. destruct (Nat.ltb_spec (length (tty_queue (get_tty (v_fs (m_vfs m))))) TTY_BUFFER_LEN).
  - by rewrite (take_ge [ch]) by (simpl; lia).
  - rewrite (proj2 (Nat.sub_0_le _ _)) by done. by rewrite app_nil_r.
Qed.

Lemma uart_ready_same p p' :
  (∀ off, is_config off → pl_reg p' off = pl_reg p off) → idle p' → uart_ready p → uart_ready p'.
Proof.
  intros Hs Hi (Hu & Hp & _). split; [|split; [by rewrite Hs by by apply config_priority|done]].
  intros c id Hc Hid. rewrite <- (Hu c id Hc Hid). unfold enabled, enable_bit. rewrite Hs; [done|].
  apply config_word; unfold COUNT_CONTEXT; lia.
Qed.

Lemma claim_run c p : 0 ≤ c < COUNT_CONTEXT →
  claim c p = let '(id, p') := pl_read (claim_complete c) p in Done id p'.
Proof.
  intros Hc. unfold claim. rewrite (kbind_run _ _ _ _ _ (element_ok _ _ _ _ p Hc)). unfold read_volatile.
  change (context_local_at + size_context_local * c + 4) with (0x200000 + 4096 * c + 4).
  by replace (0x200000 + 4096 * c + 4) with (claim_complete c) by (unfold claim_complete; lia).
Qed.
Lemma complete_run c id p : 0 ≤ c < COUNT_CONTEXT →
  complete c id p = Done () (pl_write (claim_complete c) (wrap 32 id) p).
Proof.
  intros Hc. unfold complete. rewrite (kbind_run _ _ _ _ _ (element_ok _ _ _ _ p Hc)). unfold write_volatile, kmodify.
  change (context_local_at + size_context_local * c + 4) with (0x200000 + 4096 * c + 4).
  by replace (0x200000 + 4096 * c + 4) with (claim_complete c) by (unfold claim_complete; lia).
Qed.

(** One trap: the serial port's interrupt is claimed, handled and completed if it
    is pending, and otherwise nothing happens. *)
Lemma serve_interrupt_run hart ch m p :
  0 ≤ hart < MAX_HART_NUM → uart_ready p →
  ∃ m' p', serve_interrupt hart ch (m, p) = Done () (m', p') ∧ uart_ready p' ∧ pl_pending p' 10 = false ∧
    same_but_tty m m' ∧ tty_after m (if pl_pending p 10 then [ch] else []) m'.
Proof.
  intros Hh Hr. pose proof Hr as (Hu & Hp & Hs). unfold MAX_HART_NUM in Hh. unfold serve_interrupt. cbv zeta.
  set (c := hart * 2). assert (Hc : 0 ≤ c < COUNT_CONTEXT) by (unfold c, COUNT_CONTEXT; lia).
  assert (Hc16 : 0 ≤ c < 16) by (unfold c; lia).
  pose proof (claim_run c p Hc) as Hcl. pose proof (pl_claim c p Hc) as Hid.
  pose proof (λ off, pl_claim_config c p off Hc) as Hcc.
  destruct (pl_read (claim_complete c) p) as [id p1].
  assert (Hcl' : on_plic (claim c) (m, p) = Done id (m, p1)) by (unfold on_plic; cbn [fst snd]; by rewrite Hcl).
  rewrite (kbind_run _ _ _ _ _ Hcl').
  destruct Hid as [(-> & -> & Hnone)|(Hid & Hen & Hpe & Hsrc)].
  - exists m, p. assert (pl_pending p 10 = false) as Hpe by (apply Hnone; [lia|by apply Hu; lia|done]).
    rewrite Hpe. split_and!; [done..|apply same_but_tty_refl|apply tty_after_nil].
  - assert (id = 10) as ->.
    { assert (enabled p c id = true) as He by done. rewrite Hu in He by lia. by apply bool_decide_eq_true_1 in He. }
    destruct (uart_handled ch m) as (m' & Hm & Hsm & Hta).
    assert (Hm' : on_machine (interrupt_handler 10 ch) (m, p1) = Done () (m', p1)) by (unfold on_machine; cbn [fst snd]; by rewrite Hm).
    rewrite (kbind_run _ _ _ _ _ Hm'). change (10 =? 0) with false. cbv iota.
    set (p2 := pl_write (claim_complete c) 10 p1).
    assert (enable_bit (pl_reg p1) c 10 = true) as He1.
    { unfold enable_bit in *. rewrite Hcc; [done|]. by apply config_word. }
    pose proof (λ i, pl_complete c 10 p1 i Hc ltac:(lia) He1) as Hco. cbv zeta in Hco. fold p2 in Hco.
    exists m', p2. rewrite Hpe. split_and!; [unfold on_plic; cbn [fst snd]; by rewrite complete_run| | |done|done].
    + apply (uart_ready_same p); [|intros i Hi|done].
      * intros off Hoff. unfold p2. by rewrite pl_complete_config, Hcc.
      * destruct (Hco i) as [_ ->]. case_decide; [done|]. destruct (Hsrc i) as [_ ->].
        rewrite decide_False by done. by apply Hs.
    + destruct (Hco 10) as [-> _]. destruct (Hsrc 10) as [-> _]. done.
Qed.

Lemma serve_all_run l : Forall event_ok l → ∀ m p, uart_ready p →
  ∃ m' p', serve_all l (m, p) = Done () (m', p') ∧ uart_ready p' ∧ same_but_tty m m' ∧
    tty_after m (received (pl_pending p 10) l) m'.
Proof.
  induction 1 as [|[id|h ch] l He _ IH]; intros m p Hr; cbn [serve_all received].
  - exists m, p. split_and!; [done..|apply same_but_tty_refl|apply tty_after_nil].
  - assert (on_plic (kmodify (pl_arrive id)) (m, p) = Done () (m, pl_arrive id p)) as Ha by done.
    rewrite (kbind_run _ _ _ _ _ Ha).
    assert (Hr' : uart_ready (pl_arrive id p)).
    { apply (uart_ready_same p); [by apply pl_arrive_config| |done]. intros i Hi.
      destruct (pl_arrive_sources id p i) as [_ ->]. by apply Hr. }
    destruct (IH m _ Hr') as (m' & p' & Hrun & ? & ? & Ht). exists m', p'. split_and!; [done..|].
    destruct (pl_arrive_sources id p 10) as [Hp _]. rewrite Hp in Ht. destruct Hr as (_ & _ & Hi). simpl in He.
    rewrite (Hi id He), andb_true_r, orb_comm in Ht.
    by replace (id =? 10) with (bool_decide (10 = id)) by (case_bool_decide; lia).
  - destruct (serve_interrupt_run h ch m p He Hr) as (m1 & p1 & Hs & Hr1 & Hp1 & Hm1 & Ht1).
    rewrite (kbind_run _ _ _ _ _ Hs). destruct (IH m1 p1 Hr1) as (m' & p' & Hrun & Hr' & Hm' & Ht').
    exists m', p'. rewrite Hp1 in Ht'. split_and!; [done|done|by eapply same_but_tty_trans|].
    destruct (pl_pending p 10); [by eapply tty_after_cons|].
    destruct Ht1 as (Hq & Hw & Hc). unfold tty_after in *.
    rewrite take_nil, app_nil_r in Hq. rewrite app_nil_r in Hc. by rewrite Hq, Hw, Hc in Ht'.
Qed.

(** C28: every interrupt of the serial port is claimed, handled and completed, and
    no external interrupt panics the kernel (the handler panics on a source it does
    not know and on the block device's). A controller that had nothing enabled or
    in service is set up; then interrupts arrive and harts trap in any order, with
    one claim and completion at a time. The kernel keeps running; each interrupt of
    the serial port that a hart takes puts its byte into the queue of the terminal,
    as far as the 128 bytes of the queue go, and the first wakes the reader that
    waits; no source is left in service, only the serial port is enabled, and
    nothing but the terminal and the tasks it wakes is touched. *)
Theorem interrupts_served m p l :
  (∀ c id, 0 ≤ c < COUNT_CONTEXT → 0 ≤ id < 1024 → enabled p c id = false) → idle p →
  Forall event_ok l →
  ∃ m' p', (_ ← on_plic init_plic; serve_all l) (m, p) = Done () (m', p') ∧
    tty_after m (received (pl_pending p 10) l) m' ∧ idle p' ∧ uart_only p' ∧ same_but_tty m m'.
Proof.
  intros Hp Hi Hl. destruct (init_plic_run p) as (p1 & Hrun & Hsame & [Hon _ Hprio]).
  assert (Hi' : on_plic init_plic (m, p) = Done () (m, p1)) by (unfold on_plic; cbn [fst snd]; by rewrite Hrun).
  rewrite (kbind_run _ _ _ _ _ Hi').
  assert (Hr : uart_ready p1).
  { split_and!; [|by rewrite Hprio|intros id Hid; destruct (Hsame id) as [_ ->]; by apply Hi].
    intros c id Hc Hid. rewrite Hon, Hp, orb_false_r by (unfold COUNT_CONTEXT; lia). apply bool_decide_ext. tauto. }
  destruct (serve_all_run l Hl m p1 Hr) as (m' & p' & Hs & (Hu & _ & Hd) & Hm & Ht).
  exists m', p'. destruct (Hsame 10) as [<- _]. done.
Qed.
End external.

(** ** A controller *)
Module PlicDemo.
Import PlicSpec.
Record t : Type := mk { regs : gmap Z Z; pending : gset Z; serving : gset Z }.
Definition config (off : Z) : bool := (off <? 0x200000) || ((off - 0x200000) mod 0x1000 =? 0).
Definition reg (p : t) (off : Z) : Z := default 0 (regs p !! off).
Definition ready (p : t) (c id : Z) : bool :=
  (0 <? id) && (id <? 1024) && (enable_bit (reg p) c id && (0 <? reg p (priority id))).
Definition read (off : Z) (p : t) : Z * t :=
  if config off then (reg p off, p)
  else
    match list_find (λ id, ready p ((off - 0x200004) / 0x1000) id = true) (elements (pending p)) with
    | Some (_, id) => (id, mk (regs p) (pending p ∖ {[id]}) ({[id]} ∪ serving p))
    | None => (0, p)
    end.
Definition write (off v : Z) (p : t) : t :=
  if config off then mk (<[off := v]> (regs p)) (pending p) (serving p)
  else mk (regs p) (pending p) (serving p ∖ {[v]}).
Definition arrive (id : Z) (p : t) : t :=
  if bool_decide (id ∈ serving p) then p else mk (regs p) ({[id]} ∪ pending p) (serving p).

Lemma config_ok off : is_config off → config off = true.
Proof.
  unfold config. intros [Ho|[Ho|(c & Hc & ->)]]; [by rewrite (proj2 (Z.ltb_lt off _)) by lia..|].
  unfold threshold. replace (0x200000 + 0x1000 * c - 0x200000) with (c * 0x1000) by lia. rewrite Z.mod_mul by lia. apply orb_true_r.
Qed.
Lemma config_claim c : 0 ≤ c → config (claim_complete c) = false ∧ (claim_complete c - 0x200004) / 0x1000 = c.
Proof.
  intros Hc. unfold config, claim_complete. split.
  - rewrite (proj2 (Z.ltb_ge _ 0x200000)) by lia. replace (0x200004 + 0x1000 * c - 0x200000) with (4 + c * 0x1000) by lia.
    by rewrite Z.mod_add.
  - replace (0x200004 + 0x1000 * c - 0x200004) with (c * 0x1000) by lia. by rewrite Z.div_mul.
Qed.
#[export] Program Instance SimplePlic : PlicDevice t := {|
  pl_reg := reg; pl_pending p id := bool_decide (id ∈ pending p); pl_serving p id := bool_decide (id ∈ serving p);
  pl_read := read; pl_write := write; pl_arrive := arrive
|}.
Next Obligation. intros off p Hc. unfold read. by rewrite config_ok. Qed.
Next Obligation.
  intros off v p off' Hc _. unfold write, reg. rewrite config_ok by done. simpl. rewrite lookup_insert. by case_decide.
Qed.
Next Obligation. intros off v p id Hc. unfold write. by rewrite config_ok. Qed.
Next Obligation.
  intros c p Hc. unfold read. destruct (config_claim c) as [-> ->]; [lia|].
  destruct (list_find _ (elements (pending p))) as [[i id]|] eqn:Hf; [right|left]; simpl.
  - apply list_find_Some in Hf as (Hi & Hr & _). apply list_elem_of_lookup_2, elem_of_elements in Hi.
    unfold ready in Hr. apply andb_true_iff in Hr as [[?%Z.ltb_lt ?%Z.ltb_lt]%andb_true_iff [He _]%andb_true_iff].
    split_and!; [lia|lia|done|by apply bool_decide_eq_true_2|]. intros j.
    split; case_decide; rewrite ?(bool_decide_eq_false _), ?(bool_decide_eq_true _); try set_solver; apply bool_decide_ext; set_solver.
  - split_and!; [done..|]. intros i Hi He Hp. apply list_find_None in Hf. rewrite Forall_forall in Hf.
    apply bool_decide_eq_false_2. intros Hin%elem_of_elements. apply (Hf i Hin). unfold ready.
    by rewrite He, (proj2 (Z.ltb_lt _ _) Hp), !(proj2 (Z.ltb_lt _ _)) by lia.
Qed.
Next Obligation.
  intros c id p i Hc Hid He. simpl. unfold write. destruct (config_claim c) as [-> _]; [lia|]. simpl. split; [done|].
  case_decide; [apply bool_decide_eq_false_2|apply bool_decide_ext]; set_solver.
Qed.
Next Obligation.
  intros id p i. simpl. unfold arrive. destruct (bool_decide (id ∈ serving p)) eqn:Hs; simpl; rewrite ?andb_false_r, ?andb_true_r; [done|].
  split; [|done]. apply eq_true_iff_eq. rewrite orb_true_iff, !bool_decide_eq_true. set_solver.
Qed.
Next Obligation.
  intros c p off Hc _. unfold read. destruct (config_claim c) as [-> _]; [lia|].
  by destruct (list_find _ _) as [[i id]|].
Qed.
Next Obligation. intros c id p off Hc _. unfold write. by destruct (config_claim c) as [-> _]; [lia|]. Qed.
Next Obligation. intros id p off _. unfold arrive. by case_bool_decide. Qed.

Import Board.
#[local] Existing Instances BoardDirs BoardWorld BoardUser.
(** An interrupt of the serial port; hart 3 takes it with the byte 97, hart 0
    comes too late. Then another one. *)
Definition story : list event := [Arrives 10; Traps 3 97; Traps 0 0; Arrives 1; Arrives 10; Traps 0 98].
Definition off_plic : t := mk ∅ ∅ ∅.
Lemma interrupts_served_witness :
  ∃ m' p', (_ ← on_plic init_plic; serve_all story) (board dirty, off_plic) = Done () (m', p') ∧
           tty_queue (tty_of m') = [97; 98] ∧ idle p' ∧ m_kernel m' = m_kernel (board dirty).
Proof.
  destruct (interrupts_served (board dirty) off_plic story) as (m' & p' & H1 & (H2 & _) & H3 & _ & H4).
  - intros c id _ _. unfold enabled, enable_bit. simpl. unfold reg. simpl. rewrite lookup_empty. simpl. apply Z.bits_0.
  - intros id _. reflexivity.
  - repeat constructor; vm_compute; congruence.
  - exists m', p'. split_and!; [exact H1|exact H2|exact H3|]. destruct H4 as (f & w & _ & ->). reflexivity.
Defined.
End PlicDemo.
